(* ===== verification/_CoqProject ===== *)
-Q . S2P
Prelude.v
Encoding.v
Transaction.v
Block.v
Difficulty.v
Emission.v
HeaderRules.v
BlockRules.v
Resources.v
Utxo.v
Ledger.v
Reserve.v
ReserveModel.v
Layout.v
Address.v
Envelope.v
FeeReceipt.v
Fees.v
Weight.v
Commitment.v
Receipts.v
Bits.v
Smt.v
SmtProof.v
SmtWrite.v
StateValues.v
MapSum.v
Journal.v
MempoolGraph.v
Mempool.v
MempoolReplay.v
MempoolAdmit.v
MempoolCommit.v
MempoolPolicy.v
MempoolProps.v
Protocol.v
Framing.v
PeerPolicy.v
PeerBudget.v
Handshake.v
PeerService.v
Sync.v
Scheduler.v
Records.v
StoreSpec.v
Storage.v
StorageProps.v
ChainState.v
ChainRecovery.v
Fresh.v
LedgerRuns.v
ChainInv.v
ChainProofs.v
ChainReorg.v
ChainOpen.v
ChainRejected.v
ChainProps.v
ChainSync.v
Runtime.v
Effects.v
Coordinator.v
Proposal.v
CoordinatorCalls.v
CoordinatorFacts.v
ProposalFacts.v
CallDepth.v
CoordinatorProps.v
Relay.v
NodeCore.v
NodeProps.v
Engine.v
