(* ===== verification/Prelude.v ===== *)
(** * Oregon: a verification of the node

    Oregon is a proof-of-work chain with a native ledger of unspent outputs
    and an execution layer whose balances are held, on the native side, by one
    reserve output.  This library models the crates of the node: the formats
    and the rules that decide which blocks, transactions and state transitions
    are valid, the storage and the chain state that follow the heaviest valid
    chain, the pool, the network and the synchronisation with peers, the
    execution of contracts, and the node that puts them together.

    ** The program and where it is modelled

    Paths are under [src/crates/].  A definition has the name of the function
    or type it translates; a method [m] of a type [T] is [T_m] when [m] alone
    is not unique.

    - [oregon-primitives] defines the canonical objects.
      [error.rs], [amount.rs], [hash.rs], [encoding.rs]: Encoding.v (bounded
      amounts, hash text, the byte decoder as an effect on an offset, and the
      [Codec] law every reader satisfies); [transaction.rs]: Transaction.v;
      [block.rs], [merkle.rs]: Block.v; [execution_address.rs]: Address.v;
      [execution_envelope.rs]: Envelope.v; [fee_settlement.rs]: FeeReceipt.v;
      [state_commitment.rs]: Commitment.v; [execution_event.rs],
      [execution_effect.rs], [execution_receipt.rs]: Receipts.v;
      [execution_reserve.rs]: BlockRules.v.  Layout.v holds the lemmas about
      fixed-offset records that the last codecs share.
    - [oregon-consensus] and [oregon-pow] judge headers and blocks.
      [params.rs], [target.rs], [work.rs], [asert.rs] and the target check of
      [oregon-pow]: Difficulty.v; [emission.rs]: Emission.v; [time.rs],
      [header.rs], [pow.rs] and the RandomX key schedule and input:
      HeaderRules.v; [coinbase.rs], [block.rs]: BlockRules.v;
      [execution_resources.rs]: Resources.v.
    - [oregon-utxo] applies blocks to the ledger, with undo records:
      [state.rs], [undo.rs], [entry.rs], [verifier.rs]: Utxo.v; what
      connecting and disconnecting a block do: Ledger.v, and any sequence of
      them: LedgerRuns.v; the execution reserve, [reserve.rs]: Reserve.v.
    - [oregon-contract-state] keeps each state domain in a sparse Merkle tree
      of 256 levels.  [hash.rs], [node.rs], [source.rs] and reads: Smt.v;
      [proof.rs]: SmtProof.v; write sets and [transition.rs]: SmtWrite.v.
      [execution_accounting.rs] and [fee_state.rs], the keys and values of two
      domains: StateValues.v.  Bits.v relates paths and bitmaps to the order of
      byte strings.
    - [oregon-execution] runs one execution.  [fees.rs] (terms, funding and
      the escrow book): Fees.v; [weight.rs] (the weight meter): Weight.v;
      [journal.rs] and [journal/*.rs] (the stack of write frames and its
      finalisation into state transitions): Journal.v, with MapSum.v for the
      sums of its accounting.  The coordinator, [coordinator/*.rs]: Effects.v
      ([types.rs], [effects.rs]: limits, errors and the stack of events and
      return data), Coordinator.v ([host.rs], [calls.rs], [accounting.rs]: what
      a host call costs, where a contract's storage is, balances, nested calls
      and the host a contract sees), Proposal.v ([settlement.rs],
      [proposal.rs]: the escrow, the settlement, the receipts and the whole
      transaction).  CoordinatorCalls.v proves, for any relation that single
      writes and transfers respect, that every contract respects it;
      CoordinatorFacts.v instantiates it with confinement and conservation;
      ProposalFacts.v follows a transaction from escrow to receipt;
      CallDepth.v a chain of nested calls down to the depth limit;
      CoordinatorProps.v has the theorems and a transaction that runs.
    - [oregon-runtime] is the interface between the coordinator and contract
      engines: Runtime.v has its types, the host as a record of operations and
      a backend as an arbitrary program over it.
    - [oregon-mempool] keeps the unconfirmed transactions.  [graph.rs],
      [entry.rs], [error.rs]: MempoolGraph.v; [config.rs], [pool.rs],
      [admission.rs], [capacity.rs], [eviction.rs], [reconcile.rs]: Mempool.v.
      The invariant of the pool is built up in MempoolReplay.v (replaying a
      list in dependency order), MempoolAdmit.v (the narrow state and
      [prepare_admission]), MempoolCommit.v (removal and insertion) and
      MempoolPolicy.v (the eviction order and the capacity loop);
      MempoolProps.v has reconciliation, reachable pools and the theorems.
    - [oregon-protocol] and [oregon-network] carry messages: messages, frames
      and features: Protocol.v; [io.rs], reading and writing frames on a
      stream: Framing.v.
    - [oregon-peer] keeps the peers: configuration, scores, cooldowns,
      liveness and requests: PeerPolicy.v; [budget.rs]: PeerBudget.v;
      [handshake.rs]: Handshake.v; [service.rs] and [session.rs], the registry
      and the sessions: PeerService.v.
    - [oregon-sync] catches up with peers, over the interface [ChainSyncView]:
      locators, header responses and download targets: Sync.v;
      [scheduler.rs]: Scheduler.v.
    - [oregon-storage] keeps blocks, headers, outputs and undo records:
      [records.rs], [schema.rs], [codec.rs]: Records.v; [batch.rs], the
      abstract store and the interface [BlockStore] that the chain state is
      proved against: StoreSpec.v; [db.rs] over RocksDB: Storage.v, and
      StorageProps.v discharges the interface and has the schema migration.
    - [oregon-chainstate] follows the heaviest valid chain: [header.rs],
      [branch.rs], [admission.rs], [transition.rs], [reorg.rs],
      [utxo_delta.rs], [state.rs]: ChainState.v; [prune.rs], [recovery.rs],
      [sync_view.rs] and the node's view: ChainRecovery.v.  Fresh.v shows that
      a transaction identifier is not reused without a collision; ChainInv.v
      states the invariant, ChainProofs.v and ChainReorg.v prove that blocks,
      headers and reorganisations keep it, ChainOpen.v that starting, pruning
      and restarting do, ChainRejected.v what a branch that is refused leaves
      behind; ChainProps.v and ChainSync.v have the theorems, the
      latter the link to Sync.v.
    - [oregon-node] is the process: [relay.rs]: Relay.v; [core.rs],
      [orchestration.rs], [lib.rs], [network.rs]: NodeCore.v; NodeProps.v has
      its runs, with any number of clients, and the theorems.
    - [oregon-pow] binds the RandomX library: [engine.rs], [ffi.rs]: Engine.v.
    - [verification/reserve-conservation/src/model.rs] is a bounded model of
      the reserve that the repository checks with Kani: ReserveModel.v, and
      that it agrees with the production code.

    The parts meet as follows.  Blocks are decoded by the primitives; the
    header rules judge the header, the block rules the skeleton and the
    coinbase, and [connect_block] applies the transactions and records what is
    needed to disconnect.  The chain state does so for every submitted block,
    keeps its tree of headers, its active chain and its undo records in the
    database and its outputs in memory as well, and reorganises when a branch
    has more work.  The mempool applies candidates with the ledger's
    [apply_normal_transaction] to a narrow copy of the chain's outputs, and is
    rebuilt when the chain moves.  One worker of the node owns both; clients,
    peers among them, reach it through a bounded queue.  Peers exchange framed
    messages after a handshake; synchronisation reads the chain state through
    a view and hands blocks on in order.  The execution journal reads a
    domain's tree through [read_value] and turns its buffered writes into the
    write set that [apply_write_set] applies; the coordinator runs contracts on
    the journal, the meter and the effect stack, and settles the fee from the
    escrow; the roots enter the aggregate commitment.

    ** How the code is represented

    Machine integers are [Z] with their widths kept: [checked_add max],
    [checked_sub], [try_from] and the 128-bit signed checks are the checked
    operations of the source.  [usize] is 64 bits wide.  Fallible code returns
    [result]; code on [&mut self] is an [eff], which returns its result with
    the state it leaves, so that what a failure leaves behind is visible.
    Fixed arrays are byte lists of a given length ([arr n]).  Hash maps and
    ordered maps used for lookup are [gmap]; where the iteration order is
    observable the model sorts by the order the code uses.

    Panics ([expect], debug assertions) are [None] where code relies on not
    having one.  Concurrency is explicit: a mutex makes an operation one step,
    and a theorem speaks of every order of the steps.

    Outside code is a parameter.  [Blake3] (class of Encoding.v) is the hash
    function of the blake3 crate, any function from bytes to 32 bytes;
    [PowEngine] and [PowKeyBlockSource] stand for the RandomX engine and the
    index of validated blocks, [RandomX] and [RandomXLib] with [RandomXLaws]
    for the C library as header validation and the engines see it,
    [SpendVerifier] for the check of unlocking data, [StateSource] for the
    store of tree nodes and values, [RocksDb] with [RocksDbLaws] for the
    key-value store, [BlockStore] with [BlockStoreLaws] for the database as
    the chain state sees it (discharged by StorageProps.v), [ChainSyncView]
    for the chain as synchronisation sees it (discharged by ChainSync.v),
    [TransportConnection] for a connection, [Tokio] with [TokioLaws] for
    channels and semaphores; clocks, entropy, the transport's answers, the
    validator of funding sources and the contract backends are arguments.
    Every class of laws has an instance that a witness uses.  No theorem
    assumes that a hash is injective: where binding needs it, the conclusion
    or the hypothesis speaks of a collision among an explicit set of messages
    of the objects at hand ([collision_in], [collision_free]), and a
    witness shows the hypothesis satisfied by a concrete function.

    ** What the theorems show

    - Money: the value of all unspent outputs never exceeds the minted total
      nor the supply cap in any state reached by connecting and disconnecting
      blocks, and undo records restore every earlier state, unless an identifier
      collides; a transaction is
      applied exactly with existing, mature, authorised inputs, and a refused
      one changes nothing; a coinbase claims at most subsidy, fees and the
      founder output; the reserve changes by deposits, withdrawals and fees
      only, and the repository's own bounded model of it is faithful (LedgerRuns.v,
      Utxo.v, BlockRules.v, Emission.v, Reserve.v, ReserveModel.v).
    - Work: the ASERT rule equals its reference formula without overflow on
      all inputs and is monotone; an accepted header has the required work
      under the right key; the median and the key schedule meet their
      specifications; the engines compute the same hash and own what they
      allocate (Difficulty.v, HeaderRules.v, Engine.v).
    - Formats: every codec accepts exactly the encodings of the values its
      limits admit, so encodings are unique; identifiers and roots bind
      contents up to collisions (Encoding.v, Transaction.v, Block.v,
      Address.v, FeeReceipt.v, Commitment.v).
    - State: a root fixes the value of every key; whatever can be read can be
      proved and the proof verifies; applying a write set refines the update
      of a map (SmtProof.v, SmtWrite.v).
    - Execution: the journal refines a stack of full copies, its counters are
      exact and its finalisation carries every read into the new roots; the
      meter charges exactly the rounded totals however charges interleave; no
      escrow, source or capability is used twice, and settlements add up; the
      base fee and the block budget stay in their bounds (Journal.v, Weight.v,
      Fees.v, Resources.v).  Envelopes and receipts are accepted exactly in
      their canonical form, their digests bind what they cover, and the
      accounting write set says what it is meant to say (Envelope.v,
      Receipts.v, StateValues.v).
    - Contracts: whatever a contract does, it changes storage only in the scope
      of registered contracts and nothing in a read-only call, moves value
      without making or losing any, and keeps every account exact; a nested
      call is all or nothing; calls end; a transaction changes the balances by
      exactly its fee, settles its escrow once and says so in its receipts; the
      depth limit is one short of what its design says, at the price of the full
      weight (CoordinatorProps.v).
    - Mempool: in every pool reached by admissions, blocks and reorganisations
      the indices are consistent, both limits hold and the deterministic order
      replays on the chain with the recorded fees; no admission reports an
      internal error, refused ones change nothing, evictions take the worst
      entries with their descendants; reconciliation always succeeds.  The
      order is the unique greedy topological order (MempoolGraph.v,
      MempoolProps.v).
    - Storage: the database refines an abstract store with atomic batches, its
      records have one encoding, and the migration of the schema can be
      interrupted anywhere (StorageProps.v, Records.v).
    - Chain: in every state that blocks, headers, pruning, failures and restarts
      lead to, the database holds a tree of headers with their true work, an
      active path of valid blocks whose replay is the set of outputs, and a
      preferred header of maximal work, and memory mirrors it; submissions do
      what their outcome says; restarting restores; pruning keeps every
      reorganisation of the window; the walks end.  A rejected branch that was preferred
      stops the next start, and one can stop pruning (ChainProps.v).
    - Network: messages have one encoding and arrive as sent however the bytes
      are cut; two honest processes complete the handshake in any order; a
      session is what it should be, registry and budgets are exact, both sides
      keep the same one of two crossing connections (Protocol.v, Framing.v,
      Handshake.v, PeerService.v, PeerBudget.v).
    - Synchronisation: a round of headers makes progress from the best common
      block; exactly the missing blocks are asked for and handed on in order,
      each once, except that a full buffer stops the download for good
      (Sync.v, Scheduler.v); the node's view satisfies what this assumes
      (ChainSync.v).
    - Node: for all its clients together the node is the worker's loop run on
      the accepted commands in order, within 64 commands and 8 MiB; its pool
      always sits on the chain's tip, can be mined and loses to a block only
      what the block takes, contradicts or leaves invalid; no panic is reached; an
      object is relayed only when accepted, and announced once (NodeProps.v,
      Relay.v).

    ** Bounds and fuel

    Every loop over data is structural.  The tree loops recurse on the number
    of levels below a node, 256 at the root as in the source.  Fuel is used in
    these places.  The Merkle reduction of Block.v has the number of leaves:
    each round at least halves a level of two or more nodes, and the lemmas of
    that file show that the loop always ends with one root.  The closures of
    MempoolGraph.v have one step for every push an entry can cause, the
    topological order one for every entry and one to stop
    ([graph_loops_terminate]); the capacity loop of Mempool.v has one for every
    entry that can be evicted and two more ([capacity_spec] of
    MempoolPolicy.v shows that it never runs out).  The walks to an ancestor
    and to the fork in ChainState.v have the difference of heights, which is
    enough on any database ([tree_walks_terminate]).  A locator has at most 64
    entries and a header response 128, as in the source, and their loops of
    Sync.v that many rounds.  Reading an event of a session ignores at most
    the expired requests in its grace list, one round each ([read_event_loop_total]);
    a handshake ends after the messages that fit before its deadline.  Contract
    calls nest at most 64 deep ([call_levels_suffice]); a backend is a
    well-founded tree, since an engine's instructions are metered.  The slices
    of a header submission take at least one header each.  The maturity, size,
    depth and capacity limits are the source's constants.

    ** Findings

    Five places where the code does not do what it means to, or what a document
    says, are proved or described in the manifest: a rejected heavier branch
    that stops the next start ([rejected_branch_blocks_restart]) and pruning; a
    prune cursor that refuses a restart after a reorganisation to a lower tip;
    a full download buffer that wedges the scheduler ([full_buffer_wedges]);
    a call-depth limit that is one short ([call_depth_one_short]).

    ** Not modelled

    Foreign code is outside the model: the RandomX C library, the blake3 crate,
    RocksDB, tokio's scheduler, and TCP sockets ([tcp.rs], which only connects
    the framing of Framing.v to a socket).  So are the test hooks and the
    synthetic test migration of the storage crate, the probes of the node's
    worker that are compiled for tests, the Kani harnesses, which are proofs
    themselves, the build scripts, the text of error messages and plain field
    accessors.  The coordinator is compiled for tests only in this revision;
    the lines it has for other builds are left out. *)
From Stdlib Require Export ZArith Lia Strings.Byte.
From Stdlib Require String.
From stdpp Require Export base sorting numbers option countable sets gmap list.
Export String.StringSyntax.

#[global] Open Scope Z_scope.

(** ** Results: Rust's [Result<A, E>] *)

Inductive result (E A : Type) : Type :=
| Ok (a : A)
| Err (e : E).
Arguments Ok {E A} a.
Arguments Err {E A} e.

Declare Scope oregon_scope.
Delimit Scope oregon_scope with oregon.
#[global] Open Scope oregon_scope.

(** [let? x := e in k] is Rust's [let x = e?; k]. *)
Notation "'let?' x ':=' c 'in' k" :=
  (match c with Ok x => k | Err err => Err err end)
  (at level 10, x pattern, c at level 100, k at level 200,
   format "'[v' 'let?'  x  ':='  c  'in' '/' k ']'") : oregon_scope.

(** [ensure b else e in k] is [if !b { return Err(e); } k]. *)
Notation "'ensure' b 'else' e 'in' k" :=
  (if b then k else Err e)
  (at level 10, b at level 100, e at level 100, k at level 200,
   format "'[v' 'ensure'  b  'else'  e  'in' '/' k ']'") : oregon_scope.

Definition ok_or {E A} (o : option A) (e : E) : result E A :=
  match o with Some a => Ok a | None => Err e end.

Definition map_err {E F A} (f : E -> F) (r : result E A) : result F A :=
  match r with Ok a => Ok a | Err e => Err (f e) end.

Definition is_ok {E A} (r : result E A) : bool :=
  match r with Ok _ => true | Err _ => false end.

(** [try_fold f l a] is [Iterator::try_fold] with a fallible step. *)
Fixpoint try_fold {E A B} (f : B -> A -> result E B) (l : list A) (acc : B) : result E B :=
  match l with
  | [] => Ok acc
  | x :: xs => let? acc' := f acc x in try_fold f xs acc'
  end.

(** [try_map f l] collects a fallible map, stopping at the first error. *)
Fixpoint try_map {E A B} (f : A -> result E B) (l : list A) : result E (list B) :=
  match l with
  | [] => Ok []
  | x :: xs => let? y := f x in let? ys := try_map f xs in Ok (y :: ys)
  end.

(** ** Effectful code: a mutable state threaded through fallible steps.
    On an error the state reached so far is kept, as in Rust, where an early
    return does not roll mutations back. *)

Definition eff (S E A : Type) : Type := S -> result E A * S.

Definition eff_ret {S E A} (a : A) : eff S E A := fun s => (Ok a, s).
Definition eff_fail {S E A} (e : E) : eff S E A := fun s => (Err e, s).
Definition eff_lift {S E A} (r : result E A) : eff S E A := fun s => (r, s).
(** A read of the state. *)
Definition eff_read {S E A} (f : S -> result E A) : eff S E A := fun s => (f s, s).
Definition eff_map_err {S E F A} (f : E -> F) (m : eff S E A) : eff S F A := fun s =>
  let '(r, s) := m s in (map_err f r, s).
Definition eff_bind {S E A B} (m : eff S E A) (k : A -> eff S E B) : eff S E B :=
  fun s => match m s with
           | (Ok a, s') => k a s'
           | (Err e, s') => (Err e, s')
           end.

Notation "'let!' x ':=' c 'in' k" :=
  (eff_bind c (fun x => k))
  (at level 10, x pattern, c at level 100, k at level 200,
   format "'[v' 'let!'  x  ':='  c  'in' '/' k ']'") : oregon_scope.

(** ** Machine integers *)

Definition U8_MAX : Z := 2^8 - 1.
Definition U16_MAX : Z := 2^16 - 1.
Definition U32_MAX : Z := 2^32 - 1.
Definition U64_MAX : Z := 2^64 - 1.
Definition U128_MAX : Z := 2^128 - 1.
Definition USIZE_MAX : Z := U64_MAX.
Definition I128_MAX : Z := 2^127 - 1.
Definition I128_MIN : Z := - 2^127.

Definition in_u8 (z : Z) : Prop := 0 <= z <= U8_MAX.
Definition in_u16 (z : Z) : Prop := 0 <= z <= U16_MAX.
Definition in_u32 (z : Z) : Prop := 0 <= z <= U32_MAX.
Definition in_u64 (z : Z) : Prop := 0 <= z <= U64_MAX.
Definition in_i128 (z : Z) : Prop := I128_MIN <= z <= I128_MAX.

#[global] Instance in_u16_dec z : Decision (in_u16 z). Proof. unfold in_u16. apply _. Defined.
#[global] Instance in_u32_dec z : Decision (in_u32 z). Proof. unfold in_u32. apply _. Defined.
#[global] Instance in_u64_dec z : Decision (in_u64 z). Proof. unfold in_u64. apply _. Defined.

(** [checked_add] and friends on an unsigned type of maximum [max]. *)
Definition checked_add (max a b : Z) : option Z :=
  if a + b <=? max then Some (a + b) else None.
Definition checked_sub (a b : Z) : option Z :=
  if b <=? a then Some (a - b) else None.
Definition checked_mul (max a b : Z) : option Z :=
  if a * b <=? max then Some (a * b) else None.
Definition saturating_sub (a b : Z) : Z := Z.max 0 (a - b).
Definition saturating_add (max a b : Z) : Z := Z.min max (a + b).
Definition try_from (max z : Z) : option Z :=
  if (0 <=? z) && (z <=? max) then Some z else None.

(** Checked arithmetic on [i128]. *)
Definition i128_checked (z : Z) : option Z :=
  if (I128_MIN <=? z) && (z <=? I128_MAX) then Some z else None.

Ltac unfold_ints :=
  unfold in_u8, in_u16, in_u32, in_u64, in_i128, U8_MAX, U16_MAX, U32_MAX, USIZE_MAX, U64_MAX,
    U128_MAX, I128_MAX, I128_MIN in *.

Lemma try_map_Forall2 {E A B} (f : A -> result E B) l l' :
  try_map f l = Ok l' -> Forall2 (fun a b => f a = Ok b) l l'.
Proof.
  revert l'. induction l as [|a l IH]; intros l'; cbn [try_map]; [intros [= <-]; constructor|].
  destruct (f a) as [b|] eqn:Ef; [|done]. destruct (try_map f l) as [bs|]; [|done]. intros [= <-]. constructor; auto.
Qed.

Lemma checked_add_Some max a b c :
  checked_add max a b = Some c <-> c = a + b /\ a + b <= max.
Proof. unfold checked_add. case_match eqn:E; naive_solver lia. Qed.

Lemma checked_add_None max a b : checked_add max a b = None <-> max < a + b.
Proof. unfold checked_add. case_match eqn:E; naive_solver lia. Qed.

Lemma checked_sub_Some a b c : checked_sub a b = Some c <-> c = a - b /\ b <= a.
Proof. unfold checked_sub. case_match eqn:E; naive_solver lia. Qed.

Lemma checked_sub_None a b : checked_sub a b = None <-> a < b.
Proof. unfold checked_sub. case_match eqn:E; naive_solver lia. Qed.

Lemma checked_mul_Some max a b c :
  checked_mul max a b = Some c <-> c = a * b /\ a * b <= max.
Proof. unfold checked_mul. case_match eqn:E; naive_solver lia. Qed.

Lemma try_from_Some max z c : try_from max z = Some c <-> c = z /\ 0 <= z <= max.
Proof. unfold try_from. case_match eqn:E; naive_solver lia. Qed.

Lemma i128_checked_in z : in_i128 z -> i128_checked z = Some z.
Proof. unfold i128_checked, in_i128. intros. case_match eqn:E; [done|lia]. Qed.

Lemma ok_or_Ok {E A} (o : option A) (e : E) a : ok_or o e = Ok a <-> o = Some a.
Proof. destruct o; simpl; split; intros; simplify_eq; done. Qed.

Lemma map_err_Ok {E F A} (f : E -> F) (r : result E A) a : map_err f r = Ok a <-> r = Ok a.
Proof. destruct r; simpl; split; intros; simplify_eq; done. Qed.

(** ** Bytes *)

#[global] Instance byte_eq_dec : EqDecision byte.
Proof. intros x y. destruct (Byte.byte_eq_dec x y); [left|right]; done. Defined.

#[global] Program Instance byte_countable : Countable byte :=
  inj_countable Byte.to_N Byte.of_N _.
Next Obligation. intros x. apply Byte.of_to_N. Qed.

Definition byte_to_Z (b : byte) : Z := Z.of_N (Byte.to_N b).
(** [value as u8] *)
Definition byte_of_Z (z : Z) : byte :=
  match Byte.of_N (Z.to_N (z mod 256)) with Some b => b | None => x00 end.

Lemma byte_to_Z_range b : 0 <= byte_to_Z b <= 255.
Proof. unfold byte_to_Z. pose proof (Byte.to_N_bounded b). lia. Qed.

Lemma byte_of_to_Z b : byte_of_Z (byte_to_Z b) = b.
Proof.
  unfold byte_of_Z. pose proof (byte_to_Z_range b).
  rewrite Z.mod_small by lia. unfold byte_to_Z. by rewrite N2Z.id, Byte.of_to_N.
Qed.

Lemma byte_to_of_Z z : byte_to_Z (byte_of_Z z) = z mod 256.
Proof.
  unfold byte_of_Z. pose proof (Z.mod_pos_bound z 256 ltac:(lia)).
  destruct (Byte.of_N _) as [b|] eqn:E.
  - apply Byte.to_of_N in E. unfold byte_to_Z. rewrite E. lia.
  - apply Byte.of_N_None_iff in E. lia.
Qed.

Lemma byte_to_Z_inj b1 b2 : byte_to_Z b1 = byte_to_Z b2 -> b1 = b2.
Proof. intros E. by rewrite <- (byte_of_to_Z b1), <- (byte_of_to_Z b2), E. Qed.

(** [uN::to_le_bytes] with [n] bytes, and [uN::from_le_bytes]. *)
Fixpoint le_bytes (n : nat) (z : Z) : list byte :=
  match n with
  | O => []
  | S n => byte_of_Z z :: le_bytes n (z / 256)
  end.

Fixpoint le_num (l : list byte) : Z :=
  match l with
  | [] => 0
  | b :: l => byte_to_Z b + 256 * le_num l
  end.

Lemma length_le_bytes n z : length (le_bytes n z) = n.
Proof. revert z. induction n; intros; simpl; auto. Qed.

Lemma le_num_range l : 0 <= le_num l < 256 ^ Z.of_nat (length l).
Proof.
  induction l as [|b l IH]; [done|].
  cbn [le_num length]. rewrite Nat2Z.inj_succ, Z.pow_succ_r by lia.
  pose proof (byte_to_Z_range b). lia.
Qed.

Lemma le_num_le_bytes n z : 0 <= z < 256 ^ Z.of_nat n -> le_num (le_bytes n z) = z.
Proof.
  revert z. induction n as [|n IH]; intros z Hz.
  - cbn in *. lia.
  - rewrite Nat2Z.inj_succ, Z.pow_succ_r in Hz by lia. cbn [le_num le_bytes].
    rewrite byte_to_of_Z, IH by (split; [apply Z.div_pos|apply Z.div_lt_upper_bound]; lia).
    pose proof (Z.div_mod z 256). lia.
Qed.

Lemma le_bytes_inj n a b :
  0 <= a < 256 ^ Z.of_nat n -> 0 <= b < 256 ^ Z.of_nat n -> le_bytes n a = le_bytes n b -> a = b.
Proof. intros Ha Hb E. by rewrite <- (le_num_le_bytes n a), <- (le_num_le_bytes n b), E. Qed.

Lemma le_bytes_le_num l : le_bytes (length l) (le_num l) = l.
Proof.
  induction l as [|b l IH]; [done|].
  cbn [le_num length le_bytes]. pose proof (byte_to_Z_range b).
  assert ((byte_to_Z b + 256 * le_num l) / 256 = le_num l) as ->.
  { rewrite Z.mul_comm, Z.div_add, Z.div_small by lia. lia. }
  rewrite IH. f_equal. apply byte_to_Z_inj.
  rewrite byte_to_of_Z, Z.mul_comm, Z.mod_add, Z.mod_small by lia. done.
Qed.

Lemma le_num_inj l1 l2 : length l1 = length l2 -> le_num l1 = le_num l2 -> l1 = l2.
Proof. intros HL HN. rewrite <- (le_bytes_le_num l1), <- (le_bytes_le_num l2). congruence. Qed.

Lemma le_bytes_eq n l z :
  length l = n -> le_num l = z -> le_bytes n z = l.
Proof. intros <- <-. apply le_bytes_le_num. Qed.

#[global] Opaque le_bytes le_num.

(** A byte-string literal closed by a NUL, the shape of every hash domain. *)
Definition domain_tag (s : String.string) : list byte := String.list_byte_of_string s ++ [x00].
Arguments domain_tag s%_string_scope.

(** Lexicographic [Ord] of byte arrays. *)
Fixpoint bytes_cmp (a b : list byte) : comparison :=
  match a, b with
  | [], [] => Eq
  | [], _ :: _ => Lt
  | _ :: _, [] => Gt
  | x :: xs, y :: ys =>
      match Z.compare (byte_to_Z x) (byte_to_Z y) with
      | Eq => bytes_cmp xs ys
      | c => c
      end
  end.

(** ** Fixed-size byte arrays [[u8; n]] *)

Record arr (n : nat) : Type := Arr {
  arr_bytes : list byte;
  arr_ok : Nat.eqb (length arr_bytes) n = true;
}.
Arguments Arr {n} _ _.
Arguments arr_bytes {n} _.
Arguments arr_ok {n} _.

(** [<[u8; n]>::try_from(slice)] *)
Definition to_arr (n : nat) (l : list byte) : option (arr n) :=
  match Bool.bool_dec (Nat.eqb (length l) n) true with
  | left e => Some (Arr l e)
  | right _ => None
  end.

Lemma arr_length {n} (a : arr n) : length (arr_bytes a) = n.
Proof. apply Nat.eqb_eq, arr_ok. Qed.

Lemma arr_eq {n} (a b : arr n) : arr_bytes a = arr_bytes b -> a = b.
Proof.
  destruct a as [x Hx], b as [y Hy]. simpl. intros ->. f_equal. apply proof_irrel.
Qed.

Lemma to_arr_bytes {n} (a : arr n) : to_arr n (arr_bytes a) = Some a.
Proof.
  unfold to_arr. destruct (Bool.bool_dec _ _) as [e|e].
  - f_equal. by apply arr_eq.
  - by rewrite arr_ok in e.
Qed.

Lemma to_arr_Some n l a : to_arr n l = Some a <-> l = arr_bytes a.
Proof.
  split; [|intros ->; apply to_arr_bytes].
  unfold to_arr. destruct (Bool.bool_dec _ _); intros; by simplify_eq.
Qed.

Lemma to_arr_is_Some n l : length l = n -> exists a : arr n, to_arr n l = Some a.
Proof.
  intros H%Nat.eqb_eq. unfold to_arr. destruct (Bool.bool_dec _ _); [eauto|done].
Qed.

#[global] Instance arr_eq_dec n : EqDecision (arr n).
Proof.
  intros a b. destruct (decide (arr_bytes a = arr_bytes b)) as [E|E].
  - left. by apply arr_eq.
  - right. intros ->. done.
Defined.

#[global] Program Instance arr_countable n : Countable (arr n) :=
  inj_countable arr_bytes (to_arr n) _.
Next Obligation. intros n a. apply to_arr_bytes. Qed.

(** Array built from a list, cut or zero-extended to [n] bytes. *)
Program Definition arr_resize (n : nat) (l : list byte) : arr n :=
  Arr (resize n x00 l) _.
Next Obligation. intros. rewrite length_resize. apply Nat.eqb_refl. Qed.

(** [[b; n]] *)
Program Definition arr_fill (n : nat) (b : byte) : arr n := Arr (replicate n b) _.
Next Obligation. intros. rewrite length_replicate. apply Nat.eqb_refl. Qed.

(** [n]-byte little-endian encoding as an array. *)
Program Definition arr_le (n : nat) (z : Z) : arr n := Arr (le_bytes n z) _.
Next Obligation. intros. rewrite length_le_bytes. apply Nat.eqb_refl. Qed.

(** ** Tactics and hints *)

Create HintDb oregon.
Create Rewrite HintDb oregon.
#[export] Hint Resolve arr_length byte_to_Z_range le_num_range length_le_bytes : oregon.
#[export] Hint Rewrite @arr_length length_le_bytes @length_app @length_replicate : oregon.

(** Split every [let?]/[ensure] of a hypothesis that says a computation
    succeeded, keeping the tests as hypotheses. *)
Ltac res_inv := repeat (case_match; simplify_eq/=); try done.
