(* ===== verification/Encoding.v ===== *)
(** [oregon-primitives]: errors, amounts, hashes and the canonical byte
    decoder ([error.rs], [amount.rs], [hash.rs], [encoding.rs]).

    The decoder is an offset into an input slice, advanced by fallible reads;
    it is modelled as an effect over the [Decoder] record.  Every reader of a
    wire format is characterised by one law, the class [Codec]: a read
    succeeds exactly when the unread input starts with the encoding of a
    well-formed value, and then consumes exactly that encoding.  The law gives
    round trips and the uniqueness of encodings at once, and it composes. *)
From S2P Require Import Prelude.

(** ** Errors *)

Module PrimitiveError.
Inductive t : Type :=
| AmountOverflow
| AmountUnderflow
| AmountAboveMaximum
| UnexpectedEof
| NonCanonicalVarInt
| LengthLimitExceeded
| InvalidVersion (version : Z)
| TrailingBytes
| InvalidHashLength (len : nat)
| InvalidHashHex
| EmptyBlockTransactions.
End PrimitiveError.

(** ** Amounts *)

Definition BASE_UNITS_PER_OREG : Z := 100000000.
Definition MAX_SUPPLY_BASE_UNITS : Z := 1000000 * BASE_UNITS_PER_OREG.
Definition FOUNDER_ALLOCATION_BASE_UNITS : Z := 50000 * BASE_UNITS_PER_OREG.

Record Amount : Type := MkAmount { base_units : Z }.

#[global] Instance Amount_eq_dec : EqDecision Amount.
Proof. solve_decision. Defined.

Definition Amount_from_base_units (value : Z) : result PrimitiveError.t Amount :=
  if value >? MAX_SUPPLY_BASE_UNITS then Err PrimitiveError.AmountAboveMaximum
  else Ok (MkAmount value).

Definition Amount_checked_add (a b : Amount) : result PrimitiveError.t Amount :=
  let? value := ok_or (checked_add U64_MAX (base_units a) (base_units b))
                  PrimitiveError.AmountOverflow in
  Amount_from_base_units value.

Definition Amount_checked_sub (a b : Amount) : result PrimitiveError.t Amount :=
  let? value := ok_or (checked_sub (base_units a) (base_units b))
                  PrimitiveError.AmountUnderflow in
  Amount_from_base_units value.

(** The invariant every constructed [Amount] has. *)
Definition amount_ok (a : Amount) : Prop := 0 <= base_units a <= MAX_SUPPLY_BASE_UNITS.

(** ** Hashes *)

Abbreviation Hash256 := (arr 32).

Definition Hash256_from_slice (bytes : list byte) : result PrimitiveError.t Hash256 :=
  ok_or (to_arr 32 bytes) (PrimitiveError.InvalidHashLength (length bytes)).

Definition decode_lower_hex (value : byte) : result PrimitiveError.t Z :=
  let v := byte_to_Z value in
  if (48 <=? v) && (v <=? 57) then Ok (v - 48)
  else if (97 <=? v) && (v <=? 102) then Ok (v - 97 + 10)
  else Err PrimitiveError.InvalidHashHex.

(** [write!(f, "{byte:02x}")] over the bytes. *)
Definition hex_digit (v : Z) : byte := byte_of_Z (if v <? 10 then v + 48 else v - 10 + 97).
Definition Hash256_to_string (h : Hash256) : list byte :=
  flat_map (fun b => [hex_digit (byte_to_Z b / 16); hex_digit (byte_to_Z b mod 16)]) (arr_bytes h).

(** The loop of [from_str]: pairs of hex digits, [(high << 4) | low] each. *)
Fixpoint decode_hex_pairs (bytes : list byte) : result PrimitiveError.t (list byte) :=
  match bytes with
  | h :: l :: rest =>
      let? high := decode_lower_hex h in
      let? low := decode_lower_hex l in
      let? tail := decode_hex_pairs rest in
      Ok (byte_of_Z (Z.lor (Z.shiftl high 4) low) :: tail)
  | _ => Ok []
  end.

Definition is_ascii (bytes : list byte) : bool := forallb (fun b => byte_to_Z b <? 128) bytes.

Definition Hash256_from_str (value : list byte) : result PrimitiveError.t Hash256 :=
  if negb (length value =? 64)%nat || negb (is_ascii value) then Err PrimitiveError.InvalidHashHex
  else
    let? decoded := decode_hex_pairs value in
    Ok (arr_resize 32 decoded).

(** BLAKE3 is the third-party [blake3] crate: a parameter, its streaming
    [update] calls concatenating their inputs. *)
Class Blake3 : Type := blake3 : list byte -> Hash256.

Definition domain_hash `{Blake3} (domain payload : list byte) : Hash256 :=
  blake3 (domain ++ payload).

(** Two different messages, one of [xs] and one of [ys], with the same digest.
    Digests are 32 bytes, so colliding messages exist; binding theorems
    therefore name the finite lists of messages a collision must come from. *)
Definition collision_in `{Blake3} (xs ys : list (list byte)) : Prop :=
  exists x y : list byte, x ∈ xs /\ y ∈ ys /\ x <> y /\ blake3 x = blake3 y.

Lemma collision_in_mono `{Blake3} xs ys xs' ys' :
  collision_in xs ys -> xs ⊆ xs' -> ys ⊆ ys' -> collision_in xs' ys'.
Proof. intros (x & y & ? & ? & ? & ?) ? ?. exists x, y. set_solver. Qed.

(** Equal digests of one domain come from equal payloads, or collide. *)
Lemma domain_hash_inj `{Blake3} dom p1 p2 :
  domain_hash dom p1 = domain_hash dom p2 ->
  p1 = p2 \/ collision_in [dom ++ p1] [dom ++ p2].
Proof.
  intros E. destruct (decide (p1 = p2)); [by left|right].
  exists (dom ++ p1), (dom ++ p2). split_and!; [set_solver..| |done].
  intros ?%app_inv_head. done.
Qed.

(** Messages of different lengths differ, so equal digests collide. *)
Lemma domain_hash_length_collision `{Blake3} d1 p1 d2 p2 :
  domain_hash d1 p1 = domain_hash d2 p2 ->
  length (d1 ++ p1) <> length (d2 ++ p2) -> collision_in [d1 ++ p1] [d2 ++ p2].
Proof. intros E HL. exists (d1 ++ p1), (d2 ++ p2). split_and!; [set_solver..|congruence|done]. Qed.

(** A concrete 32-byte hash, used only to evaluate the model on examples. *)
Definition demo_blake3 : Blake3 := fun l =>
  arr_le 32 (foldl (fun acc b => (acc * 1099511628211 + byte_to_Z b + 1) mod 2 ^ 256) 14695981039346656037 l).

(** ** Decoding limits and the decoder *)

Record DecodeLimits : Type := {
  max_transaction_inputs : Z;
  max_transaction_outputs : Z;
  max_witness_items_per_input : Z;
  max_witness_item_bytes : Z;
  max_locking_program_bytes : Z;
  max_block_transactions : Z;
  max_object_bytes : Z;
}.

Definition DecodeLimits_default : DecodeLimits := {|
  max_transaction_inputs := 65535;
  max_transaction_outputs := 65535;
  max_witness_items_per_input := 1024;
  max_witness_item_bytes := 1048576;
  max_locking_program_bytes := 65536;
  max_block_transactions := 1000000;
  max_object_bytes := 67108864;
|}.

Record Decoder : Type := MkDecoder { input : list byte; offset : nat }.

Definition Decoder_new (bytes : list byte) : Decoder := MkDecoder bytes 0.

Definition reader (A : Type) : Type := eff Decoder PrimitiveError.t A.

Definition read_u8 : reader byte := fun d =>
  match input d !! offset d with
  | Some b => (Ok b, MkDecoder (input d) (offset d + 1))
  | None => (Err PrimitiveError.UnexpectedEof, d)
  end.

Definition read_bytes (len : nat) : reader (list byte) := fun d =>
  match checked_add USIZE_MAX (Z.of_nat (offset d)) (Z.of_nat len) with
  | None => (Err PrimitiveError.LengthLimitExceeded, d)
  | Some _ =>
      let end_ := (offset d + len)%nat in
      if (length (input d) <? end_)%nat then (Err PrimitiveError.UnexpectedEof, d)
      else (Ok (take len (drop (offset d) (input d))), MkDecoder (input d) end_)
  end.

Definition read_u16 : reader Z := let! bytes := read_bytes 2 in eff_ret (le_num bytes).
Definition read_u32 : reader Z := let! bytes := read_bytes 4 in eff_ret (le_num bytes).
Definition read_u64 : reader Z := let! bytes := read_bytes 8 in eff_ret (le_num bytes).

Definition read_varint : reader Z :=
  let! marker := read_u8 in
  let m := byte_to_Z marker in
  if m <=? 0xfc then eff_ret m
  else if m =? 0xfd then
    let! value := read_u16 in
    if value <? 0xfd then eff_fail PrimitiveError.NonCanonicalVarInt else eff_ret value
  else if m =? 0xfe then
    let! value := read_u32 in
    if value <=? U16_MAX then eff_fail PrimitiveError.NonCanonicalVarInt else eff_ret value
  else
    let! value := read_u64 in
    if value <=? U32_MAX then eff_fail PrimitiveError.NonCanonicalVarInt else eff_ret value.

Definition read_len (max : Z) : reader nat :=
  let! value := read_varint in
  let! value := eff_lift (ok_or (try_from USIZE_MAX value) PrimitiveError.LengthLimitExceeded) in
  if value >? max then eff_fail PrimitiveError.LengthLimitExceeded
  else eff_ret (Z.to_nat value).

Definition finish : reader unit := fun d =>
  if (offset d =? length (input d))%nat then (Ok tt, d)
  else (Err PrimitiveError.TrailingBytes, d).

Definition write_varint (value : Z) : list byte :=
  if value <=? 0xfc then [byte_of_Z value]
  else if value <=? 0xffff then xfd :: le_bytes 2 value
  else if value <=? 0xffffffff then xfe :: le_bytes 4 value
  else xff :: le_bytes 8 value.

(** [for _ in 0..n { items.push(r(decoder)?); }] *)
Fixpoint repeat_read {E A} (n : nat) (r : eff Decoder E A) : eff Decoder E (list A) :=
  match n with
  | O => eff_ret []
  | S n =>
      let! x := r in
      let! xs := repeat_read n r in
      eff_ret (x :: xs)
  end.

(** [Hash256::from_slice(decoder.read_bytes(32)?)?] *)
Definition read_hash : reader Hash256 :=
  let! bytes := read_bytes 32 in eff_lift (Hash256_from_slice bytes).

(** [array.copy_from_slice(decoder.read_bytes(n)?)] *)
Definition read_array (n : nat) : reader (arr n) :=
  let! bytes := read_bytes n in eff_ret (arr_resize n bytes).

(** A complete object: read, then require that the input is exhausted. *)
Definition decode_complete {A} (r : reader A) (bytes : list byte) : result PrimitiveError.t A :=
  fst ((let! a := r in let! _ := finish in eff_ret a) (Decoder_new bytes)).

(** ** The codec law *)

Definition dec_wf (d : Decoder) : Prop :=
  (offset d <= length (input d))%nat /\ Z.of_nat (length (input d)) <= USIZE_MAX.

Definition rest (d : Decoder) : list byte := drop (offset d) (input d).

(** [d'] is [d] after reading exactly the bytes [x]. *)
Definition consumes (d : Decoder) (x : list byte) (d' : Decoder) : Prop :=
  input d' = input d /\ dec_wf d' /\ rest d = x ++ rest d'.

Class Codec {E A} (enc : A -> list byte) (rd : eff Decoder E A) (wf : A -> Prop) : Prop :=
  codec_spec d a d' : dec_wf d -> rd d = (Ok a, d') <-> wf a /\ consumes d (enc a) d'.

Lemma dec_eq d1 d2 :
  dec_wf d1 -> dec_wf d2 -> input d1 = input d2 -> rest d1 = rest d2 -> d1 = d2.
Proof.
  destruct d1 as [i1 o1], d2 as [i2 o2]; unfold dec_wf, rest; simpl.
  intros [? _] [? _] -> E. f_equal.
  apply (f_equal length) in E. rewrite !length_drop in E. lia.
Qed.

Lemma consumes_nil d d' : dec_wf d -> consumes d [] d' <-> d' = d.
Proof.
  intros W. split.
  - intros (E & W' & R). by apply dec_eq.
  - intros ->. done.
Qed.

Lemma consumes_app d x y d' :
  dec_wf d -> consumes d (x ++ y) d' <-> exists d1, consumes d x d1 /\ consumes d1 y d'.
Proof.
  intros W. split.
  - intros (E & W' & R).
    assert (length (rest d) = length (x ++ y ++ rest d')) as HL by (rewrite R, <- app_assoc; done).
    unfold rest in HL at 1. rewrite length_drop, !length_app in HL.
    destruct W as [W1 W2].
    assert (rest (MkDecoder (input d) (offset d + length x)) = y ++ rest d') as R1.
    { unfold rest at 1. simpl. rewrite <- drop_drop. change (drop (offset d) (input d)) with (rest d).
      rewrite R, <- app_assoc, drop_app_length. done. }
    exists (MkDecoder (input d) (offset d + length x)). unfold consumes. rewrite R1, E.
    split_and!; try done.
    + split; simpl; [lia|done].
    + by rewrite app_assoc.
  - intros (d1 & (E1 & W1 & R1) & (E2 & W2 & R2)). split_and!; [congruence|done|].
    by rewrite R1, R2, app_assoc.
Qed.

Lemma consumes_wf d x d' : consumes d x d' -> dec_wf d'.
Proof. by intros (_ & ? & _). Qed.
#[export] Hint Resolve consumes_wf : oregon.

Lemma codec_bind_fwd {E A B} {enc : A -> list byte} {rd : eff Decoder E A} {wf} `{!Codec enc rd wf}
  {k : A -> eff Decoder E B} {d b d'} :
  eff_bind rd k d = (Ok b, d') -> dec_wf d ->
  exists a d1, wf a /\ consumes d (enc a) d1 /\ k a d1 = (Ok b, d').
Proof.
  intros H W. unfold eff_bind in H. destruct (rd d) as [[a|e] d1] eqn:Erd; [|done].
  apply codec_spec in Erd as [??]; eauto.
Qed.

Lemma codec_bind_bwd {E A B} {enc : A -> list byte} {rd : eff Decoder E A} {wf} `{!Codec enc rd wf}
  (k : A -> eff Decoder E B) d a d1 b d' :
  dec_wf d -> wf a -> consumes d (enc a) d1 -> k a d1 = (Ok b, d') ->
  eff_bind rd k d = (Ok b, d').
Proof.
  intros W Wa C K. unfold eff_bind.
  assert (rd d = (Ok a, d1)) as -> by (apply codec_spec; done). done.
Qed.

(** Peel one read off a successful [let!] chain. *)
Ltac codec_fwd H :=
  let a := fresh "a" in let d1 := fresh "d" in
  let Wa := fresh "Wf" in let C := fresh "C" in
  destruct (codec_bind_fwd H ltac:(by eauto using consumes_wf)) as (a & d1 & Wa & C & ?);
  clear H; rename select (_ = (Ok _, _)) into H.

(** Rebuild one read of a [let!] chain from a split [consumes]. *)
Ltac codec_bwd :=
  eapply codec_bind_bwd; [by eauto using consumes_wf| | eassumption |].

(** Split a [consumes] over an append in a hypothesis. *)
Ltac consumes_split C :=
  let d1 := fresh "d" in let C1 := fresh "C" in
  apply consumes_app in C as (d1 & C1 & C); [|by eauto using consumes_wf].

Lemma consumes_chain d x d1 y d' : consumes d x d1 -> consumes d1 y d' -> consumes d (x ++ y) d'.
Proof.
  intros (E1 & W1 & R1) (E2 & W2 & R2). split_and!; [congruence|done|].
  by rewrite R1, R2, app_assoc.
Qed.

(** Join the pieces consumed one after the other. *)
Ltac consumes_join :=
  first [ eassumption | eapply consumes_chain; [eassumption | consumes_join] ].

#[export] Instance read_bytes_codec n : Codec (fun l => l) (read_bytes n) (fun l => length l = n).
Proof.
  intros d l d' [W1 W2]. unfold read_bytes. split.
  - destruct (checked_add _ _ _) eqn:E1; [|done]. destruct (Nat.ltb_spec (length (input d)) (offset d + n)); [done|].
    intros [= <- <-]. split; [rewrite length_take, length_drop; lia|].
    split_and!; [done|split; simpl; [lia|done]|].
    unfold rest; simpl. rewrite <- drop_drop, take_drop. done.
  - intros [HL (E & [W1' _] & R)]. unfold rest in R.
    assert (length (drop (offset d) (input d)) = n + (length (input d) - offset d'))%nat as HR.
    { rewrite R, length_app, length_drop, E, HL. done. }
    rewrite length_drop in HR. rewrite E in W1'.
    destruct (checked_add _ _ _) eqn:E1; [|apply checked_add_None in E1; lia]. destruct (Nat.ltb_spec (length (input d)) (offset d + n)); [lia|].
    f_equal.
    + rewrite R, take_app_length'; done.
    + destruct d'; simpl in *. f_equal; [done|lia].
Qed.

Lemma read_u8_spec d b d' : dec_wf d -> read_u8 d = (Ok b, d') <-> consumes d [b] d'.
Proof.
  intros W. transitivity (read_bytes 1 d = (Ok [b], d')).
  - destruct W as [W1 W2]. unfold read_u8, read_bytes.
    destruct (input d !! offset d) as [x|] eqn:E.
    + apply lookup_lt_Some in E as HL. destruct (checked_add _ _ _) eqn:E1; [|apply checked_add_None in E1; lia].
      destruct (Nat.ltb_spec (length (input d)) (offset d + 1)); [lia|].
      rewrite (drop_S _ _ _ E). simpl. naive_solver.
    + apply lookup_ge_None in E. split; [done|]. destruct (checked_add _ _ _) eqn:E1; [|done].
      destruct (Nat.ltb_spec (length (input d)) (offset d + 1)); [done|lia].
  - rewrite codec_spec by done. naive_solver.
Qed.

#[export] Instance read_u8_codec : Codec (fun b => [b]) read_u8 (fun _ => True).
Proof. intros d b d' W. rewrite read_u8_spec by done. naive_solver. Qed.

(** A fixed-width little-endian read. *)
Lemma read_le_codec n max :
  max = 256 ^ Z.of_nat n - 1 ->
  Codec (le_bytes n) (let! bytes := read_bytes n in eff_ret (le_num bytes))
    (fun z => 0 <= z <= max).
Proof.
  intros -> d z d' W. split.
  - intros H. codec_fwd H. injection H as <- <-.
    pose proof (le_num_range a). rewrite Wf in *. split; [lia|].
    by rewrite (le_bytes_eq n a) by done.
  - intros [R C]. codec_bwd; [by rewrite length_le_bytes|].
    unfold eff_ret. rewrite le_num_le_bytes by lia. done.
Qed.

#[export] Instance read_u16_codec : Codec (le_bytes 2) read_u16 in_u16.
Proof. by apply read_le_codec. Qed.
#[export] Instance read_u32_codec : Codec (le_bytes 4) read_u32 in_u32.
Proof. by apply read_le_codec. Qed.
#[export] Instance read_u64_codec : Codec (le_bytes 8) read_u64 in_u64.
Proof. by apply read_le_codec. Qed.

#[export] Instance read_hash_codec : Codec arr_bytes read_hash (fun _ => True).
Proof.
  intros d h d' W. unfold read_hash. split.
  - intros H. codec_fwd H. unfold eff_lift, Hash256_from_slice in H.
    injection H as H <-. apply ok_or_Ok, to_arr_Some in H as ->. done.
  - intros [_ C]. codec_bwd; [apply arr_length|].
    unfold eff_lift, Hash256_from_slice. by rewrite to_arr_bytes.
Qed.

Lemma arr_resize_id {n} (a : arr n) : arr_resize n (arr_bytes a) = a.
Proof. apply arr_eq. simpl. apply resize_all_alt. by rewrite arr_length. Qed.

Lemma arr_resize_bytes n l : length l = n -> arr_bytes (arr_resize n l) = l.
Proof. intros. simpl. by apply resize_all_alt. Qed.

#[export] Instance read_array_codec n : Codec arr_bytes (read_array n) (fun _ => True).
Proof.
  intros d h d' W. unfold read_array. split.
  - intros H. codec_fwd H. injection H as <- <-. by rewrite arr_resize_bytes.
  - intros [_ C]. codec_bwd; [apply arr_length|]. unfold eff_ret. by rewrite arr_resize_id.
Qed.

(** Consumption of a byte followed by a tail, as the marker reads see it. *)
Lemma consumes_cons d b x d' :
  dec_wf d -> consumes d (b :: x) d' -> exists d1, consumes d [b] d1 /\ consumes d1 x d'.
Proof. intros W C. change (b :: x) with ([b] ++ x) in C. by apply consumes_app. Qed.

Lemma write_varint_cases z :
  in_u64 z ->
  (z <= 0xfc /\ write_varint z = [byte_of_Z z]) \/
  (0xfd <= z <= U16_MAX /\ write_varint z = xfd :: le_bytes 2 z) \/
  (U16_MAX < z <= U32_MAX /\ write_varint z = xfe :: le_bytes 4 z) \/
  (U32_MAX < z /\ write_varint z = xff :: le_bytes 8 z).
Proof.
  intros H. unfold write_varint. unfold_ints.
  destruct (Z.leb_spec z 0xfc); [left; split; [lia|done]|].
  destruct (Z.leb_spec z 0xffff); [right; left; split; [lia|done]|].
  destruct (Z.leb_spec z 0xffffffff); right; right; [left|right]; (split; [lia|done]).
Qed.

Lemma byte_to_of_small z : 0 <= z <= 255 -> byte_to_Z (byte_of_Z z) = z.
Proof. intros. rewrite byte_to_of_Z, Z.mod_small; lia. Qed.

#[export] Instance read_varint_codec : Codec write_varint read_varint in_u64.
Proof.
  intros d z d' W. unfold read_varint. split.
  - intros H. codec_fwd H. pose proof (byte_to_Z_range a) as Ra. cbv zeta in H.
    destruct (Z.leb_spec (byte_to_Z a) 0xfc).
    { injection H as <- <-. split; [unfold_ints; lia|].
      unfold write_varint. destruct (Z.leb_spec (byte_to_Z a) 0xfc); [|lia].
      by rewrite byte_of_to_Z. }
    assert (a = xfd \/ a = xfe \/ a = xff) as [->|[->| ->]].
    { destruct (Z.eq_dec (byte_to_Z a) 253) as [E|];
        [left; by apply byte_to_Z_inj|right].
      destruct (Z.eq_dec (byte_to_Z a) 254) as [E|];
        [left; by apply byte_to_Z_inj|right]. apply byte_to_Z_inj.
      change (byte_to_Z xff) with 255. lia. }
    all: vm_compute (byte_to_Z _) in H; simpl in H; codec_fwd H; (case_match eqn:Hc; [done|]);
      injection H as <- <-; unfold_ints; (split; [lia|]); unfold write_varint;
      destruct (Z.leb_spec a 252), (Z.leb_spec a 65535), (Z.leb_spec a 4294967295); try lia;
      by eapply (consumes_chain _ [_]).
  - intros [R C]. destruct (write_varint_cases z R) as [(Hz&E)|[(Hz&E)|[(Hz&E)|(Hz&E)]]];
      rewrite E in C; unfold_ints.
    + codec_bwd; [done|]. rewrite byte_to_of_small by lia.
      destruct (Z.leb_spec z 0xfc); [done|lia].
    + apply consumes_cons in C as (d1 & C1 & C); [|done]. codec_bwd; [done|].
      change (byte_to_Z xfd) with 0xfd. simpl.
      codec_bwd; [unfold_ints; lia|]. destruct (Z.ltb_spec z 0xfd); [lia|done].
    + apply consumes_cons in C as (d1 & C1 & C); [|done]. codec_bwd; [done|].
      change (byte_to_Z xfe) with 0xfe. simpl.
      codec_bwd; [unfold_ints; lia|]. unfold_ints. destruct (Z.leb_spec z (2^16-1)); [lia|done].
    + apply consumes_cons in C as (d1 & C1 & C); [|done]. codec_bwd; [done|].
      change (byte_to_Z xff) with 0xff. simpl.
      codec_bwd; [unfold_ints; lia|]. unfold_ints. destruct (Z.leb_spec z (2^32-1)); [lia|done].
Qed.

#[export] Instance read_len_codec max :
  Codec (fun n => write_varint (Z.of_nat n)) (read_len max)
    (fun n => Z.of_nat n <= max /\ Z.of_nat n <= USIZE_MAX).
Proof.
  intros d n d' W. unfold read_len. split.
  - intros H. codec_fwd H. unfold eff_bind, eff_lift in H.
    destruct (try_from USIZE_MAX a) as [v|] eqn:E; simpl in H; [|done].
    apply try_from_Some in E as [-> R]. destruct (a >? max) eqn:E3; [done|].
    injection H as <- <-. unfold_ints. rewrite Z2Nat.id by lia. split; [lia|done].
  - intros [[R1 R2] C]. codec_bwd; [unfold_ints; lia|].
    unfold eff_bind, eff_lift, try_from, eff_ret, ok_or.
    destruct (Z.leb_spec 0 (Z.of_nat n)); [|lia].
    destruct (Z.leb_spec (Z.of_nat n) USIZE_MAX); [|lia]. simpl.
    destruct (Z.of_nat n >? max) eqn:E; [lia|]. by rewrite Nat2Z.id.
Qed.

Lemma length_write_varint z : (length (write_varint z) <= 9)%nat.
Proof. unfold write_varint. repeat case_match; simpl; rewrite ?length_le_bytes; lia. Qed.

Definition encode_all {A} (enc : A -> list byte) (l : list A) : list byte := flat_map enc l.

#[export] Instance repeat_read_codec {E A} (enc : A -> list byte) (rd : eff Decoder E A) wf `{!Codec enc rd wf} n :
  Codec (encode_all enc) (repeat_read n rd) (fun l => length l = n /\ Forall wf l).
Proof.
  induction n as [|n IH]; intros d l d' W; simpl.
  - split.
    + intros [= <- <-]. split; [done|]. by apply consumes_nil.
    + intros [[->%nil_length_inv _] ->%consumes_nil]; done.
  - split.
    + intros H. codec_fwd H. codec_fwd H. injection H as <- <-.
      destruct Wf0 as [HL HF]. split; [by simpl; auto|]. simpl. by eapply consumes_chain.
    + intros [[HL HF] C]. destruct l as [|x l]; [done|]. inversion HF; subst.
      simpl in C. consumes_split C. codec_bwd; [done|]. codec_bwd; [|done].
      simpl in HL. auto with lia.
Qed.

(** The same read with its errors converted, as [?] does through [From]. *)
#[export] Instance eff_map_err_codec {E F A} (f : E -> F) (enc : A -> list byte) (rd : eff Decoder E A) wf
  `{!Codec enc rd wf} : Codec enc (eff_map_err f rd) wf.
Proof.
  intros d a d' W. rewrite <- codec_spec by done. unfold eff_map_err.
  destruct (rd d) as [[x|x] d1]; simpl; naive_solver.
Qed.

(** A read followed by a check or conversion [f] that accepts exactly the
    values [g a] of the [a] with [wf']. *)
Lemma codec_convert {E A B} (enc : B -> list byte) (rd : eff Decoder E B) wf (f : B -> result E A) (g : A -> B)
  (wf' : A -> Prop) `{!Codec enc rd wf} :
  (forall b a, wf b -> f b = Ok a <-> wf' a /\ b = g a) -> (forall a, wf' a -> wf (g a)) ->
  Codec (fun a => enc (g a)) (let! b := rd in eff_lift (f b)) wf'.
Proof.
  intros Hf Hg d a d' W. split.
  - intros H. codec_fwd H. injection H as H <-. apply Hf in H as [? ->]; done.
  - intros [Wa C]. codec_bwd; [by apply Hg|]. unfold eff_lift. f_equal. apply Hf; auto.
Qed.

(** Encodings are prefix free. *)
Lemma codec_prefix {E A} (enc : A -> list byte) (rd : eff Decoder E A) wf `{!Codec enc rd wf} a b x y :
  wf a -> wf b -> Z.of_nat (length (enc a ++ x)) <= USIZE_MAX -> enc a ++ x = enc b ++ y -> a = b /\ x = y.
Proof.
  intros Ha Hb HL Eq.
  assert (forall c z, enc a ++ x = enc c ++ z ->
    consumes (Decoder_new (enc a ++ x)) (enc c) (MkDecoder (enc a ++ x) (length (enc c)))) as HC.
  { intros c z Ec. split_and!; [done|split; simpl; [rewrite Ec, length_app; lia|done]|].
    unfold rest; simpl. by rewrite drop_0, Ec, drop_app_length. }
  assert (dec_wf (Decoder_new (enc a ++ x))) as W by (split; simpl; [lia|done]).
  pose proof (proj2 (codec_spec _ a _ W) (conj Ha (HC a x eq_refl))) as E1.
  pose proof (proj2 (codec_spec _ b _ W) (conj Hb (HC b y Eq))) as E2.
  rewrite E1 in E2. injection E2 as <- _. split; [done|]. by apply app_inv_head in Eq.
Qed.

(** Decoding a complete object is inverting the encoder. *)
Lemma decode_complete_spec {A} (enc : A -> list byte) rd wf `{!Codec enc rd wf} bytes a :
  Z.of_nat (length bytes) <= USIZE_MAX ->
  decode_complete rd bytes = Ok a <-> wf a /\ bytes = enc a.
Proof.
  intros HL. assert (dec_wf (Decoder_new bytes)) as W by (split; simpl; [lia|done]).
  unfold decode_complete. split.
  - intros H. destruct (eff_bind _ _ _) as [r d'] eqn:E. simpl in H. subst r.
    codec_fwd E. unfold eff_bind, finish in E.
    destruct (Nat.eqb_spec (offset d) (length (input d))) as [E1|]; [|done].
    injection E as <- <-. split; [done|]. destruct C as (Ei & _ & R).
    unfold rest in R. rewrite E1, drop_all in R. simpl in R. by rewrite app_nil_r in R.
  - intros [Wa ->].
    assert (consumes (Decoder_new (enc a)) (enc a) (MkDecoder (enc a) (length (enc a)))) as C.
    { split_and!; [done|split; simpl; [lia|done]|]. unfold rest; simpl.
      by rewrite drop_all, app_nil_r. }
    enough (eff_bind rd (fun a => let! _ := finish in eff_ret a) (Decoder_new (enc a))
      = (Ok a, MkDecoder (enc a) (length (enc a)))) as -> by done.
    codec_bwd; [done|]. unfold eff_bind, finish. simpl. by rewrite Nat.eqb_refl.
Qed.

(** The same with converted errors and a final check [g]. *)
Lemma decode_checked_spec {E A B} (f : PrimitiveError.t -> E) (g : A -> result E B)
  (enc : A -> list byte) (rd : eff Decoder E A) wf `{!Codec enc rd wf} bytes b :
  Z.of_nat (length bytes) <= USIZE_MAX ->
  fst ((let! a := rd in let! _ := eff_map_err f finish in eff_lift (g a)) (Decoder_new bytes)) = Ok b <->
  exists a, wf a /\ bytes = enc a /\ g a = Ok b.
Proof.
  intros HL. assert (dec_wf (Decoder_new bytes)) as W by (split; simpl; [lia|done]). split.
  - intros H. destruct (eff_bind _ _ _) as [r d'] eqn:Er. simpl in H. subst r.
    codec_fwd Er. unfold eff_bind, eff_map_err, finish in Er.
    destruct (Nat.eqb_spec (offset d) (length (input d))) as [E1|]; [|done].
    injection Er as Eg <-. exists a. split_and!; [done| |done]. destruct C as (Ei & _ & R).
    unfold rest in R. rewrite E1, drop_all in R. simpl in R. by rewrite app_nil_r in R.
  - intros (a & Wa & -> & Eg).
    assert (consumes (Decoder_new (enc a)) (enc a) (MkDecoder (enc a) (length (enc a)))) as C.
    { split_and!; [done|split; simpl; [lia|done]|]. unfold rest; simpl.
      by rewrite drop_all, app_nil_r. }
    enough (eff_bind rd (fun a => let! _ := eff_map_err f finish in eff_lift (g a)) (Decoder_new (enc a))
      = (Ok b, MkDecoder (enc a) (length (enc a)))) as -> by done.
    codec_bwd; [done|]. unfold eff_bind, eff_map_err, finish, eff_lift. simpl. by rewrite Nat.eqb_refl, Eg.
Qed.

(** ** Hexadecimal text of a hash *)

Lemma decode_lower_hex_Ok c v : decode_lower_hex c = Ok v -> hex_digit v = c /\ 0 <= v < 16.
Proof.
  unfold decode_lower_hex. cbv zeta. pose proof (byte_to_Z_range c).
  destruct ((48 <=? _) && _) eqn:E1; [|destruct ((97 <=? _) && _) eqn:E2; [|done]]; intros [= <-].
  all: split; [|lia]; unfold hex_digit.
  - destruct (Z.ltb_spec (byte_to_Z c - 48) 10); [|lia]. rewrite <- (byte_of_to_Z c) at 2. f_equal. lia.
  - destruct (Z.ltb_spec (byte_to_Z c - 97 + 10) 10); [lia|]. rewrite <- (byte_of_to_Z c) at 2. f_equal. lia.
Qed.

Lemma hex_digit_decode v : 0 <= v < 16 -> decode_lower_hex (hex_digit v) = Ok v /\ byte_to_Z (hex_digit v) < 128.
Proof.
  intros H. assert (v ∈ seqZ 0 16) as Hin by (apply elem_of_seqZ; lia).
  assert (Forall (fun v => decode_lower_hex (hex_digit v) = Ok v /\ byte_to_Z (hex_digit v) < 128)
    (seqZ 0 16)) as HF by (repeat constructor).
  rewrite Forall_forall in HF. by apply HF.
Qed.

Lemma hex_pair_value h l :
  0 <= h < 16 -> 0 <= l < 16 -> byte_to_Z (byte_of_Z (Z.lor (Z.shiftl h 4) l)) = h * 16 + l.
Proof.
  intros Hh Hl.
  assert (Forall (fun h => Forall (fun l => byte_to_Z (byte_of_Z (Z.lor (Z.shiftl h 4) l)) = h * 16 + l)
    (seqZ 0 16)) (seqZ 0 16)) as HF by (repeat constructor).
  rewrite Forall_forall in HF. specialize (HF h). rewrite elem_of_seqZ in HF. specialize (HF ltac:(lia)).
  rewrite Forall_forall in HF. apply HF, elem_of_seqZ. lia.
Qed.

Definition hex_of_byte (b : byte) : list byte := [hex_digit (byte_to_Z b / 16); hex_digit (byte_to_Z b mod 16)].

Lemma hex_halves b : 0 <= byte_to_Z b / 16 < 16 /\ 0 <= byte_to_Z b mod 16 < 16.
Proof.
  pose proof (byte_to_Z_range b). pose proof (Z.div_mod (byte_to_Z b) 16). pose proof (Z.mod_pos_bound (byte_to_Z b) 16).
  lia.
Qed.

Lemma decode_hex_pairs_encode bs :
  decode_hex_pairs (flat_map hex_of_byte bs) = Ok bs /\ length (flat_map hex_of_byte bs) = (2 * length bs)%nat
  /\ is_ascii (flat_map hex_of_byte bs) = true.
Proof.
  induction bs as [|b bs (IH1 & IH2 & IH3)]; [done|].
  destruct (hex_halves b) as [H1 H2]. destruct (hex_digit_decode _ H1) as [D1 A1].
  destruct (hex_digit_decode _ H2) as [D2 A2].
  cbn [flat_map hex_of_byte app decode_hex_pairs]. rewrite D1, D2, IH1. split_and!.
  - do 2 f_equal. apply byte_to_Z_inj. rewrite hex_pair_value by done.
    pose proof (Z.div_mod (byte_to_Z b) 16). lia.
  - cbn [length]. rewrite IH2. lia.
  - unfold is_ascii in *. cbn [forallb]. rewrite IH3.
    destruct (Z.ltb_spec (byte_to_Z (hex_digit (byte_to_Z b / 16))) 128); [|lia].
    destruct (Z.ltb_spec (byte_to_Z (hex_digit (byte_to_Z b mod 16))) 128); [done|lia].
Qed.

Lemma decode_hex_pairs_inv n s bs :
  length s = (2 * n)%nat -> decode_hex_pairs s = Ok bs -> s = flat_map hex_of_byte bs /\ length bs = n.
Proof.
  revert s bs. induction n as [|n IH]; intros s bs HL.
  { destruct s; [|simpl in HL; lia]. by intros [= <-]. }
  destruct s as [|c1 [|c2 s]]; [simpl in HL; lia..|]. simpl in HL. cbn [decode_hex_pairs].
  destruct (decode_lower_hex c1) as [h|] eqn:E1; [|done]. destruct (decode_lower_hex c2) as [l|] eqn:E2; [|done].
  destruct (decode_hex_pairs s) as [t|] eqn:E3; [|done]. intros [= <-].
  apply decode_lower_hex_Ok in E1 as [<- R1], E2 as [<- R2]. apply IH in E3 as [-> <-]; [|lia].
  split; [|done]. cbn [flat_map]. unfold hex_of_byte at 2. rewrite hex_pair_value by done.
  cbn [app]. f_equal; [|f_equal].
  - f_equal. apply (Z.div_unique _ _ _ l); lia.
  - f_equal. apply (Z.mod_unique _ _ h); lia.
Qed.

(** The text form of a hash.  Printing then parsing gives the hash back,
    and the parser accepts nothing but the lower-case text of the hash it
    returns. *)
Theorem hash_text_round_trip text h :
  Hash256_from_str text = Ok h <-> text = Hash256_to_string h.
Proof.
  unfold Hash256_from_str. change (Hash256_to_string h) with (flat_map hex_of_byte (arr_bytes h)). split.
  - destruct (Nat.eqb_spec (length text) 64) as [HL|]; [|done]. destruct (is_ascii text); [cbn [negb orb]|done].
    destruct (decode_hex_pairs text) as [bs|] eqn:E; [|done]. intros [= <-].
    apply (decode_hex_pairs_inv 32) in E as [-> HB]; [|done]. by rewrite arr_resize_bytes.
  - intros ->. destruct (decode_hex_pairs_encode (arr_bytes h)) as (-> & -> & ->).
    rewrite arr_length. cbn [Nat.mul Nat.add Nat.eqb negb orb]. by rewrite arr_resize_id.
Qed.
