(* ===== verification/Transaction.v ===== *)
(** [oregon-primitives/transaction.rs]: transactions, their canonical encoding
    and identifiers. *)
From S2P Require Import Prelude Encoding.

Record OutPoint : Type := MkOutPoint { txid : Hash256; index : Z }.

Record TxInput : Type := MkTxInput {
  previous_txid : Hash256;
  previous_output_index : Z;
  sequence : Z;
  witness : list (list byte);
}.

Record TxOutput : Type := MkTxOutput {
  value : Amount;
  locking_program : list byte;
}.

Record Transaction : Type := MkTransaction {
  version : Z;
  inputs : list TxInput;
  outputs : list TxOutput;
  lock_time : Z;
}.

#[global] Instance OutPoint_eq_dec : EqDecision OutPoint.
Proof. solve_decision. Defined.
#[global] Program Instance OutPoint_countable : Countable OutPoint :=
  inj_countable' (fun o => (txid o, index o)) (fun p => MkOutPoint p.1 p.2) _.
Next Obligation. by intros []. Qed.
#[global] Instance TxInput_eq_dec : EqDecision TxInput.
Proof. solve_decision. Defined.
#[global] Instance TxOutput_eq_dec : EqDecision TxOutput.
Proof. solve_decision. Defined.
#[global] Instance Transaction_eq_dec : EqDecision Transaction.
Proof. solve_decision. Defined.

Definition TxInput_outpoint (i : TxInput) : OutPoint :=
  MkOutPoint (previous_txid i) (previous_output_index i).

(** ** Encoding *)

Definition encode_var_bytes (item : list byte) : list byte :=
  write_varint (Z.of_nat (length item)) ++ item.

Definition TxInput_encode (i : TxInput) : list byte :=
  arr_bytes (previous_txid i)
    ++ le_bytes 4 (previous_output_index i)
    ++ le_bytes 4 (sequence i)
    ++ write_varint (Z.of_nat (length (witness i)))
    ++ encode_all encode_var_bytes (witness i).

Definition TxOutput_encode (o : TxOutput) : list byte :=
  le_bytes 8 (base_units (value o)) ++ encode_var_bytes (locking_program o).

Definition Transaction_encode (tx : Transaction) : list byte :=
  le_bytes 2 (version tx)
    ++ write_varint (Z.of_nat (length (inputs tx)))
    ++ encode_all TxInput_encode (inputs tx)
    ++ write_varint (Z.of_nat (length (outputs tx)))
    ++ encode_all TxOutput_encode (outputs tx)
    ++ le_bytes 8 (lock_time tx).

(** ** Decoding *)

Definition read_var_bytes (max : Z) : reader (list byte) :=
  let! item_len := read_len max in read_bytes item_len.

Definition TxInput_decode_from (limits : DecodeLimits) : reader TxInput :=
  let! previous_txid := read_hash in
  let! previous_output_index := read_u32 in
  let! sequence := read_u32 in
  let! witness_count := read_len (max_witness_items_per_input limits) in
  let! witness := repeat_read witness_count (read_var_bytes (max_witness_item_bytes limits)) in
  eff_ret (MkTxInput previous_txid previous_output_index sequence witness).

Definition TxOutput_decode_from (limits : DecodeLimits) : reader TxOutput :=
  let! units := read_u64 in
  let! value := eff_lift (Amount_from_base_units units) in
  let! locking_program := read_var_bytes (max_locking_program_bytes limits) in
  eff_ret (MkTxOutput value locking_program).

Definition Transaction_decode_from (limits : DecodeLimits) : reader Transaction :=
  let! version := read_u16 in
  if negb (version =? 1) then eff_fail (PrimitiveError.InvalidVersion version)
  else
    let! input_count := read_len (max_transaction_inputs limits) in
    let! inputs := repeat_read input_count (TxInput_decode_from limits) in
    let! output_count := read_len (max_transaction_outputs limits) in
    let! outputs := repeat_read output_count (TxOutput_decode_from limits) in
    let! lock_time := read_u64 in
    eff_ret (MkTransaction version inputs outputs lock_time).

Definition Transaction_decode (bytes : list byte) (limits : DecodeLimits)
  : result PrimitiveError.t Transaction :=
  if Z.of_nat (length bytes) >? max_object_bytes limits
  then Err PrimitiveError.LengthLimitExceeded
  else decode_complete (Transaction_decode_from limits) bytes.

(** ** Identifiers *)

Definition TX_DOMAIN : list byte := domain_tag "OREGON/TX/V0".

Definition Transaction_txid `{Blake3} (tx : Transaction) : Hash256 :=
  domain_hash TX_DOMAIN (Transaction_encode tx).

(** ** What a decoder configured with [limits] accepts *)

Definition fits {A} (l : list A) (max : Z) : Prop :=
  Z.of_nat (length l) <= max /\ Z.of_nat (length l) <= USIZE_MAX.

Definition input_within (limits : DecodeLimits) (i : TxInput) : Prop :=
  in_u32 (previous_output_index i) /\ in_u32 (sequence i) /\
  fits (witness i) (max_witness_items_per_input limits) /\
  Forall (fun item => fits item (max_witness_item_bytes limits)) (witness i).

Definition output_within (limits : DecodeLimits) (o : TxOutput) : Prop :=
  amount_ok (value o) /\ fits (locking_program o) (max_locking_program_bytes limits).

Definition transaction_within (limits : DecodeLimits) (tx : Transaction) : Prop :=
  version tx = 1 /\
  fits (inputs tx) (max_transaction_inputs limits) /\ Forall (input_within limits) (inputs tx) /\
  fits (outputs tx) (max_transaction_outputs limits) /\ Forall (output_within limits) (outputs tx) /\
  in_u64 (lock_time tx).

(** ** Codecs *)

#[export] Instance read_var_bytes_codec max :
  Codec encode_var_bytes (read_var_bytes max) (fun l => fits l max).
Proof.
  intros d l d' W. unfold read_var_bytes, encode_var_bytes. split.
  - intros H. codec_fwd H. apply codec_spec in H as [HL C']; [|by eauto using consumes_wf].
    subst a. split; [done|]. consumes_join.
  - intros [[? ?] C]. consumes_split C. codec_bwd; [done|]. apply codec_spec; eauto using consumes_wf.
Qed.

#[export] Instance TxInput_codec limits :
  Codec TxInput_encode (TxInput_decode_from limits) (input_within limits).
Proof.
  intros d [h i s w] d' W. unfold TxInput_decode_from, TxInput_encode, input_within; simpl. split.
  - intros H. do 5 codec_fwd H. injection H as -> -> -> -> <-.
    destruct Wf3 as [<- ?]. split; [by split_and!|]. consumes_join.
  - intros [(? & ? & [? ?] & ?) C]. do 4 consumes_split C. do 5 (codec_bwd; [done|]). done.
Qed.

#[export] Instance TxOutput_codec limits :
  Codec TxOutput_encode (TxOutput_decode_from limits) (output_within limits).
Proof.
  intros d [[u] p] d' W. unfold TxOutput_decode_from, TxOutput_encode, output_within, amount_ok; simpl.
  split.
  - intros H. codec_fwd H. unfold eff_bind at 1, eff_lift, Amount_from_base_units in H.
    destruct (a >? MAX_SUPPLY_BASE_UNITS) eqn:E; [done|]. codec_fwd H. injection H as -> -> <-.
    split; [unfold_ints; split; [lia|done]|]. consumes_join.
  - intros [[? ?] C]. consumes_split C. codec_bwd; [unfold MAX_SUPPLY_BASE_UNITS, BASE_UNITS_PER_OREG in *; unfold_ints; lia|].
    unfold eff_bind at 1, eff_lift, Amount_from_base_units.
    destruct (u >? MAX_SUPPLY_BASE_UNITS) eqn:E; [lia|]. codec_bwd; done.
Qed.

#[export] Instance Transaction_codec limits :
  Codec Transaction_encode (Transaction_decode_from limits) (transaction_within limits).
Proof.
  intros d [v i o t] d' W.
  unfold Transaction_decode_from, Transaction_encode, transaction_within; simpl. split.
  - intros H. codec_fwd H. destruct (Z.eqb_spec a 1) as [->|]; [simpl in H|done].
    do 5 codec_fwd H. injection H as <- -> -> -> <-.
    destruct Wf1 as [<- ?], Wf3 as [<- ?]. split; [by split_and!|].
    consumes_join.
  - intros [(-> & [? ?] & ? & [? ?] & ? & ?) C]. do 5 consumes_split C.
    codec_bwd; [done|]. simpl. do 5 (codec_bwd; [done|]). done.
Qed.

Lemma Transaction_decode_spec limits bytes tx :
  max_object_bytes limits <= USIZE_MAX ->
  Transaction_decode bytes limits = Ok tx <->
  bytes = Transaction_encode tx /\ transaction_within limits tx /\
  Z.of_nat (length bytes) <= max_object_bytes limits.
Proof.
  intros HM. unfold Transaction_decode. destruct (_ >? _) eqn:E.
  - split; [done|]. intros (_ & _ & ?). lia.
  - rewrite (decode_complete_spec Transaction_encode _ (transaction_within limits)) by lia. naive_solver lia.
Qed.

Lemma Transaction_encode_inj limits tx1 tx2 :
  max_object_bytes limits <= USIZE_MAX ->
  transaction_within limits tx1 -> transaction_within limits tx2 ->
  Z.of_nat (length (Transaction_encode tx1)) <= max_object_bytes limits ->
  Transaction_encode tx1 = Transaction_encode tx2 -> tx1 = tx2.
Proof.
  intros HM H1 H2 HL E.
  assert (Transaction_decode (Transaction_encode tx1) limits = Ok tx1) as D1
    by (by apply Transaction_decode_spec).
  assert (Transaction_decode (Transaction_encode tx1) limits = Ok tx2) as D2
    by (by apply Transaction_decode_spec).
  congruence.
Qed.

(** The transaction wire format.  Decoding is exactly the inverse of
    encoding on the transactions the limits admit: everything admitted decodes
    from its encoding, and every accepted byte string is the one encoding of
    the transaction it decodes to. *)
Theorem transaction_decode_exact limits bytes tx :
  max_object_bytes limits <= USIZE_MAX ->
  Transaction_decode bytes limits = Ok tx <->
  bytes = Transaction_encode tx /\ transaction_within limits tx /\
  Z.of_nat (length bytes) <= max_object_bytes limits.
Proof. apply Transaction_decode_spec. Qed.

Definition demo_tx : Transaction :=
  MkTransaction 1 [MkTxInput (arr_fill 32 x31) 2 4294967295 [[x01; x02]; []]]
    [MkTxOutput (MkAmount 90) [x51]; MkTxOutput (MkAmount 10) []] 77.

Lemma transaction_decode_exact_witness :
  Transaction_decode (Transaction_encode demo_tx) DecodeLimits_default = Ok demo_tx.
Proof.
  apply (transaction_decode_exact DecodeLimits_default (Transaction_encode demo_tx) demo_tx).
  - unfold_ints; simpl; lia.
  - split; [reflexivity|]. split; [|unfold Transaction_encode; vm_compute; discriminate].
    unfold transaction_within, input_within, output_within, fits, amount_ok; simpl; unfold_ints.
    repeat split; repeat constructor; simpl; unfold MAX_SUPPLY_BASE_UNITS, BASE_UNITS_PER_OREG; lia.
Defined.
