(* ===== verification/Block.v ===== *)
(** [oregon-primitives/block.rs] and [merkle.rs]: block headers, blocks, their
    canonical encodings and identifiers, and the transaction Merkle root. *)
From S2P Require Import Prelude Encoding Transaction.

Record BlockHeader : Type := MkBlockHeader {
  header_version : Z;
  previous_block : Hash256;
  transaction_root_field : Hash256;
  timestamp : Z;
  difficulty_commitment : arr 32;
  nonce : Z;
}.

Record Block : Type := MkBlock {
  header : BlockHeader;
  transactions : list Transaction;
}.

#[global] Instance BlockHeader_eq_dec : EqDecision BlockHeader.
Proof. solve_decision. Defined.

Definition BLOCK_DOMAIN : list byte := domain_tag "OREGON/BLOCK/V0".
Definition BLOCK_HEADER_BYTES : nat := 114.

Definition BlockHeader_encode (h : BlockHeader) : list byte :=
  le_bytes 2 (header_version h)
    ++ arr_bytes (previous_block h)
    ++ arr_bytes (transaction_root_field h)
    ++ le_bytes 8 (timestamp h)
    ++ arr_bytes (difficulty_commitment h)
    ++ le_bytes 8 (nonce h).

Definition BlockHeader_decode_from : reader BlockHeader :=
  let! version := read_u16 in
  let! previous_block := read_hash in
  let! transaction_root := read_hash in
  let! timestamp := read_u64 in
  let! difficulty_commitment := read_array 32 in
  let! nonce := read_u64 in
  eff_ret (MkBlockHeader version previous_block transaction_root timestamp
             difficulty_commitment nonce).

Definition BlockHeader_decode (bytes : list byte) : result PrimitiveError.t BlockHeader :=
  decode_complete BlockHeader_decode_from bytes.

Definition block_id `{Blake3} (h : BlockHeader) : Hash256 :=
  domain_hash BLOCK_DOMAIN (BlockHeader_encode h).

Definition Block_encode (b : Block) : list byte :=
  BlockHeader_encode (header b)
    ++ write_varint (Z.of_nat (length (transactions b)))
    ++ encode_all Transaction_encode (transactions b).

Definition Block_decode_from (limits : DecodeLimits) : reader Block :=
  let! header := BlockHeader_decode_from in
  let! transaction_count := read_len (max_block_transactions limits) in
  if (transaction_count =? 0)%nat then eff_fail PrimitiveError.EmptyBlockTransactions
  else
    let! transactions := repeat_read transaction_count (Transaction_decode_from limits) in
    eff_ret (MkBlock header transactions).

Definition Block_decode (bytes : list byte) (limits : DecodeLimits)
  : result PrimitiveError.t Block :=
  if Z.of_nat (length bytes) >? max_object_bytes limits
  then Err PrimitiveError.LengthLimitExceeded
  else decode_complete (Block_decode_from limits) bytes.

(** ** Merkle root *)

Definition MERKLE_LEAF_DOMAIN : list byte := domain_tag "OREGON/MERKLE-LEAF/V0".
Definition MERKLE_NODE_DOMAIN : list byte := domain_tag "OREGON/MERKLE/V0".

Definition merkle_leaf_hash `{Blake3} (tx : Transaction) : Hash256 :=
  domain_hash MERKLE_LEAF_DOMAIN (arr_bytes (Transaction_txid tx)).

Definition merkle_node_hash `{Blake3} (left right : Hash256) : Hash256 :=
  domain_hash MERKLE_NODE_DOMAIN (arr_bytes left ++ arr_bytes right).

(** One pass of the [while] loop: hash the pairs, promote an odd last node. *)
Fixpoint merkle_level `{Blake3} (level : list Hash256) : list Hash256 :=
  match level with
  | l :: r :: rest => merkle_node_hash l r :: merkle_level rest
  | _ => level
  end.

(** The [while level.len() > 1] loop with fuel; a level of [n] nodes needs
    fewer than [n] passes, so [transaction_root] gives it [n]. *)
Fixpoint merkle_reduce `{Blake3} (fuel : nat) (level : list Hash256) : option Hash256 :=
  match level with
  | [] => None
  | [h] => Some h
  | _ => match fuel with
         | O => None
         | S fuel => merkle_reduce fuel (merkle_level level)
         end
  end.

Definition transaction_root `{Blake3} (txs : list Transaction) : result PrimitiveError.t Hash256 :=
  match txs with
  | [] => Err PrimitiveError.EmptyBlockTransactions
  | _ =>
      let level := map merkle_leaf_hash txs in
      ok_or (merkle_reduce (length level) level) PrimitiveError.EmptyBlockTransactions
  end.

(** ** Codecs *)

Definition header_within (h : BlockHeader) : Prop :=
  in_u16 (header_version h) /\ in_u64 (timestamp h) /\ in_u64 (nonce h).

Definition block_within (limits : DecodeLimits) (b : Block) : Prop :=
  header_within (header b) /\ transactions b <> [] /\
  fits (transactions b) (max_block_transactions limits) /\
  Forall (transaction_within limits) (transactions b).

#[export] Instance BlockHeader_codec :
  Codec BlockHeader_encode BlockHeader_decode_from header_within.
Proof.
  intros d [v p r t c n] d' W. unfold BlockHeader_decode_from, BlockHeader_encode, header_within; simpl.
  split.
  - intros H. do 6 codec_fwd H. injection H as -> -> -> -> -> -> <-.
    split; [by split_and!|]. consumes_join.
  - intros [(? & ? & ?) C]. do 5 consumes_split C. do 6 (codec_bwd; [done|]). done.
Qed.

Lemma length_BlockHeader_encode h : length (BlockHeader_encode h) = BLOCK_HEADER_BYTES.
Proof. unfold BlockHeader_encode. rewrite !length_app, !length_le_bytes, !arr_length. done. Qed.

Lemma BlockHeader_decode_spec bytes h :
  BlockHeader_decode bytes = Ok h -> Z.of_nat (length bytes) <= USIZE_MAX ->
  bytes = BlockHeader_encode h /\ header_within h.
Proof. intros H HL. apply (decode_complete_spec BlockHeader_encode _ header_within) in H as [??]; done. Qed.

Lemma BlockHeader_decode_encode h :
  header_within h -> BlockHeader_decode (BlockHeader_encode h) = Ok h.
Proof.
  intros H. apply (decode_complete_spec BlockHeader_encode _ header_within); [|done].
  rewrite length_BlockHeader_encode. by vm_compute.
Qed.

#[export] Instance Block_codec limits :
  Codec Block_encode (Block_decode_from limits) (block_within limits).
Proof.
  intros d [h txs] d' W. unfold Block_decode_from, Block_encode, block_within; simpl. split.
  - intros H. do 2 codec_fwd H. destruct (Nat.eqb_spec a0 0); [done|].
    codec_fwd H. injection H as -> -> <-. destruct Wf1 as [<- ?].
    split; [split_and!; [done|by intros ->|done|done]|].
    consumes_join.
  - intros [(? & ? & [? ?] & ?) C]. do 2 consumes_split C. do 2 (codec_bwd; [done|]).
    destruct (Nat.eqb_spec (length txs) 0); [by destruct txs|]. codec_bwd; done.
Qed.

Lemma Block_decode_spec limits bytes b :
  max_object_bytes limits <= USIZE_MAX ->
  Block_decode bytes limits = Ok b <->
  bytes = Block_encode b /\ block_within limits b /\
  Z.of_nat (length bytes) <= max_object_bytes limits.
Proof.
  intros HM. unfold Block_decode. destruct (_ >? _) eqn:E.
  - split; [done|]. intros (_ & _ & ?). lia.
  - rewrite (decode_complete_spec Block_encode _ (block_within limits)) by lia. naive_solver lia.
Qed.

(** ** Merkle commitment *)

(** The tree a sequence of leaves is hashed as. *)
Inductive mtree : Type :=
| MLeaf (id : Hash256)
| MNode (l r : mtree).

Fixpoint mroot `{Blake3} (t : mtree) : Hash256 :=
  match t with
  | MLeaf id => domain_hash MERKLE_LEAF_DOMAIN (arr_bytes id)
  | MNode l r => merkle_node_hash (mroot l) (mroot r)
  end.

Fixpoint mleaves (t : mtree) : list Hash256 :=
  match t with
  | MLeaf id => [id]
  | MNode l r => mleaves l ++ mleaves r
  end.

Fixpoint pair_up (ts : list mtree) : list mtree :=
  match ts with
  | l :: r :: rest => MNode l r :: pair_up rest
  | _ => ts
  end.

(** Induction two elements at a time, as [chunks_exact(2)] walks a level. *)
Lemma list_pair_ind {A} (P : list A -> Prop) :
  P [] -> (forall x, P [x]) -> (forall x y l, P l -> P (x :: y :: l)) -> forall l, P l.
Proof.
  intros H0 H1 H2 l. enough (P l /\ forall x, P (x :: l)) by tauto.
  induction l as [|x l [IH1 IH2]]; split; auto.
Qed.

Lemma merkle_level_trees `{Blake3} ts : merkle_level (map mroot ts) = map mroot (pair_up ts).
Proof. induction ts as [| |x y ts IH] using list_pair_ind; simpl; [done..|]. by rewrite IH. Qed.

Lemma pair_up_leaves ts : flat_map mleaves (pair_up ts) = flat_map mleaves ts.
Proof.
  induction ts as [| |x y ts IH] using list_pair_ind; simpl; [done..|]. by rewrite IH, app_assoc.
Qed.

Lemma pair_up_length ts :
  (length (pair_up ts) <= length ts)%nat /\ (2 <= length ts -> length (pair_up ts) < length ts)%nat
  /\ (ts <> [] -> pair_up ts <> []).
Proof.
  induction ts as [| |x y ts IH] using list_pair_ind; simpl; [split_and!; (lia || done)..|].
  split_and!; try lia; done.
Qed.

(** ** What the Merkle root and the block identifier bind *)

(** The messages hashed for one level of the tree, and for all levels. *)
Fixpoint level_messages (level : list Hash256) : list (list byte) :=
  match level with
  | l :: r :: rest => (MERKLE_NODE_DOMAIN ++ arr_bytes l ++ arr_bytes r) :: level_messages rest
  | _ => []
  end.

Fixpoint reduce_messages `{Blake3} (fuel : nat) (level : list Hash256) : list (list byte) :=
  match level with
  | [] | [_] => []
  | _ => match fuel with
         | O => []
         | S fuel => level_messages level ++ reduce_messages fuel (merkle_level level)
         end
  end.

Definition leaf_messages (ids : list Hash256) : list (list byte) :=
  map (fun id => MERKLE_LEAF_DOMAIN ++ arr_bytes id) ids.

Definition txid_messages (txs : list Transaction) : list (list byte) :=
  map (fun tx => TX_DOMAIN ++ Transaction_encode tx) txs.

(** Every message [transaction_root txs] hashes. *)
Definition root_messages `{Blake3} (txs : list Transaction) : list (list byte) :=
  txid_messages txs ++ leaf_messages (map Transaction_txid txs)
    ++ reduce_messages (length txs) (map merkle_leaf_hash txs).

(** Every message hashed for a block's identifier and root. *)
Definition block_messages `{Blake3} (b : Block) : list (list byte) :=
  (BLOCK_DOMAIN ++ BlockHeader_encode (header b)) :: root_messages (transactions b).

Fixpoint mmessages `{Blake3} (t : mtree) : list (list byte) :=
  match t with
  | MLeaf id => [MERKLE_LEAF_DOMAIN ++ arr_bytes id]
  | MNode l r =>
      (MERKLE_NODE_DOMAIN ++ arr_bytes (mroot l) ++ arr_bytes (mroot r)) :: mmessages l ++ mmessages r
  end.

Lemma pair_up_messages `{Blake3} ts :
  flat_map mmessages (pair_up ts) ⊆ flat_map mmessages ts ++ level_messages (map mroot ts).
Proof. induction ts as [| |x y ts IH] using list_pair_ind; simpl; set_solver. Qed.

(** The loop always ends, in the root of a tree over the given leaves. *)
Lemma merkle_reduce_tree `{Blake3} fuel ts :
  ts <> [] -> (length ts <= fuel)%nat ->
  exists t, merkle_reduce fuel (map mroot ts) = Some (mroot t) /\ mleaves t = flat_map mleaves ts
    /\ mmessages t ⊆ flat_map mmessages ts ++ reduce_messages fuel (map mroot ts).
Proof.
  revert ts. induction fuel as [|fuel IH]; intros ts Hne HL.
  { destruct ts; simpl in *; [done|lia]. }
  destruct ts as [|t1 [|t2 ts]]; [done|exists t1; simpl; rewrite !app_nil_r; done|].
  destruct (pair_up_length (t1 :: t2 :: ts)) as (_ & Hlt & Hne').
  destruct (IH (pair_up (t1 :: t2 :: ts))) as (t & E & EL & EM); [by auto|simpl in *; lia|].
  exists t. rewrite EL, pair_up_leaves. rewrite <- merkle_level_trees in E, EM.
  split_and!; [done|done|]. pose proof (pair_up_messages (t1 :: t2 :: ts)).
  change (reduce_messages (S fuel) (map mroot (t1 :: t2 :: ts))) with
    (level_messages (map mroot (t1 :: t2 :: ts))
       ++ reduce_messages fuel (merkle_level (map mroot (t1 :: t2 :: ts)))).
  rewrite app_assoc. intros x Hx%EM. rewrite !elem_of_app in *. specialize (H0 x). rewrite elem_of_app in H0. tauto.
Qed.

Lemma transaction_root_tree `{Blake3} txs :
  txs <> [] ->
  exists t, transaction_root txs = Ok (mroot t) /\ mleaves t = map Transaction_txid txs
    /\ mmessages t ⊆ root_messages txs.
Proof.
  intros Hne. unfold transaction_root, root_messages, leaf_messages.
  set (ts := map (fun tx => MLeaf (Transaction_txid tx)) txs).
  assert (map merkle_leaf_hash txs = map mroot ts) as E by (unfold ts; by rewrite map_map).
  destruct (merkle_reduce_tree (length (map merkle_leaf_hash txs)) ts) as (t & Et & El & Em).
  { by destruct txs. }
  { unfold ts. by rewrite !length_map. }
  exists t. rewrite <- E in Et, Em. rewrite length_map in Em. cbv zeta. rewrite Et.
  assert (flat_map mmessages ts = leaf_messages (map Transaction_txid txs)) as Hl.
  { unfold ts, leaf_messages. clear. induction txs as [|x l IH]; simpl; [done|]. f_equal. exact IH. }
  rewrite Hl in Em. split_and!; [by destruct txs| |set_solver].
  rewrite El. unfold ts. clear. induction txs; simpl; congruence.
Qed.

Lemma mroot_inj `{Blake3} t1 t2 :
  mroot t1 = mroot t2 -> t1 = t2 \/ collision_in (mmessages t1) (mmessages t2).
Proof.
  revert t2. induction t1 as [a|l1 IHl r1 IHr]; intros [b|l2 r2]; simpl; intros E.
  - apply domain_hash_inj in E as [E|]; [|by right]. left. f_equal. by apply arr_eq.
  - right. eapply collision_in_mono; [eapply domain_hash_length_collision; [exact E|]|set_solver..].
    rewrite !length_app, !arr_length. by vm_compute.
  - right. eapply collision_in_mono; [eapply domain_hash_length_collision; [exact E|]|set_solver..].
    rewrite !length_app, !arr_length. by vm_compute.
  - unfold merkle_node_hash in E.
    apply domain_hash_inj in E as [E|C]; [|right; eapply collision_in_mono; [exact C|set_solver..]].
    apply app_inj_1 in E as [El%arr_eq Er%arr_eq]; [|by rewrite !arr_length].
    destruct (IHl _ El) as [->|C]; [|right; eapply collision_in_mono; [exact C|set_solver..]].
    destruct (IHr _ Er) as [->|C]; [|right; eapply collision_in_mono; [exact C|set_solver..]]. by left.
Qed.

Lemma transaction_root_binds_txids `{Blake3} txs1 txs2 r :
  transaction_root txs1 = Ok r -> transaction_root txs2 = Ok r ->
  map Transaction_txid txs1 = map Transaction_txid txs2
    \/ collision_in (root_messages txs1) (root_messages txs2).
Proof.
  intros H1 H2.
  destruct (transaction_root_tree txs1) as (t1 & E1 & L1 & M1); [by destruct txs1|].
  destruct (transaction_root_tree txs2) as (t2 & E2 & L2 & M2); [by destruct txs2|].
  destruct (mroot_inj t1 t2) as [->|]; [congruence| |right; by eapply collision_in_mono].
  left. congruence.
Qed.

Lemma txids_bind_transactions `{Blake3} limits txs1 txs2 :
  Forall (transaction_within limits) txs1 -> Forall (transaction_within limits) txs2 ->
  Z.of_nat (length (encode_all Transaction_encode txs1)) <= USIZE_MAX ->
  map Transaction_txid txs1 = map Transaction_txid txs2 ->
  txs1 = txs2 \/ collision_in (txid_messages txs1) (txid_messages txs2).
Proof.
  revert txs2. induction txs1 as [|x txs1 IH]; intros [|y txs2] F1 F2 HL E; simplify_eq/=; [by left|].
  inversion F1; inversion F2; subst. rewrite length_app in HL.
  rename select (Transaction_txid x = _) into Ex. unfold Transaction_txid in Ex.
  apply domain_hash_inj in Ex as [Ex|C]; [|right; eapply collision_in_mono; [exact C|set_solver..]].
  destruct (IH txs2) as [->|C]; [done|done|lia|done| |right; eapply collision_in_mono; [exact C|set_solver..]].
  left. f_equal.
  assert (Z.of_nat (length (Transaction_encode x)) <= USIZE_MAX) by lia.
  assert (decode_complete (Transaction_decode_from limits) (Transaction_encode x) = Ok x) as D1
    by (by apply (decode_complete_spec Transaction_encode _ (transaction_within limits))).
  assert (decode_complete (Transaction_decode_from limits) (Transaction_encode x) = Ok y) as D2
    by (by apply (decode_complete_spec Transaction_encode _ (transaction_within limits))).
  congruence.
Qed.

Lemma block_id_binds_header `{Blake3} h1 h2 :
  header_within h1 -> header_within h2 -> block_id h1 = block_id h2 ->
  h1 = h2 \/ collision_in [BLOCK_DOMAIN ++ BlockHeader_encode h1] [BLOCK_DOMAIN ++ BlockHeader_encode h2].
Proof.
  intros W1 W2 E. unfold block_id in E. apply domain_hash_inj in E as [E|]; [|by right]. left.
  apply BlockHeader_decode_encode in W1, W2. congruence.
Qed.

(** Two blocks that decode, carry the Merkle root of their own
    transactions and have the same identifier are the same block, byte for
    byte, unless two different messages hashed for them collide under BLAKE3. *)
Theorem block_id_binds_block `{Blake3} limits bytes1 bytes2 b1 b2 :
  max_object_bytes limits <= USIZE_MAX ->
  Block_decode bytes1 limits = Ok b1 -> Block_decode bytes2 limits = Ok b2 ->
  transaction_root (transactions b1) = Ok (transaction_root_field (header b1)) ->
  transaction_root (transactions b2) = Ok (transaction_root_field (header b2)) ->
  block_id (header b1) = block_id (header b2) ->
  (b1 = b2 /\ bytes1 = bytes2) \/ collision_in (block_messages b1) (block_messages b2).
Proof.
  intros HM D1 D2 R1 R2 E. apply Block_decode_spec in D1 as (-> & W1 & L1), D2 as (-> & W2 & L2); [|done..].
  destruct W1 as (H1 & _ & _ & F1), W2 as (H2 & _ & _ & F2).
  unfold block_messages, root_messages.
  destruct (block_id_binds_header _ _ H1 H2 E) as [Eh|C];
    [|right; eapply collision_in_mono; [exact C|set_solver..]].
  rewrite Eh in R1.
  destruct (transaction_root_binds_txids _ _ _ R1 R2) as [Et|C];
    [|right; eapply collision_in_mono; [exact C|unfold root_messages; set_solver..]].
  destruct (txids_bind_transactions limits _ _ F1 F2) as [Ex|C]; [|done| |
    right; eapply collision_in_mono; [exact C|set_solver..]].
  { unfold Block_encode in L1. rewrite !length_app in L1. lia. }
  left. destruct b1, b2; simpl in *; subst. done.
Qed.

(** The block wire format, as for transactions: decoding is the inverse of
    encoding on the blocks the limits admit, and a block that decodes has a
    transaction. *)
Theorem block_decode_exact limits bytes b :
  max_object_bytes limits <= USIZE_MAX ->
  Block_decode bytes limits = Ok b <->
  bytes = Block_encode b /\ block_within limits b /\
  Z.of_nat (length bytes) <= max_object_bytes limits.
Proof. apply Block_decode_spec. Qed.

Definition demo_root : Hash256 :=
  match transaction_root (H := demo_blake3) [demo_tx] with Ok r => r | Err _ => arr_fill 32 x00 end.
Definition demo_full_block : Block :=
  MkBlock (MkBlockHeader 1 (arr_fill 32 x11) demo_root 1800000300 (arr_fill 32 xff) 7) [demo_tx].

Lemma demo_block_decodes :
  Block_decode (Block_encode demo_full_block) DecodeLimits_default = Ok demo_full_block.
Proof.
  apply Block_decode_spec; [unfold_ints; simpl; lia|].
  split; [done|]. split; [|vm_compute; discriminate].
  split_and!; [split_and!; unfold_ints; simpl; lia|done|split; vm_compute; discriminate|].
  constructor; [|constructor].
  unfold transaction_within, input_within, output_within, fits, amount_ok; simpl; unfold_ints.
  repeat split; repeat constructor; simpl; unfold MAX_SUPPLY_BASE_UNITS, BASE_UNITS_PER_OREG; lia.
Qed.

Lemma block_decode_exact_witness : block_within DecodeLimits_default demo_full_block.
Proof.
  apply (block_decode_exact DecodeLimits_default (Block_encode demo_full_block) demo_full_block).
  - unfold_ints; simpl; lia.
  - apply demo_block_decodes.
Defined.

Lemma block_id_binds_block_witness :
  (demo_full_block = demo_full_block /\
   Block_encode demo_full_block = Block_encode demo_full_block) \/
  collision_in (H := demo_blake3) (block_messages (H := demo_blake3) demo_full_block)
    (block_messages (H := demo_blake3) demo_full_block).
Proof.
  apply (block_id_binds_block (H := demo_blake3) DecodeLimits_default (Block_encode demo_full_block)
    (Block_encode demo_full_block) demo_full_block demo_full_block).
  - unfold_ints; simpl; lia.
  - apply demo_block_decodes.
  - apply demo_block_decodes.
  - vm_compute. reflexivity.
  - vm_compute. reflexivity.
  - reflexivity.
Defined.
