(* ===== verification/Difficulty.v ===== *)
(** [oregon-consensus]: targets, chain work, consensus parameters, the ASERT
    difficulty rule ([error.rs], [target.rs], [work.rs], [params.rs],
    [asert.rs]) and the raw proof-of-work comparison
    ([oregon-pow/target.rs]).

    [num_bigint::BigUint] is modelled by its value, a non-negative [Z]; its
    byte exports are the shortest representations, as documented. *)
From S2P Require Import Prelude Encoding.

Module NormalTransactionError.
Inductive t : Type := TooLarge | EmptyInputs | EmptyOutputs | CoinbaseForm | NullOutpoint.
End NormalTransactionError.

Module ConsensusError.
Inductive t : Type :=
| ZeroTarget
| TargetExceeds256Bits
| TargetAbovePowLimit
| InitialTargetAbovePowLimit
| ArithmeticOverflow
| InvalidHeight
| UnexpectedTarget
| InvalidMtpWindow
| TimestampNotAfterMtp
| PreviousBlockMismatch
| PowPrevalidationMismatch
| PowKeyBlockUnavailable
| PowEngineKeyMismatch
| InsufficientProofOfWork
| InvalidCoinbase
| InvalidFounderOutput
| CoinbaseOverClaim
| BlockTooLarge
| TransactionTooLarge (index : nat)
| EmptyNonGenesisBlock
| MerkleRootMismatch
| NullOutpointInNormalTransaction
| EmptyNormalTransactionInputs (index : nat)
| EmptyNormalTransactionOutputs (index : nat)
| MultipleCoinbase.
End ConsensusError.

(** ** Big naturals as bytes *)

(** Number of bytes of the shortest representation; zero takes one byte. *)
Definition byte_len (z : Z) : nat := Z.to_nat (Z.log2 z / 8 + 1).
Definition biguint_to_bytes_le (z : Z) : list byte := le_bytes (byte_len z) z.
Definition biguint_to_bytes_be (z : Z) : list byte := rev (biguint_to_bytes_le z).
Definition biguint_from_bytes_le (bytes : list byte) : Z := le_num bytes.
Definition biguint_from_bytes_be (bytes : list byte) : Z := le_num (rev bytes).

(** ** Targets *)

Record Target : Type := MkTarget { target_bytes : arr 32 }.

#[global] Instance Target_eq_dec : EqDecision Target.
Proof. solve_decision. Defined.

Definition Target_from_le_bytes (bytes : arr 32) : result ConsensusError.t Target :=
  if forallb (fun b => bool_decide (b = x00)) (arr_bytes bytes) then Err ConsensusError.ZeroTarget
  else Ok (MkTarget bytes).

Definition Target_to_biguint (t : Target) : Z := biguint_from_bytes_le (arr_bytes (target_bytes t)).

Definition Target_from_biguint (value : Z) : result ConsensusError.t Target :=
  if value =? 0 then Err ConsensusError.ZeroTarget
  else
    let bytes := biguint_to_bytes_le value in
    if (32 <? length bytes)%nat then Err ConsensusError.TargetExceeds256Bits
    else Ok (MkTarget (arr_resize 32 bytes)).

Definition Target_validate_against (t pow_limit : Target) : result ConsensusError.t unit :=
  if Target_to_biguint t >? Target_to_biguint pow_limit then Err ConsensusError.TargetAbovePowLimit
  else Ok tt.

(** ** Chain work *)

Record ChainWork : Type := MkChainWork { work_value : Z }.

#[global] Instance ChainWork_eq_dec : EqDecision ChainWork.
Proof. solve_decision. Defined.

Definition ChainWork_zero : ChainWork := MkChainWork 0.
Definition ChainWork_add_assign (a b : ChainWork) : ChainWork :=
  MkChainWork (work_value a + work_value b).
Definition ChainWork_to_canonical_be_bytes (w : ChainWork) : list byte :=
  let bytes := biguint_to_bytes_be (work_value w) in
  match bytes with [] => [x00] | _ => bytes end.
Definition ChainWork_from_canonical_be_bytes (bytes : list byte) : option ChainWork :=
  match bytes with
  | [] => None
  | b :: rest =>
      if (0 <? length rest)%nat && bool_decide (b = x00) then None
      else Some (MkChainWork (biguint_from_bytes_be bytes))
  end.

Definition block_work (t : Target) : ChainWork :=
  let numerator := Z.shiftl 1 256 in
  let denominator := Target_to_biguint t + 1 in
  MkChainWork (numerator / denominator).

(** ** Parameters *)

Definition TARGET_BLOCK_SECONDS : Z := 300.
Definition ASERT_HALF_LIFE_SECONDS : Z := 21600.
Definition ASERT_RADIX : Z := 65536.
Definition HALVING_INTERVAL : Z := 200000.
Definition INITIAL_SUBSIDY_BASE_UNITS : Z := 237500000.
Definition MAX_BLOCK_BYTES : Z := 1048576.
Definition MAX_TRANSACTION_BYTES : Z := 102400.
Definition KEY_COMMIT_V1 : byte := x01.

Record ConsensusParams : Type := MkConsensusParams {
  pow_limit : Target;
  initial_target : Target;
  founder_key_commitment : arr 32;
}.

Definition ConsensusParams_new (limit initial : Target) (founder : arr 32)
  : result ConsensusError.t ConsensusParams :=
  if Target_to_biguint initial >? Target_to_biguint limit
  then Err ConsensusError.InitialTargetAbovePowLimit
  else Ok (MkConsensusParams limit initial founder).

(** ** ASERT *)

Definition i128_op (z : Z) : result ConsensusError.t Z :=
  ok_or (i128_checked z) ConsensusError.ArithmeticOverflow.

Definition required_target (height parent_timestamp genesis_timestamp : Z) (params : ConsensusParams)
  : result ConsensusError.t Target :=
  if height =? 0 then Err ConsensusError.InvalidHeight
  else if height =? 1 then Ok (initial_target params)
  else
    let time_delta := parent_timestamp - genesis_timestamp in
    let height_delta := height - 2 in
    let? intervals := i128_op (height_delta + 1) in
    let? ideal := i128_op (TARGET_BLOCK_SECONDS * intervals) in
    let? drift := i128_op (time_delta - ideal) in
    let? scaled := i128_op (drift * ASERT_RADIX) in
    let exponent := Z.quot scaled ASERT_HALF_LIFE_SECONDS in
    let num_shifts := Z.shiftr exponent 16 in
    let? whole := i128_op (num_shifts * ASERT_RADIX) in
    let? frac := i128_op (exponent - whole) in
    if negb ((0 <=? frac) && (frac <? ASERT_RADIX)) then Err ConsensusError.ArithmeticOverflow
    else
    let? term1 := i128_op (195766423245049 * frac) in
    let? frac2 := i128_op (frac * frac) in
    let? frac3 := i128_op (frac2 * frac) in
    let? term2 := i128_op (971821376 * frac2) in
    let? term3 := i128_op (5127 * frac3) in
    let? sum12 := i128_op (term1 + term2) in
    let? sum123 := i128_op (sum12 + term3) in
    let? polynomial := i128_op (sum123 + Z.shiftl 1 47) in
    let? factor := ok_or (try_from U64_MAX (Z.shiftr polynomial 48 + ASERT_RADIX))
                     ConsensusError.ArithmeticOverflow in
    if 256 <=? num_shifts then Ok (pow_limit params)
    else if num_shifts <=? -257 then Target_from_biguint 1
    else
    let candidate := Target_to_biguint (initial_target params) * factor in
    let shifted :=
      if num_shifts <? 0 then Z.shiftr candidate (- num_shifts)
      else Z.shiftl candidate num_shifts in
    let candidate := Z.shiftr shifted 16 in
    if candidate =? 0 then Target_from_biguint 1
    else if candidate >? Target_to_biguint (pow_limit params) then Ok (pow_limit params)
    else Target_from_biguint candidate.

(** ** Raw proof-of-work comparison *)

(** The [for index in (0..32).rev()] loop over the bytes, most significant
    first. *)
Fixpoint cmp_be_bytes (hash target : list byte) : bool :=
  match hash, target with
  | h :: hs, t :: ts =>
      match Z.compare (byte_to_Z h) (byte_to_Z t) with
      | Lt => true
      | Gt => false
      | Eq => cmp_be_bytes hs ts
      end
  | _, _ => true
  end.

Definition hash_meets_target (hash_le target_le : arr 32) : bool :=
  cmp_be_bytes (rev (arr_bytes hash_le)) (rev (arr_bytes target_le)).

(** ** Facts *)

Lemma pow256 n : 0 <= n -> 256 ^ n = 2 ^ (8 * n).
Proof. intros. change 256 with (2 ^ 8). rewrite <- Z.pow_mul_r; lia. Qed.

Lemma byte_len_bound z : 0 <= z -> z < 256 ^ Z.of_nat (byte_len z).
Proof.
  intros H. unfold byte_len. pose proof (Z.log2_nonneg z).
  rewrite Z2Nat.id by (pose proof (Z.div_pos (Z.log2 z) 8); lia).
  rewrite pow256 by (pose proof (Z.div_pos (Z.log2 z) 8); lia).
  destruct (Z.eq_dec z 0) as [->|]; [by vm_compute|].
  destruct (Z.log2_spec z) as [_ H2]; [lia|].
  eapply Z.lt_le_trans; [exact H2|]. apply Z.pow_le_mono_r; [lia|].
  pose proof (Z.mod_pos_bound (Z.log2 z) 8). pose proof (Z.div_mod (Z.log2 z) 8). lia.
Qed.

Lemma byte_len_le z n : 0 < z < 2 ^ (8 * Z.of_nat n) -> (byte_len z <= n)%nat.
Proof.
  intros [H1 H2]. unfold byte_len.
  assert (Z.log2 z < 8 * Z.of_nat n) by (apply Z.log2_lt_pow2; lia).
  pose proof (Z.log2_nonneg z).
  assert (Z.log2 z / 8 < Z.of_nat n) by (apply Z.div_lt_upper_bound; lia). lia.
Qed.

Lemma byte_len_gt z n : 2 ^ (8 * Z.of_nat n) <= z -> (n < byte_len z)%nat.
Proof.
  intros H. assert (0 < 2 ^ (8 * Z.of_nat n)) by (apply Z.pow_pos_nonneg; lia).
  unfold byte_len. assert (8 * Z.of_nat n <= Z.log2 z) by (apply Z.log2_le_pow2; lia).
  assert (Z.of_nat n <= Z.log2 z / 8) by (apply Z.div_le_lower_bound; lia). lia.
Qed.

Lemma le_num_app l1 l2 : le_num (l1 ++ l2) = le_num l1 + 256 ^ Z.of_nat (length l1) * le_num l2.
Proof.
  Transparent le_num. induction l1 as [|b l1 IH]; simpl app; cbn [length le_num].
  - rewrite Z.pow_0_r. lia.
  - rewrite IH, Nat2Z.inj_succ, Z.pow_succ_r by lia. lia.
Qed.
#[global] Opaque le_num.

Lemma le_num_zeros n : le_num (replicate n x00) = 0.
Proof.
  Transparent le_num. induction n as [|n IH]; [done|].
  cbn [replicate le_num]. rewrite IH. by vm_compute.
Qed.
#[global] Opaque le_num.

Lemma le_num_resize n l : (length l <= n)%nat -> le_num (resize n x00 l) = le_num l.
Proof. intros. rewrite resize_ge by done. rewrite le_num_app, le_num_zeros. lia. Qed.

Lemma Target_range t : 0 <= Target_to_biguint t < 2 ^ 256.
Proof.
  unfold Target_to_biguint, biguint_from_bytes_le. destruct t as [a]; simpl.
  pose proof (le_num_range (arr_bytes a)) as R. rewrite arr_length in R.
  by rewrite pow256 in R by lia.
Qed.

Lemma Target_inj t1 t2 : Target_to_biguint t1 = Target_to_biguint t2 -> t1 = t2.
Proof.
  destruct t1 as [a], t2 as [b]. unfold Target_to_biguint, biguint_from_bytes_le; simpl.
  intros E. f_equal. apply arr_eq, le_num_inj; [by rewrite !arr_length|done].
Qed.

Lemma Target_from_biguint_ok v :
  0 < v < 2 ^ 256 -> exists t, Target_from_biguint v = Ok t /\ Target_to_biguint t = v.
Proof.
  intros H. unfold Target_from_biguint. destruct (Z.eqb_spec v 0); [lia|].
  assert (byte_len v <= 32)%nat as HB by (apply byte_len_le; simpl; lia).
  cbv zeta. unfold biguint_to_bytes_le at 1. rewrite length_le_bytes.
  destruct (Nat.ltb_spec 32 (byte_len v)); [lia|]. eexists; split; [done|].
  unfold Target_to_biguint, biguint_from_bytes_le, biguint_to_bytes_le; simpl.
  rewrite le_num_resize by (rewrite length_le_bytes; done).
  apply le_num_le_bytes. split; [lia|]. apply byte_len_bound. lia.
Qed.

Lemma all_zero_le_num l :
  forallb (fun b => bool_decide (b = x00)) l = true <-> le_num l = 0.
Proof.
  Transparent le_num. induction l as [|b l IH]; [done|]. cbn [forallb le_num].
  rewrite andb_true_iff, IH, bool_decide_eq_true.
  pose proof (byte_to_Z_range b). pose proof (le_num_range l). split.
  - intros [-> ->]. by vm_compute.
  - intros E. split; [|lia]. apply byte_to_Z_inj. change (byte_to_Z x00) with 0. lia.
Qed.
#[global] Opaque le_num.

Lemma Target_from_le_bytes_spec bytes t :
  Target_from_le_bytes bytes = Ok t <-> target_bytes t = bytes /\ 0 < Target_to_biguint t.
Proof.
  unfold Target_from_le_bytes, Target_to_biguint, biguint_from_bytes_le.
  pose proof (le_num_range (arr_bytes bytes)). pose proof (all_zero_le_num (arr_bytes bytes)) as Hz.
  destruct (forallb _ _).
  - split; [done|]. intros [-> ?]. destruct Hz as [Hz _]. specialize (Hz eq_refl). lia.
  - split.
    + intros [= <-]. simpl. split; [done|].
      destruct (Z.eq_dec (le_num (arr_bytes bytes)) 0) as [E|]; [|lia]. by apply Hz in E.
    + intros [<- _]. by destruct t.
Qed.

(** Parameters a constructed [ConsensusParams] satisfies. *)
Definition params_ok (p : ConsensusParams) : Prop :=
  0 < Target_to_biguint (initial_target p) <= Target_to_biguint (pow_limit p).

(** ** ASERT: the reference formula *)

(** The fixed-point approximation of [2^(frac/65536)]. *)
Definition asert_factor (frac : Z) : Z :=
  (195766423245049 * frac + 971821376 * (frac * frac) + 5127 * (frac * frac * frac) + 2 ^ 47) / 2 ^ 48
  + ASERT_RADIX.

Definition asert_exponent (height parent_timestamp genesis_timestamp : Z) : Z :=
  Z.quot ((parent_timestamp - genesis_timestamp - TARGET_BLOCK_SECONDS * (height - 1)) * ASERT_RADIX)
    ASERT_HALF_LIFE_SECONDS.

(** [initial * factor * 2^shifts / 2^16], scaled by [2^k] to stay integral. *)
Definition asert_scaled (initial exponent k : Z) : Z :=
  initial * asert_factor (exponent mod ASERT_RADIX) * 2 ^ (exponent / ASERT_RADIX + k) / 2 ^ (16 + k).

Definition asert_k (exponent : Z) : Z := Z.max 0 (- (exponent / ASERT_RADIX)).

Definition asert_target (initial limit exponent : Z) : Z :=
  Z.max 1 (Z.min limit (asert_scaled initial exponent (asert_k exponent))).

Lemma asert_factor_mono f1 f2 : 0 <= f1 <= f2 -> asert_factor f1 <= asert_factor f2.
Proof.
  intros H. unfold asert_factor. apply Z.add_le_mono_r, Z.div_le_mono; [lia|].
  assert (f1 * f1 <= f2 * f2) by nia. assert (f1 * f1 * f1 <= f2 * f2 * f2) by nia. lia.
Qed.

Lemma asert_factor_range f : 0 <= f < ASERT_RADIX -> ASERT_RADIX <= asert_factor f <= 2 * ASERT_RADIX.
Proof.
  intros H. split.
  - replace ASERT_RADIX with (asert_factor 0) at 1 by (by vm_compute). apply asert_factor_mono. lia.
  - transitivity (asert_factor (ASERT_RADIX - 1)).
    + apply asert_factor_mono. unfold ASERT_RADIX in *. lia.
    + by vm_compute.
Qed.

Lemma asert_scaled_k initial e k1 k2 :
  0 <= k1 <= k2 -> 0 <= e / ASERT_RADIX + k1 -> asert_scaled initial e k1 = asert_scaled initial e k2.
Proof.
  intros Hk Hs. unfold asert_scaled.
  replace (e / ASERT_RADIX + k2) with (e / ASERT_RADIX + k1 + (k2 - k1)) by lia.
  replace (16 + k2) with (16 + k1 + (k2 - k1)) by lia.
  rewrite (Z.pow_add_r _ (_ + k1)) by lia. rewrite (Z.pow_add_r _ (16 + k1)) by lia.
  rewrite Z.mul_assoc, Z.div_mul_cancel_r; [done| |]; apply Z.pow_nonzero; lia.
Qed.

Lemma asert_scaled_mono initial e1 e2 k :
  0 <= initial -> e1 <= e2 -> 0 <= k -> 0 <= e1 / ASERT_RADIX + k ->
  asert_scaled initial e1 k <= asert_scaled initial e2 k.
Proof.
  intros Hi He Hk Hs. unfold asert_scaled. apply Z.div_le_mono; [apply Z.pow_pos_nonneg; lia|].
  rewrite <- !Z.mul_assoc. apply Z.mul_le_mono_nonneg_l; [lia|].
  assert (0 < ASERT_RADIX) as HR by done.
  pose proof (Z.mod_pos_bound e1 _ HR) as M1. pose proof (Z.mod_pos_bound e2 _ HR) as M2.
  pose proof (Z.div_mod e1 ASERT_RADIX) as D1. pose proof (Z.div_mod e2 ASERT_RADIX) as D2.
  pose proof (Z.div_le_mono e1 e2 _ HR He) as Hd.
  set (s1 := e1 / ASERT_RADIX) in *. set (s2 := e2 / ASERT_RADIX) in *.
  pose proof (asert_factor_range _ M1). pose proof (asert_factor_range _ M2).
  destruct (Z.eq_dec s1 s2) as [<-|].
  - apply Z.mul_le_mono_nonneg_r; [apply Z.pow_nonneg; lia|]. apply asert_factor_mono. lia.
  - assert (2 ^ (s1 + k) * 2 <= 2 ^ (s2 + k)).
    { rewrite <- (Z.pow_1_r 2) at 2. rewrite <- Z.pow_add_r by lia. apply Z.pow_le_mono_r; lia. }
    assert (0 < 2 ^ (s1 + k)) by (apply Z.pow_pos_nonneg; lia). nia.
Qed.

Lemma asert_target_mono initial limit e1 e2 :
  0 <= initial -> e1 <= e2 -> asert_target initial limit e1 <= asert_target initial limit e2.
Proof.
  intros Hi He. unfold asert_target.
  assert (0 < ASERT_RADIX) as HR by done. pose proof (Z.div_le_mono e1 e2 _ HR He).
  enough (asert_scaled initial e1 (asert_k e1) <= asert_scaled initial e2 (asert_k e2)) by lia.
  rewrite (asert_scaled_k initial e2 (asert_k e2) (asert_k e1)) by (unfold asert_k; lia).
  apply asert_scaled_mono; unfold asert_k; lia.
Qed.

Lemma asert_target_range initial limit e :
  1 <= limit -> 1 <= asert_target initial limit e <= limit.
Proof. unfold asert_target. lia. Qed.

Lemma i128_op_ok z : in_i128 z -> i128_op z = Ok z.
Proof. intros H. unfold i128_op. by rewrite i128_checked_in. Qed.

Lemma asert_exponent_bound h pt gt :
  2 <= h -> in_u64 h -> in_u64 pt -> in_u64 gt -> Z.abs (asert_exponent h pt gt) <= 2 ^ 90.
Proof.
  intros. unfold asert_exponent, TARGET_BLOCK_SECONDS, ASERT_RADIX, ASERT_HALF_LIFE_SECONDS.
  rewrite <- Z.quot_abs by lia. transitivity (Z.abs ((pt - gt - 300 * (h - 1)) * 65536)).
  - apply Z.quot_le_upper_bound; unfold_ints; lia.
  - unfold_ints. lia.
Qed.

(** The polynomial part: every checked step of it stays within [i128]. *)
Lemma asert_poly_in f :
  0 <= f < ASERT_RADIX ->
  in_i128 (195766423245049 * f) /\ in_i128 (f * f) /\ in_i128 (f * f * f) /\
  in_i128 (971821376 * (f * f)) /\ in_i128 (5127 * (f * f * f)) /\
  in_i128 (195766423245049 * f + 971821376 * (f * f)) /\
  in_i128 (195766423245049 * f + 971821376 * (f * f) + 5127 * (f * f * f)) /\
  in_i128 (195766423245049 * f + 971821376 * (f * f) + 5127 * (f * f * f) + 2 ^ 47).
Proof.
  intros H. unfold ASERT_RADIX in H.
  assert (0 <= f * f <= 65536 * 65536) by nia. assert (0 <= f * f * f <= 65536 * 65536 * 65536) by nia.
  unfold_ints. split_and!; lia.
Qed.

(** Shifting by a saturated amount agrees with the clamp. *)
Lemma asert_target_high initial limit e :
  0 < initial -> limit < 2 ^ 256 -> 1 <= limit -> 256 <= e / ASERT_RADIX ->
  asert_target initial limit e = limit.
Proof.
  intros Hi Hl Hl1 He. unfold asert_target.
  enough (limit <= asert_scaled initial e (asert_k e)) by lia.
  assert (asert_k e = 0) as -> by (unfold asert_k; lia). unfold asert_scaled.
  rewrite !Z.add_0_r. apply Z.div_le_lower_bound; [lia|].
  pose proof (asert_factor_range (e mod ASERT_RADIX) (Z.mod_pos_bound _ ASERT_RADIX eq_refl)).
  pose proof (Z.pow_le_mono_r 2 256 (e / ASERT_RADIX)).
  transitivity (ASERT_RADIX * 2 ^ 256); [unfold ASERT_RADIX; lia|].
  apply Z.mul_le_mono_nonneg; unfold ASERT_RADIX in *; nia.
Qed.

Lemma asert_target_low initial limit e :
  0 <= initial < 2 ^ 256 -> 1 <= limit -> e / ASERT_RADIX <= -257 ->
  asert_target initial limit e = 1.
Proof.
  intros Hi Hl He. unfold asert_target.
  enough (asert_scaled initial e (asert_k e) <= 1) by lia.
  assert (asert_k e = - (e / ASERT_RADIX)) as -> by (unfold asert_k; lia). unfold asert_scaled.
  replace (e / ASERT_RADIX + - (e / ASERT_RADIX)) with 0 by lia. rewrite Z.pow_0_r, Z.mul_1_r.
  pose proof (asert_factor_range (e mod ASERT_RADIX) (Z.mod_pos_bound _ ASERT_RADIX eq_refl)).
  assert (2 ^ 273 <= 2 ^ (16 + - (e / ASERT_RADIX))) by (apply Z.pow_le_mono_r; lia).
  apply Z.lt_succ_r, Z.div_lt_upper_bound; [lia|].
  assert (initial * asert_factor (e mod ASERT_RADIX) <= 2 ^ 256 * (2 * ASERT_RADIX))
    by (apply Z.mul_le_mono_nonneg; unfold ASERT_RADIX in *; lia).
  unfold ASERT_RADIX in *. lia.
Qed.

(** The shifts of the code are the scaled division of the reference. *)
Lemma asert_shift_scaled initial e :
  0 <= initial ->
  let n := e / ASERT_RADIX in
  let c := initial * asert_factor (e mod ASERT_RADIX) in
  Z.shiftr (if n <? 0 then Z.shiftr c (- n) else Z.shiftl c n) 16
  = asert_scaled initial e (asert_k e).
Proof.
  intros Hi n c. unfold asert_scaled, asert_k. fold n c. destruct (Z.ltb_spec n 0).
  - rewrite Z.max_r by lia. replace (n + - n) with 0 by lia. rewrite Z.pow_0_r, Z.mul_1_r.
    rewrite Z.shiftr_shiftr by lia. rewrite Z.shiftr_div_pow2 by lia. f_equal. f_equal. lia.
  - rewrite Z.max_l by lia. rewrite !Z.add_0_r.
    rewrite Z.shiftl_mul_pow2, Z.shiftr_div_pow2 by lia. done.
Qed.

Lemma required_target_asert h pt gt p :
  2 <= h -> in_u64 h -> in_u64 pt -> in_u64 gt -> params_ok p ->
  exists t, required_target h pt gt p = Ok t /\
    Target_to_biguint t
    = asert_target (Target_to_biguint (initial_target p)) (Target_to_biguint (pow_limit p))
        (asert_exponent h pt gt).
Proof.
  intros Hh H64 Hp Hg [Hi Hl]. pose proof (asert_exponent_bound h pt gt Hh H64 Hp Hg) as He.
  pose proof (Target_range (pow_limit p)) as HL. unfold required_target.
  destruct (Z.eqb_spec h 0); [lia|]. destruct (Z.eqb_spec h 1); [lia|]. cbv zeta.
  replace (h - 2 + 1) with (h - 1) by lia.
  rewrite !i128_op_ok by (unfold TARGET_BLOCK_SECONDS, ASERT_RADIX; unfold_ints; lia).
  fold (asert_exponent h pt gt). set (e := asert_exponent h pt gt) in *.
  rewrite (Z.shiftr_div_pow2 e 16) by lia. change (2 ^ 16) with ASERT_RADIX.
  pose proof (Z.mod_pos_bound e ASERT_RADIX eq_refl) as Hm.
  pose proof (Z.div_mod e ASERT_RADIX ltac:(done)) as Hd.
  assert (e - e / ASERT_RADIX * ASERT_RADIX = e mod ASERT_RADIX) as Hf by lia.
  rewrite (i128_op_ok (e / ASERT_RADIX * ASERT_RADIX)) by (unfold ASERT_RADIX in *; unfold_ints; lia).
  rewrite Hf. rewrite (i128_op_ok (e mod ASERT_RADIX)) by (unfold ASERT_RADIX in *; unfold_ints; lia).
  destruct (Z.leb_spec 0 (e mod ASERT_RADIX)); [|lia].
  destruct (Z.ltb_spec (e mod ASERT_RADIX) ASERT_RADIX); [cbn [andb negb]|lia].
  destruct (asert_poly_in _ Hm) as (? & ? & ? & ? & ? & ? & ? & ?).
  change (Z.shiftl 1 47) with (2 ^ 47). rewrite !i128_op_ok by assumption.
  rewrite Z.shiftr_div_pow2 by lia. fold (asert_factor (e mod ASERT_RADIX)).
  pose proof (asert_factor_range _ Hm) as HF.
  assert (try_from U64_MAX (asert_factor (e mod ASERT_RADIX)) = Some (asert_factor (e mod ASERT_RADIX))) as ->.
  { apply try_from_Some. unfold ASERT_RADIX in *; unfold_ints; lia. }
  cbn [ok_or]. destruct (Z.leb_spec 256 (e / ASERT_RADIX)).
  { eexists; split; [done|]. symmetry. apply asert_target_high; lia. }
  destruct (Z.leb_spec (e / ASERT_RADIX) (-257)).
  { destruct (Target_from_biguint_ok 1) as (t & -> & Ht); [lia|]. exists t. split; [done|].
    rewrite Ht. symmetry. apply asert_target_low; lia. }
  rewrite (asert_shift_scaled _ e) by lia. unfold asert_target.
  set (c := asert_scaled _ e _).
  assert (0 <= c) by (unfold c, asert_scaled; apply Z.div_pos; [|apply Z.pow_pos_nonneg; unfold asert_k; lia];
    apply Z.mul_nonneg_nonneg; [unfold ASERT_RADIX in *; nia|apply Z.pow_nonneg; lia]).
  destruct (Z.eqb_spec c 0) as [->|].
  { destruct (Target_from_biguint_ok 1) as (t & -> & Ht); [lia|]. exists t. split; [done|lia]. }
  destruct (c >? Target_to_biguint (pow_limit p)) eqn:Ec.
  { eexists; split; [done|]. lia. }
  destruct (Target_from_biguint_ok c) as (t & -> & Ht); [lia|]. exists t. split; [done|lia].
Qed.

(** The canonical parameters of the examples. *)
Definition demo_target (v : Z) : Target := MkTarget (arr_le 32 v).
Definition demo_params : ConsensusParams :=
  MkConsensusParams (demo_target 10000000) (demo_target 1000000) (arr_fill 32 x42).

Lemma demo_params_ok : params_ok demo_params.
Proof. split; vm_compute; [done|]. intros H. discriminate H. Qed.

(** The schedule: on time, a half-life late or early, and half of one. *)
Example required_target_schedule :
  let at_ h t := required_target h (1800000000 + t) 1800000000 demo_params in
  at_ 2 300 = Ok (demo_target 1000000) /\ at_ 2 21900 = Ok (demo_target 2000000) /\
  at_ 2 (-21300) = Ok (demo_target 500000) /\ at_ 2 11100 = Ok (demo_target 1414093).
Proof. cbv zeta. split_and!; vm_compute; do 2 f_equal; by apply arr_eq. Qed.

(** C25: the difficulty rule.  Height 0 is refused, height 1 takes the initial
    target, and from height 2 on no input of the machine types makes the
    checked arithmetic fail: the result is the reference fixed-point formula
    [initial * 2^(drift / half-life)], cut to the range from one to the
    proof-of-work limit. *)
Theorem required_target_spec h pt gt p :
  in_u64 h -> in_u64 pt -> in_u64 gt -> params_ok p ->
  (h = 0 -> required_target h pt gt p = Err ConsensusError.InvalidHeight) /\
  (h = 1 -> required_target h pt gt p = Ok (initial_target p)) /\
  (2 <= h -> exists t, required_target h pt gt p = Ok t /\
     Target_to_biguint t
     = asert_target (Target_to_biguint (initial_target p)) (Target_to_biguint (pow_limit p))
         (asert_exponent h pt gt)).
Proof.
  intros Hh Hp Hg HP. split_and!; [by intros ->|by intros ->|]. intros. by apply required_target_asert.
Qed.

Lemma required_target_spec_witness :
  exists t, required_target 2 1800021900 1800000000 demo_params = Ok t /\
     Target_to_biguint t = asert_target (Target_to_biguint (initial_target demo_params))
       (Target_to_biguint (pow_limit demo_params)) (asert_exponent 2 1800021900 1800000000).
Proof.
  apply (required_target_spec 2 1800021900 1800000000 demo_params);
    [unfold_ints; lia..|apply demo_params_ok|lia].
Defined.

(** A later parent never makes the next block harder, and the required
    target stays between one and the proof-of-work limit. *)
Theorem required_target_monotone h pt1 pt2 gt p :
  1 <= h -> in_u64 h -> in_u64 pt1 -> in_u64 pt2 -> in_u64 gt -> params_ok p -> pt1 <= pt2 ->
  exists t1 t2, required_target h pt1 gt p = Ok t1 /\ required_target h pt2 gt p = Ok t2 /\
    1 <= Target_to_biguint t1 <= Target_to_biguint t2 /\
    Target_to_biguint t2 <= Target_to_biguint (pow_limit p).
Proof.
  intros Hh H64 H1 H2 Hg HP HL. destruct HP as [Hi Hl]. destruct (decide (h = 1)) as [->|].
  { do 2 eexists. split_and!; [done|done|lia..]. }
  destruct (required_target_asert h pt1 gt p) as (t1 & E1 & V1); [lia|done..|].
  destruct (required_target_asert h pt2 gt p) as (t2 & E2 & V2); [lia|done..|].
  exists t1, t2. rewrite V1, V2.
  pose proof (asert_target_range (Target_to_biguint (initial_target p)) (Target_to_biguint (pow_limit p))
    (asert_exponent h pt1 gt) ltac:(lia)).
  pose proof (asert_target_range (Target_to_biguint (initial_target p)) (Target_to_biguint (pow_limit p))
    (asert_exponent h pt2 gt) ltac:(lia)).
  assert (asert_exponent h pt1 gt <= asert_exponent h pt2 gt).
  { unfold asert_exponent. apply Z.quot_le_mono; [done|]. unfold ASERT_RADIX. lia. }
  pose proof (asert_target_mono (Target_to_biguint (initial_target p)) (Target_to_biguint (pow_limit p))
    (asert_exponent h pt1 gt) (asert_exponent h pt2 gt)).
  split_and!; [done|done|lia..].
Qed.

Lemma required_target_monotone_witness :
  exists t1 t2, required_target 2 1800000300 1800000000 demo_params = Ok t1 /\
    required_target 2 1800011100 1800000000 demo_params = Ok t2 /\
    1 <= Target_to_biguint t1 <= Target_to_biguint t2 /\
    Target_to_biguint t2 <= Target_to_biguint (pow_limit demo_params).
Proof.
  apply (required_target_monotone 2 1800000300 1800011100 1800000000 demo_params);
    try (unfold_ints; lia). apply demo_params_ok.
Defined.

Lemma cmp_be_bytes_spec a b :
  length a = length b -> cmp_be_bytes (rev a) (rev b) = (le_num a <=? le_num b).
Proof.
  revert b. induction a as [|x a IH] using rev_ind; intros b HL.
  { by destruct b. }
  destruct b as [|y b _] using rev_ind; [rewrite length_app in HL; simpl in HL; lia|].
  rewrite !length_app in HL. simpl in HL.
  rewrite !rev_app_distr, !le_num_app. simpl. rewrite IH by lia.
  assert (length a = length b) as Hab by lia. rewrite Hab.
  assert (forall z, le_num [z] = byte_to_Z z) as Hs.
  { intros z. Transparent le_num. cbn [le_num]. lia. }
  rewrite !Hs. pose proof (le_num_range a) as Ra. pose proof (le_num_range b) as Rb. rewrite Hab in Ra.
  set (P := 256 ^ Z.of_nat (length b)) in *.
  destruct (Z.compare_spec (byte_to_Z x) (byte_to_Z y)) as [E|E|E]; symmetry.
  - rewrite E. apply eq_true_iff_eq. rewrite !Z.leb_le. lia.
  - apply Z.leb_le. nia.
  - apply Z.leb_gt. nia.
Qed.
#[global] Opaque le_num.

Lemma hash_meets_target_num (hash : arr 32) (t : Target) :
  hash_meets_target hash (target_bytes t) = true <-> le_num (arr_bytes hash) <= Target_to_biguint t.
Proof.
  unfold hash_meets_target, Target_to_biguint, biguint_from_bytes_le.
  rewrite cmp_be_bytes_spec by (by rewrite !arr_length). apply Z.leb_le.
Qed.

(** ** Chain work *)

Lemma byte_len_le_num l b :
  b <> x00 -> byte_len (le_num (l ++ [b])) = S (length l).
Proof.
  intros Hb. rewrite le_num_app.
  assert (le_num [b] = byte_to_Z b) as ->.
  { Transparent le_num. cbn [le_num]. lia. }
  pose proof (le_num_range l) as R. pose proof (byte_to_Z_range b) as Rb.
  assert (byte_to_Z b <> 0) by (intros E; apply Hb, byte_to_Z_inj; done).
  apply Nat.le_antisymm.
  - apply byte_len_le. rewrite <- pow256 by lia. rewrite Nat2Z.inj_succ, Z.pow_succ_r by lia. nia.
  - apply byte_len_gt. rewrite <- pow256 by lia. nia.
Qed.
#[global] Opaque le_num.

Lemma le_bytes_last n z :
  0 <= z < 256 ^ Z.of_nat (S n) ->
  exists l b, le_bytes (S n) z = l ++ [b] /\ (b = x00 -> z < 256 ^ Z.of_nat n).
Proof.
  intros Hz. pose proof (length_le_bytes (S n) z) as HL. pose proof (le_num_le_bytes (S n) z Hz) as HN.
  destruct (exists_last (l := le_bytes (S n) z)) as (l' & b' & E).
  { intros E. by rewrite E in HL. }
  exists l', b'. split; [done|]. intros ->. rewrite E in HN, HL. rewrite le_num_app in HN.
  rewrite length_app in HL. simpl in HL.
  change [x00] with (replicate 1 x00) in HN. rewrite le_num_zeros in HN.
  pose proof (le_num_range l') as R. replace (length l') with n in R by lia. lia.
Qed.

Lemma chain_work_decode_encode w :
  0 <= work_value w ->
  ChainWork_from_canonical_be_bytes (ChainWork_to_canonical_be_bytes w) = Some w.
Proof.
  destruct w as [z]; simpl. intros Hz. pose proof (byte_len_bound z Hz) as HB.
  unfold ChainWork_to_canonical_be_bytes, biguint_to_bytes_be, biguint_to_bytes_le. simpl work_value.
  destruct (byte_len z) as [|k] eqn:Ek; [unfold byte_len in Ek; pose proof (Z.log2_nonneg z);
    pose proof (Z.div_pos (Z.log2 z) 8); lia|].
  destruct (le_bytes_last k z) as (l & b & E & Hb); [lia|].
  pose proof (length_le_bytes (S k) z) as HL. pose proof (le_num_le_bytes (S k) z ltac:(lia)) as HN.
  rewrite E in *. rewrite rev_app_distr. simpl. rewrite length_rev.
  rewrite length_app in HL. simpl in HL.
  case_match eqn:Hc.
  - apply andb_prop in Hc as [Hl ->%bool_decide_eq_true]. apply Nat.ltb_lt in Hl.
    specialize (Hb eq_refl). destruct (Z.eq_dec z 0) as [->|]; [by vm_compute in Ek; simplify_eq; lia|].
    assert (byte_len z <= k)%nat by (apply byte_len_le; rewrite <- pow256 by lia; lia). lia.
  - unfold biguint_from_bytes_be. simpl. by rewrite rev_involutive, HN.
Qed.

Lemma chain_work_encode_decode bytes w :
  ChainWork_from_canonical_be_bytes bytes = Some w ->
  ChainWork_to_canonical_be_bytes w = bytes /\ 0 <= work_value w.
Proof.
  unfold ChainWork_from_canonical_be_bytes. destruct bytes as [|b r]; [done|].
  case_match eqn:Hc; [done|]. intros [= <-].
  unfold ChainWork_to_canonical_be_bytes, biguint_to_bytes_be, biguint_to_bytes_le, biguint_from_bytes_be.
  simpl. split; [|apply le_num_range].
  destruct (decide (b = x00)) as [->|Hb].
  - destruct r; [|done]. by vm_compute.
  - rewrite byte_len_le_num by done. rewrite length_rev.
    rewrite (le_bytes_eq (S (length r)) (rev r ++ [b])); [|rewrite length_app, length_rev; simpl; lia|done].
    by rewrite rev_app_distr, rev_involutive.
Qed.

(** The canonical byte form of accumulated work.  Every non-negative work
    decodes from its own encoding, and every accepted byte string is the
    encoding of the work it decodes to, so stored work has one form. *)
Theorem chain_work_round_trip :
  (forall w, 0 <= work_value w ->
     ChainWork_from_canonical_be_bytes (ChainWork_to_canonical_be_bytes w) = Some w) /\
  (forall bytes w, ChainWork_from_canonical_be_bytes bytes = Some w ->
     ChainWork_to_canonical_be_bytes w = bytes /\ 0 <= work_value w).
Proof. split; [apply chain_work_decode_encode|apply chain_work_encode_decode]. Qed.

(** A lower target is worth at least as much work, and every block adds some. *)
Lemma block_work_antitone t1 t2 :
  Target_to_biguint t1 <= Target_to_biguint t2 -> work_value (block_work t2) <= work_value (block_work t1).
Proof.
  intros H. unfold block_work. pose proof (Target_range t1). simpl.
  change (Z.shiftl 1 256) with (2 ^ 256). apply Z.div_le_compat_l; lia.
Qed.

Lemma block_work_pos t : 1 <= work_value (block_work t).
Proof.
  unfold block_work. pose proof (Target_range t). simpl. change (Z.shiftl 1 256) with (2 ^ 256).
  apply Z.div_le_lower_bound; lia.
Qed.
