(* ===== verification/Emission.v ===== *)
(** [oregon-consensus/emission.rs]: the issuance schedule. *)
From S2P Require Import Prelude Encoding Difficulty.

Definition SCHEDULED_MINING_ISSUANCE_BASE_UNITS : Z := 94999997000000.
Definition SCHEDULED_TOTAL_WITH_FOUNDER_BASE_UNITS : Z :=
  SCHEDULED_MINING_ISSUANCE_BASE_UNITS + FOUNDER_ALLOCATION_BASE_UNITS.

Definition block_subsidy (height : Z) : result ConsensusError.t Amount :=
  if height =? 0 then
    map_err (fun _ => ConsensusError.ArithmeticOverflow) (Amount_from_base_units 0)
  else
    let era := (height - 1) / HALVING_INTERVAL in
    let subsidy := if 64 <=? era then 0 else Z.shiftr INITIAL_SUBSIDY_BASE_UNITS era in
    map_err (fun _ => ConsensusError.ArithmeticOverflow) (Amount_from_base_units subsidy).

(** The reward of the blocks of an era, without the cut-off at era 64. *)
Definition era_reward (era : Z) : Z := Z.shiftr INITIAL_SUBSIDY_BASE_UNITS era.

(** The subsidy of a height as a number, zero where the code would fail. *)
Definition subsidy_units (height : Z) : Z :=
  match block_subsidy height with Ok a => base_units a | Err _ => 0 end.

(** Everything the blocks of heights [1..n] may mint. *)
Fixpoint issued (n : nat) : Z :=
  match n with
  | O => 0
  | S n => issued n + subsidy_units (Z.of_nat (S n))
  end.

(** Issuance of the first [e] complete eras. *)
Fixpoint era_sum (e : nat) : Z :=
  match e with
  | O => 0
  | S e => era_sum e + HALVING_INTERVAL * era_reward (Z.of_nat e)
  end.

Lemma era_reward_range e : 0 <= e -> 0 <= era_reward e <= INITIAL_SUBSIDY_BASE_UNITS.
Proof.
  intros H. unfold era_reward. rewrite Z.shiftr_div_pow2 by done.
  assert (0 < 2 ^ e) by (by apply Z.pow_pos_nonneg).
  split; [by apply Z.div_pos|]. apply Z.div_le_upper_bound; [done|]. unfold INITIAL_SUBSIDY_BASE_UNITS. lia.
Qed.

Lemma era_reward_late e : 28 <= e -> era_reward e = 0.
Proof.
  intros H. unfold era_reward. rewrite Z.shiftr_div_pow2 by lia. apply Z.div_small.
  split; [done|]. eapply Z.lt_le_trans; [|apply (Z.pow_le_mono_r 2 28 e); lia]. done.
Qed.

Lemma block_subsidy_value h :
  1 <= h -> block_subsidy h = Ok (MkAmount (era_reward ((h - 1) / HALVING_INTERVAL))).
Proof.
  intros H. unfold block_subsidy. destruct (Z.eqb_spec h 0); [lia|]. cbv zeta.
  assert (0 <= (h - 1) / HALVING_INTERVAL) as He by (apply Z.div_pos; [lia|done]).
  set (era := (h - 1) / HALVING_INTERVAL) in *.
  assert ((if 64 <=? era then 0 else Z.shiftr INITIAL_SUBSIDY_BASE_UNITS era) = era_reward era) as ->.
  { destruct (Z.leb_spec 64 era); [|done]. by rewrite era_reward_late by lia. }
  pose proof (era_reward_range era He). unfold Amount_from_base_units.
  destruct (_ >? _) eqn:E; [|done].
  unfold INITIAL_SUBSIDY_BASE_UNITS, MAX_SUPPLY_BASE_UNITS, BASE_UNITS_PER_OREG in *. lia.
Qed.

Lemma block_subsidy_zero : block_subsidy 0 = Ok (MkAmount 0).
Proof. done. Qed.

Lemma subsidy_units_value h :
  1 <= h -> subsidy_units h = era_reward ((h - 1) / HALVING_INTERVAL).
Proof. intros. unfold subsidy_units. by rewrite block_subsidy_value. Qed.

Lemma subsidy_units_range h : 0 <= h -> 0 <= subsidy_units h <= INITIAL_SUBSIDY_BASE_UNITS.
Proof.
  intros H. destruct (decide (h = 0)) as [->|]; [by vm_compute|].
  rewrite subsidy_units_value by lia. apply era_reward_range, Z.div_pos; [lia|done].
Qed.

(** Issuance after [n] blocks: the complete eras and a part of the current one. *)
Lemma issued_closed n :
  issued n = era_sum (Z.to_nat (Z.of_nat n / HALVING_INTERVAL))
             + Z.of_nat n mod HALVING_INTERVAL * era_reward (Z.of_nat n / HALVING_INTERVAL).
Proof.
  assert (0 < HALVING_INTERVAL) as HI by done.
  induction n as [|n IH]; [done|].
  cbn [issued]. rewrite IH, subsidy_units_value by lia.
  replace (Z.of_nat (S n) - 1) with (Z.of_nat n) by lia.
  rewrite (Nat2Z.inj_succ n), <- Z.add_1_r. set (z := Z.of_nat n).
  assert (0 <= z) as Hz by lia. clearbody z. clear IH.
  pose proof (Z.div_mod z HALVING_INTERVAL ltac:(lia)) as HD.
  pose proof (Z.mod_pos_bound z HALVING_INTERVAL HI) as HM.
  assert (0 <= z / HALVING_INTERVAL) as Hq by (apply Z.div_pos; lia).
  set (q := z / HALVING_INTERVAL) in *. set (r := z mod HALVING_INTERVAL) in *.
  destruct (decide (r = HALVING_INTERVAL - 1)).
  - assert ((z + 1) / HALVING_INTERVAL = q + 1) as -> by (symmetry; apply (Z.div_unique _ _ _ 0); lia).
    assert ((z + 1) mod HALVING_INTERVAL = 0) as -> by (symmetry; apply (Z.mod_unique _ _ (q + 1)); lia).
    replace (Z.to_nat (q + 1)) with (S (Z.to_nat q)) by lia. cbn [era_sum]. rewrite Z2Nat.id by lia. nia.
  - assert ((z + 1) / HALVING_INTERVAL = q) as -> by (symmetry; apply (Z.div_unique _ _ _ (r + 1)); lia).
    assert ((z + 1) mod HALVING_INTERVAL = r + 1) as -> by (symmetry; apply (Z.mod_unique _ _ q); lia).
    lia.
Qed.

Lemma era_sum_late e : (28 <= e)%nat -> era_sum e = SCHEDULED_MINING_ISSUANCE_BASE_UNITS.
Proof.
  induction 1 as [|e He IH]; [by vm_compute|]. cbn [era_sum].
  rewrite IH, era_reward_late by lia. lia.
Qed.

Lemma era_sum_mono e1 e2 : (e1 <= e2)%nat -> era_sum e1 <= era_sum e2.
Proof.
  induction 1 as [|e He IH]; [done|]. cbn [era_sum]. pose proof (era_reward_range (Z.of_nat e)).
  unfold HALVING_INTERVAL. lia.
Qed.

Lemma issued_mono n m : (n <= m)%nat -> issued n <= issued m.
Proof.
  induction 1 as [|m He IH]; [done|]. cbn [issued].
  pose proof (subsidy_units_range (Z.of_nat (S m)) ltac:(lia)). lia.
Qed.

Lemma issued_nonneg n : 0 <= issued n.
Proof. apply (issued_mono 0 n). lia. Qed.

Lemma issued_bound n : issued n <= SCHEDULED_MINING_ISSUANCE_BASE_UNITS.
Proof.
  rewrite issued_closed. set (q := Z.of_nat n / HALVING_INTERVAL).
  assert (0 <= q) by (apply Z.div_pos; [lia|done]).
  pose proof (Z.mod_pos_bound (Z.of_nat n) HALVING_INTERVAL eq_refl).
  pose proof (era_reward_range q). transitivity (era_sum (S (Z.to_nat q))).
  - cbn [era_sum]. rewrite Z2Nat.id by lia. nia.
  - rewrite <- (era_sum_late (S (Z.to_nat q) + 28)) by lia. apply era_sum_mono. lia.
Qed.

(** The whole schedule.  Every height has a subsidy; the subsidies of any
    number of blocks sum to at most the published mining issuance, reached
    exactly after 28 eras; with the founder allocation they stay within the
    maximum supply. *)
Theorem emission_schedule n :
  (forall h, 0 <= h -> exists a, block_subsidy h = Ok a /\ amount_ok a) /\
  0 <= issued n <= SCHEDULED_MINING_ISSUANCE_BASE_UNITS /\
  (28 * HALVING_INTERVAL <= Z.of_nat n -> issued n = SCHEDULED_MINING_ISSUANCE_BASE_UNITS) /\
  issued n + FOUNDER_ALLOCATION_BASE_UNITS <= SCHEDULED_TOTAL_WITH_FOUNDER_BASE_UNITS
    <= MAX_SUPPLY_BASE_UNITS.
Proof.
  pose proof (issued_bound n). pose proof (issued_nonneg n).
  unfold SCHEDULED_TOTAL_WITH_FOUNDER_BASE_UNITS. split_and!; try lia.
  - intros h Hh. destruct (decide (h = 0)) as [->|].
    { exists (MkAmount 0). split; [apply block_subsidy_zero|by vm_compute]. }
    rewrite block_subsidy_value by lia. eexists; split; [done|]. unfold amount_ok. simpl.
    pose proof (era_reward_range ((h - 1) / HALVING_INTERVAL) ltac:(apply Z.div_pos; [lia|done])).
    unfold INITIAL_SUBSIDY_BASE_UNITS, MAX_SUPPLY_BASE_UNITS, BASE_UNITS_PER_OREG in *. lia.
  - intros Hn. rewrite issued_closed.
    assert (28 <= Z.of_nat n / HALVING_INTERVAL) by (apply Z.div_le_lower_bound; [done|lia]).
    rewrite era_sum_late, era_reward_late by lia. lia.
  - by vm_compute.
Qed.

Lemma emission_schedule_witness :
  issued 3 = 3 * INITIAL_SUBSIDY_BASE_UNITS /\
  issued 3 + FOUNDER_ALLOCATION_BASE_UNITS <= SCHEDULED_TOTAL_WITH_FOUNDER_BASE_UNITS.
Proof. split; [by vm_compute|]. apply (emission_schedule 3). Defined.
