(* ===== verification/HeaderRules.v ===== *)
(** Header validation: [oregon-consensus/time.rs], [header.rs], [pow.rs] and
    the RandomX key schedule and input of [oregon-pow/key.rs], [input.rs].

    The RandomX engine is native code behind the [PowEngine] trait: the class
    of that name, a key and a hash that may change the engine's state.  The
    source of validated block identifiers is the trait [PowKeyBlockSource]. *)
From S2P Require Import Prelude Encoding Transaction Block Difficulty.

(** ** Median time past *)

Definition median_time_past (window : list Z) : result ConsensusError.t Z :=
  if (length window =? 0)%nat || (11 <? length window)%nat then Err ConsensusError.InvalidMtpWindow
  else
    let sorted := merge_sort Z.le window in
    match sorted !! (length sorted / 2)%nat with
    | Some m => Ok m
    | None => Err ConsensusError.InvalidMtpWindow  (* indexing is in range: [mtp_total] *)
    end.

Definition count_if (p : Z -> bool) (l : list Z) : nat := length (List.filter p l).

Definition count_below (v : Z) (l : list Z) : nat := count_if (fun x => x <? v) l.
Definition count_above (v : Z) (l : list Z) : nat := count_if (fun x => v <? x) l.

(** ** The RandomX key schedule *)

Definition RANDOMX_KEY_EPOCH : Z := 864.
Definition RANDOMX_KEY_DELAY : Z := 24.
Definition RANDOMX_KEY_DOMAIN : list byte := domain_tag "OREGON/RANDOMX-KEY/V1".
Definition POW_INPUT_DOMAIN : list byte := domain_tag "OREGON/POW/V1".

Definition key_block_height (candidate_height : Z) : Z :=
  if candidate_height <? RANDOMX_KEY_EPOCH + RANDOMX_KEY_DELAY then 0
  else (candidate_height - RANDOMX_KEY_DELAY) / RANDOMX_KEY_EPOCH * RANDOMX_KEY_EPOCH.

Definition derive_randomx_key `{Blake3} (key_block_id : Hash256) : arr 32 :=
  blake3 (RANDOMX_KEY_DOMAIN ++ arr_bytes key_block_id).

Definition pow_input (h : BlockHeader) : list byte := POW_INPUT_DOMAIN ++ BlockHeader_encode h.

(** ** Interfaces of the proof-of-work check *)

Class PowEngine (E : Type) : Type := {
  pow_key : E -> arr 32;
  pow_hash : E -> list byte -> arr 32 * E;
}.

Class PowKeyBlockSource (S : Type) : Type :=
  validated_block_id_at_height : S -> Z -> option Hash256.

(** ** Header checks *)

Record HeaderContext : Type := MkHeaderContext {
  ctx_height : Z;
  ctx_parent : BlockHeader;
  ctx_genesis_timestamp : Z;
  ctx_mtp_window : list Z;
}.

Record PrePowHeaderFacts : Type := MkPrePowHeaderFacts {
  facts_height : Z;
  facts_header_id : Hash256;
  facts_target : Target;
  facts_work : ChainWork;
}.

Definition validate_header_pre_pow `{Blake3} (h : BlockHeader) (context : HeaderContext)
  (params : ConsensusParams) : result ConsensusError.t PrePowHeaderFacts :=
  if ctx_height context =? 0 then Err ConsensusError.InvalidHeight
  else if negb (bool_decide (previous_block h = block_id (ctx_parent context)))
  then Err ConsensusError.PreviousBlockMismatch
  else
    let? mtp := median_time_past (ctx_mtp_window context) in
    if timestamp h <=? mtp then Err ConsensusError.TimestampNotAfterMtp
    else
      let? expected := required_target (ctx_height context) (timestamp (ctx_parent context))
                         (ctx_genesis_timestamp context) params in
      let? actual := Target_from_le_bytes (difficulty_commitment h) in
      let? _ := Target_validate_against actual (pow_limit params) in
      if negb (bool_decide (actual = expected)) then Err ConsensusError.UnexpectedTarget
      else Ok (MkPrePowHeaderFacts (ctx_height context) (block_id h) actual (block_work actual)).

Definition validate_header_pow `{Blake3} {E S} `{PowEngine E} `{PowKeyBlockSource S}
  (h : BlockHeader) (facts : PrePowHeaderFacts) (key_blocks : S)
  : eff E ConsensusError.t (arr 32) := fun engine =>
  if negb (bool_decide (facts_header_id facts = block_id h))
  then (Err ConsensusError.PowPrevalidationMismatch, engine)
  else
    match validated_block_id_at_height key_blocks (key_block_height (facts_height facts)) with
    | None => (Err ConsensusError.PowKeyBlockUnavailable, engine)
    | Some key_block_id =>
        if negb (bool_decide (pow_key engine = derive_randomx_key key_block_id))
        then (Err ConsensusError.PowEngineKeyMismatch, engine)
        else
          let '(hash, engine) := pow_hash engine (pow_input h) in
          if negb (hash_meets_target hash (target_bytes (facts_target facts)))
          then (Err ConsensusError.InsufficientProofOfWork, engine)
          else (Ok hash, engine)
    end.

(** ** Median time past is the upper median *)

Lemma count_if_app p l1 l2 : count_if p (l1 ++ l2) = (count_if p l1 + count_if p l2)%nat.
Proof. unfold count_if. by rewrite List.filter_app, length_app. Qed.

Lemma count_if_perm p l1 l2 : l1 ≡ₚ l2 -> count_if p l1 = count_if p l2.
Proof.
  unfold count_if. induction 1; simpl; [done| | |congruence].
  - destruct (p x); simpl; auto.
  - destruct (p x), (p y); simpl; auto.
Qed.

Lemma count_if_le p l : (count_if p l <= length l)%nat.
Proof. unfold count_if. induction l as [|x l IH]; simpl; [done|]. destruct (p x); simpl; lia. Qed.

Lemma count_if_none p l : (forall x, x ∈ l -> p x = false) -> count_if p l = 0%nat.
Proof.
  unfold count_if. induction l as [|x l IH]; intros H; [done|]. simpl.
  rewrite (H x) by set_solver. apply IH. set_solver.
Qed.

Lemma count_if_all p l : (forall x, x ∈ l -> p x = true) -> count_if p l = length l.
Proof.
  unfold count_if. induction l as [|x l IH]; intros H; [done|]. simpl.
  rewrite (H x) by set_solver. simpl. f_equal. apply IH. set_solver.
Qed.

Lemma sorted_around l k m :
  Sorted Z.le l -> l !! k = Some m ->
  (forall x, x ∈ take k l -> x <= m) /\ (forall x, x ∈ drop (S k) l -> m <= x).
Proof.
  intros HS Hk. apply (Sorted_StronglySorted Z.le) in HS.
  rewrite <- (take_drop_middle l k m Hk) in HS.
  apply StronglySorted_app in HS as (HS1 & _ & HS2). apply StronglySorted_inv in HS2 as [_ HF].
  rewrite List.Forall_forall in HF. split; [|intros x Hx%list_elem_of_In; auto]. intros x Hx. apply HS1; [done|]. apply list_elem_of_here.
Qed.

(** Counts on both sides of the element at a position of a sorted list. *)
Lemma sorted_counts l k m v :
  Sorted Z.le l -> l !! k = Some m ->
  (v <= m -> (count_below v l <= k)%nat) /\
  (m < v -> (k < count_below v l)%nat) /\
  (m <= v -> (count_above v l < length l - k)%nat) /\
  (v < m -> (length l - k <= count_above v l)%nat).
Proof.
  intros HS Hk. destruct (sorted_around l k m HS Hk) as [Hlo Hhi].
  pose proof (lookup_lt_Some _ _ _ Hk) as Hlt.
  unfold count_below, count_above. rewrite <- (take_drop_middle l k m Hk) at 1 2 3 6.
  rewrite !count_if_app. change (m :: drop (S k) l) with ([m] ++ drop (S k) l). rewrite !count_if_app.
  assert (length (take k l) = k) as HT by (rewrite length_take; lia).
  assert (length (drop (S k) l) = length l - S k)%nat as HD by (by rewrite length_drop).
  split_and!; intros Hv.
  - rewrite (count_if_none _ [m]), (count_if_none _ (drop _ _)); cycle 1.
    { intros x Hx%Hhi. apply Z.ltb_ge. lia. }
    { intros x ->%list_elem_of_singleton. apply Z.ltb_ge. lia. }
    pose proof (count_if_le (fun x => x <? v) (take k l)). lia.
  - rewrite (count_if_all _ (take k l)) by (intros x Hx%Hlo; apply Z.ltb_lt; lia).
    rewrite (count_if_all _ [m]) by (intros x ->%list_elem_of_singleton; apply Z.ltb_lt; lia). simpl. lia.
  - rewrite (count_if_none _ (take k l)) by (intros x Hx%Hlo; apply Z.ltb_ge; lia).
    rewrite (count_if_none _ [m]) by (intros x ->%list_elem_of_singleton; apply Z.ltb_ge; lia).
    pose proof (count_if_le (fun x => v <? x) (drop (S k) l)). lia.
  - rewrite (count_if_all _ (drop _ _)) by (intros x Hx%Hhi; apply Z.ltb_lt; lia).
    rewrite (count_if_all _ [m]) by (intros x ->%list_elem_of_singleton; apply Z.ltb_lt; lia). simpl. lia.
Qed.

Lemma merge_sort_length l : length (merge_sort Z.le l) = length l.
Proof. apply Permutation_length, merge_sort_Permutation. Qed.

Lemma mtp_total w :
  (1 <= length w <= 11)%nat ->
  exists m, median_time_past w = Ok m /\ merge_sort Z.le w !! (length w / 2)%nat = Some m.
Proof.
  intros HL. unfold median_time_past. destruct (Nat.eqb_spec (length w) 0); [lia|].
  destruct (Nat.ltb_spec 11 (length w)); [lia|]. cbv zeta. cbn [orb]. rewrite merge_sort_length.
  destruct (lookup_lt_is_Some_2 (merge_sort Z.le w) (length w / 2)) as [m Hm].
  { rewrite merge_sort_length. apply Nat.div_lt; lia. }
  exists m. by rewrite Hm.
Qed.

(** Median time past.  It is defined exactly on windows of one to eleven
    timestamps, where it is the member with at most [n/2] timestamps below it
    and fewer than [n - n/2] above it: the upper median, whatever the order of
    the window. *)
Theorem median_time_past_spec w m :
  median_time_past w = Ok m <->
  (1 <= length w <= 11)%nat /\ m ∈ w /\
  (count_below m w <= length w / 2)%nat /\
  (count_above m w < length w - length w / 2)%nat.
Proof.
  assert (Sorted Z.le (merge_sort Z.le w)) as HS by (apply Sorted_merge_sort, _).
  pose proof (merge_sort_Permutation Z.le w) as HP. split.
  - intros H. destruct (decide (1 <= length w <= 11)%nat) as [HL|HL].
    + destruct (mtp_total w HL) as (m' & E & Hk). assert (m' = m) as -> by congruence.
      destruct (sorted_counts _ _ _ m HS Hk) as (C1 & _ & C2 & _).
      unfold count_below, count_above in *; rewrite !(count_if_perm _ _ _ HP), merge_sort_length in *.
      split_and!; [lia|lia| |auto with lia..]. rewrite <- HP. by eapply list_elem_of_lookup_2.
    + unfold median_time_past in H. destruct (Nat.eqb_spec (length w) 0); [done|].
      destruct (Nat.ltb_spec 11 (length w)); [done|lia].
  - intros (HL & Hm & H1 & H2). destruct (mtp_total w HL) as (m' & E & Hk). rewrite E.
    destruct (sorted_counts _ _ _ m HS Hk) as (_ & C1 & _ & C2).
    unfold count_below, count_above in *; rewrite !(count_if_perm _ _ _ HP), merge_sort_length in *.
    destruct (Z.lt_total m m') as [Hlt|[->|Hlt]]; [|done|].
    + specialize (C2 Hlt). lia.
    + specialize (C1 Hlt). lia.
Qed.

(** The RandomX key schedule.  The key block of a candidate is a
    multiple of the epoch, is zero for the first candidates, and otherwise is
    at least the delay and less than the delay plus one epoch below the
    candidate, so it is always an ancestor of the candidate. *)
Theorem key_block_height_spec h :
  0 <= h ->
  let k := key_block_height h in
  0 <= k /\ k mod RANDOMX_KEY_EPOCH = 0 /\ (1 <= h -> k < h) /\
  (h < RANDOMX_KEY_EPOCH + RANDOMX_KEY_DELAY -> k = 0) /\
  (RANDOMX_KEY_EPOCH + RANDOMX_KEY_DELAY <= h ->
     h - RANDOMX_KEY_DELAY - RANDOMX_KEY_EPOCH < k <= h - RANDOMX_KEY_DELAY).
Proof.
  intros Hh k. unfold k, key_block_height, RANDOMX_KEY_EPOCH, RANDOMX_KEY_DELAY.
  destruct (Z.ltb_spec h (864 + 24)); [change (0 mod 864) with 0; split_and!; lia|].
  pose proof (Z.div_mod (h - 24) 864 ltac:(lia)). pose proof (Z.mod_pos_bound (h - 24) 864 ltac:(lia)).
  rewrite Z.mod_mul by lia. split_and!; lia.
Qed.

Lemma key_block_height_spec_witness :
  key_block_height 1752 = 1728 /\ key_block_height 1752 < 1752.
Proof. split; [reflexivity|]. destruct (key_block_height_spec 1752 ltac:(lia)) as (_ & _ & H & _). apply H. lia. Defined.

(** What an accepted header satisfies before its proof of work is hashed. *)
Lemma pre_pow_inv `{Blake3} h ctx p facts :
  validate_header_pre_pow h ctx p = Ok facts ->
  ctx_height ctx <> 0 /\ previous_block h = block_id (ctx_parent ctx) /\
  (exists mtp, median_time_past (ctx_mtp_window ctx) = Ok mtp /\ mtp < timestamp h) /\
  required_target (ctx_height ctx) (timestamp (ctx_parent ctx)) (ctx_genesis_timestamp ctx) p
    = Ok (facts_target facts) /\
  target_bytes (facts_target facts) = difficulty_commitment h /\
  facts_height facts = ctx_height ctx /\ facts_header_id facts = block_id h /\
  facts_work facts = block_work (facts_target facts).
Proof.
  unfold validate_header_pre_pow. destruct (Z.eqb_spec (ctx_height ctx) 0); [done|].
  case_bool_decide; [simpl|done]. destruct (median_time_past _) as [mtp|]; [|done].
  destruct (Z.leb_spec (timestamp h) mtp); [done|].
  destruct (required_target _ _ _ _) as [t|] eqn:Et; [|done].
  destruct (Target_from_le_bytes _) as [a|] eqn:Ea; [|done].
  destruct (Target_validate_against _ _); [|done]. case_bool_decide; [simpl|done].
  intros [= <-]; subst a. simpl. apply Target_from_le_bytes_spec in Ea as [Eb _]. naive_solver.
Qed.

(** The target that is due: the initial one at the first height, then ASERT. *)
Definition due_target (p : ConsensusParams) (ctx : HeaderContext) : Z :=
  if ctx_height ctx =? 1 then Target_to_biguint (initial_target p)
  else asert_target (Target_to_biguint (initial_target p)) (Target_to_biguint (pow_limit p))
         (asert_exponent (ctx_height ctx) (timestamp (ctx_parent ctx)) (ctx_genesis_timestamp ctx)).

Lemma required_target_due ctx p t :
  params_ok p -> in_u64 (ctx_height ctx) -> in_u64 (timestamp (ctx_parent ctx)) -> in_u64 (ctx_genesis_timestamp ctx) ->
  required_target (ctx_height ctx) (timestamp (ctx_parent ctx)) (ctx_genesis_timestamp ctx) p = Ok t ->
  Target_to_biguint t = due_target p ctx.
Proof.
  intros HP H64 Hp Hg HT. unfold due_target. destruct (Z.eqb_spec (ctx_height ctx) 1) as [E|E].
  - rewrite E in HT. cbn in HT. by injection HT as <-.
  - destruct (Z.eqb_spec (ctx_height ctx) 0) as [E0|E0]; [rewrite E0 in HT; discriminate HT|].
    destruct (required_target_asert (ctx_height ctx) (timestamp (ctx_parent ctx)) (ctx_genesis_timestamp ctx) p) as (t' & Et & Vt);
      [unfold in_u64 in *; lia|done..|]. congruence.
Qed.

Section Pow.
Context `{Blake3} {E S : Type} `{!PowEngine E} `{!PowKeyBlockSource S}.

(** C39: an accepted header.  A header that passes both checks extends the
    given parent, is later than the median of the window, and its RandomX
    hash, computed by an engine keyed by the validated block at the scheduled
    height, is numerically at most the target that is due: the initial target at
    height 1, the ASERT target at every later height. *)
Theorem accepted_header_has_work h ctx p (ks : S) (engine engine' : E) facts hash :
  params_ok p -> in_u64 (ctx_height ctx) -> in_u64 (timestamp (ctx_parent ctx)) -> in_u64 (ctx_genesis_timestamp ctx) ->
  validate_header_pre_pow h ctx p = Ok facts ->
  validate_header_pow h facts ks engine = (Ok hash, engine') ->
  previous_block h = block_id (ctx_parent ctx) /\
  (exists mtp, median_time_past (ctx_mtp_window ctx) = Ok mtp /\ mtp < timestamp h) /\
  (exists id, validated_block_id_at_height ks (key_block_height (ctx_height ctx)) = Some id /\
              pow_key engine = derive_randomx_key id) /\
  pow_hash engine (pow_input h) = (hash, engine') /\
  le_num (arr_bytes hash) <= due_target p ctx.
Proof.
  intros HP H64 Hp Hg HV HW.
  apply pre_pow_inv in HV as (_ & Hprev & Hmtp & Ht & Hc & Hfh & Hid & _).
  pose proof (required_target_due ctx p _ HP H64 Hp Hg Ht) as Vt.
  unfold validate_header_pow in HW. case_bool_decide; [simpl in HW|done]. rewrite Hfh in HW.
  destruct (validated_block_id_at_height _ _) as [id|] eqn:Ek; [|done].
  case_bool_decide; [simpl in HW|done].
  destruct (pow_hash engine (pow_input h)) as [hash' e2]. destruct (hash_meets_target _ _) eqn:Em; [|done].
  injection HW as <- <-. rewrite <- Vt.
  rewrite hash_meets_target_num in Em. split_and!; eauto.
Qed.

End Pow.

(** A concrete chain of two headers, an engine and a key source. *)
Definition demo_engine : PowEngine (arr 32) := {|
  pow_key := fun k => k;
  pow_hash := fun k _ => (arr_le 32 5, k);
|}.
Definition demo_key_source : PowKeyBlockSource Hash256 := fun id _ => Some id.

Definition demo_parent : BlockHeader :=
  MkBlockHeader 1 (arr_fill 32 x11) (arr_fill 32 x22) 1800000300 (arr_le 32 1000000) 7.
Definition demo_context : HeaderContext := MkHeaderContext 2 demo_parent 1800000000 [1800000299].
Definition demo_header : BlockHeader :=
  MkBlockHeader 1 (block_id (H := demo_blake3) demo_parent) (arr_fill 32 x33) 1800000301
    (arr_le 32 1000000) 8.
Definition demo_facts : PrePowHeaderFacts :=
  MkPrePowHeaderFacts 2 (block_id (H := demo_blake3) demo_header) (demo_target 1000000)
    (block_work (demo_target 1000000)).
Definition demo_key : arr 32 := derive_randomx_key (H := demo_blake3) (arr_fill 32 x44).

Lemma accepted_header_has_work_witness :
  pow_hash (PowEngine := demo_engine) demo_key (pow_input demo_header) = (arr_le 32 5, demo_key) /\
  le_num (arr_bytes (arr_le 32 5))
    <= asert_target (Target_to_biguint (initial_target demo_params))
         (Target_to_biguint (pow_limit demo_params)) (asert_exponent 2 1800000300 1800000000).
Proof.
  destruct (@accepted_header_has_work demo_blake3 (arr 32) Hash256 demo_engine demo_key_source
    demo_header demo_context demo_params (arr_fill 32 x44) demo_key demo_key demo_facts (arr_le 32 5))
    as (_ & _ & _ & H1 & H2).
  - apply demo_params_ok.
  - unfold_ints; simpl; lia.
  - unfold_ints; simpl; lia.
  - unfold_ints; simpl; lia.
  - vm_compute. reflexivity.
  - vm_compute. reflexivity.
  - split; assumption.
Defined.
