(* ===== verification/BlockRules.v ===== *)
(** Structural block rules: [oregon-consensus/coinbase.rs] and [block.rs], with
    the reserve identifiers of [oregon-primitives/execution_reserve.rs]. *)
From S2P Require Import Prelude Encoding Transaction Block Difficulty Emission.

Definition EXECUTION_RESERVE_LOCKING_PROGRAM_V1 : list byte := domain_tag "OREGON/EXEC/RESERVE/V1".

Definition reserve_transition_id `{Blake3} (canonical_transition_bytes : list byte) : Hash256 :=
  domain_hash (domain_tag "OREGON/RESERVE/TRANSITION/V1") canonical_transition_bytes.

Definition reserve_outpoint_txid `{Blake3} (transition_id : Hash256) : Hash256 :=
  domain_hash (domain_tag "OREGON/RESERVE/OUTPOINT/V1") (arr_bytes transition_id).

Definition NULL_TXID : Hash256 := arr_fill 32 x00.

Definition is_null_outpoint (i : TxInput) : bool :=
  bool_decide (previous_txid i = NULL_TXID) && (previous_output_index i =? U32_MAX).

Definition is_coinbase_form (tx : Transaction) : bool :=
  match inputs tx with
  | [i] => is_null_outpoint i
  | _ => false
  end.

(** [try_fold(0u64, |sum, output| sum.checked_add(output.value.base_units()))] *)
Definition sum_outputs {E} (overflow : E) (outs : list TxOutput) : result E Z :=
  try_fold (fun sum o => ok_or (checked_add U64_MAX sum (base_units (value o))) overflow) outs 0.

Definition validate_coinbase (tx : Transaction) (height : Z) (total_fees : Amount)
  (params : ConsensusParams) : result ConsensusError.t unit :=
  if (height =? 0) || negb (version tx =? 1) || negb (lock_time tx =? 0) || negb (is_coinbase_form tx)
  then Err ConsensusError.InvalidCoinbase
  else
    match inputs tx with
    | [] => Err ConsensusError.InvalidCoinbase
    | input :: _ =>
        match witness input with
        | [] => Err ConsensusError.InvalidCoinbase
        | committed_height :: _ =>
            if negb (sequence input =? U32_MAX) then Err ConsensusError.InvalidCoinbase
            else if negb (bool_decide (committed_height = write_varint height))
            then Err ConsensusError.InvalidCoinbase
            else
              let? miner_start :=
                if height =? 1 then
                  let? founder := ok_or (head (outputs tx)) ConsensusError.InvalidFounderOutput in
                  let expected_program := KEY_COMMIT_V1 :: arr_bytes (founder_key_commitment params) in
                  if negb (base_units (value founder) =? FOUNDER_ALLOCATION_BASE_UNITS)
                     || negb (bool_decide (locking_program founder = expected_program))
                  then Err ConsensusError.InvalidFounderOutput
                  else Ok 1%nat
                else Ok 0%nat in
              let? miner_claim := sum_outputs ConsensusError.ArithmeticOverflow (drop miner_start (outputs tx)) in
              let? subsidy := block_subsidy height in
              let? ceiling := ok_or (checked_add U64_MAX (base_units subsidy) (base_units total_fees))
                                ConsensusError.ArithmeticOverflow in
              if miner_claim >? ceiling then Err ConsensusError.CoinbaseOverClaim
              else Ok tt
        end
    end.

Definition validate_coinbase_with_execution_fees_v1 (tx : Transaction) (height : Z)
  (native_fees execution_fees : Amount) (params : ConsensusParams) : result ConsensusError.t unit :=
  let? total_fee_units := ok_or (checked_add U64_MAX (base_units native_fees) (base_units execution_fees))
                            ConsensusError.ArithmeticOverflow in
  let? total_fees := map_err (fun _ => ConsensusError.ArithmeticOverflow)
                       (Amount_from_base_units total_fee_units) in
  let? _ := validate_coinbase tx height total_fees params in
  let miner_start := if height =? 1 then 1%nat else 0%nat in
  if (length (outputs tx) <? miner_start)%nat then Err ConsensusError.InvalidCoinbase
  else
    let miner_outputs := drop miner_start (outputs tx) in
    let? miner_claim := sum_outputs ConsensusError.ArithmeticOverflow miner_outputs in
    if miner_claim <? total_fee_units then Err ConsensusError.InvalidCoinbase
    else if negb (base_units execution_fees =? 0) then
      let? final_output := ok_or (last miner_outputs) ConsensusError.InvalidCoinbase in
      if negb (base_units (value final_output) =? base_units execution_fees)
         || bool_decide (locking_program final_output = EXECUTION_RESERVE_LOCKING_PROGRAM_V1)
      then Err ConsensusError.InvalidCoinbase
      else Ok tt
    else Ok tt.

Definition validate_normal_transaction_skeleton (tx : Transaction)
  : result NormalTransactionError.t unit :=
  if Z.of_nat (length (Transaction_encode tx)) >? MAX_TRANSACTION_BYTES
  then Err NormalTransactionError.TooLarge
  else match inputs tx with
  | [] => Err NormalTransactionError.EmptyInputs
  | _ =>
      match outputs tx with
      | [] => Err NormalTransactionError.EmptyOutputs
      | _ =>
          if is_coinbase_form tx then Err NormalTransactionError.CoinbaseForm
          else if existsb is_null_outpoint (inputs tx) then Err NormalTransactionError.NullOutpoint
          else Ok tt
      end
  end.

(** The two loops over [transactions.iter().enumerate()], from [index] on. *)
Fixpoint check_sizes (index : nat) (txs : list Transaction) : result ConsensusError.t unit :=
  match txs with
  | [] => Ok tt
  | tx :: txs =>
      if (index =? 0)%nat then
        if Z.of_nat (length (Transaction_encode tx)) >? MAX_TRANSACTION_BYTES
        then Err (ConsensusError.TransactionTooLarge index)
        else check_sizes (S index) txs
      else
        match validate_normal_transaction_skeleton tx with
        | Err NormalTransactionError.TooLarge => Err (ConsensusError.TransactionTooLarge index)
        | _ => check_sizes (S index) txs
        end
  end.

Fixpoint check_skeletons (index : nat) (txs : list Transaction) : result ConsensusError.t unit :=
  match txs with
  | [] => Ok tt
  | tx :: txs =>
      match validate_normal_transaction_skeleton tx with
      | Ok tt => check_skeletons (S index) txs
      | Err NormalTransactionError.TooLarge => Err (ConsensusError.TransactionTooLarge index)
      | Err NormalTransactionError.EmptyInputs => Err (ConsensusError.EmptyNormalTransactionInputs index)
      | Err NormalTransactionError.EmptyOutputs => Err (ConsensusError.EmptyNormalTransactionOutputs index)
      | Err NormalTransactionError.CoinbaseForm => Err ConsensusError.MultipleCoinbase
      | Err NormalTransactionError.NullOutpoint => Err ConsensusError.NullOutpointInNormalTransaction
      end
  end.

Definition validate_non_genesis_block_skeleton `{Blake3} (block : Block) (height : Z)
  : result ConsensusError.t unit :=
  if height =? 0 then Err ConsensusError.InvalidHeight
  else if Z.of_nat (length (Block_encode block)) >? MAX_BLOCK_BYTES then Err ConsensusError.BlockTooLarge
  else match transactions block with
  | [] => Err ConsensusError.EmptyNonGenesisBlock
  | coinbase :: normal =>
      let? _ := check_sizes 0 (transactions block) in
      let? root := map_err (fun _ => ConsensusError.MerkleRootMismatch)
                     (transaction_root (transactions block)) in
      if negb (bool_decide (root = transaction_root_field (header block)))
      then Err ConsensusError.MerkleRootMismatch
      else if negb (is_coinbase_form coinbase) then Err ConsensusError.InvalidCoinbase
      else check_skeletons 1 normal
  end.

Definition validate_non_genesis_block_structure `{Blake3} (block : Block) (height : Z)
  (total_fees : Amount) (params : ConsensusParams) : result ConsensusError.t unit :=
  let? _ := validate_non_genesis_block_skeleton block height in
  match transactions block with
  | [] => Err ConsensusError.EmptyNonGenesisBlock  (* excluded by the skeleton *)
  | coinbase :: _ => validate_coinbase coinbase height total_fees params
  end.

(** ** Facts *)

(** The value a list of outputs carries. *)
Definition outputs_value (outs : list TxOutput) : Z :=
  foldr (fun o acc => base_units (value o) + acc) 0 outs.

Definition outputs_ok (outs : list TxOutput) : Prop := Forall (fun o => 0 <= base_units (value o)) outs.

Lemma outputs_value_cons o outs : outputs_value (o :: outs) = base_units (value o) + outputs_value outs.
Proof. done. Qed.

Lemma outputs_value_nonneg outs : outputs_ok outs -> 0 <= outputs_value outs.
Proof. induction 1; simpl; lia. Qed.

Lemma sum_outputs_Ok {E} (e : E) outs s : sum_outputs e outs = Ok s -> s = outputs_value outs.
Proof.
  unfold sum_outputs. enough (forall acc,
    try_fold (fun sum o => ok_or (checked_add U64_MAX sum (base_units (value o))) e) outs acc = Ok s ->
    s = acc + outputs_value outs) as H by (intros ->%H; lia).
  induction outs as [|o outs IH]; intros acc; [intros [= ->]; simpl; lia|]. cbn [try_fold].
  destruct (checked_add _ _ _) eqn:Ea; [|done]. apply checked_add_Some in Ea as [-> _].
  intros ->%IH. rewrite outputs_value_cons. lia.
Qed.

Lemma outputs_value_drop n outs :
  outputs_value outs = outputs_value (take n outs) + outputs_value (drop n outs).
Proof. revert n. induction outs as [|o outs IH]; intros [|n]; simpl; try lia. rewrite (IH n). lia. Qed.


Lemma write_varint_inj a b : in_u64 a -> in_u64 b -> write_varint a = write_varint b -> a = b.
Proof.
  intros Ha Hb E.
  assert (Z.of_nat (length (write_varint a)) <= USIZE_MAX).
  { unfold write_varint. repeat case_match; simpl; rewrite ?length_le_bytes; unfold_ints; lia. }
  assert (decode_complete read_varint (write_varint a) = Ok a) as D1
    by (by apply (decode_complete_spec write_varint read_varint in_u64)).
  assert (decode_complete read_varint (write_varint a) = Ok b) as D2
    by (apply (decode_complete_spec write_varint read_varint in_u64); done).
  congruence.
Qed.

(** What height one mints besides the subsidy. *)
Definition founder_part (height : Z) : Z := if height =? 1 then FOUNDER_ALLOCATION_BASE_UNITS else 0.

Definition founder_output (params : ConsensusParams) : TxOutput :=
  MkTxOutput (MkAmount FOUNDER_ALLOCATION_BASE_UNITS)
    (KEY_COMMIT_V1 :: arr_bytes (founder_key_commitment params)).

Lemma validate_coinbase_inv tx h fees p :
  0 <= h -> validate_coinbase tx h fees p = Ok tt ->
  h <> 0 /\ is_coinbase_form tx = true /\
  (exists i w, inputs tx = [i] /\ witness i = write_varint h :: w /\ sequence i = U32_MAX) /\
  (h = 1 -> head (outputs tx) = Some (founder_output p)) /\
  outputs_value (outputs tx) <= subsidy_units h + base_units fees + founder_part h.
Proof.
  intros Hh. unfold validate_coinbase.
  destruct (Z.eqb_spec h 0) as [|Hh0]; [done|]. destruct (version tx =? 1); [|done].
  destruct (lock_time tx =? 0); [|done]. destruct (is_coinbase_form tx) eqn:Ec; [cbn [orb negb]|done].
  destruct (inputs tx) as [|i rest] eqn:Ei; [done|].
  assert (rest = []) as -> by (unfold is_coinbase_form in Ec; rewrite Ei in Ec; by destruct rest).
  destruct (witness i) as [|w0 w] eqn:Ew; [done|].
  destruct (Z.eqb_spec (sequence i) U32_MAX); [cbn [negb]|done].
  case_bool_decide; [subst; cbn [negb]|done]. unfold subsidy_units.
  assert (forall n,
    (let? miner_claim := sum_outputs ConsensusError.ArithmeticOverflow (drop n (outputs tx)) in
     let? subsidy := block_subsidy h in
     let? ceiling := ok_or (checked_add U64_MAX (base_units subsidy) (base_units fees))
                       ConsensusError.ArithmeticOverflow in
     if miner_claim >? ceiling then Err ConsensusError.CoinbaseOverClaim else Ok tt) = Ok tt ->
    outputs_value (drop n (outputs tx))
      <= match block_subsidy h with Ok a => base_units a | Err _ => 0 end + base_units fees) as Hclaim.
  { intros n. destruct (sum_outputs _ _) as [s|] eqn:Es; [|done].
    apply sum_outputs_Ok in Es as ->.
    destruct (block_subsidy h); [|done]. destruct (checked_add _ _ _) eqn:Ea; [|done]. simpl.
    apply checked_add_Some in Ea as [-> _]. destruct (_ >? _) eqn:El; [done|]. lia. }
  unfold founder_part. destruct (Z.eqb_spec h 1) as [->|].
  - destruct (outputs tx) as [|o outs] eqn:Eo; [done|]. cbn [head ok_or].
    destruct (Z.eqb_spec (base_units (value o)) FOUNDER_ALLOCATION_BASE_UNITS); [|done].
    case_bool_decide; [|done]. cbn [negb orb]. intros Hq%Hclaim.
    split_and!; [done|done|eauto| |].
    + intros _. simpl. destruct o as [[]]; simpl in *; by subst.
    + cbn [drop] in Hq. rewrite drop_0 in Hq. rewrite outputs_value_cons. lia.
  - intros Hq%Hclaim. split_and!; [done|done|eauto|done|]. rewrite drop_0 in Hq. lia.
Qed.

(** What a coinbase may create.  An accepted coinbase never mints more
    than the subsidy of its height plus the collected fees, plus at height one
    exactly the founder output in first position. *)
Theorem coinbase_claim_bounded tx h fees p :
  0 <= h -> validate_coinbase tx h fees p = Ok tt ->
  outputs_value (outputs tx) <= subsidy_units h + base_units fees + founder_part h /\
  (h = 1 -> head (outputs tx) = Some (founder_output p)).
Proof. intros H1 H3. by apply validate_coinbase_inv in H3 as (_ & _ & _ & ? & ?). Qed.

(** A coinbase commits to its height.  No transaction is an accepted
    coinbase at two heights, so coinbases of different heights differ. *)
Theorem coinbase_height_unique tx h1 h2 fees1 fees2 p1 p2 :
  in_u64 h1 -> in_u64 h2 ->
  validate_coinbase tx h1 fees1 p1 = Ok tt -> validate_coinbase tx h2 fees2 p2 = Ok tt -> h1 = h2.
Proof.
  intros I1 I2 H1 H2.
  apply validate_coinbase_inv in H1 as (_ & _ & (i & w & Ei & Ew & _) & _); [|unfold_ints; lia].
  apply validate_coinbase_inv in H2 as (_ & _ & (j & v & Ej & Ev & _) & _); [|unfold_ints; lia].
  rewrite Ei in Ej. injection Ej as <-. rewrite Ew in Ev. injection Ev as Ev _. by apply write_varint_inj.
Qed.

(** The execution-fee coinbase also pays the miner every fee collected. *)
Lemma validate_coinbase_v1_inv tx h native exec p :
  0 <= h ->
  validate_coinbase_with_execution_fees_v1 tx h native exec p = Ok tt ->
  exists fees, base_units fees = base_units native + base_units exec /\
    validate_coinbase tx h fees p = Ok tt /\
    base_units fees <= outputs_value (drop (if h =? 1 then 1 else 0) (outputs tx)) /\
    (base_units exec <> 0 ->
     exists o, last (outputs tx) = Some o /\ base_units (value o) = base_units exec /\
       locking_program o <> EXECUTION_RESERVE_LOCKING_PROGRAM_V1).
Proof.
  intros Hh. unfold validate_coinbase_with_execution_fees_v1.
  destruct (checked_add _ _ _) as [t|] eqn:Ea; [|done]. apply checked_add_Some in Ea as [-> _].
  cbn [ok_or]. unfold Amount_from_base_units. destruct (_ >? MAX_SUPPLY_BASE_UNITS); [done|]. cbn [map_err].
  destruct (validate_coinbase _ _ _ _) as [[]|] eqn:Ev; [|done].
  destruct (_ <? _)%nat; [done|]. cbv zeta.
  destruct (sum_outputs _ _) as [s|] eqn:Es; [|done].
  apply sum_outputs_Ok in Es as ->.
  destruct (Z.ltb_spec (outputs_value (drop (if h =? 1 then 1 else 0) (outputs tx)))
    (base_units native + base_units exec)); [done|]. intros HL.
  exists (MkAmount (base_units native + base_units exec)). split_and!; [done|done|done|].
  intros Hne. destruct (Z.eqb_spec (base_units exec) 0); [done|]. cbn [negb] in HL.
  destruct (last _) as [o|] eqn:El; [|done]. cbn [ok_or] in HL. exists o.
  destruct (Z.eqb_spec (base_units (value o)) (base_units exec)); [|done].
  case_bool_decide; [done|]. split_and!; [|done|done].
  destruct (h =? 1); [|by rewrite drop_0 in El]. destruct (outputs tx) as [|x [|y l]]; [done..|].
  cbn [drop] in El. simpl in El. by rewrite last_cons_cons.
Qed.

Lemma check_sizes_Ok i txs :
  check_sizes (S i) txs = Ok tt <->
  Forall (fun tx => Z.of_nat (length (Transaction_encode tx)) <= MAX_TRANSACTION_BYTES) txs.
Proof.
  revert i. induction txs as [|tx txs IH]; intros i; simpl; [by split|].
  rewrite Forall_cons, <- (IH (S i)). unfold validate_normal_transaction_skeleton.
  destruct (_ >? _) eqn:E; [naive_solver lia|]. split.
  - intros H. split; [lia|]. by repeat case_match.
  - intros [_ H]. by repeat case_match.
Qed.

Lemma check_skeletons_Ok i txs :
  check_skeletons i txs = Ok tt <->
  Forall (fun tx => validate_normal_transaction_skeleton tx = Ok tt) txs.
Proof.
  revert i. induction txs as [|tx txs IH]; intros i; simpl; [by split|].
  rewrite Forall_cons, <- (IH (S i)).
  destruct (validate_normal_transaction_skeleton tx) as [[]|[]]; naive_solver.
Qed.

Lemma normal_skeleton_Ok tx :
  validate_normal_transaction_skeleton tx = Ok tt <->
  Z.of_nat (length (Transaction_encode tx)) <= MAX_TRANSACTION_BYTES /\
  inputs tx <> [] /\ outputs tx <> [] /\ Forall (fun i => is_null_outpoint i = false) (inputs tx).
Proof.
  unfold validate_normal_transaction_skeleton. destruct (_ >? _) eqn:E; [naive_solver lia|].
  assert (existsb is_null_outpoint (inputs tx) = false
          <-> Forall (fun i => is_null_outpoint i = false) (inputs tx)) as He.
  { induction (inputs tx); simpl; [naive_solver|]. rewrite orb_false_iff, Forall_cons. naive_solver. }
  unfold is_coinbase_form. destruct (inputs tx) as [|i rest]; [naive_solver|].
  destruct (outputs tx); [naive_solver|]. rewrite <- He. cbn [existsb].
  set (any := existsb is_null_outpoint rest).
  assert (rest = [] -> any = false) as Hr by (by intros ->). clearbody any. clear He.
  destruct (is_null_outpoint i) eqn:Ei, any; simpl; destruct rest; try (specialize (Hr eq_refl));
    (split; [intros; simplify_eq|intros (? & ? & ? & ?)]; try done); split_and!; (done || lia).
Qed.

(** The block skeleton.  A block is accepted exactly when it is within
    the size limit, not empty, commits to its transactions, starts with a
    coinbase of legal size, and every other transaction is within its size
    limit, has inputs and outputs, and spends no null outpoint. *)
Theorem block_skeleton_spec `{Blake3} b h :
  validate_non_genesis_block_skeleton b h = Ok tt <->
  h <> 0 /\ Z.of_nat (length (Block_encode b)) <= MAX_BLOCK_BYTES /\
  transaction_root (transactions b) = Ok (transaction_root_field (header b)) /\
  exists coinbase normal, transactions b = coinbase :: normal /\
    is_coinbase_form coinbase = true /\
    Forall (fun tx => Z.of_nat (length (Transaction_encode tx)) <= MAX_TRANSACTION_BYTES)
      (transactions b) /\
    Forall (fun tx => inputs tx <> [] /\ outputs tx <> [] /\
                      Forall (fun i => is_null_outpoint i = false) (inputs tx)) normal.
Proof.
  unfold validate_non_genesis_block_skeleton. destruct (Z.eqb_spec h 0); [naive_solver|].
  destruct (_ >? _) eqn:E; [naive_solver lia|]. assert (Z.of_nat (length (Block_encode b)) <= MAX_BLOCK_BYTES) by lia.
  destruct (transactions b) as [|c txs] eqn:Et; [naive_solver|].
  split.
  - destruct (check_sizes 0 (c :: txs)) as [[]|] eqn:Ec; [|done].
    destruct (transaction_root _) as [r|] eqn:Er; [|done]. cbn [map_err].
    case_bool_decide; [subst r; cbn [negb]|done]. destruct (is_coinbase_form c) eqn:Ef; [cbn [negb]|done].
    intros Hs. apply check_skeletons_Ok in Hs as Hf. split_and!; [done|done|done|].
    exists c, txs. simpl in Ec. destruct (Z.of_nat (length (Transaction_encode c)) >? _) eqn:Es; [done|].
    apply check_sizes_Ok in Ec. split_and!; [done|done|constructor; [lia|done]|].
    eapply Forall_impl; [exact Hf|]. intros tx. apply normal_skeleton_Ok.
  - intros (_ & _ & Er & c' & txs' & [= <- <-] & Ef & Hs & Hn).
    inversion Hs as [|? ? Hs1 Hs2]; subst.
    assert (check_sizes 0 (c :: txs) = Ok tt) as ->.
    { simpl. destruct (Z.of_nat (length (Transaction_encode c)) >? _) eqn:Es; [lia|]. by apply check_sizes_Ok. }
    rewrite Er. cbn [map_err]. rewrite bool_decide_true by done. rewrite Ef. cbn [negb].
    apply check_skeletons_Ok. clear -Hs2 Hn.
    induction Hs2; inversion Hn; subst; constructor; auto. apply normal_skeleton_Ok; naive_solver.
Qed.

(** ** Concrete coinbases *)

Definition demo_coinbase (height : Z) (outs : list TxOutput) : Transaction :=
  MkTransaction 1 [MkTxInput NULL_TXID U32_MAX U32_MAX [write_varint height]] outs 0.

Definition demo_output (v : Z) : TxOutput := MkTxOutput (MkAmount v) [x01].

Lemma coinbase_claim_bounded_witness :
  outputs_value [founder_output demo_params; demo_output 237500000]
    <= subsidy_units 1 + 0 + founder_part 1.
Proof.
  apply (coinbase_claim_bounded (demo_coinbase 1 [founder_output demo_params; demo_output 237500000])
    1 (MkAmount 0) demo_params); [lia|vm_compute; reflexivity].
Defined.

Lemma coinbase_height_unique_witness :
  validate_coinbase (demo_coinbase 7 [demo_output 5]) 7 (MkAmount 0) demo_params = Ok tt /\ 7 = 7.
Proof.
  assert (validate_coinbase (demo_coinbase 7 [demo_output 5]) 7 (MkAmount 0) demo_params = Ok tt) as E
    by (vm_compute; reflexivity).
  split; [exact E|].
  apply (coinbase_height_unique (demo_coinbase 7 [demo_output 5]) 7 7 (MkAmount 0) (MkAmount 0)
    demo_params demo_params); [unfold_ints; lia|unfold_ints; lia|exact E|exact E].
Defined.
