(* ===== verification/Resources.v ===== *)
(** [oregon-consensus/execution_resources.rs]: the base-fee rule and the block
    weight budget of the execution layer. *)
From S2P Require Import Prelude Encoding.

Module ResourceFeeError.
Inductive t : Type :=
| UnsupportedVersion (version : Z)
| InvalidParameters
| ParentFeeOutOfRange
| ParentWeightExceeded
| InvalidTransactionWeight
| BlockWeightExceeded.
End ResourceFeeError.

Record FeeParametersV1 : Type := MkFeeParametersV1 {
  target_weight : Z;
  max_transaction_weight : Z;
  adjustment_denominator : Z;
  min_base_fee : Z;
  max_base_fee : Z;
}.

Definition FeeParametersV1_new (version target max_tx denominator min_fee max_fee : Z)
  : result ResourceFeeError.t FeeParametersV1 :=
  if negb (version =? 1) then Err (ResourceFeeError.UnsupportedVersion version)
  else match checked_mul U64_MAX target 2 with
  | None => Err ResourceFeeError.InvalidParameters
  | Some block_weight_limit =>
      if (target =? 0) || (max_tx =? 0) || (max_tx >? block_weight_limit) || (denominator <? 2)
         || (min_fee =? 0) || (min_fee >? max_fee) || (max_fee >? MAX_SUPPLY_BASE_UNITS)
      then Err ResourceFeeError.InvalidParameters
      else Ok (MkFeeParametersV1 target max_tx denominator min_fee max_fee)
  end.

Definition block_weight_limit (p : FeeParametersV1) : Z := target_weight p * 2.

Definition next_base_fee (p : FeeParametersV1) (parent_base_fee parent_weight : Z)
  : result ResourceFeeError.t Z :=
  if negb ((min_base_fee p <=? parent_base_fee) && (parent_base_fee <=? max_base_fee p))
  then Err ResourceFeeError.ParentFeeOutOfRange
  else if parent_weight >? block_weight_limit p then Err ResourceFeeError.ParentWeightExceeded
  else if parent_weight =? target_weight p then Ok parent_base_fee
  else
    let distance := Z.abs (parent_weight - target_weight p) in
    let denominator := target_weight p * adjustment_denominator p in
    let? change := ok_or (try_from U64_MAX (parent_base_fee * distance / denominator))
                     ResourceFeeError.InvalidParameters in
    if parent_weight >? target_weight p then
      let? increased := ok_or (try_from U64_MAX (parent_base_fee + Z.max change 1))
                          ResourceFeeError.InvalidParameters in
      Ok (Z.min increased (max_base_fee p))
    else Ok (Z.max (saturating_sub parent_base_fee change) (min_base_fee p)).

Record BlockWeightBudget : Type := MkBlockWeightBudget {
  limit : Z;
  transaction_limit : Z;
  consumed : Z;
}.

Definition BlockWeightBudget_new (p : FeeParametersV1) : BlockWeightBudget :=
  MkBlockWeightBudget (block_weight_limit p) (max_transaction_weight p) 0.

Definition include (actual_weight : Z) : eff BlockWeightBudget ResourceFeeError.t unit := fun b =>
  if (actual_weight =? 0) || (actual_weight >? transaction_limit b)
  then (Err ResourceFeeError.InvalidTransactionWeight, b)
  else match checked_add U64_MAX (consumed b) actual_weight with
  | None => (Err ResourceFeeError.BlockWeightExceeded, b)
  | Some next =>
      if next >? limit b then (Err ResourceFeeError.BlockWeightExceeded, b)
      else (Ok tt, MkBlockWeightBudget (limit b) (transaction_limit b) next)
  end.

Definition remaining (b : BlockWeightBudget) : Z := limit b - consumed b.

(** ** Facts *)

(** What [FeeParametersV1::new] establishes. *)
Definition fee_params_ok (p : FeeParametersV1) : Prop :=
  0 < target_weight p /\ target_weight p * 2 <= U64_MAX /\
  0 < max_transaction_weight p <= block_weight_limit p /\
  2 <= adjustment_denominator p /\
  0 < min_base_fee p <= max_base_fee p /\ max_base_fee p <= MAX_SUPPLY_BASE_UNITS.

Lemma FeeParametersV1_new_ok v t m d lo hi p :
  0 <= t -> 0 <= m -> 0 <= lo -> FeeParametersV1_new v t m d lo hi = Ok p -> fee_params_ok p.
Proof.
  intros Ht Hm Hl. unfold FeeParametersV1_new. destruct (negb _); [done|].
  destruct (checked_mul _ _ _) as [l|] eqn:El; [|done]. apply checked_mul_Some in El as [-> El].
  case_match eqn:E; [done|]. intros [= <-]. unfold fee_params_ok, block_weight_limit; simpl.
  rewrite !orb_false_iff in E. lia.
Qed.

(** The unclamped change between two blocks. *)
Definition fee_change (p : FeeParametersV1) (fee weight : Z) : Z :=
  fee * Z.abs (weight - target_weight p) / (target_weight p * adjustment_denominator p).

Lemma fee_change_range p fee w :
  fee_params_ok p -> 0 <= fee -> 0 <= w <= block_weight_limit p ->
  0 <= fee_change p fee w <= fee / adjustment_denominator p /\ fee_change p fee w <= fee.
Proof.
  intros (Ht & _ & _ & Hd & _) Hf Hw. unfold fee_change, block_weight_limit in *.
  set (T := target_weight p) in *. set (D := adjustment_denominator p) in *.
  set (x := Z.abs (w - T)). assert (0 <= x <= T) by lia.
  assert (0 < T * D) by nia. assert (0 <= fee * x <= fee * T) by nia.
  assert (fee * x / (T * D) <= fee / D).
  { rewrite <- (Z.div_mul_cancel_r fee D T) by lia. rewrite (Z.mul_comm T D).
    apply Z.div_le_mono; nia. }
  assert (fee / D <= fee) by (apply Z.div_le_upper_bound; nia).
  split_and!; [apply Z.div_pos; lia|done|lia].
Qed.

Lemma next_base_fee_value p fee w :
  fee_params_ok p -> min_base_fee p <= fee <= max_base_fee p -> 0 <= w <= block_weight_limit p ->
  next_base_fee p fee w
  = Ok (if w =? target_weight p then fee
        else if w >? target_weight p
        then Z.min (fee + Z.max (fee_change p fee w) 1) (max_base_fee p)
        else Z.max (fee - fee_change p fee w) (min_base_fee p)).
Proof.
  intros HP Hf Hw. pose proof HP as (Ht & _ & _ & Hd & Hm & Hs).
  destruct (fee_change_range p fee w HP ltac:(lia) Hw) as (Hc & Hcf).
  unfold next_base_fee. destruct (Z.leb_spec (min_base_fee p) fee); [|lia].
  destruct (Z.leb_spec fee (max_base_fee p)); [cbn [andb negb]|lia].
  destruct (w >? block_weight_limit p) eqn:E; [lia|]. destruct (w =? target_weight p); [done|].
  cbv zeta. fold (fee_change p fee w).
  assert (fee <= MAX_SUPPLY_BASE_UNITS) as Hfs by lia.
  assert (MAX_SUPPLY_BASE_UNITS * 2 < U64_MAX) as HM by (by vm_compute).
  assert (1 <= MAX_SUPPLY_BASE_UNITS) by (by vm_compute).
  assert (try_from U64_MAX (fee_change p fee w) = Some (fee_change p fee w)) as ->
    by (apply try_from_Some; lia). cbn [ok_or]. destruct (w >? target_weight p).
  - assert (try_from U64_MAX (fee + Z.max (fee_change p fee w) 1) = Some (fee + Z.max (fee_change p fee w) 1))
      as -> by (apply try_from_Some; lia). done.
  - unfold saturating_sub. do 2 f_equal. lia.
Qed.

(** The base-fee rule.  For parameters the constructor accepts, a parent
    fee in range and a legal parent weight, the next fee exists, stays in the
    configured range, moves by at most one part in the adjustment denominator
    (and at least one unit upwards when it can), towards the pressure of the
    parent block. *)
Theorem next_base_fee_spec v t m d lo hi p fee w :
  0 <= t -> 0 <= m -> 0 <= lo -> FeeParametersV1_new v t m d lo hi = Ok p ->
  min_base_fee p <= fee <= max_base_fee p -> 0 <= w <= block_weight_limit p ->
  exists f, next_base_fee p fee w = Ok f /\
    min_base_fee p <= f <= max_base_fee p /\
    Z.abs (f - fee) <= Z.max 1 (fee / adjustment_denominator p) /\
    (w = target_weight p -> f = fee) /\
    (w < target_weight p -> f <= fee) /\
    (target_weight p < w -> fee < max_base_fee p -> fee < f).
Proof.
  intros Ht Hm Hlo HN Hf Hw. apply FeeParametersV1_new_ok in HN as HP; [|done..].
  eexists. split; [by apply next_base_fee_value|].
  destruct (fee_change_range p fee w HP) as (Hc & Hcf); [destruct HP; lia|done|].
  destruct HP as (? & ? & ? & ? & ? & ?).
  destruct (Z.eqb_spec w (target_weight p)); [lia|].
  destruct (w >? target_weight p) eqn:E; split_and!; lia.
Qed.

Lemma next_base_fee_spec_witness :
  next_base_fee (MkFeeParametersV1 1000 500 8 10 1000000) 800 2000 = Ok 900 /\
  exists f, next_base_fee (MkFeeParametersV1 1000 500 8 10 1000000) 800 2000 = Ok f /\ 10 <= f <= 1000000.
Proof.
  split; [reflexivity|].
  destruct (next_base_fee_spec 1 1000 500 8 10 1000000 (MkFeeParametersV1 1000 500 8 10 1000000) 800 2000)
    as (f & Ef & Hf & _); [lia..|reflexivity|simpl; lia|unfold block_weight_limit; simpl; lia|].
  exists f. split; [exact Ef|]. simpl in Hf. exact Hf.
Defined.

(** Include weights one by one, keeping the results. *)
Fixpoint include_all (weights : list Z) (b : BlockWeightBudget) : list bool * BlockWeightBudget :=
  match weights with
  | [] => ([], b)
  | w :: ws =>
      let '(r, b) := include w b in
      let '(rs, b) := include_all ws b in
      (is_ok r :: rs, b)
  end.

(** The weights of those accepted. *)
Fixpoint accepted_weight (weights : list Z) (results : list bool) : Z :=
  match weights, results with
  | w :: ws, r :: rs => (if r then w else 0) + accepted_weight ws rs
  | _, _ => 0
  end.

Definition budget_ok (b : BlockWeightBudget) : Prop := 0 <= consumed b <= limit b.

Lemma include_spec w b :
  0 <= w -> budget_ok b ->
  let '(r, b') := include w b in
  budget_ok b' /\ limit b' = limit b /\ transaction_limit b' = transaction_limit b /\
  consumed b' = consumed b + (if is_ok r then w else 0) /\
  (is_ok r = true -> 0 < w <= transaction_limit b).
Proof.
  intros Hw Hb. unfold include, budget_ok in *. destruct ((w =? 0) || (w >? transaction_limit b)) eqn:E.
  { simpl. split_and!; try lia; done. }
  rewrite orb_false_iff in E. destruct (checked_add _ _ _) as [n|] eqn:Ea.
  - apply checked_add_Some in Ea as [-> _]. destruct (_ >? limit b) eqn:El; simpl; split_and!; try lia; done.
  - simpl. split_and!; try lia; done.
Qed.

Lemma include_all_spec ws b :
  Forall (fun w => 0 <= w) ws -> budget_ok b ->
  let '(rs, b') := include_all ws b in
  budget_ok b' /\ limit b' = limit b /\ consumed b' = consumed b + accepted_weight ws rs.
Proof.
  intros HF. revert b. induction HF as [|w ws Hw HF IH]; intros b Hb; simpl; [split_and!; (done || lia)|].
  pose proof (include_spec w b Hw Hb) as Hi. destruct (include w b) as [r b1].
  destruct Hi as (H1 & H2 & _ & H3 & _). specialize (IH b1 H1). destruct (include_all ws b1) as [rs b2].
  destruct IH as (H4 & H5 & H6). simpl. split_and!; [done|congruence|lia].
Qed.

(** The block budget.  Whatever weights are offered, the consumed weight
    is exactly the sum of the accepted ones and never exceeds the block limit,
    so the remaining weight never underflows. *)
Theorem block_weight_budget_sound p ws :
  fee_params_ok p -> Forall (fun w => 0 <= w) ws ->
  let '(rs, b) := include_all ws (BlockWeightBudget_new p) in
  consumed b = accepted_weight ws rs /\ 0 <= consumed b <= block_weight_limit p /\
  0 <= remaining b /\ consumed b + remaining b = block_weight_limit p.
Proof.
  intros HP HF.
  assert (budget_ok (BlockWeightBudget_new p)) as Hb.
  { destruct HP as (? & ? & ? & _). unfold budget_ok; simpl. lia. }
  pose proof (include_all_spec ws _ HF Hb) as Hi. destruct (include_all ws _) as [rs b].
  destruct Hi as (H1 & H2 & H3). unfold remaining, budget_ok in *. simpl in *. lia.
Qed.

Lemma block_weight_budget_sound_witness :
  include_all [500; 600; 0; 500; 500; 500; 1] (BlockWeightBudget_new (MkFeeParametersV1 1000 500 8 10 100))
    = ([true; false; false; true; true; true; false], MkBlockWeightBudget 2000 500 2000) /\
  0 <= remaining (MkBlockWeightBudget 2000 500 2000).
Proof.
  split; [reflexivity|].
  apply (block_weight_budget_sound (MkFeeParametersV1 1000 500 8 10 100) [500; 600; 0; 500; 500; 500; 1]).
  - unfold fee_params_ok, block_weight_limit, MAX_SUPPLY_BASE_UNITS, BASE_UNITS_PER_OREG; simpl; unfold_ints; lia.
  - repeat constructor; lia.
Defined.
