(* ===== verification/Utxo.v ===== *)
(** [oregon-utxo]: the set of unspent outputs ([entry.rs], [error.rs],
    [state.rs], [undo.rs], [verifier.rs]).

    The [HashMap] of entries is a [gmap].  Iteration orders of the hash map are
    observable only through the undo lists, which the code sorts by outpoint;
    the model sorts the same pairs with the same key.  Operations on [&mut self]
    return their result together with the state they leave behind. *)
From S2P Require Import Prelude Encoding Transaction Block Difficulty Emission BlockRules.

Definition COINBASE_MATURITY : Z := 120.

Record UtxoEntry : Type := MkUtxoEntry {
  output : TxOutput;
  creation_height : Z;
  is_coinbase : bool;
}.

#[global] Instance UtxoEntry_eq_dec : EqDecision UtxoEntry.
Proof. solve_decision. Defined.

Definition is_spendable_at (e : UtxoEntry) (spend_height : Z) : bool :=
  if negb (is_coinbase e) then true
  else match checked_add U64_MAX (creation_height e) COINBASE_MATURITY with
       | Some mature_height => mature_height <=? spend_height
       | None => false
       end.

Module UtxoError.
Inductive t : Type :=
| MissingUtxo (o : OutPoint)
| DuplicateInput (o : OutPoint)
| DuplicateOutpoint (o : OutPoint)
| ImmatureCoinbase
| OutputValueExceedsInput
| AmountOverflow
| OutputIndexOverflow
| OutputCollision (o : OutPoint)
| SpendAuthorizationFailed
| InvalidBlockOrder
| UndoMismatch
| Consensus (e : ConsensusError.t).
End UtxoError.

(** The trait that authorises the spending of an output. *)
Class SpendVerifier (V : Type) : Type :=
  verify_spend : V -> Transaction -> nat -> UtxoEntry -> result UtxoError.t unit.

Abbreviation UtxoState := (gmap OutPoint UtxoEntry).

Record BlockUndo : Type := MkBlockUndo {
  spent : list (OutPoint * UtxoEntry);
  created : list OutPoint;
}.

Definition try_from_entries (entries : list (OutPoint * UtxoEntry)) : result UtxoError.t UtxoState :=
  try_fold (fun (restored : UtxoState) '(o, e) =>
              match restored !! o with
              | Some _ => Err (UtxoError.DuplicateOutpoint o)
              | None => Ok (<[o := e]> restored)
              end) entries ∅.

(** ** Creating outputs *)

(** The loop that numbers the outputs of a transaction, from [index] on, and
    refuses one that is already in the state. *)
Fixpoint created_entries (s : UtxoState) (id : Hash256) (height : Z) (coinbase : bool)
  (index : nat) (outs : list TxOutput) : result UtxoError.t (list (OutPoint * UtxoEntry)) :=
  match outs with
  | [] => Ok []
  | o :: outs =>
      let? index32 := ok_or (try_from U32_MAX (Z.of_nat index)) UtxoError.OutputIndexOverflow in
      let outpoint := MkOutPoint id index32 in
      match s !! outpoint with
      | Some _ => Err (UtxoError.OutputCollision outpoint)
      | None =>
          let? rest := created_entries s id height coinbase (S index) outs in
          Ok ((outpoint, MkUtxoEntry o height coinbase) :: rest)
      end
  end.

Definition insert_all (l : list (OutPoint * UtxoEntry)) (s : UtxoState) : UtxoState :=
  foldl (fun s '(o, e) => <[o := e]> s) s l.

Definition remove_all (l : list OutPoint) (s : UtxoState) : UtxoState :=
  foldl (fun s o => delete o s) s l.

Section Transitions.
Context `{Blake3} {V : Type} `{!SpendVerifier V}.

Definition insert_coinbase_outputs (tx : Transaction) (height : Z)
  : eff UtxoState UtxoError.t unit := fun s =>
  match created_entries s (Transaction_txid tx) height true 0 (outputs tx) with
  | Err e => (Err e, s)
  | Ok created => (Ok tt, insert_all created s)
  end.

(** ** Normal transactions *)

(** The loop over the inputs: [seen] and [consumed] as in the code, the running
    sum of the values spent. *)
Fixpoint check_inputs (s : UtxoState) (tx : Transaction) (spend_height : Z) (verifier : V)
  (index : nat) (ins : list TxInput) (seen : gset OutPoint) (input_sum : Z) (consumed : list OutPoint)
  : result UtxoError.t (Z * list OutPoint) :=
  match ins with
  | [] => Ok (input_sum, consumed)
  | input :: ins =>
      let outpoint := TxInput_outpoint input in
      if bool_decide (outpoint ∈ seen) then Err (UtxoError.DuplicateInput outpoint)
      else
        let? entry := ok_or (s !! outpoint) (UtxoError.MissingUtxo outpoint) in
        if negb (is_spendable_at entry spend_height) then Err UtxoError.ImmatureCoinbase
        else
          let? _ := verify_spend verifier tx index entry in
          let? input_sum := ok_or (checked_add U64_MAX input_sum (base_units (value (output entry))))
                              UtxoError.AmountOverflow in
          check_inputs s tx spend_height verifier (S index) ins ({[outpoint]} ∪ seen) input_sum
            (consumed ++ [outpoint])
  end.

Definition apply_normal_transaction (tx : Transaction) (spend_height : Z) (verifier : V)
  : eff UtxoState UtxoError.t Z := fun s =>
  match
    (let? (input_sum, consumed) := check_inputs s tx spend_height verifier 0 (inputs tx) ∅ 0 [] in
     let? output_sum := sum_outputs UtxoError.AmountOverflow (outputs tx) in
     if output_sum >? input_sum then Err UtxoError.OutputValueExceedsInput
     else
       let fee := input_sum - output_sum in
       let? created := created_entries s (Transaction_txid tx) spend_height false 0 (outputs tx) in
       Ok (fee, consumed, created))
  with
  | Err e => (Err e, s)
  | Ok (fee, consumed, created) => (Ok fee, insert_all created (remove_all consumed s))
  end.

(** ** Blocks *)

(** [tx_positions]: the index of each transaction after the coinbase. *)
Fixpoint tx_positions_from (index : nat) (txs : list Transaction) (positions : gmap Hash256 nat)
  : result UtxoError.t (gmap Hash256 nat) :=
  match txs with
  | [] => Ok positions
  | tx :: txs =>
      match positions !! Transaction_txid tx with
      | Some _ => Err UtxoError.InvalidBlockOrder
      | None => tx_positions_from (S index) txs (<[Transaction_txid tx := index]> positions)
      end
  end.

(** An input whose output is produced later in the same block. *)
Definition spends_later (overlay : UtxoState) (positions : gmap Hash256 nat) (index : nat)
  (input : TxInput) : bool :=
  match overlay !! TxInput_outpoint input with
  | Some _ => false
  | None => match positions !! previous_txid input with
            | Some producer_index => (index <? producer_index)%nat
            | None => false
            end
  end.

Fixpoint apply_transactions (positions : gmap Hash256 nat) (height : Z) (verifier : V)
  (index : nat) (txs : list Transaction) (total_fees : Z) (overlay : UtxoState)
  : result UtxoError.t (Z * UtxoState) :=
  match txs with
  | [] => Ok (total_fees, overlay)
  | tx :: txs =>
      if existsb (spends_later overlay positions index) (inputs tx) then Err UtxoError.InvalidBlockOrder
      else
        match apply_normal_transaction tx height verifier overlay with
        | (Err e, _) => Err e
        | (Ok fee, overlay) =>
            let? total_fees := ok_or (checked_add U64_MAX total_fees fee) UtxoError.AmountOverflow in
            apply_transactions positions height verifier (S index) txs total_fees overlay
        end
  end.

(** [Ord] of [OutPoint]: the transaction identifier, then the index. *)
Definition outpoint_le (a b : OutPoint) : Prop :=
  match bytes_cmp (arr_bytes (txid a)) (arr_bytes (txid b)) with
  | Lt => True
  | Eq => index a <= index b
  | Gt => False
  end.

#[global] Instance outpoint_le_dec a b : Decision (outpoint_le a b).
Proof. unfold outpoint_le. case_match; apply _. Defined.

Definition spent_entries (before after : UtxoState) : list (OutPoint * UtxoEntry) :=
  merge_sort (fun p q => outpoint_le p.1 q.1)
    (filter (fun p => after !! p.1 = None) (map_to_list before)).

Definition created_outpoints (before after : UtxoState) : list OutPoint :=
  merge_sort outpoint_le (filter (fun o => before !! o = None) (map_to_list after).*1).

Definition connect_block (block : Block) (height : Z) (params : ConsensusParams) (verifier : V)
  : eff UtxoState UtxoError.t BlockUndo := fun s =>
  match
    (let? _ := map_err UtxoError.Consensus (validate_non_genesis_block_skeleton block height) in
     match transactions block with
     | [] => Err (UtxoError.Consensus ConsensusError.EmptyNonGenesisBlock) (* excluded by the skeleton *)
     | coinbase :: normal =>
         let? positions := tx_positions_from 1 normal ∅ in
         let? (total_fees, overlay) := apply_transactions positions height verifier 1 normal 0 s in
         let? fee_amount := map_err (fun _ => UtxoError.AmountOverflow)
                              (Amount_from_base_units total_fees) in
         let? _ := map_err UtxoError.Consensus (validate_coinbase coinbase height fee_amount params) in
         match insert_coinbase_outputs coinbase height overlay with
         | (Err e, _) => Err e
         | (Ok _, overlay) => Ok overlay
         end
     end)
  with
  | Err e => (Err e, s)
  | Ok overlay => (Ok (MkBlockUndo (spent_entries s overlay) (created_outpoints s overlay)), overlay)
  end.

(** ** Disconnecting *)

Fixpoint check_created (s : UtxoState) (l : list OutPoint) (seen : gset OutPoint)
  : result UtxoError.t (gset OutPoint) :=
  match l with
  | [] => Ok seen
  | o :: l =>
      if bool_decide (o ∈ seen) || bool_decide (s !! o = None) then Err UtxoError.UndoMismatch
      else check_created s l ({[o]} ∪ seen)
  end.

Fixpoint check_spent (s : UtxoState) (seen_created : gset OutPoint) (l : list (OutPoint * UtxoEntry))
  (seen : gset OutPoint) : result UtxoError.t unit :=
  match l with
  | [] => Ok tt
  | (o, _) :: l =>
      if bool_decide (o ∈ seen) || bool_decide (o ∈ seen_created) || negb (bool_decide (s !! o = None))
      then Err UtxoError.UndoMismatch
      else check_spent s seen_created l ({[o]} ∪ seen)
  end.

Definition remove_checked (l : list OutPoint) (s : UtxoState) : result UtxoError.t UtxoState :=
  try_fold (fun (s : UtxoState) o =>
              match s !! o with Some _ => Ok (delete o s) | None => Err UtxoError.UndoMismatch end) l s.

Definition insert_checked (l : list (OutPoint * UtxoEntry)) (s : UtxoState)
  : result UtxoError.t UtxoState :=
  try_fold (fun (s : UtxoState) '(o, e) =>
              match s !! o with None => Ok (<[o := e]> s) | Some _ => Err UtxoError.UndoMismatch end) l s.

Definition disconnect_block (undo : BlockUndo) : eff UtxoState UtxoError.t unit := fun s =>
  match
    (let? seen_created := check_created s (created undo) ∅ in
     let? _ := check_spent s seen_created (spent undo) ∅ in
     let? overlay := remove_checked (created undo) s in
     insert_checked (spent undo) overlay)
  with
  | Err e => (Err e, s)
  | Ok overlay => (Ok tt, overlay)
  end.

End Transitions.

(** ** Values *)

Definition entry_value (e : UtxoEntry) : Z := base_units (value (output e)).

(** The value all unspent outputs carry. *)
Definition total_value (s : UtxoState) : Z := map_fold (fun _ e acc => entry_value e + acc) 0 s.

Definition utxo_value (s : UtxoState) (o : OutPoint) : Z :=
  match s !! o with Some e => entry_value e | None => 0 end.

Definition list_value (l : list (OutPoint * UtxoEntry)) : Z :=
  foldr (fun p acc => entry_value p.2 + acc) 0 l.

Definition spent_value (s : UtxoState) (l : list OutPoint) : Z :=
  foldr (fun o acc => utxo_value s o + acc) 0 l.

Lemma total_value_insert s o e :
  s !! o = None -> total_value (<[o := e]> s) = entry_value e + total_value s.
Proof.
  intros Hn. unfold total_value.
  apply (map_fold_insert_L (fun _ e acc => entry_value e + acc)); [intros; lia|done].
Qed.

Lemma total_value_delete s o :
  is_Some (s !! o) -> total_value s = utxo_value s o + total_value (delete o s).
Proof.
  intros [e He]. unfold total_value, utxo_value. rewrite He.
  apply (map_fold_delete_L (fun _ e acc => entry_value e + acc)); [intros; lia|done].
Qed.

Lemma insert_all_union l s : NoDup l.*1 -> insert_all l s = list_to_map l ∪ s.
Proof.
  unfold insert_all. revert s. induction l as [|[o e] l IH]; intros s HN; simpl.
  { by rewrite (left_id_L ∅ (∪)). }
  simpl in HN. apply NoDup_cons in HN as [Ho HN]. rewrite IH by done.
  rewrite <- (insert_union_l (list_to_map l)).
  rewrite insert_union_r; [done|]. by apply not_elem_of_list_to_map_1.
Qed.

Lemma remove_all_lookup l s o :
  remove_all l s !! o = if bool_decide (o ∈ l) then None else s !! o.
Proof.
  unfold remove_all. revert s. induction l as [|x l IH]; intros s; cbn [foldl].
  { case_bool_decide; [set_solver|done]. }
  rewrite IH. destruct (decide (o = x)) as [->|].
  - rewrite lookup_delete_eq. repeat case_bool_decide; set_solver.
  - rewrite lookup_delete_ne by done. repeat case_bool_decide; set_solver.
Qed.

Lemma total_insert_all l s :
  NoDup l.*1 -> Forall (fun p => s !! p.1 = None) l ->
  total_value (insert_all l s) = total_value s + list_value l.
Proof.
  unfold insert_all. revert s. induction l as [|[o e] l IH]; intros s HN HF; simpl; [lia|].
  simpl in HN. apply NoDup_cons in HN as [Ho HN]. inversion HF as [|? ? Hs HF']; subst. simpl in Hs.
  rewrite IH; [rewrite total_value_insert by done; lia|done|].
  rewrite Forall_forall in *. intros [o' e'] Hin. simpl. rewrite lookup_insert_ne.
  - by apply (HF' (o', e')).
  - intros ->. apply Ho. by apply (list_elem_of_fmap_2 fst l (o', e')).
Qed.

Lemma utxo_value_delete s o o' : o <> o' -> utxo_value (delete o s) o' = utxo_value s o'.
Proof. intros. unfold utxo_value. by rewrite lookup_delete_ne. Qed.

Lemma spent_value_delete s o l : o ∉ l -> spent_value (delete o s) l = spent_value s l.
Proof.
  induction l as [|x l IH]; intros Ho; [done|]. simpl. rewrite IH, utxo_value_delete by set_solver. done.
Qed.

Lemma total_remove_all l s :
  NoDup l -> Forall (fun o => is_Some (s !! o)) l ->
  total_value s = total_value (remove_all l s) + spent_value s l.
Proof.
  unfold remove_all. revert s. induction l as [|o l IH]; intros s HN HF; simpl; [lia|].
  apply NoDup_cons in HN as [Ho HN]. inversion HF as [|? ? Hs HF']; subst.
  rewrite (total_value_delete s o Hs), (IH (delete o s)) by
    (try done; rewrite Forall_forall in *; intros x Hx; rewrite lookup_delete_ne by set_solver; auto).
  rewrite spent_value_delete by done. lia.
Qed.

(** ** Numbered outputs *)

Fixpoint numbered (id : Hash256) (height : Z) (coinbase : bool) (index : nat) (outs : list TxOutput)
  : list (OutPoint * UtxoEntry) :=
  match outs with
  | [] => []
  | o :: outs =>
      (MkOutPoint id (Z.of_nat index), MkUtxoEntry o height coinbase)
        :: numbered id height coinbase (S index) outs
  end.

Lemma numbered_elem id h cb i outs p :
  p ∈ numbered id h cb i outs ->
  txid p.1 = id /\ Z.of_nat i <= index p.1 /\ creation_height p.2 = h /\ is_coinbase p.2 = cb.
Proof.
  revert i. induction outs as [|o outs IH]; intros i; simpl; [set_solver|].
  intros [->|Hp]%elem_of_cons; [simpl; split_and!; (done || lia)|].
  apply IH in Hp as (? & ? & ? & ?). split_and!; (done || lia).
Qed.

Lemma numbered_nodup id h cb i outs : NoDup (numbered id h cb i outs).*1.
Proof.
  revert i. induction outs as [|o outs IH]; intros i; simpl; [constructor|].
  constructor; [|apply IH]. intros (p & Ep & Hp)%list_elem_of_fmap.
  apply numbered_elem in Hp as (_ & Hi & _). rewrite <- Ep in Hi. simpl in Hi. lia.
Qed.

Lemma numbered_value id h cb i outs : list_value (numbered id h cb i outs) = outputs_value outs.
Proof. revert i. induction outs as [|o outs IH]; intros i; simpl; [done|]. rewrite IH. done. Qed.

Lemma numbered_lookup id h cb i outs k o :
  outs !! k = Some o ->
  (MkOutPoint id (Z.of_nat (i + k)), MkUtxoEntry o h cb) ∈ numbered id h cb i outs.
Proof.
  revert i k. induction outs as [|x outs IH]; intros i [|k] Hk; simplify_eq/=.
  - rewrite Nat.add_0_r. set_solver.
  - rewrite Nat.add_succ_r, <- Nat.add_succ_l. apply elem_of_cons. right. auto.
Qed.

Lemma created_entries_Ok s id h cb i outs l :
  created_entries s id h cb i outs = Ok l ->
  l = numbered id h cb i outs /\ Forall (fun p => s !! p.1 = None) l.
Proof.
  revert i l. induction outs as [|o outs IH]; intros i l; cbn [created_entries numbered].
  { intros [= <-]. auto. }
  destruct (try_from _ _) eqn:Et; [|done]. apply try_from_Some in Et as [-> _]. cbn [ok_or].
  destruct (s !! _) eqn:Es; [done|]. destruct (created_entries s id h cb (S i) outs) as [r|] eqn:Er; [|done].
  intros [= <-]. apply IH in Er as [-> HF]. split; [done|]. constructor; done.
Qed.

(** ** Applying a transaction *)

Definition spent_outpoints (tx : Transaction) : list OutPoint := map TxInput_outpoint (inputs tx).

Section Facts.
Context `{Blake3} {V : Type} `{!SpendVerifier V}.

(** Input number [i] spends an existing, mature, authorised output. *)
Definition input_authorised (s : UtxoState) (tx : Transaction) (height : Z) (v : V) (i : nat)
  (input : TxInput) : Prop :=
  exists e, s !! TxInput_outpoint input = Some e /\ is_spendable_at e height = true /\
            verify_spend v tx i e = Ok tt.

Lemma check_inputs_Ok s tx h v i ins seen sum consumed sum' consumed' :
  check_inputs s tx h v i ins seen sum consumed = Ok (sum', consumed') ->
  consumed' = consumed ++ map TxInput_outpoint ins /\
  NoDup (map TxInput_outpoint ins) /\ (forall o, o ∈ map TxInput_outpoint ins -> o ∉ seen) /\
  sum' = sum + spent_value s (map TxInput_outpoint ins) /\
  (forall k input, ins !! k = Some input -> input_authorised s tx h v (i + k) input).
Proof.
  revert i seen sum consumed. induction ins as [|x ins IH]; intros i seen sum consumed.
  { intros [= <- <-]. simpl. rewrite app_nil_r. split_and!; [done|constructor|set_solver|lia|done]. }
  cbn [check_inputs]. cbv zeta. case_bool_decide as Hseen; [done|].
  destruct (s !! TxInput_outpoint x) as [e|] eqn:Es; [|done]. cbn [ok_or].
  destruct (is_spendable_at e h) eqn:Em; [cbn [negb]|done].
  destruct (verify_spend v tx i e) as [[]|] eqn:Ev; [|done].
  destruct (checked_add _ _ _) eqn:Ea; [|done]. apply checked_add_Some in Ea as [-> _]. cbn [ok_or].
  intros (-> & HN & HD & -> & HA)%IH. cbn [map]. split_and!.
  - by rewrite <- app_assoc.
  - constructor; [|done]. intros Hin%HD. set_solver.
  - set_solver.
  - simpl. unfold utxo_value at 1. rewrite Es. fold (entry_value e). lia.
  - intros [|k] input Hk; simplify_eq/=.
    + rewrite Nat.add_0_r. exists e. done.
    + rewrite Nat.add_succ_r. by apply HA.
Qed.

Lemma apply_normal_spec tx h v s fee s' :
  apply_normal_transaction tx h v s = (Ok fee, s') ->
  0 <= fee /\ NoDup (spent_outpoints tx) /\
  (forall i input, inputs tx !! i = Some input -> input_authorised s tx h v i input) /\
  s' = insert_all (numbered (Transaction_txid tx) h false 0 (outputs tx))
         (remove_all (spent_outpoints tx) s) /\
  Forall (fun p => s !! p.1 = None) (numbered (Transaction_txid tx) h false 0 (outputs tx)) /\
  fee = spent_value s (spent_outpoints tx) - outputs_value (outputs tx).
Proof.
  unfold apply_normal_transaction.
  destruct (check_inputs s tx h v 0 (inputs tx) ∅ 0 []) as [[sum consumed]|] eqn:Ec; [|done].
  apply check_inputs_Ok in Ec as (-> & HN & _ & -> & HA).
  destruct (sum_outputs _ _) as [out|] eqn:Eo; [|done]. apply sum_outputs_Ok in Eo as ->.
  destruct (_ >? _) eqn:El; [done|].
  destruct (created_entries _ _ _ _ _ _) as [l|] eqn:Ecr; [|done].
  apply created_entries_Ok in Ecr as [-> HF]. intros [= <- <-].
  change (map TxInput_outpoint (inputs tx)) with (spent_outpoints tx) in *. split_and!; [lia|done|done|done|done|lia].
Qed.

Lemma input_authorised_Some s tx h v i input :
  input_authorised s tx h v i input -> is_Some (s !! TxInput_outpoint input).
Proof. intros (e & -> & _). eauto. Qed.

Lemma spent_present s tx h v :
  (forall i input, inputs tx !! i = Some input -> input_authorised s tx h v i input) ->
  Forall (fun o => is_Some (s !! o)) (spent_outpoints tx).
Proof.
  intros HA. apply Forall_forall. intros o (input & -> & Hin)%list_elem_of_fmap.
  apply list_elem_of_lookup in Hin as [i Hi]. by eapply input_authorised_Some, HA.
Qed.

(** Value is conserved: what leaves the outputs is the fee. *)
Lemma apply_normal_value tx h v s fee s' :
  apply_normal_transaction tx h v s = (Ok fee, s') -> total_value s' + fee = total_value s.
Proof.
  intros (_ & HN & HA & -> & HF & ->)%apply_normal_spec.
  rewrite total_insert_all; [|apply numbered_nodup|].
  - rewrite numbered_value, (total_remove_all (spent_outpoints tx) s); [lia|done|].
    by eapply spent_present.
  - eapply Forall_impl; [exact HF|]. intros [o e] Hn. simpl in *. rewrite remove_all_lookup.
    by case_bool_decide.
Qed.

Lemma insert_numbered_lookup id h cb outs s o e :
  insert_all (numbered id h cb 0 outs) s !! o = Some e ->
  s !! o = Some e \/ (txid o = id /\ creation_height e = h /\ is_coinbase e = cb).
Proof.
  rewrite insert_all_union by apply numbered_nodup. intros [Hl|[_ Hs]]%lookup_union_Some_raw; [|by left].
  right. apply elem_of_list_to_map_2, numbered_elem in Hl. naive_solver.
Qed.

(** Every entry after a transaction was there before or is one of its outputs. *)
Lemma apply_normal_origin tx h v s fee s' o e :
  apply_normal_transaction tx h v s = (Ok fee, s') -> s' !! o = Some e ->
  s !! o = Some e \/ txid o = Transaction_txid tx.
Proof.
  intros (_ & _ & _ & -> & _)%apply_normal_spec [Hs|[? _]]%insert_numbered_lookup; [|by right].
  rewrite remove_all_lookup in Hs. left. by case_bool_decide.
Qed.

Lemma apply_transactions_spec positions h v i txs fees s fees' s' :
  apply_transactions positions h v i txs fees s = Ok (fees', s') ->
  total_value s' + fees' = total_value s + fees /\ fees <= fees' /\
  (forall o e, s' !! o = Some e -> s !! o = Some e \/ txid o ∈ map Transaction_txid txs).
Proof.
  revert i fees s. induction txs as [|tx txs IH]; intros i fees s.
  { intros [= -> ->]. split_and!; [done|done|auto]. }
  cbn [apply_transactions]. destruct (existsb _ _); [done|].
  destruct (apply_normal_transaction tx h v s) as [[fee|] s1] eqn:Ea; [|done].
  destruct (checked_add _ _ _) eqn:Eadd; [|done]. apply checked_add_Some in Eadd as [-> _]. cbn [ok_or].
  intros (HV & HF & HO)%IH. pose proof (apply_normal_value _ _ _ _ _ _ Ea).
  pose proof Ea as (? & _)%apply_normal_spec. split_and!; [lia|lia|].
  intros o e [Hs1|Hin]%HO; [|set_solver]. apply (apply_normal_origin _ _ _ _ _ _ _ _ Ea) in Hs1 as [|]; set_solver.
Qed.

Definition block_txids (b : Block) : list Hash256 := map Transaction_txid (transactions b).

Lemma connect_block_spec b h p v s u s' :
  0 <= h -> connect_block b h p v s = (Ok u, s') ->
  h <> 0 /\ u = MkBlockUndo (spent_entries s s') (created_outpoints s s') /\
  total_value s' <= total_value s + subsidy_units h + founder_part h /\
  (forall o e, s' !! o = Some e -> s !! o = Some e \/ txid o ∈ block_txids b).
Proof.
  intros Hh. unfold connect_block, block_txids.
  destruct (validate_non_genesis_block_skeleton b h) as [[]|] eqn:Esk; [cbn [map_err]|done].
  destruct (transactions b) as [|cb txs] eqn:Et; [done|].
  destruct (tx_positions_from 1 txs ∅) as [pos|]; [|done].
  destruct (apply_transactions _ _ _ _ _ _ _) as [[fees s1]|] eqn:Ea; [|done].
  apply apply_transactions_spec in Ea as (HV & HF & HO).
  unfold Amount_from_base_units. destruct (_ >? _); [done|]. cbn [map_err].
  destruct (validate_coinbase _ _ _ _) as [[]|] eqn:Ecb; [cbn [map_err]|done].
  apply validate_coinbase_inv in Ecb as (Hh0 & _ & _ & _ & HC); [|done]. simpl in HC.
  unfold insert_coinbase_outputs.
  destruct (created_entries _ _ _ _ _ _) as [l|] eqn:Ecr; [|done].
  apply created_entries_Ok in Ecr as [-> Hfresh]. intros [= <- <-].
  split_and!; [done|done| |].
  - rewrite total_insert_all, numbered_value by (done || apply numbered_nodup). lia.
  - intros o e [Hs1|[? _]]%insert_numbered_lookup; [|set_solver]. apply HO in Hs1 as [|]; set_solver.
Qed.

End Facts.

(** ** Undo *)

(** Two states that agree wherever both have an entry. *)
Definition agree (s s' : UtxoState) : Prop :=
  forall o e e', s !! o = Some e -> s' !! o = Some e' -> e = e'.

Lemma spent_entries_elem s s' o e :
  (o, e) ∈ spent_entries s s' <-> s !! o = Some e /\ s' !! o = None.
Proof.
  unfold spent_entries. rewrite merge_sort_Permutation, list_elem_of_filter, elem_of_map_to_list. simpl. tauto.
Qed.

Lemma spent_entries_nodup s s' : NoDup (spent_entries s s').*1.
Proof.
  unfold spent_entries. rewrite merge_sort_Permutation.
  assert (NoDup (map_to_list s).*1) as HN by apply NoDup_fst_map_to_list.
  induction (map_to_list s) as [|[o e] l IH]; [constructor|]. cbn [fmap list_fmap] in HN.
  apply NoDup_cons in HN as [Ho HN]. rewrite filter_cons. case_decide; [|by apply IH].
  cbn [fmap list_fmap]. constructor; [|by apply IH].
  intros ([o' e'] & Eo & [_ Hin]%list_elem_of_filter)%list_elem_of_fmap. simpl in Eo. subst o'.
  apply Ho. by apply (list_elem_of_fmap_2 fst l (o, e')).
Qed.

Lemma created_outpoints_elem s s' o :
  o ∈ created_outpoints s s' <-> s !! o = None /\ is_Some (s' !! o).
Proof.
  unfold created_outpoints. rewrite merge_sort_Permutation, list_elem_of_filter, list_elem_of_fmap.
  split.
  - intros [Hs ([o' e] & -> & He%elem_of_map_to_list)]. eauto.
  - intros [Hs [e He]]. split; [done|]. exists (o, e). split; [done|]. by apply elem_of_map_to_list.
Qed.

Lemma created_outpoints_nodup s s' : NoDup (created_outpoints s s').
Proof.
  unfold created_outpoints. rewrite merge_sort_Permutation.
  apply NoDup_filter, NoDup_fst_map_to_list.
Qed.

Lemma check_created_ok s l seen :
  NoDup l -> (forall o, o ∈ l -> o ∉ seen) -> (forall o, o ∈ l -> is_Some (s !! o)) ->
  check_created s l seen = Ok (list_to_set l ∪ seen).
Proof.
  revert seen. induction l as [|o l IH]; intros seen HN HD HS; cbn [check_created].
  { f_equal. set_solver. }
  apply NoDup_cons in HN as [Ho HN]. rewrite bool_decide_false by set_solver.
  rewrite bool_decide_false; [|destruct (HS o) as [e ->]; set_solver]. simpl.
  rewrite IH; [|done|set_solver|set_solver]. f_equal. set_solver.
Qed.

Lemma check_spent_ok s sc l seen :
  NoDup l.*1 -> (forall p, p ∈ l -> (p.1 ∉ seen) /\ (p.1 ∉ sc) /\ s !! p.1 = None) ->
  check_spent s sc l seen = Ok tt.
Proof.
  revert seen. induction l as [|[o e] l IH]; intros seen HN HD; cbn [check_spent]; [done|].
  cbn [fmap list_fmap] in HN. apply NoDup_cons in HN as [Ho HN].
  destruct (HD (o, e)) as (H1 & H2 & H3); [set_solver|]. simpl in *.
  rewrite !bool_decide_false, bool_decide_true by done. simpl. apply IH; [done|].
  intros p Hp. destruct (HD p) as (? & ? & ?); [set_solver|]. split_and!; [|done|done].
  assert (p.1 <> o); [|set_solver]. intros <-. apply Ho. by apply list_elem_of_fmap_2.
Qed.

Lemma remove_checked_ok l s :
  NoDup l -> (forall o, o ∈ l -> is_Some (s !! o)) -> remove_checked l s = Ok (remove_all l s).
Proof.
  unfold remove_checked, remove_all. revert s. induction l as [|o l IH]; intros s HN HS; [done|]. simpl.
  apply NoDup_cons in HN as [Ho HN]. destruct (HS o) as [e ->]; [set_solver|].
  apply IH; [done|]. intros o' Ho'. rewrite lookup_delete_ne by set_solver. apply HS. set_solver.
Qed.

Lemma insert_checked_ok l s :
  NoDup l.*1 -> (forall p, p ∈ l -> s !! p.1 = None) -> insert_checked l s = Ok (insert_all l s).
Proof.
  unfold insert_checked, insert_all. revert s. induction l as [|[o e] l IH]; intros s HN HS; [done|].
  cbn [try_fold foldl]. cbn [fmap list_fmap] in HN. apply NoDup_cons in HN as [Ho HN].
  assert (s !! o = None) as -> by (apply (HS (o, e)); set_solver). apply IH; [done|]. intros p Hp. rewrite lookup_insert_ne.
  - apply HS. set_solver.
  - intros ->. apply Ho. apply (list_elem_of_fmap_2 fst l p). done.
Qed.

Lemma undo_lists_restore s s' :
  agree s s' -> insert_all (spent_entries s s') (remove_all (created_outpoints s s') s') = s.
Proof.
  intros HA. rewrite insert_all_union by apply spent_entries_nodup. apply map_eq. intros o.
  destruct (s !! o) as [e|] eqn:Es; destruct (s' !! o) as [e'|] eqn:Es'.
  - rewrite (HA _ _ _ Es Es'). rewrite lookup_union_r, remove_all_lookup.
    + rewrite bool_decide_false; [done|]. rewrite created_outpoints_elem. naive_solver.
    + apply not_elem_of_list_to_map_1. intros ([o1 e1] & Eo & Hin)%list_elem_of_fmap. simpl in Eo.
      subst o1. apply spent_entries_elem in Hin. naive_solver.
  - apply lookup_union_Some_l, elem_of_list_to_map_1; [apply spent_entries_nodup|].
    by apply spent_entries_elem.
  - rewrite lookup_union_r, remove_all_lookup.
    + rewrite bool_decide_true; [done|]. rewrite created_outpoints_elem. naive_solver.
    + apply not_elem_of_list_to_map_1. intros ([o1 e1] & Eo & Hin)%list_elem_of_fmap. simpl in Eo.
      subst o1. apply spent_entries_elem in Hin. naive_solver.
  - rewrite lookup_union_r, remove_all_lookup.
    + by case_bool_decide.
    + apply not_elem_of_list_to_map_1. intros ([o1 e1] & Eo & Hin)%list_elem_of_fmap. simpl in Eo.
      subst o1. apply spent_entries_elem in Hin. naive_solver.
Qed.

Lemma disconnect_restores s s' :
  agree s s' ->
  disconnect_block (MkBlockUndo (spent_entries s s') (created_outpoints s s')) s' = (Ok tt, s).
Proof.
  intros HA. unfold disconnect_block. cbn [spent created].
  rewrite check_created_ok; [|apply created_outpoints_nodup|set_solver|].
  2: { intros o Ho. by apply created_outpoints_elem in Ho as [_ ?]. }
  rewrite check_spent_ok; [|apply spent_entries_nodup|].
  2: { intros [o e] Hin. apply spent_entries_elem in Hin as [? ?]. split_and!; [set_solver| |done].
       simpl. rewrite (right_id_L ∅ (∪)), elem_of_list_to_set, created_outpoints_elem. naive_solver. }
  rewrite remove_checked_ok; [|apply created_outpoints_nodup|].
  2: { intros o Ho. by apply created_outpoints_elem in Ho as [_ ?]. }
  rewrite insert_checked_ok; [|apply spent_entries_nodup|].
  2: { intros [o e] Hin. apply spent_entries_elem in Hin as [? ?]. simpl. rewrite remove_all_lookup.
       by case_bool_decide. }
  by rewrite undo_lists_restore.
Qed.

(** ** Properties of the operations *)

Section UtxoProperties.
Context `{Blake3} {V : Type} `{!SpendVerifier V}.
Variable params : ConsensusParams.
Variable verifier : V.

(** Spending.  A transaction that is applied spends distinct, existing
    outputs, each authorised by the verifier and, if it came from a coinbase,
    at least 120 blocks old; afterwards exactly its inputs are gone and its
    outputs are there, and the value lost is the fee. *)
Theorem apply_normal_transaction_sound tx h s fee s' :
  apply_normal_transaction tx h verifier s = (Ok fee, s') ->
  0 <= fee /\ total_value s' + fee = total_value s /\ NoDup (spent_outpoints tx) /\
  (forall i input, inputs tx !! i = Some input ->
     exists e, s !! TxInput_outpoint input = Some e /\ verify_spend verifier tx i e = Ok tt /\
       (is_coinbase e = true -> creation_height e + COINBASE_MATURITY <= h)) /\
  (forall i o, outputs tx !! i = Some o ->
     s' !! MkOutPoint (Transaction_txid tx) (Z.of_nat i) = Some (MkUtxoEntry o h false)) /\
  (forall o, txid o <> Transaction_txid tx ->
     s' !! o = if bool_decide (o ∈ spent_outpoints tx) then None else s !! o).
Proof.
  intros HA. pose proof (apply_normal_value _ _ _ _ _ _ HA).
  apply apply_normal_spec in HA as (? & HN & HI & -> & HF & ->). split_and!; [done|done|done| | |].
  - intros i input Hi. destruct (HI i input Hi) as (e & He & Hm & Hv). exists e. split_and!; [done|done|].
    intros Hc. unfold is_spendable_at in Hm. rewrite Hc in Hm. cbn [negb] in Hm.
    destruct (checked_add _ _ _) eqn:Ea; [|done]. apply checked_add_Some in Ea as [-> _]. lia.
  - intros i o Hi. rewrite insert_all_union by apply numbered_nodup.
    apply lookup_union_Some_l, elem_of_list_to_map_1; [apply numbered_nodup|].
    by apply (numbered_lookup (Transaction_txid tx) h false 0).
  - intros o Ho. rewrite insert_all_union by apply numbered_nodup. rewrite lookup_union_r.
    + apply remove_all_lookup.
    + apply not_elem_of_list_to_map_1. intros (p & -> & Hp%numbered_elem)%list_elem_of_fmap. tauto.
Qed.

(** Failure is atomic.  A transaction, a block or an undo record that is
    refused leaves the state as it was. *)
Theorem failed_transitions_change_nothing s :
  (forall tx h e s', apply_normal_transaction tx h verifier s = (Err e, s') -> s' = s) /\
  (forall b h e s', connect_block b h params verifier s = (Err e, s') -> s' = s) /\
  (forall u e s', disconnect_block u s = (Err e, s') -> s' = s) /\
  (forall tx h e s', insert_coinbase_outputs tx h s = (Err e, s') -> s' = s).
Proof.
  split_and!.
  - intros tx h e s'. unfold apply_normal_transaction.
    destruct (check_inputs _ _ _ _ _ _ _ _ _) as [[? ?]|]; [|naive_solver].
    destruct (sum_outputs _ _); [|naive_solver]. destruct (_ >? _); [naive_solver|].
    destruct (created_entries _ _ _ _ _ _); naive_solver.
  - intros b h e s'. unfold connect_block. destruct (map_err _ _); [|naive_solver].
    destruct (transactions b); [naive_solver|]. destruct (tx_positions_from _ _ _); [|naive_solver].
    destruct (apply_transactions _ _ _ _ _ _ _) as [[? ?]|]; [|naive_solver].
    destruct (map_err _ (Amount_from_base_units _)); [|naive_solver].
    destruct (map_err _ (validate_coinbase _ _ _ _)); [|naive_solver].
    destruct (insert_coinbase_outputs _ _ _) as [[]]; naive_solver.
  - intros u e s'. unfold disconnect_block. destruct (check_created _ _ _); [|naive_solver].
    destruct (check_spent _ _ _ _); [|naive_solver]. destruct (remove_checked _ _); [|naive_solver].
    destruct (insert_checked _ _); naive_solver.
  - intros tx h e s'. unfold insert_coinbase_outputs. destruct (created_entries _ _ _ _ _ _); naive_solver.
Qed.

End UtxoProperties.

(** A verifier that accepts every spend, for examples. *)
Definition accept_all : SpendVerifier unit := fun _ _ _ _ => Ok tt.

(** A spend of a plain output with a fee of ten. *)
Definition demo_seed : OutPoint := MkOutPoint (arr_fill 32 x31) 0.
Definition demo_seeded : UtxoState := {[demo_seed := MkUtxoEntry (demo_output 100) 1 true]}.
Definition demo_spend : Transaction :=
  MkTransaction 1 [MkTxInput (arr_fill 32 x31) 0 0 []] [demo_output 90] 0.

Lemma apply_normal_transaction_sound_witness :
  exists s', apply_normal_transaction (H := demo_blake3) (SpendVerifier0 := accept_all)
               demo_spend 121 tt demo_seeded = (Ok 10, s') /\
    total_value s' + 10 = total_value demo_seeded.
Proof.
  exists ((apply_normal_transaction (H := demo_blake3) (SpendVerifier0 := accept_all)
               demo_spend 121 tt demo_seeded).2).
  assert (apply_normal_transaction (H := demo_blake3) (SpendVerifier0 := accept_all)
            demo_spend 121 tt demo_seeded
          = (Ok 10, (apply_normal_transaction (H := demo_blake3) (SpendVerifier0 := accept_all)
               demo_spend 121 tt demo_seeded).2)) as E.
  { enough ((apply_normal_transaction (H := demo_blake3) (SpendVerifier0 := accept_all)
               demo_spend 121 tt demo_seeded).1 = Ok 10) as Hf.
    { rewrite <- Hf. apply surjective_pairing. }
    vm_compute. reflexivity. }
  split; [exact E|].
  apply (apply_normal_transaction_sound (H := demo_blake3) (SpendVerifier0 := accept_all) tt _ _ _ _ _ E).
Defined.
