(* ===== verification/Ledger.v ===== *)
(** The unspent-output set along a chain of blocks: connecting a block whose
    outputs are new is undone by its undo record, and the value of the set
    never exceeds what the schedule has minted. *)
From S2P Require Import Prelude Encoding Transaction Block Difficulty Emission BlockRules Utxo.

Section Ledger.
Context `{Blake3} {V : Type} `{!SpendVerifier V}.
Variable params : ConsensusParams.
Variable verifier : V.

(** No output of a transaction of the block is in the state before it.  The
    identifier of a transaction hashes its inputs and, for a coinbase, its
    height, so a violation repeats an identifier. *)
Definition fresh_block (b : Block) (s : UtxoState) : Prop :=
  forall o, txid o ∈ block_txids b -> s !! o = None.

(** The states reached by connecting blocks with new outputs. *)
Inductive canonical : nat -> UtxoState -> list BlockUndo -> Prop :=
| canon_genesis : canonical 0 ∅ []
| canon_connect n s us b u s' :
    canonical n s us -> fresh_block b s ->
    connect_block b (Z.of_nat (S n)) params verifier s = (Ok u, s') ->
    canonical (S n) s' (u :: us).

Lemma connect_agree b n s u s' :
  fresh_block b s -> connect_block b (Z.of_nat (S n)) params verifier s = (Ok u, s') -> agree s s'.
Proof.
  intros HF HC. apply connect_block_spec in HC as (_ & _ & _ & HO); [|lia].
  intros o e e' Hs Hs'. apply HO in Hs' as [|Hin]; [congruence|]. apply HF in Hin. congruence.
Qed.

Lemma connect_disconnect b n s u s' :
  fresh_block b s -> connect_block b (Z.of_nat (S n)) params verifier s = (Ok u, s') ->
  disconnect_block u s' = (Ok tt, s).
Proof.
  intros HF HC. pose proof (connect_agree _ _ _ _ _ HF HC) as HA.
  apply connect_block_spec in HC as (_ & -> & _); [|lia]. by apply disconnect_restores.
Qed.

Definition minted (n : nat) : Z := issued n + (if (n =? 0)%nat then 0 else FOUNDER_ALLOCATION_BASE_UNITS).

Lemma minted_step n :
  minted (S n) = minted n + subsidy_units (Z.of_nat (S n)) + founder_part (Z.of_nat (S n)).
Proof.
  unfold minted, founder_part. cbn [issued].
  destruct n as [|n]; [done|]. destruct (Z.eqb_spec (Z.of_nat (S (S n))) 1); [lia|]. simpl. lia.
Qed.

Lemma minted_bound n : minted n <= SCHEDULED_TOTAL_WITH_FOUNDER_BASE_UNITS.
Proof.
  unfold minted, SCHEDULED_TOTAL_WITH_FOUNDER_BASE_UNITS. pose proof (issued_bound n).
  assert (0 < FOUNDER_ALLOCATION_BASE_UNITS) by done. case_match; lia.
Qed.

Lemma canonical_value n s us : canonical n s us -> total_value s <= minted n.
Proof.
  induction 1 as [|n s us b u s' _ IH HF HC]; [done|].
  apply connect_block_spec in HC as (_ & _ & HV & _); [|lia]. rewrite minted_step. lia.
Qed.

Lemma canonical_undo_length n s us : canonical n s us -> length us = n.
Proof. induction 1; simpl; congruence. Qed.

End Ledger.

(** ** A concrete chain of one block, with every spend accepted *)

Definition demo_block (height : Z) (txs : list Transaction) : Block :=
  let root := match transaction_root (H := demo_blake3) txs with Ok r => r | Err _ => NULL_TXID end in
  MkBlock (MkBlockHeader 1 (arr_fill 32 x11) root (1800000000 + height) (arr_fill 32 xff) 1) txs.

Definition demo_block_one : Block :=
  demo_block 1 [demo_coinbase 1 [founder_output demo_params; demo_output 237500000]].

Definition demo_connect : result UtxoError.t BlockUndo * UtxoState :=
  connect_block (H := demo_blake3) (SpendVerifier0 := accept_all) demo_block_one 1 demo_params tt ∅.

Definition unwrap_undo (r : result UtxoError.t BlockUndo) : BlockUndo :=
  match r with Ok u => u | Err _ => MkBlockUndo [] [] end.

Lemma unwrap_pair (p : result UtxoError.t BlockUndo * UtxoState) :
  is_ok p.1 = true -> p = (Ok (unwrap_undo p.1), p.2).
Proof. destruct p as [[u|e] s]; done. Qed.

Lemma demo_connect_ok : is_ok demo_connect.1 = true.
Proof. vm_compute. reflexivity. Qed.
