(* ===== verification/Reserve.v ===== *)
(** [oregon-utxo/reserve.rs]: the execution reserve, one unspent output that
    holds the value of all execution-layer balances, and its transitions. *)
From S2P Require Import Prelude Encoding Transaction Block Difficulty Emission BlockRules Utxo.

Definition RESERVE_TRANSITION_VERSION_V1 : Z := 1.

Record ReservePoolSnapshotV1 : Type := MkReservePoolSnapshotV1 {
  snapshot_outpoint : OutPoint;
  snapshot_amount : Z;
}.

Record ReserveTransitionV1Parts : Type := MkReserveTransitionV1Parts {
  chain_id : Z;
  parts_height : Z;
  parent_block_hash : Hash256;
  previous : option ReservePoolSnapshotV1;
  native_deposit_total : Z;
  execution_withdrawal_total : Z;
  execution_fee_total : Z;
  new_execution_balance_total : Z;
  producer_coinbase_txid : Hash256;
}.

Record ReserveTransitionV1 : Type := MkReserveTransitionV1 {
  parts : ReserveTransitionV1Parts;
  canonical_transition_bytes : list byte;
  transition_id : Hash256;
  new_reserve_amount : Z;
  new_reserve_outpoint : option OutPoint;
}.

Record ReserveUndoV1 : Type := MkReserveUndoV1 {
  undo_previous : option (OutPoint * UtxoEntry);
  undo_created : option (OutPoint * UtxoEntry);
}.

Module ReserveTransitionError.
Inductive t : Type :=
| ArithmeticOverflow
| ArithmeticUnderflow
| ExecutionBalanceMismatch (reserve_amount execution_balance : Z)
| InvalidPreviousSnapshot
| AmountOutOfRange
| PreviousReserveMismatch
| MultipleLiveReserves
| OutputCollision (o : OutPoint)
| UndoMismatch.
End ReserveTransitionError.

Definition previous_amount (p : ReserveTransitionV1Parts) : Z :=
  match previous p with Some s => snapshot_amount s | None => 0 end.

Definition encode_transition_parts (p : ReserveTransitionV1Parts) : list byte :=
  le_bytes 2 RESERVE_TRANSITION_VERSION_V1
    ++ le_bytes 8 (chain_id p)
    ++ le_bytes 8 (parts_height p)
    ++ arr_bytes (parent_block_hash p)
    ++ match previous p with
       | None => [x00]
       | Some s => x01 :: arr_bytes (txid (snapshot_outpoint s)) ++ le_bytes 4 (index (snapshot_outpoint s))
       end
    ++ le_bytes 8 (previous_amount p)
    ++ le_bytes 8 (native_deposit_total p)
    ++ le_bytes 8 (execution_withdrawal_total p)
    ++ le_bytes 8 (execution_fee_total p)
    ++ le_bytes 8 (new_execution_balance_total p)
    ++ arr_bytes (producer_coinbase_txid p).

Definition ReserveTransitionV1_new `{Blake3} (p : ReserveTransitionV1Parts)
  : result ReserveTransitionError.t ReserveTransitionV1 :=
  if match previous p with Some s => snapshot_amount s =? 0 | None => false end
  then Err ReserveTransitionError.InvalidPreviousSnapshot
  else
    let? after_deposit := ok_or (checked_add U64_MAX (previous_amount p) (native_deposit_total p))
                            ReserveTransitionError.ArithmeticOverflow in
    let? after_withdrawal := ok_or (checked_sub after_deposit (execution_withdrawal_total p))
                               ReserveTransitionError.ArithmeticUnderflow in
    let? amount := ok_or (checked_sub after_withdrawal (execution_fee_total p))
                     ReserveTransitionError.ArithmeticUnderflow in
    if negb (amount =? new_execution_balance_total p)
    then Err (ReserveTransitionError.ExecutionBalanceMismatch amount (new_execution_balance_total p))
    else
      let? _ := match previous p with
                | Some s => map_err (fun _ => ReserveTransitionError.AmountOutOfRange)
                              (Amount_from_base_units (snapshot_amount s))
                | None => Ok (MkAmount 0)
                end in
      let? _ := map_err (fun _ => ReserveTransitionError.AmountOutOfRange)
                  (Amount_from_base_units amount) in
      let bytes := encode_transition_parts p in
      let id := reserve_transition_id bytes in
      let outpoint := if negb (amount =? 0) then Some (MkOutPoint (reserve_outpoint_txid id) 0) else None in
      Ok (MkReserveTransitionV1 p bytes id amount outpoint).

Definition is_reserve (e : UtxoEntry) : Prop :=
  locking_program (output e) = EXECUTION_RESERVE_LOCKING_PROGRAM_V1.

#[global] Instance is_reserve_dec e : Decision (is_reserve e).
Proof. unfold is_reserve. apply _. Defined.

Definition live_reserves (s : UtxoState) : list (OutPoint * UtxoEntry) :=
  filter (fun p => is_reserve p.2) (map_to_list s).

(** The live reserve the transition says it replaces. *)
Definition select_previous (live : list (OutPoint * UtxoEntry)) (prev : option ReservePoolSnapshotV1)
  : result ReserveTransitionError.t (option (OutPoint * UtxoEntry)) :=
  match prev with
  | None => if negb (length live =? 0)%nat then Err ReserveTransitionError.PreviousReserveMismatch
            else Ok None
  | Some expected =>
      match live with
      | [] => Err ReserveTransitionError.PreviousReserveMismatch
      | (outpoint, entry) :: _ =>
          if negb (bool_decide (outpoint = snapshot_outpoint expected))
             || negb (base_units (value (output entry)) =? snapshot_amount expected)
             || negb (bool_decide (is_reserve entry))
          then Err ReserveTransitionError.PreviousReserveMismatch
          else Ok (Some (outpoint, entry))
      end
  end.

(** The reserve output the transition creates. *)
Definition build_created (t : ReserveTransitionV1) (s : UtxoState)
  : result ReserveTransitionError.t (option (OutPoint * UtxoEntry)) :=
  match new_reserve_outpoint t with
  | None => Ok None
  | Some outpoint =>
      match s !! outpoint with
      | Some _ => Err (ReserveTransitionError.OutputCollision outpoint)
      | None =>
          let? amount := map_err (fun _ => ReserveTransitionError.AmountOutOfRange)
                           (Amount_from_base_units (new_reserve_amount t)) in
          Ok (Some (outpoint, MkUtxoEntry (MkTxOutput amount EXECUTION_RESERVE_LOCKING_PROGRAM_V1)
                                (parts_height (parts t)) false))
      end
  end.

(** [reserve_remove_entry] must return the expected entry, and
    [reserve_insert_entry] must not replace one. *)
Definition remove_expected (r : option (OutPoint * UtxoEntry)) (err : ReserveTransitionError.t)
  (s : UtxoState) : result ReserveTransitionError.t UtxoState :=
  match r with
  | None => Ok s
  | Some (outpoint, entry) =>
      if negb (bool_decide (s !! outpoint = Some entry)) then Err err else Ok (delete outpoint s)
  end.

Definition insert_new (r : option (OutPoint * UtxoEntry)) (err : OutPoint -> ReserveTransitionError.t)
  (s : UtxoState) : result ReserveTransitionError.t UtxoState :=
  match r with
  | None => Ok s
  | Some (outpoint, entry) =>
      match s !! outpoint with
      | Some _ => Err (err outpoint)
      | None => Ok (<[outpoint := entry]> s)
      end
  end.

Definition apply_reserve_transition_v1 (t : ReserveTransitionV1)
  : eff UtxoState ReserveTransitionError.t ReserveUndoV1 := fun s =>
  let live := live_reserves s in
  match
    (if (1 <? length live)%nat then Err ReserveTransitionError.MultipleLiveReserves
     else
       let? prev := select_previous live (previous (parts t)) in
       let? created := build_created t s in
       let? overlay := remove_expected prev ReserveTransitionError.PreviousReserveMismatch s in
       let? overlay := insert_new created ReserveTransitionError.OutputCollision overlay in
       Ok (MkReserveUndoV1 prev created, overlay))
  with
  | Err e => (Err e, s)
  | Ok (undo, overlay) => (Ok undo, overlay)
  end.

Definition undo_reserve_transition_v1 (undo : ReserveUndoV1)
  : eff UtxoState ReserveTransitionError.t unit := fun s =>
  let live := live_reserves s in
  match
    (let? _ :=
       match undo_created undo with
       | Some (outpoint, entry) =>
           match live with
           | [(o, e)] =>
               if negb (bool_decide (o = outpoint)) || negb (bool_decide (e = entry))
                  || negb (bool_decide (s !! outpoint = Some entry))
               then Err ReserveTransitionError.UndoMismatch
               else Ok tt
           | _ => Err ReserveTransitionError.UndoMismatch
           end
       | None => if negb (length live =? 0)%nat then Err ReserveTransitionError.UndoMismatch else Ok tt
       end in
     let? _ :=
       match undo_previous undo with
       | Some (outpoint, _) => if negb (bool_decide (s !! outpoint = None))
                               then Err ReserveTransitionError.UndoMismatch else Ok tt
       | None => Ok tt
       end in
     let? overlay := remove_expected (undo_created undo) ReserveTransitionError.UndoMismatch s in
     insert_new (undo_previous undo) (fun _ => ReserveTransitionError.UndoMismatch) overlay)
  with
  | Err e => (Err e, s)
  | Ok overlay => (Ok tt, overlay)
  end.

Definition validate_against (t : ReserveTransitionV1) (s : UtxoState)
  : result ReserveTransitionError.t unit :=
  match apply_reserve_transition_v1 t s with
  | (Err e, _) => Err e
  | (Ok undo, preview) =>
      match undo_reserve_transition_v1 undo preview with
      | (Err e, _) => Err e
      | (Ok _, preview) =>
          if negb (bool_decide (preview = s)) then Err ReserveTransitionError.UndoMismatch else Ok tt
      end
  end.

(** ** Facts *)

Lemma live_insert s o e :
  s !! o = None -> is_reserve e -> live_reserves (<[o := e]> s) ≡ₚ (o, e) :: live_reserves s.
Proof.
  intros Hs He. unfold live_reserves. rewrite map_to_list_insert by done.
  by rewrite filter_cons_True.
Qed.

Lemma live_delete s o e :
  s !! o = Some e -> is_reserve e -> live_reserves s ≡ₚ (o, e) :: live_reserves (delete o s).
Proof.
  intros Hs He. rewrite <- (live_insert (delete o s) o e) by (done || apply lookup_delete_eq).
  by rewrite insert_delete_id.
Qed.

Lemma live_lookup s o e : (o, e) ∈ live_reserves s <-> s !! o = Some e /\ is_reserve e.
Proof. unfold live_reserves. rewrite list_elem_of_filter, elem_of_map_to_list. simpl. tauto. Qed.

(** The shape of a state with at most one reserve, seen from an undo record. *)
Definition reserve_shape (s : UtxoState) (r : option (OutPoint * UtxoEntry)) : Prop :=
  match r with
  | None => live_reserves s = []
  | Some (o, e) => live_reserves s = [(o, e)] /\ s !! o = Some e /\ is_reserve e
  end.

Definition take_out (s : UtxoState) (r : option (OutPoint * UtxoEntry)) : UtxoState :=
  match r with None => s | Some (o, _) => delete o s end.
Definition put_in (s : UtxoState) (r : option (OutPoint * UtxoEntry)) : UtxoState :=
  match r with None => s | Some (o, e) => <[o := e]> s end.
Definition absent (s : UtxoState) (r : option (OutPoint * UtxoEntry)) : Prop :=
  match r with None => True | Some (o, _) => s !! o = None end.
Definition shape_value (r : option (OutPoint * UtxoEntry)) : Z :=
  match r with None => 0 | Some (_, e) => entry_value e end.

Lemma shape_take_out s r : reserve_shape s r -> live_reserves (take_out s r) = [].
Proof.
  destruct r as [[o e]|]; simpl; [|done]. intros (HL & Hs & He).
  pose proof (live_delete s o e Hs He) as HP. rewrite HL in HP.
  apply Permutation_cons_inv in HP. symmetry in HP. by apply Permutation_nil_r in HP.
Qed.

Lemma shape_put_in s r :
  live_reserves s = [] -> absent s r -> (match r with Some (_, e) => is_reserve e | None => True end) ->
  reserve_shape (put_in s r) r.
Proof.
  destruct r as [[o e]|]; simpl; [|done]. intros HL Hs He. split_and!; [|apply lookup_insert_eq|done].
  pose proof (live_insert s o e Hs He) as HP. rewrite HL in HP. symmetry in HP.
  by apply Permutation_singleton_l in HP.
Qed.

Lemma absent_take_out s p c : absent s c -> absent (take_out s p) c.
Proof.
  destruct c as [[o e]|]; [|done]. destruct p as [[o' e']|]; [|done]. simpl. intros Hs.
  destruct (decide (o' = o)) as [->|]; [apply lookup_delete_eq|by rewrite lookup_delete_ne].
Qed.

(** The previous reserve named by a snapshot, as the code selects it. *)
Lemma select_previous_shape s expected prev :
  (length (live_reserves s) <= 1)%nat -> select_previous (live_reserves s) expected = Ok prev ->
  reserve_shape s prev /\
  match expected with
  | None => prev = None
  | Some x => exists e, prev = Some (snapshot_outpoint x, e) /\ entry_value e = snapshot_amount x
  end.
Proof.
  unfold select_previous.
  intros HL. destruct expected as [x|].
  - destruct (live_reserves s) as [|[o e] [|]] eqn:El; simpl in HL; [done| |lia].
    case_bool_decide as Ho; [|done]. destruct (Z.eqb_spec (base_units (value (output e))) (snapshot_amount x)); [|done].
    case_bool_decide as Hr; [|done]. simpl. intros [= <-]. subst o. split; [|by eauto].
    split_and!; [done| |done]. apply (live_lookup s). rewrite El. set_solver.
  - destruct (live_reserves s) eqn:El; [|done]. simpl. by intros [= <-].
Qed.

Lemma build_created_shape t s cr :
  build_created t s = Ok cr ->
  absent s cr /\ (match cr with Some (_, e) => is_reserve e | None => True end) /\
  match new_reserve_outpoint t with
  | None => cr = None
  | Some o => exists e, cr = Some (o, e) /\ entry_value e = new_reserve_amount t
  end.
Proof.
  unfold build_created. intros Ec. destruct (new_reserve_outpoint t) as [o|]; [|by injection Ec as <-].
  destruct (s !! o) eqn:Eo; [done|]. unfold Amount_from_base_units in Ec.
  destruct (_ >? _); [done|]. injection Ec as <-. simpl. split_and!; [done|done|eauto].
Qed.

Lemma remove_expected_ok s r err : reserve_shape s r -> remove_expected r err s = Ok (take_out s r).
Proof.
  unfold remove_expected. destruct r as [[o e]|]; [|done]. intros (_ & Hs & _).
  by rewrite bool_decide_true.
Qed.

Lemma insert_new_ok s r err : absent s r -> insert_new r err s = Ok (put_in s r).
Proof. unfold insert_new. destruct r as [[o e]|]; [|done]. simpl. by intros ->. Qed.

Lemma apply_reserve_spec t s u s' :
  apply_reserve_transition_v1 t s = (Ok u, s') ->
  reserve_shape s (undo_previous u) /\
  absent s (undo_created u) /\
  s' = put_in (take_out s (undo_previous u)) (undo_created u) /\
  reserve_shape s' (undo_created u) /\
  match previous (parts t) with
  | None => undo_previous u = None
  | Some x => exists e, undo_previous u = Some (snapshot_outpoint x, e) /\ entry_value e = snapshot_amount x
  end /\
  match new_reserve_outpoint t with
  | None => undo_created u = None
  | Some o => exists e, undo_created u = Some (o, e) /\ entry_value e = new_reserve_amount t
  end.
Proof.
  unfold apply_reserve_transition_v1. cbv zeta.
  destruct (Nat.ltb_spec 1 (length (live_reserves s))) as [|HL]; [done|].
  destruct (select_previous _ _) as [prev|] eqn:Ep; [|done].
  apply select_previous_shape in Ep as [HS HP]; [|done].
  destruct (build_created t s) as [cr|] eqn:Ec; [|done].
  apply build_created_shape in Ec as (HA & HR & HC).
  rewrite remove_expected_ok by done. rewrite insert_new_ok by (by apply absent_take_out).
  intros [= <- <-]. cbn [undo_previous undo_created]. split_and!; try done.
  apply shape_put_in; [by apply shape_take_out|by apply absent_take_out|done].
Qed.

Lemma take_out_put_in s c : absent s c -> take_out (put_in s c) c = s.
Proof. destruct c as [[o e]|]; [|done]. simpl. intros. by apply delete_insert_id. Qed.

Lemma put_in_take_out s p : reserve_shape s p -> put_in (take_out s p) p = s.
Proof. destruct p as [[o e]|]; [|done]. simpl. intros (_ & Hs & _). by apply insert_delete_id. Qed.

Lemma undo_reserve_ok s prev cr :
  reserve_shape s cr -> absent s prev ->
  undo_reserve_transition_v1 (MkReserveUndoV1 prev cr) s = (Ok tt, put_in (take_out s cr) prev).
Proof.
  intros HS HA. unfold undo_reserve_transition_v1. cbn [undo_previous undo_created]. cbv zeta.
  rewrite remove_expected_ok by done. rewrite insert_new_ok by (by apply absent_take_out).
  destruct cr as [[o e]|]; [destruct HS as (-> & Hs & _)|rewrite HS; cbn [length Nat.eqb negb]];
    rewrite ?(bool_decide_true (o = o)), ?(bool_decide_true (e = e)), ?(bool_decide_true (s !! o = Some e)) by done;
    cbn [negb orb]; (destruct prev as [[o' e']|]; [|done]); simpl in HA; by rewrite bool_decide_true.
Qed.

Lemma apply_undo_reserve t s u s' :
  apply_reserve_transition_v1 t s = (Ok u, s') -> undo_reserve_transition_v1 u s' = (Ok tt, s).
Proof.
  intros (HS & HA & -> & HS' & _)%apply_reserve_spec. destruct u as [prev cr]; simpl in *.
  assert (absent (put_in (take_out s prev) cr) prev) as HP.
  { destruct prev as [[o e]|]; [|done]. destruct cr as [[o' e']|]; simpl in *; [|apply lookup_delete_eq].
    destruct HS as (_ & Hs & _). rewrite lookup_insert_ne by congruence. apply lookup_delete_eq. }
  rewrite undo_reserve_ok by done.
  rewrite take_out_put_in by (by apply absent_take_out). by rewrite put_in_take_out.
Qed.

Lemma total_put_in s c : absent s c -> total_value (put_in s c) = total_value s + shape_value c.
Proof. destruct c as [[o e]|]; simpl; [|lia]. intros Hs. rewrite total_value_insert by done. lia. Qed.

Lemma total_take_out s p : reserve_shape s p -> total_value s = total_value (take_out s p) + shape_value p.
Proof.
  destruct p as [[o e]|]; simpl; [|lia]. intros (_ & Hs & _).
  rewrite (total_value_delete s o) by eauto. unfold utxo_value. rewrite Hs. lia.
Qed.

(** The field ranges of the machine types. *)
Definition parts_in_range (p : ReserveTransitionV1Parts) : Prop :=
  in_u64 (chain_id p) /\ in_u64 (parts_height p) /\ in_u64 (native_deposit_total p) /\
  in_u64 (execution_withdrawal_total p) /\ in_u64 (execution_fee_total p) /\
  in_u64 (new_execution_balance_total p) /\
  match previous p with
  | None => True
  | Some x => in_u64 (snapshot_amount x) /\ in_u32 (index (snapshot_outpoint x))
  end.

(** The balance equation of a legal transition. *)
Definition transition_legal (p : ReserveTransitionV1Parts) : Prop :=
  match previous p with None => True | Some x => snapshot_amount x <> 0 end /\
  previous_amount p + native_deposit_total p <= U64_MAX /\
  previous_amount p + native_deposit_total p
    = execution_withdrawal_total p + execution_fee_total p + new_execution_balance_total p /\
  previous_amount p <= MAX_SUPPLY_BASE_UNITS /\ new_execution_balance_total p <= MAX_SUPPLY_BASE_UNITS.

Section Transition.
Context `{Blake3}.

Definition transition_of (p : ReserveTransitionV1Parts) : ReserveTransitionV1 :=
  MkReserveTransitionV1 p (encode_transition_parts p) (reserve_transition_id (encode_transition_parts p))
    (new_execution_balance_total p)
    (if negb (new_execution_balance_total p =? 0)
     then Some (MkOutPoint (reserve_outpoint_txid (reserve_transition_id (encode_transition_parts p))) 0)
     else None).

Lemma new_Ok_inv p t :
  parts_in_range p -> ReserveTransitionV1_new p = Ok t -> transition_legal p /\ t = transition_of p.
Proof.
  intros (_ & _ & Hd & Hw & Hf & Hn & Hp). unfold ReserveTransitionV1_new, transition_legal.
  match goal with |- context [if ?b then _ else _] => destruct b eqn:Ez end; [done|].
  destruct (checked_add _ _ _) eqn:E1; [|done]. apply checked_add_Some in E1 as [-> H1]. cbn [ok_or].
  destruct (checked_sub _ _) eqn:E2; [|done]. apply checked_sub_Some in E2 as [-> H2]. cbn [ok_or].
  destruct (checked_sub _ _) eqn:E3; [|done]. apply checked_sub_Some in E3 as [-> H3]. cbn [ok_or].
  destruct (Z.eqb_spec (previous_amount p + native_deposit_total p - execution_withdrawal_total p
    - execution_fee_total p) (new_execution_balance_total p)) as [Eb|]; [cbn [negb]|done].
  unfold Amount_from_base_units. rewrite Eb. unfold previous_amount in *.
  destruct (previous p) as [x|].
  - destruct (snapshot_amount x >? MAX_SUPPLY_BASE_UNITS) eqn:E5; [done|]. cbn [map_err].
    destruct (new_execution_balance_total p >? MAX_SUPPLY_BASE_UNITS) eqn:E6; [done|]. cbn [map_err]. intros Et; injection Et as <-.
    split; [split_and!; lia|done].
  - destruct (new_execution_balance_total p >? MAX_SUPPLY_BASE_UNITS) eqn:E6; [done|]. cbn [map_err]. intros Et; injection Et as <-.
    split; [split_and!; try lia; done|done].
Qed.

Lemma new_legal_Ok p :
  parts_in_range p -> transition_legal p -> ReserveTransitionV1_new p = Ok (transition_of p).
Proof.
  intros (_ & _ & Hd & Hw & Hf & Hn & Hp) (Hz & H1 & H2 & H3 & H4).
  unfold ReserveTransitionV1_new. unfold_ints.
  assert (match previous p with Some s => snapshot_amount s =? 0 | None => false end = false) as ->.
  { destruct (previous p) as [x|]; [|done]. by apply Z.eqb_neq. }
  assert (checked_add (2 ^ 64 - 1) (previous_amount p) (native_deposit_total p)
    = Some (previous_amount p + native_deposit_total p)) as -> by (apply checked_add_Some; lia). cbn [ok_or].
  assert (checked_sub (previous_amount p + native_deposit_total p) (execution_withdrawal_total p)
    = Some (execution_fee_total p + new_execution_balance_total p)) as -> by (apply checked_sub_Some; lia).
  cbn [ok_or].
  assert (checked_sub (execution_fee_total p + new_execution_balance_total p) (execution_fee_total p)
    = Some (new_execution_balance_total p)) as -> by (apply checked_sub_Some; lia). cbn [ok_or].
  rewrite Z.eqb_refl. cbn [negb]. unfold Amount_from_base_units, previous_amount in *.
  destruct (new_execution_balance_total p >? MAX_SUPPLY_BASE_UNITS) eqn:E6; [lia|].
  destruct (previous p) as [x|]; [|done].
  destruct (snapshot_amount x >? MAX_SUPPLY_BASE_UNITS) eqn:E5; [lia|]. done.
Qed.

(** Building a reserve transition.  For machine-sized inputs it succeeds
    exactly when a named previous reserve is not empty, the sums do not
    overflow, previous reserve plus deposits equals withdrawals plus fees plus
    the new execution balance, and both reserves are within the supply; the
    result is then the transition of those parts. *)
Theorem reserve_transition_new_spec p t :
  parts_in_range p ->
  ReserveTransitionV1_new p = Ok t <-> transition_legal p /\ t = transition_of p.
Proof. intros HR. split; [by apply new_Ok_inv|]. intros [HL ->]. by apply new_legal_Ok. Qed.

(** The reserve output a transition creates. *)
Definition created_reserve (p : ReserveTransitionV1Parts) : option (OutPoint * UtxoEntry) :=
  if new_execution_balance_total p =? 0 then None
  else Some (MkOutPoint (reserve_outpoint_txid (reserve_transition_id (encode_transition_parts p))) 0,
             MkUtxoEntry (MkTxOutput (MkAmount (new_execution_balance_total p)) EXECUTION_RESERVE_LOCKING_PROGRAM_V1)
               (parts_height p) false).

(** The live reserve was the one named as previous, under its outpoint and with
    its amount, or there was none; only it left and only the new one came. *)
Definition reserve_replaced (p : ReserveTransitionV1Parts) (s s' : UtxoState) : Prop :=
  absent s (created_reserve p) /\
  match previous p with
  | None => live_reserves s = [] /\ s' = put_in s (created_reserve p)
  | Some x => exists e, live_reserves s = [(snapshot_outpoint x, e)] /\ entry_value e = snapshot_amount x /\
                        s' = put_in (delete (snapshot_outpoint x) s) (created_reserve p)
  end.

Lemma apply_creates p s u s' :
  apply_reserve_transition_v1 (transition_of p) s = (Ok u, s') -> undo_created u = created_reserve p.
Proof.
  unfold apply_reserve_transition_v1, created_reserve. cbv zeta. destruct (_ <? _)%nat; [done|].
  destruct (select_previous _ _) as [prev|]; [|done]. destruct (build_created _ s) as [cr|] eqn:Ec; [|done].
  destruct (remove_expected _ _ _); [|done]. destruct (insert_new _ _ _); [|done]. intros [= <- _]. cbn [undo_created].
  unfold build_created, transition_of in Ec. cbn [new_reserve_outpoint new_reserve_amount parts] in Ec.
  destruct (_ =? 0); cbn [negb] in Ec; [by injection Ec|]. destruct (s !! _); [done|]. unfold Amount_from_base_units in Ec.
  destruct (_ >? _); [done|]. by injection Ec.
Qed.

(** C40: applying a reserve transition.  It is applied only when the one live
    reserve is the output named as previous, under its outpoint and with its
    amount, or none is named and none is live.  This reserve, and nothing else,
    is replaced by one output holding the new execution balance (none if it is
    zero): the value of the unspent outputs grows by deposits less withdrawals
    less fees, at most one reserve is live afterwards, and the recorded undo
    restores the state exactly. *)
Theorem reserve_transition_sound p t s u s' :
  parts_in_range p -> ReserveTransitionV1_new p = Ok t ->
  apply_reserve_transition_v1 t s = (Ok u, s') ->
  reserve_replaced p s s' /\
  total_value s' = total_value s + native_deposit_total p - execution_withdrawal_total p
                     - execution_fee_total p /\
  (length (live_reserves s') <= 1)%nat /\
  list_value (live_reserves s') = new_execution_balance_total p /\
  undo_reserve_transition_v1 u s' = (Ok tt, s).
Proof.
  intros HR HN HA. pose proof (apply_undo_reserve _ _ _ _ HA) as HU.
  apply new_Ok_inv in HN as [(_ & _ & HB & _) ->]; [|done]. pose proof (apply_creates _ _ _ _ HA) as HCr.
  apply apply_reserve_spec in HA as (HS & Hab & Hs' & HS' & HP & HC). simpl in HP, HC.
  assert (reserve_replaced p s s') as HRR.
  { unfold reserve_replaced. rewrite HCr in Hab, Hs'. split; [done|]. destruct (previous p) as [x|].
    - destruct HP as (e & HP & He). rewrite HP in HS, Hs'. exists e. by destruct HS as (? & _).
    - by rewrite HP in HS, Hs'. }
  assert (shape_value (undo_previous u) = previous_amount p) as HVp.
  { unfold previous_amount. destruct (previous p) as [x|]; [destruct HP as (e & -> & <-)|rewrite HP]; done. }
  assert (shape_value (undo_created u) = new_execution_balance_total p) as HVc.
  { destruct (Z.eqb_spec (new_execution_balance_total p) 0) as [E0|]; simpl in HC.
    - by rewrite HC, E0.
    - destruct HC as (e & -> & <-). done. }
  assert (total_value s' = total_value (take_out s (undo_previous u)) + shape_value (undo_created u)) as HT.
  { rewrite Hs'. apply total_put_in, absent_take_out, Hab. }
  pose proof (total_take_out _ _ HS). split_and!; [exact HRR|lia| | |done].
  - destruct (undo_created u) as [[o e]|]; simpl in HS'; [destruct HS' as (-> & _)|rewrite HS']; simpl; lia.
  - rewrite <- HVc. destruct (undo_created u) as [[o e]|]; simpl in HS'; [destruct HS' as (-> & _)|by rewrite HS'].
    simpl. lia.
Qed.

(** Previewing a transition.  [validate_against] agrees with applying it:
    its final comparison with the original state never fails. *)
Theorem validate_against_spec t s :
  validate_against t s
  = match (apply_reserve_transition_v1 t s).1 with Ok _ => Ok tt | Err e => Err e end.
Proof.
  unfold validate_against. destruct (apply_reserve_transition_v1 t s) as [[u|e] s'] eqn:Ea; [|done]. simpl.
  rewrite (apply_undo_reserve _ _ _ _ Ea). by rewrite bool_decide_true.
Qed.

End Transition.

(** Distinct parts have distinct canonical bytes, so a transition identifier
    commits to all of its parts. *)
Lemma le8_inj a b : in_u64 a -> in_u64 b -> le_bytes 8 a = le_bytes 8 b -> a = b.
Proof. intros. eapply (le_bytes_inj 8); [unfold_ints; lia..|done]. Qed.

Lemma list_cons_tail {A} (x y : A) l k : x :: l = y :: k -> l = k.
Proof. congruence. Qed.

Ltac split_bytes H :=
  let H1 := fresh "E" in
  apply app_inj_1 in H as [H1 H]; [|by rewrite ?length_le_bytes, ?arr_length].

Lemma encode_transition_parts_inj p q :
  parts_in_range p -> parts_in_range q -> encode_transition_parts p = encode_transition_parts q -> p = q.
Proof.
  intros Rp Rq E. destruct p as [c1 h1 b1 pr1 d1 w1 f1 n1 t1], q as [c2 h2 b2 pr2 d2 w2 f2 n2 t2].
  unfold encode_transition_parts, parts_in_range, previous_amount in *. simpl in *.
  destruct Rp as (? & ? & ? & ? & ? & ? & Rp), Rq as (? & ? & ? & ? & ? & ? & Rq).
  split_bytes E. split_bytes E. split_bytes E. split_bytes E.
  apply le8_inj in E1, E2; [|done..]. apply arr_eq in E3. subst.
  destruct pr1 as [[[t1' i1] a1]|], pr2 as [[[t2' i2] a2]|]; simpl in *; try discriminate;
    apply list_cons_tail in E.
  - rewrite <- !app_assoc in E. destruct Rp, Rq.
    do 7 split_bytes E. apply arr_eq in E1, E. apply le8_inj in E3, E4, E5, E6, E7; [|done..].
    apply (le_bytes_inj 4) in E2; [|unfold_ints; lia..]. by subst.
  - do 5 split_bytes E. apply arr_eq in E.
    apply le8_inj in E2, E3, E4, E5; [|done..]. by subst.
Qed.

(** ** A first deposit into an empty reserve *)

Definition demo_parts : ReserveTransitionV1Parts :=
  MkReserveTransitionV1Parts 7 100 (arr_fill 32 x10) None 100 0 0 100 (arr_fill 32 x20).

Definition demo_transition : ReserveTransitionV1 := transition_of (H := demo_blake3) demo_parts.

Lemma demo_parts_in_range : parts_in_range demo_parts.
Proof. unfold parts_in_range; simpl; unfold_ints; lia. Qed.

Lemma reserve_transition_new_spec_witness :
  ReserveTransitionV1_new (H := demo_blake3) demo_parts = Ok demo_transition /\ transition_legal demo_parts.
Proof.
  assert (ReserveTransitionV1_new (H := demo_blake3) demo_parts = Ok demo_transition) as E
    by (vm_compute; reflexivity).
  split; [exact E|].
  apply (reserve_transition_new_spec (H := demo_blake3) demo_parts demo_transition demo_parts_in_range), E.
Defined.

Lemma reserve_transition_sound_witness :
  total_value (apply_reserve_transition_v1 demo_transition ∅).2 = 100 /\
  exists u, (apply_reserve_transition_v1 demo_transition ∅).1 = Ok u /\
    undo_reserve_transition_v1 u (apply_reserve_transition_v1 demo_transition ∅).2 = (Ok tt, ∅).
Proof.
  split; [vm_compute; reflexivity|].
  destruct (apply_reserve_transition_v1 demo_transition ∅) as [[u|e] s'] eqn:Ea.
  - exists u. split; [reflexivity|].
    apply (reserve_transition_sound (H := demo_blake3) demo_parts demo_transition ∅ u s').
    + apply demo_parts_in_range.
    + vm_compute; reflexivity.
    + exact Ea.
  - exfalso. assert (is_ok (apply_reserve_transition_v1 demo_transition ∅).1 = true) as Hok
      by (vm_compute; reflexivity). rewrite Ea in Hok. discriminate Hok.
Defined.
