(* ===== verification/ReserveModel.v ===== *)
(** The bounded model of the reserve that the repository checks with Kani,
    [verification/reserve-conservation/src/model.rs], and its agreement with
    the production code of Reserve.v. *)
From S2P Require Import Prelude Encoding Transaction Difficulty BlockRules Utxo Ledger Reserve.

Record ArithmeticInput : Type := MkArithmeticInput {
  ai_previous : option Z;
  ai_native_deposit_total : Z;
  ai_execution_withdrawal_total : Z;
  ai_execution_fee_total : Z;
  ai_new_execution_balance_total : Z;
}.

Module ArithmeticError.
Inductive t : Type :=
| ArithmeticOverflow
| ArithmeticUnderflow
| ExecutionBalanceMismatch
| InvalidPreviousSnapshot
| AmountOutOfRange.
End ArithmeticError.

Definition construct_arithmetic (input : ArithmeticInput) : result ArithmeticError.t Z :=
  if bool_decide (ai_previous input = Some 0) then Err ArithmeticError.InvalidPreviousSnapshot
  else
    let? after_deposit := ok_or (checked_add U64_MAX (default 0 (ai_previous input)) (ai_native_deposit_total input))
                            ArithmeticError.ArithmeticOverflow in
    let? after_withdrawal := ok_or (checked_sub after_deposit (ai_execution_withdrawal_total input))
                               ArithmeticError.ArithmeticUnderflow in
    let? amount := ok_or (checked_sub after_withdrawal (ai_execution_fee_total input))
                     ArithmeticError.ArithmeticUnderflow in
    if negb (amount =? ai_new_execution_balance_total input) then Err ArithmeticError.ExecutionBalanceMismatch
    else if match ai_previous input with Some previous => previous >? MAX_SUPPLY_BASE_UNITS | None => false end
            || (amount >? MAX_SUPPLY_BASE_UNITS)
    then Err ArithmeticError.AmountOutOfRange
    else Ok amount.

Inductive ProgramClass : Type := ReserveProgram | OrdinaryProgram.

Record ModelEntry : Type := MkModelEntry {
  entry_amount : Z;
  entry_creation_height : Z;
  entry_is_coinbase : bool;
  entry_program : ProgramClass;
}.

Record ModelSlot : Type := MkModelSlot { slot_key : Z; slot_entry : ModelEntry }.

#[global] Instance ProgramClass_eq_dec : EqDecision ProgramClass.
Proof. solve_decision. Defined.
#[global] Instance ModelEntry_eq_dec : EqDecision ModelEntry.
Proof. solve_decision. Defined.
#[global] Instance ModelSlot_eq_dec : EqDecision ModelSlot.
Proof. solve_decision. Defined.

(** An array of four slots. *)
Definition ModelState : Type := list (option ModelSlot).

Definition model_slots (m : ModelState) : list ModelSlot := omap id m.

(** [PartialEq for ModelState]: the same slots in whatever order. *)
Definition model_eq (m m' : ModelState) : bool :=
  (length (model_slots m) =? length (model_slots m'))%nat
  && forallb (fun slot => bool_decide (Some slot ∈ m')) (model_slots m)
  && forallb (fun slot => bool_decide (Some slot ∈ m)) (model_slots m').

Record ModelSnapshot : Type := MkModelSnapshot { ms_key : Z; ms_amount : Z }.

Record ModelTransition : Type := MkModelTransition {
  mt_previous : option ModelSnapshot;
  mt_new_key : option Z;
  mt_new_amount : Z;
  mt_height : Z;
}.

Record ModelUndo : Type := MkModelUndo { mu_previous : option ModelSlot; mu_created : option ModelSlot }.

Module ModelError.
Inductive t : Type := PreviousReserveMismatch | MultipleLiveReserves | OutputCollision | UndoMismatch.
End ModelError.

Definition is_model_reserve (s : ModelSlot) : Prop := entry_program (slot_entry s) = ReserveProgram.

(** The indices of the reserves among the slots from [i] on. *)
Fixpoint reserve_indices (i : nat) (m : ModelState) : list nat :=
  match m with
  | [] => []
  | Some slot :: m => if decide (is_model_reserve slot) then i :: reserve_indices (S i) m else reserve_indices (S i) m
  | None :: m => reserve_indices (S i) m
  end.

Fixpoint free_position (m : ModelState) : option nat :=
  match m with
  | [] => None
  | None :: _ => Some O
  | Some _ :: m => S <$> free_position m
  end.

Definition has_key (m : ModelState) (key : Z) : bool := existsb (fun slot => slot_key slot =? key) (model_slots m).

Definition slot_at (m : ModelState) (i : nat) : option ModelSlot := match m !! i with Some s => s | None => None end.

Definition matches_snapshot (m : ModelState) (expected : ModelSnapshot) (i : nat) : bool :=
  match slot_at m i with
  | Some slot => (slot_key slot =? ms_key expected) && (entry_amount (slot_entry slot) =? ms_amount expected)
  | None => false
  end.

(** The slot the transition replaces. *)
Definition find_previous (m : ModelState) (previous : option ModelSnapshot) : result ModelError.t (option nat) :=
  match previous with
  | None => match reserve_indices 0 m with [] => Ok None | _ :: _ => Err ModelError.PreviousReserveMismatch end
  | Some expected =>
      match List.find (matches_snapshot m expected) (reserve_indices 0 m) with
      | Some i => Ok (Some i)
      | None => Err ModelError.PreviousReserveMismatch
      end
  end.

Definition clear_slot (i : option nat) (m : ModelState) : ModelState :=
  match i with Some i => <[i := None]> m | None => m end.

Definition fill_slot (slot : option ModelSlot) (err : ModelError.t) (m : ModelState) : result ModelError.t ModelState :=
  match slot with
  | None => Ok m
  | Some slot => match free_position m with Some i => Ok (<[i := Some slot]> m) | None => Err err end
  end.

Definition created_slot (t : ModelTransition) : result ModelError.t (option ModelSlot) :=
  if mt_new_amount t =? 0 then Ok None
  else
    let? key := ok_or (mt_new_key t) ModelError.PreviousReserveMismatch in
    Ok (Some (MkModelSlot key (MkModelEntry (mt_new_amount t) (mt_height t) false ReserveProgram))).

Definition apply_state_with_undo (t : ModelTransition) : eff ModelState ModelError.t ModelUndo := fun m =>
  match
    (if (1 <? length (reserve_indices 0 m))%nat then Err ModelError.MultipleLiveReserves
     else
       let? index := find_previous m (mt_previous t) in
       if match mt_new_key t with Some key => has_key m key | None => false end then Err ModelError.OutputCollision
       else
         let previous := match index with Some i => slot_at m i | None => None end in
         let? created := created_slot t in
         let? overlay := fill_slot created ModelError.OutputCollision (clear_slot index m) in
         Ok (MkModelUndo previous created, overlay))
  with
  | Err e => (Err e, m)
  | Ok (undo, overlay) => (Ok undo, overlay)
  end.

Definition apply_state (t : ModelTransition) : eff ModelState ModelError.t unit :=
  let! _ := apply_state_with_undo t in eff_ret tt.

(** The slot an undo removes. *)
Definition find_created (m : ModelState) (created : option ModelSlot) : result ModelError.t (option nat) :=
  match created, reserve_indices 0 m with
  | Some expected, [i] => if bool_decide (slot_at m i = Some expected) then Ok (Some i) else Err ModelError.UndoMismatch
  | Some _, _ => Err ModelError.UndoMismatch
  | None, [] => Ok None
  | None, _ :: _ => Err ModelError.UndoMismatch
  end.

Definition undo_state (undo : ModelUndo) : eff ModelState ModelError.t unit := fun m =>
  match
    (let? index := find_created m (mu_created undo) in
     if match mu_previous undo with Some slot => has_key m (slot_key slot) | None => false end
     then Err ModelError.UndoMismatch
     else fill_slot (mu_previous undo) ModelError.UndoMismatch (clear_slot index m))
  with
  | Err e => (Err e, m)
  | Ok overlay => (Ok tt, overlay)
  end.

(** ** Arithmetic *)

Definition arithmetic_input (p : ReserveTransitionV1Parts) : ArithmeticInput :=
  MkArithmeticInput (snapshot_amount <$> previous p) (native_deposit_total p) (execution_withdrawal_total p)
    (execution_fee_total p) (new_execution_balance_total p).

(** The model drops the amounts of an error. *)
Definition arithmetic_class (e : ReserveTransitionError.t) : option ArithmeticError.t :=
  match e with
  | ReserveTransitionError.InvalidPreviousSnapshot => Some ArithmeticError.InvalidPreviousSnapshot
  | ReserveTransitionError.ArithmeticOverflow => Some ArithmeticError.ArithmeticOverflow
  | ReserveTransitionError.ArithmeticUnderflow => Some ArithmeticError.ArithmeticUnderflow
  | ReserveTransitionError.ExecutionBalanceMismatch _ _ => Some ArithmeticError.ExecutionBalanceMismatch
  | ReserveTransitionError.AmountOutOfRange => Some ArithmeticError.AmountOutOfRange
  | _ => None
  end.

Definition arithmetic_agrees {A} (r : result ReserveTransitionError.t A) (amount : A -> Z) (m : result ArithmeticError.t Z) : Prop :=
  match r, m with
  | Ok a, Ok z => amount a = z
  | Err e, Err x => arithmetic_class e = Some x
  | _, _ => False
  end.

Lemma construct_agrees `{Blake3} p :
  arithmetic_agrees (ReserveTransitionV1_new p) new_reserve_amount (construct_arithmetic (arithmetic_input p)).
Proof.
  unfold ReserveTransitionV1_new, construct_arithmetic, arithmetic_input, arithmetic_agrees, previous_amount.
  cbn [ai_previous ai_native_deposit_total ai_execution_withdrawal_total ai_execution_fee_total ai_new_execution_balance_total].
  assert (bool_decide (snapshot_amount <$> previous p = Some 0) =
    match previous p with Some s => snapshot_amount s =? 0 | None => false end) as ->.
  { destruct (previous p) as [s|]; cbn; [|done]. destruct (Z.eqb_spec (snapshot_amount s) 0); case_bool_decide; congruence. }
  destruct (match previous p with Some s => _ | None => _ end); [done|].
  replace (default 0 (snapshot_amount <$> previous p)) with (match previous p with Some s => snapshot_amount s | None => 0 end)
    by (by destruct (previous p)).
  destruct (checked_add _ _ _) as [x1|]; [|done]. cbn [ok_or].
  destruct (checked_sub _ _) as [x2|]; [|done]. cbn [ok_or]. destruct (checked_sub _ _) as [x3|]; [|done]. cbn [ok_or].
  destruct (x3 =? _); [|done]. cbn [negb]. unfold Amount_from_base_units.
  destruct (previous p) as [s|]; cbn [fmap option_fmap option_map].
  - destruct (snapshot_amount s >? _); [done|]. cbn [map_err orb]. by destruct (x3 >? _).
  - cbn [map_err orb]. by destruct (x3 >? _).
Qed.

(** ** Slots *)

Lemma reserve_indices_spec i m :
  Forall2 (fun j x => (i <= j)%nat /\ m !! (j - i)%nat = Some (Some x)) (reserve_indices i m)
    (filter is_model_reserve (model_slots m)).
Proof.
  revert i. induction m as [|[x|] m IH]; intros i; [constructor| |]; cbn [reserve_indices].
  - change (model_slots (Some x :: m)) with (x :: model_slots m). rewrite filter_cons.
    assert (Forall2 (fun j y => (i <= j)%nat /\ (Some x :: m) !! (j - i)%nat = Some (Some y)) (reserve_indices (S i) m)
      (filter is_model_reserve (model_slots m))) as HF.
    { eapply Forall2_impl; [apply IH|]. intros j y [Hj Hy]. split; [lia|]. by replace (j - i)%nat with (S (j - S i)) by lia. }
    destruct (decide (is_model_reserve x)); [|done]. constructor; [|done]. split; [lia|]. by rewrite Nat.sub_diag.
  - change (model_slots (None :: m)) with (model_slots m). eapply Forall2_impl; [apply IH|].
    intros j y [Hj Hy]. split; [lia|]. by replace (j - i)%nat with (S (j - S i)) by lia.
Qed.

Lemma clear_slots m i x : m !! i = Some (Some x) -> model_slots m ≡ₚ x :: model_slots (<[i := None]> m).
Proof.
  revert i. induction m as [|y m IH]; intros [|i] E; try done.
  - injection E as ->. done.
  - cbn in E. cbn [list_insert insert]. destruct y as [y|]; cbn; rewrite (IH i E); [apply Permutation_swap|done].
Qed.

Lemma fill_slots m i x : free_position m = Some i -> model_slots (<[i := Some x]> m) ≡ₚ x :: model_slots m.
Proof.
  revert i. induction m as [|[y|] m IH]; intros i E; cbn in E; [done| |by injection E as <-].
  destruct (free_position m) as [j|]; [|done]. injection E as <-. cbn. rewrite (IH j eq_refl). apply Permutation_swap.
Qed.

Lemma free_exists m : (length (model_slots m) < length m)%nat -> is_Some (free_position m).
Proof.
  induction m as [|[y|] m IH]; cbn; [lia| |by eexists]. intros Hl. destruct IH as [j Hj]; [change (length (omap id m)) with (length (model_slots m)) in Hl; lia|].
  rewrite Hj. by eexists.
Qed.

(** ** The model as an abstraction *)

Section Abstraction.
Context `{Blake3}.
Variable key : OutPoint -> Z.

Definition model_class (e : UtxoEntry) : ProgramClass := if decide (is_reserve e) then ReserveProgram else OrdinaryProgram.

Definition model_slot (p : OutPoint * UtxoEntry) : ModelSlot :=
  MkModelSlot (key p.1) (MkModelEntry (base_units (value (output p.2))) (creation_height p.2) (is_coinbase p.2) (model_class p.2)).

(** The slots are the outputs, in any order. *)
Definition abstracts (s : UtxoState) (m : ModelState) : Prop := model_slots m ≡ₚ model_slot <$> map_to_list s.

(** No output of the state has the key of [o] but [o]. *)
Definition separate (s : UtxoState) (o : OutPoint) : Prop := forall o', is_Some (s !! o') -> key o' = key o -> o' = o.

Definition model_transition (t : ReserveTransitionV1) : ModelTransition :=
  MkModelTransition ((fun p => MkModelSnapshot (key (snapshot_outpoint p)) (snapshot_amount p)) <$> previous (parts t))
    (key <$> new_reserve_outpoint t) (new_reserve_amount t) (parts_height (parts t)).

Definition model_undo (u : ReserveUndoV1) : ModelUndo :=
  MkModelUndo (model_slot <$> undo_previous u) (model_slot <$> undo_created u).

Definition model_error (e : ReserveTransitionError.t) : option ModelError.t :=
  match e with
  | ReserveTransitionError.PreviousReserveMismatch => Some ModelError.PreviousReserveMismatch
  | ReserveTransitionError.MultipleLiveReserves => Some ModelError.MultipleLiveReserves
  | ReserveTransitionError.OutputCollision _ => Some ModelError.OutputCollision
  | ReserveTransitionError.UndoMismatch => Some ModelError.UndoMismatch
  | _ => None
  end.

Lemma filter_fmap {A B} (f : A -> B) (P : B -> Prop) (Q : A -> Prop) `{!forall x, Decision (P x), !forall x, Decision (Q x)} (l : list A) :
  (forall a, P (f a) <-> Q a) -> filter P (f <$> l) = f <$> filter Q l.
Proof.
  intros HE. induction l as [|a l IH]; [done|]. rewrite fmap_cons, !filter_cons, IH.
  rewrite (decide_ext (P (f a)) (Q a)) by apply HE. by destruct (decide (Q a)).
Qed.

Lemma model_slot_reserve p : is_model_reserve (model_slot p) <-> is_reserve p.2.
Proof. unfold is_model_reserve, model_slot, model_class. cbn. by destruct (decide (is_reserve p.2)). Qed.

Lemma abstracts_live s m : abstracts s m -> filter is_model_reserve (model_slots m) ≡ₚ model_slot <$> live_reserves s.
Proof.
  intros HA. unfold live_reserves. rewrite HA, (filter_fmap _ _ (fun p => is_reserve p.2)); [done|apply model_slot_reserve].
Qed.

Lemma abstracts_length s m : abstracts s m -> length (reserve_indices 0 m) = length (live_reserves s).
Proof.
  intros HA. rewrite (Forall2_length _ _ _ (reserve_indices_spec 0 m)), (abstracts_live _ _ HA), length_fmap. done.
Qed.

Lemma abstracts_one s m p :
  abstracts s m -> live_reserves s = [p] -> exists i, reserve_indices 0 m = [i] /\ m !! i = Some (Some (model_slot p)).
Proof.
  intros HA HL. pose proof (abstracts_live _ _ HA) as HP. rewrite HL in HP. cbn in HP. symmetry in HP.
  apply Permutation_singleton_l in HP. pose proof (reserve_indices_spec 0 m) as HF. rewrite <- HP in HF.
  inversion HF as [|j x js xs [_ Hj] HN]; subst. inversion HN; subst. exists j. by rewrite Nat.sub_0_r in Hj.
Qed.

Lemma abstracts_none s m : abstracts s m -> live_reserves s = [] -> reserve_indices 0 m = [].
Proof. intros HA HL. apply nil_length_inv. by rewrite (abstracts_length _ _ HA), HL. Qed.

Lemma has_key_spec s m o : abstracts s m -> separate s o -> has_key m (key o) = bool_decide (is_Some (s !! o)).
Proof.
  intros HA HS. apply eq_true_iff_eq. unfold has_key. rewrite existsb_exists, bool_decide_eq_true. split.
  - intros (x & Hx%list_elem_of_In & Hk%Z.eqb_eq). rewrite HA in Hx. apply list_elem_of_fmap in Hx as ([o' e] & -> & Ho%elem_of_map_to_list).
    cbn in Hk. by rewrite <- (HS o' ltac:(by eexists) Hk).
  - intros [e He]. exists (model_slot (o, e)). split; [|apply Z.eqb_refl]. apply list_elem_of_In. rewrite HA.
    apply list_elem_of_fmap. exists (o, e). split; [done|]. by apply elem_of_map_to_list.
Qed.

Lemma abstracts_delete s m o e i :
  abstracts s m -> s !! o = Some e -> m !! i = Some (Some (model_slot (o, e))) -> abstracts (delete o s) (<[i := None]> m).
Proof.
  intros HA Hs Hm. unfold abstracts in *. pose proof (clear_slots _ _ _ Hm) as HC. rewrite HC, <- (map_to_list_delete s o e Hs) in HA.
  rewrite fmap_cons in HA. by apply Permutation_cons_inv in HA.
Qed.

Lemma abstracts_insert s m o e i :
  abstracts s m -> s !! o = None -> free_position m = Some i -> abstracts (<[o := e]> s) (<[i := Some (model_slot (o, e))]> m).
Proof.
  intros HA Hs Hf. unfold abstracts in *. rewrite (fill_slots _ _ _ Hf), map_to_list_insert by done. rewrite HA. done.
Qed.

(** Both sides select the same reserve, or both refuse. *)
Lemma select_agrees s m prev :
  abstracts s m -> (length (live_reserves s) <= 1)%nat ->
  (forall p, prev = Some p -> separate s (snapshot_outpoint p)) ->
  match select_previous (live_reserves s) prev,
        find_previous m ((fun p => MkModelSnapshot (key (snapshot_outpoint p)) (snapshot_amount p)) <$> prev) with
  | Ok None, Ok None => live_reserves s = []
  | Ok (Some (o, e)), Ok (Some i) => s !! o = Some e /\ is_reserve e /\ m !! i = Some (Some (model_slot (o, e)))
  | Err ReserveTransitionError.PreviousReserveMismatch, Err ModelError.PreviousReserveMismatch => True
  | _, _ => False
  end.
Proof.
  intros HA Hl HS. destruct (live_reserves s) as [|[o e] [|? ?]] eqn:HL; [| |cbn in Hl; lia].
  - unfold find_previous, select_previous. rewrite (abstracts_none _ _ HA HL). by destruct prev.
  - destruct (abstracts_one _ _ _ HA HL) as (i & Hi & Hm).
    assert (s !! o = Some e /\ is_reserve e) as [Ho He] by (apply live_lookup; rewrite HL; by left).
    unfold find_previous, select_previous. rewrite Hi. destruct prev as [p|]; cbn [fmap option_fmap option_map]; [|done].
    cbn [List.find length]. unfold matches_snapshot, slot_at. rewrite Hm. cbn [slot_key slot_entry entry_amount model_slot fst snd ms_key ms_amount].
    rewrite (bool_decide_true (is_reserve e)) by done. cbn [negb]. rewrite orb_false_r.
    replace (key o =? key (snapshot_outpoint p)) with (bool_decide (o = snapshot_outpoint p)).
    + case_bool_decide; destruct (_ =? snapshot_amount p); cbn; done.
    + case_bool_decide as E; [by rewrite E, Z.eqb_refl|]. symmetry. apply Z.eqb_neq. intros Hk. apply E, (HS p eq_refl); [by eexists|done].
Qed.

(** A transition that was built: an output for a positive reserve only. *)
Definition transition_built (t : ReserveTransitionV1) : Prop :=
  match new_reserve_outpoint t with
  | None => new_reserve_amount t = 0
  | Some _ => 0 < new_reserve_amount t <= MAX_SUPPLY_BASE_UNITS
  end.

Lemma new_built p t : parts_in_range p -> ReserveTransitionV1_new p = Ok t -> transition_built t.
Proof.
  intros HP HT. pose proof HP as (_ & _ & _ & _ & _ & Hn & _). apply new_Ok_inv in HT as [HL ->]; [|done]. destruct HL as (_ & _ & _ & _ & HL).
  unfold transition_built, transition_of. cbn. unfold_ints. destruct (Z.eqb_spec (new_execution_balance_total p) 0); cbn; lia.
Qed.

(** There is a slot for the new reserve. *)
Definition has_room (m : ModelState) (freed added : bool) : Prop :=
  (length (model_slots m) < length m)%nat \/ freed = true \/ added = false.

Lemma slots_bound m : (length (model_slots m) <= length m)%nat.
Proof. unfold model_slots. induction m as [|[x|] m IH]; cbn; lia. Qed.

(** The exchange of one reserve for another. *)
Lemma exchange_agrees s m prev index created e1 e2 e3 :
  abstracts s m ->
  match prev, index with
  | None, None => True
  | Some (o, e), Some i => s !! o = Some e /\ m !! i = Some (Some (model_slot (o, e)))
  | _, _ => False
  end ->
  absent s created -> has_room m (bool_decide (is_Some prev)) (bool_decide (is_Some created)) ->
  exists s1 s2 m2, remove_expected prev e1 s = Ok s1 /\ insert_new created e2 s1 = Ok s2 /\
    fill_slot (model_slot <$> created) e3 (clear_slot index m) = Ok m2 /\ abstracts s2 m2.
Proof.
  intros HA HP HC HR.
  assert (exists s1, remove_expected prev e1 s = Ok s1 /\ abstracts s1 (clear_slot index m) /\ absent s1 created /\
    ((length (model_slots (clear_slot index m)) < length (clear_slot index m))%nat \/ created = None)) as (s1 & E1 & HA1 & HC1 & HF).
  { destruct prev as [[o e]|], index as [i|]; try done; cbn [remove_expected clear_slot].
    - destruct HP as [Ho Hm]. rewrite bool_decide_true by done. eexists. split_and!; [done|by eapply abstracts_delete| |left].
      + destruct created as [[o' e']|]; cbn in *; [|done]. by apply lookup_delete_None; right.
      + pose proof (Permutation_length (clear_slots _ _ _ Hm)) as HL. cbn in HL.
        apply Nat.lt_le_trans with (length m); [pose proof (slots_bound m); lia|]. apply Nat.eq_le_incl. symmetry. apply length_insert.
    - eexists. split_and!; [done..|]. destruct HR as [?|[?|HR]]; [by left|done|right].
      apply bool_decide_eq_false in HR. by apply eq_None_not_Some. }
  exists s1. destruct created as [[o e]|]; cbn [insert_new fmap option_fmap option_map fill_slot].
  - destruct HF as [HF|]; [|done]. apply free_exists in HF as [j Hj]. cbn in HC1. rewrite Hj, HC1.
    do 2 eexists. split_and!; [done..|]. by apply abstracts_insert.
  - by do 2 eexists.
Qed.

(** Both sides succeed with the same result and the same outputs, or both
    refuse for the same reason and change nothing. *)
Definition agree {A B} (Q : A -> B -> Prop) (s : UtxoState) (m : ModelState)
    (r : result ReserveTransitionError.t A * UtxoState) (q : result ModelError.t B * ModelState) : Prop :=
  match r, q with
  | (Ok a, s'), (Ok b, m') => Q a b /\ abstracts s' m'
  | (Err e, s'), (Err x, m') => model_error e = Some x /\ s' = s /\ m' = m
  | _, _ => False
  end.

Lemma apply_agrees t s m :
  abstracts s m -> transition_built t ->
  (forall p, previous (parts t) = Some p -> separate s (snapshot_outpoint p)) ->
  (forall o, new_reserve_outpoint t = Some o -> separate s o) ->
  has_room m (bool_decide (is_Some (previous (parts t)))) (bool_decide (is_Some (new_reserve_outpoint t))) ->
  agree (fun u mu => mu = model_undo u) s m (apply_reserve_transition_v1 t s) (apply_state_with_undo (model_transition t) m).
Proof.
  intros HA HB HS1 HS2 HR. unfold apply_reserve_transition_v1, apply_state_with_undo. rewrite (abstracts_length _ _ HA).
  destruct (Nat.ltb_spec 1 (length (live_reserves s))) as [|Hl]; [done|].
  pose proof (select_agrees s m (previous (parts t)) HA ltac:(lia) HS1) as HX. cbn [model_transition mt_previous mt_new_key].
  destruct (select_previous (live_reserves s) (previous (parts t))) as [prev|e] eqn:Ep, (find_previous m _) as [index|x].
  2: { by destruct prev as [[? ?]|]. }
  2: { by destruct e. }
  2: { by destruct e, x. }
  assert (match new_reserve_outpoint t with Some o => has_key m (key o) | None => false end =
    match new_reserve_outpoint t with Some o => bool_decide (is_Some (s !! o)) | None => false end) as EK.
  { destruct (new_reserve_outpoint t) as [o|]; [|done]. apply has_key_spec; [done|by apply HS2]. }
  replace (match key <$> new_reserve_outpoint t with Some k => has_key m k | None => false end) with
    (match new_reserve_outpoint t with Some o => has_key m (key o) | None => false end) by (by destruct (new_reserve_outpoint t)).
  rewrite EK. clear EK. unfold build_created, created_slot. cbn [model_transition mt_new_amount mt_new_key mt_height]. unfold transition_built in HB.
  assert (bool_decide (is_Some prev) = bool_decide (is_Some (previous (parts t)))) as EP.
  { unfold select_previous in Ep. destruct (previous (parts t)) as [p|], (live_reserves s) as [|[? ?] ?]; cbn in Ep;
      try (by injection Ep as <-); try done. destruct (_ || _); [done|]. by injection Ep as <-. }
  destruct (new_reserve_outpoint t) as [o|]; cbn [fmap option_fmap option_map].
  - destruct (s !! o) as [e|] eqn:Eo; [rewrite bool_decide_true by (by eexists); done|].
    rewrite bool_decide_false by (by intros []). rewrite (proj2 (Z.eqb_neq _ _)) by lia. cbn [ok_or].
    unfold Amount_from_base_units. rewrite Z.gtb_ltb, (proj2 (Z.ltb_ge _ _)) by lia. cbn [map_err].
    set (entry := MkUtxoEntry _ _ _).
    destruct (exchange_agrees s m prev index (Some (o, entry)) ReserveTransitionError.PreviousReserveMismatch
      ReserveTransitionError.OutputCollision ModelError.OutputCollision HA) as (s1 & s2 & m2 & E1 & E2 & E3 & HA2); [..|].
    + destruct prev as [[? ?]|], index; try done. by destruct HX as (? & _ & ?).
    + done.
    + by rewrite EP.
    + assert (model_slot (o, entry) = MkModelSlot (key o) (MkModelEntry (new_reserve_amount t) (parts_height (parts t)) false ReserveProgram)) as ES.
      { unfold model_slot, model_class. cbn. by rewrite decide_True. }
      cbn [fmap option_fmap option_map] in E3. rewrite ES in E3. rewrite E1, E2, E3. split; [|done]. unfold model_undo.
      cbn [undo_previous undo_created fmap option_fmap option_map]. rewrite ES. f_equal.
      destruct prev as [[? ?]|], index; try done. destruct HX as (_ & _ & HM). unfold slot_at. by rewrite HM.
  - rewrite HB. cbn [Z.eqb].
    destruct (exchange_agrees s m prev index None ReserveTransitionError.PreviousReserveMismatch
      ReserveTransitionError.OutputCollision ModelError.OutputCollision HA) as (s1 & s2 & m2 & E1 & E2 & E3 & HA2); [..|].
    + destruct prev as [[? ?]|], index; try done. by destruct HX as (? & _ & ?).
    + done.
    + by right; right.
    + cbn [fmap option_fmap option_map] in E3. rewrite E1, E2, E3. split; [|done]. unfold model_undo. cbn. f_equal.
      destruct prev as [[? ?]|], index; try done. destruct HX as (_ & _ & HM). unfold slot_at. by rewrite HM.
Qed.

Lemma model_slot_eq s o e o' e' :
  separate s o -> is_reserve e -> s !! o' = Some e' -> is_reserve e' ->
  model_slot (o', e') = model_slot (o, e) <-> (o', e') = (o, e).
Proof.
  intros HS He Ho' He'. split; [|by intros ->]. unfold model_slot. cbn [fst snd]. intros HE. injection HE as Hk Hv Hh Hc _.
  rewrite (HS o' ltac:(by eexists) Hk). f_equal. unfold is_reserve in *.
  destruct e as [[[v] p] h c], e' as [[[v'] p'] h' c']. cbn in *. congruence.
Qed.

Lemma created_agrees s m created :
  abstracts s m -> (forall o e, created = Some (o, e) -> is_reserve e /\ separate s o) ->
  match
    match created with
    | Some (o, e) =>
        match live_reserves s with
        | [(o', e')] =>
            if negb (bool_decide (o' = o)) || negb (bool_decide (e' = e)) || negb (bool_decide (s !! o = Some e))
            then Err ReserveTransitionError.UndoMismatch else Ok tt
        | _ => Err ReserveTransitionError.UndoMismatch
        end
    | None => if negb (length (live_reserves s) =? 0)%nat then Err ReserveTransitionError.UndoMismatch else Ok tt
    end, find_created m (model_slot <$> created) with
  | Ok _, Ok index =>
      match created, index with
      | None, None => True
      | Some (o, e), Some i => s !! o = Some e /\ m !! i = Some (Some (model_slot (o, e)))
      | _, _ => False
      end
  | Err ReserveTransitionError.UndoMismatch, Err ModelError.UndoMismatch => True
  | _, _ => False
  end.
Proof.
  intros HA HC. unfold find_created. pose proof (abstracts_length _ _ HA) as Hl.
  destruct (live_reserves s) as [|[o' e'] [|? ?]] eqn:HL.
  - rewrite (abstracts_none _ _ HA HL). by destruct created as [[o e]|].
  - destruct (abstracts_one _ _ _ HA HL) as (i & -> & Hm). destruct created as [[o e]|]; cbn [fmap option_fmap option_map]; [|done].
    destruct (HC o e eq_refl) as [He HS].
    assert (s !! o' = Some e' /\ is_reserve e') as [Ho' He'] by (apply live_lookup; rewrite HL; by left).
    unfold slot_at. rewrite Hm. pose proof (model_slot_eq s o e o' e' HS He Ho' He') as HE.
    rewrite (bool_decide_ext (Some (model_slot (o', e')) = Some (model_slot (o, e))) ((o', e') = (o, e))) by (rewrite <- HE; split; congruence).
    destruct (bool_decide_reflect ((o', e') = (o, e))) as [Eq|Eq].
    + injection Eq as -> ->. rewrite !bool_decide_true by done. done.
    + destruct (bool_decide_reflect (o' = o)), (bool_decide_reflect (e' = e)); cbn; try done. congruence.
  - cbn in Hl. destruct (reserve_indices 0 m) as [|i [|j js]]; cbn in Hl; try lia. by destruct created as [[o e]|].
Qed.

Lemma undo_agrees u s m :
  abstracts s m -> (forall o e, undo_created u = Some (o, e) -> is_reserve e /\ separate s o) ->
  (forall o e, undo_previous u = Some (o, e) -> separate s o) ->
  has_room m (bool_decide (is_Some (undo_created u))) (bool_decide (is_Some (undo_previous u))) ->
  agree (fun _ _ => True) s m (undo_reserve_transition_v1 u s) (undo_state (model_undo u) m).
Proof.
  intros HA HC HP HR. unfold undo_reserve_transition_v1, undo_state. cbn [model_undo mu_created mu_previous].
  pose proof (created_agrees s m (undo_created u) HA HC) as HX.
  destruct (match undo_created u with Some _ => _ | None => _ end) as [[]|e], (find_created m _) as [index|x];
    [|done|by destruct e|destruct e; try done; by destruct x].
  assert (match model_slot <$> undo_previous u with Some slot => has_key m (slot_key slot) | None => false end =
    match undo_previous u with Some (o, _) => bool_decide (is_Some (s !! o)) | None => false end) as ->.
  { destruct (undo_previous u) as [[o e]|] eqn:Eu; [|done]. cbn. apply has_key_spec; [done|by eapply HP]. }
  destruct (undo_previous u) as [[o e]|] eqn:Eu.
  - destruct (s !! o) as [e'|] eqn:Eo.
    + rewrite (bool_decide_false (Some e' = None)), bool_decide_true by (done || by eexists). done.
    + rewrite (bool_decide_true (None = None)), bool_decide_false by (done || by intros []). cbn [negb].
      destruct (exchange_agrees s m (undo_created u) index (Some (o, e)) ReserveTransitionError.UndoMismatch
        (fun _ => ReserveTransitionError.UndoMismatch) ModelError.UndoMismatch HA ltac:(by destruct (undo_created u) as [[? ?]|], index) Eo HR) as (s1 & s2 & m2 & E1 & E2 & E3 & HA2).
      rewrite E1, E2, E3. done.
  - destruct (exchange_agrees s m (undo_created u) index None ReserveTransitionError.UndoMismatch
      (fun _ => ReserveTransitionError.UndoMismatch) ModelError.UndoMismatch HA ltac:(by destruct (undo_created u) as [[? ?]|], index) I HR) as (s1 & s2 & m2 & E1 & E2 & E3 & HA2).
    rewrite E1, E2, E3. done.
Qed.

End Abstraction.

(** C35: the bounded model that the repository checks is the production code.
    For any parts, building a transition gives the model's reserve amount or
    its error.  When the model's slots are the unspent outputs under keys that
    tell them apart, with room for the new reserve, applying a transition that
    was built and undoing a record of one succeed on both sides with the same
    reserves exchanged and the same outputs left, or are refused on both sides
    for the same reason and change nothing. *)
Theorem kani_model_faithful `{Blake3} (key : OutPoint -> Z) (p : ReserveTransitionV1Parts) (t : ReserveTransitionV1)
    (s : UtxoState) (m : ModelState) :
  parts_in_range p -> ReserveTransitionV1_new p = Ok t -> abstracts key s m ->
  (forall q, arithmetic_agrees (ReserveTransitionV1_new q) new_reserve_amount (construct_arithmetic (arithmetic_input q))) /\
  ((forall x, previous p = Some x -> separate key s (snapshot_outpoint x)) ->
   (forall o, new_reserve_outpoint t = Some o -> separate key s o) ->
   has_room m (bool_decide (is_Some (previous p))) (bool_decide (is_Some (new_reserve_outpoint t))) ->
   agree key (fun u mu => mu = model_undo key u) s m (apply_reserve_transition_v1 t s)
     (apply_state_with_undo (model_transition key t) m)) /\
  (forall u, (forall o e, undo_created u = Some (o, e) -> is_reserve e /\ separate key s o) ->
     (forall o e, undo_previous u = Some (o, e) -> separate key s o) ->
     has_room m (bool_decide (is_Some (undo_created u))) (bool_decide (is_Some (undo_previous u))) ->
     agree key (fun _ _ => True) s m (undo_reserve_transition_v1 u s) (undo_state (model_undo key u) m)).
Proof.
  intros HP HT HA. pose proof (new_built p t HP HT) as HB. apply new_Ok_inv in HT as [_ ->]; [|done]. split_and!.
  - apply construct_agrees.
  - intros H1 H2 HR. by apply apply_agrees.
  - intros u H1 H2 HR. by apply undo_agrees.
Qed.

Definition demo_slots : ModelState := [None; None; None; None].

Lemma demo_transition_built : ReserveTransitionV1_new (H := demo_blake3) demo_parts = Ok demo_transition.
Proof. vm_compute. reflexivity. Qed.

Lemma demo_abstracts : abstracts (fun _ => 7) ∅ demo_slots.
Proof. unfold abstracts. by rewrite map_to_list_empty. Qed.

Lemma kani_model_faithful_witness :
  agree (fun _ => 7) (fun u mu => mu = model_undo (fun _ => 7) u) ∅ demo_slots (apply_reserve_transition_v1 demo_transition ∅)
    (apply_state_with_undo (model_transition (fun _ => 7) demo_transition) demo_slots).
Proof.
  destruct (kani_model_faithful (H := demo_blake3) (fun _ => 7) demo_parts demo_transition ∅ demo_slots demo_parts_in_range
    demo_transition_built demo_abstracts) as (_ & HA & _).
  apply HA.
  - intros x Hx. discriminate Hx.
  - intros o _ o' [e He]. rewrite lookup_empty in He. discriminate He.
  - left. apply Nat.ltb_lt. reflexivity.
Defined.
