(* ===== verification/Layout.v ===== *)
(** Fixed-offset records: the objects of the execution layer are encoded at
    constant offsets and decoded by slicing.  A layout is the list of the
    widths of its fields; slicing a concatenation of fields at the offsets of
    a layout gives the fields back, and a byte string of the right length is
    the concatenation of its slices. *)
From S2P Require Import Prelude Encoding.

(** [&bytes[a..b]] of a slice long enough. *)
Definition slice (a b : nat) (l : list byte) : list byte := take (b - a) (drop a l).

(** [bytes[i]] of a slice long enough. *)
Definition byte_at (i : nat) (l : list byte) : byte := nth i l x00.

(** [uN::from_le_bytes] of the slice between two offsets. *)
Definition le_at (a b : nat) (l : list byte) : Z := le_num (slice a b l).

Fixpoint slices (offset : nat) (widths : list nat) (l : list byte) : list (list byte) :=
  match widths with
  | [] => []
  | w :: ws => slice offset (offset + w) l :: slices (offset + w) ws l
  end.

Lemma length_slice a b l : (a <= b)%nat -> (b <= length l)%nat -> length (slice a b l) = (b - a)%nat.
Proof. intros. unfold slice. rewrite length_take, length_drop. lia. Qed.

Lemma slice_skip p a b l :
  slice (length p + a) (length p + b) (p ++ l) = slice a b l.
Proof.
  unfold slice. rewrite drop_app. rewrite drop_ge by lia. simpl.
  f_equal; [lia|]. f_equal. lia.
Qed.

Lemma slice_prefix x l : slice 0 (length x) (x ++ l) = x.
Proof. unfold slice. rewrite drop_0, Nat.sub_0_r. apply take_app_length. Qed.

(** The slice at the place of a field. *)
Lemma slice_mid p x l a b : length p = a -> b = (a + length x)%nat -> slice a b (p ++ x ++ l) = x.
Proof.
  intros <- ->. rewrite <- (Nat.add_0_r (length p)) at 1. rewrite slice_skip. apply slice_prefix.
Qed.

Lemma slices_concat_at p widths fs :
  map length fs = widths -> slices (length p) widths (p ++ concat fs) = fs.
Proof.
  revert p widths. induction fs as [|f fs IH]; intros p widths <-; [done|]. cbn [map slices concat].
  f_equal.
  - rewrite <- (Nat.add_0_r (length p)) at 1. rewrite slice_skip. apply slice_prefix.
  - specialize (IH (p ++ f) (map length fs) eq_refl). by rewrite length_app, <- app_assoc in IH.
Qed.

(** Slicing the encoding gives the fields. *)
Lemma slices_concat widths fs : map length fs = widths -> slices 0 widths (concat fs) = fs.
Proof. apply (slices_concat_at []). Qed.

Definition total_width (widths : list nat) : nat := foldr Nat.add 0%nat widths.

Lemma concat_slices_at offset widths l :
  (offset + total_width widths <= length l)%nat ->
  concat (slices offset widths l) = take (total_width widths) (drop offset l).
Proof.
  revert offset. induction widths as [|w ws IH]; intros offset HL; [done|]. simpl in *.
  rewrite IH by lia. unfold slice. replace (offset + w - offset)%nat with w by lia.
  rewrite <- drop_drop. rewrite (take_take_drop (drop offset l)). done.
Qed.

(** A string of the right length is the concatenation of its slices. *)
Lemma concat_slices widths l : length l = total_width widths -> concat (slices 0 widths l) = l.
Proof. intros HL. rewrite concat_slices_at by lia. rewrite drop_0, <- HL. apply take_ge. lia. Qed.

Lemma byte_at_slice i l : (i < length l)%nat -> slice i (i + 1) l = [byte_at i l].
Proof.
  intros HL. unfold slice, byte_at. replace (i + 1 - i)%nat with 1%nat by lia.
  destruct (lookup_lt_is_Some_2 l i HL) as [b Hb]. rewrite (drop_S _ _ _ Hb). simpl.
  f_equal. symmetry. by apply nth_lookup_Some.
Qed.

(** Numbers at fixed offsets. *)
Lemma le_at_bytes a b l : (a <= b)%nat -> (b <= length l)%nat -> le_bytes (b - a) (le_at a b l) = slice a b l.
Proof. intros. unfold le_at. apply le_bytes_eq; [by apply length_slice|done]. Qed.

Lemma le_at_range a b l : (a <= b)%nat -> (b <= length l)%nat -> 0 <= le_at a b l < 256 ^ Z.of_nat (b - a).
Proof. intros. unfold le_at. rewrite <- (length_slice a b l) by done. apply le_num_range. Qed.
