(* ===== verification/Address.v ===== *)
(** [oregon-primitives/execution_address.rs]: typed execution addresses. *)
From S2P Require Import Prelude Encoding Layout.

Inductive ExecutionAddressKind : Type := KindEvm | KindWasm | KindOregon | KindSystem.

#[global] Instance ExecutionAddressKind_eq_dec : EqDecision ExecutionAddressKind.
Proof. solve_decision. Defined.

Module ExecutionAddressError.
Inductive t : Type :=
| InvalidLength (len : nat)
| UnknownKind (value : byte)
| NonCanonicalEvmPadding.
End ExecutionAddressError.

Definition kind_byte (k : ExecutionAddressKind) : byte :=
  match k with KindEvm => x01 | KindWasm => x02 | KindOregon => x03 | KindSystem => x04 end.

Definition kind_try_from (value : byte) : result ExecutionAddressError.t ExecutionAddressKind :=
  match value with
  | x01 => Ok KindEvm
  | x02 => Ok KindWasm
  | x03 => Ok KindOregon
  | x04 => Ok KindSystem
  | _ => Err (ExecutionAddressError.UnknownKind value)
  end.

Record ExecutionAddress : Type := MkExecutionAddress {
  kind : ExecutionAddressKind;
  payload : arr 32;
}.

#[global] Instance ExecutionAddress_eq_dec : EqDecision ExecutionAddress.
Proof. solve_decision. Defined.

Definition zero_padded (p : arr 32) : bool :=
  forallb (fun b => bool_decide (b = x00)) (take 12 (arr_bytes p)).

Definition ExecutionAddress_new (k : ExecutionAddressKind) (p : arr 32)
  : result ExecutionAddressError.t ExecutionAddress :=
  if bool_decide (k = KindEvm) && negb (zero_padded p)
  then Err ExecutionAddressError.NonCanonicalEvmPadding
  else Ok (MkExecutionAddress k p).

Definition ExecutionAddress_from_evm (address : arr 20) : ExecutionAddress :=
  MkExecutionAddress KindEvm (arr_resize 32 (replicate 12 x00 ++ arr_bytes address)).

Definition ExecutionAddress_from_slice (bytes : list byte)
  : result ExecutionAddressError.t ExecutionAddress :=
  if negb (length bytes =? 33)%nat then Err (ExecutionAddressError.InvalidLength (length bytes))
  else
    let? k := kind_try_from (byte_at 0 bytes) in
    ExecutionAddress_new k (arr_resize 32 (drop 1 bytes)).

Definition ExecutionAddress_to_bytes (a : ExecutionAddress) : list byte :=
  kind_byte (kind a) :: arr_bytes (payload a).

Definition evm_address (a : ExecutionAddress) : option (arr 20) :=
  if negb (bool_decide (kind a = KindEvm)) then None
  else Some (arr_resize 20 (drop 12 (arr_bytes (payload a)))).

(** ** Facts *)

(** The invariant the private fields protect. *)
Definition address_ok (a : ExecutionAddress) : Prop :=
  kind a = KindEvm -> take 12 (arr_bytes (payload a)) = replicate 12 x00.

Lemma zero_padded_spec p : zero_padded p = true <-> take 12 (arr_bytes p) = replicate 12 x00.
Proof.
  unfold zero_padded. assert (length (take 12 (arr_bytes p)) = 12%nat) as HL
    by (rewrite length_take, arr_length; lia).
  revert HL. generalize (take 12 (arr_bytes p)) as l. generalize 12%nat as n.
  intros n l <-. induction l as [|b l IH]; simpl; [done|].
  rewrite andb_true_iff, IH, bool_decide_eq_true. split.
  - intros [-> E]. by f_equal.
  - intros E. by injection E as -> E.
Qed.

Lemma length_to_bytes a : length (ExecutionAddress_to_bytes a) = 33%nat.
Proof. unfold ExecutionAddress_to_bytes. simpl. by rewrite arr_length. Qed.

Lemma kind_try_from_Ok b k : kind_try_from b = Ok k <-> b = kind_byte k.
Proof. split; [destruct b; simpl; intros [= <-]; done|intros ->; by destruct k]. Qed.

Lemma ExecutionAddress_new_Ok k p a :
  ExecutionAddress_new k p = Ok a <-> a = MkExecutionAddress k p /\ address_ok a.
Proof.
  unfold ExecutionAddress_new, address_ok. pose proof (zero_padded_spec p) as Hz.
  case_bool_decide as Hk; simpl.
  - destruct (zero_padded p); simpl; split; intros; simplify_eq; naive_solver.
  - split; intros; simplify_eq; naive_solver.
Qed.

Lemma address_from_slice_spec bytes a :
  ExecutionAddress_from_slice bytes = Ok a <-> bytes = ExecutionAddress_to_bytes a /\ address_ok a.
Proof.
  unfold ExecutionAddress_from_slice, ExecutionAddress_to_bytes. split.
  - destruct (Nat.eqb_spec (length bytes) 33) as [HL|]; [cbn [negb]|done].
    destruct bytes as [|b bytes]; [done|]. simpl in HL. cbn [byte_at nth drop].
    destruct (kind_try_from b) as [k|] eqn:Ek; [|done]. apply kind_try_from_Ok in Ek as ->.
    intros [-> HO]%ExecutionAddress_new_Ok. split; [|done]. cbn [kind payload].
    rewrite arr_resize_bytes by (rewrite drop_0; lia). by rewrite drop_0.
  - intros [-> HO]. cbn [length]. rewrite arr_length. cbn [Nat.eqb negb byte_at nth drop].
    rewrite drop_0, arr_resize_id. assert (kind_try_from (kind_byte (kind a)) = Ok (kind a)) as -> by (by apply kind_try_from_Ok).
    apply ExecutionAddress_new_Ok. by destruct a.
Qed.

Lemma to_bytes_inj a b : ExecutionAddress_to_bytes a = ExecutionAddress_to_bytes b -> a = b.
Proof.
  destruct a as [k1 p1], b as [k2 p2]. unfold ExecutionAddress_to_bytes. intros [= Hk Hp%arr_eq]; simpl in *.
  f_equal; [|done]. by destruct k1, k2.
Qed.

(** Address codec.  Decoding accepts exactly the 33-byte forms of legal
    addresses, so namespaces never alias, and embedding an EVM address is a
    legal address from which the same twenty bytes come back. *)
Theorem execution_address_exact :
  (forall bytes a, ExecutionAddress_from_slice bytes = Ok a <->
     bytes = ExecutionAddress_to_bytes a /\ address_ok a) /\
  (forall a b, ExecutionAddress_to_bytes a = ExecutionAddress_to_bytes b -> a = b) /\
  (forall e, address_ok (ExecutionAddress_from_evm e) /\ evm_address (ExecutionAddress_from_evm e) = Some e) /\
  (forall a e, address_ok a -> evm_address a = Some e -> a = ExecutionAddress_from_evm e).
Proof.
  assert (forall e : arr 20, length (replicate 12 x00 ++ arr_bytes e) = 32%nat) as HL
    by (intros; by rewrite length_app, length_replicate, arr_length).
  split_and!.
  - apply address_from_slice_spec.
  - apply to_bytes_inj.
  - intros e. unfold address_ok, evm_address, ExecutionAddress_from_evm. cbn [kind payload].
    rewrite arr_resize_bytes by done. split; [intros _; apply take_app_length'; done|].
    rewrite bool_decide_true by done. cbn [negb]. rewrite drop_app_length' by done. by rewrite arr_resize_id.
  - intros [k p] e Ha. unfold evm_address, ExecutionAddress_from_evm, address_ok in *. cbn [kind payload] in *.
    case_bool_decide as Hk; [|done]. subst k. cbn [negb]. intros [= <-]. f_equal. apply arr_eq.
    rewrite arr_resize_bytes by done. rewrite arr_resize_bytes by (rewrite length_drop, arr_length; done).
    rewrite <- (Ha eq_refl). by rewrite take_drop.
Qed.
