(* ===== verification/Envelope.v ===== *)
(** [oregon-primitives/execution_envelope.rs]: execution envelopes, the signed
    requests of the execution layer: their construction rules, wire format,
    signing digest and identifier. *)
From S2P Require Import Prelude Encoding Transaction Layout Address.

Definition MAX_ENVELOPE_BYTES : Z := 2097152.
Definition MAX_DOMAIN_PAYLOAD_BYTES : Z := 1048576.
Definition MAX_ACCESS_HINT_BYTES : Z := 262144.
Definition MAX_AUTH_PROOFS : Z := 2.
Definition MAX_AUTH_PROOF_BYTES : Z := 4096.

Definition ENVELOPE_VERSION_V1 : Z := 1.
Definition SIGNING_DOMAIN : list byte := domain_tag "OREGON/ENVELOPE/SIGN/V1".
Definition TXID_DOMAIN : list byte := domain_tag "OREGON/ENVELOPE/TXID/V1".

Module ExecutionEnvelopeError.
Inductive t : Type :=
| Primitive (e : PrimitiveError.t)
| ExecutionAddress (e : ExecutionAddressError.t)
| UnsupportedVersion (version : Z)
| UnknownDomain (value : byte)
| UnknownAuthorizationScope (value : byte)
| UnknownAuthorizationScheme (value : Z)
| InvalidOptionFlag (value : byte)
| FeePayerEqualsPrincipal
| InvalidHeightWindow
| ZeroMaxWeight
| PriorityFeeExceedsMaxFee
| InvalidAuthorizationProofLength
| InvalidAuthorizationCount
| DuplicateAuthorizationScope
| MissingPrincipalAuthorization
| UnexpectedFeePayerAuthorization
| MissingFeePayerAuthorization
| EthereumAuthorizationOutsideEvm
| EthereumAuthorizationRequiresNeutralHeightWindow
| EmptyAccessHints
| AccessHintsTooLarge
| DomainPayloadTooLarge
| EnvelopeTooLarge.
End ExecutionEnvelopeError.

(** ** Data *)

Inductive ExecutionDomain : Type := ExecNative | ExecEvm | ExecWasm | ExecSystem.
Inductive AuthorizationScope : Type := Principal | FeePayer.
Inductive AuthorizationScheme : Type := OregonSchnorrV1 | EthereumEcdsaV1 | OregonThresholdV1.

#[global] Instance ExecutionDomain_eq_dec : EqDecision ExecutionDomain.
Proof. solve_decision. Defined.
#[global] Instance AuthorizationScope_eq_dec : EqDecision AuthorizationScope.
Proof. solve_decision. Defined.
#[global] Instance AuthorizationScheme_eq_dec : EqDecision AuthorizationScheme.
Proof. solve_decision. Defined.

Definition exec_domain_byte (d : ExecutionDomain) : byte :=
  match d with ExecNative => x10 | ExecEvm => x11 | ExecWasm => x12 | ExecSystem => x13 end.

Definition exec_domain_try_from (value : byte) : result ExecutionEnvelopeError.t ExecutionDomain :=
  match value with
  | x10 => Ok ExecNative
  | x11 => Ok ExecEvm
  | x12 => Ok ExecWasm
  | x13 => Ok ExecSystem
  | _ => Err (ExecutionEnvelopeError.UnknownDomain value)
  end.

Definition scope_byte (s : AuthorizationScope) : byte := match s with Principal => x01 | FeePayer => x02 end.

Definition scope_try_from (value : byte) : result ExecutionEnvelopeError.t AuthorizationScope :=
  match value with
  | x01 => Ok Principal
  | x02 => Ok FeePayer
  | _ => Err (ExecutionEnvelopeError.UnknownAuthorizationScope value)
  end.

Definition auth_scheme_u16 (s : AuthorizationScheme) : Z :=
  match s with OregonSchnorrV1 => 1 | EthereumEcdsaV1 => 2 | OregonThresholdV1 => 3 end.

Definition auth_scheme_try_from (value : Z) : result ExecutionEnvelopeError.t AuthorizationScheme :=
  if value =? 1 then Ok OregonSchnorrV1
  else if value =? 2 then Ok EthereumEcdsaV1
  else if value =? 3 then Ok OregonThresholdV1
  else Err (ExecutionEnvelopeError.UnknownAuthorizationScheme value).

Record AuthorizationProof : Type := MkAuthorizationProof {
  scope : AuthorizationScope;
  auth_scheme : AuthorizationScheme;
  proof : list byte;
}.

Definition proof_length_valid (s : AuthorizationScheme) (len : nat) : bool :=
  match s with
  | OregonSchnorrV1 => (len =? 96)%nat
  | EthereumEcdsaV1 => (len =? 65)%nat
  | OregonThresholdV1 => (1 <=? Z.of_nat len) && (Z.of_nat len <=? MAX_AUTH_PROOF_BYTES)
  end.

Definition AuthorizationProof_new (sc : AuthorizationScope) (sch : AuthorizationScheme) (p : list byte)
  : result ExecutionEnvelopeError.t AuthorizationProof :=
  if negb (proof_length_valid sch (length p)) then Err ExecutionEnvelopeError.InvalidAuthorizationProofLength
  else Ok (MkAuthorizationProof sc sch p).

Record FeeCaps : Type := MkFeeCaps {
  caps_max_fee_per_weight : Z;
  caps_max_priority_fee_per_weight : Z;
  caps_max_weight : Z;
}.

Definition FeeCaps_new (max_fee max_priority max_weight : Z) : result ExecutionEnvelopeError.t FeeCaps :=
  if max_weight =? 0 then Err ExecutionEnvelopeError.ZeroMaxWeight
  else if max_priority >? max_fee then Err ExecutionEnvelopeError.PriorityFeeExceedsMaxFee
  else Ok (MkFeeCaps max_fee max_priority max_weight).

Record ExecutionEnvelopeV1Parts : Type := MkEnvelopeParts {
  parts_chain_id : Z;
  parts_execution_domain : ExecutionDomain;
  parts_valid_after_height : Z;
  parts_valid_until_height : Z;
  parts_principal : ExecutionAddress;
  parts_fee_payer : option ExecutionAddress;
  parts_fee_caps : FeeCaps;
  parts_authorizations : list AuthorizationProof;
  parts_domain_payload : list byte;
  parts_access_hints : option (list byte);
}.

Record ExecutionEnvelopeV1 : Type := MkEnvelope {
  chain_id : Z;
  execution_domain : ExecutionDomain;
  valid_after_height : Z;
  valid_until_height : Z;
  principal : ExecutionAddress;
  fee_payer : option ExecutionAddress;
  fee_caps : FeeCaps;
  authorizations : list AuthorizationProof;
  domain_payload : list byte;
  access_hints : option (list byte);
}.

(** ** Construction *)

Definition has_scope (s : AuthorizationScope) (l : list AuthorizationProof) : bool :=
  existsb (fun a => bool_decide (scope a = s)) l.

Definition uses_ethereum (l : list AuthorizationProof) : bool :=
  existsb (fun a => bool_decide (auth_scheme a = EthereumEcdsaV1)) l.

Definition validate_authorizations (d : ExecutionDomain) (after until : Z) (has_distinct_fee_payer : bool)
    (l : list AuthorizationProof) : result ExecutionEnvelopeError.t unit :=
  match l with
  | [] => Err ExecutionEnvelopeError.InvalidAuthorizationCount
  | first :: _ =>
      let count := Z.of_nat (length l) in
      if count >? MAX_AUTH_PROOFS then Err ExecutionEnvelopeError.InvalidAuthorizationCount
      else if negb (bool_decide (scope first = Principal)) then Err ExecutionEnvelopeError.MissingPrincipalAuthorization
      else if (count =? 2) && negb (bool_decide (option_map scope (l !! 1%nat) = Some FeePayer))
      then Err ExecutionEnvelopeError.DuplicateAuthorizationScope
      else
        let has_fee_payer_authorization := has_scope FeePayer l in
        if has_distinct_fee_payer && negb has_fee_payer_authorization
        then Err ExecutionEnvelopeError.MissingFeePayerAuthorization
        else if negb has_distinct_fee_payer && has_fee_payer_authorization
        then Err ExecutionEnvelopeError.UnexpectedFeePayerAuthorization
        else if has_distinct_fee_payer && negb (count =? 2)
        then Err ExecutionEnvelopeError.MissingFeePayerAuthorization
        else if negb has_distinct_fee_payer && negb (count =? 1)
        then Err ExecutionEnvelopeError.UnexpectedFeePayerAuthorization
        else if uses_ethereum l then
          if negb (bool_decide (d = ExecEvm)) then Err ExecutionEnvelopeError.EthereumAuthorizationOutsideEvm
          else if negb (after =? 0) || negb (until =? U64_MAX)
          then Err ExecutionEnvelopeError.EthereumAuthorizationRequiresNeutralHeightWindow
          else Ok tt
        else Ok tt
  end.

Definition check_access_hints (hints : option (list byte)) : result ExecutionEnvelopeError.t unit :=
  match hints with
  | None => Ok tt
  | Some h =>
      if (length h =? 0)%nat then Err ExecutionEnvelopeError.EmptyAccessHints
      else if Z.of_nat (length h) >? MAX_ACCESS_HINT_BYTES then Err ExecutionEnvelopeError.AccessHintsTooLarge
      else Ok tt
  end.

(** The envelope with the fields of [p]. *)
Definition of_parts (p : ExecutionEnvelopeV1Parts) : ExecutionEnvelopeV1 :=
  MkEnvelope (parts_chain_id p) (parts_execution_domain p) (parts_valid_after_height p)
    (parts_valid_until_height p) (parts_principal p) (parts_fee_payer p) (parts_fee_caps p)
    (parts_authorizations p) (parts_domain_payload p) (parts_access_hints p).

Definition ExecutionEnvelopeV1_new (p : ExecutionEnvelopeV1Parts)
  : result ExecutionEnvelopeError.t ExecutionEnvelopeV1 :=
  if parts_valid_after_height p >? parts_valid_until_height p
  then Err ExecutionEnvelopeError.InvalidHeightWindow
  else if bool_decide (parts_fee_payer p = Some (parts_principal p))
  then Err ExecutionEnvelopeError.FeePayerEqualsPrincipal
  else if Z.of_nat (length (parts_domain_payload p)) >? MAX_DOMAIN_PAYLOAD_BYTES
  then Err ExecutionEnvelopeError.DomainPayloadTooLarge
  else
    let? _ := check_access_hints (parts_access_hints p) in
    let? _ := validate_authorizations (parts_execution_domain p) (parts_valid_after_height p)
                (parts_valid_until_height p) (bool_decide (is_Some (parts_fee_payer p)))
                (parts_authorizations p) in
    Ok (of_parts p).

(** ** Encoding *)

Definition encode_option {A} (enc : A -> list byte) (o : option A) : list byte :=
  match o with None => [x00] | Some a => x01 :: enc a end.

Definition encode_fee_caps (c : FeeCaps) : list byte :=
  le_bytes 8 (caps_max_fee_per_weight c) ++ le_bytes 8 (caps_max_priority_fee_per_weight c)
    ++ le_bytes 8 (caps_max_weight c).

Definition encode_common_prefix (e : ExecutionEnvelopeV1) : list byte :=
  le_bytes 2 ENVELOPE_VERSION_V1 ++ le_bytes 8 (chain_id e) ++ [exec_domain_byte (execution_domain e)]
    ++ le_bytes 8 (valid_after_height e) ++ le_bytes 8 (valid_until_height e)
    ++ ExecutionAddress_to_bytes (principal e) ++ encode_option ExecutionAddress_to_bytes (fee_payer e)
    ++ encode_fee_caps (fee_caps e).

Definition encode_payload_and_hints (e : ExecutionEnvelopeV1) : list byte :=
  encode_var_bytes (domain_payload e) ++ encode_option encode_var_bytes (access_hints e).

Definition encode_authorization (a : AuthorizationProof) : list byte :=
  [scope_byte (scope a)] ++ le_bytes 2 (auth_scheme_u16 (auth_scheme a)) ++ encode_var_bytes (proof a).

Definition encode_authorization_header (a : AuthorizationProof) : list byte :=
  [scope_byte (scope a)] ++ le_bytes 2 (auth_scheme_u16 (auth_scheme a)).

(** The body shared by [encode] and [signing_bytes], which differ in what they
    write of each authorization. *)
Definition encode_with (encode_auth : AuthorizationProof -> list byte) (e : ExecutionEnvelopeV1) : list byte :=
  encode_common_prefix e
    ++ write_varint (Z.of_nat (length (authorizations e)))
    ++ encode_all encode_auth (authorizations e)
    ++ encode_payload_and_hints e.

Definition ExecutionEnvelopeV1_encode (e : ExecutionEnvelopeV1) : list byte := encode_with encode_authorization e.

Definition signing_bytes (e : ExecutionEnvelopeV1) : list byte := encode_with encode_authorization_header e.

Definition signing_hash `{Blake3} (e : ExecutionEnvelopeV1) : Hash256 := domain_hash SIGNING_DOMAIN (signing_bytes e).

Definition ExecutionEnvelopeV1_txid `{Blake3} (e : ExecutionEnvelopeV1) : Hash256 :=
  domain_hash TXID_DOMAIN (ExecutionEnvelopeV1_encode e).

(** ** Decoding *)

Abbreviation ereader A := (eff Decoder ExecutionEnvelopeError.t A).

(** [?] on a primitive read. *)
Definition prim {A} (r : reader A) : ereader A := eff_map_err ExecutionEnvelopeError.Primitive r.

Definition env_read_u8 : reader byte := let! bytes := read_bytes 1 in eff_ret (byte_at 0 bytes).

(** [ExecutionAddress::from_slice(decoder.read_bytes(33)?)?] *)
Definition read_address : ereader ExecutionAddress :=
  let! bytes := prim (read_bytes 33) in
  eff_lift (map_err ExecutionEnvelopeError.ExecutionAddress (ExecutionAddress_from_slice bytes)).

(** The flag byte of an optional field, then the field. *)
Definition read_option {A} (r : ereader A) : ereader (option A) :=
  let! flag := prim env_read_u8 in
  match flag with
  | x00 => eff_ret None
  | x01 => let! a := r in eff_ret (Some a)
  | other => eff_fail (ExecutionEnvelopeError.InvalidOptionFlag other)
  end.

Definition read_fee_caps : ereader FeeCaps :=
  let! max_fee := prim read_u64 in
  let! max_priority := prim read_u64 in
  let! max_weight := prim read_u64 in
  eff_lift (FeeCaps_new max_fee max_priority max_weight).

Definition read_authorization : ereader AuthorizationProof :=
  let! s := prim env_read_u8 in
  let! sc := eff_lift (scope_try_from s) in
  let! v := prim read_u16 in
  let! sch := eff_lift (auth_scheme_try_from v) in
  let! p := prim (read_var_bytes MAX_AUTH_PROOF_BYTES) in
  eff_lift (AuthorizationProof_new sc sch p).

(** The fields of [decode], in order, with a reader of authorizations. *)
Definition read_parts (read_auth : ereader AuthorizationProof) : ereader ExecutionEnvelopeV1Parts :=
  let! version := prim read_u16 in
  if negb (version =? ENVELOPE_VERSION_V1) then eff_fail (ExecutionEnvelopeError.UnsupportedVersion version)
  else
    let! chain := prim read_u64 in
    let! b := prim env_read_u8 in
    let! domain := eff_lift (exec_domain_try_from b) in
    let! after := prim read_u64 in
    let! until := prim read_u64 in
    let! principal := read_address in
    let! payer := read_option read_address in
    let! caps := read_fee_caps in
    let! count := prim (read_len MAX_AUTH_PROOFS) in
    let! auths := repeat_read count read_auth in
    let! payload := prim (read_var_bytes MAX_DOMAIN_PAYLOAD_BYTES) in
    let! hints := read_option (prim (read_var_bytes MAX_ACCESS_HINT_BYTES)) in
    eff_ret (MkEnvelopeParts chain domain after until principal payer caps auths payload hints).

Definition ExecutionEnvelopeV1_decode (bytes : list byte) : result ExecutionEnvelopeError.t ExecutionEnvelopeV1 :=
  if Z.of_nat (length bytes) >? MAX_ENVELOPE_BYTES then Err ExecutionEnvelopeError.EnvelopeTooLarge
  else fst ((let! parts := read_parts read_authorization in
             let! _ := prim finish in
             eff_lift (ExecutionEnvelopeV1_new parts)) (Decoder_new bytes)).

(** ** Codecs *)

Lemma exec_domain_try_from_Ok b d : exec_domain_try_from b = Ok d <-> b = exec_domain_byte d.
Proof. split; [destruct b; simpl; intros [= <-]; done|intros ->; by destruct d]. Qed.

Lemma scope_try_from_Ok b s : scope_try_from b = Ok s <-> b = scope_byte s.
Proof. split; [destruct b; simpl; intros [= <-]; done|intros ->; by destruct s]. Qed.

Lemma auth_scheme_try_from_Ok v s : auth_scheme_try_from v = Ok s <-> v = auth_scheme_u16 s.
Proof.
  unfold auth_scheme_try_from. split; [|intros ->; by destruct s].
  repeat (case_match; [intros [= <-]; simpl; lia|]). done.
Qed.

#[export] Instance prim_codec {A} (enc : A -> list byte) (rd : reader A) wf `{!Codec enc rd wf} :
  Codec enc (prim rd) wf.
Proof. unfold prim. apply _. Qed.

#[export] Instance env_read_u8_codec : Codec (fun b => [b]) env_read_u8 (fun _ => True).
Proof.
  intros d b d' W. unfold env_read_u8. split.
  - intros H. codec_fwd H. injection H as <- <-. destruct a as [|x [|]]; done.
  - intros [_ C]. by codec_bwd.
Qed.

#[export] Instance read_address_codec : Codec ExecutionAddress_to_bytes read_address address_ok.
Proof.
  apply (codec_convert (fun l => l) (prim (read_bytes 33)) (fun l => length l = 33%nat) _ ExecutionAddress_to_bytes).
  - apply _.
  - intros b a _. rewrite map_err_Ok, address_from_slice_spec. tauto.
  - intros a _. apply length_to_bytes.
Qed.

Definition option_wf {A} (wf : A -> Prop) (o : option A) : Prop := match o with None => True | Some a => wf a end.

#[export] Instance read_option_codec {A} (enc : A -> list byte) (rd : ereader A) wf `{!Codec enc rd wf} :
  Codec (encode_option enc) (read_option rd) (option_wf wf).
Proof.
  intros d o d' W. unfold read_option. split.
  - intros H. codec_fwd H. destruct a; try done.
    + injection H as <- <-. done.
    + codec_fwd H. injection H as <- <-. split; [done|]. simpl. by eapply (consumes_chain _ [_]).
  - intros [Wo C]. destruct o as [a|]; simpl in C.
    + apply consumes_cons in C as (d1 & C1 & C); [|done]. codec_bwd; [done|]. simpl. by codec_bwd.
    + by codec_bwd.
Qed.

Definition caps_ok (c : FeeCaps) : Prop :=
  in_u64 (caps_max_fee_per_weight c) /\ in_u64 (caps_max_priority_fee_per_weight c) /\
  in_u64 (caps_max_weight c) /\ caps_max_weight c <> 0 /\
  caps_max_priority_fee_per_weight c <= caps_max_fee_per_weight c.

#[export] Instance read_fee_caps_codec : Codec encode_fee_caps read_fee_caps caps_ok.
Proof.
  intros d [f p w] d' W. unfold read_fee_caps, encode_fee_caps, caps_ok; simpl. split.
  - intros H. do 3 codec_fwd H. injection H as H <-. unfold FeeCaps_new in H.
    destruct (Z.eqb_spec a1 0); [done|]. destruct (a0 >? a) eqn:E; [done|]. injection H as <- <- <-.
    split; [split_and!; (done || lia)|]. consumes_join.
  - intros [(? & ? & ? & ? & ?) C]. do 2 consumes_split C. do 3 (codec_bwd; [done|]).
    unfold eff_lift, FeeCaps_new. destruct (Z.eqb_spec w 0); [done|]. destruct (p >? f) eqn:E; [lia|done].
Qed.

Definition auth_ok (a : AuthorizationProof) : Prop :=
  match auth_scheme a with
  | OregonSchnorrV1 => length (proof a) = 96%nat
  | EthereumEcdsaV1 => length (proof a) = 65%nat
  | OregonThresholdV1 => 1 <= Z.of_nat (length (proof a)) <= MAX_AUTH_PROOF_BYTES
  end.

Lemma proof_length_valid_spec s p q : proof_length_valid q (length p) = true <-> auth_ok (MkAuthorizationProof s q p).
Proof. destruct q; simpl; unfold auth_ok; simpl; [apply Nat.eqb_eq..|]. rewrite andb_true_iff. lia. Qed.

Lemma auth_ok_fits a : auth_ok a -> fits (proof a) MAX_AUTH_PROOF_BYTES.
Proof.
  unfold auth_ok, fits, MAX_AUTH_PROOF_BYTES. unfold_ints. destruct (auth_scheme a); lia.
Qed.

Lemma auth_scheme_range s : in_u16 (auth_scheme_u16 s).
Proof. destruct s; unfold_ints; simpl; lia. Qed.

#[export] Instance read_authorization_codec : Codec encode_authorization read_authorization auth_ok.
Proof.
  intros d [s q p] d' W. unfold read_authorization, encode_authorization; simpl. split.
  - intros H. codec_fwd H. unfold eff_bind at 1, eff_lift in H. destruct (scope_try_from a) eqn:E1; [|done].
    codec_fwd H. unfold eff_bind at 1, eff_lift in H. destruct (auth_scheme_try_from a1) eqn:E2; [|done].
    codec_fwd H. injection H as H <-. unfold AuthorizationProof_new in H.
    destruct (proof_length_valid _ _) eqn:E3; [|done]. injection H as -> -> ->.
    apply scope_try_from_Ok in E1 as ->. apply auth_scheme_try_from_Ok in E2 as ->.
    split; [by apply proof_length_valid_spec|]. eapply (consumes_chain _ [_]); [done|]. consumes_join.
  - intros [Wa C]. apply consumes_cons in C as (d1 & C1 & C); [|done]. consumes_split C.
    codec_bwd; [done|]. unfold eff_bind at 1, eff_lift. rewrite (proj2 (scope_try_from_Ok _ s)) by done.
    codec_bwd; [apply auth_scheme_range|]. unfold eff_bind at 1, eff_lift.
    rewrite (proj2 (auth_scheme_try_from_Ok _ q)) by done. codec_bwd; [by apply (auth_ok_fits _ Wa)|].
    unfold eff_lift, AuthorizationProof_new. by rewrite (proj2 (proof_length_valid_spec s p q)).
Qed.

(** The field ranges a decoded envelope has. *)
Definition parts_within (wf_auth : AuthorizationProof -> Prop) (p : ExecutionEnvelopeV1Parts) : Prop :=
  in_u64 (parts_chain_id p) /\ in_u64 (parts_valid_after_height p) /\ in_u64 (parts_valid_until_height p) /\
  address_ok (parts_principal p) /\ option_wf address_ok (parts_fee_payer p) /\ caps_ok (parts_fee_caps p) /\
  fits (parts_authorizations p) MAX_AUTH_PROOFS /\ Forall wf_auth (parts_authorizations p) /\
  fits (parts_domain_payload p) MAX_DOMAIN_PAYLOAD_BYTES /\
  option_wf (fun h => fits h MAX_ACCESS_HINT_BYTES) (parts_access_hints p).

#[export] Instance read_parts_codec enc_auth (rd_auth : ereader AuthorizationProof) wf_auth
  `{!Codec enc_auth rd_auth wf_auth} :
  Codec (fun p => encode_with enc_auth (of_parts p)) (read_parts rd_auth) (parts_within wf_auth).
Proof.
  intros d p d' W. destruct p as [c dm a u pr py cp au pl hi].
  unfold read_parts, encode_with, encode_common_prefix, encode_payload_and_hints, parts_within.
  cbn [of_parts chain_id execution_domain valid_after_height valid_until_height principal fee_payer fee_caps
       authorizations domain_payload access_hints parts_chain_id parts_execution_domain
       parts_valid_after_height parts_valid_until_height parts_principal parts_fee_payer parts_fee_caps
       parts_authorizations parts_domain_payload parts_access_hints]. rewrite <- !app_assoc. split.
  - intros H. codec_fwd H. destruct (Z.eqb_spec a0 ENVELOPE_VERSION_V1) as [->|]; [cbn [negb] in H|done].
    do 2 codec_fwd H. unfold eff_bind at 1, eff_lift in H.
    destruct (exec_domain_try_from a1) eqn:E1; [|done]. apply exec_domain_try_from_Ok in E1 as ->.
    do 9 codec_fwd H. injection H as <- <- <- <- <- <- <- <- <- <- <-.
    destruct Wf8 as [<- ?]. split; [by split_and!|]. consumes_join.
  - intros [(? & ? & ? & ? & ? & ? & [? ?] & ? & ? & ?) C]. do 11 consumes_split C.
    codec_bwd; [done|]. cbn [Z.eqb ENVELOPE_VERSION_V1 Pos.eqb negb].
    do 2 (codec_bwd; [done|]). unfold eff_bind at 1, eff_lift. rewrite (proj2 (exec_domain_try_from_Ok _ dm)) by done.
    do 9 (codec_bwd; [done|]). done.
Qed.

(** ** The rules of an envelope *)

(** Exactly the principal authorizes, and after it the fee payer if there is
    one; Ethereum signatures only for the EVM and without height window. *)
Definition authorizations_ok (d : ExecutionDomain) (after until : Z) (payer : option ExecutionAddress)
    (l : list AuthorizationProof) : Prop :=
  map scope l = match payer with None => [Principal] | Some _ => [Principal; FeePayer] end /\
  (EthereumEcdsaV1 ∈ map auth_scheme l -> d = ExecEvm /\ after = 0 /\ until = U64_MAX).

Record envelope_ok (e : ExecutionEnvelopeV1) : Prop := MkEnvelopeOk {
  eo_chain : in_u64 (chain_id e);
  eo_heights : 0 <= valid_after_height e <= valid_until_height e /\ valid_until_height e <= U64_MAX;
  eo_principal : address_ok (principal e);
  eo_payer : option_wf (fun a => address_ok a /\ a <> principal e) (fee_payer e);
  eo_caps : caps_ok (fee_caps e);
  eo_proofs : Forall auth_ok (authorizations e);
  eo_auths : authorizations_ok (execution_domain e) (valid_after_height e) (valid_until_height e)
               (fee_payer e) (authorizations e);
  eo_payload : Z.of_nat (length (domain_payload e)) <= MAX_DOMAIN_PAYLOAD_BYTES;
  eo_hints : option_wf (fun h => 0 < Z.of_nat (length h) <= MAX_ACCESS_HINT_BYTES) (access_hints e);
}.

Lemma uses_ethereum_spec l : uses_ethereum l = true <-> EthereumEcdsaV1 ∈ map auth_scheme l.
Proof.
  unfold uses_ethereum. rewrite existsb_exists, list_elem_of_fmap. setoid_rewrite bool_decide_eq_true.
  setoid_rewrite <- list_elem_of_In. naive_solver.
Qed.

Lemma validate_authorizations_spec d after until payer l :
  validate_authorizations d after until (bool_decide (is_Some payer)) l = Ok tt <->
  authorizations_ok d after until payer l.
Proof.
  unfold authorizations_ok. rewrite <- uses_ethereum_spec.
  assert (forall u : bool, (if u then
      if negb (bool_decide (d = ExecEvm)) then Err ExecutionEnvelopeError.EthereumAuthorizationOutsideEvm
      else if negb (after =? 0) || negb (until =? U64_MAX)
      then Err ExecutionEnvelopeError.EthereumAuthorizationRequiresNeutralHeightWindow else Ok tt
    else Ok tt) = Ok tt <-> (u = true -> d = ExecEvm /\ after = 0 /\ until = U64_MAX)) as HE.
  { intros [|]; [|done]. destruct (bool_decide_reflect (d = ExecEvm)); cbn [negb]; [|naive_solver].
    destruct (Z.eqb_spec after 0), (Z.eqb_spec until U64_MAX); cbn [negb orb]; naive_solver. }
  destruct l as [|a l]; [destruct payer; naive_solver|]. unfold validate_authorizations.
  set (u := uses_ethereum (a :: l)). specialize (HE u). clearbody u.
  destruct l as [|b [|c l]].
  - unfold has_scope. destruct a as [[] q p], payer; simpl; rewrite ?HE; naive_solver.
  - unfold has_scope. destruct a as [[] q p], b as [[] q' p'], payer; simpl; rewrite ?HE; naive_solver.
  - cbv zeta. destruct (Z.of_nat _ >? MAX_AUTH_PROOFS) eqn:E; [|rewrite Z.gtb_ltb, Z.ltb_ge in E; unfold MAX_AUTH_PROOFS in E; cbn [length] in E; lia].
    destruct payer; naive_solver.
Qed.

Lemma check_access_hints_spec h :
  check_access_hints h = Ok tt <-> option_wf (fun h => 0 < Z.of_nat (length h) <= MAX_ACCESS_HINT_BYTES) h.
Proof.
  destruct h as [h|]; [|done]. simpl. destruct (Nat.eqb_spec (length h) 0); [split; [done|lia]|].
  destruct (_ >? _) eqn:E; [split; [done|lia]|]. split; [lia|done].
Qed.

Lemma scopes_length d after until payer l : authorizations_ok d after until payer l -> (length l <= 2)%nat.
Proof. intros [E _]. rewrite <- (length_map scope l), E. destruct payer; simpl; lia. Qed.

Lemma ExecutionEnvelopeV1_new_spec p e :
  parts_within auth_ok p -> ExecutionEnvelopeV1_new p = Ok e <-> e = of_parts p /\ envelope_ok e.
Proof.
  intros (H1 & H2 & H3 & H4 & H5 & H6 & H7 & H8 & H9 & H10). unfold ExecutionEnvelopeV1_new.
  destruct (parts_valid_after_height p >? parts_valid_until_height p) eqn:E1.
  { split; [done|]. intros [-> [? ? _ _ _ _ _ _ _]]. simpl in *. lia. }
  destruct (bool_decide_reflect (parts_fee_payer p = Some (parts_principal p))) as [E2|E2].
  { split; [done|]. intros [-> [_ _ _ HP _ _ _ _ _]]. simpl in *. rewrite E2 in HP. by destruct HP. }
  destruct (Z.of_nat _ >? MAX_DOMAIN_PAYLOAD_BYTES) eqn:E3.
  { split; [done|]. intros [-> [_ _ _ _ _ _ _ ? _]]. simpl in *. lia. }
  pose proof (check_access_hints_spec (parts_access_hints p)) as HH.
  pose proof (validate_authorizations_spec (parts_execution_domain p) (parts_valid_after_height p)
    (parts_valid_until_height p) (parts_fee_payer p) (parts_authorizations p)) as HV.
  destruct (check_access_hints _) as [[]|]; [|split; [done|intros [-> [_ _ _ _ _ _ _ _ ?]]; naive_solver]].
  destruct (validate_authorizations _ _ _ _ _) as [[]|]; [|split; [done|intros [-> [_ _ _ _ _ _ ? _ _]]; naive_solver]].
  split; [|naive_solver]. intros [= <-]. split; [done|].
  constructor; simpl; try done; [unfold_ints; lia| |by apply HV|lia|by apply HH].
  destruct (parts_fee_payer p); simpl in *; [|done]. split; [done|]. congruence.
Qed.

Definition to_parts (e : ExecutionEnvelopeV1) : ExecutionEnvelopeV1Parts :=
  MkEnvelopeParts (chain_id e) (execution_domain e) (valid_after_height e) (valid_until_height e) (principal e)
    (fee_payer e) (fee_caps e) (authorizations e) (domain_payload e) (access_hints e).

Lemma of_to_parts e : of_parts (to_parts e) = e.
Proof. by destruct e. Qed.

Lemma envelope_parts_within e (wf : AuthorizationProof -> Prop) :
  envelope_ok e -> Forall wf (authorizations e) -> parts_within wf (to_parts e).
Proof.
  intros [H1 H2 H3 H4 H5 H6 H7 H8 H9] HW. unfold parts_within, fits, MAX_AUTH_PROOFS. simpl.
  apply scopes_length in H7. unfold MAX_DOMAIN_PAYLOAD_BYTES, MAX_ACCESS_HINT_BYTES in *. unfold_ints.
  split_and!; try done; try lia.
  - destruct (fee_payer e); naive_solver.
  - destruct (access_hints e); simpl in *; [split; lia|done].
Qed.

(** Every envelope fits the limit on encoded envelopes. *)
Lemma length_encode_option {A} (enc : A -> list byte) n o :
  option_wf (fun a => (length (enc a) <= n)%nat) o -> (length (encode_option enc o) <= 1 + n)%nat.
Proof. destruct o; simpl; lia. Qed.

Lemma length_encode_var_bytes l : (length (encode_var_bytes l) <= 9 + length l)%nat.
Proof. unfold encode_var_bytes. rewrite length_app. pose proof (length_write_varint (Z.of_nat (length l))). lia. Qed.

Lemma length_encode_all_le {A} (enc : A -> list byte) n l :
  Forall (fun a => (length (enc a) <= n)%nat) l -> (length (encode_all enc l) <= length l * n)%nat.
Proof. unfold encode_all. induction 1; simpl; [lia|]. rewrite length_app. lia. Qed.

Lemma encode_with_length enc e :
  envelope_ok e -> Forall (fun a => (length (enc a) <= 4108)%nat) (authorizations e) ->
  Z.of_nat (length (encode_with enc e)) <= MAX_ENVELOPE_BYTES.
Proof.
  intros [_ _ _ _ _ _ HA HP HH] HE.
  pose proof (scopes_length _ _ _ _ _ HA). apply length_encode_all_le in HE.
  pose proof (length_write_varint (Z.of_nat (length (authorizations e)))).
  pose proof (length_encode_option ExecutionAddress_to_bytes 33 (fee_payer e)
    ltac:(destruct (fee_payer e); simpl; [by rewrite arr_length|done])).
  assert (Z.of_nat (length (encode_option encode_var_bytes (access_hints e))) <= 10 + MAX_ACCESS_HINT_BYTES).
  { destruct (access_hints e) as [h|]; cbn [encode_option length option_wf] in *; [|by vm_compute].
    pose proof (length_encode_var_bytes h). lia. }
  pose proof (length_encode_var_bytes (domain_payload e)).
  unfold encode_with, encode_common_prefix, encode_payload_and_hints, encode_fee_caps.
  rewrite !length_app, !length_le_bytes, length_to_bytes.
  unfold MAX_ENVELOPE_BYTES, MAX_DOMAIN_PAYLOAD_BYTES, MAX_ACCESS_HINT_BYTES in *. cbn [length]. nia.
Qed.

Lemma encode_authorization_length a : auth_ok a -> (length (encode_authorization a) <= 4108)%nat.
Proof.
  intros [HF _]%auth_ok_fits. unfold encode_authorization. pose proof (length_encode_var_bytes (proof a)).
  rewrite !length_app, length_le_bytes. unfold MAX_AUTH_PROOF_BYTES in HF. cbn [length]. lia.
Qed.

Lemma envelope_encode_length e :
  envelope_ok e -> Z.of_nat (length (ExecutionEnvelopeV1_encode e)) <= MAX_ENVELOPE_BYTES.
Proof.
  intros HO. apply encode_with_length; [done|]. eapply Forall_impl; [exact (eo_proofs _ HO)|].
  apply encode_authorization_length.
Qed.

Lemma envelope_decode_spec bytes e :
  ExecutionEnvelopeV1_decode bytes = Ok e <-> bytes = ExecutionEnvelopeV1_encode e /\ envelope_ok e.
Proof.
  unfold ExecutionEnvelopeV1_decode. destruct (_ >? _) eqn:E.
  { split; [done|]. intros [-> HO%envelope_encode_length]. lia. }
  unfold prim at 1. rewrite (decode_checked_spec _ ExecutionEnvelopeV1_new
    (fun p => encode_with encode_authorization (of_parts p)) _ (parts_within auth_ok))
    by (unfold MAX_ENVELOPE_BYTES in E; unfold_ints; lia). split.
  - intros (p & Hp & -> & HN). by apply (ExecutionEnvelopeV1_new_spec p e Hp) in HN as [-> ?].
  - intros [-> HO]. exists (to_parts e). rewrite of_to_parts.
    pose proof (envelope_parts_within e auth_ok HO (eo_proofs _ HO)) as HW.
    split_and!; [done..|]. apply (ExecutionEnvelopeV1_new_spec _ _ HW). by rewrite of_to_parts.
Qed.

(** ** What a signature covers *)

(** The envelope with its proofs blanked. *)
Definition without_proofs (e : ExecutionEnvelopeV1) : ExecutionEnvelopeV1 :=
  MkEnvelope (chain_id e) (execution_domain e) (valid_after_height e) (valid_until_height e) (principal e)
    (fee_payer e) (fee_caps e) (map (fun a => MkAuthorizationProof (scope a) (auth_scheme a) []) (authorizations e))
    (domain_payload e) (access_hints e).

(** A reader of the authorization headers: the signed bytes can be parsed. *)
Definition read_authorization_header : ereader AuthorizationProof :=
  let! s := prim env_read_u8 in
  let! sc := eff_lift (scope_try_from s) in
  let! v := prim read_u16 in
  let! sch := eff_lift (auth_scheme_try_from v) in
  eff_ret (MkAuthorizationProof sc sch []).

#[export] Instance read_authorization_header_codec :
  Codec encode_authorization_header read_authorization_header (fun a => proof a = []).
Proof.
  intros d [s q p] d' W. unfold read_authorization_header, encode_authorization_header; simpl. split.
  - intros H. codec_fwd H. unfold eff_bind at 1, eff_lift in H. destruct (scope_try_from a) eqn:E1; [|done].
    codec_fwd H. unfold eff_bind at 1, eff_lift in H. destruct (auth_scheme_try_from a1) eqn:E2; [|done].
    injection H as -> -> <- <-.
    apply scope_try_from_Ok in E1 as ->. apply auth_scheme_try_from_Ok in E2 as ->.
    split; [done|]. eapply (consumes_chain _ [_]); done.
  - intros [-> C]. apply consumes_cons in C as (d1 & C1 & C); [|done].
    codec_bwd; [done|]. unfold eff_bind at 1, eff_lift. rewrite (proj2 (scope_try_from_Ok _ s)) by done.
    codec_bwd; [apply auth_scheme_range|]. unfold eff_bind at 1, eff_lift.
    by rewrite (proj2 (auth_scheme_try_from_Ok _ q)).
Qed.

Lemma signing_bytes_without_proofs e : signing_bytes (without_proofs e) = signing_bytes e.
Proof.
  unfold signing_bytes, encode_with, encode_common_prefix, encode_payload_and_hints, without_proofs. simpl.
  rewrite length_map. f_equal. f_equal. f_equal. unfold encode_all.
  induction (authorizations e) as [|a l IH]; cbn [map flat_map]; [done|]. by rewrite IH.
Qed.

Lemma signing_bytes_inj e1 e2 :
  envelope_ok e1 -> envelope_ok e2 -> signing_bytes e1 = signing_bytes e2 -> without_proofs e1 = without_proofs e2.
Proof.
  intros H1 H2. rewrite <- (signing_bytes_without_proofs e1), <- (signing_bytes_without_proofs e2). intros E.
  assert (forall e, envelope_ok e -> parts_within (fun a => proof a = []) (to_parts (without_proofs e))) as HW.
  { intros e HO. pose proof (envelope_parts_within e (fun _ => True) HO (Forall_true _ _ (fun _ => I))) as HP.
    unfold parts_within, fits in *. simpl in *. rewrite length_map. destruct HP as (? & ? & ? & ? & ? & ? & ? & ? & ? & ?).
    split_and!; try done; try tauto. apply Forall_fmap, Forall_true. done. }
  destruct (codec_prefix (fun p => encode_with encode_authorization_header (of_parts p)) _
    (parts_within (fun a => proof a = [])) (to_parts (without_proofs e1)) (to_parts (without_proofs e2)) [] [])
    as [EQ _]; [by apply HW..| |by rewrite !app_nil_r|by apply (f_equal of_parts) in EQ].
  rewrite app_nil_r, of_to_parts. change (encode_with encode_authorization_header (without_proofs e1)) with
    (signing_bytes (without_proofs e1)). rewrite signing_bytes_without_proofs.
  pose proof (encode_with_length encode_authorization_header e1 H1) as HL. unfold signing_bytes.
  assert (Forall (fun a => (length (encode_authorization_header a) <= 4108)%nat) (authorizations e1)) as HF.
  { apply Forall_true. intros a. unfold encode_authorization_header. rewrite length_app, length_le_bytes. simpl. lia. }
  specialize (HL HF). unfold MAX_ENVELOPE_BYTES in HL. unfold_ints. lia.
Qed.

(** ** Properties *)

(** The envelope wire format.  Decoding accepts exactly the encodings of
    the envelopes that satisfy the rules (ordered heights, a fee payer other
    than the principal, one proof per scope in order with the length of its
    scheme, Ethereum signatures only in the EVM without height window, bounded
    payload and hints), so every envelope has one encoding, and every envelope
    that satisfies them fits the size limit. *)
Theorem envelope_decode_exact bytes e :
  ExecutionEnvelopeV1_decode bytes = Ok e <->
  bytes = ExecutionEnvelopeV1_encode e /\ envelope_ok e /\ Z.of_nat (length bytes) <= MAX_ENVELOPE_BYTES.
Proof.
  rewrite envelope_decode_spec. split; [|naive_solver]. intros [-> HO]. split_and!; try done.
  by apply envelope_encode_length.
Qed.

(** C37: what the digests of an envelope bind.  Two envelopes with one signing
    hash agree in everything but their proofs, and blanking the proofs does
    not change the hash; two envelopes with one transaction id are equal.
    Otherwise the messages hashed are a blake3 collision. *)
Theorem envelope_digests_bind `{Blake3} e1 e2 :
  envelope_ok e1 -> envelope_ok e2 ->
  (signing_hash e1 = signing_hash e2 ->
     without_proofs e1 = without_proofs e2 \/
     collision_in [SIGNING_DOMAIN ++ signing_bytes e1] [SIGNING_DOMAIN ++ signing_bytes e2]) /\
  (without_proofs e1 = without_proofs e2 -> signing_hash e1 = signing_hash e2) /\
  (ExecutionEnvelopeV1_txid e1 = ExecutionEnvelopeV1_txid e2 ->
     e1 = e2 \/
     collision_in [TXID_DOMAIN ++ ExecutionEnvelopeV1_encode e1] [TXID_DOMAIN ++ ExecutionEnvelopeV1_encode e2]).
Proof.
  intros H1 H2. split_and!.
  - intros [E|C]%(domain_hash_inj SIGNING_DOMAIN); [left; by apply signing_bytes_inj|by right].
  - intros E. unfold signing_hash. rewrite <- (signing_bytes_without_proofs e1), E.
    by rewrite signing_bytes_without_proofs.
  - intros [E|C]%(domain_hash_inj TXID_DOMAIN); [left|by right].
    assert (ExecutionEnvelopeV1_decode (ExecutionEnvelopeV1_encode e1) = Ok e1) as D1 by (by apply envelope_decode_spec).
    assert (ExecutionEnvelopeV1_decode (ExecutionEnvelopeV1_encode e2) = Ok e2) as D2 by (by apply envelope_decode_spec).
    rewrite E in D1. congruence.
Qed.

Definition demo_envelope (tag : byte) : ExecutionEnvelopeV1 :=
  MkEnvelope 7 ExecWasm 5 9 (MkExecutionAddress KindWasm (arr_fill 32 x21))
    (Some (MkExecutionAddress KindOregon (arr_fill 32 x22))) (MkFeeCaps 10 2 1000)
    [MkAuthorizationProof Principal OregonSchnorrV1 (replicate 96 tag);
     MkAuthorizationProof FeePayer OregonThresholdV1 [x01; x02]] [x0a; x0b] (Some [x0c]).

Lemma demo_envelope_ok tag : envelope_ok (demo_envelope tag).
Proof.
  constructor; simpl; unfold address_ok, caps_ok, auth_ok, authorizations_ok, MAX_DOMAIN_PAYLOAD_BYTES,
    MAX_ACCESS_HINT_BYTES, MAX_AUTH_PROOF_BYTES; unfold_ints; simpl; try lia; try done.
  - repeat constructor; simpl; lia.
  - split; [done|]. rewrite !elem_of_cons, elem_of_nil. naive_solver.
Qed.

Lemma envelope_digests_bind_witness :
  signing_hash (H := demo_blake3) (demo_envelope x01) = signing_hash (H := demo_blake3) (demo_envelope x02).
Proof.
  apply (envelope_digests_bind (H := demo_blake3) (demo_envelope x01) (demo_envelope x02)
           (demo_envelope_ok x01) (demo_envelope_ok x02)). reflexivity.
Defined.
