(* ===== verification/FeeReceipt.v ===== *)
(** [oregon-primitives/fee_settlement.rs]: fee-settlement receipts. *)
From S2P Require Import Prelude Encoding Layout Address.

Inductive FeeSourceKind : Type := NativeUtxo | ExecutionBalance.
Inductive ExecutionOutcome : Type := Committed | Reverted | ResourceExhausted.

#[global] Instance FeeSourceKind_eq_dec : EqDecision FeeSourceKind.
Proof. solve_decision. Defined.
#[global] Instance ExecutionOutcome_eq_dec : EqDecision ExecutionOutcome.
Proof. solve_decision. Defined.

Module FeeSettlementError.
Inductive t : Type :=
| UnknownFeeSourceKind (value : byte)
| UnknownExecutionOutcome (value : byte)
| InvalidReceiptLength (len : nat)
| UnsupportedReceiptVersion (version : Z)
| InvalidActualWeight
| MaxFeeBelowBaseFee
| PriorityFeeExceedsMaxFee
| ArithmeticOverflow
| AmountExceedsMaximumSupply
| InconsistentArithmetic
| Primitive (e : PrimitiveError.t)
| Address (e : ExecutionAddressError.t).
End FeeSettlementError.

Definition source_byte (k : FeeSourceKind) : byte := match k with NativeUtxo => x01 | ExecutionBalance => x02 end.
Definition source_try_from (value : byte) : result FeeSettlementError.t FeeSourceKind :=
  match value with
  | x01 => Ok NativeUtxo
  | x02 => Ok ExecutionBalance
  | _ => Err (FeeSettlementError.UnknownFeeSourceKind value)
  end.

Definition outcome_byte (o : ExecutionOutcome) : byte :=
  match o with Committed => x00 | Reverted => x01 | ResourceExhausted => x02 end.
Definition outcome_try_from (value : byte) : result FeeSettlementError.t ExecutionOutcome :=
  match value with
  | x00 => Ok Committed
  | x01 => Ok Reverted
  | x02 => Ok ResourceExhausted
  | _ => Err (FeeSettlementError.UnknownExecutionOutcome value)
  end.

Record FeeSettlementReceiptV1Parts : Type := MkFeeParts {
  fr_txid : Hash256;
  fr_escrow_id : Hash256;
  fr_payer : ExecutionAddress;
  fr_source_kind : FeeSourceKind;
  fr_outcome : ExecutionOutcome;
  fr_base_fee : Z;
  fr_max_fee : Z;
  fr_max_priority_fee : Z;
  fr_max_weight : Z;
  fr_actual_weight : Z;
  fr_effective_price : Z;
  fr_base_component : Z;
  fr_priority_component : Z;
  fr_charged : Z;
  fr_refund : Z;
}.

Record FeeSettlementReceiptV1 : Type := MkFeeSettlementReceiptV1 { fr_parts : FeeSettlementReceiptV1Parts }.

Definition RECEIPT_VERSION : Z := 1.
Definition RECEIPT_DOMAIN : list byte := domain_tag "OREGON/FEE/RECEIPT/V1".
Definition RECEIPT_BYTES : nat := 181.

Definition validate_arithmetic (p : FeeSettlementReceiptV1Parts) : result FeeSettlementError.t unit :=
  if (fr_max_weight p =? 0) || (fr_actual_weight p =? 0) || (fr_actual_weight p >? fr_max_weight p)
  then Err FeeSettlementError.InvalidActualWeight
  else if fr_max_fee p <? fr_base_fee p then Err FeeSettlementError.MaxFeeBelowBaseFee
  else if fr_max_priority_fee p >? fr_max_fee p then Err FeeSettlementError.PriorityFeeExceedsMaxFee
  else
    let max_escrow := fr_max_weight p * fr_max_fee p in
    if max_escrow >? U64_MAX then Err FeeSettlementError.ArithmeticOverflow
    else if max_escrow >? MAX_SUPPLY_BASE_UNITS then Err FeeSettlementError.AmountExceedsMaximumSupply
    else
      let offered_price := fr_base_fee p + fr_max_priority_fee p in
      let effective_price := Z.min (fr_max_fee p) offered_price in
      let charged := fr_actual_weight p * effective_price in
      let base_component := fr_actual_weight p * fr_base_fee p in
      let? priority_component := ok_or (checked_sub charged base_component)
                                   FeeSettlementError.InconsistentArithmetic in
      let? refund := ok_or (checked_sub max_escrow charged) FeeSettlementError.InconsistentArithmetic in
      if negb (effective_price =? fr_effective_price p) || negb (base_component =? fr_base_component p)
         || negb (priority_component =? fr_priority_component p) || negb (charged =? fr_charged p)
         || negb (refund =? fr_refund p)
      then Err FeeSettlementError.InconsistentArithmetic
      else Ok tt.

Definition FeeSettlementReceiptV1_new (p : FeeSettlementReceiptV1Parts)
  : result FeeSettlementError.t FeeSettlementReceiptV1 :=
  let? _ := validate_arithmetic p in Ok (MkFeeSettlementReceiptV1 p).

(** The ten little-endian counters, in the order both functions use. *)
Definition fr_numbers (p : FeeSettlementReceiptV1Parts) : list Z :=
  [fr_base_fee p; fr_max_fee p; fr_max_priority_fee p; fr_max_weight p; fr_actual_weight p;
   fr_effective_price p; fr_base_component p; fr_priority_component p; fr_charged p; fr_refund p].

Definition fee_receipt_fields (r : FeeSettlementReceiptV1) : list (list byte) :=
  let p := fr_parts r in
  [le_bytes 2 RECEIPT_VERSION; arr_bytes (fr_txid p); arr_bytes (fr_escrow_id p);
   ExecutionAddress_to_bytes (fr_payer p); [source_byte (fr_source_kind p)];
   [outcome_byte (fr_outcome p)]] ++ map (le_bytes 8) (fr_numbers p).

Definition fee_receipt_encode (r : FeeSettlementReceiptV1) : list byte := concat (fee_receipt_fields r).

Definition fee_receipt_decode (bytes : list byte) : result FeeSettlementError.t FeeSettlementReceiptV1 :=
  if negb (length bytes =? RECEIPT_BYTES)%nat
  then Err (FeeSettlementError.InvalidReceiptLength (length bytes))
  else
    let version := le_at 0 2 bytes in
    if negb (version =? RECEIPT_VERSION) then Err (FeeSettlementError.UnsupportedReceiptVersion version)
    else
      let? txid := map_err FeeSettlementError.Primitive (Hash256_from_slice (slice 2 34 bytes)) in
      let? escrow_id := map_err FeeSettlementError.Primitive (Hash256_from_slice (slice 34 66 bytes)) in
      let? payer := map_err FeeSettlementError.Address (ExecutionAddress_from_slice (slice 66 99 bytes)) in
      let? source_kind := source_try_from (byte_at 99 bytes) in
      let? outcome := outcome_try_from (byte_at 100 bytes) in
      FeeSettlementReceiptV1_new
        (MkFeeParts txid escrow_id payer source_kind outcome
           (le_at 101 109 bytes) (le_at 109 117 bytes) (le_at 117 125 bytes) (le_at 125 133 bytes)
           (le_at 133 141 bytes) (le_at 141 149 bytes) (le_at 149 157 bytes) (le_at 157 165 bytes)
           (le_at 165 173 bytes) (le_at 173 181 bytes)).

Definition fee_receipt_id `{Blake3} (r : FeeSettlementReceiptV1) : Hash256 :=
  domain_hash RECEIPT_DOMAIN (fee_receipt_encode r).

(** ** Facts *)

(** The settlement equations, over the integers. *)
Definition settlement_exact (p : FeeSettlementReceiptV1Parts) : Prop :=
  0 < fr_actual_weight p <= fr_max_weight p /\ fr_base_fee p <= fr_max_fee p /\
  fr_max_priority_fee p <= fr_max_fee p /\
  fr_max_weight p * fr_max_fee p <= MAX_SUPPLY_BASE_UNITS /\
  fr_effective_price p = Z.min (fr_max_fee p) (fr_base_fee p + fr_max_priority_fee p) /\
  fr_charged p = fr_actual_weight p * fr_effective_price p /\
  fr_base_component p = fr_actual_weight p * fr_base_fee p /\
  fr_charged p = fr_base_component p + fr_priority_component p /\
  fr_charged p + fr_refund p = fr_max_weight p * fr_max_fee p.

Definition fee_inputs_ok (p : FeeSettlementReceiptV1Parts) : Prop := Forall in_u64 (fr_numbers p).

Lemma validate_arithmetic_spec p :
  fee_inputs_ok p -> validate_arithmetic p = Ok tt <-> settlement_exact p.
Proof.
  intros HF. unfold fee_inputs_ok, fr_numbers in HF. rewrite !Forall_cons in HF. unfold_ints.
  destruct HF as (Hb & Hm & Hp & Hw & Ha & He & Hbc & Hpc & Hc & Hr & _).
  unfold validate_arithmetic, settlement_exact. cbv zeta.
  set (e := Z.min (fr_max_fee p) (fr_base_fee p + fr_max_priority_fee p)).
  assert (fr_base_fee p <= fr_max_fee p -> fr_base_fee p <= e <= fr_max_fee p) as Hee by lia.
  destruct ((fr_max_weight p =? 0) || (fr_actual_weight p =? 0) || (fr_actual_weight p >? fr_max_weight p)) eqn:E1.
  { split; [done|]. intros (? & _). rewrite !orb_true_iff in E1. lia. }
  rewrite !orb_false_iff in E1. destruct (Z.ltb_spec (fr_max_fee p) (fr_base_fee p)); [split; [done|lia]|].
  destruct (fr_max_priority_fee p >? fr_max_fee p) eqn:E2; [split; [done|lia]|].
  specialize (Hee ltac:(lia)).
  assert (fr_actual_weight p * fr_base_fee p <= fr_actual_weight p * e) by nia.
  assert (fr_actual_weight p * e <= fr_max_weight p * fr_max_fee p) by nia.
  assert (MAX_SUPPLY_BASE_UNITS <= U64_MAX) by (by vm_compute).
  destruct (fr_max_weight p * fr_max_fee p >? U64_MAX) eqn:E3; [split; [done|lia]|].
  destruct (fr_max_weight p * fr_max_fee p >? MAX_SUPPLY_BASE_UNITS) eqn:E4; [split; [done|lia]|].
  unfold checked_sub. destruct (Z.leb_spec (fr_actual_weight p * fr_base_fee p) (fr_actual_weight p * e)); [|lia].
  destruct (Z.leb_spec (fr_actual_weight p * e) (fr_max_weight p * fr_max_fee p)); [|lia]. cbn [ok_or].
  split.
  - intros H8.
    destruct (Z.eqb_spec e (fr_effective_price p)) as [E5|]; [|done].
    destruct (Z.eqb_spec (fr_actual_weight p * fr_base_fee p) (fr_base_component p)); [|done].
    destruct (Z.eqb_spec (fr_actual_weight p * e - fr_actual_weight p * fr_base_fee p) (fr_priority_component p)); [|done].
    destruct (Z.eqb_spec (fr_actual_weight p * e) (fr_charged p)); [|done].
    destruct (Z.eqb_spec (fr_max_weight p * fr_max_fee p - fr_actual_weight p * e) (fr_refund p)); [|done].
    rewrite <- E5. split_and!; lia.
  - intros (_ & _ & _ & _ & E5 & E6 & E7 & E8 & E9). rewrite E5 in *.
    rewrite E6, E7 in *. rewrite !Z.eqb_refl.
    destruct (Z.eqb_spec (fr_actual_weight p * e - fr_actual_weight p * fr_base_fee p) (fr_priority_component p)); [|lia].
    destruct (Z.eqb_spec (fr_max_weight p * fr_max_fee p - fr_actual_weight p * e) (fr_refund p)); [done|lia].
Qed.

Definition fee_receipt_layout : list nat := [2; 32; 32; 33; 1; 1; 8; 8; 8; 8; 8; 8; 8; 8; 8; 8]%nat.

Lemma fee_receipt_widths r : map length (fee_receipt_fields r) = fee_receipt_layout.
Proof.
  unfold fee_receipt_fields, fr_numbers. cbn [app map]. rewrite !length_le_bytes, !arr_length, length_to_bytes. done.
Qed.

Lemma fee_receipt_encode_length r : length (fee_receipt_encode r) = RECEIPT_BYTES.
Proof.
  unfold fee_receipt_encode. rewrite length_concat, fee_receipt_widths. done.
Qed.

Lemma source_try_from_Ok b k : source_try_from b = Ok k <-> b = source_byte k.
Proof. split; [destruct b; simpl; intros [= <-]; done|intros ->; by destruct k]. Qed.

Lemma outcome_try_from_Ok b k : outcome_try_from b = Ok k <-> b = outcome_byte k.
Proof. split; [destruct b; simpl; intros [= <-]; done|intros ->; by destruct k]. Qed.

(** A number read at an offset is the one whose bytes are there. *)
Lemma le_at_value a b l z :
  in_u64 z -> (b - a = 8)%nat -> slice a b l = le_bytes 8 z -> le_at a b l = z.
Proof. intros Hz _ E. unfold le_at. rewrite E. apply le_num_le_bytes. unfold_ints. lia. Qed.

Lemma byte_at_value i l b : (i < length l)%nat -> slice i (i + 1) l = [b] -> byte_at i l = b.
Proof. intros HL E. rewrite byte_at_slice in E by done. congruence. Qed.

Lemma hash_slice a b l (h : Hash256) : slice a b l = arr_bytes h -> Hash256_from_slice (slice a b l) = Ok h.
Proof. intros ->. unfold Hash256_from_slice. by rewrite to_arr_bytes. Qed.

Lemma hash_slice_inv l (h : Hash256) : Hash256_from_slice l = Ok h -> l = arr_bytes h.
Proof. unfold Hash256_from_slice. intros ?%ok_or_Ok. by apply to_arr_Some. Qed.

Lemma fee_receipt_decode_encode r :
  address_ok (fr_payer (fr_parts r)) -> fee_inputs_ok (fr_parts r) -> settlement_exact (fr_parts r) ->
  fee_receipt_decode (fee_receipt_encode r) = Ok r.
Proof.
  intros HA HF HS. pose proof (slices_concat _ _ (fee_receipt_widths r)) as HC.
  change (concat (fee_receipt_fields r)) with (fee_receipt_encode r) in HC.
  pose proof (fee_receipt_encode_length r) as HL.
  unfold fee_receipt_decode. rewrite HL. cbn [Nat.eqb RECEIPT_BYTES negb].
  set (bytes := fee_receipt_encode r) in *. clearbody bytes.
  unfold fee_receipt_fields, fr_numbers in HC. cbn [slices fee_receipt_layout Nat.add map app] in HC.
  unfold RECEIPT_BYTES in HL. destruct r as [[tx esc pay src out b m p w a e bc pc c rf]]. 
  cbn [fr_parts fr_txid fr_escrow_id fr_payer fr_source_kind
       fr_outcome fr_base_fee fr_max_fee fr_max_priority_fee fr_max_weight fr_actual_weight
       fr_effective_price fr_base_component fr_priority_component fr_charged fr_refund] in HA, HC.
  injection HC as F0 F1 F2 F3 F4 F5 N1 N2 N3 N4 N5 N6 N7 N8 N9 N10.
  unfold fee_inputs_ok, fr_numbers in HF. cbn in HF. rewrite !Forall_cons in HF.
  destruct HF as (? & ? & ? & ? & ? & ? & ? & ? & ? & ? & _).
  assert (le_at 0 2 bytes = RECEIPT_VERSION) as -> by (unfold le_at; rewrite F0; apply le_num_le_bytes; done).
  cbn [Z.eqb negb RECEIPT_VERSION Pos.eqb].
  rewrite (hash_slice _ _ _ _ F1), (hash_slice _ _ _ _ F2). cbn [map_err].
  assert (ExecutionAddress_from_slice (slice 66 99 bytes) = Ok pay) as ->
    by (by apply address_from_slice_spec). cbn [map_err].
  assert (source_try_from (byte_at 99 bytes) = Ok src) as ->
    by (apply source_try_from_Ok, byte_at_value; [lia|done]).
  assert (outcome_try_from (byte_at 100 bytes) = Ok out) as ->
    by (apply outcome_try_from_Ok, byte_at_value; [lia|done]).
  apply le_at_value in N1, N2, N3, N4, N5, N6, N7, N8, N9, N10; try done.
  rewrite N1, N2, N3, N4, N5, N6, N7, N8, N9, N10.
  unfold FeeSettlementReceiptV1_new.
  assert (validate_arithmetic (MkFeeParts tx esc pay src out b m p w a e bc pc c rf) = Ok tt) as ->; [|done].
  apply validate_arithmetic_spec; [|done]. unfold fee_inputs_ok, fr_numbers. cbn. by rewrite !Forall_cons.
Qed.

Lemma in_u64_le_at a b l : (b - a = 8)%nat -> (a <= b)%nat -> (b <= length l)%nat -> in_u64 (le_at a b l).
Proof. intros E ? ?. pose proof (le_at_range a b l). rewrite E in *. unfold_ints. lia. Qed.

Lemma le8_slice a b l :
  (b - a = 8)%nat -> (a <= b)%nat -> (b <= length l)%nat -> le_bytes 8 (le_at a b l) = slice a b l.
Proof. intros E ? ?. rewrite <- E. by apply le_at_bytes. Qed.

Lemma fee_receipt_encode_decode bytes r :
  fee_receipt_decode bytes = Ok r ->
  bytes = fee_receipt_encode r /\ address_ok (fr_payer (fr_parts r)) /\
  fee_inputs_ok (fr_parts r) /\ settlement_exact (fr_parts r).
Proof.
  unfold fee_receipt_decode. destruct (Nat.eqb_spec (length bytes) RECEIPT_BYTES) as [HL|]; [cbn [negb]|done].
  cbv zeta. destruct (Z.eqb_spec (le_at 0 2 bytes) RECEIPT_VERSION) as [EV|]; [cbn [negb]|done].
  unfold RECEIPT_BYTES in HL.
  destruct (Hash256_from_slice (slice 2 34 bytes)) as [tx|] eqn:F1; [cbn [map_err]|done].
  destruct (Hash256_from_slice (slice 34 66 bytes)) as [esc|] eqn:F2; [cbn [map_err]|done].
  destruct (ExecutionAddress_from_slice _) as [pay|] eqn:F3; [cbn [map_err]|done].
  destruct (source_try_from _) as [src|] eqn:F4; [|done]. destruct (outcome_try_from _) as [out|] eqn:F5; [|done].
  apply hash_slice_inv in F1, F2. apply address_from_slice_spec in F3 as [F3 HA].
  apply source_try_from_Ok in F4. apply outcome_try_from_Ok in F5.
  unfold FeeSettlementReceiptV1_new. destruct (validate_arithmetic _) as [[]|] eqn:EA; [|done].
  intros [= <-]. cbn [fr_parts fr_payer].
  assert (fee_inputs_ok (MkFeeParts tx esc pay src out
           (le_at 101 109 bytes) (le_at 109 117 bytes) (le_at 117 125 bytes) (le_at 125 133 bytes)
           (le_at 133 141 bytes) (le_at 141 149 bytes) (le_at 149 157 bytes) (le_at 157 165 bytes)
           (le_at 165 173 bytes) (le_at 173 181 bytes))) as HI.
  { unfold fee_inputs_ok, fr_numbers. cbn. repeat constructor; apply in_u64_le_at; lia. }
  apply validate_arithmetic_spec in EA; [|done]. split_and!; try done.
  rewrite <- (concat_slices fee_receipt_layout bytes) at 1 by done.
  unfold fee_receipt_encode, fee_receipt_fields, fr_numbers.
  cbn [slices fee_receipt_layout Nat.add map app fr_parts fr_txid fr_escrow_id fr_payer fr_source_kind
       fr_outcome fr_base_fee fr_max_fee fr_max_priority_fee fr_max_weight fr_actual_weight
       fr_effective_price fr_base_component fr_priority_component fr_charged fr_refund].
  rewrite !le8_slice by lia. rewrite <- F1, <- F2, <- F3, <- F4, <- F5, <- EV.
  rewrite (le_at_bytes 0 2) by lia. rewrite <- (byte_at_slice 99), <- (byte_at_slice 100) by lia. done.
Qed.

(** Fee receipts.  Decoding accepts exactly the 181-byte encodings of
    receipts that settle exactly: the charge is the actual weight at the
    effective price, splits into base and priority parts, and with the refund
    makes up the whole escrow; the encoding is unique. *)
Theorem fee_receipt_exact bytes r :
  fee_receipt_decode bytes = Ok r <->
  bytes = fee_receipt_encode r /\ address_ok (fr_payer (fr_parts r)) /\
  fee_inputs_ok (fr_parts r) /\ settlement_exact (fr_parts r).
Proof.
  split; [apply fee_receipt_encode_decode|]. intros (-> & ? & ? & ?). by apply fee_receipt_decode_encode.
Qed.
