(* ===== verification/Fees.v ===== *)
(** [oregon-execution/fees.rs]: fee terms, funding capabilities and the escrow
    book.  The book's [BTreeMap] and [BTreeSet]s are keyed lookups and are
    modelled as [gmap] and [gset]. *)
From S2P Require Import Prelude Encoding Layout Address FeeReceipt.

Module FeeError.
Inductive t : Type :=
| ZeroMaxWeight
| MaxFeeBelowBaseFee
| PriorityFeeExceedsMaxFee
| ArithmeticOverflow
| AmountExceedsMaximumSupply
| ZeroEscrowCapacity
| EscrowCapacityExceeded
| InsufficientFunding
| CapabilityAlreadyConsumed
| StaleFundingSource
| EscrowAlreadyExists
| UnknownEscrow
| EscrowAlreadySettled
| ActualWeightOutOfRange
| EscrowHistoryCapacityExceeded
| Receipt (e : FeeSettlementError.t).
End FeeError.

Definition CAPABILITY_VERSION_V1 : Z := 1.
Definition ESCROW_VERSION_V1 : Z := 1.
Definition CAPABILITY_DOMAIN : list byte := domain_tag "OREGON/FEE/CAPABILITY/V1".
Definition SOURCE_DOMAIN : list byte := domain_tag "OREGON/FEE/SOURCE/V1".
Definition ESCROW_DOMAIN : list byte := domain_tag "OREGON/FEE/ESCROW/V1".
Definition MAX_ESCROW_HISTORY_ENTRIES : nat := Z.to_nat 65536.
#[global] Opaque MAX_ESCROW_HISTORY_ENTRIES.

Record FundingCapabilityV1 : Type := MkFundingCapabilityV1 {
  cap_source_kind : FeeSourceKind;
  cap_payer : ExecutionAddress;
  source_commitment : Hash256;
  available_amount : Z;
  source_sequence : Z;
  authorization_commitment : Hash256;
}.

Definition FundingCapabilityV1_new (source_kind : FeeSourceKind) (payer : ExecutionAddress)
  (commitment : Hash256) (available sequence : Z) (authorization : Hash256)
  : result FeeError.t FundingCapabilityV1 :=
  if available >? MAX_SUPPLY_BASE_UNITS then Err FeeError.AmountExceedsMaximumSupply
  else Ok (MkFundingCapabilityV1 source_kind payer commitment available sequence authorization).

Record FeeTermsV1 : Type := MkFeeTermsV1 {
  base_fee_per_weight : Z;
  max_fee_per_weight : Z;
  max_priority_fee_per_weight : Z;
  terms_max_weight : Z;
  max_escrow : Z;
}.

Definition FeeTermsV1_new (base max_fee max_priority max_weight : Z) : result FeeError.t FeeTermsV1 :=
  if max_weight =? 0 then Err FeeError.ZeroMaxWeight
  else if max_fee <? base then Err FeeError.MaxFeeBelowBaseFee
  else if max_priority >? max_fee then Err FeeError.PriorityFeeExceedsMaxFee
  else
    let max_escrow_wide := max_weight * max_fee in
    let? escrow := ok_or (try_from U64_MAX max_escrow_wide) FeeError.ArithmeticOverflow in
    if escrow >? MAX_SUPPLY_BASE_UNITS then Err FeeError.AmountExceedsMaximumSupply
    else Ok (MkFeeTermsV1 base max_fee max_priority max_weight escrow).

Record EscrowTicketV1 : Type := MkEscrowTicketV1 {
  ticket_txid : Hash256;
  ticket_payer : ExecutionAddress;
  ticket_source_kind : FeeSourceKind;
  ticket_capability_id : Hash256;
  terms : FeeTermsV1;
}.

Record SettlementResultV1 : Type := MkSettlementResultV1 { receipt : FeeSettlementReceiptV1 }.

Record EscrowBookV1 : Type := MkEscrowBookV1 {
  max_open : nat;
  open_escrows : gmap Hash256 EscrowTicketV1;
  consumed_capabilities : gset Hash256;
  consumed_sources : gset Hash256;
  settled : gset Hash256;
}.

Definition EscrowBookV1_new (capacity : nat) : result FeeError.t EscrowBookV1 :=
  if (capacity =? 0)%nat then Err FeeError.ZeroEscrowCapacity
  else Ok (MkEscrowBookV1 capacity ∅ ∅ ∅ ∅).

Section Book.
Context `{Blake3}.

Definition capability_id (c : FundingCapabilityV1) : Hash256 :=
  domain_hash CAPABILITY_DOMAIN
    (le_bytes 2 CAPABILITY_VERSION_V1 ++ [source_byte (cap_source_kind c)]
       ++ ExecutionAddress_to_bytes (cap_payer c) ++ arr_bytes (source_commitment c)
       ++ le_bytes 8 (available_amount c) ++ le_bytes 8 (source_sequence c)
       ++ arr_bytes (authorization_commitment c)).

Definition source_id (c : FundingCapabilityV1) : Hash256 :=
  domain_hash SOURCE_DOMAIN
    (le_bytes 2 CAPABILITY_VERSION_V1 ++ [source_byte (cap_source_kind c)]
       ++ ExecutionAddress_to_bytes (cap_payer c) ++ arr_bytes (source_commitment c)
       ++ le_bytes 8 (source_sequence c)).

Definition EscrowTicketV1_new (txid : Hash256) (c : FundingCapabilityV1) (t : FeeTermsV1) : EscrowTicketV1 :=
  MkEscrowTicketV1 txid (cap_payer c) (cap_source_kind c) (capability_id c) t.

Definition escrow_id (t : EscrowTicketV1) : Hash256 :=
  domain_hash ESCROW_DOMAIN
    (le_bytes 2 ESCROW_VERSION_V1 ++ arr_bytes (ticket_txid t)
       ++ ExecutionAddress_to_bytes (ticket_payer t) ++ [source_byte (ticket_source_kind t)]
       ++ arr_bytes (ticket_capability_id t)
       ++ concat (map (le_bytes 8)
            [base_fee_per_weight (terms t); max_fee_per_weight (terms t);
             max_priority_fee_per_weight (terms t); terms_max_weight (terms t); max_escrow (terms t)])).

Definition open_escrow (txid : Hash256) (c : FundingCapabilityV1) (t : FeeTermsV1)
  : eff EscrowBookV1 FeeError.t EscrowTicketV1 := fun b =>
  let cid := capability_id c in
  if bool_decide (cid ∈ consumed_capabilities b) then (Err FeeError.CapabilityAlreadyConsumed, b)
  else
    let sid := source_id c in
    if bool_decide (sid ∈ consumed_sources b) then (Err FeeError.StaleFundingSource, b)
    else if (max_open b <=? size (open_escrows b))%nat then (Err FeeError.EscrowCapacityExceeded, b)
    else if (MAX_ESCROW_HISTORY_ENTRIES <=? size (consumed_capabilities b))%nat
            || (MAX_ESCROW_HISTORY_ENTRIES <=? size (consumed_sources b))%nat
    then (Err FeeError.EscrowHistoryCapacityExceeded, b)
    else if available_amount c <? max_escrow t then (Err FeeError.InsufficientFunding, b)
    else
      let ticket := EscrowTicketV1_new txid c t in
      let id := escrow_id ticket in
      if bool_decide (is_Some (open_escrows b !! id)) || bool_decide (id ∈ settled b)
      then (Err FeeError.EscrowAlreadyExists, b)
      else (Ok ticket,
            MkEscrowBookV1 (max_open b) (<[id := ticket]> (open_escrows b))
              ({[cid]} ∪ consumed_capabilities b) ({[sid]} ∪ consumed_sources b) (settled b)).

(** The arithmetic of [settle], up to the receipt. *)
Definition settlement_receipt (id : Hash256) (ticket : EscrowTicketV1) (outcome : ExecutionOutcome)
  (actual_weight : Z) : result FeeError.t FeeSettlementReceiptV1 :=
  let t := terms ticket in
  let offered_price := base_fee_per_weight t + max_priority_fee_per_weight t in
  let effective_price_wide := Z.min (max_fee_per_weight t) offered_price in
  let charged_wide := actual_weight * effective_price_wide in
  let base_component_wide := actual_weight * base_fee_per_weight t in
  let? priority_component_wide := ok_or (checked_sub charged_wide base_component_wide)
                                    FeeError.ArithmeticOverflow in
  let? refund_wide := ok_or (checked_sub (max_escrow t) charged_wide) FeeError.ArithmeticOverflow in
  let? effective_price := ok_or (try_from U64_MAX effective_price_wide) FeeError.ArithmeticOverflow in
  let? charged := ok_or (try_from U64_MAX charged_wide) FeeError.ArithmeticOverflow in
  let? base_component := ok_or (try_from U64_MAX base_component_wide) FeeError.ArithmeticOverflow in
  let? priority_component := ok_or (try_from U64_MAX priority_component_wide) FeeError.ArithmeticOverflow in
  let? refund := ok_or (try_from U64_MAX refund_wide) FeeError.ArithmeticOverflow in
  map_err FeeError.Receipt
    (FeeSettlementReceiptV1_new
       (MkFeeParts (ticket_txid ticket) id (ticket_payer ticket) (ticket_source_kind ticket) outcome
          (base_fee_per_weight t) (max_fee_per_weight t) (max_priority_fee_per_weight t)
          (terms_max_weight t) actual_weight effective_price base_component priority_component
          charged refund)).

Definition settle (id : Hash256) (outcome : ExecutionOutcome) (actual_weight : Z)
  : eff EscrowBookV1 FeeError.t SettlementResultV1 := fun b =>
  if bool_decide (id ∈ settled b) then (Err FeeError.EscrowAlreadySettled, b)
  else match open_escrows b !! id with
  | None => (Err FeeError.UnknownEscrow, b)
  | Some ticket =>
      if (actual_weight =? 0) || (actual_weight >? terms_max_weight (terms ticket))
      then (Err FeeError.ActualWeightOutOfRange, b)
      else if (MAX_ESCROW_HISTORY_ENTRIES <=? size (settled b))%nat
      then (Err FeeError.EscrowHistoryCapacityExceeded, b)
      else match settlement_receipt id ticket outcome actual_weight with
      | Err e => (Err e, b)
      | Ok r =>
          (Ok (MkSettlementResultV1 r),
           MkEscrowBookV1 (max_open b) (delete id (open_escrows b)) (consumed_capabilities b)
             (consumed_sources b) ({[id]} ∪ settled b))
      end
  end.

(** ** Invariants *)

(** What [FeeTermsV1::new] establishes for machine-sized inputs. *)
Definition terms_ok (t : FeeTermsV1) : Prop :=
  0 <= base_fee_per_weight t <= max_fee_per_weight t /\
  0 <= max_priority_fee_per_weight t <= max_fee_per_weight t /\
  max_fee_per_weight t <= U64_MAX /\ 0 < terms_max_weight t <= U64_MAX /\
  max_escrow t = terms_max_weight t * max_fee_per_weight t /\ max_escrow t <= MAX_SUPPLY_BASE_UNITS.

Lemma FeeTermsV1_new_ok base fee prio w t :
  in_u64 base -> in_u64 fee -> in_u64 prio -> in_u64 w ->
  FeeTermsV1_new base fee prio w = Ok t -> terms_ok t.
Proof.
  intros Hb Hf Hp Hw. unfold FeeTermsV1_new, terms_ok. destruct (Z.eqb_spec w 0); [done|].
  destruct (Z.ltb_spec fee base); [done|]. destruct (prio >? fee) eqn:E1; [done|]. cbv zeta.
  destruct (try_from _ _) eqn:Et; [|done]. apply try_from_Some in Et as [-> ?]. cbn [ok_or].
  destruct (w * fee >? _) eqn:E2; [done|]. intros [= <-]. simpl. unfold_ints. split_and!; lia.
Qed.

(** Settling a legal weight never fails in its arithmetic. *)
Lemma settlement_receipt_total id ticket o w :
  terms_ok (terms ticket) -> 0 < w <= terms_max_weight (terms ticket) ->
  exists r, settlement_receipt id ticket o w = Ok r /\ settlement_exact (fr_parts r) /\
    fee_inputs_ok (fr_parts r) /\
    fr_charged (fr_parts r) + fr_refund (fr_parts r) = max_escrow (terms ticket) /\
    fr_txid (fr_parts r) = ticket_txid ticket /\ fr_payer (fr_parts r) = ticket_payer ticket /\
    fr_escrow_id (fr_parts r) = id /\ fr_outcome (fr_parts r) = o /\ fr_actual_weight (fr_parts r) = w.
Proof.
  intros (Hb & Hp & Hm & Hw & He & Hs) Ha. unfold settlement_receipt. cbv zeta.
  set (t := terms ticket) in *. set (b := base_fee_per_weight t) in *. set (m := max_fee_per_weight t) in *.
  set (p := max_priority_fee_per_weight t) in *. set (mw := terms_max_weight t) in *.
  set (ep := Z.min m (b + p)). assert (b <= ep <= m) as Hep by lia.
  assert (MAX_SUPPLY_BASE_UNITS <= U64_MAX) as HMU by (by vm_compute).
  assert (0 <= w * b <= w * ep) by nia. assert (w * ep <= mw * m) by nia.
  assert (checked_sub (w * ep) (w * b) = Some (w * ep - w * b)) as -> by (apply checked_sub_Some; lia).
  assert (checked_sub (max_escrow t) (w * ep) = Some (max_escrow t - w * ep)) as -> by (apply checked_sub_Some; lia).
  cbn [ok_or].
  assert (try_from U64_MAX ep = Some ep) as -> by (apply try_from_Some; lia).
  assert (try_from U64_MAX (w * ep) = Some (w * ep)) as -> by (apply try_from_Some; lia).
  assert (try_from U64_MAX (w * b) = Some (w * b)) as -> by (apply try_from_Some; lia).
  assert (try_from U64_MAX (w * ep - w * b) = Some (w * ep - w * b)) as -> by (apply try_from_Some; lia).
  assert (try_from U64_MAX (max_escrow t - w * ep) = Some (max_escrow t - w * ep)) as -> by (apply try_from_Some; lia).
  cbn [ok_or]. unfold FeeSettlementReceiptV1_new. set (parts := MkFeeParts _ _ _ _ _ _ _ _ _ _ _ _ _ _ _).
  assert (fee_inputs_ok parts) as HI.
  { unfold fee_inputs_ok, fr_numbers, parts. cbn. repeat constructor; unfold in_u64; lia. }
  assert (settlement_exact parts) as HE.
  { unfold settlement_exact, parts; cbn. fold ep. split_and!; lia. }
  assert (validate_arithmetic parts = Ok tt) as -> by (by apply validate_arithmetic_spec).
  eexists. split; [done|]. unfold parts in *. cbn in *. split_and!; try done. lia.
Qed.

Definition book_ok (b : EscrowBookV1) : Prop :=
  (size (open_escrows b) <= max_open b)%nat /\
  (size (settled b) <= MAX_ESCROW_HISTORY_ENTRIES)%nat /\
  (size (consumed_capabilities b) <= MAX_ESCROW_HISTORY_ENTRIES)%nat /\
  (size (consumed_sources b) <= MAX_ESCROW_HISTORY_ENTRIES)%nat /\
  (forall id t, open_escrows b !! id = Some t ->
     id = escrow_id t /\ terms_ok (terms t) /\ (id ∉ settled b) /\
     ticket_capability_id t ∈ consumed_capabilities b).

Lemma open_escrow_Ok txid c t b ticket b' :
  open_escrow txid c t b = (Ok ticket, b') ->
  ticket = EscrowTicketV1_new txid c t /\ max_escrow t <= available_amount c /\
  (capability_id c ∉ consumed_capabilities b) /\ (source_id c ∉ consumed_sources b) /\
  open_escrows b !! escrow_id ticket = None /\ (escrow_id ticket ∉ settled b) /\
  (size (open_escrows b) < max_open b)%nat /\
  (size (consumed_capabilities b) < MAX_ESCROW_HISTORY_ENTRIES)%nat /\
  (size (consumed_sources b) < MAX_ESCROW_HISTORY_ENTRIES)%nat /\
  b' = MkEscrowBookV1 (max_open b) (<[escrow_id ticket := ticket]> (open_escrows b))
         ({[capability_id c]} ∪ consumed_capabilities b) ({[source_id c]} ∪ consumed_sources b) (settled b).
Proof.
  unfold open_escrow. cbv zeta. case_bool_decide; [done|]. case_bool_decide; [done|].
  destruct (Nat.leb_spec (max_open b) (size (open_escrows b))); [done|].
  destruct (Nat.leb_spec MAX_ESCROW_HISTORY_ENTRIES (size (consumed_capabilities b))); [done|].
  destruct (Nat.leb_spec MAX_ESCROW_HISTORY_ENTRIES (size (consumed_sources b))); [done|]. cbn [orb].
  destruct (Z.ltb_spec (available_amount c) (max_escrow t)); [done|].
  case_bool_decide as Ho; [done|]. case_bool_decide; [done|]. cbn [orb]. intros [= <- <-].
  apply eq_None_not_Some in Ho. split_and!; done.
Qed.

Lemma settle_Ok id o w b r b' :
  settle id o w b = (Ok r, b') ->
  (id ∉ settled b) /\ (size (settled b) < MAX_ESCROW_HISTORY_ENTRIES)%nat /\
  (exists ticket, open_escrows b !! id = Some ticket /\ w <> 0 /\ w <= terms_max_weight (terms ticket) /\
     settlement_receipt id ticket o w = Ok (receipt r)) /\
  b' = MkEscrowBookV1 (max_open b) (delete id (open_escrows b)) (consumed_capabilities b)
         (consumed_sources b) ({[id]} ∪ settled b).
Proof.
  unfold settle. case_bool_decide; [done|]. destruct (open_escrows b !! id) as [t|]; [|done].
  destruct ((w =? 0) || (w >? terms_max_weight (terms t))) eqn:Ew; [done|]. rewrite orb_false_iff in Ew.
  destruct (Nat.leb_spec MAX_ESCROW_HISTORY_ENTRIES (size (settled b))); [done|].
  destruct (settlement_receipt _ _ _ _) as [r'|] eqn:Er; [|done]. intros [= <- <-].
  split_and!; [done|done| |done]. exists t. split_and!; (done || lia).
Qed.

Lemma size_insert_set (x : Hash256) (X : gset Hash256) : x ∉ X -> size ({[x]} ∪ X) = S (size X).
Proof. intros. rewrite size_union by set_solver. rewrite size_singleton. lia. Qed.

Lemma open_escrow_preserves txid c t b ticket b' :
  terms_ok t -> book_ok b -> open_escrow txid c t b = (Ok ticket, b') -> book_ok b'.
Proof.
  intros Ht (I1 & I2 & I3 & I4 & I5)
    (-> & _ & Hc & Hs & Ho & Hset & L1 & L2 & L3 & ->)%open_escrow_Ok.
  unfold book_ok; cbn [open_escrows max_open consumed_capabilities consumed_sources settled].
  rewrite map_size_insert_None by done. rewrite !size_insert_set by done.
  split_and!; try lia. intros id t' [[<- <-]|[Hne Hl]]%lookup_insert_Some.
  - split_and!; [done|done|done|]. simpl. set_solver.
  - apply I5 in Hl as (-> & ? & ? & ?). split_and!; (done || set_solver).
Qed.

Lemma settle_preserves id o w b r b' : book_ok b -> settle id o w b = (Ok r, b') -> book_ok b'.
Proof.
  intros (I1 & I2 & I3 & I4 & I5) (Hs & Hl & (t & Ht & _) & ->)%settle_Ok.
  unfold book_ok; cbn [open_escrows max_open consumed_capabilities consumed_sources settled].
  rewrite map_size_delete_Some by eauto. rewrite size_insert_set by done.
  split_and!; try lia. intros id' t' [Hne Hl']%lookup_delete_Some.
  apply I5 in Hl' as (-> & ? & ? & ?). split_and!; (done || set_solver).
Qed.

(** ** Traces of operations *)

Inductive book_op : Type :=
| OpOpen (txid : Hash256) (c : FundingCapabilityV1) (t : FeeTermsV1)
| OpSettle (id : Hash256) (o : ExecutionOutcome) (w : Z).

Inductive book_event : Type :=
| EvOpened (c : FundingCapabilityV1) (ticket : EscrowTicketV1)
| EvSettled (id : Hash256) (r : SettlementResultV1)
| EvRefused (e : FeeError.t).

Definition run_op (op : book_op) (b : EscrowBookV1) : book_event * EscrowBookV1 :=
  match op with
  | OpOpen txid c t => match open_escrow txid c t b with
                       | (Ok ticket, b) => (EvOpened c ticket, b)
                       | (Err e, b) => (EvRefused e, b)
                       end
  | OpSettle id o w => match settle id o w b with
                       | (Ok r, b) => (EvSettled id r, b)
                       | (Err e, b) => (EvRefused e, b)
                       end
  end.

Fixpoint run_ops (ops : list book_op) (b : EscrowBookV1) : list book_event * EscrowBookV1 :=
  match ops with
  | [] => ([], b)
  | op :: ops =>
      let '(ev, b) := run_op op b in
      let '(evs, b) := run_ops ops b in
      (ev :: evs, b)
  end.

Definition opened_ids (f : FundingCapabilityV1 -> Hash256) (evs : list book_event) : list Hash256 :=
  flat_map (fun ev => match ev with EvOpened c _ => [f c] | _ => [] end) evs.
Definition settled_ids (evs : list book_event) : list Hash256 :=
  flat_map (fun ev => match ev with EvSettled id _ => [id] | _ => [] end) evs.

Definition op_ok (op : book_op) : Prop :=
  match op with OpOpen _ _ t => terms_ok t | OpSettle _ _ w => 0 <= w end.

(** What one operation does to the book, and what its event records. *)
Definition step_ok (b : EscrowBookV1) (ev : book_event) (b' : EscrowBookV1) : Prop :=
  match ev with
  | EvOpened c ticket =>
      (capability_id c ∉ consumed_capabilities b) /\ (source_id c ∉ consumed_sources b) /\
      max_escrow (terms ticket) <= available_amount c /\
      consumed_capabilities b' = {[capability_id c]} ∪ consumed_capabilities b /\
      consumed_sources b' = {[source_id c]} ∪ consumed_sources b /\ settled b' = settled b
  | EvSettled id r =>
      (id ∉ settled b) /\ (exists ticket, open_escrows b !! id = Some ticket /\ id = escrow_id ticket /\
         settlement_exact (fr_parts (receipt r)) /\
         fr_charged (fr_parts (receipt r)) + fr_refund (fr_parts (receipt r)) = max_escrow (terms ticket)) /\
      consumed_capabilities b' = consumed_capabilities b /\ consumed_sources b' = consumed_sources b /\
      settled b' = {[id]} ∪ settled b
  | EvRefused _ => b' = b
  end.

Lemma open_escrow_Err txid c t b e b' : open_escrow txid c t b = (Err e, b') -> b' = b.
Proof. unfold open_escrow. cbv zeta. repeat case_match; by intros [=]. Qed.

Lemma settle_Err id o w b e b' : settle id o w b = (Err e, b') -> b' = b.
Proof. unfold settle. repeat case_match; by intros [=]. Qed.

Lemma run_op_step op b :
  op_ok op -> book_ok b -> book_ok (run_op op b).2 /\ step_ok b (run_op op b).1 (run_op op b).2.
Proof.
  intros Hop Hb. destruct op as [txid c t|id o w]; simpl in *.
  - destruct (open_escrow txid c t b) as [[ticket|e] b'] eqn:E; simpl.
    + split; [by eapply open_escrow_preserves|].
      apply open_escrow_Ok in E as (-> & ? & ? & ? & _ & _ & _ & _ & _ & ->). done.
    + apply open_escrow_Err in E as ->. done.
  - destruct (settle id o w b) as [[r|e] b'] eqn:E; simpl.
    + split; [by eapply settle_preserves|].
      apply settle_Ok in E as (? & _ & (t & Ht & Hw0 & Hw & Hr) & ->).
      split_and!; try done. exists t. destruct Hb as (_ & _ & _ & _ & I5).
      destruct (I5 _ _ Ht) as (-> & Hto & _).
      destruct (settlement_receipt_total (escrow_id t) t o w Hto) as (r' & Er & HX & _ & HR & _); [lia|].
      rewrite Er in Hr. injection Hr as <-. done.
    + apply settle_Err in E as ->. done.
Qed.

Lemma run_ops_history ops b :
  Forall op_ok ops -> book_ok b ->
  let '(evs, b') := run_ops ops b in
  book_ok b' /\
  (NoDup (opened_ids capability_id evs) /\
   forall x, x ∈ opened_ids capability_id evs -> x ∉ consumed_capabilities b) /\
  (NoDup (opened_ids source_id evs) /\ forall x, x ∈ opened_ids source_id evs -> x ∉ consumed_sources b) /\
  (NoDup (settled_ids evs) /\ forall x, x ∈ settled_ids evs -> x ∉ settled b).
Proof.
  intros HF. revert b. induction HF as [|op ops Hop HF IH]; intros b Hb; simpl.
  { split_and!; try done; try apply NoDup_nil_2; set_solver. }
  destruct (run_op_step op b Hop Hb) as [Hb1 HS]. destruct (run_op op b) as [ev b1]. simpl in *.
  specialize (IH b1 Hb1). destruct (run_ops ops b1) as [evs b2].
  destruct IH as (Hb2 & [C1 C2] & [S1 S2] & [T1 T2]). split; [done|].
  destruct ev as [c ticket|id r|e]; simpl in *.
  - destruct HS as (? & ? & _ & Ec & Es & Et). rewrite Ec in C2. rewrite Es in S2. rewrite Et in T2.
    split_and!; try done; try (constructor; [|done]); set_solver.
  - destruct HS as (? & _ & Ec & Es & Et). rewrite Ec in C2. rewrite Es in S2. rewrite Et in T2.
    split_and!; try done; try (constructor; [|done]); set_solver.
  - subst b1. split_and!; done.
Qed.

Lemma book_new_ok n b : EscrowBookV1_new n = Ok b -> book_ok b.
Proof.
  unfold EscrowBookV1_new. destruct (Nat.eqb_spec n 0); [done|]. intros [= <-].
  unfold book_ok; cbn [open_escrows max_open consumed_capabilities consumed_sources settled].
  rewrite map_size_empty, !size_empty. split_and!; try lia. intros id t Hl.
  by rewrite lookup_empty in Hl.
Qed.

(** The escrow book never double-spends.  Over any sequence of operations
    on a fresh book, no funding capability and no funding source backs two
    escrows, and no escrow is settled twice; the book stays within its
    capacities. *)
Theorem escrow_book_no_double_use n b ops :
  EscrowBookV1_new n = Ok b -> Forall op_ok ops ->
  let '(evs, b') := run_ops ops b in
  NoDup (opened_ids capability_id evs) /\ NoDup (opened_ids source_id evs) /\ NoDup (settled_ids evs) /\
  (size (open_escrows b') <= max_open b')%nat /\
  (size (settled b') <= MAX_ESCROW_HISTORY_ENTRIES)%nat.
Proof.
  intros HN%book_new_ok HF. pose proof (run_ops_history ops b HF HN) as HR.
  destruct (run_ops ops b) as [evs b']. destruct HR as ((? & ? & _) & [? _] & [? _] & [? _]). done.
Qed.

(** Settlement is exact and total.  In any book reached by operations, an
    open escrow can be settled for every weight within its terms while the
    history has room; the charge and the refund together are the escrowed
    maximum, and settling it again is refused. *)
Theorem settlement_exact_once n b0 ops evs b id ticket o w :
  EscrowBookV1_new n = Ok b0 -> Forall op_ok ops -> run_ops ops b0 = (evs, b) ->
  open_escrows b !! id = Some ticket -> 0 < w <= terms_max_weight (terms ticket) ->
  (size (settled b) < MAX_ESCROW_HISTORY_ENTRIES)%nat ->
  exists r b', settle id o w b = (Ok r, b') /\ settlement_exact (fr_parts (receipt r)) /\
    fr_charged (fr_parts (receipt r)) + fr_refund (fr_parts (receipt r)) = max_escrow (terms ticket) /\
    fr_txid (fr_parts (receipt r)) = ticket_txid ticket /\
    (forall o' w', (settle id o' w' b').1 = Err FeeError.EscrowAlreadySettled).
Proof.
  intros HN%book_new_ok HF HR Ho Hw Hs. pose proof (run_ops_history ops b0 HF HN) as HH.
  rewrite HR in HH. destruct HH as ((_ & _ & _ & _ & I5) & _).
  destruct (I5 _ _ Ho) as (_ & Ht & Hns & _).
  destruct (settlement_receipt_total id ticket o w Ht Hw) as (r & Er & HX & _ & HC & HT & _).
  exists (MkSettlementResultV1 r).
  eexists. unfold settle. rewrite bool_decide_false by done. rewrite Ho.
  destruct ((w =? 0) || (w >? terms_max_weight (terms ticket))) eqn:Ew; [rewrite orb_true_iff in Ew; lia|].
  destruct (Nat.leb_spec MAX_ESCROW_HISTORY_ENTRIES (size (settled b))); [lia|]. rewrite Er.
  split_and!; try done. intros o' w'. simpl. rewrite bool_decide_true by set_solver. done.
Qed.

End Book.

(** ** A concrete escrow: opened once, refused twice, settled once *)

Definition demo_terms : FeeTermsV1 := MkFeeTermsV1 10 20 5 100 2000.
Definition demo_capability : FundingCapabilityV1 :=
  MkFundingCapabilityV1 NativeUtxo (ExecutionAddress_from_evm (arr_fill 20 x07)) (arr_fill 32 x01) 5000 1
    (arr_fill 32 x02).
Definition demo_book : EscrowBookV1 := MkEscrowBookV1 2 ∅ ∅ ∅ ∅.
Definition demo_ticket : EscrowTicketV1 :=
  EscrowTicketV1_new (H := demo_blake3) (arr_fill 32 x0a) demo_capability demo_terms.
Definition demo_escrow_id : Hash256 := escrow_id (H := demo_blake3) demo_ticket.
Definition demo_ops : list book_op :=
  [OpOpen (arr_fill 32 x0a) demo_capability demo_terms; OpOpen (arr_fill 32 x0b) demo_capability demo_terms;
   OpSettle demo_escrow_id Reverted 40; OpSettle demo_escrow_id Reverted 40].

Lemma demo_terms_ok : terms_ok demo_terms.
Proof.
  unfold terms_ok, demo_terms, MAX_SUPPLY_BASE_UNITS, BASE_UNITS_PER_OREG; simpl; unfold_ints; lia.
Qed.

Example demo_ops_outcomes :
  map (fun ev => match ev with EvOpened _ _ => true | EvSettled _ _ => true | EvRefused _ => false end)
    (run_ops (H := demo_blake3) demo_ops demo_book).1 = [true; false; true; false].
Proof. vm_compute. reflexivity. Qed.

Lemma escrow_book_no_double_use_witness :
  NoDup (settled_ids (run_ops (H := demo_blake3) demo_ops demo_book).1).
Proof.
  pose proof (escrow_book_no_double_use (H := demo_blake3) 2 demo_book demo_ops) as HT.
  destruct (run_ops (H := demo_blake3) demo_ops demo_book) as [evs b'].
  apply HT.
  - reflexivity.
  - repeat constructor; try apply demo_terms_ok; unfold op_ok; lia.
Defined.

Lemma settlement_exact_once_witness :
  exists r b', settle demo_escrow_id Committed 40
    (run_ops (H := demo_blake3) [OpOpen (arr_fill 32 x0a) demo_capability demo_terms] demo_book).2
      = (Ok r, b') /\
    fr_charged (fr_parts (receipt r)) + fr_refund (fr_parts (receipt r)) = 2000.
Proof.
  destruct (settlement_exact_once (H := demo_blake3) 2 demo_book
    [OpOpen (arr_fill 32 x0a) demo_capability demo_terms]
    (run_ops (H := demo_blake3) [OpOpen (arr_fill 32 x0a) demo_capability demo_terms] demo_book).1
    (run_ops (H := demo_blake3) [OpOpen (arr_fill 32 x0a) demo_capability demo_terms] demo_book).2
    demo_escrow_id demo_ticket Committed 40) as (r & b' & E & _ & HC & _).
  - reflexivity.
  - repeat constructor; apply demo_terms_ok.
  - apply surjective_pairing.
  - vm_compute. reflexivity.
  - simpl. lia.
  - apply Nat.ltb_lt. vm_compute. reflexivity.
  - exists r, b'. split; [exact E|exact HC].
Defined.
