(* ===== verification/Weight.v ===== *)
(** [oregon-execution/weight.rs]: the weight meter, which charges units of three
    resource domains at rational prices, rounding the running total up. *)
From S2P Require Import Prelude Encoding.

Module ResourceError.
Inductive t : Type :=
| UnsupportedVersion (version : Z)
| InvalidRatio
| InvalidBudget
| WeightOverflow
| WeightExhausted.
End ResourceError.

Record WeightRatio : Type := MkWeightRatio { numerator : Z; denominator : Z }.

Definition WeightRatio_new (n d : Z) : result ResourceError.t WeightRatio :=
  if (n =? 0) || (d =? 0) then Err ResourceError.InvalidRatio else Ok (MkWeightRatio n d).

Definition normalized_weight (r : WeightRatio) (units : Z) : result ResourceError.t Z :=
  let product := units * numerator r in
  let quotient := product / denominator r in
  let remainder := product mod denominator r in
  let rounded := quotient + (if negb (remainder =? 0) then 1 else 0) in
  ok_or (try_from U64_MAX rounded) ResourceError.WeightOverflow.

Inductive ResourceDomain : Type := Native | Evm | Wasm.

(** [domain as usize] *)
Definition domain_index (d : ResourceDomain) : nat := match d with Native => 0 | Evm => 1 | Wasm => 2 end%nat.

Record MeterScheduleV1 : Type := MkMeterScheduleV1 {
  native_ratio : WeightRatio;
  evm_ratio : WeightRatio;
  wasm_ratio : WeightRatio;
}.

Definition VERSION_V1 : Z := 1.

Definition MeterScheduleV1_new (version : Z) (native evm wasm : WeightRatio)
  : result ResourceError.t MeterScheduleV1 :=
  if negb (version =? VERSION_V1) then Err (ResourceError.UnsupportedVersion version)
  else Ok (MkMeterScheduleV1 native evm wasm).

Definition schedule_ratio (s : MeterScheduleV1) (d : ResourceDomain) : WeightRatio :=
  match d with Native => native_ratio s | Evm => evm_ratio s | Wasm => wasm_ratio s end.

Record WeightMeter : Type := MkWeightMeter {
  schedule : MeterScheduleV1;
  counters : list Z;
  meter_consumed : Z;
  meter_max : Z;
  exhausted : bool;
}.

Definition WeightMeter_new (s : MeterScheduleV1) (max_weight intrinsic : Z)
  : result ResourceError.t WeightMeter :=
  if (max_weight =? 0) || (intrinsic >? max_weight) then Err ResourceError.InvalidBudget
  else Ok (MkWeightMeter s [0; 0; 0] intrinsic max_weight false).

Definition exhaust : eff WeightMeter ResourceError.t unit := fun m =>
  (Err ResourceError.WeightExhausted,
   MkWeightMeter (schedule m) (counters m) (meter_max m) (meter_max m) true).

(** [self.counters[index]]; the array has three elements. *)
Definition counter (m : WeightMeter) (d : ResourceDomain) : Z := nth (domain_index d) (counters m) 0.

Definition charge (d : ResourceDomain) (units : Z) : eff WeightMeter ResourceError.t unit := fun m =>
  if exhausted m then (Err ResourceError.WeightExhausted, m)
  else if units =? 0 then (Ok tt, m)
  else match checked_add U64_MAX (counter m d) units with
  | None => exhaust m
  | Some next_counter =>
      match normalized_weight (schedule_ratio (schedule m) d) (counter m d),
            normalized_weight (schedule_ratio (schedule m) d) next_counter with
      | Ok old_weight, Ok new_weight =>
          match checked_sub new_weight old_weight with
          | None => exhaust m
          | Some delta =>
              if delta >? meter_max m - meter_consumed m then exhaust m
              else (Ok tt, MkWeightMeter (schedule m) (<[domain_index d := next_counter]> (counters m))
                             (meter_consumed m + delta) (meter_max m) false)
          end
      | _, _ => exhaust m
      end
  end.

Definition charge_common (weight : Z) : eff WeightMeter ResourceError.t unit := fun m =>
  if exhausted m then (Err ResourceError.WeightExhausted, m)
  else if weight >? meter_max m - meter_consumed m then exhaust m
  else (Ok tt, MkWeightMeter (schedule m) (counters m) (meter_consumed m + weight) (meter_max m) false).

Definition meter_remaining (m : WeightMeter) : Z := meter_max m - meter_consumed m.

(** ** The exact price *)

(** [ceil (units * numerator / denominator)] *)
Definition exact_weight (r : WeightRatio) (units : Z) : Z :=
  - (- (units * numerator r) / denominator r).

Definition ratio_ok (r : WeightRatio) : Prop := 0 < numerator r /\ 0 < denominator r.
Definition schedule_ok (s : MeterScheduleV1) : Prop :=
  ratio_ok (native_ratio s) /\ ratio_ok (evm_ratio s) /\ ratio_ok (wasm_ratio s).

Lemma schedule_ratio_ok s d : schedule_ok s -> ratio_ok (schedule_ratio s d).
Proof. intros (? & ? & ?). by destruct d. Qed.

Lemma ceil_div a b : 0 < b -> a / b + (if negb (a mod b =? 0) then 1 else 0) = - (- a / b).
Proof.
  intros Hb. destruct (Z.eqb_spec (a mod b) 0) as [E|E]; cbn [negb].
  - rewrite Z.div_opp_l_z by lia. lia.
  - rewrite Z.div_opp_l_nz by lia. lia.
Qed.

Lemma normalized_weight_exact r u :
  ratio_ok r -> 0 <= u ->
  normalized_weight r u
  = if exact_weight r u <=? U64_MAX then Ok (exact_weight r u) else Err ResourceError.WeightOverflow.
Proof.
  intros [Hn Hd] Hu. unfold normalized_weight, exact_weight. cbv zeta. rewrite ceil_div by done.
  assert (- (u * numerator r) / denominator r <= 0) by (apply Z.div_le_upper_bound; nia).
  unfold try_from. destruct (Z.leb_spec 0 (- (- (u * numerator r) / denominator r))); [|lia]. simpl.
  by destruct (_ <=? U64_MAX).
Qed.

Lemma exact_weight_mono r u1 u2 : ratio_ok r -> u1 <= u2 -> exact_weight r u1 <= exact_weight r u2.
Proof.
  intros [Hn Hd] Hu. unfold exact_weight. apply -> Z.opp_le_mono. apply Z.div_le_mono; [done|nia].
Qed.

Lemma exact_weight_zero r : ratio_ok r -> exact_weight r 0 = 0.
Proof. intros [Hn Hd]. unfold exact_weight. simpl. by rewrite Z.div_0_l by lia. Qed.

(** ** Sequences of charges *)

Inductive meter_op : Type :=
| Charge (d : ResourceDomain) (units : Z)
| ChargeCommon (weight : Z).

Definition run_meter_op (op : meter_op) (m : WeightMeter) : bool * WeightMeter :=
  let '(r, m) := match op with Charge d u => charge d u m | ChargeCommon w => charge_common w m end in
  (is_ok r, m).

Fixpoint run_meter (ops : list meter_op) (m : WeightMeter) : list bool * WeightMeter :=
  match ops with
  | [] => ([], m)
  | op :: ops =>
      let '(r, m) := run_meter_op op m in
      let '(rs, m) := run_meter ops m in
      (r :: rs, m)
  end.

(** Units asked of a domain, and common weight asked, by a sequence. *)
Fixpoint units_asked (d : ResourceDomain) (ops : list meter_op) : Z :=
  match ops with
  | [] => 0
  | Charge d' u :: ops => (if (domain_index d =? domain_index d')%nat then u else 0) + units_asked d ops
  | ChargeCommon _ :: ops => units_asked d ops
  end.

Fixpoint common_asked (ops : list meter_op) : Z :=
  match ops with
  | [] => 0
  | Charge _ _ :: ops => common_asked ops
  | ChargeCommon w :: ops => w + common_asked ops
  end.

Definition meter_op_ok (op : meter_op) : Prop :=
  match op with Charge _ u => in_u64 u | ChargeCommon w => in_u64 w end.

Definition counters_weight (s : MeterScheduleV1) (f : ResourceDomain -> Z) : Z :=
  exact_weight (native_ratio s) (f Native) + exact_weight (evm_ratio s) (f Evm)
  + exact_weight (wasm_ratio s) (f Wasm).

(** A meter that has charged [base] of common weight besides its counters. *)
Definition meter_inv (base : Z) (m : WeightMeter) : Prop :=
  schedule_ok (schedule m) /\ length (counters m) = 3%nat /\ (forall d, in_u64 (counter m d)) /\
  0 <= base /\ 0 <= meter_consumed m <= meter_max m /\ meter_max m <= U64_MAX /\
  (exhausted m = true -> meter_consumed m = meter_max m) /\
  (exhausted m = false -> meter_consumed m = base + counters_weight (schedule m) (counter m)).

Lemma exact_weight_nonneg r u : ratio_ok r -> 0 <= u -> 0 <= exact_weight r u.
Proof. intros Hr Hu. rewrite <- (exact_weight_zero r Hr). by apply exact_weight_mono. Qed.

(** The weight after raising one counter. *)
Lemma counters_weight_bump s f d u :
  counters_weight s (fun d' => f d' + (if (domain_index d' =? domain_index d)%nat then u else 0))
  = counters_weight s f + (exact_weight (schedule_ratio s d) (f d + u) - exact_weight (schedule_ratio s d) (f d)).
Proof. unfold counters_weight. destruct d; simpl; rewrite !Z.add_0_r; lia. Qed.

Lemma counters_weight_ext s f g : (forall d, f d = g d) -> counters_weight s f = counters_weight s g.
Proof. intros E. unfold counters_weight. by rewrite !E. Qed.

Lemma counter_insert m d v d' :
  length (counters m) = 3%nat ->
  nth (domain_index d') (<[domain_index d := v]> (counters m)) 0
  = if (domain_index d' =? domain_index d)%nat then v else counter m d'.
Proof.
  unfold counter. destruct (counters m) as [|a [|b [|c [|]]]]; try done. by destruct d, d'.
Qed.

Lemma exhaust_inv base m :
  meter_inv base m -> meter_inv base (exhaust m).2 /\ exhausted (exhaust m).2 = true /\ is_ok (exhaust m).1 = false.
Proof.
  intros (Hs & HL & Hc & Hb & Hr & Hm & _). unfold exhaust, meter_inv; simpl. split_and!; try done; lia.
Qed.

Lemma counters_weight_mono s f g :
  schedule_ok s -> (forall d, f d <= g d) -> counters_weight s f <= counters_weight s g.
Proof.
  intros (H1 & H2 & H3) HL. unfold counters_weight.
  pose proof (exact_weight_mono _ _ _ H1 (HL Native)). pose proof (exact_weight_mono _ _ _ H2 (HL Evm)).
  pose proof (exact_weight_mono _ _ _ H3 (HL Wasm)). lia.
Qed.

Lemma counters_weight_part s f d :
  schedule_ok s -> (forall d, 0 <= f d) -> 0 <= exact_weight (schedule_ratio s d) (f d) <= counters_weight s f.
Proof.
  intros (H1 & H2 & H3) HL. unfold counters_weight.
  pose proof (exact_weight_nonneg _ _ H1 (HL Native)). pose proof (exact_weight_nonneg _ _ H2 (HL Evm)).
  pose proof (exact_weight_nonneg _ _ H3 (HL Wasm)). destruct d; simpl; lia.
Qed.

(** The counters after a successful charge. *)
Definition bumped (m : WeightMeter) (d : ResourceDomain) (u : Z) (d' : ResourceDomain) : Z :=
  counter m d' + (if (domain_index d' =? domain_index d)%nat then u else 0).

Lemma bumped_same m d u : bumped m d u d = counter m d + u.
Proof. unfold bumped. by rewrite Nat.eqb_refl. Qed.

(** Close a branch of [charge] that exhausts the meter. *)
Ltac exhausted_case HX :=
  match goal with |- context [exhaust ?m] =>
    let Ex := fresh in destruct (exhaust m) as [? ?] eqn:Ex; injection Ex as <- <-;
    destruct HX as (? & ? & ?); done end.

Lemma charge_spec base m d u :
  meter_inv base m -> exhausted m = false -> in_u64 u ->
  let '(r, m') := charge d u m in
  meter_inv base m' /\ schedule m' = schedule m /\ meter_max m' = meter_max m /\
  if (counter m d + u <=? U64_MAX) && (base + counters_weight (schedule m) (bumped m d u) <=? meter_max m)
  then is_ok r = true /\ exhausted m' = false /\ (forall d', counter m' d' = bumped m d u d')
  else is_ok r = false /\ exhausted m' = true.
Proof.
  intros HI He Hu. pose proof (exhaust_inv base m HI) as HX.
  pose proof HI as (Hs & HL & Hc & Hb & Hr & Hm & _ & Hw). specialize (Hw He).
  pose proof (counters_weight_bump (schedule m) (counter m) d u) as HB. fold (bumped m d u) in HB.
  pose proof (schedule_ratio_ok _ d Hs) as Hro.
  pose proof (counters_weight_part (schedule m) (counter m) d Hs ltac:(intros; apply Hc)) as HP.
  set (W := exact_weight (schedule_ratio (schedule m) d)) in *.
  pose proof (exact_weight_mono _ (counter m d) (counter m d + u) Hro ltac:(unfold_ints; lia)) as HM.
  fold W in HM. pose proof (Hc d) as Hcd. change (fun d' => counter m d' + _) with (bumped m d u) in HB.
  unfold charge. rewrite He. destruct (Z.eqb_spec u 0) as [->|Hu0].
  { assert (bumped m d 0 d = counter m d + 0) by apply bumped_same.
    destruct (Z.leb_spec (counter m d + 0) U64_MAX); [|unfold_ints; lia].
    replace (counter m d + 0) with (counter m d) in HB by lia.
    destruct (Z.leb_spec (base + counters_weight (schedule m) (bumped m d 0)) (meter_max m)); [|lia].
    cbn [andb]. split_and!; try done. intros d'. unfold bumped. case_match; lia. }
  destruct (checked_add _ _ _) as [n|] eqn:Ea.
  2: { apply checked_add_None in Ea. destruct (Z.leb_spec (counter m d + u) U64_MAX); [lia|]. cbn [andb].
       exhausted_case HX. }
  apply checked_add_Some in Ea as [-> Hle]. destruct (Z.leb_spec (counter m d + u) U64_MAX); [cbn [andb]|lia].
  rewrite !normalized_weight_exact by (done || (unfold_ints; lia)). fold W.
  destruct (Z.leb_spec (W (counter m d)) U64_MAX); [|lia].
  destruct (Z.leb_spec (W (counter m d + u)) U64_MAX) as [|Hover].
  2: { destruct (Z.leb_spec (base + counters_weight (schedule m) (bumped m d u)) (meter_max m)); [lia|].
       exhausted_case HX. }
  unfold checked_sub. destruct (Z.leb_spec (W (counter m d)) (W (counter m d + u))); [|lia].
  destruct (W (counter m d + u) - W (counter m d) >? meter_max m - meter_consumed m) eqn:Ed.
  { destruct (Z.leb_spec (base + counters_weight (schedule m) (bumped m d u)) (meter_max m)); [lia|].
    exhausted_case HX. }
  destruct (Z.leb_spec (base + counters_weight (schedule m) (bumped m d u)) (meter_max m)); [|lia].
  assert (forall d', counter (MkWeightMeter (schedule m) (<[domain_index d:=counter m d + u]> (counters m))
    (meter_consumed m + (W (counter m d + u) - W (counter m d))) (meter_max m) false) d' = bumped m d u d') as HN.
  { intros d'. unfold counter at 1; simpl. rewrite counter_insert by done. unfold bumped.
    destruct (Nat.eqb_spec (domain_index d') (domain_index d)) as [E|]; [|lia].
    replace d' with d by (by destruct d, d'). lia. }
  split_and!; try done. unfold meter_inv; simpl. split_and!; try done; try lia.
  - by rewrite length_insert.
  - intros d'. rewrite HN. unfold bumped. pose proof (Hc d').
    destruct (Nat.eqb_spec (domain_index d') (domain_index d)) as [E|]; [|unfold_ints; lia].
    replace d' with d in * by (by destruct d, d'). unfold_ints; lia.
  - intros _. rewrite (counters_weight_ext _ _ _ HN). lia.
Qed.

Lemma charge_common_spec base m w :
  meter_inv base m -> exhausted m = false -> in_u64 w ->
  let '(r, m') := charge_common w m in
  schedule m' = schedule m /\ meter_max m' = meter_max m /\ (forall d, counter m' d = counter m d) /\
  if base + w + counters_weight (schedule m) (counter m) <=? meter_max m
  then meter_inv (base + w) m' /\ is_ok r = true /\ exhausted m' = false
  else meter_inv base m' /\ is_ok r = false /\ exhausted m' = true.
Proof.
  intros HI He Hw. pose proof (exhaust_inv base m HI) as HX.
  pose proof HI as (Hs & HL & Hc & Hb & Hr & Hm & _ & Hcw). specialize (Hcw He).
  unfold charge_common. rewrite He. destruct (w >? meter_max m - meter_consumed m) eqn:Ew.
  - destruct (Z.leb_spec (base + w + counters_weight (schedule m) (counter m)) (meter_max m)); [lia|].
    exhausted_case HX.
  - destruct (Z.leb_spec (base + w + counters_weight (schedule m) (counter m)) (meter_max m)); [|lia].
    unfold meter_inv; simpl. unfold_ints. split_and!; try done; try lia.
    intros _. rewrite Hcw. change (counter {| schedule := _; counters := _; meter_consumed := _; meter_max := _;
      exhausted := _ |}) with (counter m). lia.
Qed.

Lemma run_meter_exhausted ops m :
  exhausted m = true -> run_meter ops m = (map (fun _ => false) ops, m).
Proof.
  intros He. induction ops as [|op ops IH]; [done|]. cbn [run_meter map].
  assert (run_meter_op op m = (false, m)) as ->.
  { unfold run_meter_op. destruct op; unfold charge, charge_common; by rewrite He. }
  by rewrite IH.
Qed.

Lemma asked_nonneg ops : Forall meter_op_ok ops -> (forall d, 0 <= units_asked d ops) /\ 0 <= common_asked ops.
Proof.
  induction 1 as [|op ops Ho HF (IH1 & IH2)]; [by split|]. destruct op as [d' u|w]; simpl in *.
  - split; [|done]. intros d. specialize (IH1 d). unfold_ints. case_match; lia.
  - split; [done|]. unfold_ints. lia.
Qed.

(** The whole demand of a sequence, priced exactly, within the machine range. *)
Definition demand_fits (base : Z) (m : WeightMeter) (ops : list meter_op) : Prop :=
  (forall d, counter m d + units_asked d ops <= U64_MAX) /\
  base + common_asked ops + counters_weight (schedule m) (fun d => counter m d + units_asked d ops)
    <= meter_max m.

Definition run_outcome (base : Z) (m : WeightMeter) (ops : list meter_op) : Prop :=
  let '(rs, m') := run_meter ops m in
  meter_max m' = meter_max m /\ 0 <= meter_consumed m' <= meter_max m /\
  (exhausted m' = false <-> demand_fits base m ops) /\
  (exhausted m' = false -> rs = map (fun _ => true) ops /\
     meter_consumed m' = base + common_asked ops
       + counters_weight (schedule m) (fun d => counter m d + units_asked d ops)) /\
  (exhausted m' = true -> meter_consumed m' = meter_max m).

(** A step that does not fit: the meter is exhausted for good. *)
Lemma run_outcome_exhausted base m ops op ops' r m1 :
  ops = op :: ops' -> run_meter_op op m = (r, m1) -> exhausted m1 = true ->
  meter_inv base m1 -> meter_max m1 = meter_max m -> (demand_fits base m ops -> False) ->
  run_outcome base m ops.
Proof.
  intros -> Er He HI HM HD. unfold run_outcome. cbn [run_meter]. rewrite Er, run_meter_exhausted by done.
  destruct HI as (_ & _ & _ & _ & Hr & _ & Hx & _). specialize (Hx He). rewrite He.
  split_and!; try done; lia.
Qed.

(** A step that fits: the rest of the sequence decides. *)
Lemma run_outcome_step base base1 m op ops m1 :
  run_meter_op op m = (true, m1) -> schedule m1 = schedule m -> meter_max m1 = meter_max m ->
  (forall d, counter m1 d + units_asked d ops = counter m d + units_asked d (op :: ops)) ->
  base1 + common_asked ops = base + common_asked (op :: ops) ->
  run_outcome base1 m1 ops -> run_outcome base m (op :: ops).
Proof.
  intros Eop Es Em Ed Ec IH. unfold run_outcome, demand_fits in *. cbn [run_meter]. rewrite Eop.
  destruct (run_meter ops m1) as [rs m2]. rewrite Em, Es, Ec in IH.
  rewrite (counters_weight_ext _ _ _ Ed) in IH. setoid_rewrite Ed in IH.
  destruct IH as (I1 & I2 & I3 & I4 & I5). split_and!; [done|lia|lia|exact I3| |done].
  intros Hf. by destruct (I4 Hf) as [-> ->].
Qed.

Lemma run_outcome_nil base m : meter_inv base m -> exhausted m = false -> run_outcome base m [].
Proof.
  intros HI He. pose proof HI as (_ & _ & Hc & _ & Hr & _ & _ & Hw). specialize (Hw He).
  assert (counters_weight (schedule m) (fun d => counter m d + 0) = counters_weight (schedule m) (counter m)) as E
    by (apply counters_weight_ext; intros; lia).
  unfold run_outcome, demand_fits. simpl. rewrite E, He. split_and!; try done; try lia.
  - split; [|done]. intros _. split; [|lia]. intros d. specialize (Hc d). unfold_ints. lia.
  - intros _. split; [done|lia].
Qed.

Lemma run_meter_spec ops base m :
  Forall meter_op_ok ops -> meter_inv base m -> exhausted m = false -> run_outcome base m ops.
Proof.
  intros HF. revert base m. induction HF as [|op ops Ho HF IH]; intros base m HI He.
  { by apply run_outcome_nil. }
  destruct (asked_nonneg ops HF) as [Hun Hcn]. pose proof HI as (Hs & _ & Hc & _).
  destruct op as [d u|w]; simpl in Ho.
  - pose proof (charge_spec base m d u HI He Ho) as HS. destruct (charge d u m) as [r m1] eqn:Er.
    destruct HS as (HI1 & Es & Em & HS).
    assert (run_meter_op (Charge d u) m = (is_ok r, m1)) as Eop by (unfold run_meter_op; by rewrite Er).
    destruct (_ && _) eqn:Eb.
    + destruct HS as (Hok & He1 & Hct). rewrite Hok in Eop. eapply run_outcome_step; try done; [|by apply IH].
      intros d'. rewrite Hct. unfold bumped. simpl. lia.
    + destruct HS as (Hno & He1). eapply run_outcome_exhausted; try done. intros [Hd1 Hd2].
      specialize (Hd1 d). simpl in Hd1. rewrite Nat.eqb_refl in Hd1. pose proof (Hun d).
      assert (counters_weight (schedule m) (bumped m d u)
        <= counters_weight (schedule m) (fun d' => counter m d' + units_asked d' (Charge d u :: ops))).
      { apply counters_weight_mono; [done|]. intros d'. specialize (Hun d'). unfold bumped. simpl. lia. }
      cbn [common_asked] in Hd2. apply andb_false_iff in Eb as [Eb|Eb]; apply Z.leb_gt in Eb; lia.
  - pose proof (charge_common_spec base m w HI He Ho) as HS. destruct (charge_common w m) as [r m1] eqn:Er.
    destruct HS as (Es & Em & Hct & HS).
    assert (run_meter_op (ChargeCommon w) m = (is_ok r, m1)) as Eop by (unfold run_meter_op; by rewrite Er).
    destruct (Z.leb_spec (base + w + counters_weight (schedule m) (counter m)) (meter_max m)) as [Hle|Hgt].
    + destruct HS as (HI1 & Hok & He1). rewrite Hok in Eop. eapply (run_outcome_step base (base + w)); try done.
      * intros d'. by rewrite Hct.
      * simpl. lia.
      * by apply IH.
    + destruct HS as (HI1 & Hno & He1). eapply run_outcome_exhausted; try done. intros [Hd1 Hd2].
      assert (counters_weight (schedule m) (counter m)
        <= counters_weight (schedule m) (fun d' => counter m d' + units_asked d' (ChargeCommon w :: ops))).
      { apply counters_weight_mono; [done|]. intros d'. specialize (Hun d'). simpl. lia. }
      cbn [common_asked] in Hd2. lia.
Qed.

Lemma meter_new_inv s max i m :
  schedule_ok s -> 0 <= i -> max <= U64_MAX -> WeightMeter_new s max i = Ok m ->
  meter_inv i m /\ exhausted m = false /\ schedule m = s /\ meter_max m = max /\ forall d, counter m d = 0.
Proof.
  intros Hs Hi Hm. unfold WeightMeter_new. destruct ((max =? 0) || (i >? max)) eqn:E; [done|].
  rewrite orb_false_iff in E. intros [= <-].
  assert (forall d, counter (MkWeightMeter s [0; 0; 0] i max false) d = 0) as H0 by (by intros []).
  split_and!; try done. unfold meter_inv; simpl. split_and!; try done; try lia.
  - intros d. rewrite H0. unfold_ints; lia.
  - intros _. rewrite (counters_weight_ext _ _ (fun _ => 0) H0). unfold counters_weight.
    destruct Hs as (? & ? & ?). rewrite !exact_weight_zero by done. lia.
Qed.

(** Metering is exact.  However a sequence of charges is split and
    interleaved, the meter accepts all of it exactly when the units asked of
    each domain fit a machine word and the intrinsic weight, the common weight
    and the three rounded-up prices of the totals fit the budget; it has then
    consumed exactly that sum.  Otherwise it is exhausted for good with the
    whole budget consumed.  The budget is never exceeded. *)
Theorem weight_meter_exact s max intrinsic m ops :
  schedule_ok s -> 0 <= intrinsic -> max <= U64_MAX ->
  WeightMeter_new s max intrinsic = Ok m -> Forall meter_op_ok ops ->
  let '(rs, m') := run_meter ops m in
  let demand := intrinsic + common_asked ops + counters_weight s (fun d => units_asked d ops) in
  0 <= meter_consumed m' <= max /\
  (exhausted m' = false <-> (forall d, units_asked d ops <= U64_MAX) /\ demand <= max) /\
  (exhausted m' = false -> rs = map (fun _ => true) ops /\ meter_consumed m' = demand) /\
  (exhausted m' = true -> meter_consumed m' = max).
Proof.
  intros Hs Hi Hm HN HF. destruct (meter_new_inv s max intrinsic m Hs Hi Hm HN) as (HI & He & Es & Em & H0).
  pose proof (run_meter_spec ops intrinsic m HF HI He) as HR. unfold run_outcome, demand_fits in HR.
  destruct (run_meter ops m) as [rs m']. rewrite Es, Em in HR.
  assert (forall d, counter m d + units_asked d ops = units_asked d ops) as Eu by (intros; rewrite H0; lia).
  rewrite (counters_weight_ext _ _ _ Eu) in HR. setoid_rewrite Eu in HR.
  destruct HR as (_ & R2 & R3 & R4 & R5). split_and!; try done; lia.
Qed.

Lemma weight_meter_exact_witness :
  exhausted (run_meter [Charge Evm 3; ChargeCommon 2; Charge Evm 4; Charge Wasm 1]
    (MkWeightMeter (MkMeterScheduleV1 (MkWeightRatio 1 1) (MkWeightRatio 1 2) (MkWeightRatio 5 3))
       [0; 0; 0] 10 100 false)).2 = false.
Proof.
  pose proof (weight_meter_exact
    (MkMeterScheduleV1 (MkWeightRatio 1 1) (MkWeightRatio 1 2) (MkWeightRatio 5 3)) 100 10
    (MkWeightMeter (MkMeterScheduleV1 (MkWeightRatio 1 1) (MkWeightRatio 1 2) (MkWeightRatio 5 3))
       [0; 0; 0] 10 100 false)
    [Charge Evm 3; ChargeCommon 2; Charge Evm 4; Charge Wasm 1]) as HT.
  destruct (run_meter _ _) as [rs m'] eqn:Er. simpl.
  apply HT.
  - repeat split.
  - lia.
  - vm_compute. discriminate.
  - reflexivity.
  - repeat constructor; unfold meter_op_ok; unfold_ints; lia.
  - split; [intros []; vm_compute; discriminate|vm_compute; discriminate].
Defined.
