(* ===== verification/Commitment.v ===== *)
(** [oregon-primitives/state_commitment.rs]: the aggregate commitment to the
    state roots of all domains. *)
From S2P Require Import Prelude Encoding Layout FeeReceipt.

Inductive CommitmentDomainId : Type :=
| DomNativeUtxo | DomEvm | DomWasm | DomExecutionAccounting | DomExecutionReceipts
| DomAsyncOutbox | DomAsyncConsumed | DomFeeState.

Inductive CommitmentSchemeId : Type := OregonSmtV1 | EvmCommitmentV1.

#[global] Instance CommitmentDomainId_eq_dec : EqDecision CommitmentDomainId.
Proof. solve_decision. Defined.
#[global] Instance CommitmentSchemeId_eq_dec : EqDecision CommitmentSchemeId.
Proof. solve_decision. Defined.

Module StateCommitmentError.
Inductive t : Type :=
| UnknownCommitmentDomain (value : Z)
| UnknownCommitmentScheme (value : Z)
| InvalidDescriptorLength (len : nat)
| UnsupportedAggregateVersion (version : Z)
| InvalidAggregateLength (len : nat)
| EmptyCommitmentSet
| TooManyCommitments (count : nat)
| NonCanonicalDomainOrder
| DuplicateCommitmentDomain (d : CommitmentDomainId)
| Primitive (e : PrimitiveError.t).
End StateCommitmentError.

Definition domain_u16 (d : CommitmentDomainId) : Z :=
  match d with
  | DomNativeUtxo => 0x0001 | DomEvm => 0x0010 | DomWasm => 0x0011 | DomExecutionAccounting => 0x0020
  | DomExecutionReceipts => 0x0030 | DomAsyncOutbox => 0x0040 | DomAsyncConsumed => 0x0041
  | DomFeeState => 0x0050
  end.

Definition domain_try_from (value : Z) : result StateCommitmentError.t CommitmentDomainId :=
  if value =? 0x0001 then Ok DomNativeUtxo
  else if value =? 0x0010 then Ok DomEvm
  else if value =? 0x0011 then Ok DomWasm
  else if value =? 0x0020 then Ok DomExecutionAccounting
  else if value =? 0x0030 then Ok DomExecutionReceipts
  else if value =? 0x0040 then Ok DomAsyncOutbox
  else if value =? 0x0041 then Ok DomAsyncConsumed
  else if value =? 0x0050 then Ok DomFeeState
  else Err (StateCommitmentError.UnknownCommitmentDomain value).

Definition scheme_u16 (s : CommitmentSchemeId) : Z :=
  match s with OregonSmtV1 => 0x0001 | EvmCommitmentV1 => 0x0100 end.

Definition scheme_try_from (value : Z) : result StateCommitmentError.t CommitmentSchemeId :=
  if value =? 0x0001 then Ok OregonSmtV1
  else if value =? 0x0100 then Ok EvmCommitmentV1
  else Err (StateCommitmentError.UnknownCommitmentScheme value).

Definition AGGREGATE_VERSION : Z := 1.
Definition DESCRIPTOR_BYTES : nat := 36.
Definition AGGREGATE_DOMAIN : list byte := domain_tag "OREGON/STATE/AGGREGATE/V1".
Definition MAX_STATE_COMMITMENTS : nat := 32.

Record StateCommitmentDescriptor : Type := MkStateCommitmentDescriptor {
  domain_id : CommitmentDomainId;
  scheme_id : CommitmentSchemeId;
  state_root : Hash256;
}.

Definition descriptor_fields (d : StateCommitmentDescriptor) : list (list byte) :=
  [le_bytes 2 (domain_u16 (domain_id d)); le_bytes 2 (scheme_u16 (scheme_id d)); arr_bytes (state_root d)].

Definition descriptor_encode (d : StateCommitmentDescriptor) : list byte := concat (descriptor_fields d).

Definition descriptor_decode (bytes : list byte) : result StateCommitmentError.t StateCommitmentDescriptor :=
  if negb (length bytes =? DESCRIPTOR_BYTES)%nat
  then Err (StateCommitmentError.InvalidDescriptorLength (length bytes))
  else
    let? domain := domain_try_from (le_at 0 2 bytes) in
    let? scheme := scheme_try_from (le_at 2 4 bytes) in
    let? root := map_err StateCommitmentError.Primitive (Hash256_from_slice (slice 4 36 bytes)) in
    Ok (MkStateCommitmentDescriptor domain scheme root).

Record StateCommitmentSetV1 : Type := MkStateCommitmentSetV1 { descriptors : list StateCommitmentDescriptor }.

(** The loop over [descriptors.windows(2)]. *)
Fixpoint check_domain_order (l : list StateCommitmentDescriptor) : result StateCommitmentError.t unit :=
  match l with
  | a :: ((b :: _) as rest) =>
      let left := domain_u16 (domain_id a) in
      let right := domain_u16 (domain_id b) in
      if left =? right then Err (StateCommitmentError.DuplicateCommitmentDomain (domain_id a))
      else if left >? right then Err StateCommitmentError.NonCanonicalDomainOrder
      else check_domain_order rest
  | _ => Ok tt
  end.

Definition StateCommitmentSetV1_new (l : list StateCommitmentDescriptor)
  : result StateCommitmentError.t StateCommitmentSetV1 :=
  if (length l =? 0)%nat then Err StateCommitmentError.EmptyCommitmentSet
  else if (MAX_STATE_COMMITMENTS <? length l)%nat
  then Err (StateCommitmentError.TooManyCommitments (length l))
  else let? _ := check_domain_order l in Ok (MkStateCommitmentSetV1 l).

Definition commitment_set_encode (s : StateCommitmentSetV1) : list byte :=
  le_bytes 2 AGGREGATE_VERSION ++ encode_all descriptor_encode (descriptors s).

(** [count] chunks of [n] bytes. *)
Fixpoint chunks (count n : nat) (l : list byte) : list (list byte) :=
  match count with
  | O => []
  | S count => take n l :: chunks count n (drop n l)
  end.

Definition commitment_set_decode (bytes : list byte) : result StateCommitmentError.t StateCommitmentSetV1 :=
  if (length bytes <? 2)%nat then Err (StateCommitmentError.InvalidAggregateLength (length bytes))
  else
    let version := le_at 0 2 bytes in
    if negb (version =? AGGREGATE_VERSION) then Err (StateCommitmentError.UnsupportedAggregateVersion version)
    else
      let descriptor_bytes := (length bytes - 2)%nat in
      if (descriptor_bytes =? 0)%nat then Err StateCommitmentError.EmptyCommitmentSet
      else if negb (descriptor_bytes mod DESCRIPTOR_BYTES =? 0)%nat
      then Err (StateCommitmentError.InvalidAggregateLength (length bytes))
      else
        let count := (descriptor_bytes / DESCRIPTOR_BYTES)%nat in
        if (MAX_STATE_COMMITMENTS <? count)%nat then Err (StateCommitmentError.TooManyCommitments count)
        else
          let? l := try_map descriptor_decode (chunks count DESCRIPTOR_BYTES (drop 2 bytes)) in
          StateCommitmentSetV1_new l.

Definition commitment_set_root `{Blake3} (s : StateCommitmentSetV1) : Hash256 :=
  domain_hash AGGREGATE_DOMAIN (commitment_set_encode s).

(** ** Facts *)

Lemma domain_try_from_Ok v d : domain_try_from v = Ok d <-> v = domain_u16 d.
Proof.
  unfold domain_try_from. split; [|intros ->; by destruct d].
  repeat (case_match; [intros [= <-]; simpl; lia|]). done.
Qed.

Lemma scheme_try_from_Ok v d : scheme_try_from v = Ok d <-> v = scheme_u16 d.
Proof.
  unfold scheme_try_from. split; [|intros ->; by destruct d].
  repeat (case_match; [intros [= <-]; simpl; lia|]). done.
Qed.

Lemma domain_u16_inj a b : domain_u16 a = domain_u16 b -> a = b.
Proof. by destruct a, b. Qed.

Lemma descriptor_widths d : map length (descriptor_fields d) = [2; 2; 32]%nat.
Proof. unfold descriptor_fields. cbn [map]. by rewrite !length_le_bytes, arr_length. Qed.

Lemma length_descriptor_encode d : length (descriptor_encode d) = DESCRIPTOR_BYTES.
Proof. unfold descriptor_encode. by rewrite length_concat, descriptor_widths. Qed.

Lemma domain_u16_range d : 0 <= domain_u16 d < 256 ^ Z.of_nat 2.
Proof. destruct d; vm_compute; split; congruence. Qed.
Lemma scheme_u16_range d : 0 <= scheme_u16 d < 256 ^ Z.of_nat 2.
Proof. destruct d; vm_compute; split; congruence. Qed.

Lemma descriptor_decode_spec bytes d :
  descriptor_decode bytes = Ok d <-> bytes = descriptor_encode d.
Proof.
  unfold descriptor_decode. split.
  - destruct (Nat.eqb_spec (length bytes) DESCRIPTOR_BYTES) as [HL|]; [cbn [negb]|done]. unfold DESCRIPTOR_BYTES in HL.
    destruct (domain_try_from _) as [dom|] eqn:E1; [|done]. destruct (scheme_try_from _) as [sch|] eqn:E2; [|done].
    destruct (Hash256_from_slice _) as [h|] eqn:E3; [cbn [map_err]|done]. intros [= <-].
    apply domain_try_from_Ok in E1. apply scheme_try_from_Ok in E2. apply hash_slice_inv in E3.
    rewrite <- (concat_slices [2; 2; 32]%nat bytes) at 1 by done. unfold descriptor_encode, descriptor_fields.
    cbn [slices Nat.add domain_id scheme_id state_root]. rewrite <- E1, <- E2, <- E3.
    rewrite <- (le_at_bytes 0 2 bytes), <- (le_at_bytes 2 4 bytes) by lia. done.
  - intros ->. rewrite length_descriptor_encode. cbn [Nat.eqb DESCRIPTOR_BYTES negb].
    pose proof (slices_concat _ _ (descriptor_widths d)) as HC.
    change (concat (descriptor_fields d)) with (descriptor_encode d) in HC.
    generalize dependent (descriptor_encode d). intros bytes HC. unfold descriptor_fields in HC. cbn [slices Nat.add] in HC. injection HC as F0 F1 F2.
    unfold le_at. rewrite F0, F1.
    rewrite !le_num_le_bytes by (apply domain_u16_range || apply scheme_u16_range).
    assert (domain_try_from (domain_u16 (domain_id d)) = Ok (domain_id d)) as -> by (by apply domain_try_from_Ok).
    assert (scheme_try_from (scheme_u16 (scheme_id d)) = Ok (scheme_id d)) as -> by (by apply scheme_try_from_Ok).
    rewrite (hash_slice _ _ _ _ F2). by destruct d.
Qed.

(** Strictly increasing domain identifiers. *)
Definition domains_increasing (l : list StateCommitmentDescriptor) : Prop :=
  StronglySorted Z.lt (map (fun d => domain_u16 (domain_id d)) l).

Lemma check_domain_order_Ok l : check_domain_order l = Ok tt <-> domains_increasing l.
Proof.
  unfold domains_increasing. induction l as [|a l IH]; [split; [constructor|done]|].
  destruct l as [|b l]; [split; [repeat constructor|done]|].
  change (check_domain_order (a :: b :: l)) with
    (let left := domain_u16 (domain_id a) in let right := domain_u16 (domain_id b) in
     if left =? right then Err (StateCommitmentError.DuplicateCommitmentDomain (domain_id a))
     else if left >? right then Err StateCommitmentError.NonCanonicalDomainOrder
     else check_domain_order (b :: l)). cbv zeta.
  cbn [map] in *. rewrite StronglySorted_cons.
  destruct (Z.eqb_spec (domain_u16 (domain_id a)) (domain_u16 (domain_id b))).
  { split; [done|]. intros [H%Forall_inv _]. lia. }
  destruct (domain_u16 (domain_id a) >? domain_u16 (domain_id b)) eqn:E.
  { split; [done|]. intros [H%Forall_inv _]. lia. }
  rewrite IH. split; [|naive_solver]. intros HS. split; [|done].
  apply StronglySorted_cons in HS as [HF _]. constructor; [lia|].
  eapply Forall_impl; [exact HF|]. simpl. lia.
Qed.

Lemma chunks_encode_all {A} (enc : A -> list byte) n (l : list A) :
  (forall a, length (enc a) = n) -> chunks (length l) n (encode_all enc l) = map enc l.
Proof.
  intros Hn. unfold encode_all. induction l as [|a l IH]; [done|]. cbn [length chunks flat_map map].
  rewrite take_app_length', drop_app_length' by done. by rewrite IH.
Qed.

Lemma concat_chunks c n l : concat (chunks c n l) = take (c * n) l.
Proof.
  revert l. induction c as [|c IH]; intros l; [done|]. cbn [chunks concat]. rewrite IH.
  replace (S c * n)%nat with (n + c * n)%nat by lia. by rewrite take_take_drop.
Qed.

Lemma try_map_Ok_iff {E A B} (f : A -> result E B) (g : B -> A) xs ys :
  (forall x y, f x = Ok y <-> x = g y) -> try_map f xs = Ok ys <-> xs = map g ys.
Proof.
  intros HF. revert ys. induction xs as [|x xs IH]; intros ys; cbn [try_map].
  - destruct ys; simpl; naive_solver.
  - destruct (f x) as [y|] eqn:E1.
    + apply HF in E1 as ->. destruct (try_map f xs) as [zs|] eqn:E2.
      * destruct (IH zs) as [IH1 _]. specialize (IH1 eq_refl) as ->. split; [by intros [= <-]|].
        destruct ys as [|y' ys]; [done|]. simpl. intros [= E3 E4].
        apply IH in E4. simplify_eq. f_equal. apply HF in E3. rewrite (proj2 (HF (g y) y) eq_refl) in E3. congruence.
      * split; [done|]. destruct ys as [|y' ys]; [done|]. simpl. intros [= E3 E4]. apply IH in E4. done.
    + split; [done|]. destruct ys as [|y' ys]; [done|]. simpl. intros [= -> _].
      rewrite (proj2 (HF (g y') y') eq_refl) in E1. done.
Qed.

Lemma length_encode_all_const {A} (enc : A -> list byte) n (l : list A) :
  (forall a, length (enc a) = n) -> length (encode_all enc l) = (length l * n)%nat.
Proof.
  intros Hn. unfold encode_all. induction l as [|a l IH]; [done|]. simpl. rewrite length_app, Hn, IH. lia.
Qed.

(** A set [new] accepts. *)
Definition commitment_set_ok (s : StateCommitmentSetV1) : Prop :=
  (0 < length (descriptors s) <= MAX_STATE_COMMITMENTS)%nat /\ domains_increasing (descriptors s).

Lemma StateCommitmentSetV1_new_Ok l s :
  StateCommitmentSetV1_new l = Ok s <-> descriptors s = l /\ commitment_set_ok s.
Proof.
  unfold StateCommitmentSetV1_new, commitment_set_ok.
  destruct (Nat.eqb_spec (length l) 0). { split; [done|]. intros [-> ?]. lia. }
  destruct (Nat.ltb_spec MAX_STATE_COMMITMENTS (length l)). { split; [done|]. intros [-> ?]. lia. }
  destruct (check_domain_order l) as [[]|] eqn:E.
  - apply check_domain_order_Ok in E. split; [intros [= <-]; simpl; split_and!; (done || lia)|].
    destruct s; simpl. by intros [-> _].
  - split; [done|]. intros [<- [_ HC%check_domain_order_Ok]]. congruence.
Qed.

Lemma commitment_set_encode_decode bytes s :
  commitment_set_decode bytes = Ok s -> bytes = commitment_set_encode s /\ commitment_set_ok s.
Proof.
  unfold commitment_set_decode. destruct (Nat.ltb_spec (length bytes) 2); [done|]. cbv zeta.
  destruct (Z.eqb_spec (le_at 0 2 bytes) AGGREGATE_VERSION) as [EV|]; [cbn [negb]|done].
  destruct (Nat.eqb_spec (length bytes - 2) 0); [done|].
  destruct (Nat.eqb_spec ((length bytes - 2) mod DESCRIPTOR_BYTES) 0) as [EM|]; [cbn [negb]|done].
  destruct (Nat.ltb_spec MAX_STATE_COMMITMENTS ((length bytes - 2) / DESCRIPTOR_BYTES)); [done|].
  destruct (try_map _ _) as [l|] eqn:EL; [|done].
  intros [<- HO]%StateCommitmentSetV1_new_Ok. split; [|done]. unfold commitment_set_encode.
  apply (try_map_Ok_iff _ descriptor_encode) in EL; [|apply descriptor_decode_spec].
  apply (f_equal (@concat byte)) in EL. rewrite concat_chunks in EL. unfold encode_all.
  rewrite flat_map_concat_map, <- EL, <- EV.
  pose proof (Nat.div_mod (length bytes - 2) DESCRIPTOR_BYTES ltac:(done)) as ED.
  rewrite take_ge by (rewrite length_drop; lia).
  change 2%nat with (2 - 0)%nat at 1. rewrite le_at_bytes by lia. unfold slice. rewrite drop_0. by rewrite take_drop.
Qed.

Lemma commitment_set_decode_encode s :
  commitment_set_ok s -> commitment_set_decode (commitment_set_encode s) = Ok s.
Proof.
  intros HO. pose proof HO as [[HL1 HL2] _]. unfold commitment_set_decode.
  assert (length (commitment_set_encode s) = 2 + length (descriptors s) * DESCRIPTOR_BYTES)%nat as HL.
  { unfold commitment_set_encode. rewrite length_app, length_le_bytes.
    by rewrite (length_encode_all_const _ DESCRIPTOR_BYTES) by apply length_descriptor_encode. }
  rewrite HL. destruct (Nat.ltb_spec (2 + length (descriptors s) * DESCRIPTOR_BYTES) 2); [lia|]. cbv zeta.
  assert (le_at 0 2 (commitment_set_encode s) = AGGREGATE_VERSION) as ->.
  { unfold le_at, commitment_set_encode. rewrite <- (length_le_bytes 2 AGGREGATE_VERSION) at 1.
    rewrite slice_prefix. by apply le_num_le_bytes. }
  cbn [Z.eqb AGGREGATE_VERSION negb Pos.eqb].
  replace (2 + length (descriptors s) * DESCRIPTOR_BYTES - 2)%nat
    with (length (descriptors s) * DESCRIPTOR_BYTES)%nat by lia.
  rewrite Nat.Div0.mod_mul, Nat.div_mul by done. cbn [Nat.eqb negb].
  destruct (Nat.eqb_spec (length (descriptors s) * DESCRIPTOR_BYTES) 0); [unfold DESCRIPTOR_BYTES in *; lia|].
  destruct (Nat.ltb_spec MAX_STATE_COMMITMENTS (length (descriptors s))); [lia|].
  assert (try_map descriptor_decode (chunks (length (descriptors s)) DESCRIPTOR_BYTES
           (drop 2 (commitment_set_encode s))) = Ok (descriptors s)) as ->.
  { unfold commitment_set_encode. rewrite drop_app_length' by (by rewrite length_le_bytes).
    rewrite chunks_encode_all by apply length_descriptor_encode.
    apply (try_map_Ok_iff _ descriptor_encode); [apply descriptor_decode_spec|done]. }
  by apply StateCommitmentSetV1_new_Ok.
Qed.

Lemma commitment_set_encode_inj s1 s2 :
  commitment_set_ok s1 -> commitment_set_ok s2 ->
  commitment_set_encode s1 = commitment_set_encode s2 -> s1 = s2.
Proof.
  intros H1%commitment_set_decode_encode H2%commitment_set_decode_encode E. rewrite E in H1. congruence.
Qed.

(** ** Properties *)

(** A byte string decodes to a commitment set exactly when it is that
    set's encoding and the set has between 1 and 32 descriptors with strictly
    increasing domain identifiers (so no domain is committed twice). *)
Theorem commitment_set_exact bytes s :
  commitment_set_decode bytes = Ok s <-> bytes = commitment_set_encode s /\ commitment_set_ok s.
Proof.
  split; [apply commitment_set_encode_decode|]. intros [-> HO]. by apply commitment_set_decode_encode.
Qed.

(** The aggregate root binds the root of every domain: two accepted sets
    with one aggregate root agree on each domain's scheme and root, unless
    their two encodings are a blake3 collision. *)
Theorem commitment_root_binds `{Blake3} s1 s2 :
  commitment_set_ok s1 -> commitment_set_ok s2 -> commitment_set_root s1 = commitment_set_root s2 ->
  s1 = s2 \/
  collision_in [AGGREGATE_DOMAIN ++ commitment_set_encode s1] [AGGREGATE_DOMAIN ++ commitment_set_encode s2].
Proof.
  intros H1 H2 E. apply (domain_hash_inj AGGREGATE_DOMAIN) in E as [E|C]; [left|right; exact C].
  exact (commitment_set_encode_inj s1 s2 H1 H2 E).
Qed.

Definition demo_commitments : StateCommitmentSetV1 :=
  MkStateCommitmentSetV1
    [MkStateCommitmentDescriptor DomNativeUtxo OregonSmtV1 (arr_fill 32 x01);
     MkStateCommitmentDescriptor DomEvm EvmCommitmentV1 (arr_fill 32 x02)].

Lemma demo_commitments_ok : commitment_set_ok demo_commitments.
Proof.
  split; [split; vm_compute; lia|]. unfold domains_increasing. cbn. repeat (constructor; try lia).
Qed.

Lemma commitment_root_binds_witness :
  let H := demo_blake3 in
  commitment_set_ok demo_commitments /\
  (demo_commitments = demo_commitments \/
   collision_in [AGGREGATE_DOMAIN ++ commitment_set_encode demo_commitments]
                [AGGREGATE_DOMAIN ++ commitment_set_encode demo_commitments]).
Proof.
  split; [exact demo_commitments_ok|].
  apply (commitment_root_binds (H := demo_blake3) demo_commitments demo_commitments
           demo_commitments_ok demo_commitments_ok eq_refl).
Defined.
