(* ===== verification/Receipts.v ===== *)
(** [oregon-primitives]: execution events ([execution_event.rs]), state effects
    ([execution_effect.rs]) and execution receipts ([execution_receipt.rs]). *)
From S2P Require Import Prelude Encoding Layout Address FeeReceipt Commitment Envelope.

Module ExecutionReceiptError.
Inductive t : Type :=
| TooManyEventTopics
| EventDataTooLarge
| TooManyEvents
| ReceiptDomainInStateEffects
| InvalidEffectDomain
| InvalidEffectScheme
| DuplicateEffectDomain
| NonCanonicalEffectOrder
| TooManyStateEffects
| InvalidReceiptLength (len : nat)
| UnsupportedVersion (version : Z)
| UnknownOutcome (value : byte)
| UnknownExecutionDomain (value : byte)
| InvalidTrapCode
| FeeReceiptMismatch
| ReturnDataTooLarge
| Primitive (e : PrimitiveError.t)
| Address (e : ExecutionAddressError.t).
End ExecutionReceiptError.

(** ** Events *)

Definition MAX_EXECUTION_EVENT_TOPICS_V1 : nat := 4.
Definition MAX_EXECUTION_EVENT_DATA_BYTES_V1 : Z := 65536.
Definition MAX_EXECUTION_EVENTS_V1 : Z := 256.
Definition EVENT_VERSION_V1 : Z := 1.
Definition EVENT_DOMAIN : list byte := domain_tag "OREGON/EXEC/EVENT/V1".
Definition EVENTS_DOMAIN : list byte := domain_tag "OREGON/EXEC/EVENTS/V1".

Record ExecutionEventV1 : Type := MkEvent {
  emitter : ExecutionAddress;
  topics : list Hash256;
  data : list byte;
}.

Definition ExecutionEventV1_new (em : ExecutionAddress) (ts : list Hash256) (bytes : list byte)
  : result ExecutionReceiptError.t ExecutionEventV1 :=
  if (MAX_EXECUTION_EVENT_TOPICS_V1 <? length ts)%nat then Err ExecutionReceiptError.TooManyEventTopics
  else if Z.of_nat (length bytes) >? MAX_EXECUTION_EVENT_DATA_BYTES_V1
  then Err ExecutionReceiptError.EventDataTooLarge
  else Ok (MkEvent em ts bytes).

Definition event_encode (e : ExecutionEventV1) : list byte :=
  le_bytes 2 EVENT_VERSION_V1 ++ ExecutionAddress_to_bytes (emitter e)
    ++ [byte_of_Z (Z.of_nat (length (topics e)))]
    ++ encode_all arr_bytes (topics e)
    ++ le_bytes 4 (Z.of_nat (length (data e))) ++ data e.

Section EventRoots.
Context `{Blake3}.

Definition event_id (e : ExecutionEventV1) : Hash256 := domain_hash EVENT_DOMAIN (event_encode e).

Definition events_bytes (l : list ExecutionEventV1) : list byte :=
  le_bytes 4 (Z.of_nat (length l)) ++ encode_all (fun e => arr_bytes (event_id e)) l.

Definition events_root (l : list ExecutionEventV1) : result ExecutionReceiptError.t Hash256 :=
  if Z.of_nat (length l) >? MAX_EXECUTION_EVENTS_V1 then Err ExecutionReceiptError.TooManyEvents
  else Ok (domain_hash EVENTS_DOMAIN (events_bytes l)).

End EventRoots.

(** ** State effects *)

Definition STATE_EFFECT_VERSION_V1 : Z := 1.
Definition STATE_EFFECT_DOMAIN : list byte := domain_tag "OREGON/EXEC/STATE-EFFECT/V1".
Definition STATE_EFFECT_DESCRIPTOR_BYTES_V1 : nat := 68.

Record StateEffectDescriptorV1 : Type := MkEffect {
  effect_domain : CommitmentDomainId;
  effect_scheme : CommitmentSchemeId;
  effect_old_root : Hash256;
  effect_new_root : Hash256;
}.

Definition validate_effect_pair (d : CommitmentDomainId) (s : CommitmentSchemeId)
  : result ExecutionReceiptError.t unit :=
  match d, s with
  | DomExecutionReceipts, _ => Err ExecutionReceiptError.ReceiptDomainInStateEffects
  | DomNativeUtxo, _ => Err ExecutionReceiptError.InvalidEffectDomain
  | DomEvm, EvmCommitmentV1 => Ok tt
  | (DomWasm | DomExecutionAccounting | DomAsyncOutbox | DomAsyncConsumed | DomFeeState), OregonSmtV1 => Ok tt
  | _, _ => Err ExecutionReceiptError.InvalidEffectScheme
  end.

Definition StateEffectDescriptorV1_new (d : CommitmentDomainId) (s : CommitmentSchemeId) (o n : Hash256)
  : result ExecutionReceiptError.t StateEffectDescriptorV1 :=
  let? _ := validate_effect_pair d s in Ok (MkEffect d s o n).

Definition effect_encode (e : StateEffectDescriptorV1) : list byte :=
  le_bytes 2 (domain_u16 (effect_domain e)) ++ le_bytes 2 (scheme_u16 (effect_scheme e))
    ++ arr_bytes (effect_old_root e) ++ arr_bytes (effect_new_root e).

(** The loop that re-checks every descriptor. *)
Fixpoint check_effect_pairs (l : list StateEffectDescriptorV1) : result ExecutionReceiptError.t unit :=
  match l with
  | [] => Ok tt
  | e :: l => let? _ := validate_effect_pair (effect_domain e) (effect_scheme e) in check_effect_pairs l
  end.

(** The loop over [descriptors.windows(2)]. *)
Fixpoint check_effect_order (l : list StateEffectDescriptorV1) : result ExecutionReceiptError.t unit :=
  match l with
  | a :: ((b :: _) as rest) =>
      let left := domain_u16 (effect_domain a) in
      let right := domain_u16 (effect_domain b) in
      if left =? right then Err ExecutionReceiptError.DuplicateEffectDomain
      else if left >? right then Err ExecutionReceiptError.NonCanonicalEffectOrder
      else check_effect_order rest
  | _ => Ok tt
  end.

Definition effects_bytes (l : list StateEffectDescriptorV1) : list byte :=
  le_bytes 2 STATE_EFFECT_VERSION_V1 ++ le_bytes 2 (Z.of_nat (length l)) ++ encode_all effect_encode l.

Definition compute_state_effect_root `{Blake3} (l : list StateEffectDescriptorV1)
  : result ExecutionReceiptError.t Hash256 :=
  if (MAX_STATE_COMMITMENTS <? length l)%nat then Err ExecutionReceiptError.TooManyStateEffects
  else
    let? _ := check_effect_pairs l in
    let? _ := check_effect_order l in
    Ok (domain_hash STATE_EFFECT_DOMAIN (effects_bytes l)).

(** ** Receipts *)

Definition EXECUTION_RECEIPT_BYTES_V1 : nat := 259.
Definition MAX_EXECUTION_RETURN_DATA_BYTES_V1 : Z := 262144.
Definition EXECUTION_RECEIPT_VERSION_V1 : Z := 1.
Definition RETURN_DOMAIN : list byte := domain_tag "OREGON/EXEC/RETURN/V1".
Definition OUTBOX_EFFECT_DOMAIN : list byte := domain_tag "OREGON/EXEC/OUTBOX-EFFECT/V1".
Definition EXECUTION_RECEIPT_DOMAIN : list byte := domain_tag "OREGON/EXEC/RECEIPT/V1".

Inductive ExecutionReceiptOutcomeV1 : Type :=
| RxCommitted | RxReverted | RxTrapped | RxResourceExhausted.

#[global] Instance ExecutionReceiptOutcomeV1_eq_dec : EqDecision ExecutionReceiptOutcomeV1.
Proof. solve_decision. Defined.

Definition rx_outcome_byte (o : ExecutionReceiptOutcomeV1) : byte :=
  match o with RxCommitted => x00 | RxReverted => x01 | RxTrapped => x02 | RxResourceExhausted => x03 end.

Definition rx_outcome_try_from (value : byte) : result ExecutionReceiptError.t ExecutionReceiptOutcomeV1 :=
  match value with
  | x00 => Ok RxCommitted
  | x01 => Ok RxReverted
  | x02 => Ok RxTrapped
  | x03 => Ok RxResourceExhausted
  | _ => Err (ExecutionReceiptError.UnknownOutcome value)
  end.

Record ExecutionReceiptV1Parts : Type := MkReceiptParts {
  rx_txid : Hash256;
  rx_execution_domain : ExecutionDomain;
  rx_outcome : ExecutionReceiptOutcomeV1;
  rx_trap_code : Z;
  rx_fee_payer : ExecutionAddress;
  rx_actual_weight : Z;
  rx_fee_charged : Z;
  rx_fee_settlement_receipt_id : Hash256;
  rx_state_effect_root : Hash256;
  rx_events_root : Hash256;
  rx_event_count : Z;
  rx_return_data_hash : Hash256;
  rx_return_data_len : Z;
  rx_outbox_effect_root : Hash256;
  rx_outbox_count : Z;
}.

Record ExecutionReceiptV1 : Type := MkExecutionReceiptV1 { rx_parts : ExecutionReceiptV1Parts }.

Definition validate_structural (p : ExecutionReceiptV1Parts) : result ExecutionReceiptError.t unit :=
  let trapped := bool_decide (rx_outcome p = RxTrapped) in
  if negb (Bool.eqb trapped (negb (rx_trap_code p =? 0))) then Err ExecutionReceiptError.InvalidTrapCode
  else
    let? event_count := ok_or (try_from USIZE_MAX (rx_event_count p)) ExecutionReceiptError.TooManyEvents in
    if event_count >? MAX_EXECUTION_EVENTS_V1 then Err ExecutionReceiptError.TooManyEvents
    else
      let? return_data_len := ok_or (try_from USIZE_MAX (rx_return_data_len p))
                                ExecutionReceiptError.ReturnDataTooLarge in
      if return_data_len >? MAX_EXECUTION_RETURN_DATA_BYTES_V1 then Err ExecutionReceiptError.ReturnDataTooLarge
      else Ok tt.

Definition expected_fee_outcome (o : ExecutionReceiptOutcomeV1) : ExecutionOutcome :=
  match o with
  | RxCommitted => Committed
  | RxReverted | RxTrapped => Reverted
  | RxResourceExhausted => ResourceExhausted
  end.

Definition ExecutionReceiptV1_new `{Blake3} (p : ExecutionReceiptV1Parts) (fee_receipt : FeeSettlementReceiptV1)
  : result ExecutionReceiptError.t ExecutionReceiptV1 :=
  let? _ := validate_structural p in
  let f := fr_parts fee_receipt in
  if negb (bool_decide (rx_txid p = fr_txid f)) || negb (bool_decide (rx_fee_payer p = fr_payer f))
     || negb (rx_actual_weight p =? fr_actual_weight f) || negb (rx_fee_charged p =? fr_charged f)
     || negb (bool_decide (rx_fee_settlement_receipt_id p = fee_receipt_id fee_receipt))
     || negb (bool_decide (fr_outcome f = expected_fee_outcome (rx_outcome p)))
  then Err ExecutionReceiptError.FeeReceiptMismatch
  else Ok (MkExecutionReceiptV1 p).

Definition decode_execution_domain (value : byte) : result ExecutionReceiptError.t ExecutionDomain :=
  match value with
  | x10 => Ok ExecNative
  | x11 => Ok ExecEvm
  | x12 => Ok ExecWasm
  | x13 => Ok ExecSystem
  | _ => Err (ExecutionReceiptError.UnknownExecutionDomain value)
  end.

Definition receipt_hash (bytes : list byte) : result ExecutionReceiptError.t Hash256 :=
  map_err ExecutionReceiptError.Primitive (Hash256_from_slice bytes).

Definition receipt_decode (bytes : list byte) : result ExecutionReceiptError.t ExecutionReceiptV1 :=
  if negb (length bytes =? EXECUTION_RECEIPT_BYTES_V1)%nat
  then Err (ExecutionReceiptError.InvalidReceiptLength (length bytes))
  else
    let version := le_at 0 2 bytes in
    if negb (version =? EXECUTION_RECEIPT_VERSION_V1)
    then Err (ExecutionReceiptError.UnsupportedVersion version)
    else
      let? txid := receipt_hash (slice 2 34 bytes) in
      let? domain := decode_execution_domain (byte_at 34 bytes) in
      let? outcome := rx_outcome_try_from (byte_at 35 bytes) in
      let trap_code := le_at 36 38 bytes in
      let? payer := map_err ExecutionReceiptError.Address (ExecutionAddress_from_slice (slice 38 71 bytes)) in
      let? fee_id := receipt_hash (slice 87 119 bytes) in
      let? effect_root := receipt_hash (slice 119 151 bytes) in
      let? events := receipt_hash (slice 151 183 bytes) in
      let? return_hash := receipt_hash (slice 187 219 bytes) in
      let? outbox_root := receipt_hash (slice 223 255 bytes) in
      let parts := MkReceiptParts txid domain outcome trap_code payer (le_at 71 79 bytes) (le_at 79 87 bytes)
                     fee_id effect_root events (le_at 183 187 bytes) return_hash (le_at 219 223 bytes)
                     outbox_root (le_at 255 259 bytes) in
      let? _ := validate_structural parts in
      Ok (MkExecutionReceiptV1 parts).

(** The fields in the order [encode] writes them. *)
Definition receipt_fields (r : ExecutionReceiptV1) : list (list byte) :=
  let p := rx_parts r in
  [le_bytes 2 EXECUTION_RECEIPT_VERSION_V1; arr_bytes (rx_txid p); [exec_domain_byte (rx_execution_domain p)];
   [rx_outcome_byte (rx_outcome p)]; le_bytes 2 (rx_trap_code p); ExecutionAddress_to_bytes (rx_fee_payer p);
   le_bytes 8 (rx_actual_weight p); le_bytes 8 (rx_fee_charged p); arr_bytes (rx_fee_settlement_receipt_id p);
   arr_bytes (rx_state_effect_root p); arr_bytes (rx_events_root p); le_bytes 4 (rx_event_count p);
   arr_bytes (rx_return_data_hash p); le_bytes 4 (rx_return_data_len p); arr_bytes (rx_outbox_effect_root p);
   le_bytes 4 (rx_outbox_count p)].

Definition receipt_encode (r : ExecutionReceiptV1) : list byte := concat (receipt_fields r).

Section ReceiptHashes.
Context `{Blake3}.

Definition receipt_id (r : ExecutionReceiptV1) : Hash256 := domain_hash EXECUTION_RECEIPT_DOMAIN (receipt_encode r).
Definition return_data_hash (return_data : list byte) : Hash256 := domain_hash RETURN_DOMAIN return_data.
Definition empty_outbox_effect_root : Hash256 := domain_hash OUTBOX_EFFECT_DOMAIN (le_bytes 4 0).

End ReceiptHashes.

(** ** The receipt codec *)

(** What a decoded receipt satisfies. *)
Definition receipt_ok (r : ExecutionReceiptV1) : Prop :=
  let p := rx_parts r in
  (rx_outcome p = RxTrapped <-> rx_trap_code p <> 0) /\ in_u16 (rx_trap_code p) /\ address_ok (rx_fee_payer p) /\
  in_u64 (rx_actual_weight p) /\ in_u64 (rx_fee_charged p) /\
  0 <= rx_event_count p <= MAX_EXECUTION_EVENTS_V1 /\
  0 <= rx_return_data_len p <= MAX_EXECUTION_RETURN_DATA_BYTES_V1 /\ in_u32 (rx_outbox_count p).

Lemma validate_structural_spec p :
  in_u32 (rx_event_count p) -> in_u32 (rx_return_data_len p) ->
  validate_structural p = Ok tt <->
  (rx_outcome p = RxTrapped <-> rx_trap_code p <> 0) /\ rx_event_count p <= MAX_EXECUTION_EVENTS_V1 /\
  rx_return_data_len p <= MAX_EXECUTION_RETURN_DATA_BYTES_V1.
Proof.
  intros H1 H2. unfold validate_structural.
  assert (forall z, in_u32 z -> try_from USIZE_MAX z = Some z) as HT
    by (intros z Hz; apply try_from_Some; unfold_ints; lia).
  rewrite (HT _ H1), (HT _ H2). cbn [ok_or].
  assert (Bool.eqb (bool_decide (rx_outcome p = RxTrapped)) (negb (rx_trap_code p =? 0)) = true <->
    (rx_outcome p = RxTrapped <-> rx_trap_code p <> 0)) as HB.
  { rewrite Bool.eqb_true_iff. destruct (bool_decide_reflect (rx_outcome p = RxTrapped)), (Z.eqb_spec (rx_trap_code p) 0);
      cbn [negb]; naive_solver. }
  destruct (Bool.eqb _ _); cbn [negb]; [|naive_solver].
  destruct (rx_event_count p >? _) eqn:E1; [split; [done|lia]|].
  destruct (rx_return_data_len p >? _) eqn:E2; [split; [done|lia]|]. split; [|done].
  intros _. split; [by apply HB|]. lia.
Qed.

Lemma rx_outcome_try_from_Ok b o : rx_outcome_try_from b = Ok o <-> b = rx_outcome_byte o.
Proof. split; [destruct b; simpl; intros [= <-]; done|intros ->; by destruct o]. Qed.

Lemma decode_execution_domain_Ok b d : decode_execution_domain b = Ok d <-> b = exec_domain_byte d.
Proof. split; [destruct b; simpl; intros [= <-]; done|intros ->; by destruct d]. Qed.

Lemma receipt_hash_Ok l h : receipt_hash l = Ok h <-> l = arr_bytes h.
Proof.
  unfold receipt_hash, Hash256_from_slice. rewrite map_err_Ok, ok_or_Ok. apply to_arr_Some.
Qed.

Lemma le_at_eq n a b l z : 0 <= z < 256 ^ Z.of_nat n -> slice a b l = le_bytes n z -> le_at a b l = z.
Proof. intros Hz E. unfold le_at. rewrite E. by apply le_num_le_bytes. Qed.

Definition receipt_layout : list nat := [2; 32; 1; 1; 2; 33; 8; 8; 32; 32; 32; 4; 32; 4; 32; 4]%nat.

Lemma receipt_widths r : map length (receipt_fields r) = receipt_layout.
Proof. unfold receipt_fields. cbn [map]. by rewrite !length_le_bytes, !arr_length, length_to_bytes. Qed.

Lemma receipt_encode_length r : length (receipt_encode r) = EXECUTION_RECEIPT_BYTES_V1.
Proof. unfold receipt_encode. by rewrite length_concat, receipt_widths. Qed.

Lemma receipt_decode_encode r : receipt_ok r -> receipt_decode (receipt_encode r) = Ok r.
Proof.
  destruct r as [[tx dm oc tc py aw fc fi sr er ec rh rl ob oc']].
  set (r := MkExecutionReceiptV1 _). intros (HT & Htc & Ha & Haw & Hfc & Hec & Hrl & Hob).
  cbn in HT, Htc, Ha, Haw, Hfc, Hec, Hrl, Hob. pose proof (slices_concat _ _ (receipt_widths r)) as HC.
  change (concat (receipt_fields r)) with (receipt_encode r) in HC.
  pose proof (receipt_encode_length r) as HL. unfold receipt_decode. rewrite HL.
  cbn [Nat.eqb EXECUTION_RECEIPT_BYTES_V1 negb]. generalize dependent (receipt_encode r). intros bytes HC HL.
  unfold receipt_fields in HC. cbn [slices receipt_layout Nat.add r rx_parts rx_txid rx_execution_domain rx_outcome
    rx_trap_code rx_fee_payer rx_actual_weight rx_fee_charged rx_fee_settlement_receipt_id rx_state_effect_root
    rx_events_root rx_event_count rx_return_data_hash rx_return_data_len rx_outbox_effect_root rx_outbox_count] in HC.
  unfold EXECUTION_RECEIPT_BYTES_V1 in HL.
  injection HC as F0 F1 F2 F3 F4 F5 F6 F7 F8 F9 F10 F11 F12 F13 F14 F15.
  unfold MAX_EXECUTION_EVENTS_V1, MAX_EXECUTION_RETURN_DATA_BYTES_V1 in *.
  apply le_at_eq in F0, F4, F6, F7, F11, F13, F15; try (unfold_ints; lia); [|done].
  rewrite F0, F4, F6, F7, F11, F13, F15. cbn [Z.eqb EXECUTION_RECEIPT_VERSION_V1 Pos.eqb negb].
  apply receipt_hash_Ok in F1, F8, F9, F10, F12, F14. rewrite F1, F8, F9, F10, F12, F14.
  rewrite (proj2 (decode_execution_domain_Ok _ dm)) by (apply byte_at_value; [lia|done]).
  rewrite (proj2 (rx_outcome_try_from_Ok _ oc)) by (apply byte_at_value; [lia|done]).
  rewrite (proj2 (address_from_slice_spec _ py)) by done. cbn [map_err].
  assert (validate_structural (MkReceiptParts tx dm oc tc py aw fc fi sr er ec rh rl ob oc') = Ok tt) as ->; [|done].
  apply validate_structural_spec; cbn; [unfold_ints; lia..|].
  unfold MAX_EXECUTION_EVENTS_V1, MAX_EXECUTION_RETURN_DATA_BYTES_V1. split_and!; try lia. done.
Qed.

Lemma le_at_in n a b l : (b - a = n)%nat -> (a <= b <= length l)%nat -> 0 <= le_at a b l < 256 ^ Z.of_nat n.
Proof. intros <- [? ?]. by apply le_at_range. Qed.

Lemma le_slice n a b l : (b - a = n)%nat -> (a <= b <= length l)%nat -> le_bytes n (le_at a b l) = slice a b l.
Proof. intros <- [? ?]. by apply le_at_bytes. Qed.

Lemma receipt_encode_decode bytes r : receipt_decode bytes = Ok r -> bytes = receipt_encode r /\ receipt_ok r.
Proof.
  unfold receipt_decode. destruct (Nat.eqb_spec (length bytes) EXECUTION_RECEIPT_BYTES_V1) as [HL|]; [cbn [negb]|done].
  unfold EXECUTION_RECEIPT_BYTES_V1 in HL. cbv zeta.
  destruct (Z.eqb_spec (le_at 0 2 bytes) EXECUTION_RECEIPT_VERSION_V1) as [EV|]; [cbn [negb]|done].
  destruct (receipt_hash (slice 2 34 bytes)) as [tx|] eqn:F1; [|done].
  destruct (decode_execution_domain _) as [dm|] eqn:F2; [|done].
  destruct (rx_outcome_try_from _) as [oc|] eqn:F3; [|done].
  destruct (ExecutionAddress_from_slice _) as [py|] eqn:F5; [cbn [map_err]|done].
  destruct (receipt_hash (slice 87 119 bytes)) as [fi|] eqn:F8; [|done].
  destruct (receipt_hash (slice 119 151 bytes)) as [sr|] eqn:F9; [|done].
  destruct (receipt_hash (slice 151 183 bytes)) as [er|] eqn:F10; [|done].
  destruct (receipt_hash (slice 187 219 bytes)) as [rh|] eqn:F12; [|done].
  destruct (receipt_hash (slice 223 255 bytes)) as [ob|] eqn:F14; [|done].
  destruct (validate_structural _) as [[]|] eqn:ES; [|done]. intros [= <-].
  apply receipt_hash_Ok in F1, F8, F9, F10, F12, F14. apply decode_execution_domain_Ok in F2.
  apply rx_outcome_try_from_Ok in F3. apply address_from_slice_spec in F5 as [F5 HA].
  pose proof (le_at_in 4 183 187 bytes ltac:(done) ltac:(lia)). pose proof (le_at_in 4 219 223 bytes ltac:(done) ltac:(lia)).
  pose proof (le_at_in 4 255 259 bytes ltac:(done) ltac:(lia)). pose proof (le_at_in 8 71 79 bytes ltac:(done) ltac:(lia)).
  pose proof (le_at_in 8 79 87 bytes ltac:(done) ltac:(lia)). pose proof (le_at_in 2 36 38 bytes ltac:(done) ltac:(lia)).
  apply validate_structural_spec in ES as (HT & HE & HR); [|cbn; unfold_ints; lia..]. cbn in HT, HE, HR. split.
  - rewrite <- (concat_slices receipt_layout bytes) at 1 by done.
    unfold receipt_encode, receipt_fields.
    cbn [slices receipt_layout Nat.add rx_parts rx_txid rx_execution_domain rx_outcome
      rx_trap_code rx_fee_payer rx_actual_weight rx_fee_charged rx_fee_settlement_receipt_id rx_state_effect_root
      rx_events_root rx_event_count rx_return_data_hash rx_return_data_len rx_outbox_effect_root rx_outbox_count].
    rewrite !(le_slice 8), !(le_slice 4), !(le_slice 2) by (done || lia).
    rewrite <- F1, <- F2, <- F3, <- F5, <- F8, <- F9, <- F10, <- F12, <- F14, <- EV.
    rewrite (le_slice 2) by (done || lia). rewrite <- (byte_at_slice 34), <- (byte_at_slice 35) by lia. done.
  - unfold receipt_ok. cbn. unfold_ints. split_and!; (done || lia).
Qed.

Lemma receipt_encode_inj r1 r2 : receipt_ok r1 -> receipt_ok r2 -> receipt_encode r1 = receipt_encode r2 -> r1 = r2.
Proof. intros H1%receipt_decode_encode H2%receipt_decode_encode E. rewrite E in H1. congruence. Qed.

(** ** What the roots bind *)

(** What [ExecutionEventV1::new] guarantees. *)
Definition event_ok (e : ExecutionEventV1) : Prop :=
  (length (topics e) <= MAX_EXECUTION_EVENT_TOPICS_V1)%nat /\
  Z.of_nat (length (data e)) <= MAX_EXECUTION_EVENT_DATA_BYTES_V1.

Lemma ExecutionEventV1_new_ok em ts bytes e :
  ExecutionEventV1_new em ts bytes = Ok e <-> e = MkEvent em ts bytes /\ event_ok e.
Proof.
  unfold ExecutionEventV1_new, event_ok. destruct (Nat.ltb_spec MAX_EXECUTION_EVENT_TOPICS_V1 (length ts)).
  { split; [done|]. intros [-> [? _]]. simpl in *. lia. }
  destruct (_ >? _) eqn:E; [split; [done|]; intros [-> [_ ?]]; simpl in *; lia|].
  split; [intros [= <-]; simpl; split_and!; (done || lia)|]. naive_solver.
Qed.

Lemma encode_all_prefix {A} (enc : A -> list byte) n l1 l2 x y :
  (forall a, length (enc a) = n) -> length l1 = length l2 ->
  encode_all enc l1 ++ x = encode_all enc l2 ++ y -> map enc l1 = map enc l2 /\ x = y.
Proof.
  intros Hn HL E. apply app_inj_1 in E as [E ->].
  - split; [|done]. rewrite <- (chunks_encode_all enc n l1), <- (chunks_encode_all enc n l2) by done. by rewrite E, HL.
  - by rewrite !(length_encode_all_const enc n), HL.
Qed.

Lemma map_arr_inj {n} (l1 l2 : list (arr n)) : map arr_bytes l1 = map arr_bytes l2 -> l1 = l2.
Proof.
  revert l2. induction l1 as [|a l1 IH]; intros [|b l2]; simpl; [done..|]. intros [= E%arr_eq E2]. f_equal; auto.
Qed.

Lemma event_encode_inj e1 e2 : event_ok e1 -> event_ok e2 -> event_encode e1 = event_encode e2 -> e1 = e2.
Proof.
  destruct e1 as [m1 t1 d1], e2 as [m2 t2 d2]. unfold event_ok, MAX_EXECUTION_EVENT_TOPICS_V1,
    MAX_EXECUTION_EVENT_DATA_BYTES_V1, event_encode. simpl. intros [H1 H1'] [H2 H2'] E.
  apply app_inj_1 in E as [_ E]; [|done].
  injection E as Ek E. apply app_inj_1 in E as [Ep E]; [|by rewrite !arr_length].
  assert (m1 = m2) as -> by (apply to_bytes_inj; unfold ExecutionAddress_to_bytes; congruence).
  injection E as Ec E. apply (f_equal byte_to_Z) in Ec. rewrite !byte_to_of_small in Ec by lia.
  apply (encode_all_prefix _ 32) in E as [Et%map_arr_inj E]; [|intros; apply arr_length|lia].
  apply app_inj_1 in E as [_ ->]; [by subst|by rewrite !length_le_bytes].
Qed.

Section Binding.
Context `{Blake3}.

Definition event_messages (l : list ExecutionEventV1) : list (list byte) :=
  (EVENTS_DOMAIN ++ events_bytes l) :: map (fun e => EVENT_DOMAIN ++ event_encode e) l.

Lemma event_ids_bind l1 l2 :
  Forall event_ok l1 -> Forall event_ok l2 -> map event_id l1 = map event_id l2 ->
  l1 = l2 \/ collision_in (map (fun e => EVENT_DOMAIN ++ event_encode e) l1)
                          (map (fun e => EVENT_DOMAIN ++ event_encode e) l2).
Proof.
  intros H1. revert l2. induction H1 as [|e1 l1 He1 H1 IH]; intros [|e2 l2] H2; simpl; [by left|done..|].
  inversion H2 as [|? ? He2 Hl2]; subst. intros [= Ee El].
  destruct (IH l2 Hl2 El) as [->|C]; [|right; eapply collision_in_mono; [exact C|set_solver..]].
  apply (domain_hash_inj EVENT_DOMAIN) in Ee as [Ee%event_encode_inj|C];
    [left; by subst|done|done|right; eapply collision_in_mono; [exact C|set_solver..]].
Qed.

Lemma events_root_binds l1 l2 root :
  Forall event_ok l1 -> Forall event_ok l2 -> events_root l1 = Ok root -> events_root l2 = Ok root ->
  l1 = l2 \/ collision_in (event_messages l1) (event_messages l2).
Proof.
  intros H1 H2. unfold events_root, event_messages, MAX_EXECUTION_EVENTS_V1.
  destruct (Z.of_nat (length l1) >? _) eqn:E1; [done|]. destruct (Z.of_nat (length l2) >? _) eqn:E2; [done|].
  intros [= <-] [= E]. apply (domain_hash_inj EVENTS_DOMAIN) in E as [E|(x & y & Hx & Hy & Hne & Eh)].
  2: { right. exists y, x. set_solver. }
  unfold events_bytes in E. apply app_inj_1 in E as [EL E]; [|by rewrite !length_le_bytes].
  apply le_bytes_inj in EL; [|simpl; lia..].
  rewrite <- (app_nil_r (encode_all _ l2)), <- (app_nil_r (encode_all _ l1)) in E.
  apply (encode_all_prefix _ 32) in E as [E _]; [|intros; apply arr_length|lia].
  rewrite <- !(map_map event_id arr_bytes) in E. symmetry in E. apply map_arr_inj in E.
  destruct (event_ids_bind l1 l2 H1 H2 E) as [->|C]; [by left|right].
  eapply collision_in_mono; [exact C|set_solver..].
Qed.

Lemma effect_encode_inj e1 e2 : effect_encode e1 = effect_encode e2 -> e1 = e2.
Proof.
  destruct e1 as [d1 s1 o1 n1], e2 as [d2 s2 o2 n2]. unfold effect_encode. simpl. intros E.
  apply app_inj_1 in E as [Ed E]; [|by rewrite !length_le_bytes].
  apply app_inj_1 in E as [Es E]; [|by rewrite !length_le_bytes].
  apply app_inj_1 in E as [->%arr_eq ->%arr_eq]; [|by rewrite !arr_length].
  apply le_bytes_inj in Ed as ->%domain_u16_inj; [|apply domain_u16_range..].
  apply le_bytes_inj in Es; [|apply scheme_u16_range..]. by destruct s1, s2.
Qed.

Lemma length_effect_encode e : length (effect_encode e) = STATE_EFFECT_DESCRIPTOR_BYTES_V1.
Proof. unfold effect_encode. by rewrite !length_app, !length_le_bytes, !arr_length. Qed.

Lemma map_inj {A B} (f : A -> B) l1 l2 : (forall a b, f a = f b -> a = b) -> map f l1 = map f l2 -> l1 = l2.
Proof. intros Hf. revert l2. induction l1; intros [|]; simpl; [done..|]. intros [= ?%Hf ?]. f_equal; auto. Qed.

Lemma effects_root_binds l1 l2 root :
  compute_state_effect_root l1 = Ok root -> compute_state_effect_root l2 = Ok root ->
  l1 = l2 \/ collision_in [STATE_EFFECT_DOMAIN ++ effects_bytes l1] [STATE_EFFECT_DOMAIN ++ effects_bytes l2].
Proof.
  unfold compute_state_effect_root, MAX_STATE_COMMITMENTS.
  destruct (Nat.ltb_spec 32 (length l1)); [done|]. destruct (Nat.ltb_spec 32 (length l2)); [done|].
  destruct (check_effect_pairs l1); [|done]. destruct (check_effect_pairs l2); [|intros; done].
  destruct (check_effect_order l1); [|done]. destruct (check_effect_order l2); [|intros; done].
  intros [= <-] [= E]. symmetry in E. apply (domain_hash_inj STATE_EFFECT_DOMAIN) in E as [E|C]; [left|by right].
  unfold effects_bytes in E. apply app_inj_1 in E as [_ E]; [|done].
  apply app_inj_1 in E as [EL E]; [|by rewrite !length_le_bytes]. apply le_bytes_inj in EL; [|simpl; lia..].
  rewrite <- (app_nil_r (encode_all _ l1)), <- (app_nil_r (encode_all _ l2)) in E.
  apply (encode_all_prefix _ STATE_EFFECT_DESCRIPTOR_BYTES_V1) in E as [E _]; [|apply length_effect_encode|lia].
  by apply map_inj in E; [|apply effect_encode_inj].
Qed.

(** A receipt that carries the roots of these events, effects and return data. *)
Definition receipt_of (r : ExecutionReceiptV1) (events : list ExecutionEventV1)
    (effects : list StateEffectDescriptorV1) (return_data : list byte) : Prop :=
  receipt_ok r /\ Forall event_ok events /\
  events_root events = Ok (rx_events_root (rx_parts r)) /\
  compute_state_effect_root effects = Ok (rx_state_effect_root (rx_parts r)) /\
  return_data_hash return_data = rx_return_data_hash (rx_parts r).

(** Every message hashed for it. *)
Definition receipt_messages (r : ExecutionReceiptV1) (events : list ExecutionEventV1)
    (effects : list StateEffectDescriptorV1) (return_data : list byte) : list (list byte) :=
  (EXECUTION_RECEIPT_DOMAIN ++ receipt_encode r) :: (STATE_EFFECT_DOMAIN ++ effects_bytes effects)
    :: (RETURN_DOMAIN ++ return_data) :: event_messages events.

End Binding.

(** ** Properties *)

(** Execution receipts.  Decoding accepts exactly the 259-byte encodings
    of structurally legal receipts (a trap code exactly for a trap, at most
    256 events, bounded return data), and a receipt built for machine-sized
    parts decodes from its encoding and agrees with the fee receipt it was
    built against in transaction, payer, weight, charge and outcome. *)
Theorem execution_receipt_exact `{Blake3} :
  (forall bytes r, receipt_decode bytes = Ok r <-> bytes = receipt_encode r /\ receipt_ok r) /\
  (forall p f r, ExecutionReceiptV1_new p f = Ok r ->
     in_u16 (rx_trap_code p) -> address_ok (rx_fee_payer p) -> in_u64 (rx_actual_weight p) ->
     in_u64 (rx_fee_charged p) -> in_u32 (rx_event_count p) -> in_u32 (rx_return_data_len p) ->
     in_u32 (rx_outbox_count p) ->
     rx_parts r = p /\ receipt_decode (receipt_encode r) = Ok r /\
     rx_txid p = fr_txid (fr_parts f) /\ rx_fee_payer p = fr_payer (fr_parts f) /\
     rx_actual_weight p = fr_actual_weight (fr_parts f) /\ rx_fee_charged p = fr_charged (fr_parts f) /\
     rx_fee_settlement_receipt_id p = fee_receipt_id f /\
     fr_outcome (fr_parts f) = expected_fee_outcome (rx_outcome p)).
Proof.
  split.
  { intros bytes r. split; [apply receipt_encode_decode|]. intros [-> HO]. by apply receipt_decode_encode. }
  intros p f r. unfold ExecutionReceiptV1_new. destruct (validate_structural p) as [[]|] eqn:ES; [|done].
  intros E ? ? ? ? ? ? ?. revert E.
  destruct (bool_decide_reflect (rx_txid p = fr_txid (fr_parts f))); [|done].
  destruct (bool_decide_reflect (rx_fee_payer p = fr_payer (fr_parts f))); [|done].
  destruct (Z.eqb_spec (rx_actual_weight p) (fr_actual_weight (fr_parts f))); [|done].
  destruct (Z.eqb_spec (rx_fee_charged p) (fr_charged (fr_parts f))); [|done].
  destruct (bool_decide_reflect (rx_fee_settlement_receipt_id p = fee_receipt_id f)); [|done].
  destruct (bool_decide_reflect (fr_outcome (fr_parts f) = expected_fee_outcome (rx_outcome p))); [|done].
  intros [= <-]. split_and!; try done. apply receipt_decode_encode.
  apply validate_structural_spec in ES as (? & ? & ?); [|done..]. unfold receipt_ok. cbn [rx_parts].
  unfold_ints. split_and!; (done || lia).
Qed.

(** A receipt identifier fixes what happened.  Two receipts with one
    identifier are equal, and so are the event lists, the state effects and
    the return data whose roots they carry, unless two of the messages hashed
    for them collide under blake3. *)
Theorem receipt_binds_execution `{Blake3} r1 ev1 ef1 rd1 r2 ev2 ef2 rd2 :
  receipt_of r1 ev1 ef1 rd1 -> receipt_of r2 ev2 ef2 rd2 -> receipt_id r1 = receipt_id r2 ->
  (r1 = r2 /\ ev1 = ev2 /\ ef1 = ef2 /\ rd1 = rd2) \/
  collision_in (receipt_messages r1 ev1 ef1 rd1) (receipt_messages r2 ev2 ef2 rd2).
Proof.
  intros (HO1 & HE1 & Ev1 & Ef1 & Rd1) (HO2 & HE2 & Ev2 & Ef2 & Rd2) E. unfold receipt_messages.
  apply (domain_hash_inj EXECUTION_RECEIPT_DOMAIN) in E as [E|C];
    [|right; eapply collision_in_mono; [exact C|set_solver..]].
  apply receipt_encode_inj in E as <-; [|done..].
  destruct (events_root_binds ev1 ev2 _ HE1 HE2 Ev1 Ev2) as [->|C];
    [|right; eapply collision_in_mono; [exact C|set_solver..]].
  destruct (effects_root_binds ef1 ef2 _ Ef1 Ef2) as [->|C];
    [|right; eapply collision_in_mono; [exact C|set_solver..]].
  rewrite <- Rd2 in Rd1. apply (domain_hash_inj RETURN_DOMAIN) in Rd1 as [->|C];
    [by left|right; eapply collision_in_mono; [exact C|set_solver..]].
Qed.

Definition demo_events : list ExecutionEventV1 :=
  [MkEvent (MkExecutionAddress KindWasm (arr_fill 32 x05)) [arr_fill 32 x06] [x07; x08]].
Definition demo_effects : list StateEffectDescriptorV1 :=
  [MkEffect DomEvm EvmCommitmentV1 (arr_fill 32 x01) (arr_fill 32 x02);
   MkEffect DomWasm OregonSmtV1 (arr_fill 32 x03) (arr_fill 32 x04)].

Definition ok_hash (r : result ExecutionReceiptError.t Hash256) : Hash256 :=
  match r with Ok h => h | Err _ => arr_fill 32 x00 end.

Definition demo_receipt : ExecutionReceiptV1 :=
  MkExecutionReceiptV1
    (MkReceiptParts (arr_fill 32 x09) ExecWasm RxTrapped 3 (MkExecutionAddress KindWasm (arr_fill 32 x05)) 100 700
       (arr_fill 32 x0a) (ok_hash (compute_state_effect_root (H := demo_blake3) demo_effects))
       (ok_hash (events_root (H := demo_blake3) demo_events)) 1 (return_data_hash (H := demo_blake3) [x0b]) 1
       (empty_outbox_effect_root (H := demo_blake3)) 0).

Lemma demo_receipt_of : receipt_of (H := demo_blake3) demo_receipt demo_events demo_effects [x0b].
Proof.
  split_and!; try (vm_compute; reflexivity).
  - unfold receipt_ok, demo_receipt, address_ok, MAX_EXECUTION_EVENTS_V1, MAX_EXECUTION_RETURN_DATA_BYTES_V1.
    cbn [rx_parts rx_outcome rx_trap_code rx_fee_payer rx_actual_weight rx_fee_charged rx_event_count
         rx_return_data_len rx_outbox_count kind]. unfold_ints. split_and!; (done || lia).
  - repeat constructor; unfold MAX_EXECUTION_EVENT_TOPICS_V1, MAX_EXECUTION_EVENT_DATA_BYTES_V1; simpl; lia.
Qed.

Lemma receipt_binds_execution_witness :
  (demo_receipt = demo_receipt /\ demo_events = demo_events /\ demo_effects = demo_effects /\ [x0b] = [x0b]) \/
  collision_in (H := demo_blake3) (receipt_messages (H := demo_blake3) demo_receipt demo_events demo_effects [x0b])
    (receipt_messages (H := demo_blake3) demo_receipt demo_events demo_effects [x0b]).
Proof.
  apply (receipt_binds_execution (H := demo_blake3) demo_receipt demo_events demo_effects [x0b]
           demo_receipt demo_events demo_effects [x0b]); [exact demo_receipt_of|exact demo_receipt_of|reflexivity].
Defined.
