(* ===== verification/Bits.v ===== *)
(** Bits of byte strings, most significant first: the order in which a tree
    path and a proof bitmap are read, and its agreement with the
    lexicographic order of the bytes. *)
From S2P Require Import Prelude Layout.

(** [bytes[i / 8] & (0x80 >> (i % 8)) != 0] *)
Definition bit_of (bytes : list byte) (i : nat) : bool :=
  negb (Z.land (byte_to_Z (byte_at (i / 8) bytes)) (Z.shiftr 0x80 (Z.of_nat (i mod 8))) =? 0).

Lemma land_pow2 a k : 0 <= k -> Z.land a (2 ^ k) = if Z.testbit a k then 2 ^ k else 0.
Proof.
  intros Hk. apply Z.bits_inj'. intros i Hi. rewrite Z.land_spec, Z.pow2_bits_eqb by done.
  destruct (Z.eqb_spec k i) as [->|].
  - rewrite andb_true_r. destruct (Z.testbit a i) eqn:E; [by rewrite Z.pow2_bits_true by lia|by rewrite Z.testbit_0_l].
  - rewrite andb_false_r. destruct (Z.testbit a k); [by rewrite Z.pow2_bits_false by lia|by rewrite Z.testbit_0_l].
Qed.

Lemma mask_pow2 i : (i < 8)%nat -> Z.shiftr 0x80 (Z.of_nat i) = 2 ^ (7 - Z.of_nat i).
Proof. intros. do 8 (destruct i as [|i]; [done|]). lia. Qed.

Lemma bit_of_head b l i : (i < 8)%nat -> bit_of (b :: l) i = Z.testbit (byte_to_Z b) (7 - Z.of_nat i).
Proof.
  intros Hi. unfold bit_of, byte_at. rewrite Nat.div_small, Nat.mod_small, mask_pow2, land_pow2 by lia. cbn [nth].
  destruct (Z.testbit _ _); [|done]. destruct (Z.eqb_spec (2 ^ (7 - Z.of_nat i)) 0) as [E|]; [|done].
  pose proof (Z.pow_pos_nonneg 2 (7 - Z.of_nat i)). lia.
Qed.

Lemma bit_of_tail b l i : bit_of (b :: l) (8 + i) = bit_of l i.
Proof.
  unfold bit_of, byte_at. replace (8 + i)%nat with (i + 1 * 8)%nat by lia.
  rewrite Nat.div_add, Nat.Div0.mod_add by lia. replace (i / 8 + 1)%nat with (S (i / 8)) by lia. done.
Qed.

Lemma byte_high_bits b i : 8 <= i -> Z.testbit (byte_to_Z b) i = false.
Proof.
  intros Hi. pose proof (byte_to_Z_range b). destruct (decide (byte_to_Z b = 0)) as [->|]; [apply Z.testbit_0_l|].
  apply Z.bits_above_log2; [lia|]. apply Z.log2_lt_pow2; [lia|]. pose proof (Z.pow_le_mono_r 2 8 i). lia.
Qed.

Lemma byte_bits_inj x y :
  (forall i, (i < 8)%nat -> Z.testbit (byte_to_Z x) (7 - Z.of_nat i) = Z.testbit (byte_to_Z y) (7 - Z.of_nat i)) -> x = y.
Proof.
  intros HB. apply byte_to_Z_inj, Z.bits_inj'. intros i Hi.
  destruct (decide (i < 8)) as [H8|H8].
  - specialize (HB (Z.to_nat (7 - i)) ltac:(lia)). rewrite Z2Nat.id in HB by lia.
    by replace (7 - (7 - i)) with i in HB by lia.
  - by rewrite !byte_high_bits by lia.
Qed.

(** Strings of one length with the same bits are equal. *)
Lemma bits_ext l1 l2 :
  length l1 = length l2 -> (forall i, (i < 8 * length l1)%nat -> bit_of l1 i = bit_of l2 i) -> l1 = l2.
Proof.
  revert l2. induction l1 as [|x l1 IH]; intros [|y l2] HL HB; try done. f_equal.
  - apply byte_bits_inj. intros i Hi. rewrite <- (bit_of_head x l1), <- (bit_of_head y l2) by done.
    apply HB. simpl. lia.
  - apply IH; [by injection HL|]. intros i Hi. rewrite <- (bit_of_tail x l1), <- (bit_of_tail y l2). apply HB. simpl. lia.
Qed.

(** Numbers that agree above bit [k] are ordered by it. *)
Lemma testbit_monotone x y k :
  0 <= k -> x <= y -> (forall i, k < i -> Z.testbit x i = Z.testbit y i) ->
  Z.testbit x k = true -> Z.testbit y k = true.
Proof.
  intros Hk HL HB HX. assert (x / 2 ^ (k + 1) = y / 2 ^ (k + 1)) as E.
  { apply Z.bits_inj'. intros i Hi. rewrite !Z.div_pow2_bits by lia. apply HB. lia. }
  rewrite Z.pow_add_r, <- !Z.div_div in E by lia. change (2 ^ 1) with 2 in E.
  assert (x / 2 ^ k <= y / 2 ^ k) by (apply Z.div_le_mono; lia).
  rewrite Z.testbit_odd, Z.shiftr_div_pow2, Zodd_mod in HX by lia.
  rewrite Z.testbit_odd, Z.shiftr_div_pow2, Zodd_mod by lia.
  rewrite Z.eqb_eq in HX |- *.
  pose proof (Z.div_mod (x / 2 ^ k) 2). pose proof (Z.div_mod (y / 2 ^ k) 2).
  pose proof (Z.mod_pos_bound (y / 2 ^ k) 2). lia.
Qed.

(** In lexicographic order, strings that share their first [d] bits are
    ordered by bit [d]. *)
Lemma bytes_cmp_bit l1 l2 d :
  length l1 = length l2 -> bytes_cmp l1 l2 <> Gt -> (forall i, (i < d)%nat -> bit_of l1 i = bit_of l2 i) ->
  (d < 8 * length l1)%nat -> bit_of l1 d = true -> bit_of l2 d = true.
Proof.
  revert l2 d. induction l1 as [|x l1 IH]; intros [|y l2] d HL HC HB Hd; try done. simpl in HC.
  destruct (decide (d < 8)%nat) as [H8|H8].
  - rewrite !bit_of_head by done. apply testbit_monotone; [lia| |].
    + destruct (Z.compare_spec (byte_to_Z x) (byte_to_Z y)); (done || lia).
    + intros i Hi. destruct (decide (i < 8)) as [Hi8|Hi8].
      * specialize (HB (Z.to_nat (7 - i)) ltac:(lia)). rewrite !bit_of_head in HB by lia.
        rewrite Z2Nat.id in HB by lia. by replace (7 - (7 - i)) with i in HB by lia.
      * by rewrite !byte_high_bits by lia.
  - assert (x = y) as ->.
    { apply byte_bits_inj. intros i Hi. rewrite <- (bit_of_head x l1), <- (bit_of_head y l2) by done. apply HB. lia. }
    rewrite Z.compare_refl in HC. replace d with (8 + (d - 8))%nat by lia. rewrite !bit_of_tail.
    apply IH; [by injection HL|done| |simpl in Hd; lia].
    intros i Hi. specialize (HB (8 + i)%nat ltac:(lia)). by rewrite !bit_of_tail in HB.
Qed.

Lemma bit_of_testbit l i :
  bit_of l i = Z.testbit (byte_to_Z (byte_at (i / 8) l)) (7 - Z.of_nat (i mod 8)).
Proof.
  pose proof (Nat.mod_upper_bound i 8). rewrite <- (bit_of_head _ [] (i mod 8)) by lia.
  unfold bit_of at 2. rewrite (Nat.div_small (i mod 8)), Nat.Div0.mod_mod by lia. done.
Qed.

Lemma byte_at_insert l i b : (i < length l)%nat -> byte_at i (<[i := b]> l) = b.
Proof. intros. unfold byte_at. apply nth_lookup_Some. by apply list_lookup_insert_eq. Qed.

Lemma byte_at_insert_ne l i j b : i <> j -> byte_at j (<[i := b]> l) = byte_at j l.
Proof. intros. unfold byte_at. rewrite !nth_lookup. by rewrite list_lookup_insert_ne. Qed.

(** [bytes[d / 8] |= 0x80 >> (d % 8)] sets bit [d] and no other. *)
Lemma bit_of_set l d i :
  (d < 8 * length l)%nat ->
  bit_of (<[(d / 8)%nat := byte_of_Z (Z.lor (byte_to_Z (byte_at (d / 8) l)) (Z.shiftr 0x80 (Z.of_nat (d mod 8))))]> l) i
  = bool_decide (i = d) || bit_of l i.
Proof.
  intros Hd. assert (d / 8 < length l)%nat by (pose proof (Nat.div_mod_eq d 8); lia).
  rewrite !bit_of_testbit. pose proof (Nat.mod_upper_bound d 8). pose proof (Nat.mod_upper_bound i 8).
  pose proof (Nat.div_mod_eq d 8). pose proof (Nat.div_mod_eq i 8).
  destruct (decide (i / 8 = d / 8)%nat) as [E|E].
  - rewrite E, byte_at_insert, byte_to_of_Z by done. change 256 with (2 ^ 8).
    rewrite Z.mod_pow2_bits_low, Z.lor_spec, mask_pow2, Z.pow2_bits_eqb by lia. rewrite orb_comm. f_equal.
    destruct (Z.eqb_spec (7 - Z.of_nat (d mod 8)) (7 - Z.of_nat (i mod 8))); case_bool_decide; (done || lia).
  - rewrite byte_at_insert_ne by done. rewrite bool_decide_false; [done|]. intros ->. done.
Qed.

Lemma bit_of_zeros n i : bit_of (replicate n x00) i = false.
Proof.
  rewrite bit_of_testbit. unfold byte_at. rewrite nth_lookup.
  destruct (replicate n x00 !! (i / 8)%nat) as [b|] eqn:E; simpl; [|apply Z.testbit_0_l].
  apply lookup_replicate in E as [-> _]. apply Z.testbit_0_l.
Qed.

(** ** The lexicographic order *)

Lemma bytes_cmp_eq a b : bytes_cmp a b = Eq <-> a = b.
Proof.
  revert b. induction a as [|x a IH]; intros [|y b]; simpl; try (split; done).
  destruct (Z.compare_spec (byte_to_Z x) (byte_to_Z y)) as [E| |].
  - apply byte_to_Z_inj in E as ->. rewrite IH. naive_solver.
  - split; [done|]. intros [= -> _]. lia.
  - split; [done|]. intros [= -> _]. lia.
Qed.

Lemma bytes_cmp_antisym a b : bytes_cmp b a = CompOpp (bytes_cmp a b).
Proof.
  revert b. induction a as [|x a IH]; intros [|y b]; simpl; try done.
  rewrite (Z.compare_antisym (byte_to_Z x)). destruct (Z.compare _ _); simpl; [apply IH|done..].
Qed.

Lemma bytes_le_trans a b c : bytes_cmp a b <> Gt -> bytes_cmp b c <> Gt -> bytes_cmp a c <> Gt.
Proof.
  revert b c. induction a as [|x a IH]; intros [|y b] [|z c]; simpl; try done.
  destruct (Z.compare_spec (byte_to_Z x) (byte_to_Z y)), (Z.compare_spec (byte_to_Z y) (byte_to_Z z)),
    (Z.compare_spec (byte_to_Z x) (byte_to_Z z)); (done || lia || eauto).
Qed.

Lemma bytes_le_total a b : bytes_cmp a b <> Gt \/ bytes_cmp b a <> Gt.
Proof. rewrite (bytes_cmp_antisym a b). destruct (bytes_cmp a b); simpl; [left|left|right]; done. Qed.
