(* ===== verification/Smt.v ===== *)
(** [oregon-contract-state]: the hashes, nodes and checked loads of the sparse
    Merkle tree that holds a state domain ([hash.rs], [node.rs], [source.rs],
    [error.rs]), and reading a key under a root ([transition.rs]).

    The tree has 256 levels and is addressed by a 32-byte path.  A level is
    given by the number [k] of levels below it, so that loops are structural;
    the source's [depth] is [SMT_DEPTH - k]. *)
From S2P Require Import Prelude Encoding Layout Bits Commitment.

Module StateError.
Inductive t : Type :=
| KeyTooLarge (len : nat)
| ValueTooLarge (len : nat)
| InvalidAccountingValueLength (len : nat)
| DepthOutOfRange (depth : nat)
| NonCanonicalEmptyBranch (depth : nat)
| MissingNode (h : Hash256)
| NodeHashMismatch (h : Hash256)
| NodeDepthMismatch (expected actual : nat)
| UnexpectedLeaf
| UnexpectedBranch
| LeafPathMismatch (expected actual : Hash256)
| MissingValue (h : Hash256)
| ValueHashMismatch (h : Hash256)
| DuplicatePath (h : Hash256)
| WriteSetTooLarge (len : nat)
| ProofTooLarge (len : nat)
| MalformedProof
| RedundantDefaultSibling (depth : nat)
| InvalidProof
| DomainMismatch.
End StateError.

(** ** hash.rs *)

Definition SMT_DEPTH : nat := 256.
Definition MAX_STATE_KEY_BYTES : Z := 1024.
Definition MAX_STATE_VALUE_BYTES : Z := 1048576.

Definition KEY_DOMAIN : list byte := domain_tag "OREGON/STATE/SMT/KEY/V1".
Definition VALUE_DOMAIN : list byte := domain_tag "OREGON/STATE/SMT/VALUE/V1".
Definition EMPTY_DOMAIN : list byte := domain_tag "OREGON/STATE/SMT/EMPTY/V1".
Definition LEAF_DOMAIN : list byte := domain_tag "OREGON/STATE/SMT/LEAF/V1".
Definition NODE_DOMAIN : list byte := domain_tag "OREGON/STATE/SMT/NODE/V1".

Definition domain_prefix (domain : CommitmentDomainId) : list byte := le_bytes 2 (domain_u16 domain).

Definition ZERO_HASH : Hash256 := arr_fill 32 x00.

(** [hashes[i]] of an array long enough. *)
Definition hash_at (l : list Hash256) (i : nat) : Hash256 := nth i l ZERO_HASH.

Section Hash.
Context `{Blake3}.

Definition path_key (domain : CommitmentDomainId) (key : list byte) : result StateError.t Hash256 :=
  if Z.of_nat (length key) >? MAX_STATE_KEY_BYTES then Err (StateError.KeyTooLarge (length key))
  else Ok (domain_hash KEY_DOMAIN (domain_prefix domain ++ key)).

Definition value_hash (domain : CommitmentDomainId) (value : list byte) : result StateError.t Hash256 :=
  if Z.of_nat (length value) >? MAX_STATE_VALUE_BYTES then Err (StateError.ValueTooLarge (length value))
  else Ok (domain_hash VALUE_DOMAIN (domain_prefix domain ++ value)).

Definition leaf_hash (domain : CommitmentDomainId) (path value : Hash256) : Hash256 :=
  domain_hash LEAF_DOMAIN (domain_prefix domain ++ arr_bytes path ++ arr_bytes value).

Definition branch_hash_unchecked (domain : CommitmentDomainId) (depth : nat) (left right : Hash256) : Hash256 :=
  domain_hash NODE_DOMAIN
    (domain_prefix domain ++ le_bytes 2 (Z.of_nat depth) ++ arr_bytes left ++ arr_bytes right).

Definition branch_hash (domain : CommitmentDomainId) (depth : nat) (left right : Hash256)
  : result StateError.t Hash256 :=
  if (SMT_DEPTH <=? depth)%nat then Err (StateError.DepthOutOfRange depth)
  else Ok (branch_hash_unchecked domain depth left right).

(** The entries [SMT_DEPTH - k ..= SMT_DEPTH] of the array, filled from the end. *)
Fixpoint empty_suffix (domain : CommitmentDomainId) (k : nat) : list Hash256 :=
  match k with
  | O => [domain_hash EMPTY_DOMAIN (domain_prefix domain)]
  | S k' =>
      let below := empty_suffix domain k' in
      branch_hash_unchecked domain (SMT_DEPTH - k) (hash_at below 0) (hash_at below 0) :: below
  end.

Definition empty_hashes (domain : CommitmentDomainId) : list Hash256 := empty_suffix domain SMT_DEPTH.

Definition path_bit_unchecked (path : Hash256) (depth : nat) : bool := bit_of (arr_bytes path) depth.

Definition path_bit (path : Hash256) (depth : nat) : result StateError.t bool :=
  if (SMT_DEPTH <=? depth)%nat then Err (StateError.DepthOutOfRange depth)
  else Ok (path_bit_unchecked path depth).

(** ** node.rs *)

Inductive StateNode : Type :=
| Leaf (path_key value_hash : Hash256)
| Branch (depth : nat) (left right : Hash256).

Definition StateNode_hash (node : StateNode) (domain : CommitmentDomainId) : result StateError.t Hash256 :=
  match node with
  | Leaf path value => Ok (leaf_hash domain path value)
  | Branch depth lh rh =>
      if (256 <=? depth)%nat then Err (StateError.DepthOutOfRange depth)
      else
        let empty := empty_hashes domain in
        if bool_decide (lh = hash_at empty (depth + 1)) && bool_decide (rh = hash_at empty (depth + 1))
        then Err (StateError.NonCanonicalEmptyBranch depth)
        else branch_hash domain depth lh rh
  end.

(** ** source.rs *)

(** The trait [StateSource]: a store of nodes and values by hash. *)
Record StateSource : Type := MkStateSource {
  get_node : Hash256 -> result StateError.t (option StateNode);
  get_value : Hash256 -> result StateError.t (option (list byte));
}.

Definition load_checked_node (source : StateSource) (domain : CommitmentDomainId) (requested : Hash256)
    (depth : nat) : result StateError.t StateNode :=
  let? found := get_node source requested in
  let? node := ok_or found (StateError.MissingNode requested) in
  let? h := StateNode_hash node domain in
  if negb (bool_decide (h = requested)) then Err (StateError.NodeHashMismatch requested)
  else
    match node with
    | Branch actual _ _ =>
        if (depth <? SMT_DEPTH)%nat then
          if negb (actual =? depth)%nat then Err (StateError.NodeDepthMismatch depth actual) else Ok node
        else Err StateError.UnexpectedBranch
    | Leaf _ _ => if (depth <? SMT_DEPTH)%nat then Err StateError.UnexpectedLeaf else Ok node
    end.

Definition load_checked_value (source : StateSource) (domain : CommitmentDomainId) (committed : Hash256)
  : result StateError.t (list byte) :=
  let? found := get_value source committed in
  let? value := ok_or found (StateError.MissingValue committed) in
  let? h := value_hash domain value in
  if negb (bool_decide (h = committed)) then Err (StateError.ValueHashMismatch committed) else Ok value.

(** ** Reading, from transition.rs *)

Record DomainSnapshot : Type := MkDomainSnapshot { snap_domain : CommitmentDomainId; snap_root : Hash256 }.

(** The loop of [read_value] over the last [k] levels: [None] is the early
    return on an empty subtree, otherwise the hash at the leaf level. *)
Fixpoint read_levels (source : StateSource) (domain : CommitmentDomainId) (empty : list Hash256)
    (path : Hash256) (k : nat) (current : Hash256) : result StateError.t (option Hash256) :=
  match k with
  | O => Ok (Some current)
  | S k' =>
      let depth := (SMT_DEPTH - k)%nat in
      if bool_decide (current = hash_at empty depth) then Ok None
      else
        let? node := load_checked_node source domain current depth in
        match node with
        | Branch _ lh rh =>
            let? goes_right := path_bit path depth in
            read_levels source domain empty path k' (if goes_right then rh else lh)
        | Leaf _ _ => Err StateError.UnexpectedLeaf
        end
  end.

(** The end of [read_value] and of [prove], once the leaf level is reached. *)
Definition read_leaf (source : StateSource) (domain : CommitmentDomainId) (empty : list Hash256)
    (path current : Hash256) : result StateError.t (option (list byte)) :=
  if bool_decide (current = hash_at empty SMT_DEPTH) then Ok None
  else
    let? node := load_checked_node source domain current SMT_DEPTH in
    match node with
    | Leaf actual_path committed =>
        if negb (bool_decide (actual_path = path)) then Err (StateError.LeafPathMismatch path actual_path)
        else let? value := load_checked_value source domain committed in Ok (Some value)
    | Branch _ _ _ => Err StateError.UnexpectedBranch
    end.

Definition read_value (source : StateSource) (snapshot : DomainSnapshot) (key : list byte)
  : result StateError.t (option (list byte)) :=
  let domain := snap_domain snapshot in
  let? path := path_key domain key in
  let empty := empty_hashes domain in
  let? reached := read_levels source domain empty path SMT_DEPTH (snap_root snapshot) in
  match reached with
  | None => Ok None
  | Some current => read_leaf source domain empty path current
  end.

End Hash.

#[global] Instance StateNode_eq_dec : EqDecision StateNode.
Proof. solve_decision. Defined.

(** ** Facts *)

Section Facts.
Context `{Blake3}.

Lemma empty_suffix_at domain j k :
  (j <= k)%nat -> hash_at (empty_suffix domain k) (k - j) = hash_at (empty_suffix domain j) 0.
Proof.
  induction k as [|k IH]; intros Hj; [by replace j with 0%nat by lia|].
  destruct (decide (j = S k)) as [->|]; [by rewrite Nat.sub_diag|].
  replace (S k - j)%nat with (S (k - j)) by lia. cbn [empty_suffix hash_at nth]. apply IH. lia.
Qed.

Lemma empty_at domain depth :
  (depth <= SMT_DEPTH)%nat ->
  hash_at (empty_hashes domain) depth = hash_at (empty_suffix domain (SMT_DEPTH - depth)) 0.
Proof.
  intros Hd. unfold empty_hashes. rewrite <- (empty_suffix_at domain (SMT_DEPTH - depth) SMT_DEPTH) by lia.
  f_equal. lia.
Qed.

Lemma empty_leaf domain : hash_at (empty_hashes domain) SMT_DEPTH = domain_hash EMPTY_DOMAIN (domain_prefix domain).
Proof. by rewrite empty_at. Qed.

Lemma empty_branch domain depth :
  (depth < SMT_DEPTH)%nat ->
  hash_at (empty_hashes domain) depth =
  branch_hash_unchecked domain depth (hash_at (empty_hashes domain) (depth + 1))
    (hash_at (empty_hashes domain) (depth + 1)).
Proof.
  intros Hd. rewrite !empty_at by lia. replace (SMT_DEPTH - depth)%nat with (S (SMT_DEPTH - (depth + 1))) by lia.
  cbn [empty_suffix hash_at nth]. do 2 f_equal. lia.
Qed.

(** The message hashed for a branch, and for a leaf. *)
Definition branch_message (domain : CommitmentDomainId) (depth : nat) (l r : Hash256) : list byte :=
  NODE_DOMAIN ++ domain_prefix domain ++ le_bytes 2 (Z.of_nat depth) ++ arr_bytes l ++ arr_bytes r.
Definition leaf_message (domain : CommitmentDomainId) (path value : Hash256) : list byte :=
  LEAF_DOMAIN ++ domain_prefix domain ++ arr_bytes path ++ arr_bytes value.
Definition empty_message (domain : CommitmentDomainId) : list byte := EMPTY_DOMAIN ++ domain_prefix domain.
Definition value_message (domain : CommitmentDomainId) (value : list byte) : list byte :=
  VALUE_DOMAIN ++ domain_prefix domain ++ value.

Lemma two_hashes_inj (a b c d : Hash256) :
  arr_bytes a ++ arr_bytes b = arr_bytes c ++ arr_bytes d -> a = c /\ b = d.
Proof.
  intros [E1 E2]%app_inj_1; [|by rewrite !arr_length]. split; by apply arr_eq.
Qed.

Lemma branch_message_inj domain depth l r l' r' :
  branch_message domain depth l r = branch_message domain depth l' r' -> l = l' /\ r = r'.
Proof. unfold branch_message. intros ?%app_inv_head%app_inv_head%app_inv_head. by apply two_hashes_inj. Qed.

Lemma branch_depth_inj domain d l r d' l' r' :
  (d < SMT_DEPTH)%nat -> (d' < SMT_DEPTH)%nat ->
  branch_message domain d l r = branch_message domain d' l' r' -> d = d' /\ l = l' /\ r = r'.
Proof.
  unfold branch_message, SMT_DEPTH. intros Hd Hd' ?%app_inv_head%app_inv_head.
  apply app_inj_1 in H0 as [E1 E2%two_hashes_inj]; [|by rewrite !length_le_bytes].
  split; [|done]. apply (f_equal le_num) in E1. rewrite !le_num_le_bytes in E1 by lia. lia.
Qed.

Lemma leaf_message_inj domain p v p' v' :
  leaf_message domain p v = leaf_message domain p' v' -> p = p' /\ v = v'.
Proof. unfold leaf_message. intros ?%app_inv_head%app_inv_head. by apply two_hashes_inj. Qed.

Lemma leaf_branch_message domain p v d l r : leaf_message domain p v <> branch_message domain d l r.
Proof. intros E. apply (f_equal (take 18)) in E. vm_compute in E. discriminate E. Qed.

Lemma value_message_inj domain v v' : value_message domain v = value_message domain v' -> v = v'.
Proof. unfold value_message. by intros ?%app_inv_head%app_inv_head. Qed.

Lemma value_hash_Ok domain v h : value_hash domain v = Ok h -> h = blake3 (value_message domain v).
Proof. unfold value_hash. case_match; [done|]. by intros [= <-]. Qed.

(** ** Checked loads *)

Definition default_children (domain : CommitmentDomainId) (depth : nat) (l r : Hash256) : Prop :=
  l = hash_at (empty_hashes domain) (depth + 1) /\ r = hash_at (empty_hashes domain) (depth + 1).

Lemma StateNode_hash_Branch domain depth l r h :
  StateNode_hash (Branch depth l r) domain = Ok h <->
  (depth < SMT_DEPTH)%nat /\ ~ default_children domain depth l r /\ h = blake3 (branch_message domain depth l r).
Proof.
  unfold StateNode_hash, default_children, branch_hash. fold SMT_DEPTH.
  destruct (Nat.leb_spec SMT_DEPTH depth) as [HD|HD]; [split; [done|]; intros [? _]; lia|]. cbv zeta.
  destruct (bool_decide_reflect (l = hash_at (empty_hashes domain) (depth + 1))) as [El|El];
    destruct (bool_decide_reflect (r = hash_at (empty_hashes domain) (depth + 1))) as [Er|Er];
    cbn [andb]; (split; [first [done|intros [= <-]; split_and!; (done || naive_solver)]|]);
    intros (_ & HN & ->); try done; exfalso; by apply HN.
Qed.

Lemma load_branch source domain h depth node :
  (depth < SMT_DEPTH)%nat ->
  load_checked_node source domain h depth = Ok node <->
  exists l r, node = Branch depth l r /\ get_node source h = Ok (Some node) /\
    ~ default_children domain depth l r /\ h = blake3 (branch_message domain depth l r).
Proof.
  intros Hd. unfold load_checked_node. destruct (Nat.ltb_spec depth SMT_DEPTH); [|lia]. split.
  - destruct (get_node source h) as [[n|]|] eqn:EG; cbn [ok_or]; [|done..].
    destruct (StateNode_hash n domain) as [h'|] eqn:EH; [|done].
    destruct (bool_decide_reflect (h' = h)) as [->|]; [cbn [negb]|done].
    destruct n as [|actual l r]; [done|]. apply StateNode_hash_Branch in EH as (_ & HN & EH).
    destruct (Nat.eqb_spec actual depth) as [->|]; [|done]. intros [= <-]. eauto 10.
  - intros (l & r & -> & -> & HN & EH). cbn [ok_or].
    rewrite (proj2 (StateNode_hash_Branch domain depth l r h)) by done.
    rewrite bool_decide_true by done. cbn [negb]. by rewrite Nat.eqb_refl.
Qed.

Lemma load_leaf source domain h node :
  load_checked_node source domain h SMT_DEPTH = Ok node <->
  exists p v, node = Leaf p v /\ get_node source h = Ok (Some node) /\ h = blake3 (leaf_message domain p v).
Proof.
  unfold load_checked_node. rewrite Nat.ltb_irrefl. split.
  - destruct (get_node source h) as [[n|]|] eqn:EG; cbn [ok_or]; [|done..].
    destruct (StateNode_hash n domain) as [h'|] eqn:EH; [|done].
    destruct (bool_decide_reflect (h' = h)) as [->|]; [cbn [negb]|done].
    destruct n as [p v|]; [|done]. injection EH as EH. intros [= <-]. eauto 10.
  - intros (p & v & -> & -> & EH). cbn [ok_or StateNode_hash].
    change (leaf_hash domain p v) with (blake3 (leaf_message domain p v)).
    rewrite bool_decide_true by done. done.
Qed.

Lemma load_value source domain h v :
  load_checked_value source domain h = Ok v <->
  get_value source h = Ok (Some v) /\ value_hash domain v = Ok h.
Proof.
  unfold load_checked_value. split.
  - destruct (get_value source h) as [[v'|]|] eqn:EG; cbn [ok_or]; [|done..].
    destruct (value_hash domain v') as [h'|] eqn:EH; [|done].
    destruct (bool_decide_reflect (h' = h)) as [->|]; [cbn [negb]|done]. by intros [= <-].
  - intros [-> EV]. cbn [ok_or]. rewrite EV. by rewrite bool_decide_true.
Qed.

Lemma path_bit_Ok path depth :
  (depth < SMT_DEPTH)%nat -> path_bit path depth = Ok (path_bit_unchecked path depth).
Proof. intros. unfold path_bit. destruct (Nat.leb_spec SMT_DEPTH depth); [lia|done]. Qed.

Lemma branch_hash_Ok domain depth l r :
  (depth < SMT_DEPTH)%nat -> branch_hash domain depth l r = Ok (blake3 (branch_message domain depth l r)).
Proof. intros. unfold branch_hash. destruct (Nat.leb_spec SMT_DEPTH depth); [lia|done]. Qed.

Lemma path_bits_inj (p q : Hash256) :
  (forall i, (i < SMT_DEPTH)%nat -> path_bit_unchecked p i = path_bit_unchecked q i) -> p = q.
Proof.
  intros HB. apply arr_eq, bits_ext; [by rewrite !arr_length|]. intros i Hi. rewrite arr_length in Hi. by apply HB.
Qed.

End Facts.

#[global] Opaque empty_hashes.
