(* ===== verification/SmtProof.v ===== *)
(** [oregon-contract-state/proof.rs]: compact sparse-Merkle proofs: their
    encoding, their construction from a store and their verification. *)
From S2P Require Import Prelude Encoding Layout Bits Commitment Smt.

Definition SMT_PROOF_VERSION : Z := 1.
Definition SMT_PROOF_BITMAP_BYTES : nat := 32.
Definition MAX_SMT_SIBLINGS : nat := 256.
Definition MAX_SMT_PROOF_BYTES : Z := 2 + 32 + 256 * 32.
Definition HEADER_BYTES : nat := 2 + SMT_PROOF_BITMAP_BYTES.

Record SparseMerkleProofV1 : Type := MkProof {
  sibling_bitmap : arr SMT_PROOF_BITMAP_BYTES;
  siblings : list Hash256;
}.

Definition bitmap_bit (bitmap : arr SMT_PROOF_BITMAP_BYTES) (depth : nat) : bool :=
  bit_of (arr_bytes bitmap) depth.

Definition set_bitmap_bit (bitmap : arr SMT_PROOF_BITMAP_BYTES) (depth : nat) : arr SMT_PROOF_BITMAP_BYTES :=
  let old := byte_to_Z (byte_at (depth / 8) (arr_bytes bitmap)) in
  let new := byte_of_Z (Z.lor old (Z.shiftr 0x80 (Z.of_nat (depth mod 8)))) in
  arr_resize SMT_PROOF_BITMAP_BYTES (<[(depth / 8)%nat := new]> (arr_bytes bitmap)).

(** [u8::count_ones] *)
Definition count_ones (b : byte) : nat := length (filter (fun i => Z.testbit (byte_to_Z b) i = true) (seqZ 0 8)).

Definition proof_encode (p : SparseMerkleProofV1) : list byte :=
  le_bytes 2 SMT_PROOF_VERSION ++ arr_bytes (sibling_bitmap p) ++ encode_all arr_bytes (siblings p).

Section Proof_.
Context `{Blake3}.

(** The loop of [decode] over the last [k] depths. *)
Fixpoint decode_siblings (empty : list Hash256) (bitmap : arr SMT_PROOF_BITMAP_BYTES) (bytes : list byte)
    (k offset : nat) : result StateError.t (list Hash256 * nat) :=
  match k with
  | O => Ok ([], offset)
  | S k' =>
      let depth := (SMT_DEPTH - k)%nat in
      if negb (bitmap_bit bitmap depth) then decode_siblings empty bitmap bytes k' offset
      else
        let sibling := arr_resize 32 (slice offset (offset + 32) bytes) in
        if bool_decide (sibling = hash_at empty (depth + 1)) then Err (StateError.RedundantDefaultSibling depth)
        else
          let? (rest, last_offset) := decode_siblings empty bitmap bytes k' (offset + 32) in
          Ok (sibling :: rest, last_offset)
  end.

Definition proof_decode (domain : CommitmentDomainId) (bytes : list byte)
  : result StateError.t SparseMerkleProofV1 :=
  if Z.of_nat (length bytes) >? MAX_SMT_PROOF_BYTES then Err (StateError.ProofTooLarge (length bytes))
  else if (length bytes <? HEADER_BYTES)%nat || negb ((length bytes - HEADER_BYTES) mod 32 =? 0)%nat
  then Err StateError.MalformedProof
  else
    let version := le_at 0 2 bytes in
    if negb (version =? SMT_PROOF_VERSION) then Err StateError.MalformedProof
    else
      let bitmap := arr_resize SMT_PROOF_BITMAP_BYTES (slice 2 HEADER_BYTES bytes) in
      let expected := foldr Nat.add 0%nat (map count_ones (arr_bytes bitmap)) in
      let encoded := ((length bytes - HEADER_BYTES) / 32)%nat in
      if negb (encoded =? expected)%nat || (MAX_SMT_SIBLINGS <? encoded)%nat then Err StateError.MalformedProof
      else
        let empty := empty_hashes domain in
        let? (sibs, offset) := decode_siblings empty bitmap bytes SMT_DEPTH HEADER_BYTES in
        if negb (offset =? length bytes)%nat then Err StateError.MalformedProof
        else Ok (MkProof bitmap sibs).

(** The loop of [prove]; the hash returned is [None] on the early return. *)
Fixpoint prove_levels (source : StateSource) (domain : CommitmentDomainId) (empty : list Hash256)
    (path : Hash256) (k : nat) (current : Hash256) (proof : SparseMerkleProofV1)
  : result StateError.t (option Hash256 * SparseMerkleProofV1) :=
  match k with
  | O => Ok (Some current, proof)
  | S k' =>
      let depth := (SMT_DEPTH - k)%nat in
      if bool_decide (current = hash_at empty depth) then Ok (None, proof)
      else
        let? node := load_checked_node source domain current depth in
        match node with
        | Branch _ lh rh =>
            let? goes_right := path_bit path depth in
            let next := if goes_right then rh else lh in
            let sibling := if goes_right then lh else rh in
            let proof' :=
              if negb (bool_decide (sibling = hash_at empty (depth + 1)))
              then MkProof (set_bitmap_bit (sibling_bitmap proof) depth) (siblings proof ++ [sibling])
              else proof in
            prove_levels source domain empty path k' next proof'
        | Leaf _ _ => Err StateError.UnexpectedLeaf
        end
  end.

Definition prove (source : StateSource) (snapshot : DomainSnapshot) (key : list byte)
  : result StateError.t (option (list byte) * SparseMerkleProofV1) :=
  let domain := snap_domain snapshot in
  let? path := path_key domain key in
  let empty := empty_hashes domain in
  let? (reached, proof) := prove_levels source domain empty path SMT_DEPTH (snap_root snapshot)
                             (MkProof (arr_fill SMT_PROOF_BITMAP_BYTES x00) []) in
  match reached with
  | None => Ok (None, proof)
  | Some current =>
      let? value := read_leaf source domain empty path current in
      Ok (value, proof)
  end.

(** The loop of [verify_proof] over the depths [n - 1] down to [0]. *)
Fixpoint verify_levels (domain : CommitmentDomainId) (empty : list Hash256) (path : Hash256)
    (proof : SparseMerkleProofV1) (n : nat) (current : Hash256) (sibling_index : nat)
  : result StateError.t (Hash256 * nat) :=
  match n with
  | O => Ok (current, sibling_index)
  | S depth =>
      let? (sibling, index) :=
        if bitmap_bit (sibling_bitmap proof) depth then
          match sibling_index with
          | O => Err StateError.MalformedProof
          | S i =>
              let sibling := hash_at (siblings proof) i in
              if bool_decide (sibling = hash_at empty (depth + 1))
              then Err (StateError.RedundantDefaultSibling depth)
              else Ok (sibling, i)
          end
        else Ok (hash_at empty (depth + 1), sibling_index) in
      let? goes_right := path_bit path depth in
      let? current' :=
        if goes_right then branch_hash domain depth sibling current
        else branch_hash domain depth current sibling in
      verify_levels domain empty path proof depth current' index
  end.

Definition verify_proof (domain : CommitmentDomainId) (key : list byte) (value : option (list byte))
    (proof : SparseMerkleProofV1) (expected_root : Hash256) : result StateError.t unit :=
  let? path := path_key domain key in
  let empty := empty_hashes domain in
  let? start :=
    match value with
    | Some value => let? committed := value_hash domain value in Ok (leaf_hash domain path committed)
    | None => Ok (hash_at empty SMT_DEPTH)
    end in
  let? (current, index) := verify_levels domain empty path proof SMT_DEPTH start (length (siblings proof)) in
  if negb (index =? 0)%nat then Err StateError.MalformedProof
  else if negb (bool_decide (current = expected_root)) then Err StateError.InvalidProof
  else Ok tt.

End Proof_.

(** ** Facts *)

Lemma bitmap_bit_set b d i :
  (d < SMT_DEPTH)%nat -> bitmap_bit (set_bitmap_bit b d) i = bool_decide (i = d) || bitmap_bit b i.
Proof.
  unfold SMT_DEPTH, bitmap_bit, set_bitmap_bit. intros Hd. rewrite arr_resize_bytes.
  - rewrite bit_of_set; [done|]. rewrite arr_length. unfold SMT_PROOF_BITMAP_BYTES. lia.
  - by rewrite length_insert, arr_length.
Qed.

Section Facts.
Context `{Blake3}.

(** One level of [verify_proof]. *)
Lemma verify_step domain path p depth current index sibling index' :
  (depth < SMT_DEPTH)%nat ->
  (if bitmap_bit (sibling_bitmap p) depth
   then index = S index' /\ hash_at (siblings p) index' = sibling /\
        sibling <> hash_at (empty_hashes domain) (depth + 1)
   else index = index' /\ sibling = hash_at (empty_hashes domain) (depth + 1)) ->
  verify_levels domain (empty_hashes domain) path p (S depth) current index =
  verify_levels domain (empty_hashes domain) path p depth
    (blake3 (if path_bit_unchecked path depth then branch_message domain depth sibling current
             else branch_message domain depth current sibling)) index'.
Proof.
  intros Hd HS. cbn [verify_levels]. rewrite path_bit_Ok by done.
  destruct (bitmap_bit _ _).
  - destruct HS as (-> & -> & HN). rewrite bool_decide_false by done.
    rewrite !branch_hash_Ok by done. by destruct (path_bit_unchecked path depth).
  - destruct HS as (-> & ->). rewrite !branch_hash_Ok by done. by destruct (path_bit_unchecked path depth).
Qed.

(** Below an absent subtree every level is a default branch. *)
Lemma verify_empty domain path p k index :
  (k <= SMT_DEPTH)%nat ->
  (forall i, (SMT_DEPTH - k <= i < SMT_DEPTH)%nat -> bitmap_bit (sibling_bitmap p) i = false) ->
  verify_levels domain (empty_hashes domain) path p SMT_DEPTH (hash_at (empty_hashes domain) SMT_DEPTH) index =
  verify_levels domain (empty_hashes domain) path p (SMT_DEPTH - k) (hash_at (empty_hashes domain) (SMT_DEPTH - k)) index.
Proof.
  induction k as [|k IH]; intros Hk HB; [by rewrite Nat.sub_0_r|].
  rewrite IH by (lia || (intros; apply HB; lia)).
  replace (SMT_DEPTH - k)%nat with (S (SMT_DEPTH - S k)) by lia.
  rewrite (verify_step _ _ _ _ _ _ (hash_at (empty_hashes domain) (SMT_DEPTH - S k + 1)) index); [|lia|].
  - f_equal. rewrite (empty_branch domain (SMT_DEPTH - S k)) by lia.
    replace (S (SMT_DEPTH - S k)) with (SMT_DEPTH - S k + 1)%nat by lia.
    by destruct (path_bit_unchecked path (SMT_DEPTH - S k)).
  - rewrite HB by lia. done.
Qed.

(** What the loop of [prove] has done when it stops: verification of the
    proof from the leaf level comes back to the node the loop started at. *)
Lemma prove_levels_verify source domain path k current p reached p' :
  (k <= SMT_DEPTH)%nat ->
  (forall i, (SMT_DEPTH - k <= i < SMT_DEPTH)%nat -> bitmap_bit (sibling_bitmap p) i = false) ->
  prove_levels source domain (empty_hashes domain) path k current p = Ok (reached, p') ->
  (forall i, (i < SMT_DEPTH - k)%nat -> bitmap_bit (sibling_bitmap p') i = bitmap_bit (sibling_bitmap p) i) /\
  siblings p `prefix_of` siblings p' /\
  verify_levels domain (empty_hashes domain) path p' SMT_DEPTH
    (default (hash_at (empty_hashes domain) SMT_DEPTH) reached) (length (siblings p')) =
  verify_levels domain (empty_hashes domain) path p' (SMT_DEPTH - k) current (length (siblings p)).
Proof.
  revert current p. induction k as [|k IH]; intros current p Hk HB.
  { intros [= <- <-]. by rewrite Nat.sub_0_r. }
  cbn [prove_levels]. set (depth := (SMT_DEPTH - S k)%nat). assert (depth < SMT_DEPTH)%nat as Hd by lia.
  destruct (bool_decide_reflect (current = hash_at (empty_hashes domain) depth)) as [->|HC].
  { intros [= <- <-]. split_and!; [done..|]. cbn [default]. by apply verify_empty. }
  destruct (load_checked_node _ _ _ _) as [n|] eqn:EL; [|done].
  apply load_branch in EL as (l & r & -> & _ & _ & EH); [|done]. rewrite path_bit_Ok by done.
  set (b := path_bit_unchecked path depth). set (sib := if b then l else r).
  set (next := if b then r else l). cbv zeta.
  assert (current = blake3 (if b then branch_message domain depth sib next else branch_message domain depth next sib)) as EC.
  { rewrite EH. unfold sib, next. by destruct b. }
  clearbody sib next. replace (SMT_DEPTH - k)%nat with (S depth) in IH by lia.
  destruct (bool_decide_reflect (sib = hash_at (empty_hashes domain) (depth + 1))) as [ES|ES]; cbn [negb]; intros HP.
  - apply IH in HP as (HB' & HX & ->); [|lia|intros; apply HB; lia].
    split_and!; [intros; apply HB'; lia|done|].
    rewrite (verify_step _ _ _ _ _ _ sib (length (siblings p))), EC; [done..|].
    rewrite HB' by lia. rewrite HB by lia. done.
  - apply IH in HP as (HB' & HX & ->); [|lia|].
    + cbn [siblings sibling_bitmap] in *. split_and!.
      * intros i Hi. rewrite HB', bitmap_bit_set, bool_decide_false by lia. done.
      * eapply prefix_app_l, HX.
      * rewrite length_app, Nat.add_1_r. rewrite (verify_step _ _ _ _ _ _ sib (length (siblings p))), EC; [done..|].
        rewrite HB', bitmap_bit_set, bool_decide_true by lia. cbn [orb]. split_and!; [done| |done].
        destruct HX as [tl ->]. unfold hash_at. rewrite <- app_assoc, app_nth2, Nat.sub_diag by lia. done.
    + cbn [sibling_bitmap]. intros i Hi. rewrite bitmap_bit_set, bool_decide_false by lia. apply HB. lia.
Qed.

Lemma prove_levels_read source domain path k current p reached p' :
  prove_levels source domain (empty_hashes domain) path k current p = Ok (reached, p') ->
  read_levels source domain (empty_hashes domain) path k current = Ok reached.
Proof.
  revert current p. induction k as [|k IH]; intros current p; cbn [prove_levels read_levels].
  { by intros [= <- <-]. }
  case_bool_decide; [by intros [= <- <-]|].
  destruct (load_checked_node _ _ _ _) as [[|d l r]|]; [done| |done].
  destruct (path_bit _ _) as [[]|]; [apply IH..|done].
Qed.

Lemma read_levels_prove source domain path k current p reached :
  read_levels source domain (empty_hashes domain) path k current = Ok reached ->
  exists p', prove_levels source domain (empty_hashes domain) path k current p = Ok (reached, p').
Proof.
  revert current p. induction k as [|k IH]; intros current p; cbn [prove_levels read_levels].
  { intros [= <-]. eauto. }
  case_bool_decide; [intros [= <-]; eauto|].
  destruct (load_checked_node _ _ _ _) as [[|d l r]|]; [done| |done].
  destruct (path_bit _ _) as [[]|]; [intros ?; by apply IH..|done].
Qed.

(** A leaf that reads as a value is the start of its verification. *)
Lemma read_leaf_start source domain path current v :
  read_leaf source domain (empty_hashes domain) path current = Ok v ->
  match v with
  | Some value => let? committed := value_hash domain value in Ok (leaf_hash domain path committed)
  | None => Ok (hash_at (empty_hashes domain) SMT_DEPTH)
  end = Ok current.
Proof.
  unfold read_leaf. case_bool_decide as E; [intros [= <-]; by rewrite E|].
  destruct (load_checked_node _ _ _ _) as [n|] eqn:EL; [|done].
  apply load_leaf in EL as (p & c & -> & _ & ->).
  destruct (bool_decide_reflect (p = path)) as [->|]; [cbn [negb]|done].
  destruct (load_checked_value _ _ _) as [value|] eqn:EV; [|done]. intros [= <-].
  apply load_value in EV as [_ ->]. done.
Qed.

(** ** Messages a verification hashes *)

Definition start_messages (domain : CommitmentDomainId) (path : Hash256) (value : option (list byte))
  : list (list byte) :=
  match value with
  | Some v => [value_message domain v; leaf_message domain path (blake3 (value_message domain v))]
  | None => [empty_message domain]
  end.

(** The branch messages of the depths below [n]. *)
Fixpoint level_messages (domain : CommitmentDomainId) (path : Hash256) (proof : SparseMerkleProofV1)
    (n : nat) (current : Hash256) (index : nat) : list (list byte) :=
  match n with
  | O => []
  | S depth =>
      let used := bitmap_bit (sibling_bitmap proof) depth in
      let index' := if used then pred index else index in
      let sibling := if used then hash_at (siblings proof) index'
                     else hash_at (empty_hashes domain) (depth + 1) in
      let m := if path_bit_unchecked path depth then branch_message domain depth sibling current
               else branch_message domain depth current sibling in
      m :: level_messages domain path proof depth (blake3 m) index'
  end.

Definition verify_messages (domain : CommitmentDomainId) (path : Hash256) (value : option (list byte))
    (proof : SparseMerkleProofV1) : list (list byte) :=
  let start := match value with
               | Some v => leaf_hash domain path (blake3 (value_message domain v))
               | None => blake3 (empty_message domain)
               end in
  start_messages domain path value ++ level_messages domain path proof SMT_DEPTH start (length (siblings proof)).

(** Inversion of one level of a verification that succeeds. *)
Lemma verify_step_inv domain path p depth current index r :
  (depth < SMT_DEPTH)%nat ->
  verify_levels domain (empty_hashes domain) path p (S depth) current index = Ok r ->
  let used := bitmap_bit (sibling_bitmap p) depth in
  let index' := if used then pred index else index in
  let sibling := if used then hash_at (siblings p) index' else hash_at (empty_hashes domain) (depth + 1) in
  (used = true -> index = S index') /\
  used = negb (bool_decide (sibling = hash_at (empty_hashes domain) (depth + 1))) /\
  verify_levels domain (empty_hashes domain) path p depth
    (blake3 (if path_bit_unchecked path depth then branch_message domain depth sibling current
             else branch_message domain depth current sibling)) index' = Ok r.
Proof.
  intros Hd. cbn [verify_levels]. rewrite path_bit_Ok by done.
  destruct (bitmap_bit _ _).
  - destruct index as [|i]; [done|]. cbn [pred]. case_bool_decide as EB; [done|]. rewrite !branch_hash_Ok by done.
    intros HV. split_and!; [done..|by destruct (path_bit_unchecked path depth)].
  - rewrite !branch_hash_Ok by done. intros HV. split_and!; [done| |by destruct (path_bit_unchecked path depth)].
    symmetry. apply negb_false_iff. by apply bool_decide_eq_true.
Qed.

(** Two verifications that end at one hash agree level by level. *)
Lemma verify_levels_bind domain path p1 p2 n c1 c2 i1 i2 root :
  (n <= SMT_DEPTH)%nat -> (i1 <= length (siblings p1))%nat -> (i2 <= length (siblings p2))%nat ->
  verify_levels domain (empty_hashes domain) path p1 n c1 i1 = Ok (root, 0%nat) ->
  verify_levels domain (empty_hashes domain) path p2 n c2 i2 = Ok (root, 0%nat) ->
  (c1 = c2 /\ take i1 (siblings p1) = take i2 (siblings p2) /\
   forall i, (i < n)%nat -> bitmap_bit (sibling_bitmap p1) i = bitmap_bit (sibling_bitmap p2) i) \/
  collision_in (level_messages domain path p1 n c1 i1) (level_messages domain path p2 n c2 i2).
Proof.
  revert c1 c2 i1 i2. induction n as [|n IH]; intros c1 c2 i1 i2 Hn HL1 HL2.
  { intros [= -> ->] [= -> ->]. left. split_and!; [done..|]. intros; lia. }
  intros V1 V2. apply verify_step_inv in V1 as (HS1 & HU1 & V1); [|lia].
  apply verify_step_inv in V2 as (HS2 & HU2 & V2); [|lia]. cbn [level_messages].
  set (u1 := bitmap_bit (sibling_bitmap p1) n) in *. set (u2 := bitmap_bit (sibling_bitmap p2) n) in *.
  set (j1 := if u1 then pred i1 else i1) in *. set (j2 := if u2 then pred i2 else i2) in *.
  set (s1 := if u1 then hash_at (siblings p1) j1 else hash_at (empty_hashes domain) (n + 1)) in *.
  set (s2 := if u2 then hash_at (siblings p2) j2 else hash_at (empty_hashes domain) (n + 1)) in *.
  set (m1 := if path_bit_unchecked path n then branch_message domain n s1 c1 else branch_message domain n c1 s1) in *.
  set (m2 := if path_bit_unchecked path n then branch_message domain n s2 c2 else branch_message domain n c2 s2) in *.
  assert (j1 <= i1 /\ j2 <= i2)%nat as [HJ1 HJ2] by (unfold j1, j2; destruct u1, u2; lia).
  destruct (IH _ _ j1 j2 ltac:(lia) ltac:(lia) ltac:(lia) V1 V2) as [(EM & ET & EB)|HC];
    [|right; eapply collision_in_mono; [exact HC|set_solver..]].
  destruct (decide (m1 = m2)) as [Em|NE]; [|right; exists m1, m2; set_solver]. left.
  assert (c1 = c2 /\ s1 = s2) as [-> ES].
  { unfold m1, m2 in Em. destruct (path_bit_unchecked path n); apply branch_message_inj in Em; naive_solver. }
  assert (u1 = u2) as EU by (rewrite HU1, HU2, ES; done). split_and!; [done| |].
  - clear m1 m2 V1 V2 EM Em HU1 HU2 EB. unfold s1, s2, j1, j2 in *. clear s1 s2 j1 j2. clearbody u1 u2. subst u2.
    destruct u1; [|done]. specialize (HS1 eq_refl). specialize (HS2 eq_refl).
    destruct i1 as [|i1]; [done|]. destruct i2 as [|i2]; [done|]. cbn [pred] in *.
    assert (forall (l : list Hash256) j, (j < length l)%nat -> take (S j) l = take j l ++ [hash_at l j]) as HT.
    { intros l j Hj. destruct (lookup_lt_is_Some_2 l j Hj) as [x Hx]. rewrite (take_S_r _ _ _ Hx).
      unfold hash_at. by rewrite (nth_lookup_Some _ _ _ _ Hx). }
    rewrite !HT by lia. congruence.
  - intros i Hi. destruct (decide (i = n)) as [->|]; [done|]. apply EB. lia.
Qed.

(** What a verification that succeeds has computed. *)
Lemma verify_proof_Ok domain key value p root :
  verify_proof domain key value p root = Ok tt <->
  exists path start, path_key domain key = Ok path /\
   match value with
    | Some value => let? committed := value_hash domain value in Ok (leaf_hash domain path committed)
    | None => Ok (hash_at (empty_hashes domain) SMT_DEPTH)
    end = Ok start /\
   verify_levels domain (empty_hashes domain) path p SMT_DEPTH start (length (siblings p)) = Ok (root, 0%nat).
Proof.
  unfold verify_proof. cbv zeta. split.
  - destruct (path_key domain key) as [path|]; [|discriminate].
    set (st := match value with Some _ => _ | None => _ end). destruct st as [start|] eqn:E1; [|discriminate].
    destruct (verify_levels _ _ _ _ _ _ _) as [[c i]|] eqn:E2; [|discriminate].
    destruct (Nat.eqb_spec i 0) as [->|]; cbn [negb]; [|discriminate].
    case_bool_decide as ER; cbn [negb]; [|discriminate]. intros _. subst c. by exists path, start.
  - intros (path & start & -> & -> & ->). cbn [Nat.eqb negb]. by rewrite bool_decide_true.
Qed.

Lemma start_bind domain path v1 v2 start :
  match v1 with
  | Some value => let? committed := value_hash domain value in Ok (leaf_hash domain path committed)
  | None => Ok (hash_at (empty_hashes domain) SMT_DEPTH)
  end = Ok start ->
  match v2 with
  | Some value => let? committed := value_hash domain value in Ok (leaf_hash domain path committed)
  | None => Ok (hash_at (empty_hashes domain) SMT_DEPTH)
  end = Ok start ->
  v1 = v2 \/ collision_in (start_messages domain path v1) (start_messages domain path v2).
Proof.
  assert (forall v (start : Hash256), (let? c := value_hash domain v in Ok (leaf_hash domain path c)) = Ok start ->
    start = blake3 (leaf_message domain path (blake3 (value_message domain v)))) as HV.
  { intros v st. destruct (value_hash domain v) eqn:E; [|done]. apply value_hash_Ok in E as ->. by intros [= <-]. }
  assert (forall v, leaf_message domain path v <> empty_message domain) as HN.
  { intros v E. apply (f_equal (take 18)) in E. vm_compute in E. discriminate E. }
  destruct v1 as [v1|], v2 as [v2|]; cbn [start_messages].
  - intros E1%HV E2%HV. rewrite E1 in E2.
    destruct (decide (v1 = v2)) as [->|NE]; [by left|right].
    destruct (decide (blake3 (value_message domain v1) = blake3 (value_message domain v2))) as [EV|NV].
    + exists (value_message domain v1), (value_message domain v2). split_and!; [set_solver..| |done].
      by intros ?%value_message_inj.
    + eexists _, _. split_and!; [apply list_elem_of_further, list_elem_of_here..| |exact E2].
      intros [_ ?]%leaf_message_inj. done.
  - intros E1%HV [= E2]. rewrite empty_leaf in E2. right. rewrite <- E2 in E1.
    eexists _, _. split_and!; [apply list_elem_of_further, list_elem_of_here|apply list_elem_of_here| |exact (eq_sym E1)].
    apply HN.
  - intros [= E2] E1%HV. rewrite empty_leaf in E2. right. rewrite <- E2 in E1.
    eexists _, _. split_and!; [apply list_elem_of_here|apply list_elem_of_further, list_elem_of_here| |exact E1].
    apply not_eq_sym, HN.
  - by left.
Qed.

End Facts.

(** ** Canonical proofs *)

(** Reading the siblings along the last [k] depths: one per set bit, none of
    them the default of its level. *)
Fixpoint siblings_ok `{Blake3} (domain : CommitmentDomainId) (bitmap : arr SMT_PROOF_BITMAP_BYTES)
    (k : nat) (l : list Hash256) : Prop :=
  match k with
  | O => l = []
  | S k' =>
      let depth := (SMT_DEPTH - k)%nat in
      if bitmap_bit bitmap depth then
        match l with
        | s :: l' => s <> hash_at (empty_hashes domain) (depth + 1) /\ siblings_ok domain bitmap k' l'
        | [] => False
        end
      else siblings_ok domain bitmap k' l
  end.

Definition proof_ok `{Blake3} (domain : CommitmentDomainId) (p : SparseMerkleProofV1) : Prop :=
  siblings_ok domain (sibling_bitmap p) SMT_DEPTH (siblings p).

(** The number of set bits among positions [a .. a + k - 1]. *)
Definition ones (l : list byte) (a k : nat) : nat := length (List.filter (bit_of l) (seq a k)).

Lemma ones_byte b l : ones (b :: l) 0 8 = count_ones b.
Proof.
  transitivity (ones [b] 0 8); [|by destruct b].
  unfold ones. cbn [seq List.filter]. by rewrite !(bit_of_head b l), !(bit_of_head b []) by lia.
Qed.

Lemma ones_shift b l a k : ones (b :: l) (8 + a) k = ones l a k.
Proof.
  unfold ones. revert a. induction k as [|k IH]; intros a; [done|]. cbn [seq List.filter].
  rewrite bit_of_tail. specialize (IH (S a)). replace (S (8 + a)) with (8 + S a)%nat by lia.
  by destruct (bit_of l a); cbn [length]; rewrite IH.
Qed.

Lemma ones_app l a j k : ones l a (j + k) = (ones l a j + ones l (a + j) k)%nat.
Proof. unfold ones. by rewrite seq_app, List.filter_app, length_app. Qed.

Lemma count_ones_total l : foldr Nat.add 0%nat (map count_ones l) = ones l 0 (8 * length l).
Proof.
  induction l as [|b l IH]; [done|]. cbn [map foldr length]. rewrite IH.
  replace (8 * S (length l))%nat with (8 + 8 * length l)%nat by lia.
  rewrite ones_app, ones_byte. f_equal. symmetry. apply (ones_shift b l 0).
Qed.

Lemma ones_le l a k : (ones l a k <= k)%nat.
Proof. unfold ones. rewrite <- (length_seq k a) at 2. apply List.filter_length_le. Qed.

Section Codec.
Context `{Blake3}.

Lemma siblings_ok_length domain bitmap k l :
  (k <= SMT_DEPTH)%nat ->
  siblings_ok domain bitmap k l -> length l = ones (arr_bytes bitmap) (SMT_DEPTH - k) k.
Proof.
  revert l. induction k as [|k IH]; intros l Hk; [by intros ->|]. cbn [siblings_ok]. unfold ones. cbn [seq List.filter].
  change (bit_of (arr_bytes bitmap) (SMT_DEPTH - S k)) with (bitmap_bit bitmap (SMT_DEPTH - S k)).
  replace (S (SMT_DEPTH - S k)) with (SMT_DEPTH - k)%nat by lia.
  destruct (bitmap_bit _ _); [|intros HS; by apply IH in HS; [|lia]].
  destruct l as [|s l]; [done|]. intros [_ HS]. apply IH in HS; [|lia]. cbn [length]. by rewrite HS.
Qed.

Lemma decode_siblings_inv domain bitmap bytes k offset l off :
  decode_siblings (empty_hashes domain) bitmap bytes k offset = Ok (l, off) ->
  siblings_ok domain bitmap k l /\ off = (offset + 32 * length l)%nat /\
  ((off <= length bytes)%nat -> take (off - offset) (drop offset bytes) = encode_all arr_bytes l).
Proof.
  revert offset l. induction k as [|k IH]; intros offset l; cbn [decode_siblings siblings_ok].
  { intros [= <- <-]. split_and!; [done|simpl; lia|]. intros _. by rewrite Nat.sub_diag. }
  destruct (bitmap_bit _ _); cbn [negb]; [|apply IH].
  case_bool_decide as EB; [done|]. destruct (decode_siblings _ _ _ _ _) as [[l' off']|] eqn:ER; [|done].
  intros [= <- <-]. apply IH in ER as (HS & HO & HT). split_and!; [done|done|simpl; lia|].
  intros HL. unfold encode_all in *. cbn [flat_map]. rewrite <- HT by done.
  rewrite arr_resize_bytes by (rewrite length_slice; lia). unfold slice.
  replace (off' - offset)%nat with (32 + (off' - (offset + 32)))%nat by lia.
  rewrite <- take_take_drop. rewrite drop_drop. f_equal. f_equal. lia.
Qed.

Lemma decode_siblings_ok domain bitmap k pre l :
  siblings_ok domain bitmap k l ->
  decode_siblings (empty_hashes domain) bitmap (pre ++ encode_all arr_bytes l) k (length pre) =
  Ok (l, (length pre + 32 * length l)%nat).
Proof.
  revert pre l. induction k as [|k IH]; intros pre l; cbn [decode_siblings siblings_ok].
  { intros ->. do 2 f_equal. simpl. lia. }
  destruct (bitmap_bit _ _); cbn [negb]; [|apply IH].
  destruct l as [|s l]; [done|]. intros [HN HS]. unfold encode_all. cbn [flat_map].
  assert (arr_resize 32 (slice (length pre) (length pre + 32) (pre ++ arr_bytes s ++ flat_map arr_bytes l)) = s) as ->.
  { rewrite slice_mid by (rewrite ?arr_length; done). apply arr_resize_id. }
  rewrite bool_decide_false by done. specialize (IH (pre ++ arr_bytes s) l HS).
  rewrite length_app, arr_length, <- app_assoc in IH. unfold encode_all in IH. rewrite IH. do 2 f_equal. simpl. lia.
Qed.

Lemma length_proof_encode p : length (proof_encode p) = (HEADER_BYTES + length (siblings p) * 32)%nat.
Proof.
  unfold proof_encode. rewrite !length_app, length_le_bytes, arr_length.
  rewrite (length_encode_all_const _ 32) by (intros; apply arr_length). unfold HEADER_BYTES. lia.
Qed.

Lemma proof_decode_encode domain p : proof_ok domain p -> proof_decode domain (proof_encode p) = Ok p.
Proof.
  unfold proof_ok. intros HO.
  pose proof (decode_siblings_ok domain (sibling_bitmap p) SMT_DEPTH
    (le_bytes 2 SMT_PROOF_VERSION ++ arr_bytes (sibling_bitmap p)) (siblings p) HO) as HD.
  rewrite length_app, length_le_bytes, arr_length, <- app_assoc in HD.
  fold (proof_encode p) in HD. apply siblings_ok_length in HO as HN; [|done]. clear HO.
  pose proof (ones_le (arr_bytes (sibling_bitmap p)) (SMT_DEPTH - SMT_DEPTH) SMT_DEPTH) as HM. rewrite <- HN in HM.
  unfold proof_decode. rewrite length_proof_encode. unfold SMT_DEPTH, HEADER_BYTES, SMT_PROOF_BITMAP_BYTES in *.
  destruct (Z.gtb_spec (Z.of_nat (2 + 32 + length (siblings p) * 32)) MAX_SMT_PROOF_BYTES) as [E1|_];
    [exfalso; unfold MAX_SMT_PROOF_BYTES in E1; lia|].
  destruct (Nat.ltb_spec (2 + 32 + length (siblings p) * 32) (2 + 32)); [lia|]. cbn [orb].
  replace (2 + 32 + length (siblings p) * 32 - (2 + 32))%nat with (length (siblings p) * 32)%nat by lia.
  rewrite Nat.Div0.mod_mul, Nat.div_mul by done. cbn [Nat.eqb negb]. cbv zeta.
  assert (le_at 0 2 (proof_encode p) = SMT_PROOF_VERSION) as ->.
  { unfold le_at, proof_encode. rewrite <- (length_le_bytes 2 SMT_PROOF_VERSION) at 1.
    rewrite slice_prefix. by apply le_num_le_bytes. }
  cbn [Z.eqb SMT_PROOF_VERSION negb Pos.eqb].
  assert (arr_resize 32 (slice 2 (2 + 32) (proof_encode p)) = sibling_bitmap p) as ->.
  { unfold proof_encode. rewrite slice_mid by (rewrite ?length_le_bytes, ?arr_length; done). apply arr_resize_id. }
  rewrite count_ones_total, arr_length. unfold SMT_PROOF_BITMAP_BYTES. change (8 * 32)%nat with 256%nat.
  change (256 - 256)%nat with 0%nat in HN. rewrite <- HN, Nat.eqb_refl. cbn [negb orb].
  destruct (Nat.ltb_spec MAX_SMT_SIBLINGS (length (siblings p))); [unfold MAX_SMT_SIBLINGS in *; lia|].
  rewrite HD.
  destruct (Nat.eqb_spec (2 + 32 + 32 * length (siblings p)) (2 + 32 + length (siblings p) * 32)); [|lia].
  by destruct p.
Qed.

Lemma proof_encode_decode domain bytes p :
  proof_decode domain bytes = Ok p -> bytes = proof_encode p /\ proof_ok domain p.
Proof.
  unfold proof_decode. destruct (_ >? _); [done|].
  destruct (Nat.ltb_spec (length bytes) HEADER_BYTES) as [|HL]; [done|]. cbn [orb].
  destruct (Nat.eqb_spec ((length bytes - HEADER_BYTES) mod 32) 0) as [_|]; [cbn [negb]|done]. cbv zeta.
  destruct (Z.eqb_spec (le_at 0 2 bytes) SMT_PROOF_VERSION) as [EV|]; [cbn [negb]|done].
  destruct (negb _ || _); [done|].
  destruct (decode_siblings _ _ _ _ _) as [[l off]|] eqn:ED; [|done].
  destruct (Nat.eqb_spec off (length bytes)) as [->|]; [cbn [negb]|done]. intros [= <-].
  apply decode_siblings_inv in ED as (HS & HO & HT). split; [|exact HS].
  unfold proof_encode. cbn [sibling_bitmap siblings]. rewrite <- HT, <- EV by done.
  rewrite arr_resize_bytes by (rewrite length_slice; unfold HEADER_BYTES in *; lia).
  change 2%nat with (2 - 0)%nat at 1. rewrite le_at_bytes by (unfold HEADER_BYTES in HL; lia).
  rewrite <- length_drop, take_ge by lia. unfold slice, HEADER_BYTES, SMT_PROOF_BITMAP_BYTES. rewrite drop_0.
  change (2 - 0)%nat with 2%nat. change (2 + 32 - 2)%nat with 32%nat. change (2 + 32)%nat with (2 + 32)%nat.
  rewrite <- drop_drop, take_drop, take_drop. done.
Qed.

End Codec.

(** ** Properties *)

Section Properties.
Context `{Blake3}.

(** Any accepted proof is canonical. *)
Lemma verify_levels_ok domain path p n current index root :
  (n <= SMT_DEPTH)%nat -> (index <= length (siblings p))%nat ->
  verify_levels domain (empty_hashes domain) path p n current index = Ok (root, 0%nat) ->
  siblings_ok domain (sibling_bitmap p) (SMT_DEPTH - n) (drop index (siblings p)) ->
  siblings_ok domain (sibling_bitmap p) SMT_DEPTH (siblings p).
Proof.
  revert current index. induction n as [|n IH]; intros current index Hn Hi HV HS.
  { injection HV as -> ->. by rewrite Nat.sub_0_r, drop_0 in HS. }
  apply verify_step_inv in HV as (HS1 & HU & HV); [|lia].
  eapply IH; [lia| |exact HV|]; [destruct (bitmap_bit _ _); lia|].
  replace (SMT_DEPTH - n)%nat with (S (SMT_DEPTH - S n)) by lia. cbn [siblings_ok].
  replace (SMT_DEPTH - S (SMT_DEPTH - S n))%nat with n by lia.
  destruct (bitmap_bit (sibling_bitmap p) n); [|done]. specialize (HS1 eq_refl).
  destruct index as [|i]; [done|]. cbn [pred] in *.
  destruct (lookup_lt_is_Some_2 (siblings p) i ltac:(lia)) as [s Hs].
  rewrite (drop_S _ _ _ Hs). 
  assert (hash_at (siblings p) i = s) as EH by (unfold hash_at; by apply nth_lookup_Some). rewrite EH in HU.
  split; [|done]. by case_bool_decide.
Qed.

Lemma verify_proof_canonical domain key value p root :
  verify_proof domain key value p root = Ok tt -> proof_ok domain p.
Proof.
  intros (path & start & _ & _ & HV)%verify_proof_Ok. unfold proof_ok.
  eapply verify_levels_ok; [done| |exact HV|]; [done|]. by rewrite drop_all, Nat.sub_diag.
Qed.

(** What a store can read it can prove: reading a key succeeds with [v]
    exactly when [prove] returns [v] with a proof, and that proof verifies
    [v] (a value, or the absence of one) against the root and survives
    encoding. *)
Theorem prove_complete source snapshot key v :
  read_value source snapshot key = Ok v <->
  exists p, prove source snapshot key = Ok (v, p) /\
    verify_proof (snap_domain snapshot) key v p (snap_root snapshot) = Ok tt /\
    proof_decode (snap_domain snapshot) (proof_encode p) = Ok p.
Proof.
  split.
  - intros HR. pose proof HR as HR'. unfold read_value in HR. cbv zeta in HR.
    destruct (path_key _ key) as [path|] eqn:EK; [|done].
    destruct (read_levels _ _ _ _ _ _) as [reached|] eqn:ER; [|done].
    destruct (read_levels_prove _ _ _ _ _ (MkProof (arr_fill SMT_PROOF_BITMAP_BYTES x00) []) _ ER) as [p HP].
    exists p. assert (prove source snapshot key = Ok (v, p)) as EP.
    { unfold prove. cbv zeta. rewrite EK, HP. destruct reached; [by rewrite HR|congruence]. }
    assert (verify_proof (snap_domain snapshot) key v p (snap_root snapshot) = Ok tt) as EV.
    { apply verify_proof_Ok. exists path, (default (hash_at (empty_hashes (snap_domain snapshot)) SMT_DEPTH) reached).
      split_and!; [done| |].
      - destruct reached as [c|]; [by apply read_leaf_start in HR|by injection HR as <-].
      - apply prove_levels_verify in HP as (_ & _ & ->); [by rewrite Nat.sub_diag|done|].
        intros. apply bit_of_zeros. }
    split_and!; [done..|]. by eapply proof_decode_encode, verify_proof_canonical.
  - intros (p & HP & _). unfold prove in HP. unfold read_value. cbv zeta in *.
    destruct (path_key _ key) as [path|] eqn:EK; [|done].
    destruct (prove_levels _ _ _ _ _ _ _) as [[reached p']|] eqn:ER; [|done].
    rewrite (prove_levels_read _ _ _ _ _ _ _ _ ER). destruct reached as [c|]; [|congruence].
    destruct (read_leaf _ _ _ _ _); congruence.
Qed.

(** C20: a root fixes the value of every key and its proof: two accepted
    proofs for one key under one root show the same value (or both its
    absence) and are the same proof, unless the messages hashed by the two
    verifications contain a blake3 collision. *)
Theorem smt_proof_binds domain key path v1 p1 v2 p2 root :
  path_key domain key = Ok path ->
  verify_proof domain key v1 p1 root = Ok tt -> verify_proof domain key v2 p2 root = Ok tt ->
  (v1 = v2 /\ p1 = p2) \/
  collision_in (verify_messages domain path v1 p1) (verify_messages domain path v2 p2).
Proof.
  intros EK (path1 & s1 & EK1 & ES1 & V1)%verify_proof_Ok (path2 & s2 & EK2 & ES2 & V2)%verify_proof_Ok.
  rewrite EK in EK1, EK2. injection EK1 as <-. injection EK2 as <-.
  assert (forall v s, match v with
    | Some value => let? committed := value_hash domain value in Ok (leaf_hash domain path committed)
    | None => Ok (hash_at (empty_hashes domain) SMT_DEPTH)
    end = Ok s -> s = match v with
               | Some v => leaf_hash domain path (blake3 (value_message domain v))
               | None => blake3 (empty_message domain)
               end) as HS.
  { intros [v|] s.
    - destruct (value_hash domain v) as [c|] eqn:E; [|discriminate]. apply value_hash_Ok in E as ->. by intros [= <-].
    - rewrite empty_leaf. by intros [= <-]. }
  unfold verify_messages. rewrite <- (HS _ _ ES1), <- (HS _ _ ES2).
  destruct (verify_levels_bind _ _ _ _ _ _ _ _ _ _ (le_n _) (le_n _) (le_n _) V1 V2) as [(E12 & ET & EB)|HC].
  2: { right. eapply collision_in_mono; [exact HC|apply list_subseteq_app_r..]; reflexivity. }
  clear V1 V2. subst s2. destruct (start_bind domain path v1 v2 s1 ES1 ES2) as [->|HC].
  2: { right. eapply collision_in_mono; [exact HC|apply list_subseteq_app_l..]; reflexivity. }
  left. split; [reflexivity|].
  rewrite !take_ge in ET by lia. destruct p1 as [b1 l1], p2 as [b2 l2]. cbn [siblings sibling_bitmap] in *. subst l2. f_equal.
  apply arr_eq, bits_ext; [by rewrite !arr_length|]. intros i Hi. rewrite arr_length in Hi. by apply EB.
Qed.

(** The root of the tree that holds one leaf. *)
Fixpoint lone_root (domain : CommitmentDomainId) (path : Hash256) (n : nat) (current : Hash256) : Hash256 :=
  match n with
  | O => current
  | S depth =>
      let e := hash_at (empty_hashes domain) (depth + 1) in
      lone_root domain path depth
        (blake3 (if path_bit_unchecked path depth then branch_message domain depth e current
                 else branch_message domain depth current e))
  end.

Definition lone_proof : SparseMerkleProofV1 := MkProof (arr_fill SMT_PROOF_BITMAP_BYTES x00) [].

Lemma verify_lone domain path n current :
  (n <= SMT_DEPTH)%nat ->
  verify_levels domain (empty_hashes domain) path lone_proof n current 0 = Ok (lone_root domain path n current, 0%nat).
Proof.
  revert current. induction n as [|n IH]; intros current Hn; [done|].
  rewrite (verify_step _ _ _ _ _ _ (hash_at (empty_hashes domain) (n + 1)) 0); [|lia|].
  - rewrite IH by lia. done.
  - by assert (bitmap_bit (sibling_bitmap lone_proof) n = false) as -> by exact (bit_of_zeros 32 n).
Qed.

Lemma verify_lone_value domain key path v h :
  path_key domain key = Ok path -> value_hash domain v = Ok h ->
  verify_proof domain key (Some v) lone_proof (lone_root domain path SMT_DEPTH (leaf_hash domain path h)) = Ok tt.
Proof.
  intros EK EV. apply verify_proof_Ok. exists path, (leaf_hash domain path h).
  split_and!; [done|by rewrite EV|]. by apply verify_lone.
Qed.

End Properties.

Definition demo_path : Hash256 := domain_hash (H := demo_blake3) KEY_DOMAIN (domain_prefix DomWasm ++ [x01]).

Definition demo_smt_root : Hash256 :=
  lone_root (H := demo_blake3) DomWasm demo_path SMT_DEPTH
    (leaf_hash (H := demo_blake3) DomWasm demo_path
       (domain_hash (H := demo_blake3) VALUE_DOMAIN (domain_prefix DomWasm ++ [x07]))).

Lemma demo_verified : verify_proof (H := demo_blake3) DomWasm [x01] (Some [x07]) lone_proof demo_smt_root = Ok tt.
Proof. by apply (verify_lone_value (H := demo_blake3)). Qed.

Lemma smt_proof_binds_witness :
  (Some [x07] = Some [x07] /\ lone_proof = lone_proof) \/
  collision_in (H := demo_blake3) (verify_messages (H := demo_blake3) DomWasm demo_path (Some [x07]) lone_proof)
    (verify_messages (H := demo_blake3) DomWasm demo_path (Some [x07]) lone_proof).
Proof.
  apply (smt_proof_binds (H := demo_blake3) DomWasm [x01] demo_path (Some [x07]) lone_proof (Some [x07]) lone_proof
           demo_smt_root eq_refl demo_verified demo_verified).
Defined.
