(* ===== verification/SmtWrite.v ===== *)
(** [oregon-contract-state/transition.rs]: write sets and their application
    to a state tree. *)
From S2P Require Import Prelude Encoding Layout Bits Commitment Smt.

Definition MAX_STATE_WRITE_SET_ENTRIES : Z := 65536.

Record StateWrite : Type := MkStateWrite { sw_key : list byte; sw_value : option (list byte) }.

Definition StateWrite_put (key value : list byte) : StateWrite := MkStateWrite key (Some value).
Definition StateWrite_delete (key : list byte) : StateWrite := MkStateWrite key None.

Inductive PreparedValue : Type :=
| Put (bytes : list byte) (hash : Hash256)
| Delete.

Record PreparedWrite : Type := MkPreparedWrite { pw_path : Hash256; pw_value : PreparedValue }.

Record StateWriteSet : Type := MkStateWriteSet { ws_domain : CommitmentDomainId; ws_writes : list PreparedWrite }.

(** The derived [Ord] of [Hash256], through the key function of the sort. *)
Definition path_le (a b : PreparedWrite) : Prop :=
  bytes_cmp (arr_bytes (pw_path a)) (arr_bytes (pw_path b)) <> Gt.

#[global] Instance path_le_dec : RelDecision path_le.
Proof. intros a b. unfold path_le. apply _. Defined.

(** The check over [prepared.windows(2)]. *)
Fixpoint check_duplicate_paths (l : list PreparedWrite) : result StateError.t unit :=
  match l with
  | a :: ((b :: _) as rest) =>
      if bool_decide (pw_path a = pw_path b) then Err (StateError.DuplicatePath (pw_path a))
      else check_duplicate_paths rest
  | _ => Ok tt
  end.

(** [partition_point]: the length of the prefix on which the predicate
    holds, for a slice partitioned by it. *)
Fixpoint partition_point {A} (f : A -> bool) (l : list A) : nat :=
  match l with
  | [] => O
  | x :: l => if f x then S (partition_point f l) else O
  end.

Record StateTransition : Type := MkStateTransition {
  tr_domain : CommitmentDomainId;
  old_root : Hash256;
  new_root : Hash256;
  tr_nodes : gmap Hash256 StateNode;
  tr_values : gmap Hash256 (list byte);
}.

(** The mutable part of [TransitionBuilder]. *)
Record Builder : Type := MkBuilder { b_nodes : gmap Hash256 StateNode; b_values : gmap Hash256 (list byte) }.

Definition insert_node (h : Hash256) (n : StateNode) : eff Builder StateError.t unit :=
  fun b => (Ok tt, MkBuilder (<[h := n]> (b_nodes b)) (b_values b)).

(** [values.entry(hash).or_insert_with(..)] *)
Definition insert_value (h : Hash256) (v : list byte) : eff Builder StateError.t unit :=
  fun b => (Ok tt, MkBuilder (b_nodes b)
                     (match b_values b !! h with Some _ => b_values b | None => <[h := v]> (b_values b) end)).

Section Write.
Context `{Blake3}.

Definition prepare_write (domain : CommitmentDomainId) (write : StateWrite)
  : result StateError.t PreparedWrite :=
  let? path := path_key domain (sw_key write) in
  let? value :=
    match sw_value write with
    | Some bytes => let? hash := value_hash domain bytes in Ok (Put bytes hash)
    | None => Ok Delete
    end in
  Ok (MkPreparedWrite path value).

Definition StateWriteSet_new (domain : CommitmentDomainId) (writes : list StateWrite)
  : result StateError.t StateWriteSet :=
  if Z.of_nat (length writes) >? MAX_STATE_WRITE_SET_ENTRIES
  then Err (StateError.WriteSetTooLarge (length writes))
  else
    let? prepared := try_map (prepare_write domain) writes in
    let sorted := merge_sort path_le prepared in
    let? _ := check_duplicate_paths sorted in
    Ok (MkStateWriteSet domain sorted).

Section Builder_.
Context (source : StateSource) (domain : CommitmentDomainId) (empty : list Hash256).

Definition record_value (hash : Hash256) (value : list byte) : eff Builder StateError.t unit :=
  let! existing := eff_lift (get_value source hash) in
  match existing with
  | Some existing =>
      let! h := eff_lift (value_hash domain existing) in
      if negb (bool_decide (h = hash)) || negb (bool_decide (existing = value))
      then eff_fail (StateError.ValueHashMismatch hash)
      else eff_ret tt
  | None => insert_value hash value
  end.

(** The value hash of the leaf at [old_hash], if there is one; its path and
    its stored value are checked. *)
Definition old_leaf (old_hash : Hash256) (path : Hash256) : result StateError.t (option Hash256) :=
  if bool_decide (old_hash = hash_at empty SMT_DEPTH) then Ok None
  else
    let? node := load_checked_node source domain old_hash SMT_DEPTH in
    match node with
    | Leaf actual_path value =>
        if negb (bool_decide (actual_path = path)) then Err (StateError.LeafPathMismatch path actual_path)
        else let? _ := load_checked_value source domain value in Ok (Some value)
    | Branch _ _ _ => Err StateError.UnexpectedBranch
    end.

Definition apply_leaf (old_hash : Hash256) (write : PreparedWrite) : eff Builder StateError.t Hash256 :=
  let! old_value_hash := eff_lift (old_leaf old_hash (pw_path write)) in
  match pw_value write with
  | Delete => eff_ret (match old_value_hash with None => old_hash | Some _ => hash_at empty SMT_DEPTH end)
  | Put bytes hash =>
      if bool_decide (old_value_hash = Some hash) then eff_ret old_hash
      else
        let! _ := record_value hash bytes in
        let new_hash := leaf_hash domain (pw_path write) hash in
        let! _ := insert_node new_hash (Leaf (pw_path write) hash) in
        eff_ret new_hash
  end.

Definition old_children (old_hash : Hash256) (depth : nat) : result StateError.t (Hash256 * Hash256) :=
  if bool_decide (old_hash = hash_at empty depth)
  then Ok (hash_at empty (depth + 1), hash_at empty (depth + 1))
  else
    let? node := load_checked_node source domain old_hash depth in
    match node with
    | Branch _ lh rh => Ok (lh, rh)
    | Leaf _ _ => Err StateError.UnexpectedLeaf
    end.

(** [apply_subtree] at depth [SMT_DEPTH - k]. *)
Fixpoint apply_subtree (k : nat) (old_hash : Hash256) (writes : list PreparedWrite)
  : eff Builder StateError.t Hash256 :=
  match writes with
  | [] => eff_ret old_hash
  | write0 :: _ =>
      match k with
      | O => apply_leaf old_hash write0
      | S k' =>
          let depth := (SMT_DEPTH - k)%nat in
          let! (old_left, old_right) := eff_lift (old_children old_hash depth) in
          let split := partition_point (fun w => negb (path_bit_unchecked (pw_path w) depth)) writes in
          let! new_left := if (split =? 0)%nat then eff_ret old_left
                           else apply_subtree k' old_left (take split writes) in
          let! new_right := if (split =? length writes)%nat then eff_ret old_right
                            else apply_subtree k' old_right (drop split writes) in
          if bool_decide (new_left = old_left) && bool_decide (new_right = old_right) then eff_ret old_hash
          else if bool_decide (new_left = hash_at empty (depth + 1))
                  && bool_decide (new_right = hash_at empty (depth + 1))
          then eff_ret (hash_at empty depth)
          else
            let node := Branch depth new_left new_right in
            let! hash := eff_lift (StateNode_hash node domain) in
            let! _ := insert_node hash node in
            eff_ret hash
      end
  end.

End Builder_.

Definition apply_write_set (source : StateSource) (snapshot : DomainSnapshot) (write_set : StateWriteSet)
  : result StateError.t StateTransition :=
  let domain := snap_domain snapshot in
  let root := snap_root snapshot in
  if negb (bool_decide (domain = ws_domain write_set)) then Err StateError.DomainMismatch
  else if (length (ws_writes write_set) =? 0)%nat then Ok (MkStateTransition domain root root ∅ ∅)
  else
    let empty := empty_hashes domain in
    match apply_subtree source domain empty SMT_DEPTH root (ws_writes write_set) (MkBuilder ∅ ∅) with
    | (Ok new, b) => Ok (MkStateTransition domain root new (b_nodes b) (b_values b))
    | (Err e, _) => Err e
    end.

End Write.

(** ** Write sets *)

#[global] Instance path_le_total : Total path_le.
Proof. intros a b. apply bytes_le_total. Qed.

#[global] Instance path_le_trans : Transitive path_le.
Proof. intros a b c. apply bytes_le_trans. Qed.

(** Paths in strictly increasing order: sorted, and no two equal. *)
Definition paths_increasing (l : list PreparedWrite) : Prop :=
  StronglySorted (fun a b => path_le a b /\ pw_path a <> pw_path b) l.

Lemma check_duplicate_increasing l :
  StronglySorted path_le l -> check_duplicate_paths l = Ok tt -> paths_increasing l.
Proof.
  unfold paths_increasing. induction l as [|a l IH]; [constructor|]. intros [HF HS]%StronglySorted_cons HC.
  destruct l as [|b l]; [repeat constructor|].
  change (check_duplicate_paths (a :: b :: l)) with
    (if bool_decide (pw_path a = pw_path b) then Err (StateError.DuplicatePath (pw_path a))
     else check_duplicate_paths (b :: l)) in HC.
  case_bool_decide as EB; [done|]. specialize (IH HS HC). apply StronglySorted_cons. split; [|done].
  apply Forall_forall. intros c Hc. rewrite Forall_forall in HF. split; [by apply HF|].
  apply elem_of_cons in Hc as [->|Hc]; [done|]. intros E.
  apply StronglySorted_cons in HS as [HB _]. rewrite Forall_forall in HB. specialize (HB _ Hc).
  specialize (HF b (list_elem_of_here _ _)). unfold path_le in *. rewrite <- E in HB.
  destruct (bytes_cmp (arr_bytes (pw_path a)) (arr_bytes (pw_path b))) eqn:EC; [|clear HF|done].
  - apply bytes_cmp_eq, arr_eq in EC. done.
  - rewrite bytes_cmp_antisym, EC in HB. done.
Qed.

Section Prepared.
Context `{Blake3}.

(** Values carry their hash. *)
Definition prepared_ok (domain : CommitmentDomainId) (w : PreparedWrite) : Prop :=
  match pw_value w with Put bytes hash => value_hash domain bytes = Ok hash | Delete => True end.

Lemma prepare_write_Ok domain w pw :
  prepare_write domain w = Ok pw ->
  path_key domain (sw_key w) = Ok (pw_path pw) /\ prepared_ok domain pw /\
  match pw_value pw with Put bytes _ => sw_value w = Some bytes | Delete => sw_value w = None end.
Proof.
  unfold prepare_write, prepared_ok. destruct (path_key _ _) as [path|]; [|done].
  destruct (sw_value w) as [bytes|]; [|by intros [= <-]].
  destruct (value_hash domain bytes) as [h|] eqn:EH; [|done]. by intros [= <-].
Qed.

Lemma StateWriteSet_new_Ok domain writes ws :
  StateWriteSet_new domain writes = Ok ws ->
  ws_domain ws = domain /\ paths_increasing (ws_writes ws) /\
  exists prepared, Forall2 (fun w pw => prepare_write domain w = Ok pw) writes prepared /\
    ws_writes ws ≡ₚ prepared.
Proof.
  unfold StateWriteSet_new. destruct (_ >? _); [done|].
  destruct (try_map _ _) as [prepared|] eqn:EM; [|done].
  destruct (check_duplicate_paths _) as [[]|] eqn:EC; [|done]. intros [= <-]. cbn [ws_domain ws_writes].
  split_and!; [done| |].
  - apply check_duplicate_increasing; [|done]. apply StronglySorted_merge_sort; apply _.
  - exists prepared. split; [by apply try_map_Forall2|]. apply merge_sort_Permutation.
Qed.

End Prepared.

(** ** The log of a transition: what the builder is asked to insert *)

Inductive Insert : Type :=
| InsNode (h : Hash256) (n : StateNode)
| InsValue (h : Hash256) (v : list byte).

Definition replay1 (b : Builder) (i : Insert) : Builder :=
  match i with
  | InsNode h n => snd (insert_node h n b)
  | InsValue h v => snd (insert_value h v b)
  end.

Definition replay (log : list Insert) (b : Builder) : Builder := foldl replay1 b log.

Section Log.
Context `{Blake3} (source : StateSource) (domain : CommitmentDomainId).
Let empty := empty_hashes domain.

Definition record_log (hash : Hash256) (value : list byte) : result StateError.t (list Insert) :=
  let? existing := get_value source hash in
  match existing with
  | Some existing =>
      let? h := value_hash domain existing in
      if negb (bool_decide (h = hash)) || negb (bool_decide (existing = value))
      then Err (StateError.ValueHashMismatch hash) else Ok []
  | None => Ok [InsValue hash value]
  end.

Definition leaf_log (old_hash : Hash256) (write : PreparedWrite) : result StateError.t (Hash256 * list Insert) :=
  let? old_value_hash := old_leaf source domain empty old_hash (pw_path write) in
  match pw_value write with
  | Delete => Ok (match old_value_hash with None => old_hash | Some _ => hash_at empty SMT_DEPTH end, [])
  | Put bytes hash =>
      if bool_decide (old_value_hash = Some hash) then Ok (old_hash, [])
      else
        let? log := record_log hash bytes in
        let new_hash := leaf_hash domain (pw_path write) hash in
        Ok (new_hash, log ++ [InsNode new_hash (Leaf (pw_path write) hash)])
  end.

(** Putting the two subtrees of a node together. *)
Definition join_log (old_hash : Hash256) (depth : nat) (old_left old_right new_left new_right : Hash256)
  : result StateError.t (Hash256 * list Insert) :=
  if bool_decide (new_left = old_left) && bool_decide (new_right = old_right) then Ok (old_hash, [])
  else if bool_decide (new_left = hash_at empty (depth + 1)) && bool_decide (new_right = hash_at empty (depth + 1))
  then Ok (hash_at empty depth, [])
  else
    let? hash := StateNode_hash (Branch depth new_left new_right) domain in
    Ok (hash, [InsNode hash (Branch depth new_left new_right)]).

Fixpoint subtree_log (k : nat) (old_hash : Hash256) (writes : list PreparedWrite)
  : result StateError.t (Hash256 * list Insert) :=
  match writes with
  | [] => Ok (old_hash, [])
  | write0 :: _ =>
      match k with
      | O => leaf_log old_hash write0
      | S k' =>
          let depth := (SMT_DEPTH - k)%nat in
          let? (old_left, old_right) := old_children source domain empty old_hash depth in
          let split := partition_point (fun w => negb (path_bit_unchecked (pw_path w) depth)) writes in
          let? (new_left, log_left) := subtree_log k' old_left (take split writes) in
          let? (new_right, log_right) := subtree_log k' old_right (drop split writes) in
          let? (hash, log) := join_log old_hash depth old_left old_right new_left new_right in
          Ok (hash, log_left ++ log_right ++ log)
      end
  end.

(** A run of the builder has the outcome of the log and replays it. *)
Definition runs {A} (m : eff Builder StateError.t A) (r : result StateError.t (A * list Insert)) : Prop :=
  forall b, match r with
            | Ok (a, log) => m b = (Ok a, replay log b)
            | Err e => fst (m b) = Err e
            end.

Lemma runs_ret {A} (a : A) : runs (eff_ret a) (Ok (a, [])).
Proof. intros b. done. Qed.

Lemma runs_lift {A} (r : result StateError.t A) : runs (eff_lift r) (let? a := r in Ok (a, [])).
Proof. intros b. by destruct r. Qed.

Lemma runs_bind {A B} m (k : A -> eff Builder StateError.t B) r rk :
  runs m r -> (forall a, runs (k a) (rk a)) ->
  runs (eff_bind m k) (let? (a, l) := r in let? (c, l') := rk a in Ok (c, l ++ l')).
Proof.
  intros HM HK b. specialize (HM b). unfold eff_bind. destruct r as [[a l]|e].
  - rewrite HM. specialize (HK a (replay l b)). destruct (rk a) as [[c l']|e]; [|done].
    rewrite HK. unfold replay. by rewrite foldl_app.
  - by destruct (m b) as [[]]; simplify_eq/=.
Qed.

Lemma runs_ext {A} (m : eff Builder StateError.t A) r r' : r = r' -> runs m r -> runs m r'.
Proof. by intros ->. Qed.

Lemma record_value_runs hash value :
  runs (record_value source domain hash value) (let? log := record_log hash value in Ok (tt, log)).
Proof.
  intros b. unfold record_value, record_log, eff_bind, eff_lift.
  destruct (get_value source hash) as [[existing|]|e]; [|done..].
  destruct (value_hash domain existing) as [h|e]; [|done]. by destruct (_ || _).
Qed.

Lemma apply_leaf_runs old_hash write : runs (apply_leaf source domain empty old_hash write) (leaf_log old_hash write).
Proof.
  intros b. unfold apply_leaf, leaf_log, eff_bind, eff_lift.
  destruct (old_leaf _ _ _ _ _) as [o|e]; [|done]. destruct (pw_value write) as [bytes hash|]; [|by destruct o].
  case_bool_decide; [done|]. pose proof (record_value_runs hash bytes b) as HR.
  destruct (record_log hash bytes) as [log|e].
  - rewrite HR. unfold replay. rewrite foldl_app. done.
  - destruct (record_value source domain hash bytes b) as [[u|e'] b']; cbn in HR |- *; congruence.
Qed.

Lemma guard_runs (c : bool) k h l :
  (forall h l, runs (apply_subtree source domain empty k h l) (subtree_log k h l)) ->
  (c = true -> l = []) ->
  runs (if c then eff_ret h else apply_subtree source domain empty k h l) (subtree_log k h l).
Proof.
  intros HA HC. destruct c; [|apply HA]. rewrite (HC eq_refl). intros b. by destruct k.
Qed.

Lemma join_runs old_hash depth ol or nl nr :
  runs (if bool_decide (nl = ol) && bool_decide (nr = or) then eff_ret old_hash
        else if bool_decide (nl = hash_at empty (depth + 1)) && bool_decide (nr = hash_at empty (depth + 1))
        then eff_ret (hash_at empty depth)
        else
          let! hash := eff_lift (StateNode_hash (Branch depth nl nr) domain) in
          let! _ := insert_node hash (Branch depth nl nr) in
          eff_ret hash) (join_log old_hash depth ol or nl nr).
Proof.
  intros b. unfold join_log. destruct (_ && _); [done|]. destruct (_ && _); [done|].
  unfold eff_bind, eff_lift. by destruct (StateNode_hash _ _).
Qed.

(** The builder does what the log says. *)
Lemma apply_subtree_runs k old_hash writes :
  runs (apply_subtree source domain empty k old_hash writes) (subtree_log k old_hash writes).
Proof.
  revert old_hash writes. induction k as [|k IH]; intros old_hash writes; cbn [apply_subtree subtree_log];
    destruct writes as [|w writes]; [apply runs_ret|apply apply_leaf_runs|apply runs_ret|].
  set (ws := w :: writes). set (split := partition_point _ ws).
  set (depth := (SMT_DEPTH - S k)%nat). cbv zeta.
  set (right_ := fun (p : Hash256 * Hash256) (nl : Hash256) =>
    let? (nr, l) := subtree_log k p.2 (drop split ws) in
    let? (h, l') := join_log old_hash depth p.1 p.2 nl nr in Ok (h, l ++ l')).
  set (left_ := fun p : Hash256 * Hash256 =>
    let? (nl, l) := subtree_log k p.1 (take split ws) in
    let? (h, l') := right_ p nl in Ok (h, l ++ l')).
  eapply runs_ext; [|eapply (runs_bind _ _ _ left_); [apply runs_lift|]].
  - destruct (old_children _ _ _ _ _) as [[ol or]|]; [|done]. unfold left_, right_. cbn [fst snd].
    destruct (subtree_log k ol _) as [[nl ll]|]; [|done]. destruct (subtree_log k or _) as [[nr lr]|]; [|done].
    by destruct (join_log _ _ _ _ _ _) as [[h l]|].
  - intros [ol or]. apply (runs_bind _ _ _ (right_ (ol, or))).
    + apply guard_runs; [exact IH|]. intros E%Nat.eqb_eq. by rewrite E.
    + intros nl. apply (runs_bind _ _ _ (join_log old_hash depth ol or nl)); [|intros nr; apply join_runs].
      apply guard_runs; [exact IH|]. intros E%Nat.eqb_eq. rewrite E. apply drop_all.
Qed.

(** ** What a log inserts *)

Definition ins_ok (writes : list PreparedWrite) (i : Insert) : Prop :=
  match i with
  | InsNode h n => StateNode_hash n domain = Ok h
  | InsValue h v => value_hash domain v = Ok h /\ exists w, w ∈ writes /\ pw_value w = Put v h
  end.

Lemma record_log_ok writes w bytes hash log :
  w ∈ writes -> pw_value w = Put bytes hash -> value_hash domain bytes = Ok hash ->
  record_log hash bytes = Ok log -> Forall (ins_ok writes) log.
Proof.
  intros Hw EP EV. unfold record_log. destruct (get_value source hash) as [[existing|]|e]; [|intros [= <-]|done].
  - destruct (value_hash domain existing); [|done]. destruct (_ || _); [done|]. by intros [= <-].
  - repeat constructor; [done|]. eauto.
Qed.

Lemma leaf_log_ok old_hash w h log :
  prepared_ok domain w -> leaf_log old_hash w = Ok (h, log) -> Forall (ins_ok [w]) log.
Proof.
  intros HP. unfold leaf_log. destruct (old_leaf _ _ _ _ _) as [o|]; [|done].
  unfold prepared_ok in HP. destruct (pw_value w) as [bytes hash|] eqn:EP; [|by intros [= <- <-]].
  case_bool_decide; [by intros [= <- <-]|]. destruct (record_log hash bytes) as [l|] eqn:ER; [|done].
  intros [= <- <-]. apply Forall_app. split; [|by repeat constructor].
  eapply record_log_ok; [apply list_elem_of_here|done..].
Qed.

Lemma ins_ok_mono ws ws' log : (forall w, w ∈ ws -> w ∈ ws') -> Forall (ins_ok ws) log -> Forall (ins_ok ws') log.
Proof.
  intros HW HF. eapply Forall_impl; [exact HF|]. intros [h n|h v]; [done|]. intros [? (w & ? & ?)]. split; [done|]. eauto.
Qed.

Lemma subtree_log_ok k old_hash writes h log :
  Forall (prepared_ok domain) writes -> subtree_log k old_hash writes = Ok (h, log) -> Forall (ins_ok writes) log.
Proof.
  revert old_hash writes h log. induction k as [|k IH]; intros old_hash writes h log HW; cbn [subtree_log];
    destruct writes as [|w writes]; [by intros [= <- <-]| |by intros [= <- <-]|].
  { intros HL. apply leaf_log_ok in HL; [|by apply Forall_inv in HW]. eapply ins_ok_mono; [|exact HL]. set_solver. }
  set (ws := w :: writes) in *. set (split := partition_point _ ws). cbv zeta.
  destruct (old_children _ _ _ _ _) as [[ol or]|]; [|done].
  destruct (subtree_log k ol _) as [[nl ll]|] eqn:E1; [|done]. destruct (subtree_log k or _) as [[nr lr]|] eqn:E2; [|done].
  destruct (join_log _ _ _ _ _ _) as [[h' l]|] eqn:E3; [|done]. intros [= <- <-].
  apply IH in E1; [|by apply Forall_take]. apply IH in E2; [|by apply Forall_drop].
  rewrite !Forall_app. split_and!.
  - eapply ins_ok_mono; [|exact E1]. intros x Hx. rewrite <- (take_drop split ws). set_solver.
  - eapply ins_ok_mono; [|exact E2]. intros x Hx. rewrite <- (take_drop split ws). set_solver.
  - unfold join_log in E3. destruct (_ && _); [by injection E3 as <- <-|].
    destruct (_ && _); [by injection E3 as <- <-|]. destruct (StateNode_hash _ _) as [hh|] eqn:EH; [|done].
    injection E3 as <- <-. by repeat constructor.
Qed.

End Log.

(** ** The store after a transition *)

(** The store with the nodes and values of a transition added. *)
Definition commit (source : StateSource) (nodes : gmap Hash256 StateNode) (values : gmap Hash256 (list byte))
  : StateSource :=
  MkStateSource
    (fun h => match nodes !! h with Some n => Ok (Some n) | None => get_node source h end)
    (fun h => match values !! h with Some v => Ok (Some v) | None => get_value source h end).

(** Nodes and values of a replayed log come from the log, and every insertion
    leaves something under its hash. *)
Lemma replay_nodes log b h n :
  b_nodes (replay log b) !! h = Some n -> b_nodes b !! h = Some n \/ InsNode h n ∈ log.
Proof.
  unfold replay. revert b. induction log as [|i log IH]; intros b; cbn [foldl]; [by left|].
  intros [HB|HL]%IH; [|right; set_solver]. destruct i as [h' n'|h' v']; cbn in HB; [|by left].
  apply lookup_insert_Some in HB as [[<- <-]|[_ ?]]; [right; set_solver|by left].
Qed.

Lemma replay_values log b h v :
  b_values (replay log b) !! h = Some v -> b_values b !! h = Some v \/ InsValue h v ∈ log.
Proof.
  unfold replay. revert b. induction log as [|i log IH]; intros b; cbn [foldl]; [by left|].
  intros [HB|HL]%IH; [|right; set_solver]. destruct i as [h' n'|h' v']; cbn in HB; [by left|].
  destruct (b_values b !! h') eqn:E; [by left|].
  apply lookup_insert_Some in HB as [[<- <-]|[_ ?]]; [right; set_solver|by left].
Qed.

Lemma replay_nodes_mono log b h : is_Some (b_nodes b !! h) -> is_Some (b_nodes (replay log b) !! h).
Proof.
  unfold replay. revert b. induction log as [|i log IH]; intros b HB; cbn [foldl]; [done|]. apply IH.
  destruct i; cbn; [|done]. by apply lookup_insert_is_Some'; right.
Qed.

Lemma replay_values_mono log b h : is_Some (b_values b !! h) -> is_Some (b_values (replay log b) !! h).
Proof.
  unfold replay. revert b. induction log as [|i log IH]; intros b HB; cbn [foldl]; [done|]. apply IH.
  destruct i as [|h' v']; cbn; [done|]. destruct (b_values b !! h'); [done|]. by apply lookup_insert_is_Some'; right.
Qed.

Lemma replay_has_node log b h n : InsNode h n ∈ log -> is_Some (b_nodes (replay log b) !! h).
Proof.
  intros (l1 & l2 & ->)%list_elem_of_split. unfold replay. rewrite foldl_app. cbn [foldl].
  apply (replay_nodes_mono l2). cbn. rewrite lookup_insert_eq. eauto.
Qed.

Lemma replay_has_value log b h v : InsValue h v ∈ log -> is_Some (b_values (replay log b) !! h).
Proof.
  intros (l1 & l2 & ->)%list_elem_of_split. unfold replay. rewrite foldl_app. cbn [foldl].
  apply (replay_values_mono l2). cbn. destruct (b_values _ !! h) eqn:E; [eauto|]. rewrite lookup_insert_eq. eauto.
Qed.

(** ** Writes along a path *)

Fixpoint find_write (path : Hash256) (ws : list PreparedWrite) : option PreparedValue :=
  match ws with
  | [] => None
  | w :: ws => if bool_decide (pw_path w = path) then Some (pw_value w) else find_write path ws
  end.

Lemma find_write_app path l1 l2 :
  find_write path (l1 ++ l2) = match find_write path l1 with Some x => Some x | None => find_write path l2 end.
Proof. induction l1 as [|w l1 IH]; [done|]. cbn. case_bool_decide; [done|apply IH]. Qed.

Lemma find_write_None path ws : (forall w, w ∈ ws -> pw_path w <> path) -> find_write path ws = None.
Proof.
  induction ws as [|w ws IH]; intros HW; [done|]. cbn.
  rewrite bool_decide_false by (apply HW; set_solver). apply IH. set_solver.
Qed.

Definition same_prefix (d : nat) (p q : Hash256) : Prop :=
  forall i, (i < d)%nat -> path_bit_unchecked p i = path_bit_unchecked q i.

(** Sorted writes of one subtree are partitioned by the bit of its level. *)
Lemma partition_writes path d ws :
  (d < SMT_DEPTH)%nat -> paths_increasing ws -> Forall (fun w => same_prefix d (pw_path w) path) ws ->
  let split := partition_point (fun w => negb (path_bit_unchecked (pw_path w) d)) ws in
  Forall (fun w => path_bit_unchecked (pw_path w) d = false) (take split ws) /\
  Forall (fun w => path_bit_unchecked (pw_path w) d = true) (drop split ws).
Proof.
  intros Hd. induction ws as [|w ws IH]; intros HI HF; cbn [partition_point]; [done|].
  apply StronglySorted_cons in HI as [HA HI]. apply Forall_cons in HF as [HW HF].
  destruct (path_bit_unchecked (pw_path w) d) eqn:EB; cbn [negb].
  - rewrite take_0, drop_0. split; [done|]. constructor; [done|]. rewrite Forall_forall in *. intros x Hx.
    destruct (HA _ Hx) as [Hle _]. unfold path_bit_unchecked in *.
    apply (bytes_cmp_bit (arr_bytes (pw_path w))); [by rewrite !arr_length|done| | |done].
    + intros i Hi. transitivity (path_bit_unchecked path i); [exact (HW i Hi)|]. symmetry. exact (HF _ Hx i Hi).
    + by rewrite arr_length.
  - cbn [take drop]. destruct (IH HI HF) as [H1 H2]. split; [|done]. by constructor.
Qed.

Section After.
Context `{Blake3} (source : StateSource) (domain : CommitmentDomainId).

Definition node_message (n : StateNode) : list byte :=
  match n with
  | Leaf p v => leaf_message domain p v
  | Branch d l r => branch_message domain d l r
  end.

(** The messages that are hashed in a store, its empty subtrees and a
    transition. *)
Inductive store_message (writes : list PreparedWrite) (log : list Insert) : list byte -> Prop :=
| msg_empty_leaf : store_message writes log (empty_message domain)
| msg_empty_branch depth : (depth < SMT_DEPTH)%nat ->
    store_message writes log
      (branch_message domain depth (hash_at (empty_hashes domain) (depth + 1)) (hash_at (empty_hashes domain) (depth + 1)))
| msg_node h n : get_node source h = Ok (Some n) -> store_message writes log (node_message n)
| msg_value h v : get_value source h = Ok (Some v) -> store_message writes log (value_message domain v)
| msg_new_node h n : InsNode h n ∈ log -> store_message writes log (node_message n)
| msg_new_value w v h : w ∈ writes -> pw_value w = Put v h -> store_message writes log (value_message domain v).

(** blake3 has no collision among a set of messages. *)
Definition collision_free (P : list byte -> Prop) : Prop :=
  forall x y, P x -> P y -> blake3 x = blake3 y -> x = y.

Lemma StateNode_hash_message n h : StateNode_hash n domain = Ok h -> h = blake3 (node_message n).
Proof.
  destruct n as [p v|d l r]; [by intros [= <-]|]. by intros (_ & _ & ->)%StateNode_hash_Branch.
Qed.

Lemma node_message_inj n n' h h' :
  StateNode_hash n domain = Ok h -> StateNode_hash n' domain = Ok h' -> node_message n = node_message n' -> n = n'.
Proof.
  destruct n as [p v|d l r], n' as [p' v'|d' l' r']; cbn [node_message].
  - intros _ _ [-> ->]%leaf_message_inj. done.
  - intros _ _ []%leaf_branch_message.
  - intros _ _ E. symmetry in E. by apply leaf_branch_message in E.
  - intros (? & _)%StateNode_hash_Branch (? & _)%StateNode_hash_Branch (-> & -> & ->)%branch_depth_inj; done.
Qed.

(** A checked load, whatever the level. *)
Lemma load_checked_inv s h depth n :
  (depth <= SMT_DEPTH)%nat -> load_checked_node s domain h depth = Ok n ->
  get_node s h = Ok (Some n) /\ StateNode_hash n domain = Ok h.
Proof.
  intros Hd HL. destruct (decide (depth = SMT_DEPTH)) as [->|].
  - apply load_leaf in HL as (p & v & -> & HG & ->). done.
  - apply load_branch in HL as (l & r & -> & HG & HN & ->); [|lia]. split; [done|].
    apply StateNode_hash_Branch. split_and!; (done || lia).
Qed.

Lemma load_checked_depends s s' h depth n :
  (depth <= SMT_DEPTH)%nat -> load_checked_node s domain h depth = Ok n -> get_node s' h = Ok (Some n) ->
  load_checked_node s' domain h depth = Ok n.
Proof.
  intros Hd HL HG. destruct (decide (depth = SMT_DEPTH)) as [->|].
  - apply load_leaf in HL as (p & v & -> & _ & ->). apply load_leaf. eauto.
  - apply load_branch in HL as (l & r & -> & _ & HN & ->); [|lia]. apply load_branch; [lia|]. eauto 10.
Qed.

Context (writes : list PreparedWrite) (log : list Insert).
Hypothesis HL : Forall (ins_ok domain writes) log.
Hypothesis NC : collision_free (store_message writes log).

Definition after : StateSource :=
  commit source (b_nodes (replay log (MkBuilder ∅ ∅))) (b_values (replay log (MkBuilder ∅ ∅))).

Lemma ins_node_hash h n : InsNode h n ∈ log -> StateNode_hash n domain = Ok h.
Proof. intros HI. rewrite Forall_forall in HL. apply (HL _ HI). Qed.

Lemma after_new_node h n : InsNode h n ∈ log -> get_node after h = Ok (Some n).
Proof.
  intros HI. cbn. destruct (replay_has_node log (MkBuilder ∅ ∅) h n HI) as [n' Hn']. rewrite Hn'. do 2 f_equal.
  apply replay_nodes in Hn' as [?|HI']; [done|].
  pose proof (ins_node_hash _ _ HI) as E1. pose proof (ins_node_hash _ _ HI') as E2.
  apply (node_message_inj _ _ _ _ E2 E1). apply NC; [by eapply msg_new_node..|].
  by rewrite <- (StateNode_hash_message _ _ E1), <- (StateNode_hash_message _ _ E2).
Qed.

(** Every checked load of the old store gives the same in the new one. *)
Lemma after_node h depth n :
  (depth <= SMT_DEPTH)%nat -> load_checked_node source domain h depth = Ok n ->
  load_checked_node after domain h depth = Ok n.
Proof.
  intros Hd HLd. eapply load_checked_depends; [done..|]. apply load_checked_inv in HLd as [HG HH]; [|done].
  cbn. destruct (b_nodes (replay log (MkBuilder ∅ ∅)) !! h) as [n'|] eqn:En; [|done]. do 2 f_equal.
  apply replay_nodes in En as [?|HI]; [done|]. pose proof (ins_node_hash _ _ HI) as E2.
  apply (node_message_inj _ _ _ _ E2 HH). apply NC; [by eapply msg_new_node|by eapply msg_node|].
  by rewrite <- (StateNode_hash_message _ _ E2), <- (StateNode_hash_message _ _ HH).
Qed.

Lemma value_unique v v' h :
  store_message writes log (value_message domain v) -> store_message writes log (value_message domain v') ->
  value_hash domain v = Ok h -> value_hash domain v' = Ok h -> v = v'.
Proof.
  intros M1 M2 E1%value_hash_Ok E2%value_hash_Ok. apply (value_message_inj domain), NC; [done..|]. congruence.
Qed.

Lemma after_log_value h v :
  b_values (replay log (MkBuilder ∅ ∅)) !! h = Some v ->
  value_hash domain v = Ok h /\ store_message writes log (value_message domain v).
Proof.
  intros [?|HI]%replay_values; [done|]. rewrite Forall_forall in HL. destruct (HL _ HI) as [HV (w & Hw & EP)].
  split; [done|]. by eapply msg_new_value.
Qed.

Lemma after_value h v :
  load_checked_value source domain h = Ok v -> load_checked_value after domain h = Ok v.
Proof.
  intros [HG HV]%load_value. apply load_value. split; [|done]. cbn.
  destruct (b_values (replay log (MkBuilder ∅ ∅)) !! h) as [v'|] eqn:Ev; [|done]. do 2 f_equal.
  apply after_log_value in Ev as [HV' HM]. eapply value_unique; [done| |done..]. by eapply msg_value.
Qed.

(** A recorded value can be loaded. *)
Lemma after_recorded w bytes hash l :
  w ∈ writes -> pw_value w = Put bytes hash -> value_hash domain bytes = Ok hash ->
  record_log source domain hash bytes = Ok l -> l ⊆ log ->
  load_checked_value after domain hash = Ok bytes.
Proof.
  intros Hw EP EV HR HS. unfold record_log in HR.
  destruct (get_value source hash) as [[existing|]|e] eqn:EG; [| |done].
  - destruct (value_hash domain existing) as [h'|] eqn:EH; [|done].
    destruct (bool_decide_reflect (h' = hash)) as [->|]; [|done].
    destruct (bool_decide_reflect (existing = bytes)) as [->|]; [|done].
    apply after_value, load_value. done.
  - injection HR as <-. apply load_value. split; [|done]. cbn.
    destruct (replay_has_value log (MkBuilder ∅ ∅) hash bytes) as [v' Hv']; [set_solver|].
    rewrite Hv'. do 2 f_equal. apply after_log_value in Hv' as [HV' HM].
    eapply value_unique; [done| |done..]. by eapply msg_new_value.
Qed.

(** ** Reading below a node *)

(** Reading the subtree of height [k] under a hash. *)
Definition read_sub (s : StateSource) (path : Hash256) (k : nat) (h : Hash256)
  : result StateError.t (option (list byte)) :=
  let? reached := read_levels s domain (empty_hashes domain) path k h in
  match reached with
  | None => Ok None
  | Some c => read_leaf s domain (empty_hashes domain) path c
  end.

Lemma read_sub_S s path k h :
  (k < SMT_DEPTH)%nat ->
  let depth := (SMT_DEPTH - S k)%nat in
  read_sub s path (S k) h =
  if bool_decide (h = hash_at (empty_hashes domain) depth) then Ok None
  else
    let? node := load_checked_node s domain h depth in
    match node with
    | Branch _ lh rh => read_sub s path k (if path_bit_unchecked path depth then rh else lh)
    | Leaf _ _ => Err StateError.UnexpectedLeaf
    end.
Proof.
  intros Hk depth. unfold read_sub. cbn [read_levels]. fold depth. case_bool_decide; [done|].
  destruct (load_checked_node _ _ _ _) as [[|d lh rh]|]; [done| |done]. rewrite path_bit_Ok by lia. done.
Qed.

Lemma read_sub_empty s path k :
  (k <= SMT_DEPTH)%nat -> read_sub s path k (hash_at (empty_hashes domain) (SMT_DEPTH - k)) = Ok None.
Proof.
  destruct k as [|k]; intros Hk.
  - rewrite Nat.sub_0_r. unfold read_sub. cbn [read_levels]. unfold read_leaf. by rewrite bool_decide_true.
  - rewrite read_sub_S by lia. by rewrite bool_decide_true.
Qed.

(** Reads of the old store keep their results. *)
Lemma after_read_sub path k h v :
  (k <= SMT_DEPTH)%nat -> read_sub source path k h = Ok v -> read_sub after path k h = Ok v.
Proof.
  revert h. induction k as [|k IH]; intros h Hk.
  - unfold read_sub. cbn [read_levels]. unfold read_leaf. case_bool_decide; [done|].
    destruct (load_checked_node source _ _ _) as [n|] eqn:En; [|done]. rewrite (after_node _ _ _ (le_n _) En).
    destruct n as [p c|]; [|done]. destruct (negb _); [done|].
    destruct (load_checked_value source _ _) as [b|] eqn:Eb; [|done]. by rewrite (after_value _ _ Eb).
  - rewrite !read_sub_S by lia. case_bool_decide; [done|].
    destruct (load_checked_node source _ _ _) as [n|] eqn:En; [|done].
    rewrite (after_node _ _ _ (Nat.le_sub_l _ _) En). destruct n; [done|]. apply IH. lia.
Qed.

(** What a path must read as after the writes [ws] to the subtree [old]. *)
Definition wanted (path : Hash256) (k : nat) (old : Hash256) (ws : list PreparedWrite) (v : option (list byte)) : Prop :=
  match find_write path ws with
  | Some (Put bytes _) => v = Some bytes
  | Some Delete => v = None
  | None => read_sub source path k old = Ok v
  end.

Lemma wanted_side path k old old_l old_r ws v :
  (S k <= SMT_DEPTH)%nat ->
  let d := (SMT_DEPTH - S k)%nat in
  let split := partition_point (fun w => negb (path_bit_unchecked (pw_path w) d)) ws in
  paths_increasing ws -> Forall (fun w => same_prefix d (pw_path w) path) ws ->
  old_children source domain (empty_hashes domain) old d = Ok (old_l, old_r) ->
  wanted path (S k) old ws v ->
  if path_bit_unchecked path d then wanted path k old_r (drop split ws) v else wanted path k old_l (take split ws) v.
Proof.
  intros Hk d split HI HF HC HW. destruct (partition_writes path d ws) as [HT HD]; [lia|done..|]. fold split in HT, HD.
  assert (read_sub source path (S k) old = Ok v ->
          read_sub source path k (if path_bit_unchecked path d then old_r else old_l) = Ok v) as HR.
  { rewrite read_sub_S by lia. fold d. unfold old_children in HC. case_bool_decide.
    - injection HC as <- <-. intros [= <-]. replace (d + 1)%nat with (SMT_DEPTH - k)%nat by lia.
      destruct (path_bit_unchecked path d); apply read_sub_empty; lia.
    - destruct (load_checked_node _ _ _ _) as [[|? ? ?]|]; [done| |done]. by injection HC as <- <-. }
  unfold wanted in *. rewrite <- (take_drop split ws), find_write_app in HW. rewrite Forall_forall in HT, HD.
  destruct (path_bit_unchecked path d) eqn:EB.
  - rewrite (find_write_None path (take split ws)) in HW by (intros w Hw <-; specialize (HT _ Hw); congruence).
    destruct (find_write _ _); [done|]. by apply HR.
  - rewrite (find_write_None path (drop split ws)) in HW by (intros w Hw <-; specialize (HD _ Hw); congruence).
    destruct (find_write _ _); [done|]. by apply HR.
Qed.

Lemma after_join path k old old_l old_r new_l new_r h l v :
  (S k <= SMT_DEPTH)%nat ->
  let d := (SMT_DEPTH - S k)%nat in
  old_children source domain (empty_hashes domain) old d = Ok (old_l, old_r) ->
  join_log domain old d old_l old_r new_l new_r = Ok (h, l) -> l ⊆ log ->
  read_sub after path k (if path_bit_unchecked path d then new_r else new_l) = Ok v ->
  read_sub after path (S k) h = Ok v.
Proof.
  intros Hk d HC HJ HS HR. rewrite read_sub_S by lia. fold d. unfold join_log in HJ.
  replace (d + 1)%nat with (SMT_DEPTH - k)%nat in * by lia.
  assert (read_sub after path k (hash_at (empty_hashes domain) (SMT_DEPTH - k)) = Ok v -> v = None) as HE.
  { rewrite read_sub_empty by lia. by intros [= <-]. }
  revert HJ. destruct (bool_decide (new_l = old_l) && bool_decide (new_r = old_r)) eqn:B1.
  { apply andb_true_iff in B1 as [->%bool_decide_eq_true ->%bool_decide_eq_true].
    intros [= <- <-]. unfold old_children in HC. replace (d + 1)%nat with (SMT_DEPTH - k)%nat in HC by lia.
    case_bool_decide.
    - injection HC as <- <-. by destruct (path_bit_unchecked path d); rewrite (HE HR).
    - destruct (load_checked_node source _ _ _) as [n|] eqn:En; [|done].
      rewrite (after_node old d n ltac:(lia) En). destruct n; [done|]. by injection HC as -> ->. }
  match goal with |- context [if ?c then Ok (hash_at _ d, _) else _] => destruct c eqn:B2 end.
  { apply andb_true_iff in B2 as [->%bool_decide_eq_true ->%bool_decide_eq_true].
    intros [= <- <-]. rewrite bool_decide_true by done. destruct (path_bit_unchecked path d); by rewrite (HE HR). }
  destruct (StateNode_hash (Branch d new_l new_r) domain) as [hh|] eqn:EH; [|done]. intros [= <- <-].
  apply StateNode_hash_Branch in EH as (_ & HN & EH).
  assert (InsNode hh (Branch d new_l new_r) ∈ log) as HI by (apply HS; set_solver). rewrite bool_decide_false.
  - rewrite (proj2 (load_branch after domain hh d (Branch d new_l new_r) ltac:(lia))); [done|].
    exists new_l, new_r. split_and!; [done| |done|done]. by apply after_new_node.
  - intros E. rewrite empty_branch, EH in E by lia.
    apply NC in E; [|by apply (msg_new_node _ _ hh (Branch d new_l new_r))|by apply msg_empty_branch; lia].
    apply branch_message_inj in E. by apply HN.
Qed.

Lemma read_sub_0 s path h : read_sub s path 0 h = read_leaf s domain (empty_hashes domain) path h.
Proof. done. Qed.

Lemma read_leaf_at s path h c bytes :
  h <> hash_at (empty_hashes domain) SMT_DEPTH ->
  load_checked_node s domain h SMT_DEPTH = Ok (Leaf path c) -> load_checked_value s domain c = Ok bytes ->
  read_leaf s domain (empty_hashes domain) path h = Ok (Some bytes).
Proof.
  intros HN EL EV. unfold read_leaf. rewrite bool_decide_false, EL by done.
  rewrite bool_decide_true by done. cbn [negb]. by rewrite EV.
Qed.

Lemma empty_not_leaf p v h :
  InsNode h (Leaf p v) ∈ log -> leaf_hash domain p v <> hash_at (empty_hashes domain) SMT_DEPTH.
Proof.
  intros HI E. rewrite empty_leaf in E. apply NC in E; [|by apply (msg_new_node _ _ _ (Leaf p v) HI)|by apply msg_empty_leaf].
  apply (f_equal (take 18)) in E. vm_compute in E. discriminate E.
Qed.

Lemma after_leaf old w h l :
  leaf_log source domain old w = Ok (h, l) -> l ⊆ log -> w ∈ writes -> prepared_ok domain w ->
  read_sub after (pw_path w) 0 h =
  Ok (match pw_value w with Put bytes _ => Some bytes | Delete => None end).
Proof.
  intros HJ HS Hw HP. rewrite read_sub_0. unfold leaf_log in HJ.
  destruct (old_leaf _ _ _ _ _) as [o|] eqn:EO; [|done]. unfold prepared_ok in HP.
  destruct (pw_value w) as [bytes hash|] eqn:EW.
  - destruct (bool_decide_reflect (o = Some hash)) as [->|NO].
    + injection HJ as <- <-. unfold old_leaf in EO. case_bool_decide as NE; [done|].
      destruct (load_checked_node source _ _ _) as [n|] eqn:En; [|done]. destruct n as [p c|]; [|done].
      destruct (bool_decide_reflect (p = pw_path w)) as [->|]; [cbn [negb] in EO|done].
      destruct (load_checked_value source _ _) as [b|] eqn:Eb; [|done]. injection EO as ->.
      assert (b = bytes) as ->.
      { apply load_value in Eb as [HG HV]. eapply value_unique; [by eapply msg_value|by eapply msg_new_value|done..]. }
      eapply read_leaf_at; [done|by apply after_node|by apply after_value].
    + destruct (record_log _ _ _ _) as [lv|] eqn:ER; [|done]. injection HJ as <- <-.
      assert (InsNode (leaf_hash domain (pw_path w) hash) (Leaf (pw_path w) hash) ∈ log) as HI
        by (apply HS; set_solver).
      apply (read_leaf_at _ _ _ hash).
      * by eapply empty_not_leaf.
      * apply load_leaf. eexists _, _. split_and!; [done| |done]. by apply after_new_node.
      * eapply after_recorded; [done..|]. set_solver.
  - injection HJ as <- <-. unfold read_leaf. rewrite bool_decide_true; [done|].
    destruct o; [done|]. unfold old_leaf in EO. case_bool_decide; [done|].
    destruct (load_checked_node source _ _ _) as [[]|]; [|done..]. destruct (negb _); [done|].
    by destruct (load_checked_value _ _ _).
Qed.

(** Writes that share [d] bits with a path and agree with it on bit [d]. *)
Lemma extend_prefix path k b ws :
  (S k <= SMT_DEPTH)%nat ->
  let d := (SMT_DEPTH - S k)%nat in
  path_bit_unchecked path d = b ->
  Forall (fun w => same_prefix d (pw_path w) path) ws -> Forall (fun w => path_bit_unchecked (pw_path w) d = b) ws ->
  Forall (fun w => same_prefix (SMT_DEPTH - k) (pw_path w) path) ws.
Proof.
  intros Hk d EB HF HB. rewrite Forall_forall in *. intros x Hx i Hi.
  destruct (decide (i = d)) as [->|]; [rewrite (HB _ Hx); done|]. apply (HF _ Hx). lia.
Qed.

(** After the writes of a subtree every path below it reads as wanted. *)
Lemma after_subtree path k old ws h l v :
  (k <= SMT_DEPTH)%nat -> subtree_log source domain k old ws = Ok (h, l) -> l ⊆ log -> ws ⊆ writes ->
  Forall (prepared_ok domain) ws -> paths_increasing ws ->
  Forall (fun w => same_prefix (SMT_DEPTH - k) (pw_path w) path) ws ->
  wanted path k old ws v -> read_sub after path k h = Ok v.
Proof.
  revert old ws h l. induction k as [|k IH]; intros old ws h l Hk; cbn [subtree_log];
    (destruct ws as [|w ws]; [intros [= <- <-] _ _ _ _ _ HW; by apply after_read_sub|]).
  - intros HJ HS HA HP _ HF HW. rewrite Nat.sub_0_r in HF. apply Forall_inv in HF, HP.
    apply path_bits_inj in HF. subst path. rewrite (after_leaf _ _ _ _ HJ HS) by (done || set_solver).
    unfold wanted in HW. cbn [find_write] in HW. rewrite bool_decide_true in HW by done.
    destruct (pw_value w); by subst.
  - set (writes' := w :: ws). cbv zeta. destruct (old_children _ _ _ _ _) as [[ol or]|] eqn:EC; [|done].
    set (d := (SMT_DEPTH - S k)%nat) in *. set (split := partition_point _ writes').
    destruct (subtree_log _ _ k ol _) as [[nl ll]|] eqn:E1; [|done].
    destruct (subtree_log _ _ k or _) as [[nr lr]|] eqn:E2; [|done].
    destruct (join_log _ _ _ _ _ _ _) as [[h' lj]|] eqn:EJ; [|done]. intros [= <- <-] HS HA HP HI HF HW.
    eapply (after_join path k); [done|exact EC|exact EJ|set_solver|].
    pose proof (wanted_side path k old ol or writes' v Hk HI HF EC HW) as HW'. fold d split in HW'.
    destruct (partition_writes path d writes' ltac:(lia) HI HF) as [HT HD]. fold split in HT, HD.
    unfold paths_increasing in HI. rewrite <- (take_drop split writes') in HI, HF, HP, HA.
    apply Forall_app in HF as [HF1 HF2], HP as [HP1 HP2].
    fold d. pose proof (fun b ws' => extend_prefix path k b ws' Hk) as HX. fold d in HX.
    destruct (path_bit_unchecked path d) eqn:EB.
    + eapply IH; [lia|exact E2|set_solver|set_solver|done|by eapply StronglySorted_app_1_r| |exact HW']. by eapply HX.
    + eapply IH; [lia|exact E1|set_solver|set_solver|done|by eapply StronglySorted_app_1_l| |exact HW']. by eapply HX.
Qed.

(** A leaf that keeps its hash is not written. *)
Lemma leaf_unchanged old w l : leaf_log source domain old w = Ok (old, l) -> l ⊆ log -> l = [].
Proof.
  intros HJ HS. unfold leaf_log in HJ. destruct (old_leaf _ _ _ _ _) as [o|] eqn:EO; [|done].
  destruct (pw_value w) as [bytes hash|]; [|by injection HJ as _ <-].
  destruct (bool_decide_reflect (o = Some hash)) as [|NO]; [by injection HJ as <-|].
  destruct (record_log _ _ _ _) as [lv|]; [|done]. injection HJ as EH <-. exfalso.
  assert (InsNode (leaf_hash domain (pw_path w) hash) (Leaf (pw_path w) hash) ∈ log) as HI by (apply HS; set_solver).
  unfold old_leaf in EO. case_bool_decide as NE.
  - apply (empty_not_leaf _ _ _ HI). congruence.
  - destruct (load_checked_node _ _ _ _) as [n|] eqn:En; [|done]. pose proof En as (p & c & -> & HG & E)%load_leaf.
    destruct (bool_decide_reflect (p = pw_path w)) as [->|]; [cbn [negb] in EO|done].
    destruct (load_checked_value _ _ _); [|done]. injection EO as <-. rewrite <- EH in E.
    apply NC in E; [|by apply (msg_new_node _ _ _ (Leaf (pw_path w) hash) HI)|by apply (msg_node _ _ _ _ HG)].
    apply leaf_message_inj in E as [_ ->]. done.
Qed.

(** A branch that keeps its hash keeps its children. *)
Lemma join_unchanged old d ol or nl nr l :
  (d < SMT_DEPTH)%nat -> old_children source domain (empty_hashes domain) old d = Ok (ol, or) ->
  join_log domain old d ol or nl nr = Ok (old, l) -> l ⊆ log -> nl = ol /\ nr = or /\ l = [].
Proof.
  intros Hd HC HJ HS. revert HJ. unfold join_log.
  destruct (bool_decide (nl = ol) && bool_decide (nr = or)) eqn:B1.
  { apply andb_true_iff in B1 as [->%bool_decide_eq_true ->%bool_decide_eq_true]. by intros [= <-]. }
  assert (~ (nl = ol /\ nr = or)) as HX by (intros [-> ->]; by rewrite !bool_decide_true in B1).
  match goal with |- context [if ?c then Ok (hash_at _ d, _) else _] => destruct c eqn:B2 end.
  { apply andb_true_iff in B2 as [->%bool_decide_eq_true ->%bool_decide_eq_true]. intros [= EO _]. exfalso.
    unfold old_children in HC. rewrite bool_decide_true in HC by done. injection HC as <- <-. by apply HX. }
  destruct (StateNode_hash (Branch d nl nr) domain) as [hh|] eqn:EH; [|done]. intros [= -> <-]. exfalso.
  apply StateNode_hash_Branch in EH as (_ & HN & EH).
  assert (InsNode old (Branch d nl nr) ∈ log) as HI by (apply HS; set_solver).
  pose proof (msg_new_node writes log old (Branch d nl nr) HI) as HM.
  unfold old_children in HC. clear B1 B2.
  destruct (bool_decide_reflect (old = hash_at (empty_hashes domain) d)) as [EE|NE].
  - rewrite (empty_branch domain d Hd) in EE. rewrite EH in EE. apply NC in EE; [|exact HM|by apply msg_empty_branch].
    apply branch_message_inj in EE. exact (HN EE).
  - destruct (load_checked_node _ _ _ _) as [n|] eqn:En; [|discriminate HC].
    apply load_branch in En as (l' & r' & -> & HG & _ & E); [|done]. injection HC as -> ->.
    rewrite EH in E. apply NC in E; [|exact HM|exact (msg_node writes log _ _ HG)].
    apply branch_message_inj in E. exact (HX E).
Qed.

(** An application that keeps the root of a subtree inserts nothing. *)
Lemma subtree_unchanged k old ws l :
  (k <= SMT_DEPTH)%nat -> subtree_log source domain k old ws = Ok (old, l) -> l ⊆ log -> l = [].
Proof.
  revert old ws l. induction k as [|k IH]; intros old ws l Hk; cbn [subtree_log];
    (destruct ws as [|w ws]; [by intros [= <-]|]); [apply leaf_unchanged|].
  cbv zeta. destruct (old_children _ _ _ _ _) as [[ol or]|] eqn:EC; [|done].
  destruct (subtree_log _ _ k ol _) as [[nl ll]|] eqn:E1; [|done].
  destruct (subtree_log _ _ k or _) as [[nr lr]|] eqn:E2; [|done].
  destruct (join_log _ _ _ _ _ _ _) as [[h lj]|] eqn:EJ; [|done]. intros [= -> <-] HS.
  apply join_unchanged in EJ as (-> & -> & ->); [|lia|done|set_solver].
  apply IH in E1 as ->; [|lia|set_solver]. apply IH in E2 as ->; [done|lia|set_solver].
Qed.

End After.

(** ** Properties *)

(** The first value a list of writes requests for a path. *)
Fixpoint requested `{Blake3} (domain : CommitmentDomainId) (path : Hash256) (writes : list StateWrite)
  : option (option (list byte)) :=
  match writes with
  | [] => None
  | w :: rest =>
      match path_key domain (sw_key w) with
      | Ok p => if bool_decide (p = path) then Some (sw_value w) else requested domain path rest
      | Err _ => requested domain path rest
      end
  end.

(** What the application of a write set inserts. *)
Definition transition_log `{Blake3} (source : StateSource) (root : Hash256) (ws : StateWriteSet) : list Insert :=
  match subtree_log source (ws_domain ws) SMT_DEPTH root (ws_writes ws) with Ok (_, log) => log | Err _ => [] end.

Section Final.
Context `{Blake3}.

Lemma paths_unique l w1 w2 : paths_increasing l -> w1 ∈ l -> w2 ∈ l -> pw_path w1 = pw_path w2 -> w1 = w2.
Proof.
  unfold paths_increasing. induction l as [|w l IH]; [set_solver|]. intros [HF HS]%StronglySorted_cons.
  rewrite Forall_forall in HF. rewrite !elem_of_cons. intros [->|H1] [->|H2] E; [done| | |by apply IH].
  - destruct (HF _ H2). congruence.
  - destruct (HF _ H1). congruence.
Qed.

Lemma find_write_elem path ws pw :
  paths_increasing ws -> pw ∈ ws -> pw_path pw = path -> find_write path ws = Some (pw_value pw).
Proof.
  intros HI HE EP. assert (exists w, w ∈ ws /\ pw_path w = path /\ find_write path ws = Some (pw_value w)) as (w & Hw & EW & ->).
  { clear HI. induction ws as [|w ws IH]; [set_solver|]. cbn [find_write]. case_bool_decide as EB.
    { exists w. split_and!; [apply list_elem_of_here|done..]. }
    apply elem_of_cons in HE as [->|HE]; [done|]. destruct (IH HE) as (x & ? & ? & ?).
    exists x. split_and!; [by apply list_elem_of_further|done..]. }
  by rewrite (paths_unique ws w pw) by congruence.
Qed.

(** Looking a path up in the prepared set is looking it up in the request. *)
Lemma find_write_requested domain path writes prepared ws :
  paths_increasing ws -> ws ≡ₚ prepared -> Forall2 (fun w pw => prepare_write domain w = Ok pw) writes prepared ->
  match requested domain path writes with
  | Some (Some bytes) => exists h, find_write path ws = Some (Put bytes h)
  | Some None => find_write path ws = Some Delete
  | None => find_write path ws = None
  end.
Proof.
  intros HI HP HF. assert (forall pw, pw ∈ prepared -> pw ∈ ws) as HE by (intros; by rewrite HP).
  assert (requested domain path writes = None -> forall pw, pw ∈ prepared -> pw_path pw <> path) as HN.
  { clear HE HP HI ws. induction HF as [|w pw writes prepared E1 HF IH]; [set_solver|].
    apply prepare_write_Ok in E1 as (EK & _). cbn [requested]. rewrite EK. case_bool_decide; [done|].
    intros HR x [->|Hx]%elem_of_cons; [done|by apply IH]. }
  destruct (requested domain path writes) as [v|] eqn:ER; [clear HN|].
  - assert (exists pw, pw ∈ prepared /\ pw_path pw = path /\
      match pw_value pw with Put bytes _ => v = Some bytes | Delete => v = None end) as (pw & Hpw & EP & EV).
    { clear HE HP HI. induction HF as [|w pw writes prepared E1 HF IH]; [done|].
      apply prepare_write_Ok in E1 as (EK & _ & EV). cbn [requested] in ER. rewrite EK in ER. case_bool_decide as EB.
      - injection ER as <-. exists pw. split_and!; [apply list_elem_of_here|done|done].
      - destruct (IH ER) as (x & ? & ?). exists x. split_and!; [by apply list_elem_of_further|naive_solver..]. }
    rewrite (find_write_elem path ws pw) by auto. destruct (pw_value pw); subst; eauto.
  - apply find_write_None. intros w Hw. apply HN; [done|]. by rewrite <- HP.
Qed.

Lemma apply_write_set_log source domain root ws t :
  ws_domain ws = domain -> apply_write_set source (MkDomainSnapshot domain root) ws = Ok t ->
  subtree_log source domain SMT_DEPTH root (ws_writes ws) = Ok (new_root t, transition_log source root ws) /\
  tr_nodes t = b_nodes (replay (transition_log source root ws) (MkBuilder ∅ ∅)) /\
  tr_values t = b_values (replay (transition_log source root ws) (MkBuilder ∅ ∅)).
Proof.
  intros ED. unfold apply_write_set, transition_log. rewrite ED. cbn [snap_domain snap_root].
  rewrite bool_decide_true by done. cbn [negb].
  destruct (Nat.eqb_spec (length (ws_writes ws)) 0) as [EL|_].
  { apply length_zero_iff_nil in EL as ->. intros [= <-]. cbn [subtree_log SMT_DEPTH new_root]. done. }
  pose proof (apply_subtree_runs source domain SMT_DEPTH root (ws_writes ws) (MkBuilder ∅ ∅)) as HR.
  destruct (subtree_log _ _ _ _ _) as [[h log]|e].
  - rewrite HR. by intros [= <-].
  - destruct (apply_subtree _ _ _ _ _ _ _) as [[]]; cbn in HR; [done|]. by intros.
Qed.

Lemma prepared_Forall domain writes prepared :
  Forall2 (fun w pw => prepare_write domain w = Ok pw) writes prepared -> Forall (prepared_ok domain) prepared.
Proof. induction 1 as [|w pw writes prepared E1 HF IH]; [constructor|]. constructor; [|done]. by apply prepare_write_Ok in E1 as (_ & ? & _). Qed.

Lemma apply_write_set_reads source domain root writes ws t key path v :
  StateWriteSet_new domain writes = Ok ws ->
  apply_write_set source (MkDomainSnapshot domain root) ws = Ok t ->
  collision_free (store_message source domain (ws_writes ws) (transition_log source root ws)) ->
  path_key domain key = Ok path ->
  match requested domain path writes with
  | Some v' => v = v'
  | None => read_value source (MkDomainSnapshot domain root) key = Ok v
  end ->
  read_value (commit source (tr_nodes t) (tr_values t)) (MkDomainSnapshot domain (new_root t)) key = Ok v.
Proof.
  intros (ED & HI & prepared & HF & HP)%StateWriteSet_new_Ok HA NC EK HV.
  apply apply_write_set_log in HA as (HS & -> & ->); [|done].
  assert (Forall (prepared_ok domain) (ws_writes ws)) as HO by (rewrite HP; by eapply prepared_Forall).
  assert (forall s r, read_value s (MkDomainSnapshot domain r) key = read_sub domain s path SMT_DEPTH r) as HR.
  { intros s r. unfold read_value, read_sub. cbn [snap_domain snap_root]. by rewrite EK. }
  rewrite HR in *. eapply (after_subtree source domain (ws_writes ws) (transition_log source root ws)); [..|exact HS| | |done|done| |].
  - by eapply subtree_log_ok.
  - done.
  - done.
  - set_solver.
  - set_solver.
  - rewrite Nat.sub_diag. apply Forall_forall. intros w _ i Hi. lia.
  - unfold wanted. pose proof (find_write_requested domain path _ _ _ HI HP HF) as HQ.
    destruct (requested domain path writes) as [[bytes|]|].
    + destruct HQ as [h ->]. done.
    + by rewrite HQ.
    + by rewrite HQ.
Qed.

(** C19: a write set does to the state what a map update does: once a
    transition is stored, a key it puts reads as the value put, a key it
    deletes reads as absent, and every other key that could be read under the
    old root reads the same under the new one, provided blake3 has no
    collision among the messages of the store and of the transition. *)
Theorem apply_then_read source domain root writes ws t key path v :
  StateWriteSet_new domain writes = Ok ws ->
  apply_write_set source (MkDomainSnapshot domain root) ws = Ok t ->
  collision_free (store_message source domain (ws_writes ws) (transition_log source root ws)) ->
  path_key domain key = Ok path ->
  match requested domain path writes with
  | Some v' => v = v'
  | None => read_value source (MkDomainSnapshot domain root) key = Ok v
  end ->
  read_value (commit source (tr_nodes t) (tr_values t)) (MkDomainSnapshot domain (new_root t)) key = Ok v.
Proof. apply apply_write_set_reads. Qed.

End Final.

(** ** An example: one put into the empty tree *)

(** A digest of the shape of a message (its kind, depth and the number of
    new leaves below), free of collisions on small trees and fast to
    evaluate. *)
Definition shape_hash : Blake3 := fun m =>
  arr_resize 32
    [byte_at 17 m; byte_at 27 m; byte_at 28 m;
     if bool_decide (byte_at 17 m = "N"%byte)
     then byte_of_Z (byte_to_Z (byte_at 32 m) + byte_to_Z (byte_at 64 m))
     else if bool_decide (byte_at 17 m = "L"%byte) then x01 else x00].

Definition no_store : StateSource := MkStateSource (fun _ => Ok None) (fun _ => Ok None).

Definition demo_root : Hash256 := hash_at (empty_hashes (H := shape_hash) DomWasm) 0.
Definition demo_writes : list StateWrite := [StateWrite_put [x01] [x07]].

Definition unwrap {E A} (default : A) (r : result E A) : A := match r with Ok a => a | Err _ => default end.

Lemma unwrap_ok {E A} (d : A) (r : result E A) : is_ok r = true -> r = Ok (unwrap d r).
Proof. by destruct r. Qed.

Definition demo_ws : StateWriteSet :=
  unwrap (MkStateWriteSet DomWasm []) (StateWriteSet_new (H := shape_hash) DomWasm demo_writes).
Definition demo_transition : StateTransition :=
  unwrap (MkStateTransition DomWasm demo_root demo_root ∅ ∅)
    (apply_write_set (H := shape_hash) no_store (MkDomainSnapshot DomWasm demo_root) demo_ws).
Definition demo_key_path : Hash256 := unwrap ZERO_HASH (path_key (H := shape_hash) DomWasm [x01]).

(** The messages of the example, in a list. *)
Definition message_list `{Blake3} (domain : CommitmentDomainId) (ws : list PreparedWrite) (log : list Insert)
  : list (list byte) :=
  empty_message domain ::
  map (fun d => branch_message domain d (hash_at (empty_hashes domain) (d + 1)) (hash_at (empty_hashes domain) (d + 1)))
    (seq 0 SMT_DEPTH) ++
  flat_map (fun i => match i with InsNode _ n => [node_message domain n] | InsValue _ _ => [] end) log ++
  flat_map (fun w => match pw_value w with Put v _ => [value_message domain v] | Delete => [] end) ws.

Lemma message_list_complete `{Blake3} domain ws log m :
  store_message no_store domain ws log m -> m ∈ message_list domain ws log.
Proof.
  unfold message_list. intros HM. destruct HM as [|depth Hd|h n HG|h v HG|h n HI|w v h Hw EP]; [| |done|done| |].
  - apply list_elem_of_here.
  - apply list_elem_of_further, elem_of_app. left. apply list_elem_of_fmap. exists depth. split; [done|]. apply elem_of_seq. lia.
  - apply list_elem_of_further. rewrite !elem_of_app. right. left. apply list_elem_of_In, in_flat_map.
    exists (InsNode h n). split; [by apply list_elem_of_In|]. by left.
  - apply list_elem_of_further. rewrite !elem_of_app. right. right. apply list_elem_of_In, in_flat_map.
    exists w. split; [by apply list_elem_of_In|]. rewrite EP. by left.
Qed.

Fixpoint all_distinct {A} `{EqDecision A} (l : list A) : bool :=
  match l with
  | [] => true
  | x :: l => forallb (fun y => negb (bool_decide (x = y))) l && all_distinct l
  end.

Lemma all_distinct_inj {A B} `{EqDecision B} (f : A -> B) l x y :
  all_distinct (map f l) = true -> x ∈ l -> y ∈ l -> f x = f y -> x = y.
Proof.
  assert (forall l x z, z ∈ l -> forallb (fun y => negb (bool_decide (f x = y))) (map f l) = true -> f x <> f z) as HA.
  { clear. intros l x z Hz HF. rewrite forallb_forall in HF.
    specialize (HF (f z) ltac:(apply in_map; by apply list_elem_of_In)). by case_bool_decide. }
  induction l as [|a l IH]; [set_solver|]. cbn [map all_distinct]. intros [HF HD]%andb_true_iff.
  rewrite !elem_of_cons. intros [->|Hx] [->|Hy] E; [done| | |by apply IH].
  - by destruct (HA _ _ _ Hy HF).
  - by destruct (HA _ _ _ Hx HF).
Qed.

Lemma demo_collision_free :
  collision_free (H := shape_hash)
    (store_message (H := shape_hash) no_store DomWasm (ws_writes demo_ws)
       (transition_log (H := shape_hash) no_store demo_root demo_ws)).
Proof.
  intros x y Hx%message_list_complete Hy%message_list_complete E.
  refine (all_distinct_inj (blake3 (Blake3 := shape_hash)) _ x y _ Hx Hy E). vm_compute. reflexivity.
Qed.

Lemma apply_then_read_witness :
  read_value (H := shape_hash) (commit no_store (tr_nodes demo_transition) (tr_values demo_transition))
    (MkDomainSnapshot DomWasm (new_root demo_transition)) [x01] = Ok (Some [x07]).
Proof.
  apply (apply_then_read (H := shape_hash) no_store DomWasm demo_root demo_writes demo_ws demo_transition [x01]
           demo_key_path (Some [x07])).
  - apply unwrap_ok. vm_compute. reflexivity.
  - apply unwrap_ok. vm_compute. reflexivity.
  - exact demo_collision_free.
  - vm_compute. reflexivity.
  - vm_compute. reflexivity.
Defined.
