(* ===== verification/StateValues.v ===== *)
(** [oregon-contract-state]: the keys, values and write sets of the accounting
    and fee domains ([execution_accounting.rs], [fee_state.rs]). *)
From S2P Require Import Prelude Encoding Transaction Layout Address Commitment Smt SmtWrite.

Definition ascii_bytes (s : String.string) : list byte := String.list_byte_of_string s.
Arguments ascii_bytes s%_string_scope.

(** ** Accounting *)

Definition BALANCE_KEY_PREFIX_V1 : list byte := ascii_bytes "acct/v1/balance/".
Definition SEQUENCE_KEY_PREFIX_V1 : list byte := ascii_bytes "acct/v1/sequence/".
Definition TOTAL_EXECUTION_BALANCE_KEY_V1 : list byte := ascii_bytes "acct/v1/total_execution_balance".
Definition RESERVE_OUTPOINT_KEY_V1 : list byte := ascii_bytes "acct/v1/reserve_outpoint".

Definition balance_key (a : ExecutionAddress) : list byte := BALANCE_KEY_PREFIX_V1 ++ ExecutionAddress_to_bytes a.
Definition sequence_key (a : ExecutionAddress) : list byte := SEQUENCE_KEY_PREFIX_V1 ++ ExecutionAddress_to_bytes a.
Definition total_execution_balance_key : list byte := TOTAL_EXECUTION_BALANCE_KEY_V1.
Definition reserve_outpoint_key : list byte := RESERVE_OUTPOINT_KEY_V1.

Definition encode_accounting_u64 (value : Z) : list byte := le_bytes 8 value.

Definition decode_accounting_u64 (bytes : list byte) : result StateError.t Z :=
  if negb (length bytes =? 8)%nat then Err (StateError.InvalidAccountingValueLength (length bytes))
  else Ok (le_num bytes).

Definition encode_reserve_outpoint (o : option OutPoint) : list byte :=
  match o with
  | None => [x00]
  | Some o => x01 :: arr_bytes (txid o) ++ le_bytes 4 (index o)
  end.

Record ExecutionAccountingWritesV1 : Type := MkAccountingWrites {
  balances : list (ExecutionAddress * option Z);
  sequences : list (ExecutionAddress * Z);
  total_execution_balance : Z;
  reserve_outpoint : option OutPoint;
}.

Definition balance_write (p : ExecutionAddress * option Z) : StateWrite :=
  match p.2 with
  | Some value => if negb (value =? 0) then StateWrite_put (balance_key p.1) (encode_accounting_u64 value)
                  else StateWrite_delete (balance_key p.1)
  | None => StateWrite_delete (balance_key p.1)
  end.

Definition sequence_write (p : ExecutionAddress * Z) : StateWrite :=
  StateWrite_put (sequence_key p.1) (encode_accounting_u64 p.2).

(** The writes of [write_set], before they are prepared. *)
Definition accounting_writes (w : ExecutionAccountingWritesV1) : list StateWrite :=
  map balance_write (balances w) ++ map sequence_write (sequences w)
    ++ [StateWrite_put total_execution_balance_key (encode_accounting_u64 (total_execution_balance w));
        StateWrite_put reserve_outpoint_key (encode_reserve_outpoint (reserve_outpoint w))].

Definition accounting_write_set `{Blake3} (w : ExecutionAccountingWritesV1) : result StateError.t StateWriteSet :=
  StateWriteSet_new DomExecutionAccounting (accounting_writes w).

(** ** Fee state *)

Definition FEE_HEIGHT_KEY_V1 : list byte := ascii_bytes "fee/v1/height".
Definition FEE_BASE_FEE_PER_WEIGHT_KEY_V1 : list byte := ascii_bytes "fee/v1/base_fee_per_weight".
Definition FEE_BLOCK_WEIGHT_USED_KEY_V1 : list byte := ascii_bytes "fee/v1/block_weight_used".
Definition FEE_EXECUTION_FEE_TOTAL_KEY_V1 : list byte := ascii_bytes "fee/v1/execution_fee_total".
Definition FEE_PRODUCER_COINBASE_TXID_KEY_V1 : list byte := ascii_bytes "fee/v1/producer_coinbase_txid".
Definition FEE_RESERVE_TRANSITION_ID_KEY_V1 : list byte := ascii_bytes "fee/v1/reserve_transition_id".

Record FeeStateValuesV1 : Type := MkFeeState {
  fs_height : Z;
  fs_base_fee_per_weight : Z;
  fs_block_weight_used : Z;
  fs_execution_fee_total : Z;
  fs_producer_coinbase_txid : Hash256;
  fs_reserve_transition_id : Hash256;
}.

Definition fee_state_writes (v : FeeStateValuesV1) : list StateWrite :=
  [StateWrite_put FEE_HEIGHT_KEY_V1 (le_bytes 8 (fs_height v));
   StateWrite_put FEE_BASE_FEE_PER_WEIGHT_KEY_V1 (le_bytes 8 (fs_base_fee_per_weight v));
   StateWrite_put FEE_BLOCK_WEIGHT_USED_KEY_V1 (le_bytes 8 (fs_block_weight_used v));
   StateWrite_put FEE_EXECUTION_FEE_TOTAL_KEY_V1 (le_bytes 8 (fs_execution_fee_total v));
   StateWrite_put FEE_PRODUCER_COINBASE_TXID_KEY_V1 (arr_bytes (fs_producer_coinbase_txid v));
   StateWrite_put FEE_RESERVE_TRANSITION_ID_KEY_V1 (arr_bytes (fs_reserve_transition_id v))].

Definition fee_state_write_set `{Blake3} (v : FeeStateValuesV1) : result StateError.t StateWriteSet :=
  StateWriteSet_new DomFeeState (fee_state_writes v).

(** ** Write sets with distinct keys *)

Section WriteSets.
Context `{Blake3}.

Definition key_message (d : CommitmentDomainId) (key : list byte) : list byte := KEY_DOMAIN ++ domain_prefix d ++ key.

(** No two keys of the list have the same path by accident. *)
Definition keys_separate (d : CommitmentDomainId) (keys : list (list byte)) : Prop :=
  ~ collision_in (map (key_message d) keys) (map (key_message d) keys).

Definition write_small (w : StateWrite) : Prop :=
  Z.of_nat (length (sw_key w)) <= MAX_STATE_KEY_BYTES /\
  match sw_value w with Some v => Z.of_nat (length v) <= MAX_STATE_VALUE_BYTES | None => True end.

Lemma path_key_small d key :
  Z.of_nat (length key) <= MAX_STATE_KEY_BYTES -> path_key d key = Ok (blake3 (key_message d key)).
Proof. intros HL. unfold path_key. destruct (_ >? _) eqn:E; [lia|done]. Qed.

Lemma prepare_write_small d w :
  write_small w -> exists pw, prepare_write d w = Ok pw /\ pw_path pw = blake3 (key_message d (sw_key w)).
Proof.
  intros [HK HV]. unfold prepare_write. rewrite (path_key_small d _ HK). destruct (sw_value w) as [v|]; [|eauto].
  unfold value_hash. destruct (_ >? _) eqn:E; [lia|]. eauto.
Qed.

Lemma prepare_writes_small d writes :
  Forall write_small writes ->
  exists prepared, try_map (prepare_write d) writes = Ok prepared /\
    map pw_path prepared = map (fun w => blake3 (key_message d (sw_key w))) writes.
Proof.
  induction 1 as [|w writes HW _ (prepared & EP & EM)]; [by exists []|].
  destruct (prepare_write_small d w HW) as (pw & E1 & E2). exists (pw :: prepared). cbn [try_map map].
  rewrite E1, EP, E2, EM. done.
Qed.

Lemma keys_paths_inj d keys k1 k2 :
  keys_separate d keys -> k1 ∈ keys -> k2 ∈ keys -> blake3 (key_message d k1) = blake3 (key_message d k2) -> k1 = k2.
Proof.
  intros HS H1 H2 E. destruct (decide (key_message d k1 = key_message d k2)) as [EM|NE].
  - unfold key_message in EM. by apply app_inv_head, app_inv_head in EM.
  - destruct HS. exists (key_message d k1), (key_message d k2).
    split_and!; [apply list_elem_of_fmap; eauto..|done|done].
Qed.

Lemma NoDup_paths d writes :
  keys_separate d (map sw_key writes) ->
  NoDup (map (fun w => blake3 (key_message d (sw_key w))) writes) <-> NoDup (map sw_key writes).
Proof.
  intros HS. rewrite <- (map_map sw_key (fun k => blake3 (key_message d k))). split.
  - apply NoDup_fmap_1.
  - intros HN. revert HS HN. generalize (map sw_key writes) as keys. intros keys HS.
    assert (forall k1 k2, k1 ∈ keys -> k2 ∈ keys -> blake3 (key_message d k1) = blake3 (key_message d k2) -> k1 = k2)
      as HI by (intros; by eapply keys_paths_inj). clear HS.
    induction keys as [|k keys IH]; [constructor|]. cbn [map]. rewrite !NoDup_cons. intros [Hk HN]. split.
    + intros (k' & E & Hk')%list_elem_of_fmap. apply Hk. rewrite (HI k k'); set_solver.
    + apply IH; [set_solver|done].
Qed.

Lemma check_duplicate_paths_NoDup l :
  NoDup (map pw_path l) -> check_duplicate_paths l = Ok tt.
Proof.
  induction l as [|a [|b l] IH]; [done..|]. intros HN.
  change (check_duplicate_paths (a :: b :: l)) with
    (if bool_decide (pw_path a = pw_path b) then Err (StateError.DuplicatePath (pw_path a))
     else check_duplicate_paths (b :: l)).
  cbn [map] in *. rewrite NoDup_cons in HN. destruct HN as [Ha HN].
  rewrite bool_decide_false by set_solver. by apply IH.
Qed.


Lemma increasing_NoDup l : paths_increasing l -> NoDup (map pw_path l).
Proof.
  unfold paths_increasing. induction 1 as [|a l HS IH HF]; cbn [map]; [constructor|]. constructor; [|done].
  intros (b & E & Hb)%list_elem_of_fmap. rewrite Forall_forall in HF. by destruct (HF b Hb).
Qed.

(** A write set is accepted exactly when its keys are distinct. *)
Lemma write_set_accepts d writes :
  Forall write_small writes -> keys_separate d (map sw_key writes) ->
  is_ok (StateWriteSet_new d writes) = true <->
  Z.of_nat (length writes) <= MAX_STATE_WRITE_SET_ENTRIES /\ NoDup (map sw_key writes).
Proof.
  intros HW HS. rewrite <- NoDup_paths by done. destruct (prepare_writes_small d writes HW) as (prepared & EP & EM).
  rewrite <- EM. pose proof (merge_sort_Permutation path_le prepared) as HP. split.
  - destruct (StateWriteSet_new d writes) as [ws|] eqn:E; [intros _|done]. revert E. unfold StateWriteSet_new.
    destruct (Z.of_nat (length writes) >? _) eqn:EL; [done|]. rewrite EP.
    destruct (check_duplicate_paths _) as [[]|] eqn:EC; [|done]. intros _. split; [lia|].
    apply check_duplicate_increasing in EC; [|apply StronglySorted_merge_sort; apply _].
    apply increasing_NoDup in EC. by rewrite HP in EC.
  - intros [HL HN]. unfold StateWriteSet_new. destruct (_ >? _) eqn:E; [lia|]. rewrite EP.
    rewrite check_duplicate_paths_NoDup; [done|]. by rewrite HP.
Qed.

(** The value a write set requests for one of its keys. *)
Lemma requested_distinct d writes w :
  Forall write_small writes -> keys_separate d (map sw_key writes) -> NoDup (map sw_key writes) -> w ∈ writes ->
  requested d (blake3 (key_message d (sw_key w))) writes = Some (sw_value w).
Proof.
  intros HW HS HN Hin.
  assert (forall w', w' ∈ writes -> blake3 (key_message d (sw_key w')) = blake3 (key_message d (sw_key w)) ->
    sw_key w' = sw_key w) as HI.
  { intros w' Hw' E. eapply keys_paths_inj; [exact HS|apply list_elem_of_fmap; eauto..|done]. }
  clear HS. induction HW as [|a writes Ha HW IH]; [set_solver|]. cbn [requested map] in *.
  rewrite NoDup_cons in HN. destruct HN as [Ha' HN]. rewrite (path_key_small d _ (proj1 Ha)).
  destruct (bool_decide_reflect (blake3 (key_message d (sw_key a)) = blake3 (key_message d (sw_key w)))) as [E|NE].
  - apply HI in E; [|set_solver]. apply elem_of_cons in Hin as [->|Hin]; [done|]. destruct Ha'. rewrite E. apply list_elem_of_fmap. eauto.
  - apply elem_of_cons in Hin as [->|Hin]; [done|]. apply IH; [done..|set_solver].
Qed.

End WriteSets.

(** ** The accounting domain *)

Lemma key_prefix_inj p a b : p ++ ExecutionAddress_to_bytes a = p ++ ExecutionAddress_to_bytes b -> a = b.
Proof. intros E%app_inv_head. by apply to_bytes_inj. Qed.

#[export] Instance balance_key_inj : Inj (=) (=) balance_key.
Proof. intros a b. apply key_prefix_inj. Qed.
#[export] Instance sequence_key_inj : Inj (=) (=) sequence_key.
Proof. intros a b. apply key_prefix_inj. Qed.

(** The four families of keys never meet. *)
Lemma balance_sequence_key a b : balance_key a <> sequence_key b.
Proof. intros E. apply (f_equal (take 9)) in E. vm_compute in E. done. Qed.

Lemma fixed_keys_distinct a :
  balance_key a <> total_execution_balance_key /\ balance_key a <> reserve_outpoint_key /\
  sequence_key a <> total_execution_balance_key /\ sequence_key a <> reserve_outpoint_key /\
  total_execution_balance_key <> reserve_outpoint_key.
Proof. split_and!; intros E; apply (f_equal (take 9)) in E; vm_compute in E; done. Qed.

Lemma balance_write_key p : sw_key (balance_write p) = balance_key p.1.
Proof. destruct p as [a [v|]]; [|done]. unfold balance_write. simpl. by destruct (v =? 0). Qed.

Lemma accounting_keys w :
  map sw_key (accounting_writes w) =
  map balance_key (balances w).*1 ++ map sequence_key (sequences w).*1
    ++ [total_execution_balance_key; reserve_outpoint_key].
Proof.
  unfold accounting_writes. rewrite !map_app, !map_map. f_equal. apply map_ext. intros p. apply balance_write_key.
Qed.

Lemma accounting_keys_NoDup w :
  NoDup (map sw_key (accounting_writes w)) <-> NoDup (balances w).*1 /\ NoDup (sequences w).*1.
Proof.
  rewrite accounting_keys. rewrite !NoDup_app. split.
  - intros (H1 & _ & H2 & _). split; by eapply NoDup_fmap_1.
  - intros [H1 H2]. split_and!.
    + by apply (NoDup_fmap_2 _).
    + intros k (a & -> & _)%list_elem_of_fmap. rewrite elem_of_app. intros [(b & E & _)%list_elem_of_fmap|Hk].
      * by apply balance_sequence_key in E.
      * pose proof (fixed_keys_distinct a). set_solver.
    + by apply (NoDup_fmap_2 _).
    + intros k (a & -> & _)%list_elem_of_fmap. pose proof (fixed_keys_distinct a). set_solver.
    + apply NoDup_cons. split; [|apply NoDup_singleton].
      destruct (fixed_keys_distinct (MkExecutionAddress KindWasm (arr_fill 32 x00))). set_solver.
Qed.

Lemma length_balance_key a : length (balance_key a) = 49%nat.
Proof. unfold balance_key. by rewrite length_app, length_to_bytes. Qed.
Lemma length_sequence_key a : length (sequence_key a) = 50%nat.
Proof. unfold sequence_key. by rewrite length_app, length_to_bytes. Qed.

Lemma length_encode_reserve o : (length (encode_reserve_outpoint o) <= 37)%nat.
Proof. destruct o as [o|]; simpl; [|lia]. rewrite length_app, arr_length, length_le_bytes. lia. Qed.

Lemma accounting_writes_small w : Forall write_small (accounting_writes w).
Proof.
  unfold accounting_writes. rewrite !Forall_app. split_and!.
  - apply Forall_fmap, Forall_true. intros p. unfold compose, write_small. rewrite balance_write_key, length_balance_key.
    split; [by vm_compute|]. unfold balance_write. destruct p as [a [v|]]; [|done]. simpl. destruct (negb (v =? 0)); [|done].
    cbn [sw_value StateWrite_put]. unfold encode_accounting_u64. rewrite length_le_bytes. by vm_compute.
  - apply Forall_fmap, Forall_true. intros p. unfold compose, write_small, sequence_write. cbn [sw_key sw_value StateWrite_put].
    rewrite length_sequence_key. unfold encode_accounting_u64. rewrite length_le_bytes. by vm_compute.
  - pose proof (length_encode_reserve (reserve_outpoint w)).
    repeat apply Forall_cons_2; [| |constructor]; (split; [by vm_compute|]); cbn [sw_value StateWrite_put].
    + unfold encode_accounting_u64. rewrite length_le_bytes. by vm_compute.
    + unfold MAX_STATE_VALUE_BYTES. lia.
Qed.

(** ** Properties *)

(** The accounting domain.  When blake3 separates the keys written, the
    write set of a list of balances and sequences is accepted exactly when no
    address occurs twice in either list and the entries fit the limit; it then
    asks for the balance of every listed address (absent when it is zero), the
    sequence of every listed address, the total and the reserve outpoint, each
    under its own key, and the values read back as what was written. *)
Theorem accounting_write_set_exact `{Blake3} w :
  keys_separate DomExecutionAccounting (map sw_key (accounting_writes w)) ->
  let wanted := fun key v =>
    exists path, path_key DomExecutionAccounting key = Ok path /\
      requested DomExecutionAccounting path (accounting_writes w) = Some v in
  (is_ok (accounting_write_set w) = true <->
   Z.of_nat (length (balances w) + length (sequences w) + 2) <= MAX_STATE_WRITE_SET_ENTRIES /\
   NoDup (balances w).*1 /\ NoDup (sequences w).*1) /\
  (is_ok (accounting_write_set w) = true ->
   (forall a b, (a, b) ∈ balances w ->
      wanted (balance_key a) (match b with
                              | Some v => if v =? 0 then None else Some (encode_accounting_u64 v)
                              | None => None end)) /\
   (forall a q, (a, q) ∈ sequences w -> wanted (sequence_key a) (Some (encode_accounting_u64 q))) /\
   wanted total_execution_balance_key (Some (encode_accounting_u64 (total_execution_balance w))) /\
   wanted reserve_outpoint_key (Some (encode_reserve_outpoint (reserve_outpoint w)))) /\
  (forall v bytes, in_u64 v -> decode_accounting_u64 bytes = Ok v <-> bytes = encode_accounting_u64 v).
Proof.
  intros HS wanted. pose proof (accounting_writes_small w) as HW.
  assert (is_ok (accounting_write_set w) = true <->
    Z.of_nat (length (balances w) + length (sequences w) + 2) <= MAX_STATE_WRITE_SET_ENTRIES /\
    NoDup (balances w).*1 /\ NoDup (sequences w).*1) as HA.
  { unfold accounting_write_set. rewrite write_set_accepts, accounting_keys_NoDup by done.
    unfold accounting_writes. rewrite !length_app, !length_map, Nat.add_assoc. done. }
  assert (is_ok (accounting_write_set w) = true -> forall x, x ∈ accounting_writes w -> wanted (sw_key x) (sw_value x)) as HM.
  { intros (_ & HN)%HA x Hx. apply accounting_keys_NoDup in HN. exists (blake3 (key_message DomExecutionAccounting (sw_key x))).
    split; [|by apply requested_distinct]. apply path_key_small. rewrite Forall_forall in HW. by apply HW. }
  split_and!; [exact HA| |].
  - intros HO. specialize (HM HO). unfold accounting_writes in HM. split_and!.
    + intros a b Hab. specialize (HM (balance_write (a, b))). rewrite balance_write_key in HM.
      assert (sw_value (balance_write (a, b)) = match b with
        | Some v => if v =? 0 then None else Some (encode_accounting_u64 v) | None => None end) as <-.
      { unfold balance_write. destruct b as [v|]; [|done]. simpl. by destruct (v =? 0). }
      apply HM. apply elem_of_app. left. apply list_elem_of_fmap. eauto.
    + intros a q Haq. apply (HM (sequence_write (a, q))). rewrite !elem_of_app. right. left. apply list_elem_of_fmap. eauto.
    + apply (HM (StateWrite_put total_execution_balance_key _)). rewrite !elem_of_app. right. right. apply list_elem_of_here.
    + apply (HM (StateWrite_put reserve_outpoint_key _)). rewrite !elem_of_app. right. right. apply list_elem_of_further, list_elem_of_here.
  - intros v bytes Hv. unfold decode_accounting_u64, encode_accounting_u64. split.
    + destruct (Nat.eqb_spec (length bytes) 8) as [HL|]; [|done]. intros [= <-]. symmetry. by apply le_bytes_eq.
    + intros ->. rewrite length_le_bytes. cbn [Nat.eqb negb]. by rewrite le_num_le_bytes by (unfold_ints; lia).
Qed.

Definition demo_accounting : ExecutionAccountingWritesV1 :=
  MkAccountingWrites
    [(MkExecutionAddress KindWasm (arr_fill 32 x01), Some 50); (MkExecutionAddress KindWasm (arr_fill 32 x02), Some 0)]
    [(MkExecutionAddress KindWasm (arr_fill 32 x01), 3)] 50 (Some (MkOutPoint (arr_fill 32 x07) 1)).

Lemma distinct_no_collision `{Blake3} l : all_distinct (map blake3 l) = true -> ~ collision_in l l.
Proof.
  intros HD (x & y & Hx & Hy & Hne & E). apply Hne. by apply (all_distinct_inj blake3 l x y HD Hx Hy E).
Qed.

Lemma accounting_write_set_exact_witness :
  keys_separate (H := demo_blake3) DomExecutionAccounting (map sw_key (accounting_writes demo_accounting)) /\
  is_ok (accounting_write_set (H := demo_blake3) demo_accounting) = true.
Proof.
  assert (keys_separate (H := demo_blake3) DomExecutionAccounting (map sw_key (accounting_writes demo_accounting))) as HS
    by (apply distinct_no_collision; vm_compute; reflexivity).
  split; [exact HS|].
  destruct (accounting_write_set_exact (H := demo_blake3) demo_accounting HS) as (HA & _). apply HA.
  split_and!; [vm_compute; discriminate| |]; apply (bool_decide_eq_true_1 _); vm_compute; reflexivity.
Defined.

(** The six keys of the fee domain are distinct, so its write set always exists. *)
Lemma fee_state_write_set_total `{Blake3} v :
  keys_separate DomFeeState (map sw_key (fee_state_writes v)) -> is_ok (fee_state_write_set v) = true.
Proof.
  intros HS. apply write_set_accepts; [|done|].
  - unfold fee_state_writes, write_small, StateWrite_put.
    repeat (apply Forall_cons_2; [cbn [sw_key sw_value]; rewrite ?length_le_bytes, ?arr_length; split; by vm_compute|]).
    constructor.
  - split; [by vm_compute|]. apply (bool_decide_eq_true_1 _). vm_compute. reflexivity.
Qed.
