(* ===== verification/MapSum.v ===== *)
(** Sums over finite maps. *)
From S2P Require Import Prelude.

Section MapSum.
Context {K : Type} `{Countable K} {V : Type}.
Implicit Types (f g : K -> V -> Z) (m : gmap K V).

Definition msum (f : K -> V -> Z) (m : gmap K V) : Z := map_fold (fun k v acc => f k v + acc) 0 m.

(** What one key contributes. *)
Definition mget (f : K -> V -> Z) (m : gmap K V) (k : K) : Z := match m !! k with Some v => f k v | None => 0 end.

Lemma msum_empty f : msum f ∅ = 0.
Proof. apply map_fold_empty. Qed.

Lemma msum_insert f m k v : m !! k = None -> msum f (<[k := v]> m) = f k v + msum f m.
Proof. intros. unfold msum. apply (map_fold_insert_L (fun k v acc => f k v + acc)); [intros; lia|done]. Qed.

Lemma msum_delete f m k : msum f m = mget f m k + msum f (delete k m).
Proof.
  unfold mget. destruct (m !! k) as [v|] eqn:E.
  - rewrite <- (insert_delete_id m k v E) at 1. apply msum_insert, lookup_delete_eq.
  - by rewrite delete_id.
Qed.

Lemma msum_update f m k v : msum f (<[k := v]> m) = msum f m - mget f m k + f k v.
Proof. rewrite (msum_delete f m k), <- insert_delete_eq, msum_insert by apply lookup_delete_eq. lia. Qed.

Lemma msum_ext f g m : (forall k v, m !! k = Some v -> f k v = g k v) -> msum f m = msum g m.
Proof.
  induction m as [|k v m Hk IH] using map_ind; intros HE; [by rewrite !msum_empty|].
  rewrite !msum_insert by done. rewrite (HE k v), IH by (intros; (apply lookup_insert_eq || apply HE; by rewrite lookup_insert_ne by congruence)). done.
Qed.

Lemma msum_nonneg f m : (forall k v, 0 <= f k v) -> 0 <= msum f m.
Proof.
  intros HF. induction m as [|k v m Hk IH] using map_ind; [by rewrite msum_empty|].
  rewrite msum_insert by done. specialize (HF k v). lia.
Qed.

Lemma mget_nonneg f m k : (forall k v, 0 <= f k v) -> 0 <= mget f m k.
Proof. intros HF. unfold mget. by case_match. Qed.

Lemma mget_le f m k : (forall k v, 0 <= f k v) -> mget f m k <= msum f m.
Proof. intros HF. rewrite (msum_delete f m k). pose proof (msum_nonneg f (delete k m) HF). lia. Qed.

(** A map whose keys are those of another, with the same weights, weighs no more. *)
Lemma msum_le f m1 m2 :
  (forall k v, 0 <= f k v) -> (forall k v, m1 !! k = Some v -> exists v', m2 !! k = Some v' /\ f k v' = f k v) ->
  msum f m1 <= msum f m2.
Proof.
  intros Hf. revert m2. induction m1 as [|k v m1 Hk IH] using map_ind; intros m2 HS.
  { rewrite msum_empty. by apply msum_nonneg. }
  rewrite msum_insert, (msum_delete f m2 k) by done. destruct (HS k v) as (v' & Hv & E); [apply lookup_insert_eq|].
  unfold mget. rewrite Hv, E. apply Z.add_le_mono_l, IH. intros k' x Hx. assert (k' <> k) by congruence.
  destruct (HS k' x) as (x' & ? & ?); [by rewrite lookup_insert_ne|]. exists x'. by rewrite lookup_delete_ne.
Qed.

Lemma msum_foldr f m : msum f m = foldr (fun p acc => f p.1 p.2 + acc) 0 (map_to_list m).
Proof.
  unfold msum. rewrite map_fold_foldr. induction (map_to_list m) as [|[k v] l IH]; [done|]. cbn. by rewrite IH.
Qed.

(** What the entries of [m2] under the keys of [m1] contribute. *)
Definition moverlap f (m1 m2 : gmap K V) : Z := msum (fun k _ => mget f m2 k) m1.

Lemma msum_union f m1 m2 : msum f (m1 ∪ m2) = msum f m1 + msum f m2 - moverlap f m1 m2.
Proof.
  unfold moverlap. induction m1 as [|k v m1 Hk IH] using map_ind.
  { rewrite (left_id_L ∅ (∪)), !msum_empty. lia. }
  rewrite <- insert_union_l, msum_update, !msum_insert, IH by done. unfold mget at 2.
  rewrite lookup_union_r by done. unfold mget. lia.
Qed.

Lemma moverlap_le f m1 m2 : (forall k v, 0 <= f k v) -> 0 <= moverlap f m1 m2 <= msum f m2.
Proof.
  intros HF. unfold moverlap. split; [apply msum_nonneg; intros; by apply mget_nonneg|]. revert m2.
  induction m1 as [|k v m1 Hk IH] using map_ind; intros m2; [rewrite msum_empty; by apply msum_nonneg|].
  rewrite msum_insert, (msum_delete f m2 k) by done. specialize (IH (delete k m2)).
  rewrite (msum_ext _ (fun k _ => mget f m2 k)) in IH; [lia|].
  intros k' v' Hk'. unfold mget. rewrite lookup_delete_ne by congruence. done.
Qed.

(** What the keys of a list contribute. *)
Definition lsum f m (l : list K) : Z := foldr (fun k acc => mget f m k + acc) 0 l.

Lemma lsum_nonneg f m l : (forall k v, 0 <= f k v) -> 0 <= lsum f m l.
Proof. intros HF. induction l as [|k l IH]; cbn; [lia|]. pose proof (mget_nonneg f m k HF). unfold lsum in IH. lia. Qed.

Lemma msum_without f m l : NoDup l -> msum f m = lsum f m l + msum f (filter (fun p => p.1 ∉ l) m).
Proof.
  induction 1 as [|k l Hn _ IH]; cbn.
  - rewrite map_filter_id; [lia|]. intros k v _. cbn. set_solver.
  - fold (lsum f m l). rewrite IH, (msum_delete f (filter _ m) k).
    assert (mget f (filter (fun p => p.1 ∉ l) m) k = mget f m k) as ->.
    { unfold mget. rewrite map_lookup_filter. destruct (m !! k); [|done]. cbn. by rewrite option_guard_True. }
    assert (delete k (filter (fun p => p.1 ∉ l) m) = filter (fun p => p.1 ∉ k :: l) m) as ->; [|lia].
    apply map_eq. intros j. apply option_eq. intros v. rewrite lookup_delete_Some, !map_lookup_filter_Some. cbn.
    rewrite not_elem_of_cons. naive_solver.
Qed.

Lemma msum_imap (g : K -> V -> V) f m : msum f (map_imap (fun k v => Some (g k v)) m) = msum (fun k v => f k (g k v)) m.
Proof.
  induction m as [|k v m Hk IH] using map_ind; [by rewrite map_imap_empty, !msum_empty|].
  rewrite map_imap_insert. cbn. rewrite !msum_insert, IH; [done|done|]. rewrite map_lookup_imap. by rewrite Hk.
Qed.

Lemma msum_fmap (g : V -> V) f m : msum f (g <$> m) = msum (fun k v => f k (g v)) m.
Proof.
  induction m as [|k v m Hk IH] using map_ind; [by rewrite fmap_empty, !msum_empty|].
  rewrite fmap_insert, !msum_insert, IH; [done|done|]. by rewrite lookup_fmap, Hk.
Qed.

End MapSum.
