(* ===== verification/Journal.v ===== *)
(** [oregon-execution/journal]: the write journal of one execution: a stack of
    frames over the state snapshots of the execution, with resource limits,
    and its conversion to state transitions. *)
From S2P Require Import Prelude Encoding Layout Bits MapSum Commitment Smt SmtWrite.

Definition MAX_JOURNAL_DEPTH : Z := 64.
Definition MAX_JOURNAL_FRAMES : Z := 4096.
Definition MAX_JOURNAL_ENTRIES : Z := 65536.
Definition MAX_JOURNAL_BYTES : Z := 16777216.
Definition MAX_JOURNAL_SNAPSHOTS : nat := 6.

#[global] Program Instance CommitmentDomainId_countable : Countable CommitmentDomainId :=
  inj_countable domain_u16 (fun z => match domain_try_from z with Ok d => Some d | Err _ => None end) _.
Next Obligation. by intros []. Qed.

Module JournalError.
Inductive t : Type :=
| InvalidLimits
| EmptySnapshots
| TooManySnapshots (count : nat)
| DuplicateSnapshotDomain (d : CommitmentDomainId)
| UnsupportedDomain (d : CommitmentDomainId)
| UnconfiguredDomain (d : CommitmentDomainId)
| RootFrameLifecycle
| OpenChildFrames
| DepthLimitExceeded
| FrameLimitExceeded
| EntryLimitExceeded
| ByteLimitExceeded
| AccountingInvariant
| State (e : StateError.t).
End JournalError.

Record JournalContextV1 : Type := MkJournalContext {
  jc_chain_id : Z;
  jc_height : Z;
  jc_parent_block_hash : Hash256;
  jc_txid : Hash256;
}.

Record JournalLimitsV1 : Type := MkJournalLimits {
  max_depth : Z;
  max_frames : Z;
  max_entries : Z;
  max_bytes : Z;
}.

Definition JournalLimitsV1_new (depth frames entries bytes : Z) : result JournalError.t JournalLimitsV1 :=
  if (depth =? 0) || (frames =? 0) || (entries =? 0) || (bytes =? 0) || (depth >? MAX_JOURNAL_DEPTH)
     || (frames >? MAX_JOURNAL_FRAMES) || (entries >? MAX_JOURNAL_ENTRIES) || (bytes >? MAX_JOURNAL_BYTES)
  then Err JournalError.InvalidLimits
  else Ok (MkJournalLimits depth frames entries bytes).

Definition JournalLimitsV1_default : JournalLimitsV1 :=
  MkJournalLimits MAX_JOURNAL_DEPTH MAX_JOURNAL_FRAMES MAX_JOURNAL_ENTRIES MAX_JOURNAL_BYTES.

Inductive JournalIntentV1 : Type := IntentCommitted | IntentReverted.

#[global] Instance JournalIntentV1_eq_dec : EqDecision JournalIntentV1.
Proof. solve_decision. Defined.

Record JournalDomainRootsV1 : Type := MkJournalRoots {
  jr_domain : CommitmentDomainId;
  jr_old_root : Hash256;
  jr_new_root : Hash256;
}.

Record JournalResultV1 : Type := MkJournalResult {
  res_context : JournalContextV1;
  res_roots : list JournalDomainRootsV1;
  res_transitions : list StateTransition;
}.

(** ** frame.rs *)

Inductive JournalValue : Type := JPut (bytes : list byte) | JDelete.

Definition value_len (v : JournalValue) : Z :=
  match v with JPut bytes => Z.of_nat (length bytes) | JDelete => 0 end.

Definition entry_bytes (key : list byte) (v : JournalValue) : Z := Z.of_nat (length key) + value_len v.

Abbreviation Writes := (gmap CommitmentDomainId (gmap (list byte) JournalValue)).

Record JournalFrame : Type := MkFrame { jf_writes : Writes; jf_entries : Z; jf_bytes : Z }.

Definition JournalFrame_default : JournalFrame := MkFrame ∅ 0 0.

(** ** journal.rs: the source's vector of frames is kept top first. *)

Record ExecutionJournalV1 : Type := MkJournal {
  j_context : JournalContextV1;
  j_snapshots : gmap CommitmentDomainId DomainSnapshot;
  j_frames : list JournalFrame;
  j_limits : JournalLimitsV1;
  total_frames_created : Z;
  live_entries : Z;
  retained_bytes : Z;
}.

(** ** construct.rs *)

Definition validate_supported_domain (d : CommitmentDomainId) : result JournalError.t unit :=
  match d with
  | DomWasm | DomExecutionAccounting | DomExecutionReceipts | DomAsyncOutbox | DomAsyncConsumed | DomFeeState => Ok tt
  | DomNativeUtxo | DomEvm => Err (JournalError.UnsupportedDomain d)
  end.

Definition configure (configured : gmap CommitmentDomainId DomainSnapshot) (snapshot : DomainSnapshot)
  : result JournalError.t (gmap CommitmentDomainId DomainSnapshot) :=
  let? _ := validate_supported_domain (snap_domain snapshot) in
  match configured !! snap_domain snapshot with
  | Some _ => Err (JournalError.DuplicateSnapshotDomain (snap_domain snapshot))
  | None => Ok (<[snap_domain snapshot := snapshot]> configured)
  end.

Definition ExecutionJournalV1_new (context : JournalContextV1) (snapshots : list DomainSnapshot)
    (limits : JournalLimitsV1) : result JournalError.t ExecutionJournalV1 :=
  if (length snapshots =? 0)%nat then Err JournalError.EmptySnapshots
  else if (MAX_JOURNAL_SNAPSHOTS <? length snapshots)%nat
  then Err (JournalError.TooManySnapshots (length snapshots))
  else
    let? configured := try_fold configure snapshots ∅ in
    Ok (MkJournal context configured [JournalFrame_default] limits 1 0 0).

Definition configured_snapshot (j : ExecutionJournalV1) (d : CommitmentDomainId)
  : result JournalError.t DomainSnapshot :=
  let? _ := validate_supported_domain d in
  ok_or (j_snapshots j !! d) (JournalError.UnconfiguredDomain d).

Definition validate_key (key : list byte) : result JournalError.t unit :=
  if Z.of_nat (length key) >? MAX_STATE_KEY_BYTES
  then Err (JournalError.State (StateError.KeyTooLarge (length key))) else Ok tt.

Definition validate_value (value : list byte) : result JournalError.t unit :=
  if Z.of_nat (length value) >? MAX_STATE_VALUE_BYTES
  then Err (JournalError.State (StateError.ValueTooLarge (length value))) else Ok tt.

(** ** lifecycle.rs *)

Definition begin_frame : eff ExecutionJournalV1 JournalError.t unit := fun j =>
  match checked_add USIZE_MAX (Z.of_nat (length (j_frames j))) 1 with
  | None => (Err JournalError.DepthLimitExceeded, j)
  | Some next_depth =>
      if next_depth >? max_depth (j_limits j) then (Err JournalError.DepthLimitExceeded, j)
      else
        match checked_add USIZE_MAX (total_frames_created j) 1 with
        | None => (Err JournalError.FrameLimitExceeded, j)
        | Some next_total =>
            if next_total >? max_frames (j_limits j) then (Err JournalError.FrameLimitExceeded, j)
            else (Ok tt, MkJournal (j_context j) (j_snapshots j) (JournalFrame_default :: j_frames j) (j_limits j)
                           next_total (live_entries j) (retained_bytes j))
        end
  end.

Definition revert_frame : eff ExecutionJournalV1 JournalError.t unit := fun j =>
  if (length (j_frames j) =? 1)%nat then (Err JournalError.RootFrameLifecycle, j)
  else
    match j_frames j with
    | [] => (Err JournalError.AccountingInvariant, j)
    | child :: below =>
        match checked_sub (live_entries j) (jf_entries child), checked_sub (retained_bytes j) (jf_bytes child) with
        | Some next_live, Some next_bytes =>
            (Ok tt, MkJournal (j_context j) (j_snapshots j) below (j_limits j)
                      (total_frames_created j) next_live next_bytes)
        | _, _ => (Err JournalError.AccountingInvariant, j)
        end
    end.

(** ** write.rs *)

Definition lookup_write (w : Writes) (d : CommitmentDomainId) (key : list byte) : option JournalValue :=
  match w !! d with Some m => m !! key | None => None end.

(** [writes.entry(d).or_default().insert(key, v)] *)
Definition insert_write (w : Writes) (d : CommitmentDomainId) (key : list byte) (v : JournalValue) : Writes :=
  <[d := <[key := v]> (default ∅ (w !! d))]> w.

(** The checks and new counters of [stage_write], before it mutates. *)
Definition staged (j : ExecutionJournalV1) (d : CommitmentDomainId) (key : list byte) (value : option (list byte))
  : result JournalError.t ExecutionJournalV1 :=
  let? _ := configured_snapshot j d in
  let? _ := validate_key key in
  let? _ := match value with Some v => validate_value v | None => Ok tt end in
  match j_frames j with
  | [] => Err JournalError.AccountingInvariant
  | top :: below =>
      let existing := lookup_write (jf_writes top) d key in
      let old_bytes := match existing with Some old => entry_bytes key old | None => 0 end in
      let? new_bytes := ok_or (checked_add USIZE_MAX (Z.of_nat (length key))
                                 (match value with Some v => Z.of_nat (length v) | None => 0 end))
                          JournalError.ByteLimitExceeded in
      let? next_live := match existing with
                        | Some _ => Ok (live_entries j)
                        | None => ok_or (checked_add USIZE_MAX (live_entries j) 1) JournalError.EntryLimitExceeded
                        end in
      if next_live >? max_entries (j_limits j) then Err JournalError.EntryLimitExceeded
      else
        let? next_retained :=
          ok_or (match checked_sub (retained_bytes j) old_bytes with
                 | Some b => checked_add USIZE_MAX b new_bytes | None => None end) JournalError.ByteLimitExceeded in
        if next_retained >? max_bytes (j_limits j) then Err JournalError.ByteLimitExceeded
        else
          let? next_entries := match existing with
                               | Some _ => Ok (jf_entries top)
                               | None => ok_or (checked_add USIZE_MAX (jf_entries top) 1) JournalError.AccountingInvariant
                               end in
          let? next_frame_bytes :=
            ok_or (match checked_sub (jf_bytes top) old_bytes with
                   | Some b => checked_add USIZE_MAX b new_bytes | None => None end)
              JournalError.AccountingInvariant in
          let owned := match value with Some v => JPut v | None => JDelete end in
          let top' := MkFrame (insert_write (jf_writes top) d key owned) next_entries next_frame_bytes in
          Ok (MkJournal (j_context j) (j_snapshots j) (top' :: below) (j_limits j)
                (total_frames_created j) next_live next_retained)
  end.

Definition stage_write (d : CommitmentDomainId) (key : list byte) (value : option (list byte))
  : eff ExecutionJournalV1 JournalError.t unit := fun j =>
  match staged j d key value with
  | Ok j' => (Ok tt, j')
  | Err e => (Err e, j)
  end.

(** ** io.rs *)

Definition put (d : CommitmentDomainId) (key value : list byte) := stage_write d key (Some value).
Definition delete_key (d : CommitmentDomainId) (key : list byte) := stage_write d key None.

(** The loop over the frames from the top. *)
Fixpoint lookup_frames (fs : list JournalFrame) (d : CommitmentDomainId) (key : list byte) : option JournalValue :=
  match fs with
  | [] => None
  | f :: fs =>
      match lookup_write (jf_writes f) d key with
      | Some v => Some v
      | None => lookup_frames fs d key
      end
  end.

Definition journal_read `{Blake3} (source : StateSource) (j : ExecutionJournalV1) (d : CommitmentDomainId)
    (key : list byte) : result JournalError.t (option (list byte)) :=
  let? snapshot := configured_snapshot j d in
  let? _ := validate_key key in
  match lookup_frames (j_frames j) d key with
  | Some (JPut bytes) => Ok (Some bytes)
  | Some JDelete => Ok None
  | None => map_err JournalError.State (read_value source snapshot key)
  end.

(** ** commit.rs *)

(** One key of the child: does it overwrite an entry of the parent? *)
Definition replace_key (parent_writes : gmap (list byte) JournalValue) (acc : Z * Z) (key : list byte)
  : result JournalError.t (Z * Z) :=
  match parent_writes !! key with
  | None => Ok acc
  | Some parent_value =>
      let? entries := ok_or (checked_add USIZE_MAX acc.1 1) JournalError.AccountingInvariant in
      let? bytes := ok_or (checked_add USIZE_MAX acc.2 (entry_bytes key parent_value))
                      JournalError.AccountingInvariant in
      Ok (entries, bytes)
  end.

Definition replace_domain (parent : Writes) (acc : Z * Z) (p : CommitmentDomainId * gmap (list byte) JournalValue)
  : result JournalError.t (Z * Z) :=
  match parent !! p.1 with
  | None => Ok acc
  | Some parent_writes => try_fold (replace_key parent_writes) (map_to_list p.2).*1 acc
  end.

(** The parent's entries that the child overwrites: their number and bytes. *)
Definition replaced (parent child : Writes) : result JournalError.t (Z * Z) :=
  try_fold (replace_domain parent) (map_to_list child) (0, 0).

(** [parent.writes.entry(d).or_default().extend(child_writes)] for every
    domain of the child. *)
Definition extend_writes (parent child : Writes) : Writes :=
  foldl (fun (w : Writes) (p : CommitmentDomainId * gmap (list byte) JournalValue) =>
           <[p.1 := p.2 ∪ default ∅ (w !! p.1)]> w)
    parent (map_to_list child).

Definition add_sub (a b c : Z) : option Z :=
  match checked_add USIZE_MAX a b with Some v => checked_sub v c | None => None end.

(** The source indexes its frames at [len - 2]; a journal always has its root
    frame, so the last branch, an empty stack, is never taken. *)
Definition committed (j : ExecutionJournalV1) : result JournalError.t ExecutionJournalV1 :=
  if (length (j_frames j) =? 1)%nat then Err JournalError.RootFrameLifecycle
  else
    match j_frames j with
    | child :: parent :: below =>
        let? (replaced_entries, replaced_bytes) := replaced (jf_writes parent) (jf_writes child) in
        let? next_parent_entries := ok_or (add_sub (jf_entries parent) (jf_entries child) replaced_entries)
                                      JournalError.AccountingInvariant in
        let? next_parent_bytes := ok_or (add_sub (jf_bytes parent) (jf_bytes child) replaced_bytes)
                                    JournalError.AccountingInvariant in
        let? next_live := ok_or (checked_sub (live_entries j) replaced_entries) JournalError.AccountingInvariant in
        let? next_retained := ok_or (checked_sub (retained_bytes j) replaced_bytes)
                                JournalError.AccountingInvariant in
        let parent' := MkFrame (extend_writes (jf_writes parent) (jf_writes child))
                         next_parent_entries next_parent_bytes in
        Ok (MkJournal (j_context j) (j_snapshots j) (parent' :: below) (j_limits j)
              (total_frames_created j) next_live next_retained)
    | _ => Err JournalError.AccountingInvariant
    end.

Definition commit_frame : eff ExecutionJournalV1 JournalError.t unit := fun j =>
  match committed j with
  | Ok j' => (Ok tt, j')
  | Err e => (Err e, j)
  end.

(** ** finalize.rs *)

(** The domains in the order of their identifiers, which is the iteration
    order of the source's maps. *)
Definition all_domains : list CommitmentDomainId :=
  [DomNativeUtxo; DomEvm; DomWasm; DomExecutionAccounting; DomExecutionReceipts; DomAsyncOutbox;
   DomAsyncConsumed; DomFeeState].

Definition ordered_snapshots (m : gmap CommitmentDomainId DomainSnapshot)
  : list (CommitmentDomainId * DomainSnapshot) :=
  omap (fun d => match m !! d with Some s => Some (d, s) | None => None end) all_domains.

Definition key_le (a b : list byte * JournalValue) : Prop := bytes_cmp a.1 b.1 <> Gt.

#[global] Instance key_le_dec : RelDecision key_le.
Proof. intros a b. unfold key_le. apply _. Defined.

(** The writes of one domain in key order. *)
Definition domain_state_writes (m : gmap (list byte) JournalValue) : list StateWrite :=
  map (fun p => match p.2 with JPut bytes => StateWrite_put p.1 bytes | JDelete => StateWrite_delete p.1 end)
    (merge_sort key_le (map_to_list m)).

Section Finalize.
Context `{Blake3}.

(** The transition of one domain. *)
Definition domain_transition (source : StateSource) (d : CommitmentDomainId) (snapshot : DomainSnapshot)
    (m : gmap (list byte) JournalValue) : result JournalError.t StateTransition :=
  let? write_set := map_err JournalError.State (StateWriteSet_new d (domain_state_writes m)) in
  map_err JournalError.State (apply_write_set source snapshot write_set).

(** The loop over the snapshots: the writes left, the roots and the transitions. *)
Fixpoint finalize_domains (source : StateSource) (snapshots : list (CommitmentDomainId * DomainSnapshot))
    (writes : Writes)
  : result JournalError.t (Writes * list JournalDomainRootsV1 * list StateTransition) :=
  match snapshots with
  | [] => Ok (writes, [], [])
  | (d, snapshot) :: rest =>
      match writes !! d with
      | None =>
          let? (unused, roots, transitions) := finalize_domains source rest writes in
          Ok (unused, MkJournalRoots d (snap_root snapshot) (snap_root snapshot) :: roots, transitions)
      | Some m =>
          let? t := domain_transition source d snapshot m in
          let? (unused, roots, transitions) := finalize_domains source rest (delete d writes) in
          Ok (unused, MkJournalRoots d (snap_root snapshot) (new_root t) :: roots,
              if negb (bool_decide (new_root t = snap_root snapshot)) then t :: transitions else transitions)
      end
  end.

Definition finalize (source : StateSource) (j : ExecutionJournalV1) (intent : JournalIntentV1)
  : result JournalError.t JournalResultV1 :=
  match j_frames j with
  | [root_frame] =>
      if bool_decide (intent = IntentReverted) then
        Ok (MkJournalResult (j_context j)
              (map (fun '(_, s) => MkJournalRoots (snap_domain s) (snap_root s) (snap_root s))
                 (ordered_snapshots (j_snapshots j))) [])
      else
        let? (unused, roots, transitions) :=
          finalize_domains source (ordered_snapshots (j_snapshots j)) (jf_writes root_frame) in
        if negb (size unused =? 0)%nat then Err JournalError.AccountingInvariant
        else Ok (MkJournalResult (j_context j) roots transitions)
  | _ => Err JournalError.OpenChildFrames
  end.

End Finalize.

(** ** Accounting *)

Section Sums.
Context (f : list byte -> JournalValue -> Z).

(** The sum over all entries of a set of writes. *)
Definition wsum (w : Writes) : Z := msum (fun _ m => msum f m) w.

(** What the parent's entries under the keys of the child contribute. *)
Definition woverlap (parent child : Writes) : Z :=
  msum (fun d cw => moverlap f cw (default ∅ (parent !! d))) child.

Lemma wsum_insert_write w d key v :
  wsum (insert_write w d key v) =
  wsum w - match lookup_write w d key with Some old => f key old | None => 0 end + f key v.
Proof.
  unfold wsum, insert_write, lookup_write. rewrite msum_update, (msum_update f). unfold mget.
  destruct (w !! d) as [m|]; cbn; [destruct (m !! key); lia|]. rewrite lookup_empty, msum_empty. lia.
Qed.

Lemma wsum_extend_list (parent : Writes) (l : list (CommitmentDomainId * gmap (list byte) JournalValue)) (w : Writes) :
  NoDup l.*1 -> (forall p, p ∈ l -> w !! p.1 = parent !! p.1) ->
  wsum (foldl (fun (w : Writes) (p : CommitmentDomainId * gmap (list byte) JournalValue) =>
                 <[p.1 := p.2 ∪ default ∅ (w !! p.1)]> w) w l) =
  wsum w + foldr (fun p acc => msum f p.2 + acc) 0 l
         - foldr (fun p acc => moverlap f p.2 (default ∅ (parent !! p.1)) + acc) 0 l.
Proof.
  revert w. induction l as [|[d cw] l IH]; intros w HN HW; cbn [foldl foldr fst snd]; [lia|].
  apply NoDup_cons in HN as [Hd HN]. rewrite IH; [|done|].
  - pose proof (HW (d, cw) (list_elem_of_here _ _)) as E. cbn [fst] in E. rewrite E. unfold wsum.
    rewrite msum_update, msum_union. unfold mget. rewrite E.
    destruct (parent !! d) as [pw|]; cbn; rewrite ?msum_empty; lia.
  - intros [d' cw'] Hp. cbn [fst]. rewrite lookup_insert_ne.
    + apply (HW (d', cw')). by apply list_elem_of_further.
    + intros ->. apply Hd. apply list_elem_of_fmap. by exists (d', cw').
Qed.

Lemma wsum_extend parent child : wsum (extend_writes parent child) = wsum parent + wsum child - woverlap parent child.
Proof.
  unfold extend_writes. rewrite (wsum_extend_list parent); [|apply NoDup_fst_map_to_list|done].
  unfold woverlap, wsum. rewrite !msum_foldr. done.
Qed.

Lemma woverlap_le parent child :
  (forall k v, 0 <= f k v) -> 0 <= woverlap parent child <= wsum parent.
Proof.
  intros HF. unfold woverlap. split; [apply msum_nonneg; intros; by apply moverlap_le|].
  transitivity (moverlap (fun _ m => msum f m) child parent).
  - unfold moverlap at 2. induction child as [|d cw child Hd IH] using map_ind; [by rewrite !msum_empty|].
    rewrite !msum_insert by done. unfold mget at 1.
    assert (moverlap f cw (default ∅ (parent !! d)) <= match parent !! d with Some m => msum f m | None => 0 end); [|lia].
    destruct (parent !! d) as [pw|]; cbn; [by apply moverlap_le|].
    pose proof (moverlap_le f cw ∅ HF). rewrite msum_empty in *. lia.
  - apply moverlap_le. intros. by apply msum_nonneg.
Qed.

End Sums.

(** The two measures kept by the counters. *)
Definition one_entry (_ : list byte) (_ : JournalValue) : Z := 1.

Lemma entry_bytes_nonneg k v : 0 <= entry_bytes k v.
Proof. unfold entry_bytes, value_len. case_match; lia. Qed.

Lemma one_entry_nonneg k v : 0 <= one_entry k v.
Proof. done. Qed.

Lemma replaced_inner (pw : gmap (list byte) JournalValue) ks e b :
  0 <= e -> 0 <= b ->
  e + foldr (fun k acc => mget one_entry pw k + acc) 0 ks <= USIZE_MAX ->
  b + foldr (fun k acc => mget entry_bytes pw k + acc) 0 ks <= USIZE_MAX ->
  try_fold (replace_key pw) ks (e, b) =
  Ok (e + foldr (fun k acc => mget one_entry pw k + acc) 0 ks,
      b + foldr (fun k acc => mget entry_bytes pw k + acc) 0 ks).
Proof.
  revert e b. induction ks as [|k ks IH]; intros e b He Hb H1 H2; cbn [try_fold foldr] in *; [do 2 f_equal; lia|].
  assert (0 <= foldr (fun k acc => mget one_entry pw k + acc) 0 ks /\
          0 <= foldr (fun k acc => mget entry_bytes pw k + acc) 0 ks) as [G1 G2].
  { clear. induction ks as [|k ks IH]; cbn [foldr]; [done|].
    pose proof (mget_nonneg one_entry pw k one_entry_nonneg). pose proof (mget_nonneg entry_bytes pw k entry_bytes_nonneg). lia. }
  assert (mget one_entry pw k = match pw !! k with Some _ => 1 | None => 0 end) as M1 by done.
  assert (mget entry_bytes pw k = match pw !! k with Some v => entry_bytes k v | None => 0 end) as M2 by done.
  rewrite M1 in *. rewrite M2 in *. clear M1 M2. unfold replace_key at 1. destruct (pw !! k) as [v|] eqn:E.
  - pose proof (entry_bytes_nonneg k v). cbn [fst snd].
    assert (checked_add USIZE_MAX e 1 = Some (e + 1)) as -> by (apply checked_add_Some; lia).
    assert (checked_add USIZE_MAX b (entry_bytes k v) = Some (b + entry_bytes k v)) as -> by (apply checked_add_Some; lia).
    cbn [ok_or]. rewrite IH by lia. do 2 f_equal; lia.
  - rewrite IH by lia. do 2 f_equal; lia.
Qed.

Lemma moverlap_keys (f : list byte -> JournalValue -> Z) cw pw :
  moverlap f cw pw = foldr (fun k acc => mget f pw k + acc) 0 (map_to_list cw).*1.
Proof.
  unfold moverlap. rewrite msum_foldr. induction (map_to_list cw) as [|[k v] l IH]; [done|]. cbn. by rewrite IH.
Qed.

Lemma moverlap_nothing (f : list byte -> JournalValue -> Z) cw : moverlap f cw ∅ = 0.
Proof.
  rewrite moverlap_keys. induction ((map_to_list cw).*1) as [|k l IH]; [done|]. cbn [foldr]. rewrite IH.
  unfold mget. by rewrite lookup_empty.
Qed.

Lemma replaced_value parent child :
  woverlap one_entry parent child <= USIZE_MAX -> woverlap entry_bytes parent child <= USIZE_MAX ->
  replaced parent child = Ok (woverlap one_entry parent child, woverlap entry_bytes parent child).
Proof.
  unfold replaced, woverlap. rewrite !msum_foldr. intros H1 H2.
  cut (forall l e b, 0 <= e -> 0 <= b ->
    e + foldr (fun p acc => moverlap one_entry p.2 (default ∅ (parent !! p.1)) + acc) 0 l <= USIZE_MAX ->
    b + foldr (fun p acc => moverlap entry_bytes p.2 (default ∅ (parent !! p.1)) + acc) 0 l <= USIZE_MAX ->
    try_fold (replace_domain parent) l (e, b) =
    Ok (e + foldr (fun p acc => moverlap one_entry p.2 (default ∅ (parent !! p.1)) + acc) 0 l,
        b + foldr (fun p acc => moverlap entry_bytes p.2 (default ∅ (parent !! p.1)) + acc) 0 l)).
  { intros HC. by rewrite HC. }
  clear H1 H2. induction l as [|[d cw] l IH]; intros e b He Hb H1 H2; cbn [try_fold foldr fst snd] in *.
  { do 2 f_equal; lia. }
  pose proof (moverlap_le one_entry cw (default ∅ (parent !! d)) one_entry_nonneg) as [G1 _].
  pose proof (moverlap_le entry_bytes cw (default ∅ (parent !! d)) entry_bytes_nonneg) as [G2 _].
  assert (0 <= foldr (fun p acc => moverlap one_entry p.2 (default ∅ (parent !! p.1)) + acc) 0 l /\
          0 <= foldr (fun p acc => moverlap entry_bytes p.2 (default ∅ (parent !! p.1)) + acc) 0 l) as [G3 G4].
  { clear. induction l as [|[d cw] l IH]; cbn [foldr fst snd]; [done|].
    pose proof (moverlap_le one_entry cw (default ∅ (parent !! d)) one_entry_nonneg).
    pose proof (moverlap_le entry_bytes cw (default ∅ (parent !! d)) entry_bytes_nonneg). lia. }
  unfold replace_domain at 1. cbn [fst snd]. destruct (parent !! d) as [pw|] eqn:E.
  - change (default ∅ (Some pw)) with pw in *. rewrite !moverlap_keys in *. rewrite replaced_inner by lia.
    rewrite IH by lia. do 2 f_equal; lia.
  - change (default ∅ None) with (∅ : gmap (list byte) JournalValue) in *. rewrite !moverlap_nothing in *.
    rewrite IH by lia. do 2 f_equal; lia.
Qed.

(** ** The invariant *)

Definition limits_ok (l : JournalLimitsV1) : Prop :=
  0 < max_depth l <= MAX_JOURNAL_DEPTH /\ 0 < max_frames l <= MAX_JOURNAL_FRAMES /\
  0 < max_entries l <= MAX_JOURNAL_ENTRIES /\ 0 < max_bytes l <= MAX_JOURNAL_BYTES.

Definition frame_ok (f : JournalFrame) : Prop :=
  jf_entries f = wsum one_entry (jf_writes f) /\ jf_bytes f = wsum entry_bytes (jf_writes f).

Definition frames_entries (fs : list JournalFrame) : Z := foldr (fun f acc => jf_entries f + acc) 0 fs.
Definition frames_bytes (fs : list JournalFrame) : Z := foldr (fun f acc => jf_bytes f + acc) 0 fs.

(** Only configured domains are written. *)
Definition domains_ok (j : ExecutionJournalV1) : Prop :=
  Forall (fun f => forall d, is_Some (jf_writes f !! d) -> is_Some (j_snapshots j !! d)) (j_frames j).

Definition snapshots_ok (j : ExecutionJournalV1) : Prop :=
  forall d s, j_snapshots j !! d = Some s -> snap_domain s = d /\ validate_supported_domain d = Ok tt.

(** The counters are exact and within the limits. *)
Record journal_ok (j : ExecutionJournalV1) : Prop := MkJournalOk {
  ok_limits : limits_ok (j_limits j);
  ok_frames : j_frames j <> [];
  ok_frame_counts : Forall frame_ok (j_frames j);
  ok_live : live_entries j = frames_entries (j_frames j);
  ok_bytes : retained_bytes j = frames_bytes (j_frames j);
  ok_depth : 1 <= Z.of_nat (length (j_frames j)) <= max_depth (j_limits j);
  ok_created : 1 <= total_frames_created j <= max_frames (j_limits j);
  ok_entry_limit : live_entries j <= max_entries (j_limits j);
  ok_byte_limit : retained_bytes j <= max_bytes (j_limits j);
  ok_domains : domains_ok j;
  ok_snapshots : snapshots_ok j;
}.

Lemma wsum_nonneg f w : (forall k v, 0 <= f k v) -> 0 <= wsum f w.
Proof. intros HF. apply msum_nonneg. intros. by apply msum_nonneg. Qed.

Lemma frame_ok_nonneg f : frame_ok f -> 0 <= jf_entries f /\ 0 <= jf_bytes f.
Proof.
  intros [-> ->]. split; apply wsum_nonneg; [apply one_entry_nonneg|apply entry_bytes_nonneg].
Qed.

Lemma frames_nonneg fs : Forall frame_ok fs -> 0 <= frames_entries fs /\ 0 <= frames_bytes fs.
Proof.
  unfold frames_entries, frames_bytes. induction 1 as [|f fs Hf HF IH]; [done|].
  apply frame_ok_nonneg in Hf. cbn [foldr]. lia.
Qed.

Lemma JournalLimitsV1_new_ok d f e b l :
  0 <= d -> 0 <= f -> 0 <= e -> 0 <= b -> JournalLimitsV1_new d f e b = Ok l -> limits_ok l.
Proof.
  intros ? ? ? ?. unfold JournalLimitsV1_new. destruct (_ || _) eqn:E; [done|]. intros [= <-].
  rewrite !orb_false_iff in E. unfold limits_ok. cbn. lia.
Qed.

Lemma configure_ok snapshots m m' :
  try_fold configure snapshots m = Ok m' ->
  (forall d s, m !! d = Some s -> snap_domain s = d /\ validate_supported_domain d = Ok tt) ->
  forall d s, m' !! d = Some s -> snap_domain s = d /\ validate_supported_domain d = Ok tt.
Proof.
  revert m. induction snapshots as [|x l IH]; intros m; cbn [try_fold]; [by intros [= <-]|].
  unfold configure at 1. destruct (validate_supported_domain (snap_domain x)) as [[]|] eqn:EV; [|done].
  destruct (m !! snap_domain x); [done|]. intros HF HM. apply (IH _ HF).
  intros d s [[<- <-]|[_ ?]]%lookup_insert_Some; [done|by apply HM].
Qed.

Lemma journal_new_ok context snapshots limits j :
  limits_ok limits -> ExecutionJournalV1_new context snapshots limits = Ok j -> journal_ok j.
Proof.
  intros HL. unfold ExecutionJournalV1_new. destruct (_ =? _)%nat; [done|]. destruct (_ <? _)%nat; [done|].
  destruct (try_fold _ _ _) as [m|] eqn:EM; [|done]. intros [= <-].
  destruct HL as (? & ? & ? & ?) eqn:EL. split; cbn; try done; try lia.
  - repeat constructor.
  - constructor; [|constructor]. cbn. intros d. rewrite lookup_empty. by intros [? ?].
  - intros d s. cbn. apply (configure_ok _ _ _ EM). intros ? ?. by rewrite lookup_empty.
Qed.

(** ** Operations *)

Inductive journal_op : Type :=
| OpBegin | OpCommit | OpRevert
| OpPut (d : CommitmentDomainId) (key value : list byte)
| OpDelete (d : CommitmentDomainId) (key : list byte).

Definition run_jop (op : journal_op) : eff ExecutionJournalV1 JournalError.t unit :=
  match op with
  | OpBegin => begin_frame
  | OpCommit => commit_frame
  | OpRevert => revert_frame
  | OpPut d key value => put d key value
  | OpDelete d key => delete_key d key
  end.

(** The results of a sequence of operations and the journal after it. *)
Fixpoint run_jops (ops : list journal_op) (j : ExecutionJournalV1)
  : list (result JournalError.t unit) * ExecutionJournalV1 :=
  match ops with
  | [] => ([], j)
  | op :: ops =>
      let '(r, j1) := run_jop op j in
      let '(rs, j2) := run_jops ops j1 in
      (r :: rs, j2)
  end.

Lemma run_jop_atomic op j e j' : run_jop op j = (Err e, j') -> j' = j.
Proof.
  destruct op; cbn [run_jop]; unfold begin_frame, commit_frame, revert_frame, put, delete_key, stage_write;
    repeat case_match; naive_solver.
Qed.

(** *** Preservation *)

Lemma usize_of_limits l : limits_ok l ->
  max_depth l + 1 <= USIZE_MAX /\ max_frames l + 1 <= USIZE_MAX /\ 2 * max_entries l + 1 <= USIZE_MAX /\
  2 * max_bytes l + 2 * MAX_STATE_VALUE_BYTES <= USIZE_MAX.
Proof.
  unfold limits_ok, MAX_JOURNAL_DEPTH, MAX_JOURNAL_FRAMES, MAX_JOURNAL_ENTRIES, MAX_JOURNAL_BYTES, MAX_STATE_VALUE_BYTES.
  unfold_ints. lia.
Qed.

Definition good {A} (r : result JournalError.t A) : Prop := r <> Err JournalError.AccountingInvariant.

Lemma begin_ok j r j' : journal_ok j -> begin_frame j = (r, j') -> journal_ok j' /\ good r.
Proof.
  intros HJ. pose proof (usize_of_limits _ (ok_limits _ HJ)) as (U1 & U2 & _).
  pose proof (ok_depth _ HJ). pose proof (ok_created _ HJ). unfold begin_frame.
  assert (checked_add USIZE_MAX (Z.of_nat (length (j_frames j))) 1 = Some (Z.of_nat (length (j_frames j)) + 1)) as ->
    by (apply checked_add_Some; lia).
  destruct (_ >? max_depth _) eqn:E1; [by intros [= <- <-]|].
  assert (checked_add USIZE_MAX (total_frames_created j) 1 = Some (total_frames_created j + 1)) as ->
    by (apply checked_add_Some; lia).
  destruct (_ >? max_frames _) eqn:E2; [by intros [= <- <-]|]. intros [= <- <-]. split; [|done].
  destruct HJ. split; cbn; try done; try lia.
  - constructor; [done|done].
  - constructor; [|done]. cbn. intros d. rewrite lookup_empty. by intros [? ?].
Qed.

Lemma revert_ok j r j' : journal_ok j -> revert_frame j = (r, j') -> journal_ok j' /\ good r.
Proof.
  intros HJ. unfold revert_frame. destruct (Nat.eqb_spec (length (j_frames j)) 1); [by intros [= <- <-]|].
  pose proof HJ as [HL HN HC HE HB HD HT HEL HBL HO HS].
  destruct (j_frames j) as [|child below] eqn:EF; [done|]. apply Forall_cons in HC as [Hc HC].
  pose proof (frames_nonneg _ HC) as [G1 G2]. unfold frames_entries, frames_bytes in *. cbn [foldr length] in *.
  pose proof (frame_ok_nonneg _ Hc) as [G3 G4].
  assert (checked_sub (live_entries j) (jf_entries child) = Some (live_entries j - jf_entries child)) as ->
    by (apply checked_sub_Some; lia).
  assert (checked_sub (retained_bytes j) (jf_bytes child) = Some (retained_bytes j - jf_bytes child)) as ->
    by (apply checked_sub_Some; lia).
  intros [= <- <-]. split; [|done]. unfold domains_ok in HO. rewrite EF in HO. apply Forall_cons in HO as [_ HO].
  split; cbn; unfold frames_entries, frames_bytes; try done; try lia. intros ->. done.
Qed.

Lemma lookup_write_entries w d key old :
  lookup_write w d key = Some old -> 1 <= wsum one_entry w /\ entry_bytes key old <= wsum entry_bytes w.
Proof.
  intros HL. pose proof (wsum_insert_write one_entry w d key old) as E1.
  pose proof (wsum_insert_write entry_bytes w d key old) as E2. unfold lookup_write in HL.
  destruct (w !! d) as [m|] eqn:Ed; [|done]. unfold wsum.
  pose proof (mget_le (fun (_ : CommitmentDomainId) m => msum one_entry m) w d) as L1.
  pose proof (mget_le (fun (_ : CommitmentDomainId) m => msum entry_bytes m) w d) as L2.
  unfold mget in L1, L2. rewrite Ed in L1, L2.
  pose proof (mget_le one_entry m key one_entry_nonneg) as L3.
  pose proof (mget_le entry_bytes m key entry_bytes_nonneg) as L4. unfold mget in L3, L4. rewrite HL in L3, L4.
  unfold one_entry in L3 at 1. split.
  - transitivity (msum one_entry m); [done|]. apply L1. intros. by apply msum_nonneg.
  - transitivity (msum entry_bytes m); [done|]. apply L2. intros. apply msum_nonneg, entry_bytes_nonneg.
Qed.

Definition owned_value (value : option (list byte)) : JournalValue :=
  match value with Some v => JPut v | None => JDelete end.

Lemma configured_good j d e : configured_snapshot j d = Err e -> e <> JournalError.AccountingInvariant.
Proof. unfold configured_snapshot. destruct (j_snapshots j !! d); destruct d; cbn; naive_solver. Qed.

(** The two counter updates of [stage_write]. *)
Lemma bump_count {A E} (existing : option A) x (e : E) :
  x + 1 <= USIZE_MAX ->
  match existing with Some _ => Ok x | None => ok_or (checked_add USIZE_MAX x 1) e end =
  Ok (x + match existing with Some _ => 0 | None => 1 end).
Proof.
  intros. destruct existing; [f_equal; lia|]. by rewrite (proj2 (checked_add_Some USIZE_MAX x 1 (x + 1))) by lia.
Qed.

Lemma swap_bytes {E} total old new (e : E) :
  old <= total -> total - old + new <= USIZE_MAX ->
  ok_or (match checked_sub total old with Some b => checked_add USIZE_MAX b new | None => None end) e =
  Ok (total - old + new).
Proof.
  intros. rewrite (proj2 (checked_sub_Some total old (total - old))) by lia.
  by rewrite (proj2 (checked_add_Some USIZE_MAX (total - old) new (total - old + new))) by lia.
Qed.

Lemma domains_ok_staged j top below d key v t l b entries bytes :
  domains_ok j -> j_frames j = top :: below -> is_Some (j_snapshots j !! d) ->
  domains_ok (MkJournal (j_context j) (j_snapshots j)
    (MkFrame (insert_write (jf_writes top) d key v) entries bytes :: below) (j_limits j) t l b).
Proof.
  unfold domains_ok. intros HO EF Hd. rewrite EF in HO. cbn. apply Forall_cons in HO as [HO1 HO2].
  constructor; [|done]. cbn. intros d'. unfold insert_write. rewrite lookup_insert_is_Some'.
  intros [->|?]; [done|by apply HO1].
Qed.

Lemma staged_spec j d key value :
  journal_ok j ->
  match staged j d key value with
  | Err e => e <> JournalError.AccountingInvariant
  | Ok j' => journal_ok j' /\ exists top below entries bytes, j_frames j = top :: below /\
      j_frames j' = MkFrame (insert_write (jf_writes top) d key (owned_value value)) entries bytes :: below /\
      j_snapshots j' = j_snapshots j
  end.
Proof.
  intros HJ. pose proof (usize_of_limits _ (ok_limits _ HJ)) as (_ & _ & U3 & U4).
  pose proof HJ as [HL HN HC HE HB HD HT HEL HBL HO HS]. unfold staged.
  destruct (configured_snapshot j d) as [snap|e] eqn:ES; [|by apply configured_good in ES].
  assert (is_Some (j_snapshots j !! d)) as Hd.
  { unfold configured_snapshot in ES. destruct (validate_supported_domain d); [|done]. apply ok_or_Ok in ES. eauto. }
  unfold validate_key. destruct (_ >? MAX_STATE_KEY_BYTES) eqn:EK; [done|].
  set (vlen := match value with Some v => Z.of_nat (length v) | None => 0 end).
  destruct (match value with Some v => validate_value v | None => Ok tt end) as [u|e] eqn:EV.
  2: { destruct value as [v|]; [|done]. unfold validate_value in EV. by destruct (Z.of_nat (length v) >? _); simplify_eq/=. }
  assert (0 <= vlen <= MAX_STATE_VALUE_BYTES) as HV.
  { unfold vlen. destruct value as [v|]; [|done]. unfold validate_value in EV.
    destruct (Z.of_nat (length v) >? _) eqn:E; [done|]. lia. }
  assert (entry_bytes key (owned_value value) = Z.of_nat (length key) + vlen) as EO
    by (unfold entry_bytes, vlen, owned_value; by destruct value).
  destruct (j_frames j) as [|top below] eqn:EF; [done|].
  apply Forall_cons in HC as [Hc HC]. pose proof (frames_nonneg _ HC) as [G1 G2].
  unfold frames_entries, frames_bytes in *. cbn [foldr length] in *. pose proof (frame_ok_nonneg _ Hc) as [G3 G4].
  destruct Hc as [Hc1 Hc2]. cbv zeta. unfold MAX_STATE_KEY_BYTES, MAX_STATE_VALUE_BYTES in *.
  pose proof (wsum_insert_write one_entry (jf_writes top) d key (owned_value value)) as W1.
  pose proof (wsum_insert_write entry_bytes (jf_writes top) d key (owned_value value)) as W2.
  pose proof (lookup_write_entries (jf_writes top) d key) as HX.
  set (existing := lookup_write (jf_writes top) d key) in *.
  set (old := match existing with Some old => entry_bytes key old | None => 0 end) in *.
  set (more := match existing with Some _ => 0 | None => 1 end).
  assert (0 <= old <= jf_bytes top) as Hold.
  { unfold old. destruct existing as [o|]; [|lia]. pose proof (entry_bytes_nonneg key o). destruct (HX o eq_refl). lia. }
  assert (0 <= more <= 1) as Hmore by (unfold more; destruct existing; lia).
  assert (wsum one_entry (insert_write (jf_writes top) d key (owned_value value)) = jf_entries top + more) as W3.
  { rewrite W1. unfold more, one_entry at 2 3. destruct existing; lia. }
  rewrite (proj2 (checked_add_Some USIZE_MAX (Z.of_nat (length key)) vlen _)) by (split; [done|lia]). cbn [ok_or].
  rewrite bump_count by lia. fold more.
  destruct (live_entries j + more >? max_entries (j_limits j)) eqn:E1; [done|]. rewrite swap_bytes by lia.
  destruct (retained_bytes j - old + _ >? max_bytes _) eqn:E2; [done|].
  rewrite bump_count by lia. fold more. rewrite swap_bytes by lia.
  split; [|by eexists top, below, _, _].
  split; cbn; unfold frames_entries, frames_bytes; try done; try lia.
  - constructor; [|done]. split; cbn; fold (owned_value value); lia.
  - by apply domains_ok_staged.
Qed.

Lemma extend_lookup_list (l : list (CommitmentDomainId * gmap (list byte) JournalValue)) (w : Writes) d key :
  NoDup l.*1 ->
  lookup_write (foldl (fun (w : Writes) (p : CommitmentDomainId * gmap (list byte) JournalValue) =>
                 <[p.1 := p.2 ∪ default ∅ (w !! p.1)]> w) w l) d key =
  match (list_to_map l : Writes) !! d with
  | Some cw => match cw !! key with Some v => Some v | None => lookup_write w d key end
  | None => lookup_write w d key
  end.
Proof.
  revert w. induction l as [|[d' cw] l IH]; intros w HN; cbn [foldl list_to_map fst snd].
  { cbn. by rewrite lookup_empty. }
  apply NoDup_cons in HN as [Hd HN]. rewrite IH by done. cbn [list_to_map foldr].
  change (list_to_map ((d', cw) :: l) : Writes) with (<[d' := cw]> (list_to_map l) : Writes).
  unfold lookup_write. destruct (decide (d' = d)) as [->|Hne].
  - rewrite !lookup_insert_eq. rewrite not_elem_of_list_to_map_1 by done. rewrite lookup_union.
    cbn [snd]. destruct (cw !! key); [by destruct (default ∅ (w !! d) !! key)|].
    rewrite (left_id_L None (∪)). destruct (w !! d); [done|apply lookup_empty].
  - by rewrite !lookup_insert_ne by done.
Qed.

Lemma extend_lookup parent child d key :
  lookup_write (extend_writes parent child) d key =
  match lookup_write child d key with Some v => Some v | None => lookup_write parent d key end.
Proof.
  unfold extend_writes. rewrite extend_lookup_list by apply NoDup_fst_map_to_list.
  rewrite list_to_map_to_list. unfold lookup_write at 3. by destruct (child !! d).
Qed.

Lemma extend_domains_list (l : list (CommitmentDomainId * gmap (list byte) JournalValue)) (w : Writes) d :
  is_Some (foldl (fun (w : Writes) (p : CommitmentDomainId * gmap (list byte) JournalValue) =>
                 <[p.1 := p.2 ∪ default ∅ (w !! p.1)]> w) w l !! d) ->
  is_Some (w !! d) \/ d ∈ l.*1.
Proof.
  revert w. induction l as [|[d' cw] l IH]; intros w; cbn [foldl fst snd]; [by left|].
  intros [HS|HI]%IH; [|right; by apply list_elem_of_further].
  apply lookup_insert_is_Some' in HS as [->|HS]; [right; apply list_elem_of_here|by left].
Qed.

Lemma extend_domains parent child d :
  is_Some (extend_writes parent child !! d) -> is_Some (parent !! d) \/ is_Some (child !! d).
Proof.
  intros [HS|HI]%extend_domains_list; [by left|right].
  apply list_elem_of_fmap in HI as ([d' cw] & -> & HI). apply elem_of_map_to_list in HI. eauto.
Qed.

Lemma commit_spec j :
  journal_ok j ->
  match committed j with
  | Err e => e <> JournalError.AccountingInvariant
  | Ok j' => journal_ok j' /\ exists child parent below entries bytes, j_frames j = child :: parent :: below /\
      j_frames j' = MkFrame (extend_writes (jf_writes parent) (jf_writes child)) entries bytes :: below /\
      j_snapshots j' = j_snapshots j
  end.
Proof.
  intros HJ. pose proof (usize_of_limits _ (ok_limits _ HJ)) as (_ & _ & U3 & U4).
  pose proof HJ as [HL HN HC HE HB HD HT HEL HBL HO HS]. unfold committed.
  destruct (Nat.eqb_spec (length (j_frames j)) 1) as [|HLn]; [done|].
  destruct (j_frames j) as [|child [|parent below]] eqn:EF; [done..|].
  apply Forall_cons in HC as [Hc HC]. apply Forall_cons in HC as [Hp HC].
  pose proof (frames_nonneg _ HC) as [G1 G2]. unfold frames_entries, frames_bytes in *. cbn [foldr length] in *.
  pose proof (frame_ok_nonneg _ Hc) as [G3 G4]. pose proof (frame_ok_nonneg _ Hp) as [G5 G6].
  destruct Hc as [Hc1 Hc2], Hp as [Hp1 Hp2].
  pose proof (woverlap_le one_entry (jf_writes parent) (jf_writes child) one_entry_nonneg) as O1.
  pose proof (woverlap_le entry_bytes (jf_writes parent) (jf_writes child) entry_bytes_nonneg) as O2.
  unfold MAX_STATE_VALUE_BYTES in *. rewrite replaced_value by lia. unfold add_sub.
  rewrite (proj2 (checked_add_Some USIZE_MAX (jf_entries parent) (jf_entries child) _)) by (split; [done|lia]).
  rewrite (proj2 (checked_sub_Some (jf_entries parent + jf_entries child) _ _)) by (split; [done|lia]). cbn [ok_or].
  rewrite (proj2 (checked_add_Some USIZE_MAX (jf_bytes parent) (jf_bytes child) _)) by (split; [done|lia]).
  rewrite (proj2 (checked_sub_Some (jf_bytes parent + jf_bytes child) _ _)) by (split; [done|lia]). cbn [ok_or].
  rewrite (proj2 (checked_sub_Some (live_entries j) _ _)) by (split; [done|lia]). cbn [ok_or].
  rewrite (proj2 (checked_sub_Some (retained_bytes j) _ _)) by (split; [done|lia]). cbn [ok_or].
  pose proof (wsum_extend one_entry (jf_writes parent) (jf_writes child)).
  pose proof (wsum_extend entry_bytes (jf_writes parent) (jf_writes child)).
  split; [|by eexists child, parent, below, _, _].
  split; cbn; unfold frames_entries, frames_bytes; try done; try lia.
  - constructor; [|done]. split; cbn; lia.
  - unfold domains_ok in *. rewrite EF in HO. apply Forall_cons in HO as [HO1 HO]. apply Forall_cons in HO as [HO2 HO].
    cbn. constructor; [|done]. cbn. intros d [?|?]%extend_domains; [by apply HO2|by apply HO1].
Qed.

(** Every operation keeps the invariant and never reports a broken count. *)
Lemma run_jop_ok op j r j' : journal_ok j -> run_jop op j = (r, j') -> journal_ok j' /\ good r.
Proof.
  intros HJ. destruct op as [| | |d key v|d key]; cbn [run_jop]; [by apply begin_ok| |by apply revert_ok| |].
  - unfold commit_frame. pose proof (commit_spec j HJ) as HC. destruct (committed j); intros [= <- <-];
      [split; [apply HC|done]|split; [done|]; by intros [= ->]].
  - unfold put, stage_write. pose proof (staged_spec j d key (Some v) HJ) as HC. destruct (staged j d key (Some v));
      intros [= <- <-]; [split; [apply HC|done]|split; [done|]; by intros [= ->]].
  - unfold delete_key, stage_write. pose proof (staged_spec j d key None HJ) as HC. destruct (staged j d key None);
      intros [= <- <-]; [split; [apply HC|done]|split; [done|]; by intros [= ->]].
Qed.

Lemma run_jops_ok ops j rs j' : journal_ok j -> run_jops ops j = (rs, j') -> journal_ok j' /\ Forall good rs.
Proof.
  revert j rs. induction ops as [|op ops IH]; intros j rs HJ; cbn [run_jops]; [intros [= <- <-]; by split|].
  destruct (run_jop op j) as [r j1] eqn:E1. destruct (run_jops ops j1) as [rs' j2] eqn:E2. intros [= <- <-].
  apply run_jop_ok in E1 as [HJ1 Hr]; [|done]. apply IH in E2 as [? ?]; [|done]. split; [done|by constructor].
Qed.

(** ** The abstract journal: a stack of complete copies *)

Definition overlay : Type := CommitmentDomainId -> list byte -> option JournalValue.

Definition overlay_set (o : overlay) (d : CommitmentDomainId) (key : list byte) (v : JournalValue) : overlay :=
  fun d' key' => if bool_decide (d' = d /\ key' = key) then Some v else o d' key'.

(** Opening a frame copies the current state, committing it keeps the copy in
    place of the one below, reverting it drops the copy. *)
Definition abs_step (op : journal_op) (s : list overlay) : list overlay :=
  match op, s with
  | OpBegin, top :: rest => top :: top :: rest
  | OpCommit, top :: _ :: rest => top :: rest
  | OpRevert, _ :: rest => rest
  | OpPut d key v, top :: rest => overlay_set top d key (JPut v) :: rest
  | OpDelete d key, top :: rest => overlay_set top d key JDelete :: rest
  | _, [] | OpCommit, [_] => s
  end.

(** The abstract run of the operations that succeeded. *)
Fixpoint abs_run (ops : list journal_op) (rs : list (result JournalError.t unit)) (s : list overlay) : list overlay :=
  match ops, rs with
  | op :: ops, r :: rs => abs_run ops rs (if is_ok r then abs_step op s else s)
  | _, _ => s
  end.

(** Overlays are compared pointwise. *)
Definition overlay_eq (a b : overlay) : Prop := forall d key, a d key = b d key.
Definition stack_eq : list overlay -> list overlay -> Prop := Forall2 overlay_eq.

#[global] Instance overlay_eq_equiv : Equivalence overlay_eq.
Proof.
  split; [by intros a d k|by intros a b HE d k|]. intros a b c H1 H2 d k. by rewrite H1.
Qed.

#[global] Instance stack_eq_equiv : Equivalence stack_eq.
Proof. unfold stack_eq. apply _. Qed.

#[global] Instance overlay_set_proper : Proper (overlay_eq ==> eq ==> eq ==> eq ==> overlay_eq) overlay_set.
Proof. intros a b HE d ? <- k ? <- v ? <- d' k'. unfold overlay_set. case_bool_decide; [done|apply HE]. Qed.

#[global] Instance abs_step_proper : Proper (eq ==> stack_eq ==> stack_eq) abs_step.
Proof.
  intros op ? <- s1 s2 HS. destruct HS as [|a b s1 s2 HA HS]; [by destruct op|].
  destruct op; cbn [abs_step]; try done.
  - by repeat constructor.
  - destruct HS as [|a' b' s1 s2 HA' HS]; [by constructor|]. by constructor.
  - constructor; [|done]. by rewrite HA.
  - constructor; [|done]. by rewrite HA.
Qed.

#[global] Instance abs_run_proper : Proper (eq ==> eq ==> stack_eq ==> stack_eq) abs_run.
Proof.
  intros ops ? <- rs ? <-. revert rs. induction ops as [|op ops IH]; intros [|r rs] s1 s2 HS; try done.
  cbn [abs_run]. apply IH. destruct (is_ok r); [by rewrite HS|done].
Qed.

(** What each level of the journal shows. *)
Fixpoint views (fs : list JournalFrame) : list overlay :=
  match fs with
  | [] => []
  | _ :: rest => lookup_frames fs :: views rest
  end.

Lemma lookup_insert_write w d key v d' key' :
  lookup_write (insert_write w d key v) d' key' =
  if bool_decide (d' = d /\ key' = key) then Some v else lookup_write w d' key'.
Proof.
  unfold lookup_write, insert_write. destruct (decide (d' = d)) as [->|Hd].
  - rewrite lookup_insert_eq. destruct (decide (key' = key)) as [->|Hk].
    + rewrite lookup_insert_eq. by rewrite bool_decide_true.
    + rewrite lookup_insert_ne by done. rewrite bool_decide_false by naive_solver.
      destruct (w !! d); [done|apply lookup_empty].
  - rewrite lookup_insert_ne by done. by rewrite bool_decide_false by naive_solver.
Qed.

Lemma views_set top below d key v entries bytes :
  stack_eq (views (MkFrame (insert_write (jf_writes top) d key v) entries bytes :: below))
    (overlay_set (lookup_frames (top :: below)) d key v :: views below).
Proof.
  constructor; [|reflexivity]. intros d' key'. cbn [lookup_frames jf_writes]. rewrite lookup_insert_write.
  unfold overlay_set. by case_bool_decide.
Qed.

(** A successful operation is the abstract one on the views. *)
Lemma views_step op j j' :
  journal_ok j -> run_jop op j = (Ok tt, j') ->
  stack_eq (views (j_frames j')) (abs_step op (views (j_frames j))) /\ j_snapshots j' = j_snapshots j.
Proof.
  intros HJ. pose proof (ok_frames _ HJ) as HN. destruct op as [| | |d key v|d key]; cbn [run_jop].
  - unfold begin_frame. repeat case_match; try done. intros [= <-]. split; [|done]. cbn [j_frames].
    destruct (j_frames j) as [|f fs]; [done|]. cbn [views abs_step]. constructor; [|reflexivity].
    intros d key. cbn [lookup_frames jf_writes JournalFrame_default]. unfold lookup_write at 1. by rewrite lookup_empty.
  - unfold commit_frame. pose proof (commit_spec j HJ) as HC. destruct (committed j) as [j1|]; [|done]. intros [= <-].
    destruct HC as (_ & child & parent & below & e & b & -> & -> & ->). split; [|done]. cbn [views abs_step].
    constructor; [|reflexivity]. intros d key. cbn [lookup_frames jf_writes]. rewrite extend_lookup.
    by destruct (lookup_write (jf_writes child) d key).
  - unfold revert_frame. repeat case_match; try done. intros [= <-]. cbn [views abs_step j_frames j_snapshots]. by split.
  - unfold put, stage_write. pose proof (staged_spec j d key (Some v) HJ) as HC.
    destruct (staged _ _ _ _) as [j1|]; [|done]. intros [= <-]. destruct HC as (_ & top & below & e & b & -> & -> & ->).
    split; [apply views_set|done].
  - unfold delete_key, stage_write. pose proof (staged_spec j d key None HJ) as HC.
    destruct (staged _ _ _ _) as [j1|]; [|done]. intros [= <-]. destruct HC as (_ & top & below & e & b & -> & -> & ->).
    split; [apply views_set|done].
Qed.

Lemma views_run ops j rs j' :
  journal_ok j -> run_jops ops j = (rs, j') ->
  stack_eq (views (j_frames j')) (abs_run ops rs (views (j_frames j))) /\ j_snapshots j' = j_snapshots j.
Proof.
  revert j rs. induction ops as [|op ops IH]; intros j rs HJ; cbn [run_jops]; [by intros [= <- <-]|].
  destruct (run_jop op j) as [r j1] eqn:E1. destruct (run_jops ops j1) as [rs' j2] eqn:E2. intros [= <- <-].
  pose proof (run_jop_ok _ _ _ _ HJ E1) as [HJ1 _]. destruct (IH _ _ HJ1 E2) as [HV HS]. cbn [abs_run].
  destruct r as [[]|e]; cbn [is_ok].
  - destruct (views_step _ _ _ HJ E1) as [HV1 HS1]. split; [|congruence]. by rewrite HV, HV1.
  - apply run_jop_atomic in E1 as ->. done.
Qed.

Lemma run_jop_limits op j r j' : run_jop op j = (r, j') -> j_limits j' = j_limits j.
Proof.
  destruct op as [| | |d key v|d key]; cbn [run_jop]; unfold begin_frame, commit_frame, revert_frame, put, delete_key, stage_write.
  - repeat case_match; by intros [= <- <-].
  - destruct (committed j) as [j1|] eqn:E; intros [= <- <-]; [|done]. unfold committed in E. by repeat case_match; simplify_eq/=.
  - repeat case_match; by intros [= <- <-].
  - destruct (staged _ _ _ _) as [j1|] eqn:E; intros [= <- <-]; [|done]. unfold staged in E. by repeat case_match; simplify_eq/=.
  - destruct (staged _ _ _ _) as [j1|] eqn:E; intros [= <- <-]; [|done]. unfold staged in E. by repeat case_match; simplify_eq/=.
Qed.

Lemma run_jops_limits ops j rs j' : run_jops ops j = (rs, j') -> j_limits j' = j_limits j.
Proof.
  revert j rs. induction ops as [|op ops IH]; intros j rs; cbn [run_jops]; [by intros [= <- <-]|].
  destruct (run_jop op j) as [r j1] eqn:E1. destruct (run_jops ops j1) as [rs' j2] eqn:E2. intros [= <- <-].
  apply run_jop_limits in E1. apply IH in E2. congruence.
Qed.

Lemma journal_new_frames context snapshots limits j :
  ExecutionJournalV1_new context snapshots limits = Ok j -> j_frames j = [JournalFrame_default].
Proof.
  unfold ExecutionJournalV1_new. destruct (_ =? _)%nat; [done|]. destruct (_ <? _)%nat; [done|].
  destruct (try_fold _ _ _); [|done]. by intros [= <-].
Qed.

Lemma views_top fs f rest : fs = f :: rest -> head (views fs) = Some (lookup_frames fs).
Proof. by intros ->. Qed.

(** ** Finalisation *)

Fixpoint find_transition (d : CommitmentDomainId) (ts : list StateTransition) : option StateTransition :=
  match ts with
  | [] => None
  | t :: ts => if bool_decide (tr_domain t = d) then Some t else find_transition d ts
  end.

(** The store of a domain once the transitions of a result are stored. *)
Definition store_after (source : StateSource) (r : JournalResultV1) (d : CommitmentDomainId) : StateSource :=
  match find_transition d (res_transitions r) with
  | Some t => commit source (tr_nodes t) (tr_values t)
  | None => source
  end.

(** The writes of the bottom frame for one domain. *)
Definition root_writes (j : ExecutionJournalV1) (d : CommitmentDomainId) : gmap (list byte) JournalValue :=
  match last (j_frames j) with Some f => default ∅ (jf_writes f !! d) | None => ∅ end.

Section FinalizeFacts.
Context `{Blake3} (source : StateSource).

Lemma domain_transition_inv d s m t :
  snap_domain s = d -> domain_transition source d s m = Ok t ->
  tr_domain t = d /\ exists ws, StateWriteSet_new d (domain_state_writes m) = Ok ws /\
    apply_write_set source (MkDomainSnapshot d (snap_root s)) ws = Ok t.
Proof.
  intros Hd. unfold domain_transition. destruct (StateWriteSet_new _ _) as [ws|] eqn:EW; [cbn [map_err]|done].
  intros HA%map_err_Ok. destruct s as [d' root]. cbn in Hd. subst d'. split; [|by exists ws].
  unfold apply_write_set in HA. cbn [snap_domain snap_root] in HA. destruct (negb _); [done|].
  destruct (_ =? _)%nat; [by injection HA as <-|]. destruct (apply_subtree _ _ _ _ _ _ _) as [[]]; by simplify_eq/=.
Qed.

Lemma finalize_domains_other l w u roots ts d :
  Forall (fun p => snap_domain p.2 = p.1) l -> d ∉ l.*1 ->
  finalize_domains source l w = Ok (u, roots, ts) -> find_transition d ts = None.
Proof.
  intros HF. revert w u roots ts. induction HF as [|[d' s] l Hs HF IH]; intros w u roots ts Hd; cbn [finalize_domains].
  { by intros [= <- <- <-]. }
  cbn [fmap list_fmap fst] in Hd. apply not_elem_of_cons in Hd as [Hne Hd].
  destruct (w !! d') as [m|].
  - destruct (domain_transition _ _ _ _) as [t|] eqn:ET; [|done]. apply domain_transition_inv in ET as [ET _]; [|done].
    destruct (finalize_domains _ _ _) as [[[u' roots'] ts']|] eqn:EF; [|done]. intros [= <- <- <-].
    destruct (negb _); [|by eapply IH]. cbn [find_transition]. rewrite bool_decide_false by congruence. by eapply IH.
  - destruct (finalize_domains _ _ _) as [[[u' roots'] ts']|] eqn:EF; [|done]. intros [= <- <- <-]. by eapply IH.
Qed.

Lemma finalize_domains_spec l w u roots ts d s :
  Forall (fun p => snap_domain p.2 = p.1) l -> NoDup l.*1 ->
  finalize_domains source l w = Ok (u, roots, ts) -> (d, s) ∈ l ->
  exists new, MkJournalRoots d (snap_root s) new ∈ roots /\
    match w !! d with
    | None => new = snap_root s /\ find_transition d ts = None
    | Some m => exists t, domain_transition source d s m = Ok t /\ new = new_root t /\
        find_transition d ts = if bool_decide (new_root t = snap_root s) then None else Some t
    end.
Proof.
  intros HF. revert w u roots ts. induction HF as [|[d' s'] l Hs HF IH]; intros w u roots ts HN; cbn [finalize_domains].
  { intros _ HE. by apply not_elem_of_nil in HE. }
  cbn [fmap list_fmap fst] in HN. apply NoDup_cons in HN as [Hd HN]. intros HR HE. apply elem_of_cons in HE as [HE|HE].
  - injection HE as -> ->. destruct (w !! d') as [m|].
    + destruct (domain_transition _ _ _ _) as [t|] eqn:ET; [|done].
      destruct (finalize_domains _ _ _) as [[[u' roots'] ts']|] eqn:EF; [|done]. injection HR as <- <- <-.
      pose proof (finalize_domains_other _ _ _ _ _ d' HF Hd EF) as HO.
      exists (new_root t). split; [apply list_elem_of_here|]. exists t. split_and!; [done..|].
      case_bool_decide; cbn [negb]; [done|]. cbn [find_transition]. rewrite bool_decide_true; [done|].
      by apply domain_transition_inv in ET as [? _].
    + destruct (finalize_domains _ _ _) as [[[u' roots'] ts']|] eqn:EF; [|done]. injection HR as <- <- <-.
      exists (snap_root s'). split; [apply list_elem_of_here|]. split; [done|]. by eapply finalize_domains_other.
  - assert (d <> d') as Hne. { intros ->. apply Hd. apply list_elem_of_fmap. by exists (d', s). }
    destruct (w !! d') as [m|].
    + destruct (domain_transition source d' s' m) as [t|] eqn:ET; [|done].
      destruct (finalize_domains _ _ _) as [[[u' roots'] ts']|] eqn:EF; [|done]. injection HR as <- <- <-.
      destruct (IH _ _ _ _ HN EF HE) as (new & HI & HM). rewrite lookup_delete_ne in HM by done.
      exists new. split; [by apply list_elem_of_further|].
      apply domain_transition_inv in ET as [ET _]; [|done].
      assert (forall X, find_transition d (if X : bool then t :: ts' else ts') = find_transition d ts') as ->; [|done].
      intros []; [|done]. cbn [find_transition]. by rewrite bool_decide_false by congruence.
    + destruct (finalize_domains _ _ _) as [[[u' roots'] ts']|] eqn:EF; [|done]. injection HR as <- <- <-.
      destruct (IH _ _ _ _ HN EF HE) as (new & HI & HM). exists new. split; [by apply list_elem_of_further|done].
Qed.

Lemma ordered_snapshots_elem m d s : (d, s) ∈ ordered_snapshots m <-> m !! d = Some s.
Proof.
  unfold ordered_snapshots. rewrite list_elem_of_omap. split.
  - intros (d' & _ & E). destruct (m !! d') eqn:Em; by simplify_eq/=.
  - intros E. exists d. split; [destruct d; set_solver|]. by rewrite E.
Qed.

Lemma ordered_snapshots_nodup m : NoDup (ordered_snapshots m).*1.
Proof.
  unfold ordered_snapshots. assert (NoDup all_domains) as HN by (by apply (bool_decide_unpack _)).
  induction HN as [|d l Hd HN IH]; [constructor|]. cbn [omap list_omap]. destruct (m !! d) as [s|]; [|done].
  cbn [fmap list_fmap fst]. constructor; [|done]. intros ([d' s'] & -> & HI)%list_elem_of_fmap.
  apply list_elem_of_omap in HI as (d'' & HI & E). destruct (m !! d''); by simplify_eq/=.
Qed.

(** What the writes of a domain request for a key. *)
Lemma requested_writes (d : CommitmentDomainId) (key : list byte) (path : Hash256) (m : gmap (list byte) JournalValue) :
  path_key d key = Ok path ->
  (forall key', is_Some (m !! key') -> path_key d key' = Ok path -> key' = key) ->
  requested d path (domain_state_writes m) =
  match m !! key with Some (JPut bytes) => Some (Some bytes) | Some JDelete => Some None | None => None end.
Proof.
  intros EK HK. unfold domain_state_writes.
  assert (merge_sort key_le (map_to_list m) ≡ₚ map_to_list m) as HP by apply merge_sort_Permutation.
  assert (NoDup (merge_sort key_le (map_to_list m)).*1) as HN by (rewrite HP; apply NoDup_fst_map_to_list).
  assert (list_to_map (merge_sort key_le (map_to_list m)) = m) as HM.
  { rewrite (list_to_map_proper _ (map_to_list m) HN HP). apply list_to_map_to_list. }
  assert (forall p, p ∈ merge_sort key_le (map_to_list m) -> path_key d p.1 = Ok path -> p.1 = key) as HE.
  { intros [k v] Hp. apply HK. cbn. rewrite HP in Hp. apply elem_of_map_to_list in Hp. eauto. }
  clear HP HK HN. generalize dependent (merge_sort key_le (map_to_list m)). intros l HM HE. subst m.
  induction l as [|[k v] l IH]; [done|].
  change (list_to_map ((k, v) :: l) : gmap (list byte) JournalValue) with (<[k := v]> (list_to_map l) : gmap (list byte) JournalValue).
  specialize (IH (fun p Hp => HE p (list_elem_of_further _ _ _ Hp))). cbn [map requested].
  destruct (decide (k = key)) as [->|Hk].
  - rewrite lookup_insert_eq. destruct v; unfold StateWrite_put, StateWrite_delete; cbn [fst snd sw_key sw_value]; by rewrite EK, bool_decide_true.
  - rewrite lookup_insert_ne, <- IH by done. specialize (HE (k, v) (list_elem_of_here _ _)). cbn [fst] in HE.
    destruct v; unfold StateWrite_put, StateWrite_delete; cbn [fst snd sw_key sw_value];
      (destruct (path_key d k) as [p|]; [rewrite bool_decide_false; [done|intros ->; by apply Hk, HE]|done]).
Qed.

Lemma ordered_snapshots_ok j : journal_ok j -> Forall (fun p => snap_domain p.2 = p.1) (ordered_snapshots (j_snapshots j)).
Proof.
  intros HJ. apply Forall_forall. intros [d s] HI%ordered_snapshots_elem. by apply (ok_snapshots _ HJ) in HI as [? _].
Qed.

(** Storing an empty transition changes nothing. *)
Lemma commit_nothing : commit source ∅ ∅ = source.
Proof. by destruct source. Qed.

Lemma unchanged_transition d root ws t :
  ws_domain ws = d -> Forall (prepared_ok d) (ws_writes ws) ->
  apply_write_set source (MkDomainSnapshot d root) ws = Ok t -> new_root t = root ->
  collision_free (store_message source d (ws_writes ws) (transition_log source root ws)) ->
  commit source (tr_nodes t) (tr_values t) = source.
Proof.
  intros ED HO HA HR NC. apply apply_write_set_log in HA as (HS & -> & ->); [|done]. rewrite HR in HS.
  pose proof (subtree_log_ok _ _ _ _ _ _ _ HO HS) as HL.
  assert (transition_log source root ws = []) as ->; [|apply commit_nothing].
  by eapply (subtree_unchanged source d (ws_writes ws) (transition_log source root ws)).
Qed.

(** One domain: the key reads under the new root as it read in the journal. *)
Lemma finalize_domain_reads j f d s roots ts new key v context :
  j_frames j = [f] -> j_snapshots j !! d = Some s -> snap_domain s = d ->
  match jf_writes f !! d with
  | None => new = snap_root s /\ find_transition d ts = None
  | Some m => exists t, domain_transition source d s m = Ok t /\ new = new_root t /\
      find_transition d ts = if bool_decide (new_root t = snap_root s) then None else Some t
  end ->
  (forall ws, StateWriteSet_new d (domain_state_writes (default ∅ (jf_writes f !! d))) = Ok ws ->
     collision_free (store_message source d (ws_writes ws) (transition_log source (snap_root s) ws))) ->
  (forall key', is_Some (default ∅ (jf_writes f !! d) !! key') -> path_key d key' = path_key d key -> key' = key) ->
  journal_read source j d key = Ok v ->
  read_value (store_after source (MkJournalResult context roots ts) d) (MkDomainSnapshot d new) key = Ok v.
Proof.
  intros EF HS Hd HM NC HK HR. unfold store_after. cbn [res_transitions].
  assert (s = MkDomainSnapshot d (snap_root s)) as Es by (destruct s; cbn in *; by subst).
  unfold journal_read in HR. unfold configured_snapshot in HR. rewrite HS, EF in HR.
  destruct (validate_supported_domain d); [cbn [ok_or] in HR|done]. unfold validate_key in HR.
  destruct (Z.of_nat (length key) >? MAX_STATE_KEY_BYTES) eqn:EL; [done|]. cbn [lookup_frames] in HR.
  assert (exists path, path_key d key = Ok path) as [path EK] by (unfold path_key; rewrite EL; eauto).
  unfold lookup_write in HR. destruct (jf_writes f !! d) as [m|].
  - destruct HM as (t & HT & -> & ->). change (default ∅ (Some m)) with m in *.
    apply domain_transition_inv in HT as (_ & ws & HW & HA); [|done]. specialize (NC ws HW).
    assert (read_value (commit source (tr_nodes t) (tr_values t)) (MkDomainSnapshot d (new_root t)) key = Ok v) as HX.
    { eapply (apply_write_set_reads source d (snap_root s) (domain_state_writes m)); [done..|].
      rewrite (requested_writes d key path m EK) by (intros k' Hk' E'; apply HK; congruence).
      destruct (m !! key) as [[bytes|]|]; [congruence..|]. rewrite <- Es. by apply map_err_Ok in HR. }
    case_bool_decide as EN; [|done]. rewrite <- HX. f_equal. symmetry.
    apply StateWriteSet_new_Ok in HW as (ED & _ & prepared & HF & HP).
    eapply unchanged_transition; [done| |exact HA|done|done]. rewrite HP. by eapply prepared_Forall.
  - destruct HM as [-> ->]. rewrite <- Es. by apply map_err_Ok in HR.
Qed.

End FinalizeFacts.

(** ** Properties *)

Section JournalProperties.
Context `{Blake3}.

(** C22: the journal is a stack of copies.  After any operations on a fresh
    journal, reading a key gives what a stack of complete copies of the state
    gives (begin copies the top, put and delete change it, commit lets it
    replace the one below, revert drops it), falling back to the snapshot for
    keys the execution never wrote. *)
Theorem journal_refines_copies source context snapshots limits j0 ops :
  limits_ok limits -> ExecutionJournalV1_new context snapshots limits = Ok j0 ->
  let '(rs, j) := run_jops ops j0 in
  exists top rest, abs_run ops rs [fun _ _ => None] = top :: rest /\
    length (j_frames j) = S (length rest) /\
    forall d key, journal_read source j d key =
      (let? snapshot := configured_snapshot j0 d in
       let? _ := validate_key key in
       match top d key with
       | Some (JPut bytes) => Ok (Some bytes)
       | Some JDelete => Ok None
       | None => map_err JournalError.State (read_value source snapshot key)
       end).
Proof.
  intros HL HN. pose proof (journal_new_ok _ _ _ _ HL HN) as HJ. pose proof (journal_new_frames _ _ _ _ HN) as HF.
  destruct (run_jops ops j0) as [rs j] eqn:ER. destruct (run_jops_ok _ _ _ _ HJ ER) as [HJ' _].
  destruct (views_run _ _ _ _ HJ ER) as [HV HS]. rewrite HF in HV.
  assert (stack_eq (views [JournalFrame_default]) [fun _ _ => None]) as H0.
  { constructor; [|constructor]. intros d key. cbn. unfold lookup_write. by rewrite lookup_empty. }
  rewrite H0 in HV. destruct (j_frames j) as [|f fs] eqn:EF; [by destruct (ok_frames _ HJ')|].
  cbn [views] in HV. inversion HV as [|a top b rest HT HR Ea Eb]; subst. exists top, rest. split_and!; [done| |].
  - cbn [length]. f_equal. apply Forall2_length in HR. rewrite <- HR. clear.
    induction fs; [done|]. cbn [views length]. by f_equal.
  - intros d key. unfold journal_read, configured_snapshot. rewrite HS, EF.
    destruct (validate_supported_domain d); [|done]. destruct (j_snapshots j0 !! d) as [s|]; [|done]. cbn [ok_or].
    destruct (validate_key key); [|done]. by rewrite <- HT.
Qed.

(** The journal's accounting is exact.  After any operations on a fresh
    journal the live-entry and byte counters are the sums over the open
    frames, all limits hold, no operation has reported a broken count, and an
    operation that fails leaves the journal as it was. *)
Theorem journal_accounting_exact context snapshots limits j0 ops :
  limits_ok limits -> ExecutionJournalV1_new context snapshots limits = Ok j0 ->
  let '(rs, j) := run_jops ops j0 in
  live_entries j = foldr (fun f acc => wsum one_entry (jf_writes f) + acc) 0 (j_frames j) /\
  retained_bytes j = foldr (fun f acc => wsum entry_bytes (jf_writes f) + acc) 0 (j_frames j) /\
  live_entries j <= max_entries limits /\ retained_bytes j <= max_bytes limits /\
  Z.of_nat (length (j_frames j)) <= max_depth limits /\ total_frames_created j <= max_frames limits /\
  Forall good rs /\
  (forall op e j', run_jop op j = (Err e, j') -> j' = j).
Proof.
  intros HL HN. pose proof (journal_new_ok _ _ _ _ HL HN) as HJ.
  destruct (run_jops ops j0) as [rs j] eqn:ER. destruct (run_jops_ok _ _ _ _ HJ ER) as [HJ' HG].
  assert (j_limits j = limits) as El.
  { transitivity (j_limits j0); [|unfold ExecutionJournalV1_new in HN; by repeat case_match; simplify_eq/=].
    by apply run_jops_limits in ER. }
  pose proof HJ' as [_ _ HC HE HB HD HT HEL HBL _ _]. rewrite El in *.
  split_and!; try done; try lia; [| |by intros; eapply run_jop_atomic].
  - rewrite HE. clear -HC. unfold frames_entries. induction HC as [|f fs [E1 _] _ IH]; [done|]. cbn [foldr]. lia.
  - rewrite HB. clear -HC. unfold frames_bytes. induction HC as [|f fs [_ E1] _ IH]; [done|]. cbn [foldr]. lia.
Qed.

(** C21: finalisation carries the journal into the state.  When a journal with
    only its root frame is committed, every configured domain gets a root such
    that, in the store with the returned transitions added, each key reads
    under that root as it read in the journal, provided blake3 has no
    collision among the messages of the store and the domain's transition and
    none between the key and a written key.  A reverted journal moves no root
    and returns no transition. *)
Theorem finalize_keeps_reads source context snapshots limits j0 ops :
  limits_ok limits -> ExecutionJournalV1_new context snapshots limits = Ok j0 ->
  let '(_, j) := run_jops ops j0 in
  (forall r, finalize source j IntentReverted = Ok r ->
     res_transitions r = [] /\ Forall (fun x => jr_new_root x = jr_old_root x) (res_roots r)) /\
  (forall r d s, finalize source j IntentCommitted = Ok r -> j_snapshots j !! d = Some s ->
     exists new, MkJournalRoots d (snap_root s) new ∈ res_roots r /\
       ((forall ws, StateWriteSet_new d (domain_state_writes (root_writes j d)) = Ok ws ->
           collision_free (store_message source d (ws_writes ws) (transition_log source (snap_root s) ws))) ->
        forall key v,
          (forall key', is_Some (root_writes j d !! key') -> path_key d key' = path_key d key -> key' = key) ->
          journal_read source j d key = Ok v ->
          read_value (store_after source r d) (MkDomainSnapshot d new) key = Ok v)).
Proof.
  intros HL HN. pose proof (journal_new_ok _ _ _ _ HL HN) as HJ.
  destruct (run_jops ops j0) as [rs j] eqn:ER. destruct (run_jops_ok _ _ _ _ HJ ER) as [HJ' _].
  unfold finalize. destruct (j_frames j) as [|f [|f' fs]] eqn:EF; [by split; intros|..|by split; intros].
  split; [intros r|intros r d s].
  - rewrite bool_decide_true by done. intros [= <-]. split; [done|]. cbn [res_roots].
    apply Forall_forall. intros x ([d s] & -> & _)%list_elem_of_fmap. done.
  - rewrite bool_decide_false by done. destruct (finalize_domains _ _ _) as [[[u roots] ts]|] eqn:EFD; [|done].
    destruct (negb _); [done|]. intros [= <-] HS. destruct (ok_snapshots _ HJ' _ _ HS) as [Hd _].
    apply (finalize_domains_spec _ _ _ _ _ _ d s) in EFD as (new & HI & HM);
      [|apply ordered_snapshots_ok, HJ'|apply ordered_snapshots_nodup|by apply ordered_snapshots_elem].
    exists new. split; [done|]. intros NC key v HK HRd. unfold root_writes in NC, HK. rewrite EF in NC, HK.
    cbn [last] in NC, HK. by eapply (finalize_domain_reads source j f d s).
Qed.

End JournalProperties.

(** ** An example: one put, and a frame that is reverted *)

Definition demo_context : JournalContextV1 := MkJournalContext 1 7 (arr_fill 32 x11) (arr_fill 32 x22).

Definition demo_journal : ExecutionJournalV1 :=
  unwrap (MkJournal demo_context ∅ [] JournalLimitsV1_default 0 0 0)
    (ExecutionJournalV1_new demo_context [MkDomainSnapshot DomWasm demo_root] JournalLimitsV1_default).

Definition demo_jops : list journal_op :=
  [OpPut DomWasm [x01] [x07]; OpBegin; OpDelete DomWasm [x01]; OpRevert].

Definition demo_finished : ExecutionJournalV1 := snd (run_jops demo_jops demo_journal).

Lemma demo_limits_ok : limits_ok JournalLimitsV1_default.
Proof. unfold limits_ok. vm_compute. repeat split; congruence. Qed.

Lemma demo_journal_new :
  ExecutionJournalV1_new demo_context [MkDomainSnapshot DomWasm demo_root] JournalLimitsV1_default = Ok demo_journal.
Proof. by apply unwrap_ok. Qed.

Lemma journal_refines_copies_witness :
  journal_read (H := shape_hash) no_store demo_finished DomWasm [x01] = Ok (Some [x07]).
Proof.
  pose proof (journal_refines_copies (H := shape_hash) no_store demo_context [MkDomainSnapshot DomWasm demo_root]
    JournalLimitsV1_default demo_journal demo_jops demo_limits_ok demo_journal_new) as HT.
  unfold demo_finished. destruct (run_jops demo_jops demo_journal) as [rs j] eqn:ER. cbn [snd].
  assert (rs = [Ok tt; Ok tt; Ok tt; Ok tt]) as ->.
  { transitivity (fst (run_jops demo_jops demo_journal)); [by rewrite ER|]. vm_compute. reflexivity. }
  destruct HT as (top & rest & HA & _ & HR). cbn in HA. injection HA as <- <-. rewrite HR. vm_compute. reflexivity.
Defined.

Lemma journal_accounting_exact_witness : live_entries demo_finished = 1 /\ live_entries demo_finished <= 65536.
Proof.
  split; [vm_compute; reflexivity|].
  pose proof (journal_accounting_exact demo_context [MkDomainSnapshot DomWasm demo_root]
    JournalLimitsV1_default demo_journal demo_jops demo_limits_ok demo_journal_new) as HT.
  unfold demo_finished. destruct (run_jops demo_jops demo_journal) as [rs j]. apply HT.
Defined.

Definition demo_result : JournalResultV1 :=
  unwrap (MkJournalResult demo_context [] []) (finalize (H := shape_hash) no_store demo_finished IntentCommitted).

Lemma finalize_keeps_reads_witness :
  exists new, MkJournalRoots DomWasm demo_root new ∈ res_roots demo_result /\
    read_value (H := shape_hash) (store_after no_store demo_result DomWasm) (MkDomainSnapshot DomWasm new) [x01]
    = Ok (Some [x07]).
Proof.
  pose proof (finalize_keeps_reads (H := shape_hash) no_store demo_context [MkDomainSnapshot DomWasm demo_root]
    JournalLimitsV1_default demo_journal demo_jops demo_limits_ok demo_journal_new) as HT.
  assert (finalize (H := shape_hash) no_store demo_finished IntentCommitted = Ok demo_result) as HF
    by (apply unwrap_ok; vm_compute; reflexivity).
  assert (domain_state_writes (root_writes demo_finished DomWasm) = demo_writes) as HW by (vm_compute; reflexivity).
  assert (journal_read (H := shape_hash) no_store demo_finished DomWasm [x01] = Ok (Some [x07])) as HR
    by (vm_compute; reflexivity).
  assert (root_writes demo_finished DomWasm = {[ [x01] := JPut [x07] ]}) as HM by (vm_compute; reflexivity).
  assert (j_snapshots demo_finished !! DomWasm = Some (MkDomainSnapshot DomWasm demo_root)) as HS by (vm_compute; reflexivity).
  unfold demo_finished in *. destruct (run_jops demo_jops demo_journal) as [rs j]. cbn [snd] in *.
  destruct HT as [_ HT]. destruct (HT _ _ _ HF HS) as (new & HI & HC). exists new. split; [done|]. apply HC; [| |done].
  - intros ws EW. rewrite HW in EW. assert (ws = demo_ws) as ->.
    { unfold demo_ws. by rewrite EW. }
    exact demo_collision_free.
  - rewrite HM. intros key' [v Hv] _. apply lookup_singleton_Some in Hv as [<- _]. done.
Defined.
