(* ===== verification/MempoolGraph.v ===== *)
(** [oregon-mempool/graph.rs], [entry.rs], [error.rs]: the dependency graph of
    the unconfirmed transactions: closures and the deterministic topological
    order, with their correctness and termination.

    The source's ordered maps and sets are [gmap] and [gset]; where their
    iteration order is observable it is that of [set_list] and [entry_list],
    which sort by the order of the identifiers. *)
From S2P Require Import Prelude Encoding Transaction Bits Difficulty Utxo MapSum.

Module MempoolError.
Inductive t : Type :=
| InvalidConfig
| HeightOverflow
| AlreadyKnown (id : Hash256)
| StaleChainContext
| Conflict (outpoint : OutPoint) (existing_txid : Hash256)
| MissingDependency (o : OutPoint)
| InvalidParentOutput (o : OutPoint)
| TooManyAncestors
| TooManyDescendants
| CapacityRejected
| DependencyCycle
| InvariantViolation
| Structural (e : NormalTransactionError.t)
| Utxo (e : UtxoError.t).
End MempoolError.

Record MempoolEntry : Type := MkMempoolEntry {
  me_transaction : Transaction;
  me_txid : Hash256;
  me_fee : Z;
  me_encoded_bytes : Z;
  me_parents : gset Hash256;
  me_children : gset Hash256;
}.

Abbreviation Entries := (gmap Hash256 MempoolEntry).

(** [Ord] of [Hash256]. *)
Definition hash_le (a b : Hash256) : Prop := bytes_cmp (arr_bytes a) (arr_bytes b) <> Gt.

#[global] Instance hash_le_dec : RelDecision hash_le.
Proof. intros a b. unfold hash_le. apply _. Defined.

(** The iteration order of a [BTreeSet] and of a [BTreeMap]. *)
Definition set_list (s : gset Hash256) : list Hash256 := merge_sort hash_le (elements s).

Definition entry_list {A} (m : gmap Hash256 A) : list (Hash256 * A) :=
  merge_sort (fun p q => hash_le p.1 q.1) (map_to_list m).

(** [BTreeSet::pop_first] *)
Definition pop_first (s : gset Hash256) : option (Hash256 * gset Hash256) :=
  match set_list s with
  | [] => None
  | x :: _ => Some (x, s ∖ {[x]})
  end.

(** ** Closures *)

(** The loop [while let Some(txid) = pending.pop()]: [pending] is kept with the
    end of the source's vector first.  [next] are the parents or the children. *)
Fixpoint closure_loop (entries : Entries) (next : MempoolEntry -> gset Hash256) (fuel : nat)
    (pending : list Hash256) (closure : gset Hash256) : result MempoolError.t (gset Hash256) :=
  match fuel with
  | O => Err MempoolError.InvariantViolation
  | S fuel =>
      match pending with
      | [] => Ok closure
      | id :: pending =>
          let? entry := ok_or (entries !! id) MempoolError.InvariantViolation in
          if bool_decide (id ∈ closure) then closure_loop entries next fuel pending closure
          else closure_loop entries next fuel (rev (set_list (next entry)) ++ pending) ({[id]} ∪ closure)
      end
  end.

(** Enough iterations: every push comes from the start or from one entry. *)
Definition closure_fuel (entries : Entries) (next : MempoolEntry -> gset Hash256) (pending : list Hash256) : nat :=
  S (length pending + Z.to_nat (msum (fun _ e => Z.of_nat (size (next e))) entries)).

Definition closure_from (entries : Entries) (next : MempoolEntry -> gset Hash256) (start : gset Hash256)
  : result MempoolError.t (gset Hash256) :=
  let pending := rev (set_list start) in
  closure_loop entries next (closure_fuel entries next pending) pending ∅.

(** ** Topological order *)

(** Every listed neighbour exists and lists this entry back. *)
Definition check_neighbours (entries : Entries) (id : Hash256) (back : MempoolEntry -> gset Hash256)
    (neighbours : gset Hash256) : result MempoolError.t unit :=
  try_fold (fun _ n =>
    let? entry := ok_or (entries !! n) MempoolError.InvariantViolation in
    if negb (bool_decide (id ∈ back entry)) then Err MempoolError.InvariantViolation else Ok tt)
    (set_list neighbours) tt.

(** The first loop: the checks and the number of parents of every entry. *)
Definition count_parents (entries : Entries) (indegree : gmap Hash256 Z) (p : Hash256 * MempoolEntry)
  : result MempoolError.t (gmap Hash256 Z) :=
  let? _ := check_neighbours entries p.1 me_children (me_parents p.2) in
  let? _ := check_neighbours entries p.1 me_parents (me_children p.2) in
  Ok (<[p.1 := Z.of_nat (size (me_parents p.2))]> indegree).

(** One child of an emitted entry has one parent less to wait for. *)
Definition release (acc : gset Hash256 * gmap Hash256 Z) (child : Hash256)
  : result MempoolError.t (gset Hash256 * gmap Hash256 Z) :=
  let? degree := ok_or (acc.2 !! child) MempoolError.InvariantViolation in
  let? degree := ok_or (checked_sub degree 1) MempoolError.InvariantViolation in
  Ok (if degree =? 0 then {[child]} ∪ acc.1 else acc.1, <[child := degree]> acc.2).

Fixpoint topo_loop (entries : Entries) (fuel : nat) (ready : gset Hash256) (indegree : gmap Hash256 Z)
    (emitted : list Hash256) : result MempoolError.t (list Hash256) :=
  match fuel with
  | O => Err MempoolError.InvariantViolation
  | S fuel =>
      match pop_first ready with
      | None => Ok emitted
      | Some (id, ready) =>
          let? entry := ok_or (entries !! id) MempoolError.InvariantViolation in
          let? (ready, indegree) := try_fold release (set_list (me_children entry)) (ready, indegree) in
          topo_loop entries fuel ready indegree (emitted ++ [id])
      end
  end.

Definition ready_of (indegree : gmap Hash256 Z) : gset Hash256 := dom (filter (fun p => p.2 = 0) indegree).

Definition topological_order (entries : Entries) : result MempoolError.t (list Hash256) :=
  let? indegree := try_fold (count_parents entries) (entry_list entries) ∅ in
  let? emitted := topo_loop entries (S (size entries)) (ready_of indegree) indegree [] in
  if negb (length emitted =? size entries)%nat then Err MempoolError.DependencyCycle
  else Ok emitted.

Definition ancestor_closure (entries : Entries) (direct_parents : gset Hash256)
  : result MempoolError.t (gset Hash256) :=
  let? closure := closure_from entries me_parents direct_parents in
  let? order := topological_order entries in
  let emitted := length (filter (fun id => id ∈ closure) order) in
  if negb (emitted =? size closure)%nat then Err MempoolError.DependencyCycle
  else Ok closure.

Definition descendant_closure (entries : Entries) (root : Hash256) : result MempoolError.t (gset Hash256) :=
  let? root_entry := ok_or (entries !! root) MempoolError.InvariantViolation in
  let? closure := closure_from entries me_children (me_children root_entry) in
  if bool_decide (root ∈ closure) then Err MempoolError.DependencyCycle
  else Ok closure.

(** ** Ordered iteration *)

#[global] Instance hash_le_total : Total hash_le.
Proof. intros a b. apply bytes_le_total. Qed.

#[global] Instance hash_le_trans : Transitive hash_le.
Proof. intros a b c. apply bytes_le_trans. Qed.

Lemma set_list_perm s : set_list s ≡ₚ elements s.
Proof. apply merge_sort_Permutation. Qed.

Lemma elem_of_set_list s x : x ∈ set_list s <-> x ∈ s.
Proof. by rewrite set_list_perm, elem_of_elements. Qed.

Lemma NoDup_set_list s : NoDup (set_list s).
Proof. rewrite set_list_perm. apply NoDup_elements. Qed.

Lemma length_set_list s : length (set_list s) = size s.
Proof. by rewrite set_list_perm. Qed.

Lemma elem_of_entry_list {A} (m : gmap Hash256 A) k v : (k, v) ∈ entry_list m <-> m !! k = Some v.
Proof. unfold entry_list. by rewrite merge_sort_Permutation, elem_of_map_to_list. Qed.

Lemma pop_first_None s : pop_first s = None <-> s = ∅.
Proof.
  unfold pop_first. pose proof (elem_of_set_list s) as HE. split.
  - destruct (set_list s); [|done]. intros _. apply set_eq. set_solver.
  - intros ->. by replace (set_list ∅) with (@nil Hash256) by done.
Qed.

Lemma pop_first_Some s x s' :
  pop_first s = Some (x, s') -> x ∈ s /\ s' = s ∖ {[x]} /\ forall y, y ∈ s -> hash_le x y.
Proof.
  unfold pop_first. pose proof (elem_of_set_list s) as HE.
  assert (StronglySorted hash_le (set_list s)) as HS by (apply StronglySorted_merge_sort; apply _).
  destruct (set_list s) as [|a l]; [done|]. intros [= <- <-]. split_and!; [set_solver|done|].
  intros y Hy%HE. apply StronglySorted_cons in HS as [HF _]. apply elem_of_cons in Hy as [->|Hy].
  - unfold hash_le. by rewrite (proj2 (bytes_cmp_eq _ _)).
  - rewrite Forall_forall in HF. by apply HF.
Qed.

Lemma elem_of_rev_set_list s x : x ∈ rev (set_list s) <-> x ∈ s.
Proof. by rewrite list_elem_of_In, <- in_rev, <- list_elem_of_In, elem_of_set_list. Qed.

(** ** Closures are reachability *)

Section Closure.
Context (entries : Entries) (next : MempoolEntry -> gset Hash256).

(** [y] is a listed neighbour of the entry [x]. *)
Definition edge (x y : Hash256) : Prop := exists e, entries !! x = Some e /\ y ∈ next e.

Lemma closure_loop_sound fuel pending closure A :
  closure_loop entries next fuel pending closure = Ok A ->
  (forall t, t ∈ closure \/ t ∈ pending -> t ∈ A) /\
  (forall t, t ∈ A -> t ∉ closure -> exists e, entries !! t = Some e /\ next e ⊆ A) /\
  (forall t, t ∈ A -> t ∉ closure -> exists p, p ∈ pending /\ rtc edge p t).
Proof.
  revert pending closure. induction fuel as [|fuel IH]; intros pending closure; [done|]. cbn [closure_loop].
  destruct pending as [|id pending].
  { intros [= <-]. set_solver. }
  destruct (entries !! id) as [e|] eqn:Ee; [cbn [ok_or]|done].
  destruct (bool_decide_reflect (id ∈ closure)) as [Hin|Hin]; intros (H1 & H2 & H3)%IH.
  - split_and!; [set_solver|done|]. intros t Ht Hc. destruct (H3 t Ht Hc) as (p & Hp & HR). set_solver.
  - assert (forall t, t ∈ rev (set_list (next e)) ++ pending <-> t ∈ next e \/ t ∈ pending) as HE.
    { intros t. by rewrite elem_of_app, elem_of_rev_set_list. }
    split_and!.
    + intros t [Ht|[->|Ht]%elem_of_cons]; apply H1; [set_solver..|]. right. apply HE. by right.
    + intros t Ht Hc. destruct (decide (t = id)) as [->|Hne]; [|apply H2; set_solver].
      exists e. split; [done|]. intros x Hx. apply H1. right. apply HE. by left.
    + intros t Ht Hc. destruct (decide (t = id)) as [->|Hne]; [exists id; split; [set_solver|done]|].
      destruct (H3 t Ht) as (p & Hp & HR); [set_solver|]. apply HE in Hp as [Hp|Hp]; [|exists p; set_solver].
      exists id. split; [set_solver|]. eapply rtc_l; [|exact HR]. exists e. done.
Qed.

(** What is left to push. *)
Definition unpushed (closure : gset Hash256) : Z :=
  msum (fun k e => if bool_decide (k ∈ closure) then 0 else Z.of_nat (size (next e))) entries.

Lemma unpushed_insert closure id e :
  entries !! id = Some e -> id ∉ closure ->
  unpushed closure = Z.of_nat (size (next e)) + unpushed ({[id]} ∪ closure).
Proof.
  intros He Hn. unfold unpushed. rewrite !(msum_delete _ entries id). unfold mget. rewrite He.
  rewrite bool_decide_false, bool_decide_true by set_solver. rewrite Z.add_0_l. f_equal.
  apply msum_ext. intros k v Hk. assert (k <> id) by (intros ->; by rewrite lookup_delete_eq in Hk).
  destruct (bool_decide_reflect (k ∈ closure)), (bool_decide_reflect (k ∈ {[id]} ∪ closure)); set_solver.
Qed.

Lemma unpushed_nonneg closure : 0 <= unpushed closure.
Proof. apply msum_nonneg. intros. case_bool_decide; lia. Qed.

Definition closure_measure (pending : list Hash256) (closure : gset Hash256) : Z :=
  Z.of_nat (length pending) + unpushed closure.

Lemma closure_measure_push id e pending closure :
  entries !! id = Some e -> id ∉ closure ->
  closure_measure (rev (set_list (next e)) ++ pending) ({[id]} ∪ closure) < closure_measure (id :: pending) closure.
Proof.
  intros He Hn. unfold closure_measure. rewrite (unpushed_insert closure id e He Hn).
  rewrite length_app, length_rev, length_set_list. cbn [length]. lia.
Qed.

(** More fuel than the measure changes nothing. *)
Lemma closure_loop_fuel f1 f2 pending closure :
  closure_measure pending closure < Z.of_nat f1 -> closure_measure pending closure < Z.of_nat f2 ->
  closure_loop entries next f1 pending closure = closure_loop entries next f2 pending closure.
Proof.
  revert f2 pending closure. induction f1 as [|f1 IH]; intros f2 pending closure H1 H2.
  { pose proof (unpushed_nonneg closure). unfold closure_measure in H1. lia. }
  destruct f2 as [|f2]; [pose proof (unpushed_nonneg closure); unfold closure_measure in H2; lia|].
  cbn [closure_loop]. destruct pending as [|id pending]; [done|].
  destruct (entries !! id) as [e|] eqn:Ee; [cbn [ok_or]|done].
  destruct (bool_decide_reflect (id ∈ closure)).
  - apply IH; unfold closure_measure in *; cbn [length] in *; lia.
  - pose proof (closure_measure_push id e pending closure Ee ltac:(done)). apply IH; lia.
Qed.

Lemma closure_fuel_enough pending : closure_measure pending ∅ < Z.of_nat (closure_fuel entries next pending).
Proof.
  unfold closure_measure, closure_fuel, unpushed.
  rewrite (msum_ext _ (fun _ e => Z.of_nat (size (next e)))) by (intros; by rewrite bool_decide_false by set_solver).
  lia.
Qed.

(** With enough fuel the loop ends with a set when every neighbour exists. *)
Lemma closure_loop_total fuel pending closure :
  closure_measure pending closure < Z.of_nat fuel ->
  (forall x e y, entries !! x = Some e -> y ∈ next e -> is_Some (entries !! y)) ->
  (forall x, x ∈ pending -> is_Some (entries !! x)) ->
  exists A, closure_loop entries next fuel pending closure = Ok A.
Proof.
  intros HF HC. revert pending closure HF. induction fuel as [|fuel IH]; intros pending closure HF HP.
  { pose proof (unpushed_nonneg closure). unfold closure_measure in HF. lia. }
  cbn [closure_loop]. destruct pending as [|id pending]; [eauto|].
  destruct (HP id (list_elem_of_here _ _)) as [e Ee]. rewrite Ee. cbn [ok_or].
  destruct (bool_decide_reflect (id ∈ closure)).
  - apply IH; [unfold closure_measure in *; cbn [length] in *; lia|set_solver].
  - pose proof (closure_measure_push id e pending closure Ee ltac:(done)). apply IH; [lia|].
    intros x. rewrite elem_of_app, elem_of_rev_set_list. intros [Hx|Hx]; [by eapply HC|set_solver].
Qed.

Lemma closure_from_spec start A :
  closure_from entries next start = Ok A ->
  (forall t, t ∈ A <-> exists s, s ∈ start /\ rtc edge s t) /\ (forall t, t ∈ A -> is_Some (entries !! t)).
Proof.
  unfold closure_from. intros (H1 & H2 & H3)%closure_loop_sound.
  assert (forall t, t ∈ rev (set_list start) <-> t ∈ start) as HE
    by (intros t; apply elem_of_rev_set_list).
  split.
  - intros t. split.
    + intros Ht. destruct (H3 t Ht) as (p & Hp & HR); [set_solver|]. exists p. by rewrite <- HE.
    + intros (s & Hs & HR). assert (s ∈ A) as HA by (apply H1; right; by apply HE).
      clear Hs. induction HR as [|x y z (e & Ee & Hy) _ IH]; [done|].
      apply IH. destruct (H2 x HA) as (e' & Ee' & Hsub); [set_solver|]. simplify_eq. by apply Hsub.
  - intros t Ht. destruct (H2 t Ht) as (e & -> & _); [set_solver|]. eauto.
Qed.

Lemma closure_from_total start :
  (forall x e y, entries !! x = Some e -> y ∈ next e -> is_Some (entries !! y)) ->
  (forall x, x ∈ start -> is_Some (entries !! x)) ->
  exists A, closure_from entries next start = Ok A.
Proof.
  intros HC HS. apply closure_loop_total; [apply closure_fuel_enough|done|].
  intros x. rewrite elem_of_rev_set_list. apply HS.
Qed.

End Closure.

(** ** The topological order *)

Section Topological.
Context (entries : Entries).

(** Parents and children are entries that list each other. *)
Definition mirrored : Prop :=
  forall x e, entries !! x = Some e ->
    (forall p, p ∈ me_parents e -> exists e', entries !! p = Some e' /\ x ∈ me_children e') /\
    (forall c, c ∈ me_children e -> exists e', entries !! c = Some e' /\ x ∈ me_parents e').

(** [t] is an entry outside [l] whose parents are all in [l]. *)
Definition ready_at (l : list Hash256) (t : Hash256) : Prop :=
  (t ∉ l) /\ (exists e, entries !! t = Some e /\ (forall p, p ∈ me_parents e -> p ∈ l)).

(** Lists in which parents come before their children. *)
Inductive topo : list Hash256 -> Prop :=
| topo_nil : topo []
| topo_snoc l t : topo l -> ready_at l t -> topo (l ++ [t]).

(** The one that always takes the least entry that is ready. *)
Inductive greedy : list Hash256 -> Prop :=
| greedy_nil : greedy []
| greedy_snoc l t : greedy l -> ready_at l t -> (forall u, ready_at l u -> hash_le t u) -> greedy (l ++ [t]).

Lemma greedy_topo l : greedy l -> topo l.
Proof. induction 1; by constructor. Qed.

Lemma topo_NoDup l : topo l -> NoDup l.
Proof.
  induction 1 as [|l t _ IH [Hn _]]; [constructor|]. apply NoDup_app. split_and!; [done|set_solver|apply NoDup_singleton].
Qed.

Lemma topo_entries l t : topo l -> t ∈ l -> is_Some (entries !! t).
Proof. induction 1 as [|l u _ IH (_ & e & Ee & _)]; [set_solver|]. rewrite elem_of_app, list_elem_of_singleton. naive_solver. Qed.

Lemma topo_closed l t e p : topo l -> t ∈ l -> entries !! t = Some e -> p ∈ me_parents e -> p ∈ l.
Proof.
  induction 1 as [|l u _ IH (_ & e' & Ee & HP)]; [set_solver|]. rewrite !elem_of_app, list_elem_of_singleton.
  intros [Ht| ->] Et Hp; [left; auto|]. simplify_eq. left. auto.
Qed.

Lemma topo_length l : topo l -> (length l <= size entries)%nat.
Proof.
  intros HT. pose proof (topo_NoDup l HT) as HN. rewrite <- size_dom, <- (size_list_to_set (C := gset Hash256) l HN).
  apply subseteq_size. intros t Ht%elem_of_list_to_set. apply elem_of_dom. by eapply topo_entries.
Qed.

Lemma check_neighbours_Ok id back neighbours :
  check_neighbours entries id back neighbours = Ok tt <->
  forall n, n ∈ neighbours -> exists e, entries !! n = Some e /\ id ∈ back e.
Proof.
  unfold check_neighbours. setoid_rewrite <- (elem_of_set_list neighbours). induction (set_list neighbours) as [|n l IH].
  { split; [set_solver|done]. }
  cbn [try_fold]. destruct (entries !! n) as [e|] eqn:Ee; cbn [ok_or].
  - destruct (bool_decide_reflect (id ∈ back e)); cbn [negb].
    + rewrite IH. split.
      * intros HF m [->|Hm]%elem_of_cons; [by exists e|by apply HF].
      * intros HF m Hm. apply HF. set_solver.
    + split; [done|]. intros HF. destruct (HF n) as (e' & ? & ?); [set_solver|]. by simplify_eq.
  - split; [done|]. intros HF. destruct (HF n) as (e' & ? & ?); [set_solver|]. simplify_eq.
Qed.

Definition indegrees : gmap Hash256 Z := (fun e => Z.of_nat (size (me_parents e))) <$> entries.

Lemma count_parents_fold l indegree indegree' :
  try_fold (count_parents entries) l indegree = Ok indegree' ->
  Forall (fun p => check_neighbours entries p.1 me_children (me_parents p.2) = Ok tt /\
                   check_neighbours entries p.1 me_parents (me_children p.2) = Ok tt) l /\
  indegree' = foldl (fun (m : gmap Hash256 Z) p => <[p.1 := Z.of_nat (size (me_parents p.2))]> m) indegree l.
Proof.
  revert indegree. induction l as [|p l IH]; intros indegree; cbn [try_fold foldl].
  { intros [= <-]. split; [constructor|done]. }
  unfold count_parents at 1. destruct (check_neighbours _ _ me_children _) as [[]|] eqn:E1; [|done].
  destruct (check_neighbours _ _ me_parents _) as [[]|] eqn:E2; [|done]. intros [HF ->]%IH. split; [by constructor|done].
Qed.

Lemma count_parents_fold_ok l indegree :
  Forall (fun p => check_neighbours entries p.1 me_children (me_parents p.2) = Ok tt /\
                   check_neighbours entries p.1 me_parents (me_children p.2) = Ok tt) l ->
  try_fold (count_parents entries) l indegree
  = Ok (foldl (fun (m : gmap Hash256 Z) p => <[p.1 := Z.of_nat (size (me_parents p.2))]> m) indegree l).
Proof.
  intros HF. revert indegree. induction HF as [|p l [E1 E2] _ IH]; intros indegree; [done|].
  cbn [try_fold foldl]. unfold count_parents at 1. by rewrite E1, E2.
Qed.

Lemma foldl_indegrees :
  foldl (fun (m : gmap Hash256 Z) p => <[p.1 := Z.of_nat (size (me_parents p.2))]> m) ∅ (entry_list entries) = indegrees.
Proof.
  assert (forall l (m : gmap Hash256 Z) (k : Hash256), NoDup l.*1 ->
    foldl (fun (m : gmap Hash256 Z) (p : Hash256 * MempoolEntry) => <[p.1 := Z.of_nat (size (me_parents p.2))]> m) m l !! k
    = match (list_to_map l : Entries) !! k with Some e => Some (Z.of_nat (size (me_parents e))) | None => m !! k end) as HL.
  { induction l as [|[k' e'] l IH]; intros m k; [done|]. cbn [foldl fmap list_fmap fst snd]. rewrite NoDup_cons. intros [Hn HN].
    rewrite IH by done. change (list_to_map ((k', e') :: l) : Entries) with (<[k' := e']> (list_to_map l) : Entries).
    destruct (decide (k = k')) as [->|Hne].
    - rewrite (not_elem_of_list_to_map_1 (M := gmap Hash256) l k') by done. by rewrite !lookup_insert_eq.
    - by rewrite !lookup_insert_ne. }
  assert (entry_list entries ≡ₚ map_to_list entries) as HP by apply merge_sort_Permutation.
  assert (NoDup (entry_list entries).*1) as HN by (rewrite HP; apply NoDup_fst_map_to_list).
  apply map_eq. intros k. rewrite (HL _ _ _ HN), lookup_empty.
  rewrite (list_to_map_proper _ (map_to_list entries) HN HP), list_to_map_to_list.
  unfold indegrees. rewrite lookup_fmap. by destruct (entries !! k).
Qed.

(** The first loop succeeds exactly on mirrored entries. *)
Lemma count_parents_spec indegree :
  try_fold (count_parents entries) (entry_list entries) ∅ = Ok indegree <-> (mirrored /\ indegree = indegrees).
Proof.
  assert (Forall (fun p => check_neighbours entries p.1 me_children (me_parents p.2) = Ok tt /\
            check_neighbours entries p.1 me_parents (me_children p.2) = Ok tt) (entry_list entries) <-> mirrored) as HM.
  { unfold mirrored. rewrite Forall_forall. setoid_rewrite check_neighbours_Ok. split.
    - intros HF x e Hx. by apply (HF (x, e)), elem_of_entry_list.
    - intros HM [x e] Hx%elem_of_entry_list. by apply HM. }
  rewrite <- HM, <- foldl_indegrees. split.
  - by intros [? ->]%count_parents_fold.
  - intros [HF ->]. by apply count_parents_fold_ok.
Qed.

(** Releasing distinct children that wait for at least one parent. *)
Lemma release_fold cs R D :
  NoDup cs -> (forall c, c ∈ cs -> exists d, D !! c = Some d /\ 1 <= d) ->
  exists R' D', try_fold release cs (R, D) = Ok (R', D') /\
    (forall t, t ∈ R' <-> t ∈ R \/ (t ∈ cs /\ D !! t = Some 1)) /\
    (forall t, D' !! t = if bool_decide (t ∈ cs) then (fun d => d - 1) <$> D !! t else D !! t).
Proof.
  revert R D. induction cs as [|c cs IH]; intros R D HN HD.
  { exists R, D. split_and!; [done|set_solver|]. intros t. by rewrite bool_decide_false by set_solver. }
  apply NoDup_cons in HN as [Hc HN]. destruct (HD c) as (d & Ed & Hd); [set_solver|].
  cbn [try_fold]. unfold release at 1. cbn [fst snd]. rewrite Ed. cbn [ok_or].
  assert (checked_sub d 1 = Some (d - 1)) as -> by (apply checked_sub_Some; lia). cbn [ok_or].
  destruct (IH (if d - 1 =? 0 then {[c]} ∪ R else R) (<[c := d - 1]> D) HN) as (R' & D' & E & HR & HD').
  { intros c' Hc'. destruct (HD c') as (d' & ? & ?); [set_solver|]. exists d'. by rewrite lookup_insert_ne by set_solver. }
  exists R', D'. split_and!; [done| |].
  - intros t. rewrite HR. destruct (decide (t = c)) as [->|Hne].
    + rewrite Ed. destruct (Z.eqb_spec (d - 1) 0).
      * replace d with 1 by lia. set_solver.
      * split; [intros [?|[? _]]; [by left|done]|]. intros [?|[_ [= ->]]]; [by left|lia].
    + rewrite lookup_insert_ne by done. destruct (Z.eqb_spec (d - 1) 0); set_solver.
  - intros t. rewrite HD'. destruct (decide (t = c)) as [->|Hne].
    + rewrite bool_decide_false, bool_decide_true by set_solver. by rewrite lookup_insert_eq, Ed.
    + rewrite lookup_insert_ne by done.
      destruct (bool_decide_reflect (t ∈ cs)), (bool_decide_reflect (t ∈ c :: cs)); set_solver.
Qed.

(** The state of the second loop after emitting [l]. *)
Record topo_inv (l : list Hash256) (R : gset Hash256) (D : gmap Hash256 Z) : Prop := MkTopoInv {
  ti_greedy : greedy l;
  ti_ready : forall t, t ∈ R <-> ready_at l t;
  ti_degree : forall t, D !! t = (fun e => Z.of_nat (size (me_parents e ∖ list_to_set l))) <$> entries !! t;
}.

Lemma waiting_zero (s : gset Hash256) l : size (s ∖ list_to_set l) = 0%nat <-> forall p, p ∈ s -> p ∈ l.
Proof.
  rewrite size_empty_iff. split.
  - intros HE p Hp. destruct (decide (p ∈ l)); [done|].
    assert (p ∈ s ∖ list_to_set l) by (apply elem_of_difference; split; [done|]; by rewrite elem_of_list_to_set).
    set_solver.
  - intros HS p. rewrite elem_of_difference, elem_of_list_to_set. split; [|set_solver]. intros [Hp Hn]. by destruct Hn; apply HS.
Qed.

Lemma waiting_snoc (s : gset Hash256) l t :
  t ∉ l -> size (s ∖ list_to_set (l ++ [t])) =
           if bool_decide (t ∈ s) then (size (s ∖ list_to_set l) - 1)%nat else size (s ∖ list_to_set l).
Proof.
  intros Hn. replace (s ∖ list_to_set (l ++ [t])) with ((s ∖ list_to_set l) ∖ {[t]} : gset Hash256).
  2: { rewrite list_to_set_app_L. set_solver. }
  destruct (bool_decide_reflect (t ∈ s)) as [Ht|Ht].
  - rewrite size_difference, size_singleton; [done|]. apply singleton_subseteq_l, elem_of_difference.
    split; [done|]. by rewrite elem_of_list_to_set.
  - f_equal. set_solver.
Qed.

Lemma topo_inv_init : topo_inv [] (ready_of indegrees) indegrees.
Proof.
  constructor; [constructor| |].
  - intros t. unfold ready_of, ready_at, indegrees. rewrite elem_of_dom. unfold is_Some.
    setoid_rewrite map_lookup_filter_Some. setoid_rewrite lookup_fmap_Some. split.
    + intros (d & (e & <- & Ee) & Hd). simpl in Hd. split; [set_solver|]. exists e. split; [done|].
      intros p Hp. assert (size (me_parents e) = 0%nat) as Hz by lia. apply size_empty_iff in Hz. set_solver.
    + intros (_ & e & Ee & HP). exists 0. split; [|done]. exists e. split; [|done].
      assert (size (me_parents e) = 0%nat) as Hz; [|lia]. apply size_empty_iff. set_solver.
  - intros t. unfold indegrees. rewrite lookup_fmap. destruct (entries !! t) as [e|]; [|done]. simpl. do 3 f_equal. set_solver.
Qed.

Lemma topo_step l R D id e :
  mirrored -> topo_inv l R D -> id ∈ R -> entries !! id = Some e -> (forall y, y ∈ R -> hash_le id y) ->
  exists R' D', try_fold release (set_list (me_children e)) (R ∖ {[id]}, D) = Ok (R', D') /\ topo_inv (l ++ [id]) R' D'.
Proof.
  intros HM [HG HR HD] Hid Ee Hmin. pose proof (proj1 (HR id) Hid) as HRid. pose proof HRid as [Hnl _].
  assert (forall c, c ∈ me_children e -> exists ec, entries !! c = Some ec /\ id ∈ me_parents ec) as HC
    by (apply (HM id e Ee)).
  assert (forall t et, entries !! t = Some et -> id ∈ me_parents et -> t ∈ me_children e) as HC'.
  { intros t et Et Hp. destruct (HM t et Et) as [HP _]. destruct (HP id Hp) as (e' & ? & ?). by simplify_eq. }
  destruct (release_fold (set_list (me_children e)) (R ∖ {[id]}) D) as (R' & D' & E & HR' & HD').
  { apply NoDup_set_list. }
  { intros c Hc%elem_of_set_list. destruct (HC c Hc) as (ec & Ec & Hp). rewrite HD, Ec. simpl. eexists. split; [done|].
    assert (size (me_parents ec ∖ list_to_set l) <> 0%nat); [|lia]. rewrite waiting_zero. intros HF. by apply Hnl, HF. }
  exists R', D'. split; [done|]. constructor.
  - constructor; [done..|]. intros u Hu. by apply Hmin, HR.
  - intros t. rewrite HR', elem_of_difference, elem_of_singleton, elem_of_set_list, HR. unfold ready_at. rewrite HD.
    split.
    + intros [[[Hn (et & Et & HP)] Hne]|[Hc Hdeg]].
      * split; [rewrite elem_of_app, list_elem_of_singleton; naive_solver|]. exists et. split; [done|].
        intros p Hp. apply elem_of_app. left. auto.
      * destruct (HC t Hc) as (et & Et & Hp). rewrite Et in Hdeg. injection Hdeg as Hdeg.
        assert (t ∉ l) as Htl. { intros Htl. apply Hnl. eapply topo_closed; [by apply greedy_topo|done..]. }
        split.
        { rewrite elem_of_app, list_elem_of_singleton. intros [?| ->]; [done|]. destruct HRid as [_ (ei & Ei & Hpi)].
          simplify_eq. by apply Hnl, Hpi. }
        exists et. split; [done|]. apply waiting_zero. rewrite waiting_snoc, bool_decide_true by done. lia.
    + intros [Hn (et & Et & HP)]. rewrite elem_of_app, list_elem_of_singleton in Hn.
      destruct (decide (id ∈ me_parents et)) as [Hp|Hp].
      * right. split; [by eapply HC'|]. rewrite Et. simpl. do 2 f_equal. apply waiting_zero in HP.
        rewrite waiting_snoc, bool_decide_true in HP by done.
        assert (size (me_parents et ∖ list_to_set l) <> 0%nat); [|lia]. rewrite waiting_zero. intros HF. by apply Hnl, HF.
      * left. split; [|naive_solver]. split; [naive_solver|]. exists et. split; [done|].
        intros p Hpp. specialize (HP p Hpp). rewrite elem_of_app, list_elem_of_singleton in HP. naive_solver.
  - intros t. rewrite HD'. rewrite HD. destruct (entries !! t) as [et|] eqn:Et; [|by case_bool_decide].
    simpl. rewrite waiting_snoc by done.
    destruct (bool_decide_reflect (t ∈ set_list (me_children e))) as [Hc|Hc]; rewrite elem_of_set_list in Hc.
    + destruct (HC t Hc) as (ec & ? & Hp). simplify_eq. rewrite bool_decide_true by done. simpl. f_equal.
      assert (size (me_parents et ∖ list_to_set l) <> 0%nat); [|lia]. rewrite waiting_zero. intros HF. by apply Hnl, HF.
    + rewrite bool_decide_false; [done|]. intros Hp. by eapply Hc, HC'.
Qed.

(** The second loop never runs out of fuel, and stops when nothing is ready. *)
Lemma topo_loop_spec fuel l R D :
  mirrored -> topo_inv l R D -> (size entries < length l + fuel)%nat ->
  exists l', topo_loop entries fuel R D l = Ok l' /\ greedy l' /\ (forall t, ~ ready_at l' t).
Proof.
  intros HM. revert l R D. induction fuel as [|fuel IH]; intros l R D HI HF.
  { pose proof (topo_length l (greedy_topo l (ti_greedy _ _ _ HI))). lia. }
  cbn [topo_loop]. destruct (pop_first R) as [[id R1]|] eqn:EP.
  - apply pop_first_Some in EP as (Hid & -> & Hmin). pose proof (proj1 (ti_ready _ _ _ HI id) Hid) as (_ & e & Ee & _).
    rewrite Ee. cbn [ok_or]. destruct (topo_step l R D id e HM HI Hid Ee Hmin) as (R' & D' & -> & HI').
    apply IH; [done|]. rewrite length_app. simpl. lia.
  - apply pop_first_None in EP as ->. exists l. split_and!; [done|by apply (ti_greedy _ _ _ HI)|].
    intros t Ht%(ti_ready _ _ _ HI). set_solver.
Qed.

(** Every entry is in [l]. *)
Definition covers (l : list Hash256) : Prop := forall t, is_Some (entries !! t) -> t ∈ l.

Lemma covers_length l : topo l -> covers l <-> length l = size entries.
Proof.
  intros HT. pose proof (topo_NoDup l HT) as HN. rewrite <- size_dom, <- (size_list_to_set (C := gset Hash256) l HN).
  assert ((list_to_set l : gset Hash256) ⊆ dom entries) as HS
    by (intros t Ht%elem_of_list_to_set; apply elem_of_dom; by eapply topo_entries). split.
  - intros HC. f_equal. apply set_eq. intros t. split; [apply HS|].
    intros Ht%elem_of_dom. apply elem_of_list_to_set. by apply HC.
  - intros HE t Ht%elem_of_dom. apply (elem_of_list_to_set (C := gset Hash256)).
    rewrite (set_subseteq_size_eq _ _ HS); [done|lia].
Qed.

(** A list at which nothing is ready contains every topological list. *)
Lemma stuck_contains l L : (forall t, ~ ready_at l t) -> topo L -> forall t, t ∈ L -> t ∈ l.
Proof.
  intros HS. induction 1 as [|L u _ IH (_ & e & Ee & HP)]; [set_solver|].
  intros t. rewrite elem_of_app, list_elem_of_singleton. intros [?| ->]; [auto|].
  destruct (decide (u ∈ l)) as [|Hn]; [done|]. destruct (HS u). split; [done|]. exists e. auto.
Qed.

(** Greedy orders are unique. *)
Lemma greedy_unique l1 l2 : greedy l1 -> greedy l2 -> length l1 = length l2 -> l1 = l2.
Proof.
  intros H1. revert l2. induction H1 as [|l1 t1 _ IH HR1 HM1]; intros l2 H2.
  { destruct l2; [done|]. done. }
  destruct H2 as [|l2 t2 HG2 HR2 HM2]; rewrite length_app; cbn [length]; [lia|]. rewrite length_app. cbn [length].
  intros HL. assert (l1 = l2) as -> by (apply IH; [done|lia]). do 2 f_equal.
  specialize (HM1 _ HR2). specialize (HM2 _ HR1). unfold hash_le in *. apply arr_eq, bytes_cmp_eq.
  rewrite bytes_cmp_antisym in HM2. by destruct (bytes_cmp (arr_bytes t1) (arr_bytes t2)).
Qed.

Lemma topological_order_spec order :
  topological_order entries = Ok order <-> mirrored /\ greedy order /\ covers order.
Proof.
  unfold topological_order. split.
  - destruct (try_fold (count_parents entries) (entry_list entries) ∅) as [indegree|] eqn:E; [|done].
    apply count_parents_spec in E as [HM ->].
    destruct (topo_loop_spec (S (size entries)) [] _ _ HM topo_inv_init) as (l & -> & HG & _); [simpl; lia|].
    destruct (Nat.eqb_spec (length l) (size entries)) as [HL|]; [|done]. intros [= <-]. split_and!; [done..|].
    by apply covers_length; [apply greedy_topo|].
  - intros (HM & HG & HC). rewrite (proj2 (count_parents_spec indegrees)) by done.
    destruct (topo_loop_spec (S (size entries)) [] _ _ HM topo_inv_init) as (l & -> & HG' & HS); [simpl; lia|].
    pose proof (greedy_topo _ HG) as HT. pose proof (greedy_topo _ HG') as HT'.
    assert (covers l) as HC' by (intros t Ht; eapply stuck_contains; [exact HS|exact HT|by apply HC]).
    apply covers_length in HC, HC'; [|done..]. rewrite HC', Nat.eqb_refl. cbn [negb]. f_equal.
    apply greedy_unique; [done..|lia].
Qed.

Lemma topological_order_total : mirrored -> (exists L, topo L /\ covers L) -> exists order, topological_order entries = Ok order.
Proof.
  intros HM (L & HT & HC). unfold topological_order. rewrite (proj2 (count_parents_spec indegrees)) by done.
  destruct (topo_loop_spec (S (size entries)) [] _ _ HM topo_inv_init) as (l & -> & HG' & HS); [simpl; lia|].
  assert (covers l) as HC' by (intros t Ht; eapply stuck_contains; [exact HS|exact HT|by apply HC]).
  apply covers_length in HC'; [|by apply greedy_topo]. rewrite HC', Nat.eqb_refl. eauto.
Qed.

(** It can only fail by a broken mirror or a cycle. *)
Lemma topological_order_errors e :
  topological_order entries = Err e ->
  e = MempoolError.InvariantViolation \/ e = MempoolError.DependencyCycle.
Proof.
  unfold topological_order. destruct (try_fold (count_parents entries) (entry_list entries) ∅) as [indegree|e1] eqn:E.
  - apply count_parents_spec in E as [HM ->].
    destruct (topo_loop_spec (S (size entries)) [] _ _ HM topo_inv_init) as (l & -> & _); [simpl; lia|].
    case_match; intros [= <-]. by right.
  - intros [= <-]. left. revert E. generalize (∅ : gmap Hash256 Z). induction (entry_list entries) as [|p l IH]; [done|].
    intros m. cbn [try_fold]. unfold count_parents at 1.
    assert (forall id back s er, check_neighbours entries id back s = Err er -> er = MempoolError.InvariantViolation) as HE.
    { intros id back s er. unfold check_neighbours. induction (set_list s) as [|n l' IH']; [done|]. cbn [try_fold].
      destruct (entries !! n) as [en|]; cbn [ok_or]; [|by intros [= <-]].
      destruct (bool_decide _); cbn [negb]; [apply IH'|by intros [= <-]]. }
    destruct (check_neighbours _ _ me_children _) eqn:E1; [|intros [= <-]; by eapply HE].
    destruct (check_neighbours _ _ me_parents _) eqn:E2; [|intros [= <-]; by eapply HE]. apply IH.
Qed.

End Topological.

(** ** Properties *)

(** The deterministic order.  It exists exactly when parents and children
    list each other and the graph has no cycle; it is then the one list of all
    entries that takes, at every step, the least identifier whose parents have
    all been taken.  Otherwise the error is a broken mirror or a cycle. *)
Theorem topological_order_exact entries :
  (forall order, topological_order entries = Ok order <->
     mirrored entries /\ greedy entries order /\ covers entries order) /\
  ((exists order, topological_order entries = Ok order) <->
     mirrored entries /\ exists L, topo entries L /\ covers entries L) /\
  (forall o1 o2, greedy entries o1 -> covers entries o1 -> greedy entries o2 -> covers entries o2 -> o1 = o2).
Proof.
  split_and!.
  - apply topological_order_spec.
  - split; [|intros [? ?]; by apply topological_order_total].
    intros (order & (HM & HG & HC)%topological_order_spec). split; [done|]. exists order. split; [by apply greedy_topo|done].
  - intros o1 o2 G1 C1 G2 C2. apply (greedy_unique entries); [done..|].
    apply covers_length in C1, C2; [lia|by apply greedy_topo..].
Qed.

(** The loops of the graph end.  More iterations than the bound used
    never change a closure or an order, whatever the entries: the worklist
    bound counts the pushes each entry can cause, the order emits an entry at
    most once. *)
Theorem graph_loops_terminate entries :
  (forall next start fuel,
     (closure_fuel entries next (rev (set_list start)) <= fuel)%nat ->
     closure_loop entries next fuel (rev (set_list start)) ∅ = closure_from entries next start) /\
  (forall fuel indegree,
     (S (size entries) <= fuel)%nat ->
     try_fold (count_parents entries) (entry_list entries) ∅ = Ok indegree ->
     is_ok (topo_loop entries fuel (ready_of indegree) indegree []) = true /\
     topo_loop entries fuel (ready_of indegree) indegree []
     = topo_loop entries (S (size entries)) (ready_of indegree) indegree []).
Proof.
  split.
  - intros next start fuel HF. unfold closure_from. pose proof (closure_fuel_enough entries next (rev (set_list start))).
    apply closure_loop_fuel; lia.
  - intros fuel indegree HF [HM ->]%count_parents_spec.
    destruct (topo_loop_spec entries fuel [] _ _ HM (topo_inv_init entries)) as (l1 & E1 & G1 & S1); [simpl; lia|].
    destruct (topo_loop_spec entries (S (size entries)) [] _ _ HM (topo_inv_init entries)) as (l2 & E2 & G2 & S2); [simpl; lia|].
    rewrite E1, E2. split; [done|]. f_equal. apply (greedy_unique entries); [done..|].
    pose proof (topo_NoDup entries l1 (greedy_topo _ _ G1)). pose proof (topo_NoDup entries l2 (greedy_topo _ _ G2)).
    apply Permutation_length, NoDup_Permutation; [done..|]. intros t. split; intros Ht.
    + eapply stuck_contains; [exact S2|exact (greedy_topo _ _ G1)|done].
    + eapply stuck_contains; [exact S1|exact (greedy_topo _ _ G2)|done].
Qed.
