(* ===== verification/Mempool.v ===== *)
(** [oregon-mempool]: the pool of unconfirmed transactions ([config.rs],
    [pool.rs]), admission ([admission.rs]), capacity and eviction
    ([capacity.rs], [eviction.rs]) and reconciliation with the chain
    ([reconcile.rs]). *)
From S2P Require Import Prelude Encoding Transaction Block Bits Difficulty BlockRules Utxo MapSum MempoolGraph.

Record MempoolConfig : Type := MkMempoolConfig {
  cfg_max_entries : Z;
  cfg_max_total_bytes : Z;
  cfg_max_ancestors : Z;
  cfg_max_descendants : Z;
}.

Definition MempoolConfig_default : MempoolConfig := MkMempoolConfig 50000 (64 * 1024 * 1024) 25 25.

Record ChainBase : Type := MkChainBase { tip_id : Hash256; tip_height : Z }.

#[global] Instance ChainBase_eq_dec : EqDecision ChainBase.
Proof. solve_decision. Defined.

Record Mempool : Type := MkMempool {
  mp_config : MempoolConfig;
  mp_base : ChainBase;
  mp_entries : Entries;
  mp_spenders : gmap OutPoint Hash256;
  mp_total_bytes : Z;
}.

Record AdmissionOutcome : Type := MkAdmissionOutcome {
  ao_txid : Hash256;
  ao_fee : Z;
  ao_encoded_bytes : Z;
  ao_evicted : list Hash256;
}.

Record ReconcileReport : Type := MkReconcileReport { rr_removed : list Hash256; rr_retained : nat }.

Definition Mempool_new (base : ChainBase) (config : MempoolConfig) : result MempoolError.t Mempool :=
  if (cfg_max_entries config =? 0) || (cfg_max_total_bytes config =? 0) then Err MempoolError.InvalidConfig
  else Ok (MkMempool config base ∅ ∅ 0).

Definition deterministic_order (pool : Mempool) : result MempoolError.t (list Hash256) :=
  topological_order (mp_entries pool).

(** ** Eviction *)

(** [Ordering::then_with] *)
Definition then_with (a b : comparison) : comparison := match a with Eq => b | c => c end.

Definition eviction_cmp (left right : MempoolEntry) : comparison :=
  let left_cross := me_fee left * me_encoded_bytes right in
  let right_cross := me_fee right * me_encoded_bytes left in
  then_with (Z.compare left_cross right_cross)
    (then_with (Z.compare (me_fee left) (me_fee right))
       (bytes_cmp (arr_bytes (me_txid left)) (arr_bytes (me_txid right)))).

(** ** Admission *)

Record PreparedCandidate : Type := MkPreparedCandidate {
  pc_entry : MempoolEntry;
  pc_spend_claims : list OutPoint;
  pc_ancestors : gset Hash256;
}.

Record AdmissionPlan : Type := MkAdmissionPlan { ap_candidate : PreparedCandidate; ap_remove : gset Hash256 }.

(** A claim another pooled transaction already has. *)
Fixpoint check_conflicts (spenders : gmap OutPoint Hash256) (claims : list OutPoint) : result MempoolError.t unit :=
  match claims with
  | [] => Ok tt
  | o :: claims =>
      match spenders !! o with
      | Some existing => Err (MempoolError.Conflict o existing)
      | None => check_conflicts spenders claims
      end
  end.

(** The loop that finds the pooled parents of the claims not on the chain. *)
Fixpoint find_parents (entries : Entries) (chain : UtxoState) (claims : list OutPoint) (direct : gset Hash256)
  : result MempoolError.t (gset Hash256) :=
  match claims with
  | [] => Ok direct
  | o :: claims =>
      match chain !! o with
      | Some _ => find_parents entries chain claims direct
      | None =>
          match entries !! txid o with
          | None => Err (MempoolError.MissingDependency o)
          | Some parent =>
              match outputs (me_transaction parent) !! Z.to_nat (index o) with
              | None => Err (MempoolError.InvalidParentOutput o)
              | Some _ => find_parents entries chain claims ({[me_txid parent]} ∪ direct)
              end
          end
      end
  end.

(** The loop over the ancestors that bounds their descendants. *)
Fixpoint check_descendants (entries : Entries) (max_descendants : Z) (ancestors : list Hash256)
  : result MempoolError.t unit :=
  match ancestors with
  | [] => Ok tt
  | a :: ancestors =>
      let? descendants := descendant_closure entries a in
      let? with_candidate := ok_or (checked_add USIZE_MAX (Z.of_nat (size descendants)) 1)
                               MempoolError.InvariantViolation in
      if with_candidate >? max_descendants then Err MempoolError.TooManyDescendants
      else check_descendants entries max_descendants ancestors
  end.

(** [seed_chain_inputs]: [seeded] is the key set of [narrow_entries], the pairs
    collected so far. *)
Definition seed_chain_inputs (chain : UtxoState) (narrow : list (OutPoint * UtxoEntry)) (tx : Transaction)
  : list (OutPoint * UtxoEntry) :=
  foldl (fun narrow input =>
           let o := TxInput_outpoint input in
           match chain !! o with
           | Some entry => if bool_decide (o ∈ narrow.*1) then narrow else narrow ++ [(o, entry)]
           | None => narrow
           end) narrow (inputs tx).

(** The outputs on the chain that carry an identifier about to be replayed. *)
Definition seed_collisions (chain : UtxoState) (ids : gset Hash256) (narrow : list (OutPoint * UtxoEntry))
  : list (OutPoint * UtxoEntry) :=
  foldl (fun narrow p =>
           if bool_decide (txid p.1 ∈ ids) && negb (bool_decide (p.1 ∈ narrow.*1)) then narrow ++ [p] else narrow)
    narrow (map_to_list chain).

Section Pool.
Context `{Blake3} {V : Type} `{!SpendVerifier V}.

(** The pooled entries named by a list. *)
Fixpoint seed_ancestors (entries : Entries) (chain : UtxoState) (order : list Hash256)
    (narrow : list (OutPoint * UtxoEntry)) : result MempoolError.t (list (OutPoint * UtxoEntry)) :=
  match order with
  | [] => Ok narrow
  | a :: order =>
      let? entry := ok_or (entries !! a) MempoolError.InvariantViolation in
      seed_ancestors entries chain order (seed_chain_inputs chain narrow (me_transaction entry))
  end.

(** The ancestors are applied again and must pay the fee they were admitted with. *)
Fixpoint replay_ancestors (entries : Entries) (spend_height : Z) (verifier : V) (order : list Hash256)
    (s : UtxoState) : result MempoolError.t UtxoState :=
  match order with
  | [] => Ok s
  | a :: order =>
      let? entry := ok_or (entries !! a) MempoolError.InvariantViolation in
      match apply_normal_transaction (me_transaction entry) spend_height verifier s with
      | (Err e, _) => Err (MempoolError.Utxo e)
      | (Ok fee, s) =>
          if negb (fee =? me_fee entry) then Err MempoolError.InvariantViolation
          else replay_ancestors entries spend_height verifier order s
      end
  end.

Definition prepare_admission (pool : Mempool) (tx : Transaction) (chain_base : ChainBase) (chain : UtxoState)
    (verifier : V) : result MempoolError.t AdmissionPlan :=
  if negb (bool_decide (chain_base = mp_base pool)) then Err MempoolError.StaleChainContext
  else
    let? spend_height := ok_or (checked_add U64_MAX (tip_height chain_base) 1) MempoolError.HeightOverflow in
    let encoded_bytes := Z.of_nat (length (Transaction_encode tx)) in
    let id := Transaction_txid tx in
    let? _ := map_err MempoolError.Structural (validate_normal_transaction_skeleton tx) in
    let entries := mp_entries pool in
    if bool_decide (is_Some (entries !! id)) then Err (MempoolError.AlreadyKnown id)
    else
      let claims := map TxInput_outpoint (inputs tx) in
      let? _ := check_conflicts (mp_spenders pool) claims in
      let? direct_parents := find_parents entries chain claims ∅ in
      let? ancestors := ancestor_closure entries direct_parents in
      if Z.of_nat (size ancestors) >? cfg_max_ancestors (mp_config pool) then Err MempoolError.TooManyAncestors
      else
        let? _ := check_descendants entries (cfg_max_descendants (mp_config pool)) (set_list ancestors) in
        let? full_order := topological_order entries in
        let replay_order := filter (fun a => a ∈ ancestors) full_order in
        if negb (length replay_order =? size ancestors)%nat then Err MempoolError.InvariantViolation
        else
          let? narrow := seed_ancestors entries chain replay_order [] in
          let narrow := seed_chain_inputs chain narrow tx in
          let narrow := seed_collisions chain ({[id]} ∪ ancestors) narrow in
          let? s := map_err MempoolError.Utxo (try_from_entries narrow) in
          let? s := replay_ancestors entries spend_height verifier replay_order s in
          match apply_normal_transaction tx spend_height verifier s with
          | (Err e, _) => Err (MempoolError.Utxo e)
          | (Ok fee, _) =>
              Ok (MkAdmissionPlan
                    (MkPreparedCandidate (MkMempoolEntry tx id fee encoded_bytes direct_parents ∅) claims ancestors)
                    ∅)
          end.

(** ** Capacity *)

Definition removed_bytes (pool : Mempool) (remove : gset Hash256) : result MempoolError.t Z :=
  try_fold (fun bytes id =>
    let? entry := ok_or (mp_entries pool !! id) MempoolError.InvariantViolation in
    ok_or (checked_add USIZE_MAX bytes (me_encoded_bytes entry)) MempoolError.InvariantViolation)
    (set_list remove) 0.

(** The loop that looks for the entry to evict: the worst one, if it is worse
    than the candidate. *)
Definition select_victim (pool : Mempool) (candidate : MempoolEntry) (remove : gset Hash256)
  : option Hash256 * MempoolEntry :=
  foldl (fun selected p =>
           if bool_decide (p.1 ∈ remove) then selected
           else match eviction_cmp p.2 selected.2 with
                | Lt => (Some p.1, p.2)
                | _ => selected
                end) (None, candidate) (entry_list (mp_entries pool)).

Fixpoint capacity_loop (pool : Mempool) (candidate : PreparedCandidate) (fuel : nat) (remove : gset Hash256)
  : result MempoolError.t (gset Hash256 * Z) :=
  match fuel with
  | O => Err MempoolError.InvariantViolation
  | S fuel =>
      let? removed := removed_bytes pool remove in
      let? virtual_entries :=
        ok_or (match checked_add USIZE_MAX (Z.of_nat (size (mp_entries pool))) 1 with
               | Some count => checked_sub count (Z.of_nat (size remove)) | None => None end)
          MempoolError.InvariantViolation in
      let? virtual_bytes :=
        ok_or (match checked_add USIZE_MAX (mp_total_bytes pool) (me_encoded_bytes (pc_entry candidate)) with
               | Some bytes => checked_sub bytes removed | None => None end)
          MempoolError.InvariantViolation in
      if (virtual_entries <=? cfg_max_entries (mp_config pool))
         && (virtual_bytes <=? cfg_max_total_bytes (mp_config pool))
      then Ok (remove, virtual_bytes)
      else
        match select_victim pool (pc_entry candidate) remove with
        | (None, _) => Err MempoolError.CapacityRejected
        | (Some root, _) =>
            if bool_decide (root ∈ pc_ancestors candidate) then Err MempoolError.CapacityRejected
            else
              let? descendants := descendant_closure (mp_entries pool) root in
              if existsb (fun id => bool_decide (id ∈ pc_ancestors candidate)) (set_list descendants)
              then Err MempoolError.CapacityRejected
              else if bool_decide (root ∈ remove) then Err MempoolError.InvariantViolation
              else capacity_loop pool candidate fuel (descendants ∪ ({[root]} ∪ remove))
        end
  end.

(** [plan_capacity]: the plan's removals and the new number of bytes.  Every
    iteration but the last removes an entry of the pool that was not removed
    before. *)
Definition plan_capacity (pool : Mempool) (plan : AdmissionPlan) : result MempoolError.t (AdmissionPlan * Z) :=
  let? (remove, bytes) :=
    capacity_loop pool (ap_candidate plan) (S (S (size (mp_entries pool)))) (ap_remove plan) in
  Ok (MkAdmissionPlan (ap_candidate plan) remove, bytes).

(** ** Preflight and commit *)

(** An entry to remove claims what it spends, and its children go with it. *)
Definition check_removal (pool : Mempool) (remove : gset Hash256) (id : Hash256) : result MempoolError.t unit :=
  let? entry := ok_or (mp_entries pool !! id) MempoolError.InvariantViolation in
  if existsb (fun input => negb (bool_decide (mp_spenders pool !! TxInput_outpoint input = Some id)))
       (inputs (me_transaction entry))
  then Err MempoolError.InvariantViolation
  else if existsb (fun child => negb (bool_decide (child ∈ remove))) (set_list (me_children entry))
  then Err MempoolError.InvariantViolation
  else Ok tt.

Definition preflight_admission_plan (pool : Mempool) (plan : AdmissionPlan) (new_total_bytes : Z)
  : result MempoolError.t unit :=
  let? _ := topological_order (mp_entries pool) in
  let candidate := ap_candidate plan in
  let remove := ap_remove plan in
  let known := fun id => bool_decide (is_Some (mp_entries pool !! id)) in
  if existsb (fun id => bool_decide (id ∈ pc_ancestors candidate)) (set_list remove)
  then Err MempoolError.InvariantViolation
  else if existsb (fun p => negb (bool_decide (p ∈ pc_ancestors candidate)) || bool_decide (p ∈ remove) || negb (known p))
            (set_list (me_parents (pc_entry candidate)))
  then Err MempoolError.InvariantViolation
  else if existsb (fun a => bool_decide (a ∈ remove) || negb (known a)) (set_list (pc_ancestors candidate))
  then Err MempoolError.InvariantViolation
  else if existsb (fun o => bool_decide (is_Some (mp_spenders pool !! o))) (pc_spend_claims candidate)
  then Err MempoolError.InvariantViolation
  else
    let? _ := try_fold (fun _ id => check_removal pool remove id) (set_list remove) tt in
    let? removed := removed_bytes pool remove in
    let? expected_bytes :=
      ok_or (match checked_sub (mp_total_bytes pool) removed with
             | Some bytes => checked_add USIZE_MAX bytes (me_encoded_bytes (pc_entry candidate)) | None => None end)
        MempoolError.InvariantViolation in
    if negb (expected_bytes =? new_total_bytes) || (expected_bytes >? cfg_max_total_bytes (mp_config pool))
    then Err MempoolError.InvariantViolation
    else
      let? expected_entries :=
        ok_or (match checked_sub (Z.of_nat (size (mp_entries pool))) (Z.of_nat (size remove)) with
               | Some count => checked_add USIZE_MAX count 1 | None => None end)
          MempoolError.InvariantViolation in
      if expected_entries >? cfg_max_entries (mp_config pool) then Err MempoolError.InvariantViolation
      else Ok tt.

Definition with_children (f : gset Hash256 -> gset Hash256) (e : MempoolEntry) : MempoolEntry :=
  MkMempoolEntry (me_transaction e) (me_txid e) (me_fee e) (me_encoded_bytes e) (me_parents e) (f (me_children e)).

(** What [removal_commit] records of one removal, from the pool before any
    change: the identifier, its claims and the parents that stay. *)
Definition removal_record (pool : Mempool) (remove : gset Hash256) (id : Hash256)
  : Hash256 * list OutPoint * list Hash256 :=
  match mp_entries pool !! id with
  | Some entry => (id, map TxInput_outpoint (inputs (me_transaction entry)),
                   filter (fun p => p ∉ remove) (set_list (me_parents entry)))
  | None => (id, [], []) (* the [expect] on a preflighted removal *)
  end.

Definition apply_removal (entries : Entries) (spenders : gmap OutPoint Hash256)
    (r : Hash256 * list OutPoint * list Hash256) : Entries * gmap OutPoint Hash256 :=
  let '(id, claims, surviving_parents) := r in
  (delete id (foldl (fun m p => alter (with_children (fun c => c ∖ {[id]})) p m) entries surviving_parents),
   foldl (fun m o => delete o m) spenders claims).

(** [commit_admission]; the [expect]ed entries exist by the preflight, and
    [alter] changes an existing entry. *)
Definition commit_admission (pool : Mempool) (plan : AdmissionPlan) (new_total_bytes : Z)
  : Mempool * AdmissionOutcome :=
  let candidate := ap_candidate plan in
  let entry := pc_entry candidate in
  let id := me_txid entry in
  let removals := map (removal_record pool (ap_remove plan)) (set_list (ap_remove plan)) in
  let '(entries, spenders) :=
    foldl (fun acc r => apply_removal acc.1 acc.2 r) (mp_entries pool, mp_spenders pool) removals in
  let entries :=
    foldl (fun m p => alter (with_children (fun c => {[id]} ∪ c)) p m) entries (set_list (me_parents entry)) in
  let spenders := foldl (fun m o => <[o := id]> m) spenders (pc_spend_claims candidate) in
  (MkMempool (mp_config pool) (mp_base pool) (<[id := entry]> entries) spenders new_total_bytes,
   MkAdmissionOutcome id (me_fee entry) (me_encoded_bytes entry) (set_list (ap_remove plan))).

Definition Mempool_admit (tx : Transaction) (chain_base : ChainBase) (chain : UtxoState) (verifier : V)
  : eff Mempool MempoolError.t AdmissionOutcome := fun pool =>
  match
    (let? plan := prepare_admission pool tx chain_base chain verifier in
     let? (plan, new_total_bytes) := plan_capacity pool plan in
     let? _ := preflight_admission_plan pool plan new_total_bytes in
     Ok (plan, new_total_bytes))
  with
  | Err e => (Err e, pool)
  | Ok (plan, new_total_bytes) =>
      let '(pool, outcome) := commit_admission pool plan new_total_bytes in (Ok outcome, pool)
  end.

(** ** Reconciliation *)

Definition is_filterable_rebuild_error (e : MempoolError.t) : bool :=
  match e with
  | MempoolError.MissingDependency _ | MempoolError.InvalidParentOutput _ | MempoolError.TooManyAncestors
  | MempoolError.TooManyDescendants | MempoolError.CapacityRejected | MempoolError.Structural _
  | MempoolError.Utxo _ => true
  | _ => false
  end.

Fixpoint rebuild_loop (source : list (Hash256 * Transaction)) (new_base : ChainBase) (chain : UtxoState)
    (verifier : V) (rebuilt : Mempool) : result MempoolError.t Mempool :=
  match source with
  | [] => Ok rebuilt
  | (expected, tx) :: source =>
      if negb (bool_decide (Transaction_txid tx = expected)) then Err MempoolError.InvariantViolation
      else
        match Mempool_admit tx new_base chain verifier rebuilt with
        | (Ok _, rebuilt) => rebuild_loop source new_base chain verifier rebuilt
        | (Err e, rebuilt) =>
            if is_filterable_rebuild_error e then rebuild_loop source new_base chain verifier rebuilt else Err e
        end
  end.

Definition rebuild_against_chain (pool : Mempool) (source : list (Hash256 * Transaction)) (new_base : ChainBase)
    (chain : UtxoState) (verifier : V) : result MempoolError.t Mempool :=
  let? rebuilt := Mempool_new new_base (mp_config pool) in
  rebuild_loop source new_base chain verifier rebuilt.

(** The transactions of the listed entries. *)
Definition collect_source (entries : Entries) (order : list Hash256)
  : result MempoolError.t (list (Hash256 * Transaction)) :=
  try_map (fun id => let? entry := ok_or (entries !! id) MempoolError.InvariantViolation in
                     Ok (id, me_transaction entry)) order.

(** The end both reconciliations share: rebuild, report, replace. *)
Definition replace_by_rebuild (source : list (Hash256 * Transaction)) (new_base : ChainBase) (chain : UtxoState)
    (verifier : V) : eff Mempool MempoolError.t ReconcileReport := fun pool =>
  match rebuild_against_chain pool source new_base chain verifier with
  | Err e => (Err e, pool)
  | Ok rebuilt =>
      let removed := filter (fun id => mp_entries rebuilt !! id = None) (entry_list (mp_entries pool)).*1 in
      (Ok (MkReconcileReport (merge_sort hash_le removed) (size (mp_entries rebuilt))), rebuilt)
  end.

Definition reconcile_reorg (new_base : ChainBase) (chain : UtxoState) (verifier : V)
  : eff Mempool MempoolError.t ReconcileReport := fun pool =>
  match (let? order := topological_order (mp_entries pool) in collect_source (mp_entries pool) order) with
  | Err e => (Err e, pool)
  | Ok source => replace_by_rebuild source new_base chain verifier pool
  end.

(** The pooled transactions in conflict with one input of the block. *)
Definition exclude_conflict (pool : Mempool) (confirmed excluded : gset Hash256) (input : TxInput)
  : result MempoolError.t (gset Hash256) :=
  match mp_spenders pool !! TxInput_outpoint input with
  | None => Ok excluded
  | Some conflicting =>
      if bool_decide (conflicting ∈ confirmed) then Ok excluded
      else
        let? descendants := descendant_closure (mp_entries pool) conflicting in
        Ok (descendants ∪ ({[conflicting]} ∪ excluded))
  end.

Definition reconcile_active_block (block : Block) (new_base : ChainBase) (chain : UtxoState) (verifier : V)
  : eff Mempool MempoolError.t ReconcileReport := fun pool =>
  match
    (let? order := topological_order (mp_entries pool) in
     let confirmed := list_to_set (map Transaction_txid (transactions block)) : gset Hash256 in
     let? excluded := try_fold (fun excluded tx => try_fold (exclude_conflict pool confirmed) (inputs tx) excluded)
                        (transactions block) ∅ in
     collect_source (mp_entries pool) (filter (fun id => (id ∉ confirmed) /\ (id ∉ excluded)) order))
  with
  | Err e => (Err e, pool)
  | Ok source => replace_by_rebuild source new_base chain verifier pool
  end.

End Pool.
