(* ===== verification/MempoolReplay.v ===== *)
(** Replaying pooled transactions: what a transaction does depends only on the
    outputs it names, so a list in dependency order applies to the chain state
    exactly as it was checked at admission. *)
From S2P Require Import Prelude Encoding Transaction Block Bits Difficulty BlockRules Utxo MapSum MempoolGraph Mempool.

Section Replay.
Context `{Blake3} {V : Type} `{!SpendVerifier V}.

(** ** Locality *)

Lemma check_inputs_local s1 s2 tx h (v : V) i ins seen sum consumed :
  (forall o, o ∈ map TxInput_outpoint ins -> s1 !! o = s2 !! o) ->
  check_inputs s1 tx h v i ins seen sum consumed = check_inputs s2 tx h v i ins seen sum consumed.
Proof.
  revert i seen sum consumed. induction ins as [|x ins IH]; intros i seen sum consumed HE; [done|].
  cbn [check_inputs map] in *. rewrite (HE (TxInput_outpoint x)) by set_solver.
  destruct (bool_decide _); [done|]. destruct (s2 !! _); cbn [ok_or]; [|done].
  destruct (negb _); [done|]. destruct (verify_spend _ _ _ _); [|done].
  destruct (checked_add _ _ _); cbn [ok_or]; [|done]. apply IH. set_solver.
Qed.

Lemma created_entries_local s1 s2 id h cb i outs :
  (forall o, o ∈ (numbered id h cb i outs).*1 -> s1 !! o = s2 !! o) ->
  created_entries s1 id h cb i outs = created_entries s2 id h cb i outs.
Proof.
  revert i. induction outs as [|x outs IH]; intros i HE; [done|]. cbn [created_entries numbered] in *.
  destruct (try_from _ _) as [z|] eqn:Et; cbn [ok_or]; [|done]. apply try_from_Some in Et as [-> _].
  rewrite (HE (MkOutPoint id (Z.of_nat i))) by (cbn; set_solver). destruct (s2 !! _); [done|].
  rewrite IH; [done|]. intros o Ho. apply HE. cbn. set_solver.
Qed.

(** What a transaction creates at height [h]. *)
Definition made (h : Z) (tx : Transaction) : UtxoState :=
  list_to_map (numbered (Transaction_txid tx) h false 0 (outputs tx)).

Lemma made_keys h tx o : o ∈ (numbered (Transaction_txid tx) h false 0 (outputs tx)).*1 <-> is_Some (made h tx !! o).
Proof.
  unfold made. split.
  - intros Hin. destruct (_ !! o) eqn:E; [eauto|]. by apply not_elem_of_list_to_map_2 in E.
  - intros [x Hx]. apply elem_of_list_to_map_2 in Hx. apply list_elem_of_fmap. by exists (o, x).
Qed.

Lemma made_txid h tx o x : made h tx !! o = Some x -> txid o = Transaction_txid tx.
Proof. intros Hx%elem_of_list_to_map_2%numbered_elem. by destruct Hx. Qed.

Lemma apply_normal_local tx h (v : V) s1 s2 :
  (forall o, o ∈ spent_outpoints tx -> s1 !! o = s2 !! o) -> (forall o, is_Some (made h tx !! o) -> s1 !! o = s2 !! o) ->
  (apply_normal_transaction tx h v s1).1 = (apply_normal_transaction tx h v s2).1.
Proof.
  intros HI HO. unfold apply_normal_transaction. rewrite (check_inputs_local s1 s2) by apply HI.
  rewrite (created_entries_local s1 s2) by (intros o Ho%made_keys; auto).
  destruct (check_inputs s2 _ _ _ _ _ _ _ _) as [[? ?]|]; [|done]. destruct (sum_outputs _ _); [|done].
  destruct (_ >? _); [done|]. by destruct (created_entries s2 _ _ _ _ _).
Qed.

(** The state after a transaction. *)
Definition effect (h : Z) (tx : Transaction) (s : UtxoState) : UtxoState :=
  made h tx ∪ remove_all (spent_outpoints tx) s.

Lemma apply_normal_effect tx h (v : V) s fee s' :
  apply_normal_transaction tx h v s = (Ok fee, s') -> s' = effect h tx s.
Proof.
  intros (_ & _ & _ & -> & _)%apply_normal_spec. unfold effect, made. apply insert_all_union, numbered_nodup.
Qed.

Lemma effect_lookup h tx s o :
  effect h tx s !! o =
  match made h tx !! o with
  | Some x => Some x
  | None => if bool_decide (o ∈ spent_outpoints tx) then None else s !! o
  end.
Proof.
  unfold effect. destruct (made h tx !! o) as [x|] eqn:E.
  - by apply lookup_union_Some_l.
  - rewrite lookup_union_r by done. apply remove_all_lookup.
Qed.

(** ** Pools *)

Context (chain : UtxoState) (h : Z) (v : V).
Implicit Types (entries : Entries) (spenders : gmap OutPoint Hash256).

(** What a pooled transaction puts at [o]. *)
Definition created_at entries (o : OutPoint) : option UtxoEntry :=
  match entries !! txid o with Some e => made h (me_transaction e) !! o | None => None end.

(** The output a pooled transaction spends through [o]. *)
Definition view entries (o : OutPoint) : option UtxoEntry :=
  match chain !! o with Some x => Some x | None => created_at entries o end.

Abbreviation claims e := (spent_outpoints (me_transaction e)).

(** A transaction that was accepted with this fee when it saw its outputs. *)
Definition admitted entries (tx : Transaction) (fee : Z) : Prop :=
  exists s, (apply_normal_transaction tx h v s).1 = Ok fee /\
    (forall o, o ∈ spent_outpoints tx -> s !! o = view entries o) /\
    (forall o, is_Some (made h tx !! o) -> s !! o = None).

Record pool_ok entries spenders : Prop := MkPoolOk {
  po_id : forall t e, entries !! t = Some e ->
    me_txid e = t /\ Transaction_txid (me_transaction e) = t /\
    me_encoded_bytes e = Z.of_nat (length (Transaction_encode (me_transaction e)));
  po_spend : forall o t, spenders !! o = Some t <-> exists e, entries !! t = Some e /\ o ∈ claims e;
  po_parents : forall t e p, entries !! t = Some e ->
    p ∈ me_parents e <-> exists o, o ∈ claims e /\ chain !! o = None /\ txid o = p;
  po_mirror : mirrored entries;
  po_topo : exists L, topo entries L /\ covers entries L;
  po_valid : forall t e, entries !! t = Some e -> admitted entries (me_transaction e) (me_fee e);
  po_collide : forall t e o, entries !! t = Some e -> is_Some (made h (me_transaction e) !! o) ->
    chain !! o = None \/ exists a, spenders !! o = Some a /\ tc (edge entries me_parents) t a;
}.

Lemma pool_ok_empty : pool_ok ∅ ∅.
Proof.
  constructor; try (intros *; rewrite lookup_empty; done).
  - intros o t. rewrite lookup_empty. split; [done|]. intros (e & He & _). by rewrite lookup_empty in He.
  - intros x e. by rewrite lookup_empty.
  - exists []. split; [constructor|]. intros t. rewrite lookup_empty. by intros [x Hx].
Qed.

Lemma created_at_Some entries spenders o x :
  pool_ok entries spenders -> created_at entries o = Some x ->
  exists e, entries !! txid o = Some e /\ made h (me_transaction e) !! o = Some x.
Proof. intros _. unfold created_at. destruct (entries !! txid o) as [e|]; [eauto|done]. Qed.

Lemma made_created entries spenders t e o x :
  pool_ok entries spenders -> entries !! t = Some e -> made h (me_transaction e) !! o = Some x ->
  txid o = t /\ created_at entries o = Some x.
Proof.
  intros HP He Hx. destruct (po_id _ _ HP t e He) as (_ & Hid & _).
  assert (txid o = t) as Ht by (apply made_txid in Hx; congruence). split; [done|]. unfold created_at. by rewrite Ht, He.
Qed.

(** Ancestors of members of a topological list are members. *)
Lemma topo_ancestors entries l t a :
  topo entries l -> t ∈ l -> rtc (edge entries me_parents) t a -> a ∈ l.
Proof.
  intros HT Ht HR. induction HR as [|x y z (e & Ee & Hy) _ IH]; [done|]. apply IH. by eapply topo_closed.
Qed.

Lemma ready_ancestors entries l t a :
  topo entries l -> ready_at entries l t -> tc (edge entries me_parents) t a -> a ∈ l.
Proof.
  intros HT (_ & e & Ee & HP) HR.
  inversion HR as [x y (e' & Ee' & Hy)|x y z (e' & Ee' & Hy) HR']; simplify_eq; [auto|].
  eapply topo_ancestors; [done|by apply HP|]. by apply tc_rtc.
Qed.

(** ** The state after a prefix *)

Definition step entries (s : UtxoState) (t : Hash256) : UtxoState :=
  match entries !! t with Some e => effect h (me_transaction e) s | None => s end.

Definition effects entries (l : list Hash256) (s : UtxoState) : UtxoState := foldl (step entries) s l.

Definition made_in entries (l : list Hash256) (o : OutPoint) : option UtxoEntry :=
  if bool_decide (txid o ∈ l) then created_at entries o else None.

Definition spent_in spenders (l : list Hash256) (o : OutPoint) : bool :=
  match spenders !! o with Some a => bool_decide (a ∈ l) | None => false end.

Lemma spent_in_snoc spenders l t o :
  spent_in spenders (l ++ [t]) o = spent_in spenders l o || bool_decide (spenders !! o = Some t).
Proof.
  unfold spent_in. destruct (spenders !! o) as [a|]; [|done].
  destruct (bool_decide_reflect (a ∈ l ++ [t])) as [Hin|Hin]; rewrite elem_of_app, list_elem_of_singleton in Hin;
    destruct (bool_decide_reflect (a ∈ l)), (bool_decide_reflect (Some a = Some t)); naive_solver.
Qed.

Lemma effects_lookup entries spenders l s o :
  pool_ok entries spenders -> topo entries l ->
  match made_in entries l o with
  | None => effects entries l s !! o = if spent_in spenders l o then None else s !! o
  | Some x => chain !! o = None -> effects entries l s !! o = if spent_in spenders l o then None else Some x
  end.
Proof.
  intros HP HT. induction HT as [|l t HT IH HR].
  { unfold made_in, spent_in. rewrite bool_decide_false by set_solver.
    destruct (spenders !! o) as [a|]; [|done]. by rewrite bool_decide_false by set_solver. }
  destruct HR as (Hn & e & Ee & Hpar). unfold effects. rewrite foldl_app. cbn [foldl]. fold (effects entries l s).
  unfold step. rewrite Ee, effect_lookup, spent_in_snoc.
  destruct (po_id _ _ HP t e Ee) as (_ & Hid & _).
  assert (bool_decide (spenders !! o = Some t) = bool_decide (o ∈ claims e)) as ->.
  { apply bool_decide_ext. rewrite (po_spend _ _ HP). split; [intros (e' & ? & ?); by simplify_eq|eauto]. }
  destruct (decide (txid o = t)) as [Ht|Ht].
  - assert (made_in entries (l ++ [t]) o = made h (me_transaction e) !! o) as ->.
    { unfold made_in, created_at. rewrite bool_decide_true by (rewrite elem_of_app, list_elem_of_singleton; by right).
      by rewrite Ht, Ee. }
    assert (made_in entries l o = None) as Em by (unfold made_in; by rewrite bool_decide_false by (rewrite Ht; done)).
    rewrite Em in IH. destruct (made h (me_transaction e) !! o) as [x|] eqn:Ex.
    + intros Hc. assert (forall a, spenders !! o = Some a -> (a ∉ l) /\ a <> t) as HA.
      { intros a (ea & Ea & Ho)%(po_spend _ _ HP).
        assert (t ∈ me_parents ea) as Htp by (apply (po_parents _ _ HP a ea t Ea); eauto). split.
        - intros Hal. by apply Hn; eapply topo_closed.
        - intros ->. simplify_eq. by apply Hn, Hpar. }
      unfold spent_in. destruct (spenders !! o) as [a|] eqn:Ea.
      * destruct (HA a eq_refl) as [Hal Hat]. rewrite bool_decide_false by done.
        rewrite bool_decide_false; [done|]. intros Ho.
        assert (spenders !! o = Some t) by (apply (po_spend _ _ HP); eauto). congruence.
      * rewrite bool_decide_false; [done|]. intros Ho.
        assert (spenders !! o = Some t) by (apply (po_spend _ _ HP); eauto). congruence.
    + rewrite IH. by destruct (spent_in spenders l o), (bool_decide _).
  - assert (made_in entries (l ++ [t]) o = made_in entries l o) as ->.
    { unfold made_in. destruct (bool_decide_reflect (txid o ∈ l)) as [Hl|Hl].
      - by rewrite bool_decide_true by (rewrite elem_of_app; by left).
      - by rewrite bool_decide_false by (rewrite elem_of_app, list_elem_of_singleton; tauto). }
    assert (made h (me_transaction e) !! o = None) as ->.
    { destruct (made h (me_transaction e) !! o) eqn:Ex; [|done]. apply made_txid in Ex. congruence. }
    destruct (made_in entries l o); [intros Hc; rewrite IH by done|rewrite IH];
      by destruct (spent_in spenders l o), (bool_decide _).
Qed.

(** An output no member of [l] spends, whose pooled creator is in [l] when the
    chain does not have it. *)
Lemma view_after entries spenders l s o :
  pool_ok entries spenders -> topo entries l -> spent_in spenders l o = false -> s !! o = chain !! o ->
  (chain !! o = None -> is_Some (created_at entries o) -> txid o ∈ l) ->
  effects entries l s !! o = view entries o.
Proof.
  intros HP HT Hs Ho Hc. pose proof (effects_lookup entries spenders l s o HP HT) as HE. rewrite Hs in HE.
  unfold view. destruct (chain !! o) as [x|] eqn:Ex.
  - destruct (made_in entries l o) as [y|] eqn:Em; [|congruence]. exfalso. unfold made_in in Em.
    destruct (bool_decide_reflect (txid o ∈ l)) as [Hl|]; [|done].
    destruct (created_at_Some _ _ _ _ HP Em) as (e & Ee & Hm).
    destruct (po_collide _ _ HP _ _ o Ee) as [?|(a & Ea & HR)]; [eauto|congruence|].
    unfold spent_in in Hs. rewrite Ea, bool_decide_true in Hs; [done|].
    eapply topo_ancestors; [done..|by apply tc_rtc].
  - destruct (made_in entries l o) as [y|] eqn:Em; unfold made_in in Em.
    + destruct (bool_decide _); [|done]. rewrite Em. by apply HE.
    + rewrite HE, Ho. destruct (bool_decide_reflect (txid o ∈ l)) as [|Hn]; [congruence|].
      destruct (created_at entries o) eqn:Ec; [|done]. destruct Hn. eauto.
Qed.

Lemma not_spent_in entries spenders l t e o :
  pool_ok entries spenders -> entries !! t = Some e -> o ∈ claims e -> t ∉ l -> spent_in spenders l o = false.
Proof.
  intros HP He Ho Hn. assert (spenders !! o = Some t) as Hs by (apply (po_spend _ _ HP); eauto).
  unfold spent_in. by rewrite Hs, bool_decide_false.
Qed.

(** The outputs a ready entry creates are free when its turn comes. *)
Lemma made_free entries spenders l s t e o :
  pool_ok entries spenders -> topo entries l -> ready_at entries l t -> entries !! t = Some e ->
  is_Some (made h (me_transaction e) !! o) -> s !! o = chain !! o -> effects entries l s !! o = None.
Proof.
  intros HP HT HR Ee [x Hx] Ho. pose proof (effects_lookup entries spenders l s o HP HT) as HE.
  destruct (made_created _ _ _ _ _ _ HP Ee Hx) as [Ht _]. pose proof HR as [Hn _].
  unfold made_in in HE. rewrite Ht, bool_decide_false in HE by done. rewrite HE, Ho.
  destruct (po_collide _ _ HP _ _ o Ee) as [->|(a & Ea & Ha)]; [eauto|by case_match|].
  unfold spent_in. rewrite Ea, bool_decide_true; [done|]. by eapply ready_ancestors.
Qed.

Lemma replay_ancestors_app entries l1 l2 s :
  replay_ancestors entries h v (l1 ++ l2) s =
  let? s := replay_ancestors entries h v l1 s in replay_ancestors entries h v l2 s.
Proof.
  revert s. induction l1 as [|a l1 IH]; intros s; [done|]. cbn [app replay_ancestors].
  destruct (ok_or _ _); [|done]. destruct (apply_normal_transaction _ _ _ _) as [[fee|] s']; [|done].
  destruct (negb _); [done|]. apply IH.
Qed.

(** The states a topological list can be replayed on: those that agree with
    the chain on what its members spend and create. *)
Definition chainlike entries (l : list Hash256) (s : UtxoState) : Prop :=
  (forall t e o, t ∈ l -> entries !! t = Some e -> o ∈ claims e -> s !! o = chain !! o) /\
  (forall o, txid o ∈ l -> s !! o = chain !! o).

Lemma ready_applies entries spenders l s t e :
  pool_ok entries spenders -> topo entries l -> ready_at entries l t -> entries !! t = Some e ->
  chainlike entries (l ++ [t]) s ->
  apply_normal_transaction (me_transaction e) h v (effects entries l s)
  = (Ok (me_fee e), effects entries (l ++ [t]) s).
Proof.
  intros HP HT HR Ee [HC1 HC2]. pose proof HR as (Hn & e' & ? & Hpar). simplify_eq.
  assert (forall x, x ∈ l ++ [t] <-> x ∈ l \/ x = t) as Hsn by (intros; by rewrite elem_of_app, list_elem_of_singleton).
  destruct (po_valid _ _ HP t e Ee) as (s0 & Hs0 & HI & HO).
  assert ((apply_normal_transaction (me_transaction e) h v (effects entries l s)).1 = Ok (me_fee e)) as Hfee.
  { rewrite <- Hs0. apply apply_normal_local.
    - intros o Ho. rewrite (HI o Ho). apply (view_after entries spenders); [done..|by eapply not_spent_in| |].
      + eapply (HC1 t); [apply Hsn; by right|done..].
      + intros Hc _. apply Hpar, (po_parents _ _ HP t e _ Ee). eauto.
    - intros o Ho. rewrite (HO o Ho). eapply made_free; [done..|]. apply HC2, Hsn. right.
      destruct Ho as [x Hx]. by eapply made_created. }
  destruct (apply_normal_transaction _ _ _ _) as [r s'] eqn:Ea in Hfee |- *. cbn [fst] in Hfee. subst r. f_equal.
  apply apply_normal_effect in Ea as ->. unfold effects. rewrite foldl_app. cbn [foldl]. unfold step at 2. by rewrite Ee.
Qed.

(** A topological list replays, every member paying its recorded fee. *)
Lemma replay_ok entries spenders l s :
  pool_ok entries spenders -> topo entries l -> chainlike entries l s ->
  replay_ancestors entries h v l s = Ok (effects entries l s).
Proof.
  intros HP HT. induction HT as [|l t HT IH HR]; intros HC; [done|]. rewrite replay_ancestors_app.
  rewrite IH by (destruct HC as [HC1 HC2]; split; intros; [eapply HC1|eapply HC2]; try done; apply elem_of_app; by left).
  pose proof HR as (_ & e & Ee & _). cbn [replay_ancestors]. rewrite Ee. cbn [ok_or].
  by rewrite (ready_applies entries spenders l s t e), Z.eqb_refl.
Qed.

End Replay.
