(* ===== verification/MempoolAdmit.v ===== *)
(** Admission to the pool: under the pool's invariant every internal check of
    [prepare_admission] passes, and what it accepts may be inserted. *)
From S2P Require Import Prelude Encoding Transaction Block Bits Difficulty BlockRules Utxo MapSum MempoolGraph Mempool MempoolReplay.

(** The errors that report a broken pool. *)
Definition internal (e : MempoolError.t) : bool :=
  match e with MempoolError.InvariantViolation | MempoolError.DependencyCycle => true | _ => false end.

(** ** Graphs in topological order *)

Section Graph.
Context (entries : Entries).
Abbreviation up := (edge entries me_parents).
Abbreviation down := (edge entries me_children).

Lemma topo_filter (S : gset Hash256) l :
  (forall t e p, t ∈ S -> entries !! t = Some e -> p ∈ me_parents e -> p ∈ S) ->
  topo entries l -> topo entries (filter (fun t => t ∈ S) l).
Proof.
  intros HS. induction 1 as [|l t _ IH (Hn & e & Ee & HP)]; [constructor|]. rewrite filter_app.
  destruct (decide (t ∈ S)) as [Ht|Ht].
  - rewrite filter_cons_True by done. constructor; [done|]. split.
    + by intros [_ ?]%list_elem_of_filter.
    + exists e. split; [done|]. intros p Hp. apply list_elem_of_filter. split; [by eapply HS|auto].
  - rewrite filter_cons_False by done. by rewrite app_nil_r.
Qed.

Lemma topo_acyclic l t : topo entries l -> t ∈ l -> ~ tc up t t.
Proof.
  induction 1 as [|l u HT IH HR]; [set_solver|]. rewrite elem_of_app, list_elem_of_singleton.
  intros [Ht| ->]; [auto|]. intros Hc. destruct HR as [Hn HR]. apply Hn. by eapply ready_ancestors.
Qed.

Lemma up_down x y : mirrored entries -> up x y <-> down y x.
Proof.
  intros HM. split; intros (e & Ee & Hy); destruct (HM _ _ Ee) as [HP HC].
  - destruct (HP _ Hy) as (e' & ? & ?). by exists e'.
  - destruct (HC _ Hy) as (e' & ? & ?). by exists e'.
Qed.

Lemma tc_flip x y : mirrored entries -> tc up x y <-> tc down y x.
Proof.
  intros HM. split; induction 1 as [x y HE|x y z HE _ IH].
  - apply tc_once. by apply up_down.
  - eapply tc_r; [exact IH|]. by apply up_down.
  - apply tc_once. by apply up_down.
  - eapply tc_r; [exact IH|]. by apply up_down.
Qed.

(** The identifiers reached from a set in one direction. *)
Definition reaches (R : relation Hash256) (start : gset Hash256) (t : Hash256) : Prop :=
  exists s, s ∈ start /\ rtc R s t.

Context (HM : mirrored entries) (L : list Hash256) (HT : topo entries L) (HC : covers entries L).

Lemma filter_closure_length (A : gset Hash256) l :
  topo entries l -> covers entries l -> (forall t, t ∈ A -> is_Some (entries !! t)) ->
  length (filter (fun t => t ∈ A) l) = size A.
Proof using Type.
  intros Ht Hc HA. rewrite <- length_set_list. apply Permutation_length, NoDup_Permutation.
  - apply NoDup_filter. by eapply topo_NoDup.
  - apply NoDup_set_list.
  - intros t. rewrite list_elem_of_filter, elem_of_set_list. naive_solver.
Qed.

Lemma order_exists : exists order, topological_order entries = Ok order /\ topo entries order /\ covers entries order.
Proof using HM HT HC.
  destruct (topological_order_total entries HM) as [order Ho]; [eauto|]. exists order. split; [done|].
  apply topological_order_spec in Ho as (_ & HG & ?). split; [by apply greedy_topo|done].
Qed.

Lemma ancestor_closure_ok start :
  (forall x, x ∈ start -> is_Some (entries !! x)) ->
  exists A, ancestor_closure entries start = Ok A /\
    (forall t, t ∈ A <-> reaches up start t) /\ (forall t, t ∈ A -> is_Some (entries !! t)).
Proof using HM HT HC.
  intros HS. destruct (closure_from_total entries me_parents start) as [A HA]; [|done|].
  { intros x e y Ee Hy. destruct (HM x e Ee) as [HP _]. destruct (HP y Hy) as (e' & -> & _). eauto. }
  unfold ancestor_closure. rewrite HA. apply closure_from_spec in HA as [HA1 HA2].
  destruct order_exists as (order & -> & Hto & Hco). rewrite filter_closure_length, Nat.eqb_refl by done. eauto.
Qed.

Lemma descendant_closure_ok root :
  is_Some (entries !! root) ->
  exists D, descendant_closure entries root = Ok D /\ (forall t, t ∈ D <-> tc down root t) /\
    (forall t, t ∈ D -> is_Some (entries !! t)) /\ (root ∉ D).
Proof using HM HT HC.
  intros [e Ee]. unfold descendant_closure. rewrite Ee. cbn [ok_or].
  destruct (closure_from_total entries me_children (me_children e)) as [D HD].
  { intros x e' y Ee' Hy. destruct (HM x e' Ee') as [_ Hch]. destruct (Hch y Hy) as (e'' & -> & _). eauto. }
  { intros x Hx. destruct (HM _ _ Ee) as [_ Hch]. destruct (Hch x Hx) as (e' & -> & _). eauto. }
  rewrite HD. apply closure_from_spec in HD as [HD1 HD2].
  assert (forall t, t ∈ D <-> tc down root t) as HD'.
  { intros t. rewrite HD1. split.
    - intros (s & Hs & HR). apply tc_rtc_r with s; [apply tc_once; by exists e|done].
    - intros HR. inversion HR as [x y (e' & Ee' & Hy)|x y z (e' & Ee' & Hy) HR']; simplify_eq.
      + by exists t.
      + exists y. split; [done|]. by apply tc_rtc. }
  assert (root ∉ D) as Hn.
  { rewrite HD', <- tc_flip by done. apply (topo_acyclic L); [done|]. apply HC. eauto. }
  rewrite bool_decide_false by done. eauto.
Qed.

End Graph.

(** ** The narrow state *)

Section Narrow.
Context (chain : UtxoState).
Implicit Types narrow : list (OutPoint * UtxoEntry).

(** Outputs of the chain, each once. *)
Definition narrow_ok narrow : Prop := NoDup narrow.*1 /\ forall p, p ∈ narrow -> chain !! p.1 = Some p.2.

(** The state built from [narrow] answers like the chain at [o]. *)
Definition seeded narrow (o : OutPoint) : Prop := chain !! o = None \/ o ∈ narrow.*1.

Lemma narrow_ok_snoc narrow p :
  narrow_ok narrow -> p.1 ∉ narrow.*1 -> chain !! p.1 = Some p.2 -> narrow_ok (narrow ++ [p]).
Proof.
  intros [HN HE] Hn Hp. split.
  - rewrite fmap_app. apply NoDup_app. split_and!; [done| |apply NoDup_singleton].
    intros x Hx ->%list_elem_of_singleton. done.
  - intros q [?| ->%list_elem_of_singleton]%elem_of_app; auto.
Qed.

Lemma seeded_snoc narrow o p : seeded narrow o -> seeded (narrow ++ [p]) o.
Proof. intros [?|Ho]; [by left|right]. rewrite fmap_app. apply elem_of_app. by left. Qed.

Lemma seeded_here narrow p : seeded (narrow ++ [p]) p.1.
Proof. right. rewrite fmap_app. apply elem_of_app. right. apply list_elem_of_singleton. done. Qed.

Lemma seed_chain_inputs_spec narrow tx :
  narrow_ok narrow ->
  narrow_ok (seed_chain_inputs chain narrow tx) /\
  (forall o, seeded narrow o -> seeded (seed_chain_inputs chain narrow tx) o) /\
  (forall o, o ∈ spent_outpoints tx -> seeded (seed_chain_inputs chain narrow tx) o).
Proof.
  unfold seed_chain_inputs, spent_outpoints. revert narrow. induction (inputs tx) as [|i l IH]; intros narrow HN.
  { cbn. split_and!; [done..|set_solver]. }
  cbn [foldl map]. set (o := TxInput_outpoint i).
  assert (exists n', match chain !! o with
                | Some entry => if bool_decide (o ∈ narrow.*1) then narrow else narrow ++ [(o, entry)]
                | None => narrow end = n' /\ narrow_ok n' /\ (forall x, seeded narrow x -> seeded n' x) /\ seeded n' o)
    as (n' & -> & HN' & Hmono & Ho).
  { eexists. split; [done|]. destruct (chain !! o) as [x|] eqn:Ex.
    - destruct (bool_decide_reflect (o ∈ narrow.*1)) as [Hin|Hin].
      + split_and!; [done..|]. by right.
      + split_and!; [by apply narrow_ok_snoc|intros; by apply seeded_snoc|apply (seeded_here _ (o, x))].
    - split_and!; [done..|]. by left. }
  destruct (IH n' HN') as (H1 & H2 & H3). split_and!; [done|auto|].
  intros x [->|Hx]%elem_of_cons; auto.
Qed.

Lemma seed_collisions_spec ids narrow :
  narrow_ok narrow ->
  narrow_ok (seed_collisions chain ids narrow) /\
  (forall o, seeded narrow o -> seeded (seed_collisions chain ids narrow) o) /\
  (forall o, txid o ∈ ids -> seeded (seed_collisions chain ids narrow) o).
Proof.
  intros HN. unfold seed_collisions.
  assert (forall l narrow, narrow_ok narrow -> (forall p, p ∈ l -> chain !! p.1 = Some p.2) ->
    let r := foldl (fun narrow (p : OutPoint * UtxoEntry) =>
           if bool_decide (txid p.1 ∈ ids) && negb (bool_decide (p.1 ∈ narrow.*1)) then narrow ++ [p] else narrow) narrow l in
    narrow_ok r /\ (forall o, seeded narrow o -> seeded r o) /\ (forall p, p ∈ l -> txid p.1 ∈ ids -> seeded r p.1)) as HL.
  { clear. induction l as [|p l IH]; intros narrow HN Hl; cbn [foldl]; [split_and!; [done..|set_solver]|].
    destruct (bool_decide_reflect (txid p.1 ∈ ids)) as [Hid|Hid]; cbn [andb].
    - destruct (bool_decide_reflect (p.1 ∈ narrow.*1)) as [Hin|Hin]; cbn [negb].
      + destruct (IH narrow HN) as (H1 & H2 & H3); [set_solver|]. split_and!; [done..|].
        intros q [->|Hq]%elem_of_cons; [|auto]. intros _. apply H2. by right.
      + destruct (IH (narrow ++ [p])) as (H1 & H2 & H3); [apply narrow_ok_snoc; set_solver|set_solver|].
        split_and!; [done| |].
        * intros o Ho. by apply H2, seeded_snoc.
        * intros q [->|Hq]%elem_of_cons; [|auto]. intros _. apply H2, seeded_here.
    - destruct (IH narrow HN) as (H1 & H2 & H3); [set_solver|]. split_and!; [done..|].
      intros q [->|Hq]%elem_of_cons; [done|auto]. }
  destruct (HL (map_to_list chain) narrow HN) as (H1 & H2 & H3).
  { intros [o x] Hx. by apply elem_of_map_to_list. }
  split_and!; [done..|]. intros o Ho. destruct (chain !! o) as [x|] eqn:Ex; [|by left].
  apply (H3 (o, x)); [by apply elem_of_map_to_list|done].
Qed.

Lemma try_from_narrow narrow :
  narrow_ok narrow -> exists s, try_from_entries narrow = Ok s /\ forall o, seeded narrow o -> s !! o = chain !! o.
Proof.
  intros [HN HE]. exists (list_to_map narrow). split.
  - unfold try_from_entries.
    assert (forall l m, NoDup l.*1 -> (forall p, p ∈ l -> m !! p.1 = None) ->
      try_fold (fun (restored : UtxoState) '(o, e) => match restored !! o with
         | Some _ => Err (UtxoError.DuplicateOutpoint o) | None => Ok (<[o := e]> restored) end) l m
      = Ok (list_to_map l ∪ m)) as HL.
    { clear. induction l as [|[o e] l IH]; intros m HN Hm; [cbn; by rewrite (left_id_L ∅ (∪))|].
      cbn [try_fold]. assert (m !! o = None) as -> by (apply (Hm (o, e)), list_elem_of_here). apply NoDup_cons in HN as [Hn HN]. rewrite IH; [|done|].
      - f_equal. change (list_to_map ((o, e) :: l) : UtxoState) with (<[o := e]> (list_to_map l) : UtxoState).
        rewrite <- insert_union_l. symmetry. apply insert_union_r. by apply not_elem_of_list_to_map_1.
      - intros p Hp. rewrite lookup_insert_ne; [apply Hm; set_solver|]. intros Heq. apply Hn. cbn [fst]. rewrite Heq. by apply list_elem_of_fmap_2. }
    rewrite HL; [by rewrite (right_id_L ∅ (∪))|done|]. intros p _. apply lookup_empty.
  - intros o Ho. destruct (list_to_map narrow !! o) as [x|] eqn:Ex.
    + apply elem_of_list_to_map_2 in Ex. symmetry. apply (HE (o, x) Ex).
    + destruct Ho as [Ho|Ho]; [done|]. by apply not_elem_of_list_to_map_2 in Ex.
Qed.

End Narrow.

(** ** Candidates *)

Lemma check_conflicts_spec spenders l :
  match check_conflicts spenders l with
  | Ok _ => forall o, o ∈ l -> spenders !! o = None
  | Err e => exists o t, e = MempoolError.Conflict o t /\ o ∈ l /\ spenders !! o = Some t
  end.
Proof.
  induction l as [|o l IH]; cbn [check_conflicts]; [set_solver|].
  destruct (spenders !! o) as [t|] eqn:Eo; [exists o, t; set_solver|].
  destruct (check_conflicts spenders l) as [[]|].
  - intros o' [->|?]%elem_of_cons; auto.
  - destruct IH as (o' & t & ? & ? & ?). exists o', t. set_solver.
Qed.

Lemma find_parents_spec entries chain l D :
  (forall t e, entries !! t = Some e -> me_txid e = t) ->
  match find_parents entries chain l D with
  | Ok D' => (forall p, p ∈ D' <-> p ∈ D \/ exists o, o ∈ l /\ chain !! o = None /\ txid o = p) /\
             (forall o, o ∈ l -> chain !! o = None -> is_Some (entries !! txid o))
  | Err e => exists o, e = MempoolError.MissingDependency o \/ e = MempoolError.InvalidParentOutput o
  end.
Proof.
  intros HI. revert D. induction l as [|o l IH]; intros D; cbn [find_parents]; [set_solver|].
  destruct (chain !! o) as [x|] eqn:Ex.
  - specialize (IH D). destruct (find_parents _ _ _ _) as [D'|]; [|done]. destruct IH as [H1 H2]. split.
    + intros p. rewrite H1. setoid_rewrite elem_of_cons. split; [naive_solver|].
      intros [?|(o' & [->|?] & ? & ?)]; [by left|congruence|eauto].
    + intros o' [->|?]%elem_of_cons ?; [congruence|auto].
  - destruct (entries !! txid o) as [e|] eqn:Ee; [|eauto].
    destruct (outputs _ !! _); [|eauto]. rewrite (HI _ _ Ee).
    specialize (IH ({[txid o]} ∪ D)). destruct (find_parents _ _ _ _) as [D'|]; [|done]. destruct IH as [H1 H2]. split.
    + intros p. rewrite H1, elem_of_union, elem_of_singleton. setoid_rewrite elem_of_cons. naive_solver.
    + intros o' [->|?]%elem_of_cons ?; [eauto|auto].
Qed.

Lemma check_descendants_spec entries max l L :
  mirrored entries -> topo entries L -> covers entries L -> Z.of_nat (size entries) < USIZE_MAX ->
  (forall a, a ∈ l -> is_Some (entries !! a)) ->
  match check_descendants entries max l with
  | Ok _ => forall a D, a ∈ l -> descendant_closure entries a = Ok D -> Z.of_nat (size D) + 1 <= max
  | Err e => e = MempoolError.TooManyDescendants
  end.
Proof.
  intros HM HT HC Hsz. induction l as [|a l IH]; intros Hl; cbn [check_descendants]; [set_solver|].
  destruct (descendant_closure_ok entries HM L HT HC a) as (D & ED & _ & HD & _); [apply Hl; set_solver|]. rewrite ED.
  assert (size D <= size entries)%nat.
  { rewrite <- size_dom. apply subseteq_size. intros t Ht. apply elem_of_dom. auto. }
  rewrite (proj2 (checked_add_Some USIZE_MAX (Z.of_nat (size D)) 1 _)) by (split; [done|lia]). cbn [ok_or].
  destruct (_ >? _) eqn:Eg; [done|]. specialize (IH ltac:(set_solver)). destruct (check_descendants _ _ _); [|done].
  intros a' D' [->|?]%elem_of_cons HD'; [|eauto]. assert (D = D') as <- by congruence. rewrite Z.gtb_ltb, Z.ltb_ge in Eg. lia.
Qed.

Lemma seed_ancestors_spec entries chain l narrow :
  narrow_ok chain narrow -> (forall a, a ∈ l -> is_Some (entries !! a)) ->
  exists narrow', seed_ancestors entries chain l narrow = Ok narrow' /\ narrow_ok chain narrow' /\
    (forall o, seeded chain narrow o -> seeded chain narrow' o) /\
    (forall t e o, t ∈ l -> entries !! t = Some e -> o ∈ spent_outpoints (me_transaction e) -> seeded chain narrow' o).
Proof.
  revert narrow. induction l as [|a l IH]; intros narrow HN Hl; cbn [seed_ancestors].
  { exists narrow. split_and!; [done..|set_solver]. }
  destruct (Hl a) as [e Ee]; [set_solver|]. rewrite Ee. cbn [ok_or].
  destruct (seed_chain_inputs_spec chain narrow (me_transaction e) HN) as (H1 & H2 & H3).
  destruct (IH _ H1) as (narrow' & -> & HN' & Hm & Hs); [set_solver|]. exists narrow'. split_and!; [done|done| |].
  { intros o Ho. by apply Hm, H2. }
  intros t e' o [->|Ht]%elem_of_cons Ee' Ho; [simplify_eq; auto|eauto].
Qed.

Section Prepare.
Context `{Blake3} {V : Type} `{!SpendVerifier V} (chain : UtxoState) (h : Z) (v : V).

(** An entry that may be added to the pool, with its ancestors. *)
Record candidate_ok (entries : Entries) (spenders : gmap OutPoint Hash256) (A : gset Hash256)
    (e : MempoolEntry) : Prop := MkCandidateOk {
  co_id : me_txid e = Transaction_txid (me_transaction e);
  co_bytes : me_encoded_bytes e = Z.of_nat (length (Transaction_encode (me_transaction e)));
  co_fresh : entries !! me_txid e = None;
  co_unspent : forall o, o ∈ spent_outpoints (me_transaction e) -> spenders !! o = None;
  co_parents : forall p, p ∈ me_parents e <->
    exists o, o ∈ spent_outpoints (me_transaction e) /\ chain !! o = None /\ txid o = p;
  co_ancestors : forall t, t ∈ A <-> reaches (edge entries me_parents) (me_parents e) t;
  co_known : forall t, t ∈ A -> is_Some (entries !! t);
  co_children : me_children e = ∅;
  co_valid : admitted chain h v entries (me_transaction e) (me_fee e);
  co_collide : forall o, is_Some (made h (me_transaction e) !! o) ->
    chain !! o = None \/ exists a, spenders !! o = Some a /\ a ∈ A;
}.

Lemma co_parent_known entries spenders A e p :
  candidate_ok entries spenders A e -> p ∈ me_parents e -> p ∈ A /\ is_Some (entries !! p).
Proof.
  intros HC Hp. assert (p ∈ A) as HA by (apply (co_ancestors _ _ _ _ HC); exists p; split; [done|apply rtc_refl]).
  split; [done|]. by apply (co_known _ _ _ _ HC).
Qed.

(** Why the checks before the replay may refuse. *)
Definition refusal (pool : Mempool) (tx : Transaction) (base : ChainBase) (e : MempoolError.t) : Prop :=
  match e with
  | MempoolError.InvariantViolation | MempoolError.DependencyCycle | MempoolError.InvalidConfig => False
  | MempoolError.StaleChainContext => base <> mp_base pool
  | MempoolError.HeightOverflow => U64_MAX <= tip_height base
  | MempoolError.AlreadyKnown id => id = Transaction_txid tx /\ is_Some (mp_entries pool !! id)
  | MempoolError.Conflict o t => o ∈ spent_outpoints tx /\ mp_spenders pool !! o = Some t
  | _ => True
  end.

(** The replay of the ancestors and of the candidate on the narrow state. *)
Lemma candidate_replays entries spenders A D order tx fee s s' :
  pool_ok chain h v entries spenders -> topo entries order -> (forall t, t ∈ order <-> t ∈ A) ->
  (forall t, t ∈ A <-> reaches (edge entries me_parents) D t) -> (forall t, t ∈ A -> is_Some (entries !! t)) ->
  entries !! Transaction_txid tx = None -> (forall o, o ∈ spent_outpoints tx -> spenders !! o = None) ->
  (forall p, p ∈ D <-> exists o, o ∈ spent_outpoints tx /\ chain !! o = None /\ txid o = p) ->
  (forall o, o ∈ spent_outpoints tx -> s !! o = chain !! o) ->
  (forall o, txid o = Transaction_txid tx -> s !! o = chain !! o) ->
  apply_normal_transaction tx h v (effects h entries order s) = (Ok fee, s') ->
  candidate_ok entries spenders A
    (MkMempoolEntry tx (Transaction_txid tx) fee (Z.of_nat (length (Transaction_encode tx))) D ∅).
Proof.
  intros HP HT HO HA HK Hf Hu HD Hs1 Hs2 Happ. constructor; cbn [me_transaction me_txid me_fee me_encoded_bytes me_parents me_children]; try done.
  - exists (effects h entries order s). split_and!; [by rewrite Happ| |].
    + intros o Ho. apply (view_after chain h v entries spenders); [done..| |by apply Hs1|].
      * unfold spent_in. by rewrite (Hu o Ho).
      * intros Hc _. apply HO, HA. exists (txid o). split; [apply HD; eauto|apply rtc_refl].
    + intros o Ho%made_keys. apply apply_normal_spec in Happ as (_ & _ & _ & _ & HF & _).
      rewrite Forall_forall in HF. apply list_elem_of_fmap in Ho as (p & -> & Hp). by apply HF.
  - intros o Ho. pose proof Ho as [x Hx]. apply made_txid in Hx.
    apply apply_normal_spec in Happ as (_ & _ & _ & _ & HF & _). apply made_keys, list_elem_of_fmap in Ho as (p & -> & Hp).
    rewrite Forall_forall in HF. specialize (HF p Hp). cbn beta in HF.
    pose proof (effects_lookup chain h v entries spenders order s p.1 HP HT) as HE.
    assert (made_in h entries order p.1 = None) as Em.
    { unfold made_in, created_at. rewrite Hx, Hf. by destruct (bool_decide _). }
    rewrite Em, HF in HE. unfold spent_in in HE. rewrite (Hs2 _ Hx) in HE.
    destruct (spenders !! p.1) as [a|] eqn:Ea; [|by left].
    destruct (bool_decide_reflect (a ∈ order)) as [Hin|]; [|by left]. right. exists a. split; [done|]. by apply HO.
Qed.

(** What [prepare_admission] establishes of its plan. *)
Definition prepared (pool : Mempool) (tx : Transaction) (plan : AdmissionPlan) : Prop :=
  let c := ap_candidate plan in
  ap_remove plan = ∅ /\ me_transaction (pc_entry c) = tx /\ pc_spend_claims c = spent_outpoints tx /\
  candidate_ok (mp_entries pool) (mp_spenders pool) (pc_ancestors c) (pc_entry c) /\
  validate_normal_transaction_skeleton tx = Ok tt /\
  Z.of_nat (size (pc_ancestors c)) <= cfg_max_ancestors (mp_config pool) /\
  (forall a D, a ∈ pc_ancestors c -> descendant_closure (mp_entries pool) a = Ok D ->
     Z.of_nat (size D) + 1 <= cfg_max_descendants (mp_config pool)).

Lemma prepare_spec pool tx base :
  pool_ok chain h v (mp_entries pool) (mp_spenders pool) -> h = tip_height (mp_base pool) + 1 ->
  Z.of_nat (size (mp_entries pool)) < USIZE_MAX ->
  match prepare_admission pool tx base chain v with
  | Ok plan => base = mp_base pool /\ prepared pool tx plan
  | Err e => refusal pool tx base e
  end.
Proof.
  intros HP Hh Hsz. unfold prepare_admission.
  destruct (bool_decide_reflect (base = mp_base pool)) as [->|Hb]; cbn [negb]; [|done].
  destruct (checked_add U64_MAX _ 1) as [h'|] eqn:Eh; cbn [ok_or]; [|apply checked_add_None in Eh; cbn; lia].
  apply checked_add_Some in Eh as [Eh _]. replace h' with h by congruence. clear h' Eh.
  destruct (validate_normal_transaction_skeleton tx) as [[]|] eqn:Esk; cbn [map_err]; [|done].
  destruct (bool_decide_reflect (is_Some (mp_entries pool !! Transaction_txid tx))) as [Hk|Hk]; [done|].
  pose proof (check_conflicts_spec (mp_spenders pool) (spent_outpoints tx)) as Hc.
  change (map TxInput_outpoint (inputs tx)) with (spent_outpoints tx).
  destruct (check_conflicts _ _) as [[]|]; [|by destruct Hc as (o & t & -> & ?)].
  pose proof (find_parents_spec (mp_entries pool) chain (spent_outpoints tx) ∅) as Hpar.
  destruct (find_parents _ _ _ _) as [D|]; [|destruct Hpar as (o & [->| ->]); [apply (po_id _ _ _ _ _ HP)|done..]].
  destruct Hpar as [HD HDk]; [apply (po_id _ _ _ _ _ HP)|].
  assert (forall p, p ∈ D <-> exists o, o ∈ spent_outpoints tx /\ chain !! o = None /\ txid o = p) as HD'
    by (intros p; rewrite HD; set_solver).
  pose proof (po_mirror _ _ _ _ _ HP) as HM. destruct (po_topo _ _ _ _ _ HP) as (L & HT & HC).
  destruct (ancestor_closure_ok (mp_entries pool) HM L HT HC D) as (A & -> & HA & HAk).
  { intros p (o & ? & ? & <-)%HD'. auto. }
  destruct (_ >? _) eqn:Eg; [done|]. rewrite Z.gtb_ltb, Z.ltb_ge in Eg.
  pose proof (check_descendants_spec (mp_entries pool) (cfg_max_descendants (mp_config pool)) (set_list A) L HM HT HC Hsz) as Hdesc.
  assert (forall a, a ∈ set_list A -> is_Some (mp_entries pool !! a)) as HAl by (intros a ?%elem_of_set_list; auto).
  specialize (Hdesc HAl). destruct (check_descendants _ _ _) as [[]|]; [|by subst].
  destruct (order_exists (mp_entries pool) HM L HT HC) as (order & -> & Hto & Hco).
  rewrite (filter_closure_length (mp_entries pool)), Nat.eqb_refl by done. cbn [negb].
  set (replay := filter (fun a => a ∈ A) order).
  assert (forall t, t ∈ replay <-> t ∈ A) as HR.
  { intros t. unfold replay. rewrite list_elem_of_filter. split; [naive_solver|]. auto. }
  assert (topo (mp_entries pool) replay) as Htr.
  { apply topo_filter; [|done]. intros t e p (s & Hs & Hst)%HA Ee Hp. apply HA. exists s. split; [done|].
    eapply rtc_r; [exact Hst|]. by exists e. }
  destruct (seed_ancestors_spec (mp_entries pool) chain replay []) as (n1 & -> & HN1 & _ & Hs1).
  { split; [constructor|set_solver]. } { intros a Ha%HR. auto. }
  destruct (seed_chain_inputs_spec chain n1 tx HN1) as (HN2 & Hm2 & Hs2).
  destruct (seed_collisions_spec chain ({[Transaction_txid tx]} ∪ A) _ HN2) as (HN3 & Hm3 & Hs3).
  destruct (try_from_narrow chain _ HN3) as (s & -> & Hs). cbn [map_err].
  rewrite (replay_ok chain h v (mp_entries pool) (mp_spenders pool)); [|done..|].
  2: { split; [intros; eapply Hs, Hm3, Hm2, Hs1; eauto|]. intros o Ho%HR. apply Hs, Hs3. set_solver. }
  destruct (apply_normal_transaction tx h v _) as [[fee|] s'] eqn:Ea; [|done]. split; [done|].
  split_and!; cbn; try done.
  - assert (forall o, o ∈ spent_outpoints tx -> s !! o = chain !! o) as Hin by (intros o Ho; apply Hs, Hm3; auto).
    assert (forall o, txid o = Transaction_txid tx -> s !! o = chain !! o) as Hout by (intros o Ho; apply Hs, Hs3; set_solver).
    apply eq_None_not_Some in Hk. by eapply candidate_replays.
  - intros a D' Ha. by apply Hdesc, elem_of_set_list.
Qed.

End Prepare.
