(* ===== verification/MempoolCommit.v ===== *)
(** What a committed admission leaves: the pool without the evicted entries,
    with the candidate added, keeps the pool's invariant. *)
From S2P Require Import Prelude Encoding Transaction Block Bits Difficulty BlockRules Utxo MapSum MempoolGraph Mempool MempoolReplay MempoolAdmit.

(** The pool without [R], and with [e]. *)
Definition survivors (R : gset Hash256) (m : Entries) : Entries :=
  with_children (fun c => c ∖ R) <$> filter (fun p => p.1 ∉ R) m.

Definition surviving_spenders (R : gset Hash256) (m : gmap OutPoint Hash256) : gmap OutPoint Hash256 :=
  filter (fun p => p.2 ∉ R) m.

Definition adopt (e : MempoolEntry) (t : Hash256) (x : MempoolEntry) : MempoolEntry :=
  if bool_decide (t ∈ me_parents e) then with_children (fun c => {[me_txid e]} ∪ c) x else x.

Definition joined (e : MempoolEntry) (m : Entries) : Entries :=
  <[me_txid e := e]> (map_imap (fun t x => Some (adopt e t x)) m).

Definition joined_spenders (e : MempoolEntry) (m : gmap OutPoint Hash256) : gmap OutPoint Hash256 :=
  foldl (fun m o => <[o := me_txid e]> m) m (spent_outpoints (me_transaction e)).

(** The entries to remove take their children with them. *)
Definition child_closed (m : Entries) (R : gset Hash256) : Prop :=
  forall t e c, t ∈ R -> m !! t = Some e -> c ∈ me_children e -> c ∈ R.

Lemma survivors_Some R m t x' :
  survivors R m !! t = Some x' <->
  exists x, m !! t = Some x /\ (t ∉ R) /\ x' = with_children (fun c => c ∖ R) x.
Proof.
  unfold survivors. rewrite lookup_fmap_Some. setoid_rewrite map_lookup_filter_Some. naive_solver.
Qed.

Lemma surviving_spenders_Some R m o t : surviving_spenders R m !! o = Some t <-> m !! o = Some t /\ (t ∉ R).
Proof. apply map_lookup_filter_Some. Qed.

Lemma joined_self e m : joined e m !! me_txid e = Some e.
Proof. apply lookup_insert_eq. Qed.

Lemma joined_Some e m t x' :
  t <> me_txid e -> joined e m !! t = Some x' <-> exists x, m !! t = Some x /\ x' = adopt e t x.
Proof.
  intros Ht. unfold joined. rewrite lookup_insert_ne, map_lookup_imap by done. destruct (m !! t); cbn; naive_solver.
Qed.

Lemma joined_old e m t x : m !! me_txid e = None -> m !! t = Some x -> joined e m !! t = Some (adopt e t x).
Proof. intros Hf Hx. apply joined_Some; [congruence|eauto]. Qed.

Lemma adopt_fields e t x :
  me_transaction (adopt e t x) = me_transaction x /\ me_txid (adopt e t x) = me_txid x /\
  me_fee (adopt e t x) = me_fee x /\ me_encoded_bytes (adopt e t x) = me_encoded_bytes x /\
  me_parents (adopt e t x) = me_parents x.
Proof. unfold adopt. by destruct (bool_decide _). Qed.

Lemma adopt_children e t x c :
  c ∈ me_children (adopt e t x) <-> c ∈ me_children x \/ (c = me_txid e /\ t ∈ me_parents e).
Proof. unfold adopt. destruct (bool_decide_reflect (t ∈ me_parents e)); cbn; set_solver. Qed.

Lemma joined_spenders_lookup e m o :
  joined_spenders e m !! o = if bool_decide (o ∈ spent_outpoints (me_transaction e)) then Some (me_txid e) else m !! o.
Proof.
  unfold joined_spenders. revert m. induction (spent_outpoints _) as [|o' l IH]; intros m; cbn [foldl].
  { by rewrite bool_decide_false by set_solver. }
  rewrite IH. destruct (bool_decide_reflect (o ∈ l)); [by rewrite bool_decide_true by set_solver|].
  destruct (decide (o = o')) as [->|].
  - by rewrite lookup_insert_eq, bool_decide_true by set_solver.
  - by rewrite lookup_insert_ne, bool_decide_false by set_solver.
Qed.

Section Commit.
Context `{Blake3} {V : Type} `{!SpendVerifier V} (chain : UtxoState) (h : Z) (v : V).

(** Acceptance only looks at the outputs spent. *)
Lemma admitted_view m1 m2 tx fee :
  (forall o, o ∈ spent_outpoints tx -> chain !! o = None -> created_at h m1 o = created_at h m2 o) ->
  admitted chain h v m1 tx fee -> admitted chain h v m2 tx fee.
Proof.
  intros HV (s & Hs & Hi & Ho). exists s. split_and!; [done| |done]. intros o Hin. rewrite (Hi o Hin). unfold view.
  destruct (chain !! o) eqn:Eo; [done|]. auto.
Qed.

(** ** Removal *)

Section Remove.
Context (m : Entries) (sp : gmap OutPoint Hash256) (R : gset Hash256).
Abbreviation m' := (survivors R m).

Lemma created_survivors o : txid o ∉ R -> created_at h m' o = created_at h m o.
Proof.
  intros Hn. unfold created_at. destruct (m !! txid o) as [x|] eqn:Ex.
  - by rewrite (proj2 (survivors_Some R m (txid o) _) (ex_intro _ x (conj Ex (conj Hn eq_refl)))).
  - destruct (m' !! txid o) as [x'|] eqn:Ex'; [|done]. apply survivors_Some in Ex' as (x & ? & _). congruence.
Qed.

Lemma up_survivors x y : edge m' me_parents x y -> edge m me_parents x y.
Proof. intros (e & (e0 & Ee & _ & ->)%survivors_Some & Hy). by exists e0. Qed.

Context (HP : pool_ok chain h v m sp) (HR : child_closed m R).

(** The parents of a survivor survive. *)
Lemma parent_survives t e p : m !! t = Some e -> t ∉ R -> p ∈ me_parents e -> p ∉ R.
Proof using HP HR.
  intros Ee Hn Hp Hr. destruct (po_mirror _ _ _ _ _ HP t e Ee) as [Hpar _]. destruct (Hpar p Hp) as (e' & Ee' & Hc).
  by apply Hn, (HR p e').
Qed.

Lemma survivors_up x y : edge m me_parents x y -> x ∉ R -> edge m' me_parents x y /\ (y ∉ R).
Proof using HP HR.
  intros (e & Ee & Hy) Hn. split; [|by eapply parent_survives].
  eexists. split; [apply survivors_Some; eauto|]. done.
Qed.

Lemma survivors_tc x y : tc (edge m me_parents) x y -> x ∉ R -> tc (edge m' me_parents) x y /\ (y ∉ R).
Proof using HP HR.
  induction 1 as [x y HE|x y z HE _ IH]; intros Hn; destruct (survivors_up _ _ HE Hn) as [HE' Hy].
  - split; [by apply tc_once|done].
  - destruct (IH Hy) as [? ?]. split; [by eapply tc_l|done].
Qed.

Lemma topo_survivors l : topo m l -> topo m' (filter (fun t => t ∉ R) l).
Proof using HP HR.
  induction 1 as [|l t _ IH (Hn & e & Ee & Hp)]; [constructor|]. rewrite filter_app.
  destruct (decide (t ∈ R)) as [Ht|Ht].
  - rewrite filter_cons_False by tauto. by rewrite app_nil_r.
  - rewrite filter_cons_True by done. constructor; [done|]. split.
    + by intros [_ ?]%list_elem_of_filter.
    + eexists. split; [apply survivors_Some; eauto|]. intros p Hpp. apply list_elem_of_filter.
      split; [by eapply parent_survives|auto].
Qed.

Lemma mirrored_survivors : mirrored m'.
Proof using HP HR.
  intros t x' (x & Ex & Hn & ->)%survivors_Some. destruct (po_mirror _ _ _ _ _ HP t x Ex) as [Hpar Hch]. split.
  - intros p Hp. destruct (Hpar p Hp) as (e & Ee & Hc). eexists. split.
    + apply survivors_Some. exists e. split_and!; [done|by apply (parent_survives t x)|done].
    + cbn. set_solver.
  - intros c [Hc Hcr]%elem_of_difference. destruct (Hch c Hc) as (e & Ee & Hp). eexists. split.
    + apply survivors_Some. exists e. split_and!; done.
    + done.
Qed.

Lemma pool_ok_remove : pool_ok chain h v m' (surviving_spenders R sp).
Proof using HP HR.
  constructor.
  - intros t x' (x & Ex & _ & ->)%survivors_Some. apply (po_id _ _ _ _ _ HP t x Ex).
  - intros o t. rewrite surviving_spenders_Some, (po_spend _ _ _ _ _ HP). setoid_rewrite survivors_Some. split.
    + intros [(e & Ee & Ho) Hn]. eauto 10.
    + intros (e' & (e & Ee & Hn & ->) & Ho). eauto.
  - intros t x' p (x & Ex & _ & ->)%survivors_Some. apply (po_parents _ _ _ _ _ HP t x p Ex).
  - apply mirrored_survivors.
  - destruct (po_topo _ _ _ _ _ HP) as (L & HT & HC). exists (filter (fun t => t ∉ R) L).
    split; [by apply topo_survivors|]. intros t [x' (x & Ex & Hn & _)%survivors_Some].
    apply list_elem_of_filter. split; [done|]. apply HC. eauto.
  - intros t x' (x & Ex & Hn & ->)%survivors_Some.
    eapply (admitted_view m); [|apply (po_valid _ _ _ _ _ HP t x Ex)].
    intros o Ho Hc. symmetry. apply created_survivors. eapply parent_survives; [done..|].
    apply (po_parents _ _ _ _ _ HP t x _ Ex). eauto.
  - intros t x' o (x & Ex & Hn & ->)%survivors_Some Ho.
    destruct (po_collide _ _ _ _ _ HP t x o Ex Ho) as [?|(a & Ea & Ha)]; [by left|right].
    destruct (survivors_tc _ _ Ha Hn). exists a. rewrite surviving_spenders_Some. done.
Qed.

(** A candidate none of whose ancestors leave is still one. *)
Lemma candidate_ok_remove A e :
  candidate_ok chain h v m sp A e -> (forall t, t ∈ A -> t ∉ R) ->
  candidate_ok chain h v m' (surviving_spenders R sp) A e.
Proof using HP HR.
  intros HC HA. pose proof (co_ancestors _ _ _ _ _ _ _ HC) as HCA. constructor; try apply HC.
  - destruct (m' !! me_txid e) as [x'|] eqn:Ex; [|done]. apply survivors_Some in Ex as (x & Ex & _).
    pose proof (co_fresh _ _ _ _ _ _ _ HC). congruence.
  - intros o Ho. destruct (surviving_spenders R sp !! o) as [a|] eqn:Ea; [|done].
    apply surviving_spenders_Some in Ea as [Ea _]. by rewrite (co_unspent _ _ _ _ _ _ _ HC o Ho) in Ea.
  - intros t. rewrite HCA. split; intros (s & Hs & HS); exists s; (split; [done|]).
    + assert (s ∉ R) as Hn by (apply HA, HCA; exists s; split; [done|apply rtc_refl]). clear Hs.
      induction HS as [|x y z HE _ IH]; [apply rtc_refl|]. destruct (survivors_up _ _ HE Hn) as [HE' Hy].
      eapply rtc_l; [done|auto].
    + revert HS. apply rtc_subrel. intros x y. apply up_survivors.
  - intros t Ht. destruct (co_known _ _ _ _ _ _ _ HC t Ht) as [x Hx]. eexists. apply survivors_Some. eauto.
  - eapply (admitted_view m); [|apply HC]. intros o Ho Hc. symmetry. apply created_survivors, HA.
    eapply (co_parent_known chain h v); [done|]. apply HC. eauto.
  - intros o Ho. destruct (co_collide _ _ _ _ _ _ _ HC o Ho) as [?|(a & Ea & Ha)]; [by left|right].
    exists a. rewrite surviving_spenders_Some. auto.
Qed.

End Remove.

(** ** Insertion *)

Section Insert.
Context (m : Entries) (sp : gmap OutPoint Hash256) (A : gset Hash256) (e : MempoolEntry).
Context (HP : pool_ok chain h v m sp) (HC : candidate_ok chain h v m sp A e).
Abbreviation m' := (joined e m).

Lemma known_other t x : m !! t = Some x -> t <> me_txid e.
Proof using HC. intros Hx ->. pose proof (co_fresh _ _ _ _ _ _ _ HC). congruence. Qed.

Lemma joined_known t x : m !! t = Some x -> m' !! t = Some (adopt e t x).
Proof using HC. intros Hx. apply joined_old; [apply HC|done]. Qed.

Lemma joined_inv t x' :
  m' !! t = Some x' -> (t = me_txid e /\ x' = e) \/ (exists x, m !! t = Some x /\ x' = adopt e t x).
Proof using Type.
  destruct (decide (t = me_txid e)) as [->|Hne].
  - rewrite joined_self. intros [= <-]. by left.
  - rewrite joined_Some by done. by right.
Qed.

Lemma created_joined o x : m !! txid o = Some x -> created_at h m o = created_at h m' o.
Proof using HC.
  intros Hx. unfold created_at. rewrite Hx, (joined_known _ _ Hx). by destruct (adopt_fields e (txid o) x) as (-> & _).
Qed.

Lemma joined_up x y : edge m me_parents x y -> edge m' me_parents x y.
Proof using HC.
  intros (a & Ea & Hy). exists (adopt e x a). split; [by apply joined_known|].
  by destruct (adopt_fields e x a) as (_ & _ & _ & _ & ->).
Qed.

Lemma topo_joined l : topo m l -> topo m' l.
Proof using HC.
  induction 1 as [|l t _ IH (Hn & x & Ex & Hp)]; [constructor|]. constructor; [done|]. split; [done|].
  exists (adopt e t x). split; [by apply joined_known|]. by destruct (adopt_fields e t x) as (_ & _ & _ & _ & ->).
Qed.

Lemma old_parent_known t x p : m !! t = Some x -> p ∈ me_parents x -> exists y, m !! p = Some y /\ t ∈ me_children y.
Proof using HP. intros Ex Hp. destruct (po_mirror _ _ _ _ _ HP t x Ex) as [Hpar _]. auto. Qed.

Lemma mirrored_joined : mirrored m'.
Proof using HP HC.
  intros t x' [[-> ->]|(x & Ex & ->)]%joined_inv.
  - split; [|rewrite (co_children _ _ _ _ _ _ _ HC); set_solver].
    intros p Hp. destruct (co_parent_known _ _ _ _ _ _ _ _ HC Hp) as [_ [y Ey]].
    exists (adopt e p y). split; [by apply joined_known|]. apply adopt_children. by right.
  - destruct (adopt_fields e t x) as (_ & _ & _ & _ & ->). split.
    + intros p Hp. destruct (old_parent_known t x p Ex Hp) as (y & Ey & Hy).
      exists (adopt e p y). split; [by apply joined_known|]. apply adopt_children. by left.
    + intros c [Hc|[-> Ht]]%adopt_children; [|exists e; split; [apply joined_self|done]].
      destruct (po_mirror _ _ _ _ _ HP t x Ex) as [_ Hch]. destruct (Hch c Hc) as (y & Ey & Hy).
      exists (adopt e c y). split; [by apply joined_known|]. by destruct (adopt_fields e c y) as (_ & _ & _ & _ & ->).
Qed.

Lemma claims_spent_by o t : sp !! o = Some t -> joined_spenders e sp !! o = Some t.
Proof using HC.
  intros Ho. rewrite joined_spenders_lookup, bool_decide_false; [done|].
  intros Hin. by rewrite (co_unspent _ _ _ _ _ _ _ HC o Hin) in Ho.
Qed.

Lemma spenders_joined o t :
  joined_spenders e sp !! o = Some t <->
  exists x, m' !! t = Some x /\ o ∈ spent_outpoints (me_transaction x).
Proof using HP HC.
  split.
  - rewrite joined_spenders_lookup. destruct (bool_decide_reflect (o ∈ spent_outpoints (me_transaction e))).
    + intros [= <-]. exists e. split; [apply joined_self|done].
    + intros (x & Ex & Ho)%(po_spend _ _ _ _ _ HP). exists (adopt e t x). split; [by apply joined_known|].
      by destruct (adopt_fields e t x) as (-> & _).
  - intros (x' & [[-> ->]|(x & Ex & ->)]%joined_inv & Ho).
    + by rewrite joined_spenders_lookup, bool_decide_true.
    + destruct (adopt_fields e t x) as (Et & _). rewrite Et in Ho. apply claims_spent_by.
      apply (po_spend _ _ _ _ _ HP). eauto.
Qed.

Lemma pool_ok_insert : pool_ok chain h v m' (joined_spenders e sp).
Proof using HP HC.
  constructor.
  - intros t x' [[-> ->]|(x & Ex & ->)]%joined_inv.
    + split_and!; [done|symmetry; apply HC|apply HC].
    + destruct (adopt_fields e t x) as (-> & -> & _ & -> & _). apply (po_id _ _ _ _ _ HP t x Ex).
  - apply spenders_joined.
  - intros t x' p [[-> ->]|(x & Ex & ->)]%joined_inv; [apply HC|].
    destruct (adopt_fields e t x) as (-> & _ & _ & _ & ->). apply (po_parents _ _ _ _ _ HP t x p Ex).
  - apply mirrored_joined.
  - destruct (po_topo _ _ _ _ _ HP) as (L & HT & HL). exists (L ++ [me_txid e]). split.
    + constructor; [by apply topo_joined|]. split.
      * intros Hin. destruct (topo_entries m L _ HT Hin) as [x Hx]. by eapply known_other.
      * exists e. split; [apply joined_self|]. intros p Hp. apply HL. by eapply co_parent_known.
    + intros t [x' [[-> _]|(x & Ex & _)]%joined_inv]; apply elem_of_app; [right; by apply list_elem_of_singleton|].
      left. apply HL. eauto.
  - intros t x' [[-> ->]|(x & Ex & ->)]%joined_inv.
    + eapply (admitted_view m); [|apply HC]. intros o Ho Hc.
      destruct (co_parent_known _ _ _ _ _ _ _ (txid o) HC) as [_ [y Hy]]; [apply HC; eauto|]. by eapply created_joined.
    + destruct (adopt_fields e t x) as (-> & _ & -> & _ & _).
      eapply (admitted_view m); [|apply (po_valid _ _ _ _ _ HP t x Ex)]. intros o Ho Hc.
      destruct (old_parent_known t x (txid o) Ex) as (y & Ey & _); [apply (po_parents _ _ _ _ _ HP t x _ Ex); eauto|].
      by eapply created_joined.
  - intros t x' o [[-> ->]|(x & Ex & ->)]%joined_inv Ho.
    + destruct (co_collide _ _ _ _ _ _ _ HC o Ho) as [?|(a & Ea & Ha)]; [by left|right]. exists a.
      split; [by apply claims_spent_by|]. apply (co_ancestors _ _ _ _ _ _ _ HC) in Ha as (p & Hp & Hpa).
      apply tc_rtc_r with p; [apply tc_once; exists e; split; [apply joined_self|done]|].
      revert Hpa. apply rtc_subrel. intros ? ?. apply joined_up.
    + destruct (adopt_fields e t x) as (Et & _). rewrite Et in Ho.
      destruct (po_collide _ _ _ _ _ HP t x o Ex Ho) as [?|(a & Ea & Ha)]; [by left|right]. exists a.
      split; [by apply claims_spent_by|]. revert Ha. apply (tc_congruence id). intros ? ?. apply joined_up.
Qed.

End Insert.

(** ** The loops of the commit *)

Lemma foldl_alter_lookup (f : MempoolEntry -> MempoolEntry) ps (m : Entries) t :
  NoDup ps ->
  foldl (fun m p => alter f p m) m ps !! t = if bool_decide (t ∈ ps) then f <$> m !! t else m !! t.
Proof using Type.
  intros HN. revert m. induction HN as [|p ps Hn _ IH]; intros m; cbn [foldl].
  { by rewrite bool_decide_false by set_solver. }
  rewrite IH. destruct (decide (t = p)) as [->|Hne].
  - rewrite bool_decide_false by done. rewrite bool_decide_true by set_solver. apply lookup_alter_eq.
  - rewrite lookup_alter_ne by done.
    destruct (bool_decide_reflect (t ∈ ps)); [rewrite bool_decide_true|rewrite bool_decide_false]; set_solver.
Qed.

Lemma foldl_delete_lookup {A} (l : list OutPoint) (m : gmap OutPoint A) o :
  foldl (fun m o => delete o m) m l !! o = if bool_decide (o ∈ l) then None else m !! o.
Proof using Type.
  revert m. induction l as [|x l IH]; intros m; cbn [foldl]; [by rewrite bool_decide_false by set_solver|].
  rewrite IH. destruct (bool_decide_reflect (o ∈ l)); [by rewrite bool_decide_true by set_solver|].
  destruct (decide (o = x)) as [->|].
  - by rewrite lookup_delete_eq, bool_decide_true by set_solver.
  - by rewrite lookup_delete_ne, bool_decide_false by set_solver.
Qed.

Section Removals.
Context (pool : Mempool) (R : gset Hash256) (HP : pool_ok chain h v (mp_entries pool) (mp_spenders pool)).

Lemma apply_removal_entries (m : Entries) sp id e t :
  mp_entries pool !! id = Some e -> id ∈ R ->
  (forall x, m !! t = Some x -> id ∈ me_children x -> t ∈ me_parents e) ->
  (apply_removal m sp (removal_record pool R id)).1 !! t =
  if bool_decide (t = id) then None
  else if bool_decide (t ∈ R) then m !! t else with_children (fun c => c ∖ {[id]}) <$> m !! t.
Proof using Type.
  intros Ee Hid Hch. unfold removal_record. rewrite Ee. cbn [apply_removal fst].
  destruct (bool_decide_reflect (t = id)) as [->|Hne]; [apply lookup_delete_eq|].
  rewrite lookup_delete_ne, foldl_alter_lookup by (done || apply NoDup_filter, NoDup_set_list).
  destruct (bool_decide_reflect (t ∈ R)) as [Ht|Ht].
  - rewrite bool_decide_false; [done|]. by intros [? _]%list_elem_of_filter.
  - destruct (bool_decide_reflect (t ∈ filter (fun p => p ∉ R) (set_list (me_parents e)))) as [|Hn]; [done|].
    destruct (m !! t) as [x|] eqn:Ex; [|done]. simpl. f_equal. destruct x as [tx i f b ps cs]. unfold with_children. cbn. f_equal.
    apply set_eq. intros c. rewrite elem_of_difference, elem_of_singleton. split; [|naive_solver]. intros Hc. split; [done|].
    intros ->. apply Hn, list_elem_of_filter. split; [done|]. apply elem_of_set_list. by apply (Hch _ eq_refl).
Qed.

Lemma apply_removal_spenders (m : Entries) sp id e o :
  mp_entries pool !! id = Some e ->
  (apply_removal m sp (removal_record pool R id)).2 !! o =
  if bool_decide (o ∈ spent_outpoints (me_transaction e)) then None else sp !! o.
Proof using Type. intros Ee. unfold removal_record. rewrite Ee. apply foldl_delete_lookup. Qed.

Definition removals (l : list Hash256) (acc : Entries * gmap OutPoint Hash256) : Entries * gmap OutPoint Hash256 :=
  (foldl (fun acc r => apply_removal acc.1 acc.2 r) acc (map (removal_record pool R) l)).

Lemma removals_entries l acc t :
  NoDup l -> (forall id, id ∈ l -> id ∈ R /\ is_Some (mp_entries pool !! id)) ->
  (forall id e x, id ∈ l -> mp_entries pool !! id = Some e -> acc.1 !! t = Some x ->
     id ∈ me_children x -> t ∈ me_parents e) ->
  (removals l acc).1 !! t =
  if bool_decide (t ∈ l) then None
  else if bool_decide (t ∈ R) then acc.1 !! t else with_children (fun c => c ∖ list_to_set l) <$> acc.1 !! t.
Proof using Type.
  clear HP. unfold removals. intros HN. revert acc. induction HN as [|id l Hn _ IH]; intros acc Hl Hch; cbn [map foldl].
  { rewrite bool_decide_false by set_solver. destruct (bool_decide _); [done|]. destruct (acc.1 !! t) as [x|]; [|done].
    destruct x. unfold with_children. cbn. do 2 f_equal. set_solver. }
  destruct (Hl id) as [Hid [e Ee]]; [set_solver|].
  assert (forall x, acc.1 !! t = Some x -> id ∈ me_children x -> t ∈ me_parents e) as Hch1
    by (intros x Hx; apply (Hch id e x); [set_solver|done..]).
  pose proof (apply_removal_entries acc.1 acc.2 id e t Ee Hid Hch1) as Hstep. rewrite IH; [|set_solver|].
  - rewrite Hstep. destruct (bool_decide_reflect (t = id)) as [->|Hne].
    + rewrite (bool_decide_true (id ∈ id :: l)) by set_solver. by destruct (bool_decide (id ∈ l)), (bool_decide (id ∈ R)).
    + replace (bool_decide (t ∈ id :: l)) with (bool_decide (t ∈ l)) by (apply bool_decide_ext; set_solver).
      destruct (bool_decide (t ∈ l)), (bool_decide (t ∈ R)); try done.
      destruct (acc.1 !! t) as [[]|]; [|done]. cbn. unfold with_children. cbn. do 2 f_equal. set_solver.
  - intros id' e' x Hid' Ee'. rewrite Hstep. destruct (bool_decide (t = id)); [done|]. destruct (bool_decide (t ∈ R)).
    + intros Hx. apply (Hch id' e' x); [set_solver|done..].
    + intros (y & Hy & ->)%fmap_Some. cbn. intros [Hc _]%elem_of_difference. apply (Hch id' e' y); [set_solver|done..].
Qed.

Lemma removals_spenders l acc o :
  NoDup l -> (forall id, id ∈ l -> is_Some (mp_entries pool !! id)) ->
  (forall id e, id ∈ l -> mp_entries pool !! id = Some e ->
     o ∈ spent_outpoints (me_transaction e) <-> acc.2 !! o = Some id) ->
  (removals l acc).2 !! o =
  match acc.2 !! o with Some a => if bool_decide (a ∈ l) then None else Some a | None => None end.
Proof using Type.
  clear HP. unfold removals. intros HN. revert acc. induction HN as [|id l Hn _ IH]; intros acc Hl Hsp; cbn [map foldl].
  { destruct (acc.2 !! o); [|done]. by rewrite bool_decide_false by set_solver. }
  destruct (Hl id) as [e Ee]; [set_solver|].
  pose proof (apply_removal_spenders acc.1 acc.2 id e o Ee) as Hstep.
  pose proof (Hsp id e ltac:(set_solver) Ee) as Hid. rewrite IH; [|set_solver|].
  - rewrite Hstep. destruct (bool_decide_reflect (o ∈ spent_outpoints (me_transaction e))) as [Ho|Ho].
    + apply Hid in Ho as ->. by rewrite bool_decide_true by set_solver.
    + destruct (acc.2 !! o) as [a|] eqn:Ea; [|done].
      replace (bool_decide (a ∈ id :: l)) with (bool_decide (a ∈ l)); [done|]. apply bool_decide_ext.
      rewrite elem_of_cons. split; [by right|]. intros [->|?]; [by destruct Ho; apply Hid|done].
  - intros id' e' Hid' Ee'. rewrite Hstep.
    pose proof (Hsp id' e' ltac:(set_solver) Ee') as Hid2. rewrite Hid2.
    destruct (bool_decide_reflect (o ∈ spent_outpoints (me_transaction e))) as [Ho|Ho]; [|done].
    apply Hid in Ho. rewrite Ho. split; [|done]. intros [= ->]. done.
Qed.

Lemma removals_all :
  (forall id, id ∈ R -> is_Some (mp_entries pool !! id)) ->
  removals (set_list R) (mp_entries pool, mp_spenders pool)
  = (survivors R (mp_entries pool), surviving_spenders R (mp_spenders pool)).
Proof using HP.
  intros HR. assert (forall id, id ∈ set_list R <-> id ∈ R) as HE by (intros; apply elem_of_set_list).
  apply injective_projections; apply map_eq.
  - intros t. rewrite removals_entries; [|apply NoDup_set_list|intros id Hid%HE; auto|].
    + cbn [fst]. rewrite (bool_decide_ext (t ∈ set_list R) (t ∈ R)) by apply HE.
      destruct (bool_decide_reflect (t ∈ R)) as [Ht|Ht]; unfold survivors.
      * rewrite lookup_fmap, (proj2 (map_lookup_filter_None _ _ _)); [done|]. right. cbn. tauto.
      * rewrite lookup_fmap, map_lookup_filter. destruct (mp_entries pool !! t) as [[]|]; [|done]. cbn.
        rewrite option_guard_True by done. cbn. unfold with_children. cbn. do 2 f_equal. apply set_eq. intros c.
        by rewrite !elem_of_difference, elem_of_list_to_set, HE.
    + cbn. intros id e x Hid Ee Ex Hc. destruct (po_mirror _ _ _ _ _ HP t x Ex) as [_ Hch].
      destruct (Hch id Hc) as (e' & ? & ?). by simplify_eq.
  - intros o. rewrite removals_spenders; [|apply NoDup_set_list|intros id Hid%HE; auto|].
    + cbn [snd]. unfold surviving_spenders. rewrite map_lookup_filter. destruct (mp_spenders pool !! o) as [a|]; [|done].
      cbn. rewrite (bool_decide_ext (a ∈ set_list R) (a ∈ R)) by apply HE.
      destruct (bool_decide_reflect (a ∈ R)); [by rewrite option_guard_False by (cbn; tauto)|by rewrite option_guard_True].
    + cbn. intros id e Hid Ee. rewrite (po_spend _ _ _ _ _ HP). split; [eauto|]. intros (e' & ? & ?). by simplify_eq.
Qed.

(** The pool a commit leaves. *)
Lemma commit_admission_spec c bytes :
  let plan := MkAdmissionPlan c R in
  (forall id, id ∈ R -> is_Some (mp_entries pool !! id)) -> pc_spend_claims c = spent_outpoints (me_transaction (pc_entry c)) ->
  commit_admission pool plan bytes =
  (MkMempool (mp_config pool) (mp_base pool) (joined (pc_entry c) (survivors R (mp_entries pool)))
     (joined_spenders (pc_entry c) (surviving_spenders R (mp_spenders pool))) bytes,
   MkAdmissionOutcome (me_txid (pc_entry c)) (me_fee (pc_entry c)) (me_encoded_bytes (pc_entry c)) (set_list R)).
Proof using HP.
  intros plan HR Hcl. unfold commit_admission. cbn [ap_candidate ap_remove plan].
  change (foldl _ _ (map _ (set_list R))) with (removals (set_list R) (mp_entries pool, mp_spenders pool)).
  rewrite removals_all by done.
  f_equal. f_equal; [|by unfold joined_spenders; rewrite Hcl].
  unfold joined. f_equal. apply map_eq. intros t. rewrite foldl_alter_lookup by apply NoDup_set_list.
  rewrite map_lookup_imap. unfold adopt.
  rewrite (bool_decide_ext (t ∈ set_list _) (t ∈ me_parents (pc_entry c))) by apply elem_of_set_list.
  destruct (bool_decide _); by destruct (survivors R _ !! t).
Qed.

End Removals.
End Commit.
