(* ===== verification/MempoolPolicy.v ===== *)
(** The eviction order, the capacity loop and the preflight: with the pool's invariant the internal checks cannot fail, the limits hold, and only
    entries worse than the candidate, with what descends from them, leave. *)
From S2P Require Import Prelude Encoding Transaction Block Bits Difficulty BlockRules Utxo MapSum MempoolGraph Mempool MempoolReplay MempoolAdmit MempoolCommit.

(** ** The eviction order *)

Definition worse_eq (x y : MempoolEntry) : Prop := eviction_cmp x y <> Gt.
Definition worse (x y : MempoolEntry) : Prop := eviction_cmp x y = Lt.

Lemma eviction_cmp_antisym x y : eviction_cmp y x = CompOpp (eviction_cmp x y).
Proof.
  unfold eviction_cmp.
  rewrite (Z.compare_antisym (me_fee x * me_encoded_bytes y)), (Z.compare_antisym (me_fee x)),
    (bytes_cmp_antisym (arr_bytes (me_txid x))).
  by destruct (Z.compare _ _), (Z.compare _ _), (bytes_cmp _ _).
Qed.

Lemma worse_eq_unfold x y :
  worse_eq x y <->
  me_fee x * me_encoded_bytes y < me_fee y * me_encoded_bytes x \/
  me_fee x * me_encoded_bytes y = me_fee y * me_encoded_bytes x /\
  (me_fee x < me_fee y \/ me_fee x = me_fee y /\ hash_le (me_txid x) (me_txid y)).
Proof.
  unfold worse_eq, eviction_cmp, hash_le.
  destruct (Z.compare_spec (me_fee x * me_encoded_bytes y) (me_fee y * me_encoded_bytes x)) as [H1|H1|H1]; cbn;
    destruct (Z.compare_spec (me_fee x) (me_fee y)) as [H2|H2|H2]; cbn; naive_solver lia.
Qed.

(** Comparing fees per byte by cross multiplication. *)
Lemma cross_trans fa fb fc a b c :
  0 < a -> 0 < b -> 0 < c -> fa * b <= fb * a -> fb * c <= fc * b ->
  fa * c <= fc * a /\ (fa * c = fc * a -> fa * b = fb * a /\ fb * c = fc * b).
Proof. intros. split; [|intros; split]; nia. Qed.

Lemma worse_eq_trans x y z :
  0 < me_encoded_bytes x -> 0 < me_encoded_bytes y -> 0 < me_encoded_bytes z ->
  worse_eq x y -> worse_eq y z -> worse_eq x z.
Proof.
  intros Hx Hy Hz. rewrite !worse_eq_unfold. intros H1 H2.
  destruct (cross_trans (me_fee x) (me_fee y) (me_fee z) _ _ _ Hx Hy Hz) as [Hle Heq]; [lia..|].
  destruct (decide (me_fee x * me_encoded_bytes z = me_fee z * me_encoded_bytes x)) as [He|]; [|left; lia].
  right. split; [done|]. destruct (Heq He). destruct H1 as [?|[_ H1]], H2 as [?|[_ H2]]; [lia..|].
  destruct H1 as [?|[? H1]], H2 as [?|[? H2]]; [left; lia..|]. right. split; [lia|]. by etrans.
Qed.

Lemma worse_not x y : worse x y <-> ~ worse_eq y x.
Proof.
  unfold worse, worse_eq. rewrite (eviction_cmp_antisym x y). destruct (eviction_cmp x y); cbn; naive_solver.
Qed.

Lemma worse_trans x y z :
  0 < me_encoded_bytes x -> 0 < me_encoded_bytes y -> 0 < me_encoded_bytes z ->
  worse_eq x y -> worse y z -> worse x z.
Proof. intros Hx Hy Hz H1. rewrite !worse_not. intros H2 H3. apply H2. by apply worse_eq_trans with x. Qed.

Lemma worse_eq_of x y : worse x y -> worse_eq x y.
Proof. unfold worse, worse_eq. by intros ->. Qed.

Lemma worse_eq_refl x : worse_eq x x.
Proof. apply worse_eq_unfold. right. split; [done|]. right. split; [done|]. unfold hash_le. by rewrite (proj2 (bytes_cmp_eq _ _)). Qed.

Section Victim.
Context (pool : Mempool) (R : gset Hash256) (Hpos : forall t e, mp_entries pool !! t = Some e -> 0 < me_encoded_bytes e).

(** One entry is looked at. *)
Definition consider (selected : option Hash256 * MempoolEntry) (p : Hash256 * MempoolEntry) : option Hash256 * MempoolEntry :=
  if bool_decide (p.1 ∈ R) then selected
  else match eviction_cmp p.2 selected.2 with Lt => (Some p.1, p.2) | _ => selected end.

(** The result is at least as bad as what was seen. *)
Definition worst_of (l : list (Hash256 * MempoolEntry)) (sel r : option Hash256 * MempoolEntry) : Prop :=
  (r = sel \/ exists p, p ∈ l /\ r = (Some p.1, p.2) /\ (p.1 ∉ R) /\ worse p.2 sel.2) /\
  worse_eq r.2 sel.2 /\ (forall p, p ∈ l -> p.1 ∉ R -> worse_eq r.2 p.2).

Lemma worst_of_positive l sel r :
  worst_of l sel r -> (forall p, p ∈ l -> mp_entries pool !! p.1 = Some p.2) -> 0 < me_encoded_bytes sel.2 ->
  0 < me_encoded_bytes r.2.
Proof using Hpos. intros ([->|(q & Hq & -> & _)] & _) Hl Hs; [done|]. apply (Hpos q.1). auto. Qed.

(** An entry that changes nothing. *)
Lemma worst_of_skip p l sel r :
  worst_of l sel r -> (p.1 ∉ R -> worse_eq r.2 p.2) -> worst_of (p :: l) sel r.
Proof using Type.
  clear Hpos pool. intros (H1 & H2 & H3) Hp. split_and!; [|done|].
  - destruct H1 as [?|(q & ? & ?)]; [by left|right]. exists q. set_solver.
  - intros q [->|?]%elem_of_cons; auto.
Qed.

(** A worse entry is taken. *)
Lemma worst_of_take p l sel r :
  worst_of l (Some p.1, p.2) r -> p.1 ∉ R -> worse p.2 sel.2 -> 0 < me_encoded_bytes p.2 -> 0 < me_encoded_bytes sel.2 ->
  0 < me_encoded_bytes r.2 -> worst_of (p :: l) sel r.
Proof using Type.
  clear Hpos pool. intros (H1 & H2 & H3) Hn Hw Hp Hs Hr. cbn [snd] in H1, H2. split_and!.
  - right. destruct H1 as [->|(q & Hq & -> & ? & Hw')]; [exists p; set_solver|]. exists q. split_and!; [set_solver|done..|].
    apply worse_trans with p.2; by try apply worse_eq_of.
  - by apply worse_eq_of, worse_trans with p.2.
  - intros q [->|?]%elem_of_cons ?; auto.
Qed.

Lemma consider_fold l sel :
  (forall p, p ∈ l -> mp_entries pool !! p.1 = Some p.2) -> 0 < me_encoded_bytes sel.2 ->
  worst_of l sel (foldl consider sel l).
Proof using Hpos.
  revert sel. induction l as [|p l IH]; intros sel Hl Hs; cbn [foldl].
  { split_and!; [by left|apply worse_eq_refl|set_solver]. }
  assert (0 < me_encoded_bytes p.2) as Hp by (apply (Hpos p.1), Hl; set_solver).
  assert (forall q, q ∈ l -> mp_entries pool !! q.1 = Some q.2) as Hl' by (intros; apply Hl; by right).
  unfold consider at 2. destruct (bool_decide_reflect (p.1 ∈ R)) as [Hr|Hr]; [by apply worst_of_skip; auto|].
  assert (worse p.2 sel.2 \/ (eviction_cmp p.2 sel.2 <> Lt /\ worse_eq sel.2 p.2)) as [E|[E Hse]].
  { unfold worse, worse_eq. rewrite (eviction_cmp_antisym p.2 sel.2). destruct (eviction_cmp p.2 sel.2); auto. }
  - rewrite E. pose proof (IH (Some p.1, p.2) Hl' Hp) as HW. apply worst_of_take; try done. by eapply worst_of_positive.
  - replace (match eviction_cmp p.2 sel.2 with Lt => (Some p.1, p.2) | _ => sel end) with sel
      by (by destruct (eviction_cmp p.2 sel.2)).
    pose proof (IH sel Hl' Hs) as HW. apply worst_of_skip; [done|]. intros _. pose proof HW as (_ & H2 & _).
    apply worse_eq_trans with sel.2; try done. by eapply worst_of_positive.
Qed.

(** The entry chosen is the worst of those left, and worse than the candidate. *)
Lemma select_victim_spec cand :
  0 < me_encoded_bytes cand ->
  match select_victim pool cand R with
  | (None, _) => True
  | (Some root, e) => mp_entries pool !! root = Some e /\ (root ∉ R) /\ worse e cand /\
      forall t x, mp_entries pool !! t = Some x -> t ∉ R -> worse_eq e x
  end.
Proof using Hpos.
  intros Hc. change (select_victim pool cand R) with (foldl consider (None, cand) (entry_list (mp_entries pool))).
  destruct (consider_fold (entry_list (mp_entries pool)) (None, cand)) as (H1 & _ & H3).
  { intros [t e]. apply elem_of_entry_list. } { done. }
  destruct (foldl _ _ _) as [[root|] e]; [|done]. destruct H1 as [?|([t x] & Ht & [= -> ->] & Hn & Hw)]; [done|].
  apply elem_of_entry_list in Ht. split_and!; [done..|]. intros t' x' Hx' Hn'.
  apply (H3 (t', x')); [by apply elem_of_entry_list|done].
Qed.

End Victim.

Lemma existsb_false {A} (f : A -> bool) l : existsb f l = false <-> forall x, x ∈ l -> f x = false.
Proof.
  rewrite <- not_true_iff_false, existsb_exists. setoid_rewrite <- list_elem_of_In. split.
  - intros Hn x Hx. apply not_true_iff_false. eauto.
  - intros Hf (x & Hx & Hfx). rewrite (Hf x Hx) in Hfx. done.
Qed.

Lemma evict_size (root : Hash256) (D R : gset Hash256) : root ∉ R -> (size R < size (D ∪ ({[root]} ∪ R)))%nat.
Proof.
  intros Hn. assert (size ({[root]} ∪ R) <= size (D ∪ ({[root]} ∪ R)))%nat by (apply subseteq_size; set_solver).
  rewrite size_union, size_singleton in * by set_solver. lia.
Qed.

(** ** The invariant of the whole pool *)

(** Limits for which no count of the pool can overflow. *)
Definition config_ok (c : MempoolConfig) : Prop :=
  0 < cfg_max_entries c < USIZE_MAX /\ 0 < cfg_max_total_bytes c /\
  cfg_max_total_bytes c + MAX_TRANSACTION_BYTES <= USIZE_MAX.

Definition tx_bytes (k : Hash256) (e : MempoolEntry) : Z := Z.of_nat (length (Transaction_encode (me_transaction e))).

Lemma tx_bytes_nonneg k e : 0 <= tx_bytes k e.
Proof. unfold tx_bytes. lia. Qed.

Lemma Transaction_encode_positive tx : 0 < Z.of_nat (length (Transaction_encode tx)).
Proof. unfold Transaction_encode. rewrite !length_app, (length_le_bytes 2). lia. Qed.

Section Policy.
Context `{Blake3} {V : Type} `{!SpendVerifier V} (chain : UtxoState) (v : V).

Record pool_inv (pool : Mempool) : Prop := MkPoolInv {
  pi_ok : pool_ok chain (tip_height (mp_base pool) + 1) v (mp_entries pool) (mp_spenders pool);
  pi_bytes : mp_total_bytes pool = msum tx_bytes (mp_entries pool);
  pi_count : Z.of_nat (size (mp_entries pool)) <= cfg_max_entries (mp_config pool);
  pi_total : mp_total_bytes pool <= cfg_max_total_bytes (mp_config pool);
}.

(** What the entries to evict are: closed under descendants, no ancestor of
    the candidate, each one a victim worse than the candidate and than every
    entry that stays, or a descendant of one. *)
Record evictable (pool : Mempool) (c : PreparedCandidate) (R : gset Hash256) : Prop := MkEvictable {
  ev_known : forall t, t ∈ R -> is_Some (mp_entries pool !! t);
  ev_closed : child_closed (mp_entries pool) R;
  ev_ancestors : forall t, t ∈ pc_ancestors c -> t ∉ R;
  ev_policy : forall t, t ∈ R -> exists root e, root ∈ R /\ mp_entries pool !! root = Some e /\
    rtc (edge (mp_entries pool) me_children) root t /\ worse e (pc_entry c) /\
    (forall s x, s ∉ R -> mp_entries pool !! s = Some x -> worse_eq e x);
}.

Lemma evictable_empty pool c : evictable pool c ∅.
Proof. constructor; [set_solver|intros t e ch Ht; set_solver|set_solver|set_solver]. Qed.

Section Plan.
Context (pool : Mempool) (HI : pool_inv pool) (HG : config_ok (mp_config pool)).

Lemma entry_bytes t e : mp_entries pool !! t = Some e -> me_encoded_bytes e = tx_bytes t e.
Proof using HI. intros Ee. by destruct (po_id _ _ _ _ _ (pi_ok _ HI) t e Ee) as (_ & _ & ->). Qed.

Lemma entry_positive t e : mp_entries pool !! t = Some e -> 0 < me_encoded_bytes e.
Proof using HI. intros Ee. rewrite (entry_bytes t e Ee). apply Transaction_encode_positive. Qed.

(** The bytes of what leaves and of what stays. *)
Lemma removed_bytes_spec R :
  (forall t, t ∈ R -> is_Some (mp_entries pool !! t)) ->
  exists b, removed_bytes pool R = Ok b /\ 0 <= b /\
    mp_total_bytes pool = b + msum tx_bytes (survivors R (mp_entries pool)).
Proof using HI HG.
  intros HR. exists (lsum tx_bytes (mp_entries pool) (set_list R)).
  assert (lsum tx_bytes (mp_entries pool) (set_list R) + msum tx_bytes (survivors R (mp_entries pool)) = mp_total_bytes pool) as Hsum.
  { rewrite (pi_bytes _ HI), (msum_without tx_bytes (mp_entries pool) (set_list R)) by apply NoDup_set_list. f_equal.
    unfold survivors. rewrite msum_fmap. unfold with_children, tx_bytes. cbn [me_transaction]. f_equal.
    apply map_filter_ext. intros t x _. cbn. by rewrite elem_of_set_list. }
  pose proof (lsum_nonneg tx_bytes (mp_entries pool) (set_list R) tx_bytes_nonneg) as Hnn.
  pose proof (msum_nonneg tx_bytes (survivors R (mp_entries pool)) tx_bytes_nonneg) as Hnn2.
  split_and!; [|done|lia].
  assert (lsum tx_bytes (mp_entries pool) (set_list R) <= USIZE_MAX) as Hmax.
  { pose proof (pi_total _ HI). destruct HG as (_ & _ & ?). assert (0 <= MAX_TRANSACTION_BYTES) by done. lia. }
  assert (forall l acc, 0 <= acc -> (forall t, t ∈ l -> is_Some (mp_entries pool !! t)) ->
    acc + lsum tx_bytes (mp_entries pool) l <= USIZE_MAX ->
    try_fold (fun bytes id =>
      let? entry := ok_or (mp_entries pool !! id) MempoolError.InvariantViolation in
      ok_or (checked_add USIZE_MAX bytes (me_encoded_bytes entry)) MempoolError.InvariantViolation) l acc
    = Ok (acc + lsum tx_bytes (mp_entries pool) l)) as HL.
  { clear Hmax Hnn Hnn2 Hsum. induction l as [|t l IH]; intros acc Ha Hl Hb; cbn [try_fold]; [f_equal; cbn; lia|].
    cbn [lsum foldr] in Hb |- *. fold (lsum tx_bytes (mp_entries pool) l) in Hb |- *.
    destruct (Hl t) as [e Ee]; [set_solver|]. unfold mget in Hb |- *. rewrite Ee in Hb |- *. cbn [ok_or].
    pose proof (lsum_nonneg tx_bytes (mp_entries pool) l tx_bytes_nonneg). pose proof (tx_bytes_nonneg t e).
    rewrite (entry_bytes t e Ee).
    rewrite (proj2 (checked_add_Some USIZE_MAX acc (tx_bytes t e) _)) by (split; [done|lia]). cbn [ok_or].
    rewrite IH; [f_equal; lia|lia|set_solver|lia]. }
  unfold removed_bytes. rewrite HL; [f_equal; lia|lia| |lia]. intros t Ht%elem_of_set_list. auto.
Qed.

Lemma survivors_size R :
  (forall t, t ∈ R -> is_Some (mp_entries pool !! t)) ->
  (size (survivors R (mp_entries pool)) + size R = size (mp_entries pool))%nat.
Proof using Type.
  intros HR. assert (dom (survivors R (mp_entries pool)) = dom (mp_entries pool) ∖ R) as HD.
  { apply set_eq. intros t. rewrite elem_of_difference, !elem_of_dom. unfold is_Some. setoid_rewrite survivors_Some. naive_solver. }
  rewrite <- !size_dom, HD.
  assert (R ⊆ dom (mp_entries pool)) as HS by (intros t Ht; apply elem_of_dom; auto).
  pose proof (subseteq_size _ _ HS). rewrite size_difference by done. lia.
Qed.

(** ** The capacity loop *)

Context (c : PreparedCandidate).
Abbreviation e := (pc_entry c).
Context (HC : candidate_ok chain (tip_height (mp_base pool) + 1) v (mp_entries pool) (mp_spenders pool) (pc_ancestors c) e)
  (HB : me_encoded_bytes e <= MAX_TRANSACTION_BYTES).

Lemma candidate_positive : 0 < me_encoded_bytes e.
Proof using HC. rewrite (co_bytes _ _ _ _ _ _ _ HC). apply Transaction_encode_positive. Qed.

(** One more victim with its descendants. *)
Lemma evictable_step R root x D :
  evictable pool c R -> mp_entries pool !! root = Some x -> root ∉ R -> worse x e ->
  (forall t y, mp_entries pool !! t = Some y -> t ∉ R -> worse_eq x y) ->
  root ∉ pc_ancestors c -> (forall t, t ∈ D <-> tc (edge (mp_entries pool) me_children) root t) ->
  (forall t, t ∈ D -> is_Some (mp_entries pool !! t)) -> (forall t, t ∈ D -> t ∉ pc_ancestors c) ->
  evictable pool c (D ∪ ({[root]} ∪ R)).
Proof using Type.
  clear HI HG HC HB. intros [Hk Hcl Ha Hp] Ex Hn Hw Hmin Hra HD HDk HDa.
  assert (forall t, t ∈ D ∪ ({[root]} ∪ R) <-> t ∈ R \/ rtc (edge (mp_entries pool) me_children) root t) as HE.
  { intros t. rewrite !elem_of_union, elem_of_singleton, HD. split.
    - intros [?|[->|?]]; [right; by apply tc_rtc|right; apply rtc_refl|by left].
    - intros [?|HS]; [auto|]. apply rtc_tc in HS as [->|?]; auto. }
  constructor.
  - intros t. rewrite !elem_of_union, elem_of_singleton. intros [?|[->|?]]; [auto|eauto|auto].
  - intros t y ch Ht Ey Hch. apply HE. apply HE in Ht as [Ht|Ht]; [left; by eapply Hcl|right].
    eapply rtc_r; [exact Ht|]. by exists y.
  - intros t Ht. rewrite !elem_of_union, elem_of_singleton. intros [?|[->|?]]; [by eapply HDa|done|by eapply Ha].
  - intros t Ht. apply HE in Ht as [Ht|Ht].
    + destruct (Hp t Ht) as (r & y & Hr & Ey & Hrt & Hwy & Hmy). exists r, y. split_and!; [set_solver|done..|].
      intros s z Hs. apply Hmy. set_solver.
    + exists root, x. split_and!; [set_solver|done..|]. intros s z Hs Ez. apply (Hmin s z Ez). set_solver.
Qed.

(** The bytes and the count the plan leaves. *)
Definition plan_fits (R : gset Hash256) (b : Z) : Prop :=
  b = msum tx_bytes (survivors R (mp_entries pool)) + me_encoded_bytes e /\
  b <= cfg_max_total_bytes (mp_config pool) /\
  Z.of_nat (size (survivors R (mp_entries pool))) + 1 <= cfg_max_entries (mp_config pool).

Lemma capacity_spec fuel R :
  evictable pool c R -> (size (mp_entries pool) < size R + fuel)%nat ->
  match capacity_loop pool c fuel R with
  | Ok (R', b) => evictable pool c R' /\ plan_fits R' b
  | Err er => er = MempoolError.CapacityRejected
  end.
Proof using HI HG HC HB.
  revert R. induction fuel as [|fuel IH]; intros R HE HF.
  { pose proof (survivors_size R (ev_known _ _ _ HE)). lia. }
  cbn [capacity_loop]. pose proof (survivors_size R (ev_known _ _ _ HE)) as Hsz.
  destruct (removed_bytes_spec R (ev_known _ _ _ HE)) as (b & -> & Hb & Htot).
  pose proof (msum_nonneg tx_bytes (survivors R (mp_entries pool)) tx_bytes_nonneg) as Hnn.
  pose proof candidate_positive. pose proof HG as (Hg1 & Hg2 & Hg3). pose proof (pi_count _ HI). pose proof (pi_total _ HI).
  rewrite (proj2 (checked_add_Some USIZE_MAX (Z.of_nat (size (mp_entries pool))) 1 _)) by (split; [done|lia]).
  rewrite (proj2 (checked_sub_Some (Z.of_nat (size (mp_entries pool)) + 1) (Z.of_nat (size R)) _)) by (split; [done|lia]).
  cbn [ok_or].
  rewrite (proj2 (checked_add_Some USIZE_MAX (mp_total_bytes pool) (me_encoded_bytes e) _)) by (split; [done|lia]).
  rewrite (proj2 (checked_sub_Some (mp_total_bytes pool + me_encoded_bytes e) b _)) by (split; [done|lia]).
  cbn [ok_or]. destruct (andb _ _) eqn:EF.
  { apply andb_true_iff in EF as [E1%Z.leb_le E2%Z.leb_le]. split; [done|unfold plan_fits; lia]. }
  pose proof (select_victim_spec pool R entry_positive e candidate_positive) as HV.
  destruct (select_victim pool e R) as [[root|] x]; [|done]. destruct HV as (Ex & Hn & Hw & Hmin).
  destruct (bool_decide_reflect (root ∈ pc_ancestors c)) as [|Hra]; [done|].
  pose proof (po_mirror _ _ _ _ _ (pi_ok _ HI)) as HM. destruct (po_topo _ _ _ _ _ (pi_ok _ HI)) as (L & HT & HL).
  destruct (descendant_closure_ok (mp_entries pool) HM L HT HL root) as (D & -> & HD & HDk & _); [by eexists|].
  destruct (existsb _ _) eqn:Eex; [done|]. rewrite bool_decide_false by done.
  apply IH; [|pose proof (evict_size root D R Hn); lia]. eapply evictable_step; try done.
  intros t Ht Hta. rewrite existsb_false in Eex. specialize (Eex t (proj2 (elem_of_set_list _ _) Ht)).
  by rewrite bool_decide_true in Eex.
Qed.

(** Nothing is evicted for a candidate there is room for. *)
Lemma capacity_room fuel :
  Z.of_nat (size (mp_entries pool)) + 1 <= cfg_max_entries (mp_config pool) ->
  mp_total_bytes pool + me_encoded_bytes e <= cfg_max_total_bytes (mp_config pool) ->
  capacity_loop pool c (S fuel) ∅ = Ok (∅, mp_total_bytes pool + me_encoded_bytes e).
Proof using HI HG HC HB.
  intros R1 R2. cbn [capacity_loop]. assert (removed_bytes pool ∅ = Ok 0) as ->.
  { unfold removed_bytes. by replace (set_list (∅ : gset Hash256)) with (@nil Hash256) by (by vm_compute). }
  pose proof candidate_positive. pose proof HG as (Hg1 & Hg2 & Hg3). pose proof (pi_total _ HI).
  pose proof (msum_nonneg tx_bytes (mp_entries pool) tx_bytes_nonneg) as Hnn. rewrite <- (pi_bytes _ HI) in Hnn.
  rewrite (proj2 (checked_add_Some USIZE_MAX (Z.of_nat (size (mp_entries pool))) 1 _)) by (split; [done|lia]).
  rewrite (proj2 (checked_sub_Some (Z.of_nat (size (mp_entries pool)) + 1) (Z.of_nat (size (∅ : gset Hash256))) _))
    by (rewrite size_empty; split; [done|lia]). cbn [ok_or].
  rewrite (proj2 (checked_add_Some USIZE_MAX (mp_total_bytes pool) (me_encoded_bytes e) _)) by (split; [done|lia]).
  rewrite (proj2 (checked_sub_Some (mp_total_bytes pool + me_encoded_bytes e) 0 _)) by (split; [done|lia]). cbn [ok_or].
  rewrite !Z.sub_0_r, !(proj2 (Z.leb_le _ _)) by lia. done.
Qed.

(** ** The preflight *)

Lemma check_removal_ok R id : evictable pool c R -> id ∈ R -> check_removal pool R id = Ok tt.
Proof using HI.
  intros HE Hid. unfold check_removal. destruct (ev_known _ _ _ HE id Hid) as [x Ex]. rewrite Ex. cbn [ok_or].
  assert (existsb (fun input => negb (bool_decide (mp_spenders pool !! TxInput_outpoint input = Some id))) (inputs (me_transaction x)) = false) as ->.
  { apply existsb_false. intros i Hi. rewrite bool_decide_true; [done|]. apply (po_spend _ _ _ _ _ (pi_ok _ HI)). exists x.
    split; [done|]. by apply list_elem_of_fmap_2. }
  assert (existsb (fun child => negb (bool_decide (child ∈ R))) (set_list (me_children x)) = false) as ->; [|done].
  apply existsb_false. intros t Ht%elem_of_set_list. rewrite bool_decide_true; [done|]. by eapply (ev_closed _ _ _ HE).
Qed.

Lemma preflight_ok R b :
  evictable pool c R -> plan_fits R b -> pc_spend_claims c = spent_outpoints (me_transaction e) ->
  preflight_admission_plan pool (MkAdmissionPlan c R) b = Ok tt.
Proof using HI HG HC HB.
  intros HE (Hb & Hb2 & Hcnt) Hcl. unfold preflight_admission_plan. cbn [ap_candidate ap_remove].
  pose proof (po_mirror _ _ _ _ _ (pi_ok _ HI)) as HM. destruct (po_topo _ _ _ _ _ (pi_ok _ HI)) as (L & HT & HL).
  destruct (order_exists (mp_entries pool) HM L HT HL) as (order & -> & _).
  rewrite (proj2 (existsb_false _ (set_list R)))
    by (intros t Ht%elem_of_set_list; apply bool_decide_false; intros Ha; by eapply (ev_ancestors _ _ _ HE)).
  assert (forall t, t ∈ pc_ancestors c -> bool_decide (t ∈ R) || negb (bool_decide (is_Some (mp_entries pool !! t))) = false) as Hanc.
  { intros t Ht. rewrite bool_decide_false by (by apply (ev_ancestors _ _ _ HE)).
    by rewrite bool_decide_true by (by apply (co_known _ _ _ _ _ _ _ HC)). }
  rewrite (proj2 (existsb_false _ (set_list (me_parents e)))).
  2: { intros p Hp%elem_of_set_list. destruct (co_parent_known _ _ _ _ _ _ _ _ HC Hp) as [Ha _].
       rewrite (bool_decide_true (p ∈ pc_ancestors c)) by done. by apply Hanc. }
  rewrite (proj2 (existsb_false _ (set_list (pc_ancestors c)))) by (intros t Ht%elem_of_set_list; by apply Hanc).
  rewrite (proj2 (existsb_false _ (pc_spend_claims c))).
  2: { rewrite Hcl. intros o Ho. apply bool_decide_false. rewrite (co_unspent _ _ _ _ _ _ _ HC o Ho). by intros [? ?]. }
  assert (try_fold (fun _ id => check_removal pool R id) (set_list R) tt = Ok tt) as ->.
  { assert (forall t, t ∈ set_list R -> check_removal pool R t = Ok tt) as Hck
      by (intros t Ht%elem_of_set_list; by apply check_removal_ok).
    induction (set_list R) as [|t l IH]; [done|]. cbn [try_fold]. rewrite Hck by set_solver. apply IH. set_solver. }
  destruct (removed_bytes_spec R (ev_known _ _ _ HE)) as (r & -> & Hr & Htot).
  pose proof (survivors_size R (ev_known _ _ _ HE)) as Hsz.
  pose proof (msum_nonneg tx_bytes (survivors R (mp_entries pool)) tx_bytes_nonneg) as Hnn.
  pose proof HG as (Hg1 & Hg2 & Hg3). pose proof (pi_count _ HI). pose proof (pi_total _ HI).
  rewrite (proj2 (checked_sub_Some (mp_total_bytes pool) r _)) by (split; [done|lia]).
  rewrite (proj2 (checked_add_Some USIZE_MAX (mp_total_bytes pool - r) (me_encoded_bytes e) _)) by (split; [done|lia]).
  cbn [ok_or]. rewrite (proj2 (Z.eqb_eq (mp_total_bytes pool - r + me_encoded_bytes e) b)) by lia. cbn [negb orb].
  rewrite Z.gtb_ltb, (proj2 (Z.ltb_ge _ _)) by lia.
  rewrite (proj2 (checked_sub_Some (Z.of_nat (size (mp_entries pool))) (Z.of_nat (size R)) _)) by (split; [done|lia]).
  rewrite (proj2 (checked_add_Some USIZE_MAX (Z.of_nat (size (mp_entries pool)) - Z.of_nat (size R)) 1 _)) by (split; [done|lia]).
  cbn [ok_or]. rewrite Z.gtb_ltb, (proj2 (Z.ltb_ge _ _)) by lia. done.
Qed.

End Plan.
End Policy.
