(* ===== verification/MempoolProps.v ===== *)
(** The pool as a whole: its invariant in every reachable state, what an
    admission and a reconciliation do, and the replay of its order on the chain. *)
From S2P Require Import Prelude Encoding Transaction Block Bits Difficulty BlockRules Utxo Ledger MapSum MempoolGraph Mempool MempoolReplay MempoolAdmit MempoolCommit MempoolPolicy.

Section Admission.
Context `{Blake3} {V : Type} `{!SpendVerifier V} (chain : UtxoState) (v : V).

(** A transaction [tx] went in as [e] and [R] left. *)
Definition entered (pool : Mempool) (tx : Transaction) (e : MempoolEntry) (R : gset Hash256) (pool' : Mempool) : Prop :=
  me_transaction e = tx /\ me_txid e = Transaction_txid tx /\ mp_entries pool !! me_txid e = None /\
  mp_config pool' = mp_config pool /\ mp_base pool' = mp_base pool /\
  mp_entries pool' = joined e (survivors R (mp_entries pool)) /\
  mp_spenders pool' = joined_spenders e (surviving_spenders R (mp_spenders pool)).

Lemma joined_bytes e m :
  m !! me_txid e = None -> msum tx_bytes (joined e m) = tx_bytes (me_txid e) e + msum tx_bytes m.
Proof using Type.
  intros Hn. unfold joined. rewrite msum_insert by (by rewrite map_lookup_imap, Hn). rewrite msum_imap. f_equal.
  apply msum_ext. intros k x _. unfold tx_bytes. by destruct (adopt_fields e k x) as (-> & _).
Qed.

Lemma joined_size e m : m !! me_txid e = None -> size (joined e m) = S (size m).
Proof using Type.
  intros Hn. unfold joined. rewrite map_size_insert_None by (by rewrite map_lookup_imap, Hn). f_equal.
  rewrite <- !size_dom. f_equal. apply set_eq. intros t. rewrite !elem_of_dom, map_lookup_imap.
  by destruct (m !! t).
Qed.

(** There is room for a transaction without evicting anything. *)
Definition has_room (pool : Mempool) (tx : Transaction) : Prop :=
  Z.of_nat (size (mp_entries pool)) + 1 <= cfg_max_entries (mp_config pool) /\
  mp_total_bytes pool + Z.of_nat (length (Transaction_encode tx)) <= cfg_max_total_bytes (mp_config pool).

Lemma admit_spec pool tx base :
  pool_inv chain v pool -> config_ok (mp_config pool) ->
  match Mempool_admit tx base chain v pool with
  | (Ok out, pool') =>
      exists c R, base = mp_base pool /\ entered pool tx (pc_entry c) R pool' /\ evictable pool c R /\ pool_inv chain v pool' /\
        out = MkAdmissionOutcome (me_txid (pc_entry c)) (me_fee (pc_entry c)) (me_encoded_bytes (pc_entry c)) (set_list R) /\
        prepared chain (tip_height (mp_base pool) + 1) v pool tx (MkAdmissionPlan c ∅) /\ (has_room pool tx -> R = ∅)
  | (Err er, pool') => pool' = pool /\ refusal pool tx base er
  end.
Proof using Type.
  intros HI HG. unfold Mempool_admit. pose proof HG as (Hg1 & Hg2 & Hg3). pose proof (pi_count _ _ _ HI).
  pose proof (prepare_spec chain _ v pool tx base (pi_ok _ _ _ HI) eq_refl ltac:(lia)) as HPS.
  destruct (prepare_admission pool tx base chain v) as [[c R0]|er]; [|done].
  destruct HPS as [-> Hprep]. pose proof Hprep as (HR0 & Htx & Hcl & HC & Hsk & _). cbn [ap_candidate ap_remove] in *. subst R0.
  assert (me_encoded_bytes (pc_entry c) <= MAX_TRANSACTION_BYTES) as HB.
  { rewrite (co_bytes _ _ _ _ _ _ _ HC), Htx. unfold validate_normal_transaction_skeleton in Hsk.
    destruct (_ >? _) eqn:Eg; [done|]. rewrite Z.gtb_ltb, Z.ltb_ge in Eg. done. }
  unfold plan_capacity. cbn [ap_candidate ap_remove].
  pose proof (capacity_spec chain v pool HI HG c HC HB (S (S (size (mp_entries pool)))) ∅ (evictable_empty pool c)) as Hcap.
  specialize (Hcap ltac:(lia)).
  assert (has_room pool tx -> forall R b, capacity_loop pool c (S (S (size (mp_entries pool)))) ∅ = Ok (R, b) -> R = ∅) as Hroom.
  { intros [M1 M2] R b. rewrite <- Htx, <- (co_bytes _ _ _ _ _ _ _ HC) in M2.
    rewrite (capacity_room chain v pool HI HG c HC HB) by done. by intros [= <- _]. }
  destruct (capacity_loop _ _ _ _) as [[R b]|er]; [|by subst].
  destruct Hcap as [HE HF]. rewrite (preflight_ok chain v pool HI HG c HC HB R b HE HF) by congruence.
  rewrite (commit_admission_spec chain _ v pool R (pi_ok _ _ _ HI) c b (ev_known _ _ _ HE)) by congruence. cbn.
  assert (survivors R (mp_entries pool) !! me_txid (pc_entry c) = None) as Hfr.
  { destruct (survivors R (mp_entries pool) !! me_txid (pc_entry c)) as [x|] eqn:Ex; [|done].
    apply survivors_Some in Ex as (y & Ey & _). by rewrite (co_fresh _ _ _ _ _ _ _ HC) in Ey. }
  exists c, R. split_and!; [done| |done| |done|done|intros Hr; by eapply Hroom].
  - split_and!; try done; [by rewrite (co_id _ _ _ _ _ _ _ HC), Htx|apply HC].
  - destruct HF as (Hb & Hb2 & Hcnt). constructor; cbn.
    + apply (pool_ok_insert _ _ _ _ _ (pc_ancestors c)); [by apply pool_ok_remove; [apply HI|apply HE]|].
      apply candidate_ok_remove; [apply HI|apply HE|done|apply HE].
    + rewrite joined_bytes by done. unfold tx_bytes at 1. rewrite <- (co_bytes _ _ _ _ _ _ _ HC). lia.
    + rewrite joined_size by done. lia.
    + done.
Qed.

End Admission.

(** ** Reconciliation *)

Section Reconcile.
Context `{Blake3} {V : Type} `{!SpendVerifier V}.

(** Transactions under their identifiers, each once, no output spent twice. *)
Definition source_ok (source : list (Hash256 * Transaction)) : Prop :=
  NoDup source.*1 /\ (forall p, p ∈ source -> Transaction_txid p.2 = p.1) /\
  (forall p q o, p ∈ source -> q ∈ source -> o ∈ spent_outpoints p.2 -> o ∈ spent_outpoints q.2 -> p.1 = q.1).

(** Every entry of the pool comes from the list. *)
Definition drawn_from (source : list (Hash256 * Transaction)) (pool : Mempool) : Prop :=
  forall t e, mp_entries pool !! t = Some e -> (t, me_transaction e) ∈ source.

Lemma drawn_entered source pool tx e R pool' :
  drawn_from source pool -> entered pool tx e R pool' -> drawn_from (source ++ [(Transaction_txid tx, tx)]) pool'.
Proof using Type.
  intros HD (Htx & Hid & Hf & _ & _ & Hm & _) t x. rewrite Hm. destruct (decide (t = me_txid e)) as [->|Hne].
  - rewrite joined_self. intros [= <-]. rewrite Htx, Hid. apply elem_of_app. right. by apply list_elem_of_singleton.
  - rewrite joined_Some by done. intros (y & (z & Ez & _ & ->)%survivors_Some & ->).
    destruct (adopt_fields e t (with_children (fun c => c ∖ R) z)) as (-> & _). apply elem_of_app. left. exact (HD t z Ez).
Qed.

(** A list that was one pool is rebuilt without an error of its own. *)
Lemma refusal_filterable chain h v pool seen todo tx base er :
  pool_ok chain h v (mp_entries pool) (mp_spenders pool) -> mp_base pool = base -> drawn_from seen pool ->
  source_ok (seen ++ (Transaction_txid tx, tx) :: todo) -> refusal pool tx base er ->
  is_filterable_rebuild_error er = true \/ (er = MempoolError.HeightOverflow /\ U64_MAX <= tip_height base).
Proof using Type.
  intros HP Hb HD (HN & _ & Hdis) HRef. rewrite fmap_app in HN. apply NoDup_app in HN as (_ & Hsep & _).
  assert (forall t e, mp_entries pool !! t = Some e -> t <> Transaction_txid tx) as Hnew.
  { intros t e Et ->. apply (Hsep (Transaction_txid tx)); [|by left].
    apply list_elem_of_fmap. exists (Transaction_txid tx, me_transaction e). split; [done|]. by apply HD. }
  destruct er; cbn in HRef |- *; try (by left); try done; try (by right).
  - destruct HRef as [-> [e Ee]]. by destruct (Hnew _ _ Ee).
  - destruct HRef as [Ho (e & Ee & Hoe)%(po_spend _ _ _ _ _ HP)]. destruct (Hnew _ _ Ee).
    apply (Hdis (existing_txid, me_transaction e) (Transaction_txid tx, tx) outpoint); [| |done..].
    + apply elem_of_app. left. by apply HD.
    + apply elem_of_app. right. by left.
Qed.

(** Everything in one pool is in the other with the same transaction. *)
Definition kept_in (p pool : Mempool) : Prop :=
  forall t e, mp_entries p !! t = Some e -> exists e', mp_entries pool !! t = Some e' /\ me_transaction e' = me_transaction e.

Lemma kept_refl p : kept_in p p.
Proof using Type. intros t e Et. by exists e. Qed.

Lemma kept_trans p q r : kept_in p q -> kept_in q r -> kept_in p r.
Proof using Type. intros H1 H2 t e (e' & (e2 & ? & ?)%H2 & ?)%H1. exists e2. split; [done|congruence]. Qed.

Lemma kept_entered pool tx e pool' : entered pool tx e ∅ pool' -> kept_in pool pool'.
Proof using Type.
  intros (_ & _ & Hf & _ & _ & Hm & _) t x Ex. assert (t <> me_txid e) as Hne by congruence. rewrite Hm.
  exists (adopt e t (with_children (fun c => c ∖ ∅) x)). split; [|by destruct (adopt_fields e t (with_children (fun c => c ∖ ∅) x)) as (-> & _)].
  apply joined_Some; [done|]. eexists. split; [apply survivors_Some; exists x; split_and!; [done|set_solver|reflexivity]|done].
Qed.

(** The transaction was offered to a pool that is valid for the new chain and
    holds nothing but what stays, and was refused. *)
Definition turned_away (chain : UtxoState) (v : V) (base : ChainBase) (pool' : Mempool) (tx : Transaction) : Prop :=
  exists p er, pool_inv chain v p /\ mp_base p = base /\ mp_config p = mp_config pool' /\ kept_in p pool' /\
    Mempool_admit tx base chain v p = (Err er, p) /\ is_filterable_rebuild_error er = true.

(** Transactions that fitted into one pool fit in again one by one. *)
Lemma room_left chain v p entries seen t e :
  pool_inv chain v p -> Z.of_nat (size entries) <= cfg_max_entries (mp_config p) ->
  msum tx_bytes entries <= cfg_max_total_bytes (mp_config p) ->
  (forall q, q ∈ seen -> exists x, entries !! q.1 = Some x /\ me_transaction x = q.2) -> drawn_from seen p ->
  t ∉ seen.*1 -> entries !! t = Some e -> has_room p (me_transaction e).
Proof using Type.
  intros HI Hn Hb HS HD Ht Ee. assert (mp_entries p !! t = None) as Hp.
  { destruct (mp_entries p !! t) as [x|] eqn:Ex; [|done]. destruct Ht. apply HD in Ex. by apply (list_elem_of_fmap_2 fst) in Ex. }
  assert (forall k x, <[t := e]> (mp_entries p) !! k = Some x -> exists x', entries !! k = Some x' /\ tx_bytes k x' = tx_bytes k x) as HX.
  { intros k x [[<- <-]|[_ Hx]]%lookup_insert_Some; [by exists e|]. destruct (HS _ (HD _ _ Hx)) as (x' & ? & E). exists x'.
    unfold tx_bytes. cbn in E. by rewrite E. }
  split.
  - assert (size (<[t := e]> (mp_entries p)) <= size entries)%nat as Hle.
    { rewrite <- !size_dom. apply subseteq_size. intros k [x Hx]%elem_of_dom. apply elem_of_dom. destruct (HX _ _ Hx) as (x' & ? & _). by exists x'. }
    rewrite map_size_insert_None in Hle by done. lia.
  - pose proof (msum_le tx_bytes _ entries tx_bytes_nonneg HX) as Hle. rewrite msum_insert in Hle by done. rewrite (pi_bytes _ _ _ HI).
    unfold tx_bytes at 1 in Hle. lia.
Qed.

Lemma rebuild_loop_spec chain v base config entries todo seen rebuilt :
  pool_inv chain v rebuilt -> config_ok config -> mp_config rebuilt = config -> mp_base rebuilt = base ->
  Z.of_nat (size entries) <= cfg_max_entries config -> msum tx_bytes entries <= cfg_max_total_bytes config ->
  (forall q, q ∈ seen ++ todo -> exists x, entries !! q.1 = Some x /\ me_transaction x = q.2) ->
  drawn_from seen rebuilt -> source_ok (seen ++ todo) ->
  match rebuild_loop todo base chain v rebuilt with
  | Ok r => pool_inv chain v r /\ mp_config r = config /\ mp_base r = base /\ drawn_from (seen ++ todo) r /\
            kept_in rebuilt r /\ forall t tx, (t, tx) ∈ todo -> is_Some (mp_entries r !! t) \/ turned_away chain v base r tx
  | Err e => e = MempoolError.HeightOverflow /\ U64_MAX <= tip_height base
  end.
Proof using Type.
  intros HI HG Hc Hb Hn Ht. revert seen rebuilt HI Hc Hb. induction todo as [|[id tx] todo IH]; intros seen rebuilt HI Hc Hb HE HD HS.
  { cbn. rewrite app_nil_r. split_and!; [done..|apply kept_refl|]. intros t tx Hx. by apply elem_of_nil in Hx. }
  cbn [rebuild_loop]. assert (Transaction_txid tx = id) as <-.
  { apply HS with (p := (id, tx)). apply elem_of_app. right. by left. }
  rewrite bool_decide_true by done. cbn [negb]. subst config.
  assert (has_room rebuilt tx) as Hroom.
  { destruct (HE (Transaction_txid tx, tx)) as (x & Ex & Etx); [apply elem_of_app; right; by left|]. cbn in Ex, Etx. rewrite <- Etx.
    eapply (room_left chain v rebuilt entries seen); [done..| |exact HD| |exact Ex].
    - intros q Hq. apply HE, elem_of_app. by left.
    - destruct HS as (HN & _). rewrite fmap_app in HN. apply NoDup_app in HN as (_ & HN & _). intros Hin. apply (HN _ Hin). by left. }
  pose proof (admit_spec chain v rebuilt tx base HI HG) as HA. destruct (Mempool_admit tx base chain v rebuilt) as [[out|er] r] eqn:Ea.
  - destruct HA as (c & R & _ & HEn & _ & HI' & _ & _ & HR). rewrite (HR Hroom) in HEn. pose proof HEn as (_ & Hid & _ & Hc' & Hb' & Hm & _).
    replace (seen ++ (Transaction_txid tx, tx) :: todo) with ((seen ++ [(Transaction_txid tx, tx)]) ++ todo) in * by (by rewrite <- app_assoc).
    specialize (IH (seen ++ [(Transaction_txid tx, tx)]) r HI' ltac:(congruence) ltac:(congruence) HE ltac:(by eapply drawn_entered) HS).
    destruct (rebuild_loop _ _ _ _ _) as [r'|]; [|done]. destruct IH as (I1 & I2 & I3 & I4 & I5 & I6).
    split_and!; [done..|eapply kept_trans; [by eapply kept_entered|done]|]. intros t tx' [[= -> ->]|Hx]%elem_of_cons; [|by apply I6].
    left. destruct (I5 (me_txid (pc_entry c)) (pc_entry c)) as (e' & He' & _); [rewrite Hm; apply joined_self|]. rewrite <- Hid. by exists e'.
  - destruct HA as [-> HRef].
    destruct (refusal_filterable _ _ _ _ _ _ _ _ _ (pi_ok _ _ _ HI) Hb HD HS HRef) as [Hfil|[-> ?]]; [rewrite Hfil|done].
    replace (seen ++ (Transaction_txid tx, tx) :: todo) with ((seen ++ [(Transaction_txid tx, tx)]) ++ todo) in * by (by rewrite <- app_assoc).
    assert (drawn_from (seen ++ [(Transaction_txid tx, tx)]) rebuilt) as HD' by (intros t e Et; apply elem_of_app; left; by apply HD).
    specialize (IH _ rebuilt HI eq_refl Hb HE HD' HS). destruct (rebuild_loop _ _ _ _ _) as [r'|]; [|done].
    destruct IH as (I1 & I2 & I3 & I4 & I5 & I6). split_and!; [done..|]. intros t tx' [[= -> ->]|Hx]%elem_of_cons; [|by apply I6].
    right. exists rebuilt, er. split_and!; done.
Qed.

Lemma pool_inv_new chain v base config pool :
  config_ok config -> Mempool_new base config = Ok pool ->
  pool_inv chain v pool /\ mp_config pool = config /\ mp_base pool = base /\ mp_entries pool = ∅.
Proof using Type.
  intros (Hg1 & Hg2 & _). unfold Mempool_new. destruct (_ || _); [done|]. intros [= <-]. split_and!; [|done..].
  constructor; cbn; [apply pool_ok_empty|by rewrite msum_empty|rewrite map_size_empty; lia|lia].
Qed.

Lemma Mempool_new_ok base config : config_ok config -> exists pool, Mempool_new base config = Ok pool.
Proof using Type.
  intros (Hg1 & Hg2 & _). unfold Mempool_new. rewrite (proj2 (Z.eqb_neq _ _)), (proj2 (Z.eqb_neq _ _)) by lia. by eexists.
Qed.

Lemma collect_source_ok chain h v m sp order :
  pool_ok chain h v m sp -> (forall t, t ∈ order -> is_Some (m !! t)) -> NoDup order ->
  exists source, collect_source m order = Ok source /\ source_ok source /\ source.*1 = order /\
    (forall p, p ∈ source -> exists e, m !! p.1 = Some e /\ me_transaction e = p.2).
Proof using Type.
  intros HP Hk HN.
  assert (exists source, collect_source m order = Ok source /\ source.*1 = order /\
    (forall p, p ∈ source -> exists e, m !! p.1 = Some e /\ me_transaction e = p.2)) as (source & HS & Hord & HE).
  { clear HN. unfold collect_source. induction order as [|t order IH]; cbn [try_map].
    - exists []. split_and!; [done..|set_solver].
    - destruct (Hk t) as [e Ee]; [set_solver|]. rewrite Ee. cbn [ok_or].
      destruct IH as (source & -> & Hord & HE); [set_solver|]. exists ((t, me_transaction e) :: source).
      split_and!; [done|cbn; by rewrite Hord|]. intros p [->|?]%elem_of_cons; [eauto|auto]. }
  exists source. split_and!; [done| |done..]. split_and!; [by rewrite Hord| |].
  - intros p (e & Ee & <-)%HE. by destruct (po_id _ _ _ _ _ HP _ _ Ee) as (_ & ? & _).
  - intros p q o (e1 & E1 & <-)%HE (e2 & E2 & <-)%HE Ho1 Ho2.
    assert (sp !! o = Some p.1) by (apply (po_spend _ _ _ _ _ HP); eauto).
    assert (sp !! o = Some q.1) by (apply (po_spend _ _ _ _ _ HP); eauto). congruence.
Qed.

(** What both reconciliations do with the entries they offer to the new chain:
    the pool they leave holds such entries only, each with its transaction, and
    every one of them that the new pool does not refuse; the report lists what
    left. *)
Definition rebuilt_from (chain : UtxoState) (v : V) (pool : Mempool) (offered : Hash256 -> Prop) (report : ReconcileReport)
    (pool' : Mempool) : Prop :=
  (forall t e', mp_entries pool' !! t = Some e' ->
     offered t /\ exists e, mp_entries pool !! t = Some e /\ me_transaction e' = me_transaction e) /\
  (forall t e, mp_entries pool !! t = Some e -> offered t -> mp_entries pool' !! t = None ->
     turned_away chain v (mp_base pool') pool' (me_transaction e)) /\
  (forall t, t ∈ rr_removed report <-> is_Some (mp_entries pool !! t) /\ mp_entries pool' !! t = None) /\
  StronglySorted hash_le (rr_removed report) /\ rr_retained report = size (mp_entries pool').

Lemma replace_spec chain0 v0 chain v base pool order (offered : Hash256 -> Prop) :
  pool_inv chain0 v0 pool -> config_ok (mp_config pool) ->
  (forall t, t ∈ order <-> is_Some (mp_entries pool !! t) /\ offered t) -> NoDup order ->
  exists source, collect_source (mp_entries pool) order = Ok source /\
    match replace_by_rebuild source base chain v pool with
    | (Ok report, pool') => pool_inv chain v pool' /\ mp_config pool' = mp_config pool /\ mp_base pool' = base /\
                            rebuilt_from chain v pool offered report pool'
    | (Err e, pool') => pool' = pool /\ e = MempoolError.HeightOverflow /\ U64_MAX <= tip_height base
    end.
Proof using Type.
  intros HIP HG Hk HN. pose proof (pi_ok _ _ _ HIP) as HP.
  destruct (collect_source_ok _ _ _ _ _ order HP) as (source & HS & Hsrc & Hord & HE); [naive_solver|done|].
  exists source. split; [done|]. unfold replace_by_rebuild, rebuild_against_chain.
  destruct (Mempool_new_ok base (mp_config pool) HG) as [p0 Hp0]. rewrite Hp0.
  destruct (pool_inv_new chain v base _ p0 HG Hp0) as (HI0 & Hc0 & Hb0 & He0).
  assert (drawn_from [] p0) as HD0 by (intros t e; rewrite He0; by rewrite lookup_empty).
  pose proof (pi_total _ _ _ HIP) as Htot. rewrite (pi_bytes _ _ _ HIP) in Htot.
  pose proof (rebuild_loop_spec chain v base (mp_config pool) (mp_entries pool) source [] p0 HI0 HG Hc0 Hb0 (pi_count _ _ _ HIP) Htot HE HD0 Hsrc) as HR.
  destruct (rebuild_loop _ _ _ _ _) as [r|er]; [|done]. destruct HR as (HI & Hc & Hb & HD & _ & HA). split_and!; [done..|].
  split_and!; cbn [rr_removed rr_retained].
  - intros t e' Ee'. specialize (HD t e' Ee'). cbn [app] in HD. destruct (HE _ HD) as (e & Ee & Htx).
    split; [|by exists e]. apply Hk. rewrite <- Hord. by apply (list_elem_of_fmap_2 fst) in HD.
  - intros t e Ee Ho Hn. rewrite Hb. assert (t ∈ source.*1) as Hin by (rewrite Hord; apply Hk; by split; [exists e|]).
    apply list_elem_of_fmap in Hin as ([t' tx] & -> & Hin). cbn [fst] in *. destruct (HE _ Hin) as (e' & Ee' & Etx). cbn in Ee', Etx.
    rewrite Ee in Ee'. injection Ee' as <-. rewrite Etx. destruct (HA _ _ Hin) as [[x Hx]|?]; [congruence|done].
  - intros t. rewrite merge_sort_Permutation, list_elem_of_filter, list_elem_of_fmap. split.
    + intros (Hn & [t' e] & -> & Ht%elem_of_entry_list). cbn in *. split; [by eexists|done].
    + intros [[e Ee] Hn]. split; [done|]. exists (t, e). split; [done|]. by apply elem_of_entry_list.
  - apply StronglySorted_merge_sort; apply _.
  - done.
Qed.

Lemma pool_order chain v pool :
  pool_inv chain v pool ->
  exists order, topological_order (mp_entries pool) = Ok order /\ topo (mp_entries pool) order /\
    (forall t, t ∈ order <-> is_Some (mp_entries pool !! t)) /\ NoDup order.
Proof using Type.
  intros HI. destruct (po_topo _ _ _ _ _ (pi_ok _ _ _ HI)) as (L & HT & HC).
  destruct (order_exists _ (po_mirror _ _ _ _ _ (pi_ok _ _ _ HI)) L HT HC) as (order & Ho & Hto & Hco).
  exists order. split_and!; [done..| |by eapply topo_NoDup]. intros t. split; [by apply topo_entries|apply Hco].
Qed.

Lemma pool_replays chain v pool :
  pool_inv chain v pool ->
  exists order s, deterministic_order pool = Ok order /\ NoDup order /\
    (forall t, t ∈ order <-> is_Some (mp_entries pool !! t)) /\
    replay_ancestors (mp_entries pool) (tip_height (mp_base pool) + 1) v order chain = Ok s.
Proof using Type.
  intros HI. destruct (pool_order _ _ _ HI) as (order & Ho & HT & Hin & HN). eexists order, _. split_and!; [done..|].
  by apply (replay_ok chain _ v _ (mp_spenders pool)); [apply HI| |split].
Qed.

Lemma reorg_spec chain0 v0 chain v base pool :
  pool_inv chain0 v0 pool -> config_ok (mp_config pool) ->
  match reconcile_reorg base chain v pool with
  | (Ok report, pool') => pool_inv chain v pool' /\ mp_config pool' = mp_config pool /\ mp_base pool' = base /\
                          rebuilt_from chain v pool (fun _ => True) report pool'
  | (Err e, pool') => pool' = pool /\ e = MempoolError.HeightOverflow /\ U64_MAX <= tip_height base
  end.
Proof using Type.
  intros HI HG. unfold reconcile_reorg. destruct (pool_order _ _ _ HI) as (order & -> & _ & Hin & HN).
  destruct (replace_spec _ _ chain v base pool order (fun _ => True) HI HG) as (source & -> & HR);
    [naive_solver|done|]. exact HR.
Qed.

(** ** A new block *)

Definition block_spends (block : Block) (o : OutPoint) : Prop :=
  exists tx, tx ∈ transactions block /\ o ∈ spent_outpoints tx.

(** The entry that claims an output, unless it is confirmed, and its
    descendants in the pool. *)
Definition displaced (pool : Mempool) (confirmed : gset Hash256) (o : OutPoint) (t : Hash256) : Prop :=
  exists root, mp_spenders pool !! o = Some root /\ (root ∉ confirmed) /\ rtc (edge (mp_entries pool) me_children) root t.

Lemma exclude_conflict_ok chain v pool confirmed excluded i :
  pool_inv chain v pool ->
  exists excluded', exclude_conflict pool confirmed excluded i = Ok excluded' /\
    forall t, t ∈ excluded' <-> t ∈ excluded \/ displaced pool confirmed (TxInput_outpoint i) t.
Proof using Type.
  intros HI. unfold exclude_conflict, displaced. destruct (mp_spenders pool !! TxInput_outpoint i) as [t|] eqn:Et.
  2: { exists excluded. split; [done|]. naive_solver. }
  destruct (bool_decide_reflect (t ∈ confirmed)); [exists excluded; split; [done|naive_solver]|].
  pose proof (pi_ok _ _ _ HI) as HP. destruct (po_topo _ _ _ _ _ HP) as (L & HT & HC).
  destruct (descendant_closure_ok _ (po_mirror _ _ _ _ _ HP) L HT HC t) as (D & -> & HD & _).
  { apply (po_spend _ _ _ _ _ HP) in Et as (e & Ee & _). by eexists. }
  eexists. split; [done|]. intros x. rewrite !elem_of_union, elem_of_singleton, HD. split.
  - intros [Hx|[->|Hx]]; [right; exists t; split_and!; [done..|by apply tc_rtc]|right; by exists t|by left].
  - intros [Hx|(root & [= <-] & _ & [->|Hx]%rtc_tc)]; [by right; right|by right; left|by left].
Qed.

Lemma exclude_inputs_ok chain v pool confirmed excluded l :
  pool_inv chain v pool ->
  exists excluded', try_fold (exclude_conflict pool confirmed) l excluded = Ok excluded' /\
    forall t, t ∈ excluded' <-> t ∈ excluded \/ exists i, i ∈ l /\ displaced pool confirmed (TxInput_outpoint i) t.
Proof using Type.
  intros HI. revert excluded. induction l as [|i l IH]; intros excluded; cbn [try_fold].
  { exists excluded. split; [done|]. set_solver. }
  destruct (exclude_conflict_ok chain v pool confirmed excluded i HI) as (x1 & -> & H1).
  destruct (IH x1) as (x2 & -> & H2). exists x2. split; [done|]. intros t. rewrite H2, H1. setoid_rewrite elem_of_cons. naive_solver.
Qed.

Lemma exclude_block_ok chain v pool confirmed excluded txs :
  pool_inv chain v pool ->
  exists excluded', try_fold (fun excluded tx => try_fold (exclude_conflict pool confirmed) (inputs tx) excluded) txs excluded
    = Ok excluded' /\
    forall t, t ∈ excluded' <-> t ∈ excluded \/ exists tx o, tx ∈ txs /\ o ∈ spent_outpoints tx /\ displaced pool confirmed o t.
Proof using Type.
  intros HI. revert excluded. induction txs as [|tx txs IH]; intros excluded; cbn [try_fold].
  { exists excluded. split; [done|]. set_solver. }
  destruct (exclude_inputs_ok chain v pool confirmed excluded (inputs tx) HI) as (x1 & -> & H1).
  destruct (IH x1) as (x2 & -> & H2). exists x2. split; [done|]. intros t. rewrite H2, H1. setoid_rewrite elem_of_cons.
  unfold spent_outpoints. setoid_rewrite list_elem_of_fmap. naive_solver.
Qed.

(** An entry that spends what the block spends without being in it, or a
    descendant in the pool of such an entry. *)
Definition conflicted (block : Block) (pool : Mempool) (t : Hash256) : Prop :=
  exists root e o, mp_entries pool !! root = Some e /\ o ∈ spent_outpoints (me_transaction e) /\ block_spends block o /\
    (root ∉ map Transaction_txid (transactions block)) /\ rtc (edge (mp_entries pool) me_children) root t.

(** Neither in the block nor in conflict with it. *)
Definition unaffected (block : Block) (pool : Mempool) (t : Hash256) : Prop :=
  (t ∉ map Transaction_txid (transactions block)) /\ ~ conflicted block pool t.

Lemma conflicted_displaced chain v block pool t :
  pool_inv chain v pool ->
  conflicted block pool t <-> exists tx o, tx ∈ transactions block /\ o ∈ spent_outpoints tx /\
    displaced pool (list_to_set (map Transaction_txid (transactions block))) o t.
Proof using Type.
  intros HI. pose proof (po_spend _ _ _ _ _ (pi_ok _ _ _ HI)) as HS. unfold conflicted, displaced, block_spends.
  setoid_rewrite elem_of_list_to_set. split.
  - intros (root & e & o & Ee & Ho & (tx & Htx & Hot) & Hn & Hr). exists tx, o. split_and!; [done..|]. exists root. split_and!; [|done..].
    apply HS. eauto.
  - intros (tx & o & Htx & Hot & root & (e & Ee & Ho)%HS & Hn & Hr). exists root, e, o. split_and!; try done. by exists tx.
Qed.

Lemma active_block_spec chain0 v0 chain v block base pool :
  pool_inv chain0 v0 pool -> config_ok (mp_config pool) ->
  match reconcile_active_block block base chain v pool with
  | (Ok report, pool') => pool_inv chain v pool' /\ mp_config pool' = mp_config pool /\ mp_base pool' = base /\
                          rebuilt_from chain v pool (unaffected block pool) report pool'
  | (Err e, pool') => pool' = pool /\ e = MempoolError.HeightOverflow /\ U64_MAX <= tip_height base
  end.
Proof using Type.
  intros HI HG. unfold reconcile_active_block. destruct (pool_order _ _ _ HI) as (order & -> & _ & Hin & HN).
  set (confirmed := list_to_set (map Transaction_txid (transactions block)) : gset Hash256).
  destruct (exclude_block_ok _ _ pool confirmed ∅ (transactions block) HI) as (excluded & -> & Hex).
  destruct (replace_spec _ _ chain v base pool (filter (fun id => (id ∉ confirmed) /\ (id ∉ excluded)) order)
              (unaffected block pool) HI HG) as (source & -> & HR); [| |exact HR].
  - intros t. rewrite list_elem_of_filter, Hin, Hex. unfold unaffected. rewrite (conflicted_displaced _ _ _ _ _ HI).
    unfold confirmed at 1. rewrite elem_of_list_to_set, elem_of_empty. fold confirmed. naive_solver.
  - by apply NoDup_filter.
Qed.

(** ** Reachable pools *)

(** The pools a run produces, each with the chain state it was last checked
    against. *)
Inductive reachable (config : MempoolConfig) (v : V) : UtxoState -> Mempool -> Prop :=
| reach_new chain base pool : Mempool_new base config = Ok pool -> reachable config v chain pool
| reach_admit chain pool tx base r pool' :
    reachable config v chain pool -> Mempool_admit tx base chain v pool = (r, pool') -> reachable config v chain pool'
| reach_reorg chain pool chain' base report pool' :
    reachable config v chain pool -> reconcile_reorg base chain' v pool = (Ok report, pool') ->
    reachable config v chain' pool'
| reach_block chain pool block chain' base report pool' :
    reachable config v chain pool -> reconcile_active_block block base chain' v pool = (Ok report, pool') ->
    reachable config v chain' pool'.

Lemma reachable_inv config v chain pool :
  config_ok config -> reachable config v chain pool -> pool_inv chain v pool /\ mp_config pool = config.
Proof using Type.
  intros HG. induction 1 as [chain base pool HN|chain pool tx base r pool' _ [HI Hc] HA
    |chain pool chain' base rep pool' _ [HI Hc] HA|chain pool block chain' base rep pool' _ [HI Hc] HA].
  - by destruct (pool_inv_new chain v base config pool HG HN) as (? & ? & _).
  - pose proof (admit_spec chain v pool tx base HI ltac:(by rewrite Hc)) as HS. rewrite HA in HS. destruct r as [out|er].
    + destruct HS as (c & R & _ & (_ & _ & _ & Hc' & _) & _ & HI' & _). split; [done|congruence].
    + by destruct HS as [-> _].
  - pose proof (reorg_spec chain v chain' v base pool HI ltac:(by rewrite Hc)) as HS. rewrite HA in HS.
    destruct HS as (? & ? & _). split; [done|congruence].
  - pose proof (active_block_spec chain v chain' v block base pool HI ltac:(by rewrite Hc)) as HS. rewrite HA in HS.
    destruct HS as (? & ? & _). split; [done|congruence].
Qed.

End Reconcile.

(** ** Properties *)

Section MempoolProperties.
Context `{Blake3} {V : Type} `{!SpendVerifier V}.

(** C24: the invariant of the pool.  Whatever admissions, blocks and
    reorganisations produced it: the entries are under their transaction
    identifiers and both limits hold, the byte count is the sum of the encoded
    sizes, the spender index is exactly the claims of the entries (so no output
    is claimed twice), the parents of an entry are the creators of what it
    spends outside the chain, and parents and children list each other. *)
Theorem mempool_invariant (config : MempoolConfig) (v : V) (chain : UtxoState) (pool : Mempool)
    (HG : config_ok config) (HR : reachable config v chain pool) :
  (forall t e, mp_entries pool !! t = Some e -> me_txid e = t /\ Transaction_txid (me_transaction e) = t) /\
  Z.of_nat (size (mp_entries pool)) <= cfg_max_entries config /\
  mp_total_bytes pool = msum (fun _ e => Z.of_nat (length (Transaction_encode (me_transaction e)))) (mp_entries pool) /\
  mp_total_bytes pool <= cfg_max_total_bytes config /\
  (forall o t, mp_spenders pool !! o = Some t <->
     exists e, mp_entries pool !! t = Some e /\ o ∈ spent_outpoints (me_transaction e)) /\
  (forall t e p, mp_entries pool !! t = Some e ->
     p ∈ me_parents e <-> exists o, o ∈ spent_outpoints (me_transaction e) /\ chain !! o = None /\ txid o = p) /\
  mirrored (mp_entries pool).
Proof.
  destruct (reachable_inv config v chain pool HG HR) as [[HP Hb Hn Ht] <-]. split_and!; try done.
  - intros t e Ee. by destruct (po_id _ _ _ _ _ HP t e Ee) as (? & ? & _).
  - apply (po_spend _ _ _ _ _ HP).
  - intros t e p. apply (po_parents _ _ _ _ _ HP).
  - apply (po_mirror _ _ _ _ _ HP).
Qed.

(** C23: the pool is a valid continuation of the chain.  Its deterministic
    order exists, lists every entry once, and applying the transactions in
    that order to the chain's outputs at the next height succeeds, each paying
    exactly the fee recorded for it: the pool can be mined as it stands. *)
Theorem mempool_order_replays (config : MempoolConfig) (v : V) (chain : UtxoState) (pool : Mempool)
    (HG : config_ok config) (HR : reachable config v chain pool) :
  exists order s, deterministic_order pool = Ok order /\ NoDup order /\
    (forall t, t ∈ order <-> is_Some (mp_entries pool !! t)) /\
    replay_ancestors (mp_entries pool) (tip_height (mp_base pool) + 1) v order chain = Ok s.
Proof.
  destruct (reachable_inv config v chain pool HG HR) as [HI _]. by apply pool_replays.
Qed.

(** Eviction is fair.  An accepted admission leaves a pool of the survivors
    and the candidate.  Everything evicted was known, takes all its
    descendants along, is no ancestor of the candidate, and is or descends from
    an evicted entry that is worse than the candidate and no better than any
    entry that stayed. *)
Theorem eviction_policy (config : MempoolConfig) (v : V) (chain : UtxoState) (pool : Mempool)
    (tx : Transaction) (base : ChainBase) (out : AdmissionOutcome) (pool' : Mempool)
    (HG : config_ok config) (HR : reachable config v chain pool)
    (HA : Mempool_admit tx base chain v pool = (Ok out, pool')) :
  base = mp_base pool /\ ao_txid out = Transaction_txid tx /\ mp_entries pool !! ao_txid out = None /\
  exists e, mp_entries pool' !! ao_txid out = Some e /\ me_transaction e = tx /\ me_fee e = ao_fee out /\
    (forall t, t <> ao_txid out -> is_Some (mp_entries pool' !! t) <-> is_Some (mp_entries pool !! t) /\ (t ∉ ao_evicted out)) /\
    (forall p t, p ∈ me_parents e -> rtc (edge (mp_entries pool) me_parents) p t -> t ∉ ao_evicted out) /\
    (forall t, t ∈ ao_evicted out -> is_Some (mp_entries pool !! t) /\
       (forall d, rtc (edge (mp_entries pool) me_children) t d -> d ∈ ao_evicted out) /\
       exists root x, root ∈ ao_evicted out /\ mp_entries pool !! root = Some x /\
         rtc (edge (mp_entries pool) me_children) root t /\ eviction_cmp x e = Lt /\
         (forall s y, s ∉ ao_evicted out -> mp_entries pool !! s = Some y -> eviction_cmp x y <> Gt)).
Proof.
  destruct (reachable_inv config v chain pool HG HR) as [HI Hc].
  pose proof (admit_spec chain v pool tx base HI ltac:(by rewrite Hc)) as HS. rewrite HA in HS.
  destruct HS as (c & R & -> & (Htx & Hid & Hf & _ & _ & Hm & _) & [Hk Hcl Hanc Hpol] & _ & -> & Hprep & _).
  destruct Hprep as (_ & _ & _ & HC & _). cbn [ap_candidate] in HC. cbn [ao_txid ao_fee ao_evicted]. rewrite Hm, Hid in *.
  split_and!; [done..|]. exists (pc_entry c). split_and!; [by rewrite <- Hid; apply joined_self|done..| | |].
  - intros t Hne. rewrite elem_of_set_list. rewrite <- Hid in Hne. unfold is_Some. setoid_rewrite joined_Some; [|done].
    setoid_rewrite survivors_Some. naive_solver.
  - intros p t Hp Hpt. rewrite elem_of_set_list. apply Hanc, (co_ancestors _ _ _ _ _ _ _ HC). by exists p.
  - intros t Ht%elem_of_set_list. split_and!; [auto| |].
    + intros d Hd. apply elem_of_set_list. induction Hd as [|x y z (ex & Ex & Hy) _ IH]; [done|]. apply IH. by eapply Hcl.
    + destruct (Hpol t Ht) as (r & x & Hr & Ex & Hrt & Hw & Hmin). exists r, x.
      split_and!; [by apply elem_of_set_list|done..|]. intros s y Hs. apply Hmin. by rewrite <- elem_of_set_list.
Qed.

(** Refused admissions.  They leave the pool as it was, never report a
    broken invariant or a cycle, and a stale context, an overflowing height, a
    known transaction or a conflict are reported only when there is one. *)
Theorem admit_refusals (config : MempoolConfig) (v : V) (chain : UtxoState) (pool : Mempool)
    (tx : Transaction) (base : ChainBase) (e : MempoolError.t) (pool' : Mempool)
    (HG : config_ok config) (HR : reachable config v chain pool)
    (HA : Mempool_admit tx base chain v pool = (Err e, pool')) :
  pool' = pool /\
  match e with
  | MempoolError.InvariantViolation | MempoolError.DependencyCycle | MempoolError.InvalidConfig => False
  | MempoolError.StaleChainContext => base <> mp_base pool
  | MempoolError.HeightOverflow => U64_MAX <= tip_height base
  | MempoolError.AlreadyKnown id => id = Transaction_txid tx /\ is_Some (mp_entries pool !! id)
  | MempoolError.Conflict o t => o ∈ spent_outpoints tx /\ mp_spenders pool !! o = Some t
  | _ => True
  end.
Proof.
  destruct (reachable_inv config v chain pool HG HR) as [HI Hc].
  pose proof (admit_spec chain v pool tx base HI ltac:(by rewrite Hc)) as HS. by rewrite HA in HS.
Qed.

(** Reconciliation with a new block always succeeds, for a height that has
    a successor.  What is left in the pool was in it before with the same
    transaction, is not in the block and spends nothing the block spends, and
    the pool is again one reachable for the new chain state (so its order
    replays on it); the report lists exactly what was dropped. *)
Theorem reconcile_block_exact (config : MempoolConfig) (v : V) (chain : UtxoState) (pool : Mempool)
    (block : Block) (base : ChainBase) (chain' : UtxoState)
    (HG : config_ok config) (HR : reachable config v chain pool) (HH : tip_height base < U64_MAX) :
  exists report pool', reconcile_active_block block base chain' v pool = (Ok report, pool') /\
    reachable config v chain' pool' /\ mp_base pool' = base /\ mp_config pool' = config /\
    (forall t e', mp_entries pool' !! t = Some e' ->
       (exists e, mp_entries pool !! t = Some e /\ me_transaction e = me_transaction e') /\
       (t ∉ map Transaction_txid (transactions block)) /\
       (forall tx o, tx ∈ transactions block -> o ∈ spent_outpoints tx -> o ∉ spent_outpoints (me_transaction e'))) /\
    (forall t, t ∈ rr_removed report <-> is_Some (mp_entries pool !! t) /\ mp_entries pool' !! t = None) /\
    rr_retained report = size (mp_entries pool').
Proof.
  destruct (reachable_inv config v chain pool HG HR) as [HI Hc].
  pose proof (active_block_spec chain v chain' v block base pool HI ltac:(by rewrite Hc)) as HS.
  destruct (reconcile_active_block block base chain' v pool) as [[report|er] pool'] eqn:Er; [|destruct HS as (_ & _ & ?); lia].
  destruct HS as (_ & Hc' & Hb & Hsub & _ & Hrem & _ & Hret). exists report, pool'.
  split_and!; [done|by eapply reach_block|done|congruence| |done..].
  intros t e' Ee'. destruct (Hsub t e' Ee') as [[Hn Hsp] (e & Ee & Htx)]. split_and!; [by exists e|done|].
  intros tx o Hin Ho Hcl. rewrite Htx in Hcl. apply Hsp. exists t, e, o. split_and!; [done..|by exists tx|done|apply rtc_refl].
Qed.

End MempoolProperties.

(** ** Examples *)

(** A pool of one entry, two outputs on the chain, and a transaction that
    spends each; the second pays more. *)
Definition demo_config : MempoolConfig := MkMempoolConfig 1 100000 25 25.
Definition demo_base : ChainBase := MkChainBase (arr_fill 32 x00) 120.
Definition demo_chain : UtxoState :=
  <[MkOutPoint (arr_fill 32 x32) 0 := MkUtxoEntry (demo_output 100) 1 false]> demo_seeded.
Definition demo_spend2 : Transaction :=
  MkTransaction 1 [MkTxInput (arr_fill 32 x32) 0 0 []] [demo_output 60] 0.

Definition demo_empty : Mempool := MkMempool demo_config demo_base ∅ ∅ 0.

Definition demo_admit (tx : Transaction) (pool : Mempool) : result MempoolError.t AdmissionOutcome * Mempool :=
  Mempool_admit (H := demo_blake3) (SpendVerifier0 := accept_all) tx demo_base demo_chain tt pool.

Definition demo_pool : Mempool := (demo_admit demo_spend demo_empty).2.

Lemma demo_config_ok : config_ok demo_config.
Proof. split_and!; cbn; by vm_compute. Qed.

Lemma demo_pool_reachable : reachable (H := demo_blake3) (SpendVerifier0 := accept_all) demo_config tt demo_chain demo_pool.
Proof.
  refine (reach_admit (H := demo_blake3) (SpendVerifier0 := accept_all) demo_config tt demo_chain demo_empty demo_spend
            demo_base (demo_admit demo_spend demo_empty).1 demo_pool _ _).
  - exact (reach_new (H := demo_blake3) (SpendVerifier0 := accept_all) demo_config tt demo_chain demo_base demo_empty eq_refl).
  - exact (surjective_pairing (demo_admit demo_spend demo_empty)).
Qed.

Lemma demo_pool_size : bool_decide (size (mp_entries demo_pool) = 1%nat) = true.
Proof. vm_compute. reflexivity. Qed.

Lemma admit_result {E A S} (p : result E A * S) a : p.1 = Ok a -> p = (Ok a, p.2).
Proof. intros <-. apply surjective_pairing. Qed.

Lemma mempool_invariant_witness :
  Z.of_nat (size (mp_entries demo_pool)) <= 1 /\ mp_total_bytes demo_pool <= 100000.
Proof.
  destruct (mempool_invariant (H := demo_blake3) (SpendVerifier0 := accept_all) demo_config tt demo_chain demo_pool
              demo_config_ok demo_pool_reachable) as (_ & H1 & _ & H2 & _).
  split; [exact H1|exact H2].
Defined.

Lemma mempool_order_replays_witness :
  size (mp_entries demo_pool) = 1%nat /\
  exists order s, deterministic_order demo_pool = Ok order /\ NoDup order /\
    (forall t, t ∈ order <-> is_Some (mp_entries demo_pool !! t)) /\
    replay_ancestors (H := demo_blake3) (SpendVerifier0 := accept_all) (mp_entries demo_pool)
      (tip_height (mp_base demo_pool) + 1) tt order demo_chain = Ok s.
Proof.
  split; [exact (bool_decide_eq_true_1 _ demo_pool_size)|].
  exact (mempool_order_replays (H := demo_blake3) (SpendVerifier0 := accept_all) demo_config tt demo_chain demo_pool
           demo_config_ok demo_pool_reachable).
Defined.

(** The second transaction evicts the first. *)
Definition outcome_of (r : result MempoolError.t AdmissionOutcome) : AdmissionOutcome :=
  match r with Ok out => out | Err _ => MkAdmissionOutcome (arr_fill 32 x00) 0 0 [] end.

Definition demo_outcome : AdmissionOutcome := outcome_of (demo_admit demo_spend2 demo_pool).1.

Lemma demo_evicts :
  bool_decide (ao_evicted demo_outcome = [Transaction_txid (H := demo_blake3) demo_spend]) = true.
Proof. vm_compute. reflexivity. Qed.

Lemma demo_accepts : (demo_admit demo_spend2 demo_pool).1 = Ok demo_outcome.
Proof.
  pose proof (bool_decide_eq_true_1 _ demo_evicts) as HE. unfold demo_outcome in *.
  by destruct (demo_admit demo_spend2 demo_pool).1.
Qed.

Lemma eviction_policy_witness :
  exists x, mp_entries demo_pool !! Transaction_txid (H := demo_blake3) demo_spend = Some x /\ mp_base demo_pool = demo_base.
Proof.
  destruct (eviction_policy (H := demo_blake3) (SpendVerifier0 := accept_all) demo_config tt demo_chain demo_pool
              demo_spend2 demo_base demo_outcome (demo_admit demo_spend2 demo_pool).2
              demo_config_ok demo_pool_reachable (admit_result _ _ demo_accepts)) as (Hb & _ & _ & e & _ & _ & _ & _ & _ & Hev).
  destruct (Hev (Transaction_txid (H := demo_blake3) demo_spend)) as ([x Hx] & _);
    [rewrite (bool_decide_eq_true_1 _ demo_evicts); apply list_elem_of_here|].
  exists x. split; [exact Hx|symmetry; exact Hb].
Defined.

(** The same transaction again is known. *)
Lemma demo_known :
  demo_admit demo_spend demo_pool
  = (Err (MempoolError.AlreadyKnown (Transaction_txid (H := demo_blake3) demo_spend)), (demo_admit demo_spend demo_pool).2).
Proof.
  enough ((demo_admit demo_spend demo_pool).1 = Err (MempoolError.AlreadyKnown (Transaction_txid (H := demo_blake3) demo_spend))) as <-
    by apply surjective_pairing.
  vm_compute. reflexivity.
Qed.

Lemma admit_refusals_witness :
  is_Some (mp_entries demo_pool !! Transaction_txid (H := demo_blake3) demo_spend).
Proof.
  destruct (admit_refusals (H := demo_blake3) (SpendVerifier0 := accept_all) demo_config tt demo_chain demo_pool
              demo_spend demo_base _ _ demo_config_ok demo_pool_reachable demo_known) as (_ & _ & Hk).
  exact Hk.
Defined.

Lemma reconcile_block_exact_witness :
  exists report pool', reconcile_active_block (H := demo_blake3) (SpendVerifier0 := accept_all)
    (demo_block 121 [demo_spend]) (MkChainBase (arr_fill 32 x01) 121) demo_chain tt demo_pool = (Ok report, pool') /\
    mp_base pool' = MkChainBase (arr_fill 32 x01) 121.
Proof.
  assert (tip_height (MkChainBase (arr_fill 32 x01) 121) < U64_MAX) as HH by reflexivity.
  destruct (reconcile_block_exact (H := demo_blake3) (SpendVerifier0 := accept_all) demo_config tt demo_chain demo_pool
              (demo_block 121 [demo_spend]) (MkChainBase (arr_fill 32 x01) 121) demo_chain
              demo_config_ok demo_pool_reachable HH) as (report & pool' & HE & _ & Hb & _).
  exists report, pool'. split; [exact HE|exact Hb].
Defined.
