(* ===== verification/Protocol.v ===== *)
(** [oregon-protocol]: the constants and limits of the wire protocol, feature
    negotiation ([features.rs]), messages ([message.rs]) and frame headers
    ([frame.rs]). *)
From S2P Require Import Prelude Encoding Transaction Block Layout.

Module ProtocolError.
Inductive t : Type :=
| UnknownMessageType (b : byte)
| UnknownInventoryKind (b : byte)
| ListLimitExceeded (actual max : Z)
| PayloadTooLarge (actual max : Z)
| UnsupportedFrameVersion (b : byte)
| NonZeroFlags (flags : Z)
| WrongNetworkMagic
| PayloadLengthMismatch (declared actual : Z)
| ChecksumMismatch
| InvalidStopFlag (b : byte)
| InvalidProtocolVersionRange (min max : Z)
| NoCommonProtocolVersion
| RequiredFeaturesNotOffered (bits : Z)
| UnsupportedRequiredFeatures (bits : Z)
| Primitive (e : PrimitiveError.t).
End ProtocolError.

(** ** Constants *)

Definition FRAME_HEADER_BYTES : nat := 16.
Definition FRAME_VERSION : byte := x01.

Definition PROTOCOL_VERSION_CURRENT : Z := 1.
Definition PROTOCOL_VERSION_MIN : Z := 1.

Definition MAX_FRAME_PAYLOAD : Z := 2 * 1024 * 1024.
Definition MAX_HANDSHAKE_PAYLOAD : Z := 4 * 1024.
Definition MAX_INV_ITEMS : Z := 4096.
Definition MAX_GETDATA_ITEMS : Z := 128.
Definition MAX_LOCATOR_HASHES : Z := 64.
Definition MAX_HEADERS_PER_MESSAGE : Z := 128.

Definition TAG_HELLO : byte := x01.
Definition TAG_HELLO_ACK : byte := x02.
Definition TAG_PING : byte := x03.
Definition TAG_PONG : byte := x04.
Definition TAG_INV : byte := x10.
Definition TAG_GET_DATA : byte := x11.
Definition TAG_GET_HEADERS : byte := x20.
Definition TAG_HEADERS : byte := x21.
Definition TAG_TRANSACTION : byte := x30.
Definition TAG_BLOCK : byte := x31.

Definition is_known_message_type (message_type : byte) : bool :=
  bool_decide (message_type ∈ [TAG_HELLO; TAG_HELLO_ACK; TAG_PING; TAG_PONG; TAG_INV; TAG_GET_DATA;
                               TAG_GET_HEADERS; TAG_HEADERS; TAG_TRANSACTION; TAG_BLOCK]).

Definition payload_limit (message_type : byte) : Z :=
  if bool_decide (message_type ∈ [TAG_HELLO; TAG_HELLO_ACK]) then MAX_HANDSHAKE_PAYLOAD else MAX_FRAME_PAYLOAD.

(** ** Messages *)

(** [FeatureSet]: the bits of a [u64]. *)
Record FeatureSet : Type := MkFeatureSet { bits : Z }.

Record Hello : Type := MkHello {
  min_protocol_version : Z;
  max_protocol_version : Z;
  hello_chain_id : Hash256;
  instance_nonce : arr 16;
  offered_features : FeatureSet;
  required_features : FeatureSet;
  best_height : Z;
  best_block_id : Hash256;
}.

Record HelloAck : Type := MkHelloAck {
  selected_protocol_version : Z;
  enabled_features : FeatureSet;
  remote_nonce_echo : arr 16;
}.

Inductive InventoryKind : Type := InvTransaction | InvBlock.

Record InventoryItem : Type := MkInventoryItem { kind : InventoryKind; item_hash : Hash256 }.

Record GetHeaders : Type := MkGetHeaders { locator : list Hash256; stop : option Hash256 }.

(** [Message]; the constructors carry the prefix [Msg]. *)
Inductive Message : Type :=
| MsgHello (h : Hello)
| MsgHelloAck (a : HelloAck)
| MsgPing (nonce : Z)
| MsgPong (nonce : Z)
| MsgInv (items : list InventoryItem)
| MsgGetData (items : list InventoryItem)
| MsgGetHeaders (r : GetHeaders)
| MsgHeaders (l : list BlockHeader)
| MsgTransaction (tx : Transaction)
| MsgBlock (b : Block).

#[global] Instance FeatureSet_eq_dec : EqDecision FeatureSet.
Proof. solve_decision. Defined.
#[global] Instance InventoryKind_eq_dec : EqDecision InventoryKind.
Proof. solve_decision. Defined.
#[global] Instance InventoryItem_eq_dec : EqDecision InventoryItem.
Proof. solve_decision. Defined.
#[global] Program Instance InventoryItem_countable : Countable InventoryItem :=
  inj_countable' (fun i => (bool_decide (kind i = InvBlock), item_hash i))
    (fun p => MkInventoryItem (if p.1 then InvBlock else InvTransaction) p.2) _.
Next Obligation. by intros [[] ?]. Qed.

Definition kind_tag (k : InventoryKind) : byte := match k with InvTransaction => x01 | InvBlock => x02 end.

Definition kind_decode (value : byte) : result ProtocolError.t InventoryKind :=
  match value with
  | x01 => Ok InvTransaction
  | x02 => Ok InvBlock
  | other => Err (ProtocolError.UnknownInventoryKind other)
  end.

Definition enforce_list_limit (actual : nat) (max : Z) : result ProtocolError.t unit :=
  if Z.of_nat actual >? max then Err (ProtocolError.ListLimitExceeded (Z.of_nat actual) max) else Ok tt.

Definition encode_hello (h : Hello) : list byte :=
  le_bytes 2 (min_protocol_version h)
    ++ le_bytes 2 (max_protocol_version h)
    ++ arr_bytes (hello_chain_id h)
    ++ arr_bytes (instance_nonce h)
    ++ le_bytes 8 (bits (offered_features h))
    ++ le_bytes 8 (bits (required_features h))
    ++ le_bytes 8 (best_height h)
    ++ arr_bytes (best_block_id h).

Definition encode_hello_ack (a : HelloAck) : list byte :=
  le_bytes 2 (selected_protocol_version a) ++ le_bytes 8 (bits (enabled_features a)) ++ arr_bytes (remote_nonce_echo a).

Definition encode_item (i : InventoryItem) : list byte := kind_tag (kind i) :: arr_bytes (item_hash i).

Definition encode_inventory (items : list InventoryItem) (max : Z) : result ProtocolError.t (list byte) :=
  let? _ := enforce_list_limit (length items) max in
  Ok (write_varint (Z.of_nat (length items)) ++ encode_all encode_item items).

Definition encode_stop (s : option Hash256) : list byte :=
  match s with None => [x00] | Some stop => x01 :: arr_bytes stop end.

Definition encode_get_headers (r : GetHeaders) : result ProtocolError.t (list byte) :=
  let? _ := enforce_list_limit (length (locator r)) MAX_LOCATOR_HASHES in
  Ok (write_varint (Z.of_nat (length (locator r))) ++ encode_all arr_bytes (locator r) ++ encode_stop (stop r)).

Definition encode_headers (l : list BlockHeader) : result ProtocolError.t (list byte) :=
  let? _ := enforce_list_limit (length l) MAX_HEADERS_PER_MESSAGE in
  Ok (write_varint (Z.of_nat (length l)) ++ encode_all BlockHeader_encode l).

(** The tag and the payload of a message. *)
Definition encode_body (m : Message) : result ProtocolError.t (byte * list byte) :=
  match m with
  | MsgHello h => Ok (TAG_HELLO, encode_hello h)
  | MsgHelloAck a => Ok (TAG_HELLO_ACK, encode_hello_ack a)
  | MsgPing n => Ok (TAG_PING, le_bytes 8 n)
  | MsgPong n => Ok (TAG_PONG, le_bytes 8 n)
  | MsgInv items => let? p := encode_inventory items MAX_INV_ITEMS in Ok (TAG_INV, p)
  | MsgGetData items => let? p := encode_inventory items MAX_GETDATA_ITEMS in Ok (TAG_GET_DATA, p)
  | MsgGetHeaders r => let? p := encode_get_headers r in Ok (TAG_GET_HEADERS, p)
  | MsgHeaders l => let? p := encode_headers l in Ok (TAG_HEADERS, p)
  | MsgTransaction tx => Ok (TAG_TRANSACTION, Transaction_encode tx)
  | MsgBlock b => Ok (TAG_BLOCK, Block_encode b)
  end.

Definition encode_message (m : Message) : result ProtocolError.t (byte * list byte) :=
  let? (message_type, payload) := encode_body m in
  let max := payload_limit message_type in
  if Z.of_nat (length payload) >? max then Err (ProtocolError.PayloadTooLarge (Z.of_nat (length payload)) max)
  else Ok (message_type, payload).

(** ** Decoding messages *)

Abbreviation preader A := (eff Decoder ProtocolError.t A).

(** [?] on a primitive read. *)
Definition prot {A} (r : reader A) : preader A := eff_map_err ProtocolError.Primitive r.

(** [decoder.read_bytes(1)?[0]] *)
Definition read_tag : preader byte := let! bytes := prot (read_bytes 1) in eff_ret (byte_at 0 bytes).

Definition protocol_read_hash : preader Hash256 :=
  let! bytes := prot (read_bytes 32) in eff_lift (map_err ProtocolError.Primitive (Hash256_from_slice bytes)).

(** A reader followed by [decoder.finish()]. *)
Definition decode_payload {A} (r : preader A) (payload : list byte) : result ProtocolError.t A :=
  fst ((let! a := r in let! _ := prot finish in eff_lift (Ok a)) (Decoder_new payload)).

Definition read_hello : preader Hello :=
  let! min := prot read_u16 in
  let! max := prot read_u16 in
  let! chain := protocol_read_hash in
  let! nonce := prot (read_array 16) in
  let! offered := prot read_u64 in
  let! required := prot read_u64 in
  let! height := prot read_u64 in
  let! best := protocol_read_hash in
  eff_ret (MkHello min max chain nonce (MkFeatureSet offered) (MkFeatureSet required) height best).

Definition decode_hello (payload : list byte) : result ProtocolError.t Hello := decode_payload read_hello payload.

Definition read_hello_ack : preader HelloAck :=
  let! version := prot read_u16 in
  let! features := prot read_u64 in
  let! echo := prot (read_array 16) in
  eff_ret (MkHelloAck version (MkFeatureSet features) echo).

Definition decode_hello_ack (payload : list byte) : result ProtocolError.t HelloAck :=
  decode_payload read_hello_ack payload.

Definition decode_nonce (payload : list byte) : result ProtocolError.t Z := decode_payload (prot read_u64) payload.

Definition read_item : preader InventoryItem :=
  let! tag := read_tag in
  let! k := eff_lift (kind_decode tag) in
  let! hash := protocol_read_hash in
  eff_ret (MkInventoryItem k hash).

Definition read_inventory (max : Z) : preader (list InventoryItem) :=
  let! count := prot (read_len max) in repeat_read count read_item.

Definition decode_inventory (payload : list byte) (max : Z) : result ProtocolError.t (list InventoryItem) :=
  decode_payload (read_inventory max) payload.

Definition read_stop : preader (option Hash256) :=
  let! flag := read_tag in
  match flag with
  | x00 => eff_ret None
  | x01 => let! hash := protocol_read_hash in eff_ret (Some hash)
  | other => eff_fail (ProtocolError.InvalidStopFlag other)
  end.

Definition read_get_headers : preader GetHeaders :=
  let! count := prot (read_len MAX_LOCATOR_HASHES) in
  let! hashes := repeat_read count protocol_read_hash in
  let! s := read_stop in
  eff_ret (MkGetHeaders hashes s).

Definition decode_get_headers (payload : list byte) : result ProtocolError.t GetHeaders :=
  decode_payload read_get_headers payload.

Definition read_header : preader BlockHeader :=
  let! bytes := prot (read_bytes BLOCK_HEADER_BYTES) in
  eff_lift (map_err ProtocolError.Primitive (BlockHeader_decode bytes)).

Definition read_headers : preader (list BlockHeader) :=
  let! count := prot (read_len MAX_HEADERS_PER_MESSAGE) in repeat_read count read_header.

Definition decode_headers (payload : list byte) : result ProtocolError.t (list BlockHeader) :=
  decode_payload read_headers payload.

Definition decode_message (message_type : byte) (payload : list byte) : result ProtocolError.t Message :=
  if negb (is_known_message_type message_type) then Err (ProtocolError.UnknownMessageType message_type)
  else
    let max := payload_limit message_type in
    if Z.of_nat (length payload) >? max then Err (ProtocolError.PayloadTooLarge (Z.of_nat (length payload)) max)
    else match message_type with
    | x01 => let? h := decode_hello payload in Ok (MsgHello h)
    | x02 => let? a := decode_hello_ack payload in Ok (MsgHelloAck a)
    | x03 => let? n := decode_nonce payload in Ok (MsgPing n)
    | x04 => let? n := decode_nonce payload in Ok (MsgPong n)
    | x10 => let? l := decode_inventory payload MAX_INV_ITEMS in Ok (MsgInv l)
    | x11 => let? l := decode_inventory payload MAX_GETDATA_ITEMS in Ok (MsgGetData l)
    | x20 => let? r := decode_get_headers payload in Ok (MsgGetHeaders r)
    | x21 => let? l := decode_headers payload in Ok (MsgHeaders l)
    | x30 => let? tx := map_err ProtocolError.Primitive (Transaction_decode payload DecodeLimits_default) in
             Ok (MsgTransaction tx)
    | x31 => let? b := map_err ProtocolError.Primitive (Block_decode payload DecodeLimits_default) in
             Ok (MsgBlock b)
    | other => Err (ProtocolError.UnknownMessageType other)
    end.

(** ** Frames *)

Definition NETWORK_MAGIC_DOMAIN : list byte := domain_tag "OREGON/NETMAGIC/V1".
Definition FRAME_DOMAIN : list byte := domain_tag "OREGON/FRAME/V1".

Record FrameHeader : Type := MkFrameHeader {
  fh_network_magic : arr 4;
  fh_frame_version : byte;
  fh_message_type : byte;
  fh_flags : Z;
  fh_payload_length : Z;
  fh_checksum : arr 4;
}.

Definition FrameHeader_encode (h : FrameHeader) : list byte :=
  arr_bytes (fh_network_magic h)
    ++ [fh_frame_version h]
    ++ [fh_message_type h]
    ++ le_bytes 2 (fh_flags h)
    ++ le_bytes 4 (fh_payload_length h)
    ++ arr_bytes (fh_checksum h).

Definition validate_payload_size (message_type : byte) (actual : Z) : result ProtocolError.t unit :=
  if negb (is_known_message_type message_type) then Err (ProtocolError.UnknownMessageType message_type)
  else
    let max := payload_limit message_type in
    if actual >? max then Err (ProtocolError.PayloadTooLarge actual max) else Ok tt.

Definition validate_header_fields (frame_version message_type : byte) (flags payload_length : Z)
  : result ProtocolError.t unit :=
  if negb (bool_decide (frame_version = FRAME_VERSION)) then Err (ProtocolError.UnsupportedFrameVersion frame_version)
  else if negb (is_known_message_type message_type) then Err (ProtocolError.UnknownMessageType message_type)
  else if negb (flags =? 0) then Err (ProtocolError.NonZeroFlags flags)
  else validate_payload_size message_type payload_length.

Definition read_frame_header : preader FrameHeader :=
  let! magic := prot (read_array 4) in
  let! version := read_tag in
  let! message_type := read_tag in
  let! flags := prot read_u16 in
  let! length := prot read_u32 in
  let! checksum := prot (read_array 4) in
  eff_ret (MkFrameHeader magic version message_type flags length checksum).

Definition FrameHeader_decode (bytes : list byte) : result ProtocolError.t FrameHeader :=
  fst ((let! h := read_frame_header in
        let! _ := prot finish in
        eff_lift (let? _ := validate_header_fields (fh_frame_version h) (fh_message_type h) (fh_flags h)
                              (fh_payload_length h) in
                  Ok h)) (Decoder_new bytes)).

(** [first_four] of a digest. *)
Definition first_four (h : Hash256) : arr 4 := arr_resize 4 (take 4 (arr_bytes h)).

Definition network_magic `{Blake3} (chain_id : Hash256) : arr 4 :=
  first_four (domain_hash NETWORK_MAGIC_DOMAIN (arr_bytes chain_id)).

Definition frame_message (magic : arr 4) (message_type : byte) (payload_length : Z) (payload : list byte) : list byte :=
  arr_bytes magic ++ [FRAME_VERSION; message_type] ++ le_bytes 2 0 ++ le_bytes 4 payload_length ++ payload.

Definition frame_checksum `{Blake3} (magic : arr 4) (message_type : byte) (payload_length : Z) (payload : list byte)
  : arr 4 := first_four (domain_hash FRAME_DOMAIN (frame_message magic message_type payload_length payload)).

Definition build_frame_header `{Blake3} (magic : arr 4) (message_type : byte) (payload : list byte)
  : result ProtocolError.t FrameHeader :=
  let? _ := validate_payload_size message_type (Z.of_nat (length payload)) in
  let? payload_length := ok_or (try_from U32_MAX (Z.of_nat (length payload)))
                           (ProtocolError.PayloadTooLarge (Z.of_nat (length payload)) (payload_limit message_type)) in
  let? _ := validate_header_fields FRAME_VERSION message_type 0 payload_length in
  Ok (MkFrameHeader magic FRAME_VERSION message_type 0 payload_length
        (frame_checksum magic message_type payload_length payload)).

Definition verify_frame_payload `{Blake3} (h : FrameHeader) (expected_magic : arr 4) (payload : list byte)
  : result ProtocolError.t unit :=
  let? _ := validate_header_fields (fh_frame_version h) (fh_message_type h) (fh_flags h) (fh_payload_length h) in
  if negb (bool_decide (fh_network_magic h = expected_magic)) then Err ProtocolError.WrongNetworkMagic
  else if negb (fh_payload_length h =? Z.of_nat (length payload))
  then Err (ProtocolError.PayloadLengthMismatch (fh_payload_length h) (Z.of_nat (length payload)))
  else if negb (bool_decide (fh_checksum h =
                  frame_checksum (fh_network_magic h) (fh_message_type h) (fh_payload_length h) payload))
  then Err ProtocolError.ChecksumMismatch
  else Ok tt.

(** ** Feature negotiation *)

Definition HEADERS_SYNC : FeatureSet := MkFeatureSet (Z.shiftl 1 0).
Definition BLOCK_RELAY : FeatureSet := MkFeatureSet (Z.shiftl 1 1).
Definition TX_RELAY : FeatureSet := MkFeatureSet (Z.shiftl 1 2).
Definition FEATURES_KNOWN : FeatureSet :=
  MkFeatureSet (Z.lor (Z.lor (bits HEADERS_SYNC) (bits BLOCK_RELAY)) (bits TX_RELAY)).

Definition features_contains (self other : FeatureSet) : bool := Z.land (bits self) (bits other) =? bits other.
Definition features_and (self rhs : FeatureSet) : FeatureSet := MkFeatureSet (Z.land (bits self) (bits rhs)).

(** [!b] on a [u64]. *)
Definition u64_not (b : Z) : Z := Z.lxor b U64_MAX.

Record Negotiated : Type := MkNegotiated { protocol_version : Z; features : FeatureSet }.

#[global] Instance Negotiated_eq_dec : EqDecision Negotiated.
Proof. solve_decision. Defined.

Definition validate_range (h : Hello) : result ProtocolError.t unit :=
  if (min_protocol_version h =? 0) || (min_protocol_version h >? max_protocol_version h)
  then Err (ProtocolError.InvalidProtocolVersionRange (min_protocol_version h) (max_protocol_version h))
  else Ok tt.

Definition validate_required_subset (h : Hello) : result ProtocolError.t unit :=
  let missing := Z.land (bits (required_features h)) (u64_not (bits (offered_features h))) in
  if negb (missing =? 0) then Err (ProtocolError.RequiredFeaturesNotOffered missing) else Ok tt.

Definition negotiate (local remote : Hello) : result ProtocolError.t Negotiated :=
  let? _ := validate_range local in
  let? _ := validate_range remote in
  let? _ := validate_required_subset local in
  let? _ := validate_required_subset remote in
  let minimum := Z.max (min_protocol_version local) (min_protocol_version remote) in
  let maximum := Z.min (max_protocol_version local) (max_protocol_version remote) in
  if minimum >? maximum then Err ProtocolError.NoCommonProtocolVersion
  else
    let unsupported :=
      Z.lor (Z.lor (Z.lor (Z.land (bits (required_features local)) (u64_not (bits (offered_features remote))))
                          (Z.land (bits (required_features remote)) (u64_not (bits (offered_features local)))))
                   (Z.land (bits (required_features local)) (u64_not (bits FEATURES_KNOWN))))
            (Z.land (bits (required_features remote)) (u64_not (bits FEATURES_KNOWN))) in
    if negb (unsupported =? 0) then Err (ProtocolError.UnsupportedRequiredFeatures unsupported)
    else Ok (MkNegotiated maximum
               (features_and (features_and (offered_features local) (offered_features remote)) FEATURES_KNOWN)).

(** ** Codecs *)

#[export] Instance prot_codec {A} (enc : A -> list byte) (rd : reader A) wf `{!Codec enc rd wf} : Codec enc (prot rd) wf.
Proof. unfold prot. apply _. Qed.

#[export] Instance read_tag_codec : Codec (fun b => [b]) read_tag (fun _ => True).
Proof.
  intros d b d' W. unfold read_tag. split.
  - intros H. codec_fwd H. injection H as <- <-. destruct a as [|x [|]]; done.
  - intros [_ C]. by codec_bwd.
Qed.

#[export] Instance protocol_read_hash_codec : Codec arr_bytes protocol_read_hash (fun _ => True).
Proof.
  apply (codec_convert (fun l => l) (prot (read_bytes 32)) (fun l => length l = 32%nat) _ arr_bytes).
  - apply _.
  - intros b a _. rewrite map_err_Ok. unfold Hash256_from_slice. rewrite ok_or_Ok, to_arr_Some. naive_solver.
  - intros a _. apply arr_length.
Qed.

Lemma decode_payload_spec {A} (enc : A -> list byte) (rd : preader A) wf `{!Codec enc rd wf} payload a :
  Z.of_nat (length payload) <= USIZE_MAX -> decode_payload rd payload = Ok a <-> wf a /\ payload = enc a.
Proof. intros HL. unfold decode_payload, prot. rewrite (decode_checked_spec _ _ enc rd wf) by done. naive_solver. Qed.

Definition hello_ok (h : Hello) : Prop :=
  in_u16 (min_protocol_version h) /\ in_u16 (max_protocol_version h) /\ in_u64 (bits (offered_features h)) /\
  in_u64 (bits (required_features h)) /\ in_u64 (best_height h).

#[export] Instance read_hello_codec : Codec encode_hello read_hello hello_ok.
Proof.
  intros d [mi ma ch no [o] [r] he be] d' W. unfold read_hello, encode_hello, hello_ok; cbn. split.
  - intros H. do 8 codec_fwd H. injection H as <- <- <- <- <- <- <- <- <-. split; [by split_and!|]. consumes_join.
  - intros [(? & ? & ? & ? & ?) C]. do 7 consumes_split C. do 8 (codec_bwd; [done|]). done.
Qed.

Definition ack_ok (a : HelloAck) : Prop :=
  in_u16 (selected_protocol_version a) /\ in_u64 (bits (enabled_features a)).

#[export] Instance read_hello_ack_codec : Codec encode_hello_ack read_hello_ack ack_ok.
Proof.
  intros d [ve [f] ec] d' W. unfold read_hello_ack, encode_hello_ack, ack_ok; cbn. split.
  - intros H. do 3 codec_fwd H. injection H as <- <- <- <-. split; [by split_and!|]. consumes_join.
  - intros [(? & ?) C]. do 2 consumes_split C. do 3 (codec_bwd; [done|]). done.
Qed.

Lemma kind_decode_Ok b k : kind_decode b = Ok k <-> b = kind_tag k.
Proof. split; [destruct b; simpl; intros [= <-]; done|intros ->; by destruct k]. Qed.

#[export] Instance read_item_codec : Codec encode_item read_item (fun _ => True).
Proof.
  intros d [k ha] d' W. unfold read_item, encode_item; cbn. split.
  - intros H. codec_fwd H. unfold eff_bind at 1, eff_lift in H. destruct (kind_decode a) eqn:E; [|done].
    codec_fwd H. injection H as <- <- <-. apply kind_decode_Ok in E as ->. split; [done|]. by eapply (consumes_chain _ [_]).
  - intros [_ C]. apply consumes_cons in C as (d1 & C1 & C); [|done]. codec_bwd; [done|].
    unfold eff_bind at 1, eff_lift. rewrite (proj2 (kind_decode_Ok _ k)) by done. by codec_bwd.
Qed.

(** A counted list. *)
#[export] Instance counted_codec {A} (enc : A -> list byte) (rd : preader A) wf `{!Codec enc rd wf} max :
  Codec (fun l => write_varint (Z.of_nat (length l)) ++ encode_all enc l)
    (let! count := prot (read_len max) in repeat_read count rd) (fun l => fits l max /\ Forall wf l).
Proof.
  intros d l d' W. split.
  - intros H. codec_fwd H. apply codec_spec in H as [[<- HF] C']; [|by eauto using consumes_wf].
    split; [done|]. by eapply consumes_chain.
  - intros [[HB HF] C]. consumes_split C. codec_bwd; [done|]. apply codec_spec; [by eauto using consumes_wf|done].
Qed.

#[export] Instance read_stop_codec : Codec encode_stop read_stop (fun _ => True).
Proof.
  intros d o d' W. unfold read_stop. split.
  - intros H. codec_fwd H. destruct a; try done.
    + injection H as <- <-. done.
    + codec_fwd H. injection H as <- <-. split; [done|]. simpl. by eapply (consumes_chain _ [_]).
  - intros [_ C]. destruct o as [a|]; simpl in C.
    + apply consumes_cons in C as (d1 & C1 & C); [|done]. codec_bwd; [done|]. simpl. by codec_bwd.
    + by codec_bwd.
Qed.

Definition encode_locator (r : GetHeaders) : list byte :=
  write_varint (Z.of_nat (length (locator r))) ++ encode_all arr_bytes (locator r) ++ encode_stop (stop r).

#[export] Instance read_get_headers_codec :
  Codec encode_locator read_get_headers (fun r => fits (locator r) MAX_LOCATOR_HASHES).
Proof.
  intros d [l s] d' W. unfold read_get_headers, encode_locator; cbn [locator stop]. split.
  - intros H. do 3 codec_fwd H. injection H as <- <- <-. destruct Wf0 as [<- _]. split; [done|]. consumes_join.
  - intros [HB C]. do 2 consumes_split C. codec_bwd; [done|].
    codec_bwd; [split; [done|apply Forall_true; done]|]. by codec_bwd.
Qed.

#[export] Instance read_header_codec : Codec BlockHeader_encode read_header header_within.
Proof.
  apply (codec_convert (fun l => l) (prot (read_bytes BLOCK_HEADER_BYTES)) (fun l => length l = BLOCK_HEADER_BYTES) _ BlockHeader_encode).
  - apply _.
  - intros b h Hb. rewrite map_err_Ok. split.
    + intros Hd. apply BlockHeader_decode_spec in Hd as [? ?]; [done|]. rewrite Hb. by vm_compute.
    + intros [Hh ->]. by apply BlockHeader_decode_encode.
  - intros h _. apply length_BlockHeader_encode.
Qed.

(** ** Messages are decoded exactly *)

Definition message_ok (m : Message) : Prop :=
  match m with
  | MsgHello h => hello_ok h
  | MsgHelloAck a => ack_ok a
  | MsgPing n | MsgPong n => in_u64 n
  | MsgInv _ | MsgGetData _ | MsgGetHeaders _ => True
  | MsgHeaders l => Forall header_within l
  | MsgTransaction tx => transaction_within DecodeLimits_default tx
  | MsgBlock b => block_within DecodeLimits_default b
  end.

Lemma payload_limit_range t : 0 <= payload_limit t <= MAX_FRAME_PAYLOAD.
Proof. unfold payload_limit. by destruct (bool_decide _). Qed.

Lemma fits_small {A} (l : list A) max : Z.of_nat (length l) <= max -> max <= USIZE_MAX -> fits l max.
Proof. intros. split; [done|lia]. Qed.

(** The payload each kind of message has, when its lists are within bounds. *)
Lemma encode_body_spec m t p :
  encode_body m = Ok (t, p) <->
  match m with
  | MsgHello h => t = TAG_HELLO /\ p = encode_hello h
  | MsgHelloAck a => t = TAG_HELLO_ACK /\ p = encode_hello_ack a
  | MsgPing n => t = TAG_PING /\ p = le_bytes 8 n
  | MsgPong n => t = TAG_PONG /\ p = le_bytes 8 n
  | MsgInv l => t = TAG_INV /\ Z.of_nat (length l) <= MAX_INV_ITEMS /\
                p = write_varint (Z.of_nat (length l)) ++ encode_all encode_item l
  | MsgGetData l => t = TAG_GET_DATA /\ Z.of_nat (length l) <= MAX_GETDATA_ITEMS /\
                    p = write_varint (Z.of_nat (length l)) ++ encode_all encode_item l
  | MsgGetHeaders r => t = TAG_GET_HEADERS /\ Z.of_nat (length (locator r)) <= MAX_LOCATOR_HASHES /\ p = encode_locator r
  | MsgHeaders l => t = TAG_HEADERS /\ Z.of_nat (length l) <= MAX_HEADERS_PER_MESSAGE /\
                    p = write_varint (Z.of_nat (length l)) ++ encode_all BlockHeader_encode l
  | MsgTransaction tx => t = TAG_TRANSACTION /\ p = Transaction_encode tx
  | MsgBlock b => t = TAG_BLOCK /\ p = Block_encode b
  end.
Proof.
  destruct m; cbn [encode_body]; try naive_solver.
  all: unfold encode_inventory, encode_get_headers, encode_headers, enforce_list_limit, encode_locator;
    destruct (_ >? _) eqn:E; [split; [done|intros (_ & ? & _); lia]|]; split;
    [intros [= <- <-]; split_and!; [done|lia|done]|by intros (-> & _ & ->)].
Qed.

Lemma encode_message_spec m t p :
  encode_message m = Ok (t, p) <-> encode_body m = Ok (t, p) /\ Z.of_nat (length p) <= payload_limit t.
Proof.
  unfold encode_message. destruct (encode_body m) as [[t' p']|]; [|naive_solver].
  destruct (_ >? _) eqn:E; split.
  - done.
  - intros [[= <- <-] ?]. lia.
  - intros [= <- <-]. split; [done|lia].
  - by intros [[= <- <-] _].
Qed.

Lemma known_type_cases t :
  is_known_message_type t = true ->
  t = TAG_HELLO \/ t = TAG_HELLO_ACK \/ t = TAG_PING \/ t = TAG_PONG \/ t = TAG_INV \/ t = TAG_GET_DATA \/
  t = TAG_GET_HEADERS \/ t = TAG_HEADERS \/ t = TAG_TRANSACTION \/ t = TAG_BLOCK.
Proof.
  unfold is_known_message_type. rewrite bool_decide_eq_true.
  repeat (rewrite elem_of_cons; intros [->|]; [tauto|]; revert select (_ ∈ _)). set_solver.
Qed.

Section PayloadSpecs.
Context (payload : list byte) (HL : Z.of_nat (length payload) <= MAX_FRAME_PAYLOAD).

Lemma small_payload : Z.of_nat (length payload) <= USIZE_MAX.
Proof using HL. unfold MAX_FRAME_PAYLOAD in HL. unfold_ints. lia. Qed.

Lemma decode_hello_spec h : decode_hello payload = Ok h <-> hello_ok h /\ payload = encode_hello h.
Proof using HL. apply decode_payload_spec; [apply _|apply small_payload]. Qed.

Lemma decode_hello_ack_spec a : decode_hello_ack payload = Ok a <-> ack_ok a /\ payload = encode_hello_ack a.
Proof using HL. apply decode_payload_spec; [apply _|apply small_payload]. Qed.

Lemma decode_nonce_spec n : decode_nonce payload = Ok n <-> in_u64 n /\ payload = le_bytes 8 n.
Proof using HL. apply decode_payload_spec; [apply _|apply small_payload]. Qed.

Lemma decode_inventory_spec max l :
  max <= USIZE_MAX ->
  decode_inventory payload max = Ok l <->
  Z.of_nat (length l) <= max /\ payload = write_varint (Z.of_nat (length l)) ++ encode_all encode_item l.
Proof using HL.
  intros Hm. unfold decode_inventory, read_inventory.
  rewrite (decode_payload_spec (fun l => write_varint (Z.of_nat (length l)) ++ encode_all encode_item l)
             _ (fun l => fits l max /\ Forall (fun _ => True) l)) by apply small_payload.
  split; [intros [[[? _] _] ?]; done|]. intros [? ?]. split; [|done]. split; [by apply fits_small|by apply Forall_true].
Qed.

Lemma decode_get_headers_spec r :
  decode_get_headers payload = Ok r <->
  Z.of_nat (length (locator r)) <= MAX_LOCATOR_HASHES /\ payload = encode_locator r.
Proof using HL.
  unfold decode_get_headers.
  rewrite (decode_payload_spec encode_locator _ (fun r => fits (locator r) MAX_LOCATOR_HASHES)) by apply small_payload.
  split; [intros [[? _] ?]; done|]. intros [? ?]. split; [by apply fits_small|done].
Qed.

Lemma decode_headers_spec l :
  decode_headers payload = Ok l <->
  Z.of_nat (length l) <= MAX_HEADERS_PER_MESSAGE /\ Forall header_within l /\
  payload = write_varint (Z.of_nat (length l)) ++ encode_all BlockHeader_encode l.
Proof using HL.
  unfold decode_headers, read_headers.
  rewrite (decode_payload_spec (fun l => write_varint (Z.of_nat (length l)) ++ encode_all BlockHeader_encode l)
             _ (fun l => fits l MAX_HEADERS_PER_MESSAGE /\ Forall header_within l)) by apply small_payload.
  split; [intros [[[? _] ?] ?]; done|]. intros (? & ? & ?). split; [|done]. split; [by apply fits_small|done].
Qed.

Lemma object_limit : Z.of_nat (length payload) <= max_object_bytes DecodeLimits_default.
Proof using HL. unfold MAX_FRAME_PAYLOAD in HL. cbn. lia. Qed.

Lemma wire_transaction_spec tx :
  Transaction_decode payload DecodeLimits_default = Ok tx <->
  transaction_within DecodeLimits_default tx /\ payload = Transaction_encode tx.
Proof using HL.
  rewrite Transaction_decode_spec by (by vm_compute). pose proof object_limit. naive_solver.
Qed.

Lemma wire_block_spec b :
  Block_decode payload DecodeLimits_default = Ok b <->
  block_within DecodeLimits_default b /\ payload = Block_encode b.
Proof using HL.
  rewrite Block_decode_spec by (by vm_compute). pose proof object_limit. naive_solver.
Qed.

End PayloadSpecs.

(** A decoder wrapped in its constructor. *)
Lemma wrapped_Ok {E A B} (r : result E A) (f : A -> B) b : (let? x := r in Ok (f x)) = Ok b <-> exists x, r = Ok x /\ b = f x.
Proof. destruct r; naive_solver. Qed.

Lemma decode_message_Ok t payload m :
  decode_message t payload = Ok m -> encode_message m = Ok (t, payload) /\ message_ok m.
Proof.
  unfold decode_message. destruct (is_known_message_type t) eqn:Ek; [cbn [negb]|done].
  destruct (_ >? _) eqn:Es; [done|]. intros HD. rewrite encode_message_spec, encode_body_spec.
  assert (Z.of_nat (length payload) <= payload_limit t) as Hp by lia. pose proof (payload_limit_range t).
  assert (Z.of_nat (length payload) <= MAX_FRAME_PAYLOAD) as HL by lia.
  apply known_type_cases in Ek as [->|[->|[->|[->|[->|[->|[->|[->|[->| ->]]]]]]]]];
    cbn [TAG_HELLO TAG_HELLO_ACK TAG_PING TAG_PONG TAG_INV TAG_GET_DATA TAG_GET_HEADERS TAG_HEADERS TAG_TRANSACTION TAG_BLOCK] in HD;
    apply wrapped_Ok in HD as (x & Hx & ->); cbn [message_ok].
  - apply decode_hello_spec in Hx as [? ->]; done.
  - apply decode_hello_ack_spec in Hx as [? ->]; done.
  - apply decode_nonce_spec in Hx as [? ->]; done.
  - apply decode_nonce_spec in Hx as [? ->]; done.
  - apply decode_inventory_spec in Hx as [? ->]; done.
  - apply decode_inventory_spec in Hx as [? ->]; done.
  - apply decode_get_headers_spec in Hx as [? ->]; done.
  - apply decode_headers_spec in Hx as (? & ? & ->); done.
  - apply map_err_Ok, wire_transaction_spec in Hx as [? ->]; done.
  - apply map_err_Ok, wire_block_spec in Hx as [? ->]; done.
Qed.

Lemma encode_message_known m t payload : encode_body m = Ok (t, payload) -> is_known_message_type t = true.
Proof. rewrite encode_body_spec. destruct m; intros Hm; destruct Hm as [-> _]; reflexivity. Qed.

Lemma decode_message_encoded m t payload :
  encode_message m = Ok (t, payload) -> message_ok m -> decode_message t payload = Ok m.
Proof.
  rewrite encode_message_spec. intros [Hb Hp] Hm. unfold decode_message. rewrite (encode_message_known m t payload Hb). cbn [negb].
  destruct (_ >? _) eqn:Es; [lia|]. pose proof (payload_limit_range t).
  assert (Z.of_nat (length payload) <= MAX_FRAME_PAYLOAD) as HL by lia.
  rewrite encode_body_spec in Hb. destruct m; cbn [message_ok] in Hm; destruct Hb as [-> Hb];
    cbn [TAG_HELLO TAG_HELLO_ACK TAG_PING TAG_PONG TAG_INV TAG_GET_DATA TAG_GET_HEADERS TAG_HEADERS TAG_TRANSACTION TAG_BLOCK];
    apply wrapped_Ok; eexists; (split; [|reflexivity]).
  - by apply decode_hello_spec.
  - by apply decode_hello_ack_spec.
  - by apply decode_nonce_spec.
  - by apply decode_nonce_spec.
  - by apply decode_inventory_spec.
  - by apply decode_inventory_spec.
  - by apply decode_get_headers_spec.
  - apply decode_headers_spec; [done|]. tauto.
  - by apply map_err_Ok, wire_transaction_spec.
  - by apply map_err_Ok, wire_block_spec.
Qed.

(** C30: messages have one encoding: a payload of a given type is accepted as
    [m] exactly when [m] is well formed and encodes to that type and payload. *)
Theorem message_exact t payload m :
  decode_message t payload = Ok m <-> encode_message m = Ok (t, payload) /\ message_ok m.
Proof. split; [apply decode_message_Ok|intros []; by apply decode_message_encoded]. Qed.

(** ** Frame headers *)

Definition frame_fields_ok (h : FrameHeader) : Prop :=
  fh_frame_version h = FRAME_VERSION /\ is_known_message_type (fh_message_type h) = true /\ fh_flags h = 0 /\
  0 <= fh_payload_length h <= payload_limit (fh_message_type h).

Lemma validate_header_fields_spec h :
  0 <= fh_payload_length h ->
  validate_header_fields (fh_frame_version h) (fh_message_type h) (fh_flags h) (fh_payload_length h) = Ok tt <->
  frame_fields_ok h.
Proof.
  intros H0. unfold validate_header_fields, validate_payload_size, frame_fields_ok.
  destruct (bool_decide_reflect (fh_frame_version h = FRAME_VERSION)); cbn [negb]; [|naive_solver].
  destruct (is_known_message_type _); cbn [negb]; [|naive_solver].
  destruct (Z.eqb_spec (fh_flags h) 0); cbn [negb]; [|naive_solver].
  destruct (_ >? _) eqn:E; split; intros; (done || (split_and!; (done || lia)) || lia).
Qed.

Lemma length_FrameHeader_encode h : length (FrameHeader_encode h) = FRAME_HEADER_BYTES.
Proof. unfold FrameHeader_encode. rewrite !length_app, !length_le_bytes, !arr_length. done. Qed.

#[export] Instance read_frame_header_codec :
  Codec FrameHeader_encode read_frame_header (fun h => in_u16 (fh_flags h) /\ in_u32 (fh_payload_length h)).
Proof.
  intros d [m ve ty fl le cs] d' W. unfold read_frame_header, FrameHeader_encode; cbn. split.
  - intros H. do 6 codec_fwd H. injection H as <- <- <- <- <- <- <-. split; [by split_and!|].
    eapply consumes_chain; [eassumption|]. do 2 (eapply (consumes_chain _ [_]); [eassumption|]). consumes_join.
  - intros [(? & ?) C]. consumes_split C. apply consumes_cons in C as (d1 & C1 & C); [|by eauto using consumes_wf].
    apply consumes_cons in C as (d2 & C2 & C); [|by eauto using consumes_wf]. do 2 consumes_split C.
    do 6 (codec_bwd; [done|]). done.
Qed.

Lemma FrameHeader_decode_spec bytes h :
  Z.of_nat (length bytes) <= USIZE_MAX ->
  FrameHeader_decode bytes = Ok h <-> bytes = FrameHeader_encode h /\ frame_fields_ok h.
Proof.
  intros HL. unfold FrameHeader_decode, prot.
  rewrite (decode_checked_spec _ _ FrameHeader_encode read_frame_header
             (fun h => in_u16 (fh_flags h) /\ in_u32 (fh_payload_length h))) by done. split.
  - intros (h' & [Hf Hl] & -> & Hg). destruct (validate_header_fields _ _ _ _) as [[]|] eqn:E; [|done].
    injection Hg as <-. apply validate_header_fields_spec in E; [done|]. unfold_ints. lia.
  - intros [-> Hok]. exists h. split_and!; [| |done|].
    + destruct Hok as (_ & _ & -> & _). by vm_compute.
    + destruct Hok as (_ & _ & _ & Hr). pose proof (payload_limit_range (fh_message_type h)). unfold MAX_FRAME_PAYLOAD in *. unfold_ints. lia.
    + rewrite (proj2 (validate_header_fields_spec h ltac:(destruct Hok as (_ & _ & _ & ?); lia)) Hok). done.
Qed.

Section Frames.
Context `{Blake3}.

(** The header a payload is sent with. *)
Definition frame_header (magic : arr 4) (t : byte) (payload : list byte) : FrameHeader :=
  MkFrameHeader magic FRAME_VERSION t 0 (Z.of_nat (length payload))
    (frame_checksum magic t (Z.of_nat (length payload)) payload).

Lemma frame_header_ok magic t payload :
  is_known_message_type t = true -> Z.of_nat (length payload) <= payload_limit t -> frame_fields_ok (frame_header magic t payload).
Proof. intros Hk Hp. split_and!; cbn; [done..|lia|done]. Qed.

Lemma build_frame_header_spec magic t payload h :
  build_frame_header magic t payload = Ok h <->
  is_known_message_type t = true /\ Z.of_nat (length payload) <= payload_limit t /\ h = frame_header magic t payload.
Proof.
  unfold build_frame_header, validate_payload_size. destruct (is_known_message_type t) eqn:Ek; cbn [negb]; [|naive_solver].
  destruct (_ >? _) eqn:Es; [split; [done|intros (_ & ? & _); lia]|]. pose proof (payload_limit_range t).
  assert (try_from U32_MAX (Z.of_nat (length payload)) = Some (Z.of_nat (length payload))) as ->.
  { apply try_from_Some. unfold MAX_FRAME_PAYLOAD in *. unfold_ints. split; [done|lia]. }
  cbn [ok_or]. change (validate_header_fields FRAME_VERSION t 0 (Z.of_nat (length payload))) with
    (validate_header_fields (fh_frame_version (frame_header magic t payload)) (fh_message_type (frame_header magic t payload))
       (fh_flags (frame_header magic t payload)) (fh_payload_length (frame_header magic t payload))).
  rewrite (proj2 (validate_header_fields_spec (frame_header magic t payload) ltac:(cbn; lia))) by (apply frame_header_ok; [done|lia]).
  split; [intros [= <-]; split_and!; [done|lia|done]|by intros (_ & _ & ->)].
Qed.

Lemma verify_frame_payload_spec h magic payload :
  0 <= fh_payload_length h ->
  verify_frame_payload h magic payload = Ok tt <->
  frame_fields_ok h /\ h = frame_header magic (fh_message_type h) payload.
Proof.
  intros H0. unfold verify_frame_payload.
  destruct (validate_header_fields _ _ _ _) as [[]|] eqn:E.
  2: { split; [done|]. intros [Hok _]. apply validate_header_fields_spec in Hok; [|done]. congruence. }
  apply validate_header_fields_spec in E; [|done]. destruct (bool_decide_reflect (fh_network_magic h = magic)) as [<-|Hm]; cbn [negb].
  2: { split; [done|]. intros [_ Hh]. destruct Hm. by rewrite Hh. }
  destruct (Z.eqb_spec (fh_payload_length h) (Z.of_nat (length payload))) as [Hl|Hl]; cbn [negb].
  2: { split; [done|]. intros [_ Hh]. destruct Hl. by rewrite Hh. }
  rewrite Hl. destruct (bool_decide_reflect (fh_checksum h = frame_checksum (fh_network_magic h) (fh_message_type h)
    (Z.of_nat (length payload)) payload)) as [Hc|Hc]; cbn [negb].
  - split; [|done]. intros _. split; [done|]. destruct h as [m ve ty fl le cs]. cbn in *. subst cs le.
    destruct E as (Hv & _ & Hfl & _). cbn in *. by subst ve fl.
  - split; [done|]. intros [_ Hh]. destruct Hc. rewrite Hh at 1. done.
Qed.

End Frames.

(** ** Negotiation *)

(** Every bit of [a] is a bit of [b]. *)
Definition bits_subset (a b : Z) : Prop := forall i, 0 <= i -> Z.testbit a i = true -> Z.testbit b i = true.

Lemma u64_high_bit a i : in_u64 a -> 64 <= i -> Z.testbit a i = false.
Proof.
  intros Ha Hi. destruct (Z.eq_dec a 0) as [->|]; [apply Z.bits_0|]. unfold_ints. apply Z.bits_above_log2; [lia|].
  apply Z.log2_lt_pow2; [lia|]. apply Z.lt_le_trans with (2 ^ 64); [lia|]. by apply Z.pow_le_mono_r.
Qed.

Lemma missing_bits_zero a b : in_u64 a -> Z.land a (u64_not b) = 0 <-> bits_subset a b.
Proof.
  intros Ha. unfold u64_not, U64_MAX. change (2 ^ 64 - 1) with (Z.ones 64). split.
  - intros HE i Hi Hai. apply (f_equal (fun z => Z.testbit z i)) in HE.
    rewrite Z.land_spec, Z.lxor_spec, Z.bits_0, Hai in HE. cbn [andb] in HE.
    destruct (Z.lt_ge_cases i 64) as [Hlt|Hge]; [|rewrite u64_high_bit in Hai; done].
    rewrite Z.ones_spec_low in HE by lia. by destruct (Z.testbit b i).
  - intros HS. apply Z.bits_inj'. intros i Hi. rewrite Z.land_spec, Z.lxor_spec, Z.bits_0.
    destruct (Z.testbit a i) eqn:Ea; [|done]. rewrite (HS i Hi Ea). cbn [andb].
    destruct (Z.lt_ge_cases i 64) as [Hlt|Hge]; [|rewrite u64_high_bit in Ea; done]. by rewrite Z.ones_spec_low by lia.
Qed.

Definition range_ok (h : Hello) : Prop := 0 < min_protocol_version h <= max_protocol_version h.

Lemma validate_range_spec h : hello_ok h -> validate_range h = Ok tt <-> range_ok h.
Proof.
  intros (H1 & _). unfold validate_range, range_ok. unfold_ints.
  destruct (Z.eqb_spec (min_protocol_version h) 0), (_ >? _) eqn:E; cbn [orb]; split; (done || lia).
Qed.

Lemma validate_required_subset_spec h :
  hello_ok h -> validate_required_subset h = Ok tt <-> bits_subset (bits (required_features h)) (bits (offered_features h)).
Proof.
  intros (_ & _ & _ & Hr & _). unfold validate_required_subset. rewrite <- missing_bits_zero by done.
  destruct (Z.eqb_spec (Z.land (bits (required_features h)) (u64_not (bits (offered_features h)))) 0); cbn [negb]; split; done.
Qed.

(** What two peers need to agree. *)
Record compatible (l r : Hello) : Prop := MkCompatible {
  cp_range_l : range_ok l;
  cp_range_r : range_ok r;
  cp_common : Z.max (min_protocol_version l) (min_protocol_version r) <= Z.min (max_protocol_version l) (max_protocol_version r);
  cp_own_l : bits_subset (bits (required_features l)) (bits (offered_features l));
  cp_own_r : bits_subset (bits (required_features r)) (bits (offered_features r));
  cp_cross_l : bits_subset (bits (required_features l)) (bits (offered_features r));
  cp_cross_r : bits_subset (bits (required_features r)) (bits (offered_features l));
  cp_known_l : bits_subset (bits (required_features l)) (bits FEATURES_KNOWN);
  cp_known_r : bits_subset (bits (required_features r)) (bits FEATURES_KNOWN);
}.

Definition agreed (l r : Hello) : Negotiated :=
  MkNegotiated (Z.min (max_protocol_version l) (max_protocol_version r))
    (features_and (features_and (offered_features l) (offered_features r)) FEATURES_KNOWN).

Lemma compatible_sym l r : compatible l r -> compatible r l.
Proof. intros []. constructor; try done. lia. Qed.

Lemma agreed_sym l r : agreed l r = agreed r l.
Proof.
  unfold agreed, features_and. cbn. f_equal; [apply Z.min_comm|]. f_equal. f_equal. apply Z.land_comm.
Qed.

Lemma negotiate_spec l r n :
  hello_ok l -> hello_ok r -> negotiate l r = Ok n <-> compatible l r /\ n = agreed l r.
Proof.
  intros Hl Hr. pose proof Hl as (_ & _ & _ & Bl & _). pose proof Hr as (_ & _ & _ & Br & _). unfold negotiate.
  destruct (validate_range l) as [[]|] eqn:E1; [apply validate_range_spec in E1; [|done]|split; [done|]; intros [[] _];
    by rewrite (proj2 (validate_range_spec l Hl)) in E1].
  destruct (validate_range r) as [[]|] eqn:E2; [apply validate_range_spec in E2; [|done]|split; [done|]; intros [[] _];
    by rewrite (proj2 (validate_range_spec r Hr)) in E2].
  destruct (validate_required_subset l) as [[]|] eqn:E3; [apply validate_required_subset_spec in E3; [|done]|split; [done|]; intros [[] _];
    by rewrite (proj2 (validate_required_subset_spec l Hl)) in E3].
  destruct (validate_required_subset r) as [[]|] eqn:E4; [apply validate_required_subset_spec in E4; [|done]|split; [done|]; intros [[] _];
    by rewrite (proj2 (validate_required_subset_spec r Hr)) in E4].
  destruct (_ >? _) eqn:E5; [split; [done|]; intros [[] _]; lia|].
  destruct (Z.eqb_spec (Z.lor (Z.lor (Z.lor (Z.land (bits (required_features l)) (u64_not (bits (offered_features r))))
                          (Z.land (bits (required_features r)) (u64_not (bits (offered_features l)))))
                   (Z.land (bits (required_features l)) (u64_not (bits FEATURES_KNOWN))))
            (Z.land (bits (required_features r)) (u64_not (bits FEATURES_KNOWN)))) 0) as [E6|E6]; cbn [negb];
    rewrite !Z.lor_eq_0_iff, !missing_bits_zero in E6 by done.
  - destruct E6 as [[[? ?] ?] ?]. split; [intros [= <-]|by intros [_ ->]]. split; [constructor; (done || lia)|done].
  - split; [done|]. intros [[] _]. by destruct E6.
Qed.

(** The two ends of a connection negotiate the same session.  Whichever
    side evaluates it, negotiation succeeds exactly when the greetings are
    compatible; both sides then get the same version, which is the highest one
    in both ranges, and the same features: exactly the known ones both offered,
    and among them every feature either side requires. *)
Theorem negotiation_agrees l r :
  hello_ok l -> hello_ok r ->
  ((exists n, negotiate l r = Ok n) <-> compatible l r) /\
  forall n, negotiate l r = Ok n ->
    negotiate r l = Ok n /\
    (forall v, v <= protocol_version n <-> v <= max_protocol_version l /\ v <= max_protocol_version r) /\
    min_protocol_version l <= protocol_version n /\ min_protocol_version r <= protocol_version n /\
    (forall i, Z.testbit (bits (features n)) i =
       Z.testbit (bits (offered_features l)) i && Z.testbit (bits (offered_features r)) i && Z.testbit (bits FEATURES_KNOWN) i) /\
    bits_subset (bits (required_features l)) (bits (features n)) /\ bits_subset (bits (required_features r)) (bits (features n)).
Proof.
  intros Hl Hr. split.
  { setoid_rewrite (negotiate_spec l r); [naive_solver|done..]. }
  intros n [Hc ->]%negotiate_spec; [|done..].
  split; [apply negotiate_spec; [done..|]; split; [by apply compatible_sym|apply agreed_sym]|].
  destruct Hc as [? ? ? Ol Or Cl Cr Kl Kr]. cbn -[FEATURES_KNOWN]. split_and!; [lia..|intros i; by rewrite !Z.land_spec| |];
    intros i Hi Hb; rewrite !Z.land_spec.
  - by rewrite (Ol i Hi Hb), (Cl i Hi Hb), (Kl i Hi Hb).
  - by rewrite (Cr i Hi Hb), (Or i Hi Hb), (Kr i Hi Hb).
Qed.

Definition demo_hello (lo hi offered required : Z) : Hello :=
  MkHello lo hi (arr_fill 32 x07) (arr_fill 16 x01) (MkFeatureSet offered) (MkFeatureSet required) 12 (arr_fill 32 x08).

(** A wallet that needs transaction relay meets a node that serves a newer range too. *)
Lemma negotiation_agrees_witness :
  let l := demo_hello 1 1 12 4 in let r := demo_hello 1 3 7 1 in
  negotiate (demo_hello 1 1 5 4) r = Ok (MkNegotiated 1 (MkFeatureSet 5)) /\
  negotiate r (demo_hello 1 1 5 4) = Ok (MkNegotiated 1 (MkFeatureSet 5)) /\ ~ compatible l r.
Proof.
  assert (hello_ok (demo_hello 1 1 5 4) /\ hello_ok (demo_hello 1 1 12 4) /\ hello_ok (demo_hello 1 3 7 1)) as (A & B & C)
    by (unfold hello_ok; cbn; unfold_ints; lia).
  assert (negotiate (demo_hello 1 1 5 4) (demo_hello 1 3 7 1) = Ok (MkNegotiated 1 (MkFeatureSet 5))) as E by by vm_compute.
  split_and!; [exact E|exact (proj1 (proj2 (negotiation_agrees _ _ A C) _ E))|].
  intros [n Hn]%(proj1 (negotiation_agrees _ _ B C)). by vm_compute in Hn.
Defined.
