(* ===== verification/Framing.v ===== *)
(** [oregon-network/io.rs]: messages over a byte stream.  A stream is the list
    of what its reads will yield: chunks of any size, or one of the timeouts
    and failures; its end is the end of input.  Writes append to what the other
    side will read, and may be interrupted. *)
From S2P Require Import Prelude Encoding Transaction Block Layout Protocol.

Module NetworkError.
Inductive t : Type :=
| Io
| Protocol (e : ProtocolError.t)
| OversizedFrame (declared max : Z)
| TruncatedFrame (received expected : nat)
| ReadNoProgressTimeout
| ReadDeadlineExceeded
| WriteDeadlineExceeded.
End NetworkError.

(** What one read of the underlying stream meets: bytes, 15 seconds without
    any, the absolute deadline, or an error of the stream. *)
Inductive ReadEvent : Type := Data (l : list byte) | Stall | Late | ReadFailure.

(** What a write of a frame meets: it goes through, or stops after [n] bytes. *)
Inductive WriteEvent : Type := Written | WriteLate (n : nat) | WriteFailure (n : nat).

Record FramedConnection : Type := MkFramed {
  fc_inbound : list ReadEvent;
  fc_outbound : list byte;
  fc_magic : arr 4;
}.

(** [read_exact_counted]: [buffer] is what was received so far.  A read yields
    at most the room left; the rest of a chunk stays in the stream. *)
Fixpoint read_exact_counted (expected : nat) (buffer : list byte) (stream : list ReadEvent)
  : result NetworkError.t (list byte) * list ReadEvent :=
  if (expected <=? length buffer)%nat then (Ok buffer, stream)
  else match stream with
  | [] => (Err (NetworkError.TruncatedFrame (length buffer) expected), [])
  | Late :: stream => (Err NetworkError.ReadDeadlineExceeded, stream)
  | Stall :: stream => (Err NetworkError.ReadNoProgressTimeout, stream)
  | ReadFailure :: stream => (Err NetworkError.Io, stream)
  | Data l :: stream =>
      let room := (expected - length buffer)%nat in
      if (length l =? 0)%nat then (Err (NetworkError.TruncatedFrame (length buffer) expected), stream)
      else if (length l <=? room)%nat then read_exact_counted expected (buffer ++ l) stream
      else (Ok (buffer ++ take room l), Data (drop room l) :: stream)
  end.

Section Connection.
Context `{Blake3}.

(** [read_exact_counted] on a connection. *)
Definition conn_read (n : nat) : eff FramedConnection NetworkError.t (list byte) := fun c =>
  let '(r, stream) := read_exact_counted n [] (fc_inbound c) in (r, MkFramed stream (fc_outbound c) (fc_magic c)).

Definition header_error (e : ProtocolError.t) : NetworkError.t :=
  match e with
  | ProtocolError.PayloadTooLarge actual max => NetworkError.OversizedFrame actual max
  | e => NetworkError.Protocol e
  end.

Definition read_message : eff FramedConnection NetworkError.t Message :=
  let! bytes := conn_read FRAME_HEADER_BYTES in
  let! header := eff_lift (map_err header_error (FrameHeader_decode bytes)) in
  fun c =>
    (if negb (bool_decide (fh_network_magic header = fc_magic c))
     then eff_fail (NetworkError.Protocol ProtocolError.WrongNetworkMagic)
     else
       let! payload := conn_read (Z.to_nat (fh_payload_length header)) in
       let! _ := eff_lift (map_err NetworkError.Protocol (verify_frame_payload header (fc_magic c) payload)) in
       eff_lift (map_err NetworkError.Protocol (decode_message (fh_message_type header) payload))) c.

Definition write_message (message : Message) (event : WriteEvent) : eff FramedConnection NetworkError.t unit := fun c =>
  match
    (let? (message_type, payload) := encode_message message in
     let? header := build_frame_header (fc_magic c) message_type payload in
     Ok (FrameHeader_encode header ++ payload))
  with
  | Err e => (Err (NetworkError.Protocol e), c)
  | Ok frame =>
      let sent n := MkFramed (fc_inbound c) (fc_outbound c ++ take n frame) (fc_magic c) in
      match event with
      | Written => (Ok tt, sent (length frame))
      | WriteLate n => (Err NetworkError.WriteDeadlineExceeded, sent n)
      | WriteFailure n => (Err NetworkError.Io, sent n)
      end
  end.

(** ** Reading *)

(** The bytes a stream still has. *)
Definition stream_bytes (stream : list ReadEvent) : list byte :=
  flat_map (fun e => match e with Data l => l | _ => [] end) stream.

(** Only chunks, none of them empty. *)
Definition flowing (stream : list ReadEvent) : Prop := Forall (fun e => exists l, e = Data l /\ l <> []) stream.

Lemma read_exact_sound n buffer stream b stream' :
  (length buffer <= n)%nat -> read_exact_counted n buffer stream = (Ok b, stream') ->
  exists x, b = buffer ++ x /\ length b = n /\ stream_bytes stream = x ++ stream_bytes stream'.
Proof.
  revert buffer. induction stream as [|ev stream IH]; intros buffer Hb; cbn [read_exact_counted];
    (destruct (Nat.leb_spec n (length buffer)) as [Hn|Hn];
      [intros [= <- <-]; exists []; rewrite app_nil_r; split_and!; [done|lia|done]|]).
  { done. }
  destruct ev as [l| | |]; try done. destruct (Nat.eqb_spec (length l) 0); [done|].
  destruct (Nat.leb_spec (length l) (n - length buffer)) as [Hl|Hl].
  - intros (x & -> & Hx & Hs)%IH; [|rewrite length_app; lia]. exists (l ++ x). rewrite <- app_assoc.
    split_and!; [done|by rewrite app_assoc|]. cbn. by rewrite <- app_assoc, <- Hs.
  - intros [= <- <-]. exists (take (n - length buffer) l). split_and!; [done|rewrite length_app, length_take; lia|].
    cbn. by rewrite app_assoc, take_drop.
Qed.

Lemma read_exact_total n buffer stream :
  flowing stream -> (length buffer <= n)%nat -> (n <= length buffer + length (stream_bytes stream))%nat ->
  exists stream', read_exact_counted n buffer stream = (Ok (buffer ++ take (n - length buffer) (stream_bytes stream)), stream') /\
    flowing stream' /\ stream_bytes stream' = drop (n - length buffer) (stream_bytes stream).
Proof.
  intros HF. revert buffer. induction HF as [|ev stream (l & -> & Hne) HF IH]; intros buffer Hb Hn; cbn [read_exact_counted].
  { cbn in Hn. destruct (Nat.leb_spec n (length buffer)); [|lia]. exists []. cbn. rewrite take_nil, drop_nil, app_nil_r. repeat constructor. }
  destruct (Nat.leb_spec n (length buffer)) as [Hle|Hle].
  { replace (n - length buffer)%nat with 0%nat by lia. exists (Data l :: stream). rewrite app_nil_r.
    split_and!; [done|constructor; [eauto|done]|done]. }
  destruct (Nat.eqb_spec (length l) 0); [by destruct l|]. change (stream_bytes (Data l :: stream)) with (l ++ stream_bytes stream) in *.
  destruct (Nat.leb_spec (length l) (n - length buffer)) as [Hl|Hl].
  - rewrite length_app in Hn. destruct (IH (buffer ++ l)) as (s' & -> & Hf & Hd); [rewrite length_app; lia..|].
    exists s'. rewrite length_app in Hd. rewrite length_app, take_app, drop_app. split_and!; [|done|].
    + f_equal. f_equal. rewrite (take_ge l), <- app_assoc by lia. do 2 f_equal. f_equal. lia.
    + rewrite (drop_ge l) by lia. rewrite Hd. cbn [app]. f_equal. lia.
  - exists (Data (drop (n - length buffer) l) :: stream). rewrite take_app_le, drop_app_le by lia. split_and!; [done| |done].
    constructor; [|done]. eexists. split; [done|]. intros Hd. apply (f_equal length) in Hd. rewrite length_drop in Hd. cbn in Hd. lia.
Qed.

(** The frame of a message. *)
Definition frame_of (magic : arr 4) (m : Message) : result ProtocolError.t (list byte) :=
  let? (t, payload) := encode_message m in
  let? header := build_frame_header magic t payload in
  Ok (FrameHeader_encode header ++ payload).

Lemma frame_of_spec magic m frame :
  frame_of magic m = Ok frame <->
  exists t payload, encode_message m = Ok (t, payload) /\ frame = FrameHeader_encode (frame_header magic t payload) ++ payload.
Proof.
  unfold frame_of. destruct (encode_message m) as [[t payload]|] eqn:Em; [|naive_solver].
  assert (build_frame_header magic t payload = Ok (frame_header magic t payload)) as ->; [|naive_solver].
  apply encode_message_spec in Em as [Hb Hl]. apply build_frame_header_spec. split_and!; [by eapply encode_message_known|done..].
Qed.

(** A message is read exactly when its frame comes next. *)
Lemma read_message_sound c m c' :
  read_message c = (Ok m, c') ->
  exists frame, frame_of (fc_magic c) m = Ok frame /\ message_ok m /\
    stream_bytes (fc_inbound c) = frame ++ stream_bytes (fc_inbound c') /\
    fc_magic c' = fc_magic c /\ fc_outbound c' = fc_outbound c.
Proof.
  destruct c as [s out magic]. unfold read_message, eff_bind, conn_read, eff_lift. cbn [fc_inbound fc_outbound fc_magic].
  destruct (read_exact_counted FRAME_HEADER_BYTES [] s) as [[hb|] s1] eqn:E1; [|done].
  apply read_exact_sound in E1 as (x & -> & Hl & Hs); [|cbn; lia]. cbn [app] in *.
  destruct (FrameHeader_decode x) as [h|] eqn:Eh; [cbn [map_err]|done].
  apply FrameHeader_decode_spec in Eh as [-> Hok]; [|rewrite Hl; by vm_compute].
  cbn [fc_magic fc_inbound fc_outbound].
  destruct (bool_decide_reflect (fh_network_magic h = magic)) as [Hm|Hm]; cbn [negb]; [|done].
  pose proof Hok as (_ & _ & _ & H0 & Hlim).
  cbn [fc_inbound].
  destruct (read_exact_counted (Z.to_nat (fh_payload_length h)) [] s1) as [[p|] s2] eqn:E2; [|done].
  apply read_exact_sound in E2 as (y & -> & Hl2 & Hs2); [|cbn; lia]. cbn [app] in *.
  destruct (verify_frame_payload h magic y) as [[]|] eqn:Ev; [cbn [map_err]|done].
  apply verify_frame_payload_spec in Ev as [_ Hh]; [|done].
  destruct (decode_message (fh_message_type h) y) as [m'|] eqn:Ed; [cbn [map_err]|done]. intros [= <- <-].
  apply decode_message_Ok in Ed as [Ee Hmok]. eexists. split_and!; [|done| |done..].
  - apply frame_of_spec. exists (fh_message_type h), y. split; [done|]. by rewrite <- Hh.
  - cbn [fc_inbound]. by rewrite Hs, Hs2, app_assoc.
Qed.

Lemma read_message_total c m frame rest_bytes :
  frame_of (fc_magic c) m = Ok frame -> message_ok m -> flowing (fc_inbound c) ->
  stream_bytes (fc_inbound c) = frame ++ rest_bytes ->
  exists s', read_message c = (Ok m, MkFramed s' (fc_outbound c) (fc_magic c)) /\ flowing s' /\ stream_bytes s' = rest_bytes.
Proof.
  destruct c as [s out magic]. cbn [fc_inbound fc_outbound fc_magic].
  intros (t & payload & Em & ->)%frame_of_spec Hok HF Hs. set (h := frame_header magic t payload) in *.
  pose proof Em as Em'. apply encode_message_spec in Em' as [Hb Hlim]. pose proof (encode_message_known _ _ _ Hb) as Hk.
  assert (frame_fields_ok h) as Hfo by (by apply frame_header_ok).
  pose proof (length_FrameHeader_encode h) as HLh. rewrite <- app_assoc in Hs.
  unfold read_message, eff_bind, conn_read, eff_lift. cbn [fc_inbound fc_outbound fc_magic].
  destruct (read_exact_total FRAME_HEADER_BYTES [] s HF) as (s1 & -> & HF1 & Hs1); [cbn; lia|rewrite Hs, length_app; cbn; lia|].
  cbn [app length] in *. rewrite Nat.sub_0_r in *. rewrite Hs in Hs1 |- *. rewrite <- HLh in Hs1 |- *.
  rewrite drop_app_length in Hs1. rewrite take_app_length.
  rewrite (proj2 (FrameHeader_decode_spec _ h ltac:(rewrite HLh; by vm_compute)) (conj eq_refl Hfo)). cbn [map_err fc_magic fc_inbound fc_outbound].
  rewrite (bool_decide_true (fh_network_magic h = magic)) by done. cbn [negb].
  assert (Z.to_nat (fh_payload_length h) = length payload) as -> by (cbn; lia).
  cbn [fc_inbound]. destruct (read_exact_total (length payload) [] s1 HF1) as (s2 & -> & HF2 & Hs2); [cbn; lia|rewrite Hs1, length_app; cbn; lia|].
  cbn [app length] in *. rewrite Nat.sub_0_r in *. rewrite Hs1 in Hs2 |- *. rewrite drop_app_length in Hs2. rewrite take_app_length.
  rewrite (proj2 (verify_frame_payload_spec h magic payload ltac:(cbn; lia)) (conj Hfo eq_refl)). cbn [map_err].
  change (fh_message_type h) with t. rewrite (decode_message_encoded m t payload Em Hok). cbn [map_err]. eauto.
Qed.

(** ** A conversation *)

Fixpoint write_messages (ms : list Message) : eff FramedConnection NetworkError.t unit :=
  match ms with
  | [] => eff_ret tt
  | m :: ms => let! _ := write_message m Written in write_messages ms
  end.

Fixpoint read_messages (n : nat) : eff FramedConnection NetworkError.t (list Message) :=
  match n with
  | O => eff_ret []
  | S n => let! m := read_message in let! ms := read_messages n in eff_ret (m :: ms)
  end.

(** The frames of a list of messages, one after the other. *)
Inductive frames (magic : arr 4) : list Message -> list byte -> Prop :=
| frames_nil : frames magic [] []
| frames_cons m ms frame bytes :
    frame_of magic m = Ok frame -> frames magic ms bytes -> frames magic (m :: ms) (frame ++ bytes).

Lemma write_messages_frames ms c c' :
  write_messages ms c = (Ok tt, c') ->
  exists bytes, frames (fc_magic c) ms bytes /\ c' = MkFramed (fc_inbound c) (fc_outbound c ++ bytes) (fc_magic c).
Proof.
  revert c. induction ms as [|m ms IH]; intros [s out magic]; cbn [write_messages].
  { intros [= <-]. exists []. cbn. rewrite app_nil_r. split; [constructor|done]. }
  unfold eff_bind, write_message. fold (frame_of magic m). cbn [fc_inbound fc_outbound fc_magic].
  change (let? (message_type, payload) := encode_message m in
          let? header := build_frame_header magic message_type payload in
          Ok (FrameHeader_encode header ++ payload)) with (frame_of magic m).
  destruct (frame_of magic m) as [frame|] eqn:Ef; [|done]. rewrite take_ge by done.
  intros (bytes & Hf & ->)%IH. cbn [fc_inbound fc_outbound fc_magic] in *. exists (frame ++ bytes).
  rewrite app_assoc. split; [by constructor|done].
Qed.

(** No frame continues another: the bytes of a stream determine its next message. *)
Lemma frame_prefix_free magic m1 m2 f1 f2 r1 r2 :
  frame_of magic m1 = Ok f1 -> frame_of magic m2 = Ok f2 -> message_ok m1 -> message_ok m2 ->
  f1 ++ r1 = f2 ++ r2 -> m1 = m2 /\ r1 = r2.
Proof.
  intros H1 H2 O1 O2 E. assert (f1 <> []) as Hne.
  { apply frame_of_spec in H1 as (t & p & _ & ->). intros Hx%(f_equal length).
    rewrite length_app, length_FrameHeader_encode in Hx. cbn in Hx. unfold FRAME_HEADER_BYTES in Hx. lia. }
  assert (f1 ++ r1 <> []) as Hne' by (by intros [? _]%app_eq_nil).
  set (c := MkFramed [Data (f1 ++ r1)] [] magic).
  assert (flowing (fc_inbound c)) as Hf by (constructor; [exists (f1 ++ r1); split; done|constructor]).
  assert (stream_bytes (fc_inbound c) = f1 ++ r1) as Hs by (cbn; by rewrite app_nil_r).
  destruct (read_message_total c m1 f1 r1 H1 O1 Hf Hs) as (s1 & R1 & _ & <-).
  rewrite E in Hs. destruct (read_message_total c m2 f2 r2 H2 O2 Hf Hs) as (s2 & R2 & _ & <-).
  rewrite R1 in R2. by injection R2 as -> ->.
Qed.

Lemma read_messages_sound n c got c' ms bytes :
  read_messages n c = (Ok got, c') -> frames (fc_magic c) ms bytes -> Forall message_ok ms ->
  stream_bytes (fc_inbound c) `prefix_of` bytes -> got `prefix_of` ms.
Proof.
  revert c got ms bytes. induction n as [|n IH]; intros c got ms bytes; cbn [read_messages].
  { intros [= <- <-] _ _ _. apply prefix_nil. }
  unfold eff_bind, eff_ret. destruct (read_message c) as [[m|] c1] eqn:Em; [|done].
  destruct (read_messages n c1) as [[got1|] c2] eqn:En; [|done]. intros [= <- <-] HF Hok [k Hk].
  apply read_message_sound in Em as (frame & Hfr & Hm & Hs & Hmag & _). rewrite Hs, <- app_assoc in Hk.
  destruct HF as [|m0 ms f0 bytes0 Hf0 HF].
  { apply frame_of_spec in Hfr as (t & p & _ & ->). apply (f_equal length) in Hk.
    rewrite !length_app, length_FrameHeader_encode in Hk. cbn in Hk. unfold FRAME_HEADER_BYTES in Hk. lia. }
  inversion_clear Hok as [|? ? Hm0 Hms].
  destruct (frame_prefix_free _ _ _ _ _ _ _ Hf0 Hfr Hm0 Hm Hk) as [-> Hrest].
  apply prefix_cons. eapply IH; [done|rewrite Hmag; exact HF|done|]. by exists k.
Qed.

Lemma read_messages_total s out magic ms bytes :
  frames magic ms bytes -> Forall message_ok ms -> flowing s -> stream_bytes s = bytes ->
  read_messages (length ms) (MkFramed s out magic) = (Ok ms, MkFramed [] out magic).
Proof.
  intros HF. revert s. induction HF as [|m ms frame bytes Hfr HF IH]; intros s Hok Hfl Hs; cbn [length read_messages].
  { destruct Hfl as [|? ? (l & -> & Hl)]; [done|]. by destruct l. }
  inversion_clear Hok as [|? ? Hm Hms]. unfold eff_bind at 1.
  destruct (read_message_total (MkFramed s out magic) m frame bytes Hfr Hm Hfl Hs) as (s1 & -> & Hf1 & Hs1).
  cbn [fc_outbound fc_magic]. unfold eff_bind. by rewrite (IH s1).
Qed.

(** C29: messages written to a stream are received as sent.  However the bytes
    are cut into chunks on the way, and whatever timeouts and failures occur,
    the messages received are the first ones sent, in order; and when every
    byte arrives without a timeout, all of them are received and nothing is left. *)
Theorem framed_delivery magic ms sender inbound out :
  write_messages ms (MkFramed [] [] magic) = (Ok tt, sender) -> Forall message_ok ms ->
  (forall n got c', stream_bytes inbound `prefix_of` fc_outbound sender ->
     read_messages n (MkFramed inbound out magic) = (Ok got, c') -> got `prefix_of` ms) /\
  (flowing inbound -> stream_bytes inbound = fc_outbound sender ->
     read_messages (length ms) (MkFramed inbound out magic) = (Ok ms, MkFramed [] out magic)).
Proof.
  intros (bytes & HF & ->)%write_messages_frames Hok. cbn in HF |- *. split.
  - intros n got c' Hp Hr. by eapply read_messages_sound.
  - intros Hfl Hs. by eapply read_messages_total.
Qed.

End Connection.

(** Three messages, the bytes arriving one at a time after the first ten. *)
Definition demo_traffic : list Message :=
  [MsgPing 7; MsgInv [MkInventoryItem InvBlock (arr_fill 32 x05)]; MsgPong 7].

Definition demo_sent : result NetworkError.t unit * FramedConnection :=
  write_messages (H := demo_blake3) demo_traffic (MkFramed [] [] (arr_fill 4 x11)).

Definition demo_inbound : list ReadEvent :=
  Data (take 10 (fc_outbound demo_sent.2)) :: map (fun b => Data [b]) (drop 10 (fc_outbound demo_sent.2)).

Lemma framed_delivery_witness :
  read_messages (H := demo_blake3) 3 (MkFramed demo_inbound [] (arr_fill 4 x11)) =
    (Ok demo_traffic, MkFramed [] [] (arr_fill 4 x11)) /\
  forall n got c', read_messages (H := demo_blake3) n (MkFramed (take 100 demo_inbound ++ [Stall]) [] (arr_fill 4 x11)) = (Ok got, c') ->
    got `prefix_of` demo_traffic.
Proof.
  assert (Forall message_ok demo_traffic) as Hok by (repeat constructor; cbn; unfold_ints; lia).
  assert (demo_sent = (Ok tt, demo_sent.2)) as Hs by (rewrite (surjective_pairing demo_sent) at 1; f_equal; by vm_compute).
  split.
  - apply (proj2 (framed_delivery (H := demo_blake3) (arr_fill 4 x11) demo_traffic demo_sent.2 demo_inbound [] Hs Hok)).
    + apply Forall_forall. intros e [->|(b & -> & _)%list_elem_of_fmap]%elem_of_cons; eexists; (split; [reflexivity|]); [|done].
      by vm_compute.
    + by vm_compute.
  - intros n got c'. apply (proj1 (framed_delivery (H := demo_blake3) (arr_fill 4 x11) demo_traffic demo_sent.2
      (take 100 demo_inbound ++ [Stall]) [] Hs Hok)).
    exists (drop 109 (fc_outbound demo_sent.2)). by vm_compute.
Defined.
