(* ===== verification/PeerPolicy.v ===== *)
(** [oregon-peer]: the policies one peer session keeps: configuration, scores,
    cooldowns, liveness ([service.rs]) and the request registry.

    An [Instant] and a [Duration] are nanoseconds; [now + d] stays in range. *)
From S2P Require Import Prelude Encoding Transaction Block Layout Protocol Framing.

Inductive Direction : Type := Inbound | Outbound.
Inductive QueueClass : Type := QControl | QRequiredData | QGossip.

#[global] Instance Direction_eq_dec : EqDecision Direction.
Proof. solve_decision. Defined.
#[global] Instance QueueClass_eq_dec : EqDecision QueueClass.
Proof. solve_decision. Defined.

Module PeerError.
Inductive t : Type :=
| InvalidConfig (reason : String.string)
| PendingHandshakeLimit
| PeerLimit
| DirectionLimit (d : Direction)
| HandshakeTimeout
| HandshakeViolation (reason : String.string)
| WrongChain
| SelfPeer
| DuplicatePeer
| AckMismatch
| QueueEnqueueTimeout
| QueueItemTooLarge
| Cooldown
| Entropy
| PeerIdExhausted
| Protocol (e : ProtocolError.t)
| Network (e : NetworkError.t).
End PeerError.
Arguments PeerError.InvalidConfig reason%_string_scope.
Arguments PeerError.HandshakeViolation reason%_string_scope.

Definition secs (n : Z) : Z := n * 10 ^ 9.

(** ** Configuration *)

Definition HARD_MAX_PEERS : Z := 128.
Definition DEFAULT_MAX_PEERS : Z := 64.
Definition DEFAULT_MAX_OUTBOUND : Z := 16.
Definition DEFAULT_MAX_INBOUND : Z := 48.

Record PeerConfig : Type := MkPeerConfig { max_peers : Z; max_outbound : Z; max_inbound : Z }.

Definition PeerConfig_new (max_peers max_outbound max_inbound : Z) : result PeerError.t PeerConfig :=
  if max_peers =? 0 then Err (PeerError.InvalidConfig "max_peers must be nonzero")
  else if max_peers >? HARD_MAX_PEERS then Err (PeerError.InvalidConfig "max_peers exceeds hard limit")
  else
    let? directional := ok_or (checked_add USIZE_MAX max_outbound max_inbound) (PeerError.InvalidConfig "peer limit sum overflow") in
    if directional >? max_peers then Err (PeerError.InvalidConfig "inbound + outbound exceeds max_peers")
    else Ok (MkPeerConfig max_peers max_outbound max_inbound).

Definition PeerConfig_default : PeerConfig := MkPeerConfig DEFAULT_MAX_PEERS DEFAULT_MAX_OUTBOUND DEFAULT_MAX_INBOUND.

(** ** Scores *)

Inductive Misbehavior : Type :=
| MalformedFrame | OversizedFrame | HandshakeViolation | InvalidResponse | UnsolicitedObject
| RequestAbuse | SyncTimeout | InvalidHeader | InvalidBlock.

Inductive ScoreDecision : Type := Continue | StopSync | Disconnect.
Inductive PeerFeedback : Type := FeedbackInvalidHeader | FeedbackInvalidBlock | FeedbackRequestAbuse.

#[global] Instance Misbehavior_eq_dec : EqDecision Misbehavior.
Proof. solve_decision. Defined.

Definition misbehavior (f : PeerFeedback) : Misbehavior :=
  match f with
  | FeedbackInvalidHeader => InvalidHeader
  | FeedbackInvalidBlock => InvalidBlock
  | FeedbackRequestAbuse => RequestAbuse
  end.

Record PeerScore : Type := MkPeerScore { points : Z }.

Definition points_for (offense : Misbehavior) : Z :=
  match offense with
  | MalformedFrame | HandshakeViolation => 25
  | InvalidResponse | UnsolicitedObject | RequestAbuse => 10
  | SyncTimeout => 5
  | InvalidHeader | InvalidBlock => 50
  | OversizedFrame => 0
  end.

Definition score_sync_eligible (s : PeerScore) : bool := points s <? 50.
Definition score_disconnect_required (s : PeerScore) : bool := points s >=? 100.

Definition decision (s : PeerScore) : ScoreDecision :=
  if score_disconnect_required s then Disconnect
  else if negb (score_sync_eligible s) then StopSync
  else Continue.

Definition score_apply (offense : Misbehavior) (s : PeerScore) : ScoreDecision * PeerScore :=
  if bool_decide (offense = OversizedFrame) then (Disconnect, s)
  else let s := MkPeerScore (saturating_add U16_MAX (points s) (points_for offense)) in (decision s, s).

(** ** Cooldowns *)

Inductive IpAddr : Type := IpV4 (octets : arr 4) | IpV6 (octets : arr 16).

#[global] Instance IpAddr_eq_dec : EqDecision IpAddr.
Proof. solve_decision. Defined.

#[global] Program Instance IpAddr_countable : Countable IpAddr :=
  inj_countable' (fun ip => match ip with IpV4 a => inl a | IpV6 a => inr a end)
                 (fun s => match s with inl a => IpV4 a | inr a => IpV6 a end) _.
Next Obligation. by intros []. Qed.

(** [Ord] of addresses: version, then octets. *)
Definition ip_cmp (a b : IpAddr) : comparison :=
  match a, b with
  | IpV4 _, IpV6 _ => Lt
  | IpV6 _, IpV4 _ => Gt
  | IpV4 a, IpV4 b => bytes_cmp (arr_bytes a) (arr_bytes b)
  | IpV6 a, IpV6 b => bytes_cmp (arr_bytes a) (arr_bytes b)
  end.

(** [Ipv6Addr::to_ipv4_mapped]: an address of [::ffff:0:0/96]. *)
Definition to_ipv4_mapped (a : arr 16) : option (arr 4) :=
  if bool_decide (take 12 (arr_bytes a) = replicate 10 x00 ++ [xff; xff]) then to_arr 4 (drop 12 (arr_bytes a)) else None.

Definition canonical_ip (ip : IpAddr) : IpAddr :=
  match ip with
  | IpV6 a => match to_ipv4_mapped a with Some v4 => IpV4 v4 | None => IpV6 a end
  | IpV4 a => IpV4 a
  end.

Definition DISCONNECT_COOLDOWN : Z := secs (10 * 60).
Definition MAX_COOLDOWN_ENTRIES : nat := 1024.

(** [Iterator::min_by_key]: the first of the least elements. *)
Definition min_by {A} (lt : A -> A -> bool) (l : list A) : option A :=
  match l with
  | [] => None
  | x :: l => Some (foldl (fun best y => if lt y best then y else best) x l)
  end.

Definition cooldown_lt (a b : IpAddr * Z) : bool :=
  (a.2 <? b.2) || (a.2 =? b.2) && match ip_cmp a.1 b.1 with Lt => true | _ => false end.

Definition cooldown_prune (now : Z) (t : gmap IpAddr Z) : gmap IpAddr Z := filter (fun p => now < p.2) t.

Definition cooldown_insert_at (ip : IpAddr) (now : Z) (t : gmap IpAddr Z) : gmap IpAddr Z :=
  let t := cooldown_prune now t in
  let ip := canonical_ip ip in
  let expiry := now + DISCONNECT_COOLDOWN in
  let t :=
    if bool_decide (t !! ip = None) && (size t =? MAX_COOLDOWN_ENTRIES)%nat then
      match min_by cooldown_lt (map_to_list t) with
      | Some evict => delete evict.1 t
      | None => t
      end
    else t in
  <[ip := expiry]> t.

Definition cooldown_contains_at (ip : IpAddr) (now : Z) (t : gmap IpAddr Z) : bool * gmap IpAddr Z :=
  let t := cooldown_prune now t in
  (match t !! canonical_ip ip with Some expiry => now <? expiry | None => false end, t).

(** ** Liveness *)

Definition PING_INTERVAL : Z := secs 30.
Definition PONG_TIMEOUT : Z := secs 15.
Definition IDLE_TIMEOUT : Z := secs 120.

Inductive LivenessAction : Type := NoAction | SendPing (nonce : Z) | LivenessDisconnect.

Record LivenessState : Type := MkLiveness {
  last_activity : Z;
  outstanding_ping : option (Z * Z);
  next_ping_nonce : Z;
}.

Definition LivenessState_new (now : Z) : LivenessState := MkLiveness now None 1.

Definition note_activity (now : Z) (l : LivenessState) : LivenessState :=
  MkLiveness now (outstanding_ping l) (next_ping_nonce l).

Definition on_pong (nonce now : Z) (l : LivenessState) : bool * LivenessState :=
  if match outstanding_ping l with Some (expected, _) => expected =? nonce | None => false end
  then (true, MkLiveness now None (next_ping_nonce l))
  else (false, l).

Definition poll_at (now : Z) (l : LivenessState) : LivenessAction * LivenessState :=
  if saturating_sub now (last_activity l) >=? IDLE_TIMEOUT then (LivenessDisconnect, l)
  else match outstanding_ping l with
  | Some (_, sent_at) => (if saturating_sub now sent_at >=? PONG_TIMEOUT then LivenessDisconnect else NoAction, l)
  | None =>
      if saturating_sub now (last_activity l) >=? PING_INTERVAL then
        let nonce := next_ping_nonce l in
        let next := (next_ping_nonce l + 1) mod 2 ^ 64 in
        (SendPing nonce, MkLiveness (last_activity l) (Some (nonce, now)) (if next =? 0 then 1 else next))
      else (NoAction, l)
  end.

(** ** Requests *)

Definition RESPONSE_START_TIMEOUT : Z := secs 20.
Definition EXPIRED_REQUEST_GRACE : Z := secs 30.
Definition MAX_RECENTLY_EXPIRED_REQUESTS_PER_PEER : nat := 128.

Inductive RequestKey : Type := KeyHeaders | KeyObject (item : InventoryItem).

#[global] Instance RequestKey_eq_dec : EqDecision RequestKey.
Proof. solve_decision. Defined.

#[global] Program Instance RequestKey_countable : Countable RequestKey :=
  inj_countable' (fun k => match k with KeyHeaders => None | KeyObject i => Some i end)
                 (fun o => match o with None => KeyHeaders | Some i => KeyObject i end) _.
Next Obligation. by intros []. Qed.

Module RequestError.
Inductive t : Type := AlreadyOutstanding (key : RequestKey).
End RequestError.

Inductive ResponseDisposition : Type :=
| Matched (key : RequestKey) | GraceDrop (key : RequestKey) | Unsolicited (key : RequestKey).

Record PerformanceSnapshot : Type := MkPerformance {
  success_count : Z;
  timeout_count : Z;
  average_response_latency_ms : Z;
}.

Record OutstandingRequest : Type := MkOutstanding { started_at : Z; or_generation : Z }.
Record GraceEntry : Type := MkGrace { ge_key : RequestKey; expires_at : Z; ge_generation : Z }.

Record RequestRegistry : Type := MkRegistry {
  outstanding : gmap RequestKey OutstandingRequest;
  grace : list GraceEntry;
  next_generation : Z;
  performance : PerformanceSnapshot;
  total_response_latency_ms : Z;
}.

Definition RequestRegistry_default : RequestRegistry := MkRegistry ∅ [] 0 (MkPerformance 0 0 0) 0.

Definition with_grace (r : RequestRegistry) (g : list GraceEntry) : RequestRegistry :=
  MkRegistry (outstanding r) g (next_generation r) (performance r) (total_response_latency_ms r).

Definition with_outstanding (r : RequestRegistry) (o : gmap RequestKey OutstandingRequest) : RequestRegistry :=
  MkRegistry o (grace r) (next_generation r) (performance r) (total_response_latency_ms r).

Definition without_key (key : RequestKey) (g : list GraceEntry) : list GraceEntry := filter (fun e => ge_key e <> key) g.

Definition prune_grace (now : Z) (r : RequestRegistry) : RequestRegistry :=
  with_grace r (filter (fun e => now < expires_at e) (grace r)).

Definition expect_at (key : RequestKey) (now : Z) : eff RequestRegistry RequestError.t unit := fun r =>
  match outstanding r !! key with
  | Some _ => (Err (RequestError.AlreadyOutstanding key), r)
  | None =>
      let generation := next_generation r in
      (Ok tt, MkRegistry (<[key := MkOutstanding now generation]> (outstanding r)) (without_key key (grace r))
                ((next_generation r + 1) mod 2 ^ 64) (performance r) (total_response_latency_ms r))
  end.

(** [as_millis]: whole milliseconds of nanoseconds. *)
Definition as_millis (d : Z) : Z := d / 10 ^ 6.

Definition record_success (latency : Z) (r : RequestRegistry) : RequestRegistry :=
  let success := saturating_add U64_MAX (success_count (performance r)) 1 in
  let total := saturating_add U128_MAX (total_response_latency_ms r) (as_millis latency) in
  let average := total / success in
  MkRegistry (outstanding r) (grace r) (next_generation r)
    (MkPerformance success (timeout_count (performance r)) (Z.min average U64_MAX)) total.

(** [VecDeque::remove] at the first entry with the key. *)
Fixpoint remove_first (key : RequestKey) (g : list GraceEntry) : option (list GraceEntry) :=
  match g with
  | [] => None
  | e :: g => if bool_decide (ge_key e = key) then Some g else cons e <$> remove_first key g
  end.

Definition classify_key_at (key : RequestKey) (now : Z) (r : RequestRegistry) : ResponseDisposition * RequestRegistry :=
  let r := prune_grace now r in
  match outstanding r !! key with
  | Some request =>
      (Matched key, record_success (saturating_sub now (started_at request)) (with_outstanding r (delete key (outstanding r))))
  | None =>
      match remove_first key (grace r) with
      | Some g => (GraceDrop key, with_grace r g)
      | None => (Unsolicited key, r)
      end
  end.

Definition grace_lt (a b : nat * GraceEntry) : bool :=
  (expires_at a.2 <? expires_at b.2) ||
  (expires_at a.2 =? expires_at b.2) && (ge_generation a.2 <? ge_generation b.2).

Definition insert_grace (entry : GraceEntry) (r : RequestRegistry) : RequestRegistry :=
  let g := without_key (ge_key entry) (grace r) in
  let g :=
    if (length g =? MAX_RECENTLY_EXPIRED_REQUESTS_PER_PEER)%nat then
      match min_by grace_lt (imap pair g) with
      | Some earliest => delete earliest.1 g
      | None => g
      end
    else g in
  with_grace r (g ++ [entry]).

Definition due (now : Z) (p : RequestKey * OutstandingRequest) : Prop :=
  now >= started_at p.2 + RESPONSE_START_TIMEOUT.

#[global] Instance due_dec now p : Decision (due now p).
Proof. unfold due. apply _. Defined.

(** The sort key of an expired request: its deadline, then its generation. *)
Definition expired_le (a b : RequestKey * OutstandingRequest) : Prop :=
  started_at a.2 < started_at b.2 \/ started_at a.2 = started_at b.2 /\ or_generation a.2 <= or_generation b.2.

#[global] Instance expired_le_dec a b : Decision (expired_le a b).
Proof. unfold expired_le. apply _. Defined.

Definition expire_one (now : Z) (r : RequestRegistry) (p : RequestKey * OutstandingRequest) : RequestRegistry :=
  let '(key, request) := p in
  let perf := performance r in
  let r := MkRegistry (delete key (outstanding r)) (grace r) (next_generation r)
             (MkPerformance (success_count perf) (saturating_add U64_MAX (timeout_count perf) 1) (average_response_latency_ms perf))
             (total_response_latency_ms r) in
  let grace_expires := started_at request + RESPONSE_START_TIMEOUT + EXPIRED_REQUEST_GRACE in
  if now <? grace_expires then insert_grace (MkGrace key grace_expires (or_generation request)) r else r.

Definition expire_at (now : Z) (r : RequestRegistry) : list RequestKey * RequestRegistry :=
  let r := prune_grace now r in
  let expired := merge_sort expired_le (filter (due now) (map_to_list (outstanding r))) in
  (map fst expired, foldl (expire_one now) r expired).

(** ** What the request registry guarantees *)

Lemma foldl_pick {A} (lt : A -> A -> bool) l x : foldl (fun best y => if lt y best then y else best) x l ∈ x :: l.
Proof.
  revert x. induction l as [|y l IH]; intros x; cbn; [set_solver|].
  specialize (IH (if lt y x then y else x)). destruct (lt y x); set_solver.
Qed.

Lemma min_by_elem {A} (lt : A -> A -> bool) l x : min_by lt l = Some x -> x ∈ l.
Proof. destruct l as [|y l]; [done|]. intros [= <-]. apply foldl_pick. Qed.

Lemma min_by_is_Some {A} (lt : A -> A -> bool) l : l <> [] -> exists x, min_by lt l = Some x.
Proof. destruct l; [done|]. by eexists. Qed.

Definition grace_keys (r : RequestRegistry) : list RequestKey := map ge_key (grace r).

(** The two ways the registry shortens its grace list. *)
Lemma elem_of_without_key key k g : k ∈ map ge_key (without_key key g) <-> k ∈ map ge_key g /\ k <> key.
Proof.
  unfold without_key. rewrite !list_elem_of_fmap. split.
  - intros (e & -> & [Hne He]%list_elem_of_filter). split; [by exists e|done].
  - intros [(e & -> & He) Hne]. exists e. rewrite list_elem_of_filter. done.
Qed.

Lemma remove_first_spec key g :
  match remove_first key g with
  | Some g' => exists a e b, g = a ++ e :: b /\ g' = a ++ b /\ ge_key e = key
  | None => key ∉ map ge_key g
  end.
Proof.
  induction g as [|e g IH]; cbn [remove_first]; [apply not_elem_of_nil|].
  destruct (bool_decide_reflect (ge_key e = key)) as [Ek|Ek]; [by exists [], e, g|].
  destruct (remove_first key g) as [g'|]; cbn.
  - destruct IH as (a & e' & b & -> & -> & He). by exists (e :: a), e', b.
  - rewrite not_elem_of_cons. split; [congruence|done].
Qed.

Lemma sublist_keys g g' : g' `sublist_of` g -> map ge_key g' `sublist_of` map ge_key g.
Proof. induction 1; cbn; [done|by apply sublist_skip|by apply sublist_cons]. Qed.

Lemma filter_sublist {A} (P : A -> Prop) `{!forall x, Decision (P x)} l : filter P l `sublist_of` l.
Proof.
  induction l as [|x l IH]; [done|]. destruct (decide (P x)).
  - rewrite filter_cons_True by done. by apply sublist_skip.
  - rewrite filter_cons_False by done. by apply sublist_cons.
Qed.

(** The grace list after an insertion: room was made, and the entry is last. *)
Lemma insert_grace_spec entry r :
  (length (grace r) <= MAX_RECENTLY_EXPIRED_REQUESTS_PER_PEER)%nat ->
  exists g, insert_grace entry r = with_grace r (g ++ [entry]) /\ g `sublist_of` without_key (ge_key entry) (grace r) /\
    (length g < MAX_RECENTLY_EXPIRED_REQUESTS_PER_PEER)%nat.
Proof.
  intros HL. unfold insert_grace. set (g := without_key (ge_key entry) (grace r)).
  assert (length g <= length (grace r))%nat as Hg by (apply sublist_length, filter_sublist).
  destruct (Nat.eqb_spec (length g) MAX_RECENTLY_EXPIRED_REQUESTS_PER_PEER) as [E|E];
    [|exists g; split_and!; [done|done|lia]].
  destruct (min_by_is_Some grace_lt (imap pair g)) as [[i e] Hm].
  { intros Hn%(f_equal length). rewrite length_imap in Hn. cbn in Hn. unfold MAX_RECENTLY_EXPIRED_REQUESTS_PER_PEER in E. lia. }
  rewrite Hm. exists (delete i g). apply min_by_elem, elem_of_lookup_imap in Hm as (j & x & [= <- <-] & Hx).
  apply lookup_lt_Some in Hx. split_and!; [done|apply sublist_delete|]. cbn. rewrite length_delete; [lia|]. by apply lookup_lt_is_Some.
Qed.

Inductive RegistryOp : Type := OpExpect (k : RequestKey) (t : Z) | OpClassify (k : RequestKey) (t : Z) | OpExpire (t : Z).

Inductive RequestEvent : Type :=
| EvExpected (k : RequestKey) | EvRefused (k : RequestKey) | EvMatched (k : RequestKey)
| EvDropped (k : RequestKey) | EvUnsolicited (k : RequestKey) | EvTimedOut (k : RequestKey).

#[global] Instance RequestEvent_eq_dec : EqDecision RequestEvent.
Proof. solve_decision. Defined.

Definition registry_step (op : RegistryOp) (r : RequestRegistry) : list RequestEvent * RequestRegistry :=
  match op with
  | OpExpect k t => match expect_at k t r with (Ok _, r) => ([EvExpected k], r) | (Err _, r) => ([EvRefused k], r) end
  | OpClassify k t =>
      match classify_key_at k t r with
      | (Matched k, r) => ([EvMatched k], r)
      | (GraceDrop k, r) => ([EvDropped k], r)
      | (Unsolicited k, r) => ([EvUnsolicited k], r)
      end
  | OpExpire t => let '(keys, r) := expire_at t r in (map EvTimedOut keys, r)
  end.

Fixpoint run_registry (ops : list RegistryOp) (r : RequestRegistry) : list RequestEvent * RequestRegistry :=
  match ops with
  | [] => ([], r)
  | op :: ops => let '(l, r) := registry_step op r in let '(l', r) := run_registry ops r in (l ++ l', r)
  end.

Definition occurs (e : RequestEvent) (l : list RequestEvent) : nat := length (filter (eq e) l).
Definition one_if (b : bool) : nat := if b then 1 else 0.

Record requests_ok (log : list RequestEvent) (r : RequestRegistry) : Prop := MkRequestsOk {
  rq_balance k : occurs (EvExpected k) log =
    (occurs (EvMatched k) log + occurs (EvTimedOut k) log + length (option_list (outstanding r !! k)))%nat;
  rq_drops k : (occurs (EvDropped k) log + one_if (bool_decide (k ∈ grace_keys r)) <= occurs (EvTimedOut k) log)%nat;
  rq_nodup : NoDup (grace_keys r);
  rq_cap : (length (grace r) <= MAX_RECENTLY_EXPIRED_REQUESTS_PER_PEER)%nat;
  rq_disjoint k : k ∈ grace_keys r -> outstanding r !! k = None;
}.

Lemma occurs_app e a b : occurs e (a ++ b) = (occurs e a + occurs e b)%nat.
Proof. unfold occurs. by rewrite filter_app, length_app. Qed.

Lemma occurs_one e e' : occurs e [e'] = one_if (bool_decide (e = e')).
Proof. unfold occurs. destruct (bool_decide_reflect (e = e')); [by rewrite filter_cons_True|by rewrite filter_cons_False]. Qed.

(** Counting goals: split the log at its last event and compare memberships. *)
Ltac counts :=
  rewrite ?occurs_app, ?occurs_one in *; unfold one_if in *; repeat case_bool_decide; simplify_eq; (done || lia || idtac).

Lemma grace_shrinks log r g : g `sublist_of` grace r -> requests_ok log r -> requests_ok log (with_grace r g).
Proof.
  intros Hg [B D N C J]. assert (forall k, k ∈ map ge_key g -> k ∈ grace_keys r) as Hin.
  { intros k Hk. by eapply elem_of_sublist, sublist_keys. }
  constructor; cbn [outstanding with_grace].
  - done.
  - intros k. specialize (D k). specialize (Hin k). change (grace_keys (with_grace r g)) with (map ge_key g). counts. tauto.
  - by eapply sublist_NoDup, sublist_keys.
  - cbn. apply sublist_length in Hg. lia.
  - intros k Hkg. by apply J, Hin.
Qed.

Lemma other_event_ok log r e :
  (forall k, e <> EvExpected k /\ e <> EvMatched k /\ e <> EvTimedOut k /\ e <> EvDropped k) ->
  requests_ok log r -> requests_ok (log ++ [e]) r.
Proof.
  intros He [B D N C J]. constructor; [| |done..]; intros k; specialize (B k); specialize (D k); destruct (He k) as (? & ? & ? & ?).
  - counts.
  - counts.
Qed.

Lemma expected_ok log r k t r' :
  requests_ok log r -> expect_at k t r = (Ok tt, r') -> requests_ok (log ++ [EvExpected k]) r'.
Proof.
  unfold expect_at. destruct (outstanding r !! k) eqn:Ek; [done|]. intros Hok [= <-].
  pose proof (grace_shrinks log r (without_key k (grace r)) (filter_sublist _ _) Hok) as [_ D N C J].
  destruct Hok as [B _ _ _ _]. constructor; cbn [outstanding grace]; [| |done|done|].
  - intros k'. specialize (B k'). destruct (decide (k' = k)) as [->|Hne].
    + rewrite lookup_insert_eq, Ek in *. cbn in *. counts.
    + rewrite lookup_insert_ne by done. counts.
  - intros k'. specialize (D k'). change (grace_keys (MkRegistry _ _ _ _ _)) with (grace_keys (with_grace r (without_key k (grace r)))). counts.
  - intros k' Hk'. pose proof (J k' Hk') as HJ. apply elem_of_without_key in Hk' as [_ Hne]. by rewrite lookup_insert_ne.
Qed.

Lemma matched_ok log r k q lat :
  requests_ok log r -> outstanding r !! k = Some q ->
  requests_ok (log ++ [EvMatched k]) (record_success lat (with_outstanding r (delete k (outstanding r)))).
Proof.
  intros [B D N C J] Ek. constructor; cbn [outstanding record_success with_outstanding]; [| |done|done|].
  - intros k'. specialize (B k'). destruct (decide (k' = k)) as [->|Hne].
    + rewrite lookup_delete_eq, Ek in *. cbn in *. counts.
    + rewrite lookup_delete_ne by done. counts.
  - intros k'. specialize (D k'). change (grace_keys _) with (grace_keys r). counts.
  - intros k' Hk'. destruct (decide (k' = k)) as [->|Hne]; [apply lookup_delete_eq|]. rewrite lookup_delete_ne by done. by apply J.
Qed.

Lemma dropped_ok log r k g :
  requests_ok log r -> remove_first k (grace r) = Some g -> requests_ok (log ++ [EvDropped k]) (with_grace r g).
Proof.
  intros Hok Hr. pose proof (remove_first_spec k (grace r)) as Hs. rewrite Hr in Hs. destruct Hs as (a & e & b & Hg & -> & He).
  assert (a ++ b `sublist_of` grace r) as Hsub by (rewrite Hg; apply sublist_app; [done|by apply sublist_cons]).
  pose proof (grace_shrinks log r _ Hsub Hok) as [_ D' N' C' J']. destruct Hok as [B D N C J].
  constructor; cbn [outstanding with_grace]; [| |done..].
  - intros k'. specialize (B k'). counts.
  - intros k'. specialize (D' k'). specialize (D k'). destruct (decide (k' = k)) as [->|Hne].
    + unfold grace_keys in *. rewrite Hg in D, N. cbn [grace with_grace]. rewrite map_app in *. cbn [map] in *. rewrite He in *.
      assert (k ∉ map ge_key (a ++ b)) as Hnk by (rewrite map_app, not_elem_of_app; apply NoDup_app in N as (_ & N1 & N2);
        apply NoDup_cons in N2 as [? _]; split; [intros Hx; by apply (N1 k Hx), elem_of_cons; left|done]).
      rewrite map_app in Hnk. rewrite (bool_decide_false (k ∈ _ ++ map _ b)) by done.
      rewrite (bool_decide_true (k ∈ _)) in D by set_solver. counts.
    + counts.
Qed.

Lemma timed_out_ok log r now k q :
  requests_ok log r -> outstanding r !! k = Some q -> requests_ok (log ++ [EvTimedOut k]) (expire_one now r (k, q)).
Proof.
  intros [B D N C J] Ek. unfold expire_one.
  set (r1 := MkRegistry (delete k (outstanding r)) _ _ _ _).
  assert (requests_ok (log ++ [EvTimedOut k]) r1) as Hok.
  { constructor; cbn [outstanding r1]; [| |done|done|].
    - intros k'. specialize (B k'). destruct (decide (k' = k)) as [->|Hne].
      + rewrite lookup_delete_eq, Ek in *. cbn in *. counts.
      + rewrite lookup_delete_ne by done. counts.
    - intros k'. specialize (D k'). change (grace_keys r1) with (grace_keys r). counts.
    - intros k' Hk'. destruct (decide (k' = k)) as [->|Hne]; [apply lookup_delete_eq|]. rewrite lookup_delete_ne by done. by apply J. }
  destruct (now <? _); [|done].
  set (e := MkGrace k _ _). destruct (insert_grace_spec e r1 C) as (g & -> & Hg & HL).
  assert (requests_ok (log ++ [EvTimedOut k]) (with_grace r1 g)) as [B1 D1 N1 C1 J1].
  { apply grace_shrinks; [|done]. etrans; [exact Hg|apply filter_sublist]. }
  assert (k ∉ map ge_key g) as Hk.
  { intros Hk. eapply elem_of_sublist in Hk; [|by apply sublist_keys]. by apply elem_of_without_key in Hk as [_ []]. }
  constructor; cbn [outstanding with_grace grace]; [done| | | |].
  - intros k'. specialize (D1 k'). specialize (D k'). unfold grace_keys in *. cbn [grace with_grace r1] in *.
    rewrite map_app. destruct (decide (k' = k)) as [->|Hne]; [counts|].
    rewrite (bool_decide_ext (k' ∈ _ ++ _) (k' ∈ map ge_key g)) by set_solver. counts.
  - unfold grace_keys. cbn [grace with_grace]. rewrite map_app. apply NoDup_app. split_and!; [done| |apply NoDup_singleton].
    intros k' Hk' ->%list_elem_of_singleton. done.
  - rewrite length_app. cbn. lia.
  - intros k' Hk'. unfold grace_keys in Hk'. cbn [grace with_grace] in Hk'. rewrite map_app in Hk'.
    apply elem_of_app in Hk' as [Hk'| ->%list_elem_of_singleton]; [by apply J1|]. apply lookup_delete_eq.
Qed.

Lemma expire_one_keeps now r k q k' :
  k' <> k -> outstanding (expire_one now r (k, q)) !! k' = outstanding r !! k'.
Proof. intros Hne. unfold expire_one. destruct (now <? _); cbn; by rewrite lookup_delete_ne. Qed.

Lemma expire_one_gone now r k q k' v :
  outstanding (expire_one now r (k, q)) !! k' = Some v -> k' <> k /\ outstanding r !! k' = Some v.
Proof.
  intros Hv. assert (k' <> k) as Hne; [|by rewrite expire_one_keeps in Hv].
  intros ->. unfold expire_one in Hv. destruct (now <? _); cbn in Hv; by rewrite lookup_delete_eq in Hv.
Qed.

Lemma all_timed_out_ok now l log r :
  NoDup (map fst l) -> (forall k q, (k, q) ∈ l -> outstanding r !! k = Some q) -> requests_ok log r ->
  requests_ok (log ++ map EvTimedOut (map fst l)) (foldl (expire_one now) r l) /\
  forall k q, outstanding (foldl (expire_one now) r l) !! k = Some q -> (k ∉ map fst l) /\ outstanding r !! k = Some q.
Proof.
  revert log r. induction l as [|[k q] l IH]; intros log r; cbn [map foldl fst].
  { intros _ _ Hok. rewrite app_nil_r. split; [done|]. intros k q Hk. split; [apply not_elem_of_nil|done]. }
  intros [Hk HN]%NoDup_cons Hin Hok.
  destruct (IH (log ++ [EvTimedOut k]) (expire_one now r (k, q)) HN) as [H1 H2].
  - intros k' q' Hq'. rewrite expire_one_keeps; [apply Hin; by right|].
    intros ->. apply Hk. by apply (list_elem_of_fmap_2 fst) in Hq'.
  - apply timed_out_ok; [done|]. apply Hin. by left.
  - rewrite <- app_assoc in H1. split; [done|]. intros k' q' [Hni [Hne Hl]%expire_one_gone]%H2. by rewrite not_elem_of_cons.
Qed.

Definition expired_of (now : Z) (r : RequestRegistry) : list (RequestKey * OutstandingRequest) :=
  merge_sort expired_le (filter (due now) (map_to_list (outstanding r))).

Lemma elem_of_expired now r k q : (k, q) ∈ expired_of now r <-> outstanding r !! k = Some q /\ due now (k, q).
Proof. unfold expired_of. rewrite merge_sort_Permutation, list_elem_of_filter, elem_of_map_to_list. tauto. Qed.

Lemma NoDup_expired now r : NoDup (map fst (expired_of now r)).
Proof.
  unfold expired_of. rewrite merge_sort_Permutation. apply (sublist_NoDup _ (map fst (map_to_list (outstanding r)))).
  - apply NoDup_fst_map_to_list.
  - generalize (map_to_list (outstanding r)). intros l. induction l as [|p l IH]; [done|].
    destruct (decide (due now p)); [rewrite filter_cons_True by done; by apply sublist_skip|rewrite filter_cons_False by done; by apply sublist_cons].
Qed.

Lemma expired_ok log r now :
  requests_ok log r -> requests_ok (log ++ map EvTimedOut (expire_at now r).1) (expire_at now r).2 /\
  forall k q, outstanding (expire_at now r).2 !! k = Some q -> now < started_at q + RESPONSE_START_TIMEOUT.
Proof.
  intros Hok. unfold expire_at. set (r1 := prune_grace now r). change (merge_sort expired_le _) with (expired_of now r1). cbn [fst snd].
  destruct (all_timed_out_ok now (expired_of now r1) log r1) as [H1 H2].
  - apply NoDup_expired.
  - by intros k q [? _]%elem_of_expired.
  - apply grace_shrinks; [apply filter_sublist|done].
  - split; [done|]. intros k q [Hni Hk]%H2. destruct (decide (due now (k, q))) as [Hd|Hd]; [|unfold due in Hd; cbn in Hd; lia].
    destruct Hni. assert ((k, q) ∈ expired_of now r1) as He by by apply elem_of_expired. by apply (list_elem_of_fmap_2 fst) in He.
Qed.

Lemma registry_step_ok log r op :
  requests_ok log r -> requests_ok (log ++ (registry_step op r).1) (registry_step op r).2.
Proof.
  intros Hok. destruct op as [k t|k t|t]; cbn [registry_step].
  - destruct (expect_at k t r) as [[[]|e] r'] eqn:E; [by eapply expected_ok|].
    unfold expect_at in E. destruct (outstanding r !! k); simplify_eq. apply other_event_ok; [by intros; split_and!|done].
  - unfold classify_key_at. assert (requests_ok log (prune_grace t r)) as Hok1 by (apply grace_shrinks; [apply filter_sublist|done]).
    destruct (outstanding (prune_grace t r) !! k) as [q|] eqn:Eo; [by eapply matched_ok|].
    destruct (remove_first k (grace (prune_grace t r))) as [g|] eqn:Eg; [by apply dropped_ok|].
    apply other_event_ok; [by intros; split_and!|done].
  - pose proof (expired_ok log r t Hok) as [H1 _]. by destruct (expire_at t r).
Qed.

Lemma run_registry_ok ops log r :
  requests_ok log r -> requests_ok (log ++ (run_registry ops r).1) (run_registry ops r).2.
Proof.
  revert log r. induction ops as [|op ops IH]; intros log r Hok; cbn [run_registry fst snd]; [by rewrite app_nil_r|].
  pose proof (registry_step_ok log r op Hok) as Hs. revert Hs. destruct (registry_step op r) as [l r1]. intros Hs. cbn [fst snd] in Hs.
  specialize (IH _ _ Hs). rewrite <- app_assoc in IH. revert IH. destruct (run_registry ops r1) as [l1 r2]. done.
Qed.

(** Every request of a peer is resolved once.  After any operations,
    each request made under a key has been answered, has timed out, or is the
    one outstanding under it; a late answer is forgiven at most once for each
    timeout; at most 128 keys are waiting to be forgiven, none of them
    outstanding; and an expiry pass leaves no request older than its timeout. *)
Theorem requests_resolve_once ops :
  let log := (run_registry ops RequestRegistry_default).1 in
  let r := (run_registry ops RequestRegistry_default).2 in
  requests_ok log r /\
  forall now k q, outstanding (expire_at now r).2 !! k = Some q -> now < started_at q + RESPONSE_START_TIMEOUT.
Proof.
  cbn zeta. assert (requests_ok [] RequestRegistry_default) as H0.
  { constructor; cbn; [done| |constructor|unfold MAX_RECENTLY_EXPIRED_REQUESTS_PER_PEER; lia|done].
    intros k. rewrite bool_decide_false by apply not_elem_of_nil. done. }
  pose proof (run_registry_ok ops [] _ H0) as Hok. split; [done|].
  intros now. by apply (expired_ok _ _ now Hok).
Qed.

(** ** What scores, cooldowns and liveness guarantee *)

Lemma min_by_least {A} (lt : A -> A -> bool) (key : A -> Z) l m :
  (forall y b, if lt y b then key y <= key b else key b <= key y) -> min_by lt l = Some m -> forall y, y ∈ l -> key m <= key y.
Proof.
  intros Hlt. destruct l as [|x l]; [done|]. intros [= <-]. revert x. induction l as [|z l IH]; intros x y; cbn [foldl].
  { intros ->%list_elem_of_singleton. lia. }
  pose proof (Hlt z x) as Hzx. specialize (IH (if lt z x then z else x)).
  pose proof (IH _ (list_elem_of_here _ _)) as Hm. intros [->|[->|Hy]%elem_of_cons]%elem_of_cons.
  - destruct (lt z x); lia.
  - destruct (lt z x); lia.
  - apply IH. by right.
Qed.

(** A peer is cooled down for ten minutes under each of its addresses' forms.
    The table stays within its cap; what it gives up to stay there is an
    entry no other one outlasts less. *)
Lemma cooldown_insert_spec ip now (t : gmap IpAddr Z) t' :
  (size t <= MAX_COOLDOWN_ENTRIES)%nat -> cooldown_insert_at ip now t = t' ->
  (size t' <= MAX_COOLDOWN_ENTRIES)%nat /\
  (forall now', now <= now' -> (cooldown_contains_at ip now' t').1 = (now' <? now + DISCONNECT_COOLDOWN)) /\
  forall other e, other <> canonical_ip ip -> t !! other = Some e -> now < e ->
    t' !! other = Some e \/
    t' !! other = None /\ forall other' e', t !! other' = Some e' -> now < e' -> e <= e'.
Proof.
  intros Hs <-. unfold cooldown_insert_at. set (c := canonical_ip ip). set (p := cooldown_prune now t).
  assert (forall k e, p !! k = Some e <-> t !! k = Some e /\ now < e) as Hp by (intros; apply map_lookup_filter_Some).
  assert (size p <= MAX_COOLDOWN_ENTRIES)%nat as Hsp by (etrans; [apply map_subseteq_size, map_filter_subseteq|done]).
  set (q := if bool_decide (p !! c = None) && _ then _ else p).
  set (expiry := now + DISCONNECT_COOLDOWN). assert ((size (<[c := expiry]> q) <= MAX_COOLDOWN_ENTRIES)%nat /\
          forall other e, other <> c -> p !! other = Some e -> q !! other = Some e \/
            q !! other = None /\ forall k v, p !! k = Some v -> e <= v) as [HS HO].
  { unfold q. destruct (bool_decide_reflect (p !! c = None)) as [Hc|Hc], (Nat.eqb_spec (size p) MAX_COOLDOWN_ENTRIES) as [E|E]; cbn [andb].
    - destruct (min_by_is_Some cooldown_lt (map_to_list p)) as [[k v] Hm].
      { intros Hn%map_to_list_empty_iff. by rewrite Hn, map_size_empty in E. }
      rewrite Hm. pose proof (min_by_least cooldown_lt snd _ _ ltac:(intros y b; unfold cooldown_lt;
        destruct (Z.ltb_spec y.2 b.2), (Z.eqb_spec y.2 b.2), (ip_cmp y.1 b.1); cbn; lia) Hm) as Hl.
      apply min_by_elem, elem_of_map_to_list in Hm. cbn [fst] in *. split.
      + rewrite map_size_insert_None by (rewrite lookup_delete_None; by right). rewrite map_size_delete, Hm. unfold MAX_COOLDOWN_ENTRIES in *. lia.
      + intros other e Hne He. destruct (decide (other = k)) as [->|Hk]; [right|left; by rewrite lookup_delete_ne].
        split; [apply lookup_delete_eq|]. intros k' v' Hv'. assert (v = e) as <- by congruence. by apply (Hl (k', v')), elem_of_map_to_list.
    - split; [rewrite map_size_insert_None by done; lia|by left].
    - split; [|by left]. destruct (p !! c) as [v|] eqn:Ev; [|done]. rewrite map_size_insert_Some; [lia|by eexists].
    - split; [|by left]. destruct (p !! c) as [v|] eqn:Ev; [|done]. rewrite map_size_insert_Some; [lia|by eexists]. }
  split_and!; [done| |].
  - intros now' Hn. unfold cooldown_contains_at. cbn [fst]. fold c. unfold cooldown_prune.
    destruct (Z.ltb_spec now' expiry) as [Hlt|Hge].
    + rewrite (proj2 (map_lookup_filter_Some _ _ c expiry)); [lia|]. by rewrite lookup_insert_eq.
    + rewrite map_lookup_filter_None_2; [done|]. right. intros v. rewrite lookup_insert_eq. intros [= <-]. cbn. lia.
  - intros other e Hne He Hlt. rewrite lookup_insert_ne by done.
    destruct (HO other e Hne (proj2 (Hp _ _) (conj He Hlt))) as [?|[? HM]]; [by left|right].
    split; [done|]. intros k v Hk Hv. by apply (HM k), Hp.
Qed.

(** Scores only rise, and decide by the points alone. *)
Lemma score_apply_spec offense s d s' :
  0 <= points s <= U16_MAX -> score_apply offense s = (d, s') ->
  points s <= points s' <= U16_MAX /\
  (d = Disconnect <-> offense = OversizedFrame \/ 100 <= points s') /\
  (d <> Continue <-> offense = OversizedFrame \/ 50 <= points s').
Proof.
  intros Hs. unfold score_apply, decision, score_disconnect_required, score_sync_eligible, saturating_add.
  assert (0 <= points_for offense) by (destruct offense; cbn; lia).
  destruct (bool_decide_reflect (offense = OversizedFrame)) as [->|Hne]; intros [= <- <-]; cbn [points] in *.
  { split_and!; [lia..| |]; (split; [by left|done]). }
  destruct (Z.geb_spec (Z.min U16_MAX (points s + points_for offense)) 100),
           (Z.ltb_spec (Z.min U16_MAX (points s + points_for offense)) 50); cbn [negb]; split_and!; try lia;
    (split; [intros; first [done|right; lia]|intros [?|?]; first [done|lia]]).
Qed.

(** A peer that stays silent is noticed: pinged once when polled after thirty
    seconds, and let go when polled fifteen seconds after that. *)
Lemma silent_peer_noticed l t1 t2 a1 l1 :
  outstanding_ping l = None -> last_activity l <= t1 -> PING_INTERVAL <= t1 - last_activity l < IDLE_TIMEOUT ->
  poll_at t1 l = (a1, l1) -> t1 + PONG_TIMEOUT <= t2 ->
  a1 = SendPing (next_ping_nonce l) /\ (poll_at t2 l1).1 = LivenessDisconnect.
Proof.
  intros Ho Ht HI Hp H2. unfold poll_at, saturating_sub in Hp. rewrite Ho in Hp.
  destruct (Z.geb_spec (Z.max 0 (t1 - last_activity l)) IDLE_TIMEOUT); [lia|].
  destruct (Z.geb_spec (Z.max 0 (t1 - last_activity l)) PING_INTERVAL); [|lia]. injection Hp as <- <-.
  split; [done|]. unfold poll_at, saturating_sub. cbn [last_activity outstanding_ping].
  destruct (_ >=? IDLE_TIMEOUT); [done|]. destruct (Z.geb_spec (Z.max 0 (t2 - t1)) PONG_TIMEOUT); [done|lia].
Qed.
