(* ===== verification/PeerBudget.v ===== *)
(** [oregon-peer/budget.rs]: the byte and frame budgets of the outgoing queues.
    The mutexes make every operation one step on the shared state; a permit is
    live from its reservation until it is dropped. *)
From S2P Require Import Prelude Encoding Transaction Block Layout Protocol Framing PeerPolicy.

Definition MAX_QUEUE_FRAMES_PEER : Z := 256.
Definition MAX_QUEUE_BYTES_PEER : Z := 4 * 1024 * 1024.
Definition MAX_QUEUE_BYTES_GLOBAL : Z := 64 * 1024 * 1024.
Definition CONTROL_RESERVED_FRAMES : Z := 16.
Definition CONTROL_RESERVED_BYTES : Z := 64 * 1024.

Record PeerState : Type := MkPeerState {
  frames : Z;
  queue_bytes : Z;
  non_control_frames : Z;
  non_control_bytes : Z;
}.

Definition PeerState_default : PeerState := MkPeerState 0 0 0 0.

(** The states behind the shared handles: the global one, and one for each
    peer's budget. *)
Record QueueState : Type := MkQueueState { q_global : Z; q_peers : gmap nat PeerState }.

Record QueuePermit : Type := MkPermit { pm_budget : nat; pm_class : QueueClass; pm_bytes : Z }.

#[global] Instance QueuePermit_eq_dec : EqDecision QueuePermit.
Proof. solve_decision. Defined.

Definition peer_state (q : QueueState) (h : nat) : PeerState := default PeerState_default (q_peers q !! h).

Definition GlobalQueueBudget_new : QueueState := MkQueueState 0 ∅.

(** A new peer's budget, under a handle of its own. *)
Definition PeerQueueBudget_new (h : nat) (q : QueueState) : QueueState :=
  MkQueueState (q_global q) (<[h := PeerState_default]> (q_peers q)).

Definition is_control (class : QueueClass) : bool := bool_decide (class = QControl).

Definition try_reserve (h : nat) (class : QueueClass) (bytes : Z) : eff QueueState PeerError.t (option QueuePermit) := fun q =>
  if (bytes >? MAX_QUEUE_BYTES_PEER) || (bytes >? MAX_QUEUE_BYTES_GLOBAL) then
    (if bool_decide (class = QGossip) then Ok None else Err PeerError.QueueItemTooLarge, q)
  else
    let peer := peer_state q h in
    let total_fits :=
      (frames peer <? MAX_QUEUE_FRAMES_PEER) &&
      (saturating_add USIZE_MAX (queue_bytes peer) bytes <=? MAX_QUEUE_BYTES_PEER) &&
      (saturating_add USIZE_MAX (q_global q) bytes <=? MAX_QUEUE_BYTES_GLOBAL) in
    let class_fits :=
      if is_control class then true
      else (non_control_frames peer <? MAX_QUEUE_FRAMES_PEER - CONTROL_RESERVED_FRAMES) &&
           (saturating_add USIZE_MAX (non_control_bytes peer) bytes <=? MAX_QUEUE_BYTES_PEER - CONTROL_RESERVED_BYTES) in
    if negb total_fits || negb class_fits then (Ok None, q)
    else
      let peer :=
        MkPeerState (frames peer + 1) (queue_bytes peer + bytes)
          (if is_control class then non_control_frames peer else non_control_frames peer + 1)
          (if is_control class then non_control_bytes peer else non_control_bytes peer + bytes) in
      (Ok (Some (MkPermit h class bytes)), MkQueueState (q_global q + bytes) (<[h := peer]> (q_peers q))).

(** [reserve]: gossip does not wait.  The others try again whenever a permit is
    dropped, until two seconds are over; [wakes] lists what the other tasks
    did to the state between two attempts. *)
Fixpoint reserve_loop (h : nat) (class : QueueClass) (bytes : Z) (wakes : list (QueueState -> QueueState))
  : eff QueueState PeerError.t (option QueuePermit) :=
  let! permit := try_reserve h class bytes in
  match permit, wakes with
  | Some permit, _ => eff_ret (Some permit)
  | None, [] => eff_fail PeerError.QueueEnqueueTimeout
  | None, wake :: wakes => fun q => reserve_loop h class bytes wakes (wake q)
  end.

Definition reserve (h : nat) (class : QueueClass) (bytes : Z) (wakes : list (QueueState -> QueueState))
  : eff QueueState PeerError.t (option QueuePermit) :=
  if bool_decide (class = QGossip) then try_reserve h class bytes else reserve_loop h class bytes wakes.

(** [QueuePermit::drop]. *)
Definition release_permit (p : QueuePermit) (q : QueueState) : QueueState :=
  let peer := peer_state q (pm_budget p) in
  let control := is_control (pm_class p) in
  let peer :=
    MkPeerState (saturating_sub (frames peer) 1) (saturating_sub (queue_bytes peer) (pm_bytes p))
      (if control then non_control_frames peer else saturating_sub (non_control_frames peer) 1)
      (if control then non_control_bytes peer else saturating_sub (non_control_bytes peer) (pm_bytes p)) in
  MkQueueState (saturating_sub (q_global q) (pm_bytes p)) (<[pm_budget p := peer]> (q_peers q)).

(** ** The accounts are exact *)

Definition psum (f : QueuePermit -> Z) (l : list QueuePermit) : Z := foldr (fun p acc => f p + acc) 0 l.

(** The share of a permit in the accounts of the budget [h]. *)
Definition of_budget (h : nat) (f : QueuePermit -> Z) (p : QueuePermit) : Z := if (pm_budget p =? h)%nat then f p else 0.
Definition not_control (f : QueuePermit -> Z) (p : QueuePermit) : Z := if is_control (pm_class p) then 0 else f p.

Lemma psum_app f a b : psum f (a ++ b) = psum f a + psum f b.
Proof. induction a as [|p a IH]; [done|]. unfold psum in *. cbn. rewrite IH. lia. Qed.

Lemma psum_nonneg f l : (forall p, p ∈ l -> 0 <= f p) -> 0 <= psum f l.
Proof.
  induction l as [|p l IH]; intros Hf; [done|]. cbn. pose proof (Hf p (list_elem_of_here _ _)).
  assert (0 <= psum f l) by (apply IH; intros; apply Hf; by right). unfold psum in *. lia.
Qed.

Lemma psum_le f g l : (forall p, p ∈ l -> f p <= g p) -> psum f l <= psum g l.
Proof.
  induction l as [|p l IH]; intros Hf; [done|]. cbn. pose proof (Hf p (list_elem_of_here _ _)).
  assert (psum f l <= psum g l) by (apply IH; intros; apply Hf; by right). unfold psum in *. lia.
Qed.

Definition usage (live : list QueuePermit) (h : nat) : PeerState :=
  MkPeerState (psum (of_budget h (fun _ => 1)) live) (psum (of_budget h pm_bytes) live)
    (psum (of_budget h (not_control (fun _ => 1))) live) (psum (of_budget h (not_control pm_bytes)) live).

Record budget_ok (q : QueueState) (live : list QueuePermit) : Prop := MkBudgetOk {
  bd_peer h : peer_state q h = usage live h;
  bd_global : q_global q = psum pm_bytes live;
  bd_sizes p : p ∈ live -> 0 <= pm_bytes p;
  bd_frames h : frames (usage live h) <= MAX_QUEUE_FRAMES_PEER;
  bd_bytes h : queue_bytes (usage live h) <= MAX_QUEUE_BYTES_PEER;
  bd_nc_frames h : non_control_frames (usage live h) <= MAX_QUEUE_FRAMES_PEER - CONTROL_RESERVED_FRAMES;
  bd_nc_bytes h : non_control_bytes (usage live h) <= MAX_QUEUE_BYTES_PEER - CONTROL_RESERVED_BYTES;
  bd_global_cap : psum pm_bytes live <= MAX_QUEUE_BYTES_GLOBAL;
}.

(** What the tasks can do: reserve, drop one of the live permits, open the
    budget of a new peer. *)
Inductive budget_step : QueueState * list QueuePermit -> QueueState * list QueuePermit -> Prop :=
| step_reserve q live h class bytes p q' :
    0 <= bytes -> try_reserve h class bytes q = (Ok (Some p), q') -> budget_step (q, live) (q', p :: live)
| step_drop q a p b : budget_step (q, a ++ p :: b) (release_permit p q, a ++ b)
| step_open q live h : (forall p, p ∈ live -> pm_budget p <> h) -> budget_step (q, live) (PeerQueueBudget_new h q, live).

Lemma peer_state_insert q g h s h' :
  peer_state (MkQueueState g (<[h := s]> (q_peers q))) h' = if (h =? h')%nat then s else peer_state q h'.
Proof.
  unfold peer_state. cbn. destruct (Nat.eqb_spec h h') as [->|]; [by rewrite lookup_insert_eq|by rewrite lookup_insert_ne].
Qed.

Lemma usage_cons p live h :
  usage (p :: live) h =
    if (pm_budget p =? h)%nat then
      MkPeerState (frames (usage live h) + 1) (queue_bytes (usage live h) + pm_bytes p)
        (if is_control (pm_class p) then non_control_frames (usage live h) else non_control_frames (usage live h) + 1)
        (if is_control (pm_class p) then non_control_bytes (usage live h) else non_control_bytes (usage live h) + pm_bytes p)
    else usage live h.
Proof.
  unfold usage, psum. cbn. unfold of_budget at 1 3 5 7, not_control at 1 3.
  destruct (_ =? h)%nat; [destruct (is_control _)|]; f_equal; lia.
Qed.

#[global] Instance psum_perm f : Proper (Permutation ==> eq) (psum f).
Proof. induction 1; unfold psum in *; cbn; lia. Qed.

#[global] Instance usage_perm : Proper (Permutation ==> eq ==> eq) usage.
Proof. intros l l' Hp h h' ->. unfold usage. by rewrite Hp. Qed.

#[global] Instance budget_ok_perm q : Proper (Permutation ==> iff) (budget_ok q).
Proof.
  assert (forall l l', l ≡ₚ l' -> budget_ok q l -> budget_ok q l') as Hi; [|intros l l' Hp; split; by apply Hi].
  intros l l' Hp [P G S F B NF NB C]. constructor; intros; rewrite <- ?Hp; try done. apply S. by rewrite Hp.
Qed.

Lemma usage_nonneg live h :
  (forall p, p ∈ live -> 0 <= pm_bytes p) ->
  0 <= frames (usage live h) /\ 0 <= queue_bytes (usage live h) /\
  0 <= non_control_frames (usage live h) /\ 0 <= non_control_bytes (usage live h).
Proof.
  intros Hs. cbn. split_and!; apply psum_nonneg; intros p Hp; specialize (Hs p Hp); unfold of_budget, not_control;
    repeat case_match; lia.
Qed.

Lemma reserve_keeps q live h class bytes p q' :
  budget_ok q live -> 0 <= bytes -> try_reserve h class bytes q = (Ok (Some p), q') -> budget_ok q' (p :: live).
Proof.
  intros [P G S F B NF NB C] H0. unfold try_reserve, saturating_add. rewrite P, G.
  destruct (_ || _) eqn:Eb; [by case_match|]. destruct (negb _ || negb _) eqn:Ef; [done|]. intros [= <- <-].
  apply orb_false_iff in Ef as [Et Ec]. rewrite negb_false_iff in Et, Ec. rewrite !andb_true_iff in Et. destruct Et as [[E1 E2] E3].
  assert (forall m (x : Z), 0 <= m < USIZE_MAX -> Z.min USIZE_MAX x <= m -> x <= m) as Hmin by (intros; lia).
  assert (queue_bytes (usage live h) + bytes <= MAX_QUEUE_BYTES_PEER) as E2' by (apply Hmin; [done|lia]).
  assert (psum pm_bytes live + bytes <= MAX_QUEUE_BYTES_GLOBAL) as E3' by (apply Hmin; [done|lia]).
  constructor; cbn [q_global].
  - intros h'. rewrite peer_state_insert, usage_cons. cbn [pm_budget pm_class pm_bytes].
    destruct (Nat.eqb_spec h h') as [->|]; [done|apply P].
  - cbn. unfold psum in *. lia.
  - intros p' [->|Hp]%elem_of_cons; [done|by apply S].
  - intros h'. rewrite usage_cons. cbn [pm_budget pm_class pm_bytes]. destruct (Nat.eqb_spec h h') as [<-|]; [cbn [frames]; lia|apply F].
  - intros h'. rewrite usage_cons. cbn [pm_budget pm_class pm_bytes]. destruct (Nat.eqb_spec h h') as [<-|]; [done|apply B].
  - intros h'. rewrite usage_cons. cbn [pm_budget pm_class pm_bytes]. destruct (Nat.eqb_spec h h') as [<-|]; [|apply NF].
    cbn [non_control_frames]. destruct (is_control class); [apply NF|lia].
  - intros h'. rewrite usage_cons. cbn [pm_budget pm_class pm_bytes]. destruct (Nat.eqb_spec h h') as [<-|]; [|apply NB].
    cbn [non_control_bytes]. destruct (is_control class); [apply NB|]. apply andb_true_iff in Ec as [_ Ec]. apply Hmin; [done|lia].
  - cbn. unfold psum in *. lia.
Qed.

Lemma release_keeps q live p : budget_ok q (p :: live) -> budget_ok (release_permit p q) live.
Proof.
  intros [P G S F B NF NB C]. assert (forall p', p' ∈ live -> 0 <= pm_bytes p') as S' by (intros; apply S; by right).
  assert (0 <= pm_bytes p) as Sp by (apply S; by left).
  assert (0 <= psum pm_bytes live) as Sg by by apply psum_nonneg.
  cbn in G, C. fold (psum pm_bytes live) in G, C.
  assert (forall h, frames (usage live h) <= frames (usage (p :: live) h) /\ queue_bytes (usage live h) <= queue_bytes (usage (p :: live) h) /\
    non_control_frames (usage live h) <= non_control_frames (usage (p :: live) h) /\
    non_control_bytes (usage live h) <= non_control_bytes (usage (p :: live) h)) as HM.
  { intros h. rewrite usage_cons. destruct (_ =? h)%nat; [|lia]. cbn [frames queue_bytes non_control_frames non_control_bytes].
    destruct (is_control _); lia. }
  constructor.
  - intros h. unfold release_permit. rewrite peer_state_insert. destruct (Nat.eqb_spec (pm_budget p) h) as [<-|Hne].
    + rewrite P, usage_cons, Nat.eqb_refl. cbn [frames queue_bytes non_control_frames non_control_bytes]. unfold saturating_sub.
      destruct (usage_nonneg live (pm_budget p) S') as (? & ? & ? & ?). destruct (usage live (pm_budget p)) as [u1 u2 u3 u4].
      cbn [frames queue_bytes non_control_frames non_control_bytes] in *. destruct (is_control _); f_equal; lia.
    + rewrite P, usage_cons. by apply Nat.eqb_neq in Hne as ->.
  - unfold release_permit, saturating_sub. cbn. lia.
  - done.
  - intros h. specialize (F h). specialize (HM h). lia.
  - intros h. specialize (B h). specialize (HM h). lia.
  - intros h. specialize (NF h). specialize (HM h). lia.
  - intros h. specialize (NB h). specialize (HM h). lia.
  - lia.
Qed.

Lemma usage_unused live h : (forall p, p ∈ live -> pm_budget p <> h) -> usage live h = PeerState_default.
Proof.
  induction live as [|p live IH]; intros Hl; [done|]. rewrite usage_cons.
  assert ((pm_budget p =? h)%nat = false) as -> by (apply Nat.eqb_neq, Hl; by left). apply IH. intros p' Hp'. apply Hl. by right.
Qed.

Lemma open_keeps q live h :
  (forall p, p ∈ live -> pm_budget p <> h) -> budget_ok q live -> budget_ok (PeerQueueBudget_new h q) live.
Proof.
  intros Hu [P G S F B NF NB C]. constructor; try done. intros h'. unfold PeerQueueBudget_new. rewrite peer_state_insert.
  destruct (Nat.eqb_spec h h') as [<-|]; [symmetry; by apply usage_unused|apply P].
Qed.

Lemma budget_step_ok s s' : budget_step s s' -> budget_ok s.1 s.2 -> budget_ok s'.1 s'.2.
Proof.
  intros [q live h class bytes p q' H0 Hr|q a p b|q live h Hu] Hok; cbn [fst snd] in *.
  - by eapply reserve_keeps.
  - apply release_keeps. by rewrite Permutation_middle.
  - by apply open_keeps.
Qed.

Definition reachable_budget (q : QueueState) (live : list QueuePermit) : Prop :=
  rtc budget_step (GlobalQueueBudget_new, []) (q, live).

Lemma reachable_budget_ok q live : reachable_budget q live -> budget_ok q live.
Proof.
  intros Hr. change (budget_ok (q, live).1 (q, live).2). revert Hr. unfold reachable_budget. generalize (q, live). intros s Hr.
  remember (GlobalQueueBudget_new, []) as s0 eqn:E0. assert (budget_ok s0.1 s0.2) as H0.
  { subst. constructor; cbn; try done; intros; by apply not_elem_of_nil in H. }
  clear E0. induction Hr; [done|]. eauto using budget_step_ok.
Qed.

Definition only_control (f : QueuePermit -> Z) (p : QueuePermit) : Z := if is_control (pm_class p) then f p else 0.

Lemma psum_split_control h f live :
  psum (of_budget h f) live = psum (of_budget h (only_control f)) live + psum (of_budget h (not_control f)) live.
Proof.
  assert (forall p, of_budget h f p = of_budget h (only_control f) p + of_budget h (not_control f) p) as Hp.
  { intros p. unfold of_budget, only_control, not_control. destruct (_ =? h)%nat; [destruct (is_control (pm_class p))|]; lia. }
  induction live as [|p live IH]; [done|]. unfold psum in *. cbn. rewrite IH, (Hp p). lia.
Qed.

Lemma control_has_room q live h bytes :
  budget_ok q live -> 0 <= bytes ->
  psum (of_budget h (only_control (fun _ => 1))) live < CONTROL_RESERVED_FRAMES ->
  psum (of_budget h (only_control pm_bytes)) live + bytes <= CONTROL_RESERVED_BYTES ->
  psum pm_bytes live + bytes <= MAX_QUEUE_BYTES_GLOBAL ->
  exists q', try_reserve h QControl bytes q = (Ok (Some (MkPermit h QControl bytes)), q').
Proof.
  intros [P G S F B NF NB C] H0 H1 H2 H3. specialize (NF h). specialize (NB h).
  pose proof (psum_split_control h (fun _ => 1) live) as E1. pose proof (psum_split_control h pm_bytes live) as E2.
  destruct (usage_nonneg live h S) as (U1 & U2 & U3 & U4). unfold try_reserve, saturating_add. rewrite P, G. cbn in *.
  unfold MAX_QUEUE_BYTES_PEER, MAX_QUEUE_BYTES_GLOBAL, CONTROL_RESERVED_BYTES, CONTROL_RESERVED_FRAMES, MAX_QUEUE_FRAMES_PEER in *.
  assert (((bytes >? 4 * 1024 * 1024) || (bytes >? 64 * 1024 * 1024)) = false) as -> by lia.
  rewrite !(Z.min_r USIZE_MAX) by (unfold USIZE_MAX, U64_MAX; lia).
  change (is_control QControl) with true. cbn [negb]. rewrite orb_false_r.
  match goal with |- context [if negb ?c then _ else _] => assert (c = true) as -> by lia end. eauto.
Qed.

(** The outgoing queues stay within their budgets.  Whatever the tasks
    reserve and drop, in any order, the accounts equal what the live permits
    hold, for each peer and in total, so the peer and global limits are never
    passed and dropping every permit returns every account to zero; and other
    traffic cannot crowd out control messages: while a peer's own control
    permits hold less than 16 frames and 64 KiB, another one is granted at
    once, unless the global limit is reached. *)
Theorem queue_budgets_hold q live :
  reachable_budget q live ->
  budget_ok q live /\
  forall h bytes, 0 <= bytes ->
    psum (of_budget h (only_control (fun _ => 1))) live < CONTROL_RESERVED_FRAMES ->
    psum (of_budget h (only_control pm_bytes)) live + bytes <= CONTROL_RESERVED_BYTES ->
    psum pm_bytes live + bytes <= MAX_QUEUE_BYTES_GLOBAL ->
    exists q', try_reserve h QControl bytes q = (Ok (Some (MkPermit h QControl bytes)), q').
Proof.
  intros Hr%reachable_budget_ok. split; [done|]. intros h bytes. by apply control_has_room.
Qed.

(** A peer's data share is full, and a ping still goes out. *)
Definition demo_full : QueueState := (try_reserve 1 QRequiredData (4 * 1024 * 1024 - 64 * 1024) GlobalQueueBudget_new).2.

Lemma queue_budgets_hold_witness :
  (try_reserve 1 QGossip 1 demo_full).1 = Ok None /\
  exists q', try_reserve 1 QControl 56 demo_full = (Ok (Some (MkPermit 1 QControl 56)), q').
Proof.
  assert (reachable_budget demo_full [MkPermit 1 QRequiredData (4 * 1024 * 1024 - 64 * 1024)]) as Hr.
  { eapply rtc_l; [|apply rtc_refl]. apply (step_reserve _ _ 1%nat QRequiredData (4 * 1024 * 1024 - 64 * 1024)); by vm_compute. }
  split; [by vm_compute|]. apply (proj2 (queue_budgets_hold demo_full _ Hr) 1%nat 56); by vm_compute.
Defined.

(** A reservation that can wait ends with a permit or an error; gossip gets a
    permit or none, and never an error. *)
Lemma reserve_outcome h class bytes wakes q r q' :
  reserve h class bytes wakes q = (r, q') ->
  if bool_decide (class = QGossip) then exists o, r = Ok o else r <> Ok None.
Proof.
  unfold reserve. destruct (bool_decide_reflect (class = QGossip)) as [->|Hg].
  - unfold try_reserve. rewrite bool_decide_true by done. intros Hr.
    destruct (_ || _); [naive_solver|]. destruct (negb _ || negb _); naive_solver.
  - revert q. induction wakes as [|w wakes IH]; intros q; cbn [reserve_loop]; unfold eff_bind;
      destruct (try_reserve h class bytes q) as [[[p|]|e] q1]; cbn; try (intros [= <- <-]; done). by apply IH.
Qed.
