(* ===== verification/Handshake.v ===== *)
(** [oregon-peer/handshake.rs]: the handshake machine, its driver over a
    connection, and the choice between two connections to the same process. *)
From S2P Require Import Prelude Encoding Transaction Bits Block Layout Protocol Framing PeerPolicy.

(** [TransportConnection] of [oregon-network/transport.rs], reading and writing. *)
Class TransportConnection (C : Type) : Type := {
  connection_read : eff C NetworkError.t Message;
  connection_write : Message -> eff C NetworkError.t unit;
}.

(** A framed connection none of whose writes is interrupted. *)
#[export] Instance framed_transport `{Blake3} : TransportConnection FramedConnection := {
  connection_read := read_message;
  connection_write m := write_message m Written;
}.

Inductive HandshakeState : Type := Connected | HelloSent | HsNegotiated | AckSent | Established.

#[global] Instance HandshakeState_eq_dec : EqDecision HandshakeState.
Proof. solve_decision. Defined.

Record HandshakeMachine : Type := MkMachine {
  hm_local : Hello;
  hm_remote : option Hello;
  hm_negotiated : option Negotiated;
  hm_state : HandshakeState;
}.

Definition HandshakeMachine_new (local : Hello) : HandshakeMachine := MkMachine local None None Connected.

Definition with_state (m : HandshakeMachine) (s : HandshakeState) : HandshakeMachine :=
  MkMachine (hm_local m) (hm_remote m) (hm_negotiated m) s.

Definition handshake_start : eff HandshakeMachine PeerError.t Message := fun m =>
  if negb (bool_decide (hm_state m = Connected)) then (Err (PeerError.HandshakeViolation "Hello sent twice"), m)
  else (Ok (MsgHello (hm_local m)), with_state m HelloSent).

Definition on_hello (remote : Hello) : eff HandshakeMachine PeerError.t (option Message) := fun m =>
  if negb (bool_decide (hello_chain_id remote = hello_chain_id (hm_local m))) then (Err PeerError.WrongChain, m)
  else if bool_decide (instance_nonce remote = instance_nonce (hm_local m)) then (Err PeerError.SelfPeer, m)
  else match negotiate (hm_local m) remote with
  | Err e => (Err (PeerError.Protocol e), m)
  | Ok negotiated =>
      let ack := MkHelloAck (protocol_version negotiated) (features negotiated) (instance_nonce remote) in
      (Ok (Some (MsgHelloAck ack)), MkMachine (hm_local m) (Some remote) (Some negotiated) AckSent)
  end.

Definition on_hello_ack (ack : HelloAck) : eff HandshakeMachine PeerError.t (option Message) := fun m =>
  match hm_negotiated m with
  | None => (Err (PeerError.HandshakeViolation "HelloAck received before negotiation"), m)
  | Some negotiated =>
      if negb (selected_protocol_version ack =? protocol_version negotiated)
         || negb (bool_decide (enabled_features ack = features negotiated))
         || negb (bool_decide (remote_nonce_echo ack = instance_nonce (hm_local m)))
      then (Err PeerError.AckMismatch, m)
      else (Ok None, with_state m Established)
  end.

Definition on_message (message : Message) : eff HandshakeMachine PeerError.t (option Message) := fun m =>
  let established := bool_decide (hm_state m = Established) in
  let application :=
    (Err (PeerError.HandshakeViolation
       (if established then "handshake machine used after Established" else "application message received before Established")), m) in
  match message with
  | MsgPing nonce => if established then application else (Ok (Some (MsgPong nonce)), m)
  | MsgPong _ => if established then application else (Ok None, m)
  | MsgHello remote =>
      if bool_decide (hm_state m = HelloSent) then on_hello remote m
      else (Err (PeerError.HandshakeViolation "unexpected Hello"), m)
  | MsgHelloAck ack =>
      if bool_decide (hm_state m = AckSent) then on_hello_ack ack m
      else (Err (PeerError.HandshakeViolation "unexpected HelloAck"), m)
  | _ => application
  end.

Record HandshakeResult : Type := MkHandshakeResult { hr_remote : Hello; hr_negotiated : Negotiated }.

Section Driver.
Context `{TransportConnection C}.

(** The loop of [perform_handshake]; [deadline] is how many messages arrive
    before the ten seconds are over. *)
Fixpoint handshake_loop (deadline : nat) (m : HandshakeMachine) : eff C PeerError.t HandshakeMachine :=
  if bool_decide (hm_state m = Established) then eff_ret m
  else match deadline with
  | O => eff_fail PeerError.HandshakeTimeout
  | S deadline =>
      let! incoming := eff_map_err PeerError.Network connection_read in
      match on_message incoming m with
      | (Err e, _) => eff_fail e
      | (Ok (Some response), m) =>
          let! _ := eff_map_err PeerError.Network (connection_write response) in handshake_loop deadline m
      | (Ok None, m) => handshake_loop deadline m
      end
  end.

Definition perform_handshake (local : Hello) (deadline : nat) : eff C PeerError.t HandshakeResult :=
  match handshake_start (HandshakeMachine_new local) with
  | (Err e, _) => eff_fail e
  | (Ok hello, m) =>
      let! _ := eff_map_err PeerError.Network (connection_write hello) in
      let! m := handshake_loop deadline m in
      let! remote := eff_lift (ok_or (hm_remote m) (PeerError.HandshakeViolation "Established without remote Hello")) in
      let! negotiated := eff_lift (ok_or (hm_negotiated m) (PeerError.HandshakeViolation "Established without negotiation")) in
      eff_ret (MkHandshakeResult remote negotiated)
  end.

End Driver.

Definition preferred_direction (local_nonce remote_nonce : arr 16) : result PeerError.t Direction :=
  if bool_decide (local_nonce = remote_nonce) then Err PeerError.SelfPeer
  else Ok (match bytes_cmp (arr_bytes local_nonce) (arr_bytes remote_nonce) with Lt => Outbound | _ => Inbound end).

(** ** Established means agreed *)

(** What a machine knows in each state. *)
Definition machine_ok (m : HandshakeMachine) : Prop :=
  match hm_state m with
  | Connected | HelloSent => hm_remote m = None /\ hm_negotiated m = None
  | HsNegotiated => False
  | AckSent | Established =>
      exists remote n, hm_remote m = Some remote /\ hm_negotiated m = Some n /\
        hello_chain_id remote = hello_chain_id (hm_local m) /\ instance_nonce remote <> instance_nonce (hm_local m) /\
        negotiate (hm_local m) remote = Ok n
  end.

Lemma on_message_ok msg m r m' :
  machine_ok m -> on_message msg m = (r, m') -> machine_ok m' /\ hm_local m' = hm_local m.
Proof.
  intros Hok. unfold on_message. destruct msg;
    try (destruct (bool_decide (hm_state m = Established)); intros [= <- <-]; done).
  - destruct (bool_decide_reflect (hm_state m = HelloSent)) as [Es|Es]; [|by intros [= <- <-]].
    unfold on_hello. destruct (bool_decide_reflect (hello_chain_id h = hello_chain_id (hm_local m))) as [Ec|Ec]; cbn [negb]; [|by intros [= <- <-]].
    destruct (bool_decide_reflect (instance_nonce h = instance_nonce (hm_local m))) as [En|En]; [by intros [= <- <-]|].
    destruct (negotiate (hm_local m) h) as [n|e] eqn:Eg; intros [= <- <-]; [|done]. split; [|done]. by exists h, n.
  - destruct (bool_decide_reflect (hm_state m = AckSent)) as [Es|Es]; [|by intros [= <- <-]].
    unfold on_hello_ack. destruct (hm_negotiated m) as [n|] eqn:Eg; [|by intros [= <- <-]].
    destruct (_ || _); intros [= <- <-]; [done|]. split; [|done]. unfold machine_ok in *. rewrite Es in Hok. cbn. by rewrite Eg in *.
Qed.

Lemma handshake_loop_ok `{TransportConnection C} n m c m' c' :
  machine_ok m -> handshake_loop n m c = (Ok m', c') -> machine_ok m' /\ hm_local m' = hm_local m /\ hm_state m' = Established.
Proof.
  revert m c. induction n as [|n IH]; intros m c Hok; cbn [handshake_loop];
    destruct (bool_decide_reflect (hm_state m = Established)) as [Es|Es]; try (by intros [= <- <-]).
  unfold eff_bind, eff_map_err. destruct (connection_read c) as [[msg|] c1]; [cbn|done].
  destruct (on_message msg m) as [[[resp|]|e] m1] eqn:Em; cbn; [| |done].
  - pose proof (on_message_ok _ _ _ _ Hok Em) as [Hok1 HL]. destruct (connection_write resp c1) as [[[]|] c2]; [cbn|done].
    intros (? & ? & ?)%IH; [|done]. by rewrite <- HL.
  - pose proof (on_message_ok _ _ _ _ Hok Em) as [Hok1 HL]. intros (? & ? & ?)%IH; [|done]. by rewrite <- HL.
Qed.

(** Whatever the other side sends, a handshake that succeeds is with another
    process on the same chain, with the parameters its greeting and ours give. *)
Lemma perform_handshake_sound `{TransportConnection C} local n (c : C) r c' :
  perform_handshake local n c = (Ok r, c') ->
  hello_chain_id (hr_remote r) = hello_chain_id local /\ instance_nonce (hr_remote r) <> instance_nonce local /\
  negotiate local (hr_remote r) = Ok (hr_negotiated r).
Proof.
  unfold perform_handshake.
  change (handshake_start (HandshakeMachine_new local)) with
    (Ok (E := PeerError.t) (MsgHello local), MkMachine local None None HelloSent). unfold eff_bind, eff_map_err.
  destruct (connection_write (MsgHello local) c) as [[[]|] c1]; [cbn -[handshake_loop]|done].
  destruct (handshake_loop n _ c1) as [[m|] c2] eqn:EL; [|done].
  apply handshake_loop_ok in EL as (Hok & HL & Es); [|by split]. unfold machine_ok in Hok. rewrite Es in Hok.
  destruct Hok as (remote & ng & Hr & Hn & Hc & Hi & Hg). unfold eff_lift. rewrite Hr, Hn. cbn. intros [= <- <-].
  cbn in *. by rewrite HL in *.
Qed.

(** ** Two machines, whatever the order of deliveries *)

Record Link : Type := MkLink { lk_a : HandshakeMachine; lk_b : HandshakeMachine; to_a : list Message; to_b : list Message }.

(** One side takes the next message sent to it and answers. *)
Inductive link_step : Link -> Link -> Prop :=
| deliver_a a b msg ta tb r a' :
    hm_state a <> Established -> on_message msg a = (Ok r, a') ->
    link_step (MkLink a b (msg :: ta) tb) (MkLink a' b ta (tb ++ option_list r))
| deliver_b a b msg ta tb r b' :
    hm_state b <> Established -> on_message msg b = (Ok r, b') ->
    link_step (MkLink a b ta (msg :: tb)) (MkLink a b' (ta ++ option_list r) tb).

(** Both sides have connected and sent their greeting. *)
Definition link_start (a b : Hello) : Link :=
  MkLink (handshake_start (HandshakeMachine_new a)).2 (handshake_start (HandshakeMachine_new b)).2 [MsgHello b] [MsgHello a].

(** The machine of [local] after [k] messages of [remote]. *)
Definition machine_at (local remote : Hello) (k : nat) : HandshakeMachine :=
  match k with
  | O => MkMachine local None None HelloSent
  | S O => MkMachine local (Some remote) (Some (agreed local remote)) AckSent
  | _ => MkMachine local (Some remote) (Some (agreed local remote)) Established
  end.

Definition ack_of (local remote : Hello) : Message :=
  MsgHelloAck (MkHelloAck (protocol_version (agreed local remote)) (features (agreed local remote)) (instance_nonce remote)).

(** What [remote], having handled [k'] messages, has sent and [local], having handled [k], has not. *)
Definition channel_at (local remote : Hello) (k k' : nat) : list Message :=
  drop k (MsgHello remote :: (if (1 <=? k')%nat then [ack_of remote local] else [])).

Definition link_at (a b : Hello) (i j : nat) : Link :=
  MkLink (machine_at a b i) (machine_at b a j) (channel_at a b i j) (channel_at b a j i).

(** What two processes need to connect to one another. *)
Record connectable (a b : Hello) : Prop := MkConnectable {
  cn_a : hello_ok a;
  cn_b : hello_ok b;
  cn_chain : hello_chain_id a = hello_chain_id b;
  cn_nonce : instance_nonce a <> instance_nonce b;
  cn_compatible : compatible a b;
}.

Lemma connectable_sym a b : connectable a b -> connectable b a.
Proof. intros []. constructor; [done..|by apply compatible_sym]. Qed.

Lemma hello_delivered a b :
  connectable a b -> on_message (MsgHello b) (machine_at a b 0) = (Ok (Some (ack_of a b)), machine_at a b 1).
Proof.
  intros [Ha Hb Hc Hn Hcomp]. unfold on_message. cbn -[agreed]. unfold on_hello. cbn -[agreed].
  rewrite (bool_decide_true (hello_chain_id b = _)) by done. cbn [negb]. rewrite (bool_decide_false (instance_nonce b = _)) by done.
  by rewrite (proj2 (negotiate_spec a b (agreed a b) Ha Hb) (conj Hcomp eq_refl)).
Qed.

Lemma ack_delivered a b : on_message (ack_of b a) (machine_at a b 1) = (Ok None, machine_at a b 2).
Proof.
  unfold ack_of. rewrite (agreed_sym b a). unfold on_message. cbn -[agreed]. unfold on_hello_ack. cbn -[agreed].
  by rewrite Z.eqb_refl, !bool_decide_true.
Qed.

(** Side [a] may move when the message it waits for has been sent. *)
Definition can_move (i j : nat) : Prop := i = 0%nat \/ i = 1%nat /\ (1 <= j)%nat.

Definition reachable_at (i j : nat) : Prop := (i <= 2)%nat /\ (j <= 2)%nat /\ (i = 2%nat -> 1 <= j)%nat /\ (j = 2%nat -> 1 <= i)%nat.

Definition link_swap (l : Link) : Link := MkLink (lk_b l) (lk_a l) (to_b l) (to_a l).

Lemma deliver_first a b i j :
  connectable a b -> reachable_at i j -> can_move i j ->
  exists msg r, channel_at a b i j = msg :: channel_at a b (S i) j /\ hm_state (machine_at a b i) <> Established /\
    on_message msg (machine_at a b i) = (Ok r, machine_at a b (S i)) /\
    channel_at b a j i ++ option_list r = channel_at b a j (S i).
Proof.
  intros Hc (_ & Hj2 & _ & Hj1) [->|[-> Hj]].
  - exists (MsgHello b), (Some (ack_of a b)). split_and!; [done|done|by apply hello_delivered|].
    unfold channel_at. destruct j as [|[|j]]; [done..|lia].
  - exists (ack_of b a), None. unfold channel_at. destruct j as [|j]; [lia|].
    split_and!; [done|done|apply ack_delivered|cbn; by rewrite app_nil_r].
Qed.

Lemma link_move_a a b i j :
  connectable a b -> reachable_at i j -> can_move i j -> link_step (link_at a b i j) (link_at a b (S i) j).
Proof.
  intros Hc Hr Hm. destruct (deliver_first a b i j Hc Hr Hm) as (msg & r & E1 & Hs & E2 & E3).
  unfold link_at. rewrite E1, <- E3. by apply deliver_a.
Qed.

Lemma link_step_swap l l' : link_step l l' -> link_step (link_swap l) (link_swap l').
Proof. intros []; by constructor. Qed.

Lemma reachable_swap i j : reachable_at i j -> reachable_at j i.
Proof. unfold reachable_at. lia. Qed.

Lemma link_move_b a b i j :
  connectable a b -> reachable_at i j -> can_move j i -> link_step (link_at a b i j) (link_at a b i (S j)).
Proof.
  intros Hc Hr Hm. pose proof (link_move_a b a j i (connectable_sym _ _ Hc) (reachable_swap _ _ Hr) Hm) as Hs.
  by apply link_step_swap in Hs.
Qed.

(** The moves of a link are these. *)
Lemma link_step_inv a b i j l :
  connectable a b -> reachable_at i j -> link_step (link_at a b i j) l ->
  can_move i j /\ l = link_at a b (S i) j \/ can_move j i /\ l = link_at a b i (S j).
Proof.
  intros Hc Hr Hs. inversion Hs as [x y msg ta tb r x' Hne Hon|x y msg ta tb r y' Hne Hon]; subst.
  - left. assert (can_move i j) as Hm.
    { destruct Hr as (Hi & _). destruct i as [|[|[|]]]; [by left| |done|lia]. right. split; [done|].
      destruct j; [done|lia]. }
    split; [done|]. destruct (deliver_first a b i j Hc Hr Hm) as (msg' & r' & E1 & _ & E2 & E3).
    match goal with H : _ :: _ = channel_at _ _ _ _ |- _ => rewrite E1 in H; injection H as -> -> end. rewrite E2 in Hon. injection Hon as <- <-. unfold link_at. by rewrite <- E3.
  - right. assert (can_move j i) as Hm.
    { destruct Hr as (_ & Hj & _). destruct j as [|[|[|]]]; [by left| |done|lia]. right. split; [done|].
      destruct i; [done|lia]. }
    split; [done|]. destruct (deliver_first b a j i (connectable_sym _ _ Hc) (reachable_swap _ _ Hr) Hm) as (msg' & r' & E1 & _ & E2 & E3).
    match goal with H : _ :: _ = channel_at _ _ _ _ |- _ => rewrite E1 in H; injection H as -> -> end. rewrite E2 in Hon. injection Hon as <- <-. unfold link_at. by rewrite <- E3.
Qed.

Lemma link_runs a b n l :
  connectable a b -> nsteps link_step n (link_start a b) l ->
  exists i j, l = link_at a b i j /\ reachable_at i j /\ n = (i + j)%nat.
Proof.
  intros Hc. revert l. induction n as [|n IH]; intros l Hn.
  { inversion Hn; subst. exists 0%nat, 0%nat. split_and!; [done|unfold reachable_at; lia|done]. }
  apply nsteps_inv_r in Hn as (l1 & (i & j & -> & Hr & ->)%IH & Hs).
  apply link_step_inv in Hs as [[Hm ->]|[Hm ->]]; [| |done..].
  - exists (S i), j. split_and!; [done| |lia]. unfold reachable_at, can_move in *. lia.
  - exists i, (S j). split_and!; [done| |lia]. unfold reachable_at, can_move in *. lia.
Qed.

(** C26: the handshake completes.  When two processes on the same chain with
    different nonces and compatible greetings connect, then in whatever order
    their messages are delivered the exchange is over after four of them, it
    cannot stop earlier, and at the end both sides are established, each with
    the other's greeting and both with the same negotiated session. *)
Theorem handshake_completes a b n l :
  connectable a b -> nsteps link_step n (link_start a b) l ->
  (n <= 4)%nat /\
  (n < 4 -> exists l', link_step l l')%nat /\
  (n = 4%nat -> hm_state (lk_a l) = Established /\ hm_state (lk_b l) = Established /\
     hm_remote (lk_a l) = Some b /\ hm_remote (lk_b l) = Some a /\
     hm_negotiated (lk_a l) = Some (agreed a b) /\ hm_negotiated (lk_b l) = Some (agreed a b) /\
     to_a l = [] /\ to_b l = []).
Proof.
  intros Hc Hn. destruct (link_runs a b n l Hc Hn) as (i & j & -> & Hr & ->). pose proof Hr as (Hi & Hj & H1 & H2).
  split_and!; [lia| |].
  - intros Hlt. assert (can_move i j \/ can_move j i) as [Hm|Hm] by (unfold can_move; lia).
    + eexists. by apply link_move_a.
    + eexists. by apply link_move_b.
  - intros Hij. assert (i = 2%nat /\ j = 2%nat) as [-> ->] by lia. cbn -[agreed]. by rewrite (agreed_sym b a).
Qed.

Definition demo_alice : Hello := demo_hello 1 2 7 4.
Definition demo_bob : Hello :=
  MkHello 2 2 (arr_fill 32 x07) (arr_fill 16 x02) (MkFeatureSet 5) (MkFeatureSet 1) 9 (arr_fill 32 x09).

Lemma demo_connectable : connectable demo_alice demo_bob.
Proof.
  assert (hello_ok demo_alice /\ hello_ok demo_bob) as [Ha Hb] by (unfold hello_ok; cbn; unfold_ints; lia).
  constructor; [done..| |].
  - intros Hn%(f_equal arr_bytes). by vm_compute in Hn.
  - apply (proj1 (negotiate_spec _ _ (agreed demo_alice demo_bob) Ha Hb)). by vm_compute.
Qed.

Lemma handshake_completes_witness :
  exists l, link_step (link_start demo_alice demo_bob) l /\ exists l', link_step l l'.
Proof.
  pose proof (nsteps_O link_step (link_start demo_alice demo_bob)) as H0.
  destruct (proj1 (proj2 (handshake_completes _ _ 0 _ demo_connectable H0))) as [l Hl]; [lia|].
  exists l. split; [exact Hl|].
  apply (proj1 (proj2 (handshake_completes _ _ 1 l demo_connectable (nsteps_once _ _ Hl)))). lia.
Defined.
