(* ===== verification/PeerService.v ===== *)
(** [oregon-peer/service.rs] and [session.rs]: the registry of established
    peers, and a peer's session.  The registry is behind a mutex: each of its
    operations is one step. *)
From S2P Require Import Prelude Encoding Transaction Bits Block Layout MapSum Protocol Framing PeerPolicy PeerBudget Handshake.

Definition PeerId : Type := Z.
Definition SocketAddr : Type := IpAddr * Z.

Definition MAX_PENDING_HANDSHAKES : Z := 32.

Record RegisteredPeer : Type := MkRegistered { rp_peer_id : PeerId; rp_direction : Direction }.

Record Registry : Type := MkReg {
  pending : Z;
  inbound : Z;
  outbound : Z;
  next_peer_id : Z;
  by_nonce : gmap (arr 16) RegisteredPeer;
}.

Definition Registry_new : Registry := MkReg 0 0 0 1 ∅.

Definition reg_count (d : Direction) (r : Registry) : Z := match d with Inbound => inbound r | Outbound => outbound r end.

Definition increment (d : Direction) (r : Registry) : Registry :=
  match d with
  | Inbound => MkReg (pending r) (inbound r + 1) (outbound r) (next_peer_id r) (by_nonce r)
  | Outbound => MkReg (pending r) (inbound r) (outbound r + 1) (next_peer_id r) (by_nonce r)
  end.

Definition decrement (d : Direction) (r : Registry) : Registry :=
  match d with
  | Inbound => MkReg (pending r) (saturating_sub (inbound r) 1) (outbound r) (next_peer_id r) (by_nonce r)
  | Outbound => MkReg (pending r) (inbound r) (saturating_sub (outbound r) 1) (next_peer_id r) (by_nonce r)
  end.

(** [PendingHandshakes::acquire] and [PendingGuard::drop]. *)
Definition acquire : eff Registry PeerError.t unit := fun r =>
  if pending r >=? MAX_PENDING_HANDSHAKES then (Err PeerError.PendingHandshakeLimit, r)
  else (Ok tt, MkReg (pending r + 1) (inbound r) (outbound r) (next_peer_id r) (by_nonce r)).

Definition guard_drop (r : Registry) : Registry :=
  MkReg (saturating_sub (pending r) 1) (inbound r) (outbound r) (next_peer_id r) (by_nonce r).

Record Registration : Type := MkRegistration { rg_peer_id : PeerId; rg_remote_nonce : arr 16 }.

Definition with_nonces (r : Registry) (m : gmap (arr 16) RegisteredPeer) : Registry :=
  MkReg (pending r) (inbound r) (outbound r) (next_peer_id r) m.

(** [Registration::drop]. *)
Definition registration_drop (g : Registration) (r : Registry) : Registry :=
  match by_nonce r !! rg_remote_nonce g with
  | Some peer =>
      if rp_peer_id peer =? rg_peer_id g
      then decrement (rp_direction peer) (with_nonces r (delete (rg_remote_nonce g) (by_nonce r)))
      else r
  | None => r
  end.

Record EstablishedPeer : Type := MkEstablished {
  ep_peer_id : PeerId;
  ep_remote_addr : SocketAddr;
  ep_direction : Direction;
  negotiated_version : Z;
  ep_features : FeatureSet;
  remote_best_height : Z;
  remote_best_block_id : Hash256;
}.

Definition direction_limit (config : PeerConfig) (d : Direction) : Z :=
  match d with Inbound => max_inbound config | Outbound => max_outbound config end.

(** The connection a new one would replace. *)
Definition replacing (preferred direction : Direction) (existing : option RegisteredPeer) : result PeerError.t (option RegisteredPeer) :=
  match existing with
  | Some peer =>
      if bool_decide (rp_direction peer = preferred) then Err PeerError.DuplicatePeer
      else if negb (bool_decide (direction = preferred)) then Err PeerError.DuplicatePeer
      else Ok (Some peer)
  | None => Ok None
  end.

Definition register (config : PeerConfig) (local_hello : Hello) (remote_addr : SocketAddr) (direction : Direction)
    (handshake : HandshakeResult) : eff Registry PeerError.t (EstablishedPeer * Registration * option PeerId) := fun r =>
  let remote_nonce := instance_nonce (hr_remote handshake) in
  match
    (let? preferred := preferred_direction (instance_nonce local_hello) remote_nonce in
     let? replaced := replacing preferred direction (by_nonce r !! remote_nonce) in
     if reg_count direction r >=? direction_limit config direction then Err (PeerError.DirectionLimit direction)
     else if bool_decide (replaced = None) && (Z.of_nat (size (by_nonce r)) >=? max_peers config) then Err PeerError.PeerLimit
     else
       let? next := ok_or (checked_add U64_MAX (next_peer_id r) 1) PeerError.PeerIdExhausted in
       Ok (replaced, next))
  with
  | Err e => (Err e, r)
  | Ok (replaced, next) =>
      let peer_id := next_peer_id r in
      let r := MkReg (pending r) (inbound r) (outbound r) next (by_nonce r) in
      let r := match replaced with Some peer => decrement (rp_direction peer) r | None => r end in
      let r := increment direction r in
      let r := with_nonces r (<[remote_nonce := MkRegistered peer_id direction]> (by_nonce r)) in
      let established :=
        MkEstablished peer_id remote_addr direction (protocol_version (hr_negotiated handshake)) (features (hr_negotiated handshake))
          (best_height (hr_remote handshake)) (best_block_id (hr_remote handshake)) in
      (Ok (established, MkRegistration peer_id remote_nonce, rp_peer_id <$> replaced), r)
  end.

(** ** The registry counts its peers *)

Definition is_dir (d : Direction) (_ : arr 16) (p : RegisteredPeer) : Z := if bool_decide (rp_direction p = d) then 1 else 0.

Record registry_ok (config : PeerConfig) (r : Registry) (live : list Registration) (guards : nat) : Prop := MkRegistryOk {
  rk_count d : reg_count d r = msum (is_dir d) (by_nonce r);
  rk_limit d : reg_count d r <= direction_limit config d;
  rk_pending : pending r = Z.of_nat guards /\ pending r <= MAX_PENDING_HANDSHAKES;
  rk_fresh g : g ∈ live -> rg_peer_id g < next_peer_id r;
  rk_nodup : NoDup (map rg_peer_id live);
  rk_live n p : by_nonce r !! n = Some p -> MkRegistration (rp_peer_id p) n ∈ live;
}.

(** What connections do to the registry: start and end handshakes, register,
    and unregister when their session ends. *)
Inductive registry_step_rel (config : PeerConfig) (local : Hello) :
  Registry * list Registration * nat -> Registry * list Registration * nat -> Prop :=
| reg_acquire r live k r' : acquire r = (Ok tt, r') -> registry_step_rel config local (r, live, k) (r', live, S k)
| reg_guard_drop r live k : registry_step_rel config local (r, live, S k) (guard_drop r, live, k)
| reg_register r live k addr d h e g o r' :
    register config local addr d h r = (Ok (e, g, o), r') -> registry_step_rel config local (r, live, k) (r', g :: live, k)
| reg_drop r a g b k : registry_step_rel config local (r, a ++ g :: b, k) (registration_drop g r, a ++ b, k).

Lemma is_dir_nonneg d n p : 0 <= is_dir d n p.
Proof. unfold is_dir. destruct (bool_decide _); lia. Qed.

Lemma reg_count_decrement d d' r : reg_count d (decrement d' r) = if bool_decide (d' = d) then saturating_sub (reg_count d r) 1 else reg_count d r.
Proof. by destruct d, d'. Qed.

Lemma reg_count_increment d d' r : reg_count d (increment d' r) = if bool_decide (d' = d) then reg_count d r + 1 else reg_count d r.
Proof. by destruct d, d'. Qed.

Lemma size_msum (m : gmap (arr 16) RegisteredPeer) : Z.of_nat (size m) = msum (is_dir Inbound) m + msum (is_dir Outbound) m.
Proof.
  induction m as [|n p m Hn IH] using map_ind; [by rewrite map_size_empty, !msum_empty|].
  assert (is_dir Inbound n p + is_dir Outbound n p = 1) by (unfold is_dir; by destruct (rp_direction p)).
  rewrite map_size_insert_None, !msum_insert by done. lia.
Qed.

(** What [register] does when it succeeds. *)
Lemma register_spec config local addr d h r e g o r' :
  register config local addr d h r = (Ok (e, g, o), r') ->
  exists preferred replaced, let n := instance_nonce (hr_remote h) in
    preferred_direction (instance_nonce local) n = Ok preferred /\ n <> instance_nonce local /\
    by_nonce r !! n = replaced /\ match replaced with Some p => rp_direction p <> preferred /\ d = preferred | None => True end /\
    reg_count d r < direction_limit config d /\ g = MkRegistration (next_peer_id r) n /\ o = rp_peer_id <$> replaced /\
    pending r' = pending r /\ next_peer_id r' = next_peer_id r + 1 /\ next_peer_id r' <= U64_MAX /\
    by_nonce r' = <[n := MkRegistered (next_peer_id r) d]> (by_nonce r) /\
    forall d', reg_count d' r' =
      (match replaced with Some p => if bool_decide (rp_direction p = d') then saturating_sub (reg_count d' r) 1 else reg_count d' r
       | None => reg_count d' r end) + (if bool_decide (d = d') then 1 else 0).
Proof.
  unfold register, preferred_direction. set (n := instance_nonce (hr_remote h)).
  destruct (bool_decide_reflect (instance_nonce local = n)) as [En|En]; [done|].
  set (preferred := match bytes_cmp _ _ with Lt => _ | _ => _ end).
  destruct (replacing preferred d (by_nonce r !! n)) as [replaced|] eqn:Er; [|done].
  destruct (_ >=? _) eqn:El; [done|]. destruct (_ && _) eqn:Ep; [done|].
  destruct (checked_add U64_MAX (next_peer_id r) 1) as [next|] eqn:Ea; [cbn|done]. apply checked_add_Some in Ea as [-> Ha].
  intros [= <- <- <- <-]. exists preferred, replaced. cbn zeta.
  assert (by_nonce r !! n = replaced /\ match replaced with Some p => rp_direction p <> preferred /\ d = preferred | None => True end) as [Hl Hm].
  { unfold replacing in Er. destruct (by_nonce r !! n) as [p|]; [|by simplify_eq].
    destruct (bool_decide_reflect (rp_direction p = preferred)); [done|].
    destruct (bool_decide_reflect (d = preferred)); cbn in Er; by simplify_eq. }
  split_and!; try done; [lia|by destruct replaced as [[? []]|], d..|].
  intros d'. destruct replaced as [[? []]|], d, d'; cbn -[saturating_sub bool_decide];
    repeat case_bool_decide; first [congruence|lia].
Qed.

Lemma register_keeps config local addr d h r live k e g o r' :
  registry_ok config r live k -> register config local addr d h r = (Ok (e, g, o), r') -> registry_ok config r' (g :: live) k.
Proof.
  intros [RC RL RP RF RN RV] (preferred & replaced & Hreg)%register_spec. cbn zeta in Hreg.
  destruct Hreg as (_ & _ & Hl & Hm & Hlim & -> & _ & HP & HN & _ & HB & HC). set (n := instance_nonce (hr_remote h)) in *.
  assert (forall d', reg_count d' r' = msum (is_dir d') (by_nonce r')) as RC'.
  { intros d'. rewrite HC, HB, msum_update, (RC d').
    pose proof (mget_le (is_dir d') (by_nonce r) n (is_dir_nonneg d')) as Hle. unfold mget in *. rewrite Hl in *.
    change (is_dir d' n (MkRegistered (next_peer_id r) d)) with (if bool_decide (d = d') then 1 else 0).
    destruct replaced as [p|]; [|lia]. change (is_dir d' n p) with (if bool_decide (rp_direction p = d') then 1 else 0) in *.
    destruct (bool_decide (rp_direction p = d')); unfold saturating_sub; lia. }
  constructor.
  - done.
  - intros d'. rewrite HC. pose proof (RL d'). assert (0 <= reg_count d' r) by (rewrite RC; apply msum_nonneg, is_dir_nonneg).
    destruct (bool_decide_reflect (d = d')) as [<-|Hne].
    + destruct replaced as [p|]; [|lia]. unfold saturating_sub. destruct (bool_decide _); lia.
    + destruct replaced as [p|]; [|lia]. unfold saturating_sub. destruct (bool_decide _); lia.
  - by rewrite HP.
  - intros g [->|Hg]%elem_of_cons; cbn; [lia|]. specialize (RF g Hg). lia.
  - cbn. apply NoDup_cons. split; [|done]. intros (g & Hg & Hin)%list_elem_of_fmap. specialize (RF g Hin). lia.
  - intros n' p. rewrite HB. destruct (decide (n' = n)) as [->|Hne].
    + rewrite lookup_insert_eq. intros [= <-]. by left.
    + rewrite lookup_insert_ne by done. intros Hp%RV. by right.
Qed.

Lemma drop_keeps config r a g b k :
  registry_ok config r (a ++ g :: b) k -> registry_ok config (registration_drop g r) (a ++ b) k.
Proof.
  intros [RC RL RP RF RN RV]. assert (a ++ b `sublist_of` a ++ g :: b) as Hsub by (apply sublist_app; [done|by apply sublist_cons]).
  assert (forall x, x ∈ a ++ b -> x ∈ a ++ g :: b) as Hin by (intros; by eapply elem_of_sublist).
  assert (NoDup (map rg_peer_id (a ++ b))) as RN'.
  { rewrite map_app in *. cbn in RN. eapply sublist_NoDup; [exact RN|]. apply sublist_app; [done|by apply sublist_cons]. }
  assert (forall n p, by_nonce r !! n = Some p -> MkRegistration (rp_peer_id p) n <> g -> MkRegistration (rp_peer_id p) n ∈ a ++ b) as Hother.
  { intros n p Hp%RV Hne. set_solver. }
  unfold registration_drop. destruct (by_nonce r !! rg_remote_nonce g) as [p|] eqn:Eg.
  - destruct (Z.eqb_spec (rp_peer_id p) (rg_peer_id g)) as [Eid|Eid].
    + assert (forall d, reg_count d (decrement (rp_direction p) (with_nonces r (delete (rg_remote_nonce g) (by_nonce r)))) =
                        msum (is_dir d) (delete (rg_remote_nonce g) (by_nonce r)) /\
                        msum (is_dir d) (delete (rg_remote_nonce g) (by_nonce r)) <= reg_count d r) as HC.
      { intros d. rewrite reg_count_decrement. change (reg_count d (with_nonces r _)) with (reg_count d r). rewrite (RC d).
        pose proof (msum_delete (is_dir d) (by_nonce r) (rg_remote_nonce g)) as HD. unfold mget in HD. rewrite Eg in HD.
        pose proof (msum_nonneg (is_dir d) (delete (rg_remote_nonce g) (by_nonce r)) (is_dir_nonneg d)).
        change (is_dir d (rg_remote_nonce g) p) with (if bool_decide (rp_direction p = d) then 1 else 0) in HD. unfold saturating_sub. destruct (bool_decide (rp_direction p = d)); lia. }
      constructor.
      * intros d. rewrite (proj1 (HC d)). by destruct (rp_direction p).
      * intros d. rewrite (proj1 (HC d)). etrans; [apply (HC d)|apply RL].
      * by destruct (rp_direction p).
      * intros x Hx%Hin%RF. by destruct (rp_direction p).
      * done.
      * intros n q Hq. assert (delete (rg_remote_nonce g) (by_nonce r) !! n = Some q) as [Hne Hq']%lookup_delete_Some by by destruct (rp_direction p).
        apply Hother; [done|]. intros <-. by apply Hne.
    + constructor; [done..|by intros x Hx%Hin%RF|done|]. intros n q Hq. apply Hother; [done|]. intros <-. cbn in *. congruence.
  - constructor; [done..|by intros x Hx%Hin%RF|done|]. intros n q Hq. apply Hother; [done|]. intros <-. cbn in *. congruence.
Qed.

Lemma registry_step_keeps config local s s' :
  registry_step_rel config local s s' -> registry_ok config s.1.1 s.1.2 s.2 -> registry_ok config s'.1.1 s'.1.2 s'.2.
Proof.
  intros [r live k r' Ha|r live k|r live k addr d h e g o r' Hr|r a g b k] Hok; cbn [fst snd] in *.
  - unfold acquire in Ha. destruct (_ >=? _) eqn:E; [done|]. injection Ha as <-. destruct Hok as [RC RL RP RF RN RV].
    constructor; try done. cbn. lia.
  - destruct Hok as [RC RL RP RF RN RV]. constructor; try done. unfold guard_drop, saturating_sub. cbn [pending]. lia.
  - by eapply register_keeps.
  - by apply drop_keeps.
Qed.

Definition reachable_registry (config : PeerConfig) (local : Hello) (s : Registry * list Registration * nat) : Prop :=
  rtc (registry_step_rel config local) (Registry_new, [], 0%nat) s.

Lemma reachable_registry_ok config local s :
  0 <= max_inbound config -> 0 <= max_outbound config -> reachable_registry config local s -> registry_ok config s.1.1 s.1.2 s.2.
Proof.
  intros Hi Ho. assert (registry_ok config Registry_new [] 0) as H0.
  { constructor; cbn; try done; try (by intros [] || constructor). by intros ? ?%not_elem_of_nil. }
  unfold reachable_registry. intros Hr. remember (Registry_new, [], 0%nat) as s0 eqn:E0.
  assert (registry_ok config s0.1.1 s0.1.2 s0.2) as Hs by by subst. clear E0 H0.
  induction Hr; [done|]. eauto using registry_step_keeps.
Qed.

Lemma PeerConfig_new_spec mp mo mi config :
  PeerConfig_new mp mo mi = Ok config -> config = MkPeerConfig mp mo mi /\ mp <> 0 /\ mp <= HARD_MAX_PEERS /\ mo + mi <= mp.
Proof.
  unfold PeerConfig_new. destruct (Z.eqb_spec mp 0); [done|]. destruct (mp >? _) eqn:E1; [done|].
  destruct (checked_add USIZE_MAX mo mi) as [s|] eqn:Es; [cbn|done]. apply checked_add_Some in Es as [-> _].
  destruct (_ >? mp) eqn:E2; [done|]. intros [= <-]. split_and!; [done|done|lia|lia].
Qed.

(** The registry of peers is exact.  Whatever connections start, finish and
    abandon handshakes, register and end, the two counters are the numbers of
    registered peers in each direction and within the configured limits, so
    at most [max_peers], at most 128, peers are registered and the test of
    the total limit never refuses one; at most 32 handshakes are pending; and
    the peer registered under a nonce is one whose session is still running:
    the end of a replaced session does not unregister its successor. *)
Theorem peer_registry_exact config mp mo mi local r live k :
  PeerConfig_new mp mo mi = Ok config -> 0 <= mo -> 0 <= mi -> reachable_registry config local (r, live, k) ->
  registry_ok config r live k /\ Z.of_nat (size (by_nonce r)) <= mp <= HARD_MAX_PEERS /\
  forall addr d h, (register config local addr d h r).1 <> Err PeerError.PeerLimit.
Proof.
  intros (-> & H0 & HH & Hs)%PeerConfig_new_spec Hmo Hmi Hr. apply reachable_registry_ok in Hr; [|done..]. cbn [fst snd] in Hr.
  pose proof Hr as [RC RL _ _ _ _]. pose proof (RL Inbound) as Li. pose proof (RL Outbound) as Lo. cbn in Li, Lo.
  pose proof (RC Inbound) as Ci. pose proof (RC Outbound) as Co. cbn in Ci, Co. pose proof (size_msum (by_nonce r)) as Hsz.
  split_and!; [done|lia|done|]. intros addr d h. unfold register.
  destruct (preferred_direction _ _) as [pr|e] eqn:Ep.
  2:{ unfold preferred_direction in Ep. destruct (bool_decide _); [|done]. by injection Ep as <-. }
  destruct (replacing pr d _) as [rep|e] eqn:Er.
  2:{ unfold replacing in Er. destruct (by_nonce r !! _); [|done]. destruct (bool_decide _); [by injection Er as <-|].
      destruct (negb _); [by injection Er as <-|done]. }
  destruct (reg_count d r >=? direction_limit _ d) eqn:El; [done|].
  cbn [max_peers]. assert ((Z.of_nat (size (by_nonce r)) >=? mp) = false) as -> by (destruct d; cbn in El; lia).
  rewrite andb_false_r. by destruct (checked_add _ _ _).
Qed.

Definition demo_result : HandshakeResult := MkHandshakeResult demo_bob (agreed demo_alice demo_bob).
Definition demo_addr : SocketAddr := (IpV4 (arr_fill 4 x01), 9333).

Definition registered_once : Registry :=
  (register PeerConfig_default demo_alice demo_addr Inbound demo_result Registry_new).2.

Lemma peer_registry_exact_witness :
  Z.of_nat (size (by_nonce registered_once)) <= 64 /\ inbound registered_once = 1.
Proof.
  assert (reachable_registry PeerConfig_default demo_alice (registered_once, [MkRegistration 1 (instance_nonce demo_bob)], 0%nat)) as Hr.
  { eapply rtc_l; [|apply rtc_refl].
    apply (reg_register _ _ _ _ _ demo_addr Inbound demo_result
             (MkEstablished 1 demo_addr Inbound 2 (MkFeatureSet 5) 9 (arr_fill 32 x09)) _ None). reflexivity. }
  split; [|reflexivity].
  apply (peer_registry_exact PeerConfig_default 64 16 48 demo_alice registered_once _ 0%nat eq_refl ltac:(done) ltac:(done) Hr).
Defined.

(** ** Two connections between the same processes *)

Definition opposite (d : Direction) : Direction := match d with Inbound => Outbound | Outbound => Inbound end.

(** Room for one more connection in either direction. *)
Definition has_room (config : PeerConfig) (nonce : arr 16) (r : Registry) : Prop :=
  by_nonce r !! nonce = None /\ inbound r < max_inbound config /\ outbound r < max_outbound config /\
  Z.of_nat (size (by_nonce r)) < max_peers config /\ next_peer_id r + 2 <= U64_MAX.

(** A process registers both connections, the one in direction [first] first. *)
Definition register_both (config : PeerConfig) (local remote : Hello) (n : Negotiated) (addr1 addr2 : SocketAddr) (first : Direction)
    (r : Registry) : Registry :=
  let r := (register config local addr1 first (MkHandshakeResult remote n) r).2 in
  (register config local addr2 (opposite first) (MkHandshakeResult remote n) r).2.

Definition kept_direction (remote : Hello) (r : Registry) : option Direction := rp_direction <$> by_nonce r !! instance_nonce remote.

Lemma preferred_opposite x y d : preferred_direction x y = Ok d -> preferred_direction y x = Ok (opposite d).
Proof.
  unfold preferred_direction. destruct (bool_decide_reflect (x = y)) as [|Hne]; [done|]. rewrite bool_decide_false by congruence.
  intros [= <-]. rewrite bytes_cmp_antisym. destruct (bytes_cmp (arr_bytes x) (arr_bytes y)) eqn:E; [|done..].
  by apply bytes_cmp_eq, arr_eq in E.
Qed.

Lemma register_fresh config local remote n addr d r pr :
  preferred_direction (instance_nonce local) (instance_nonce remote) = Ok pr -> has_room config (instance_nonce remote) r ->
  exists r1, (register config local addr d (MkHandshakeResult remote n) r).2 = r1 /\
    by_nonce r1 !! instance_nonce remote = Some (MkRegistered (next_peer_id r) d) /\
    reg_count (opposite d) r1 = reg_count (opposite d) r /\ next_peer_id r1 = next_peer_id r + 1.
Proof.
  intros Hp (Hn & Hi & Ho & Hs & Hid). eexists. split; [done|]. unfold register. cbn [hr_remote]. rewrite Hp, Hn. cbn [replacing].
  assert ((reg_count d r >=? direction_limit config d) = false) as -> by (destruct d; cbn; lia).
  assert ((Z.of_nat (size (by_nonce r)) >=? max_peers config) = false) as -> by lia. rewrite andb_false_r.
  rewrite (proj2 (checked_add_Some U64_MAX (next_peer_id r) 1 _)) by (split; [reflexivity|lia]).
  destruct d; cbn; by rewrite lookup_insert_eq.
Qed.

Lemma register_both_keeps config local remote n addr1 addr2 first r pr :
  preferred_direction (instance_nonce local) (instance_nonce remote) = Ok pr -> has_room config (instance_nonce remote) r ->
  kept_direction remote (register_both config local remote n addr1 addr2 first r) = Some pr.
Proof.
  intros Hp Hroom. unfold register_both. destruct (register_fresh config local remote n addr1 first r pr Hp Hroom) as (r1 & -> & Hl & Hc & Hid).
  destruct Hroom as (Hn & Hi & Ho & Hs & Hmax). unfold register. cbn [hr_remote]. rewrite Hp, Hl. unfold replacing. cbn [rp_direction].
  destruct (bool_decide_reflect (first = pr)) as [->|Hne]; [cbn; unfold kept_direction; by rewrite Hl|].
  assert (opposite first = pr) as Hop by (by destruct first, pr). rewrite Hop, bool_decide_true by done. cbn [negb].
  rewrite <- Hop, Hc. assert ((reg_count (opposite first) r >=? direction_limit config (opposite first)) = false) as -> by (destruct first; cbn; lia).
  rewrite (bool_decide_false (Some _ = None)) by done. cbn [andb].
  rewrite (proj2 (checked_add_Some U64_MAX (next_peer_id r1) 1 _)) by (split; [reflexivity|lia]).
  unfold kept_direction. destruct first; cbn; by rewrite lookup_insert_eq.
Qed.

(** Two processes that dial each other at the same time keep the same one of
    the two connections.  In whatever order each of them registers the two,
    the connection one side keeps as outbound is the one the other side
    keeps as inbound; it is the one dialled by the process with the lower
    nonce. *)
Theorem duplicate_arbitration config_a config_b a b n addr1 addr2 addr3 addr4 first_a first_b ra rb :
  instance_nonce a <> instance_nonce b ->
  has_room config_a (instance_nonce b) ra -> has_room config_b (instance_nonce a) rb ->
  exists d, kept_direction b (register_both config_a a b n addr1 addr2 first_a ra) = Some d /\
    kept_direction a (register_both config_b b a n addr3 addr4 first_b rb) = Some (opposite d) /\
    (d = Outbound <-> bytes_cmp (arr_bytes (instance_nonce a)) (arr_bytes (instance_nonce b)) = Lt).
Proof.
  intros Hne Ra Rb. destruct (preferred_direction (instance_nonce a) (instance_nonce b)) as [d|] eqn:Ep.
  2:{ unfold preferred_direction in Ep. by rewrite bool_decide_false in Ep. }
  exists d. split_and!; [by apply register_both_keeps|apply register_both_keeps; [by apply preferred_opposite|done]|].
  unfold preferred_direction in Ep. rewrite bool_decide_false in Ep by done. injection Ep as <-. by destruct (bytes_cmp _ _).
Qed.

Lemma duplicate_arbitration_witness :
  exists d,
    kept_direction demo_bob (register_both PeerConfig_default demo_alice demo_bob (agreed demo_alice demo_bob) demo_addr demo_addr
      Inbound Registry_new) = Some d /\
    kept_direction demo_alice (register_both PeerConfig_default demo_bob demo_alice (agreed demo_alice demo_bob) demo_addr demo_addr
      Inbound Registry_new) = Some (opposite d).
Proof.
  assert (forall nonce, has_room PeerConfig_default nonce Registry_new) as Hroom by (intros; by split_and!).
  destruct (duplicate_arbitration PeerConfig_default PeerConfig_default demo_alice demo_bob (agreed demo_alice demo_bob)
    demo_addr demo_addr demo_addr demo_addr Inbound Inbound Registry_new Registry_new (cn_nonce _ _ demo_connectable)
    (Hroom _) (Hroom _)) as (d & Ha & Hb & _).
  exists d. split; [exact Ha|exact Hb].
Defined.

(** ** Sessions *)

Inductive PeerEvent : Type :=
| PeerEstablished (peer : EstablishedPeer)
| PeerMessage (peer_id : PeerId) (message : Message)
| PeerMatchedResponse (peer_id : PeerId) (key : RequestKey) (message : Message)
| PeerRequestTimedOut (peer_id : PeerId) (key : RequestKey)
| PeerUnsolicited (peer_id : PeerId) (message : Message).

Record PeerSession (C : Type) : Type := MkSession {
  ps_peer : EstablishedPeer;
  ps_connection : C;
  ps_budget : nat;
  ps_requests : RequestRegistry;
  ps_score : PeerScore;
  ps_liveness : LivenessState;
  ps_registration : Registration;
}.
Arguments MkSession {C} _ _ _ _ _ _ _.
Arguments ps_peer {C} _. Arguments ps_connection {C} _. Arguments ps_budget {C} _. Arguments ps_requests {C} _.
Arguments ps_score {C} _. Arguments ps_liveness {C} _. Arguments ps_registration {C} _.

Section Session.
Context `{Blake3} `{TransportConnection C}.

Definition PeerSession_new (peer : EstablishedPeer) (connection : C) (budget : nat) (g : Registration) (now : Z) : PeerSession C :=
  MkSession peer connection budget RequestRegistry_default (MkPeerScore 0) (LivenessState_new now) g.

Definition with_connection (s : PeerSession C) (c : C) : PeerSession C :=
  MkSession (ps_peer s) c (ps_budget s) (ps_requests s) (ps_score s) (ps_liveness s) (ps_registration s).
Definition with_requests (s : PeerSession C) (r : RequestRegistry) : PeerSession C :=
  MkSession (ps_peer s) (ps_connection s) (ps_budget s) r (ps_score s) (ps_liveness s) (ps_registration s).
Definition with_score (s : PeerSession C) (p : PeerScore) : PeerSession C :=
  MkSession (ps_peer s) (ps_connection s) (ps_budget s) (ps_requests s) p (ps_liveness s) (ps_registration s).
Definition with_liveness (s : PeerSession C) (l : LivenessState) : PeerSession C :=
  MkSession (ps_peer s) (ps_connection s) (ps_budget s) (ps_requests s) (ps_score s) l (ps_registration s).

Definition session_expect (key : RequestKey) (now : Z) : eff (PeerSession C) RequestError.t unit := fun s =>
  let '(r, requests) := expect_at key now (ps_requests s) in (r, with_requests s requests).

Definition apply_feedback (f : PeerFeedback) (s : PeerSession C) : ScoreDecision * PeerSession C :=
  let '(d, score) := score_apply (misbehavior f) (ps_score s) in (d, with_score s score).

Definition liveness_action (now : Z) (s : PeerSession C) : LivenessAction * PeerSession C :=
  let '(a, l) := poll_at now (ps_liveness s) in (a, with_liveness s l).

Definition request_timeouts (now : Z) (s : PeerSession C) : list PeerEvent * PeerSession C :=
  let '(keys, requests) := expire_at now (ps_requests s) in
  let s := with_requests s requests in
  (map (PeerRequestTimedOut (ep_peer_id (ps_peer s))) keys,
   foldl (fun s _ => with_score s (score_apply SyncTimeout (ps_score s)).2) s keys).

(** The permit lives until [send] returns. *)
Definition session_send (message : Message) (class : QueueClass) (wakes : list (QueueState -> QueueState))
  : eff (QueueState * PeerSession C) PeerError.t bool := fun '(q, s) =>
  match
    (let? (_, payload) := map_err PeerError.Protocol (encode_message message) in
     ok_or (checked_add USIZE_MAX (Z.of_nat FRAME_HEADER_BYTES) (Z.of_nat (length payload))) PeerError.QueueItemTooLarge)
  with
  | Err e => (Err e, (q, s))
  | Ok bytes =>
      match reserve (ps_budget s) class bytes wakes q with
      | (Err e, q) => (Err e, (q, s))
      | (Ok None, q) => (Ok false, (q, s))
      | (Ok (Some permit), q) =>
          let '(r, c) := connection_write message (ps_connection s) in
          (match r with Ok _ => Ok true | Err e => Err (PeerError.Network e) end, (release_permit permit q, with_connection s c))
      end
  end.

(** The request a message answers. *)
Definition response_key (message : Message) : option RequestKey :=
  match message with
  | MsgHeaders _ => Some KeyHeaders
  | MsgTransaction tx => Some (KeyObject (MkInventoryItem InvTransaction (Transaction_txid tx)))
  | MsgBlock block => Some (KeyObject (MkInventoryItem InvBlock (block_id (header block))))
  | _ => None
  end.

Definition classify_message_at (message : Message) (now : Z) (s : PeerSession C) : option PeerEvent * PeerSession C :=
  let peer_id := ep_peer_id (ps_peer s) in
  match response_key message with
  | None => (Some (PeerMessage peer_id message), s)
  | Some key =>
      match classify_key_at key now (ps_requests s) with
      | (Matched key, r) => (Some (PeerMatchedResponse peer_id key message), with_requests s r)
      | (GraceDrop _, r) => (None, with_requests s r)
      | (Unsolicited _, r) =>
          (Some (PeerUnsolicited peer_id message),
           with_score (with_requests s r) (score_apply UnsolicitedObject (ps_score s)).2)
      end
  end.

(** [read_event]: the loop runs until a message makes an event; [clock i] is the
    time of the [i]-th of its messages.  [None] is a loop cut short, which
    [read_event_total] rules out. *)
Fixpoint read_event_loop (fuel i : nat) (clock : nat -> Z) : eff (PeerSession C) PeerError.t (option PeerEvent) := fun s =>
  match fuel with
  | O => (Ok None, s)
  | S fuel =>
      let '(r, c) := connection_read (ps_connection s) in
      let s := with_connection s c in
      match r with
      | Err e => (Err (PeerError.Network e), s)
      | Ok message =>
          let now := clock i in
          let s := with_liveness s (note_activity now (ps_liveness s)) in
          match message with
          | MsgPong nonce =>
              (Ok (Some (PeerMessage (ep_peer_id (ps_peer s)) (MsgPong nonce))),
               with_liveness s (on_pong nonce now (ps_liveness s)).2)
          | _ =>
              let '(event, s) := classify_message_at message now s in
              match event with
              | Some event => (Ok (Some event), s)
              | None => read_event_loop fuel (S i) clock s
              end
          end
      end
  end.

Definition read_event (clock : nat -> Z) : eff (PeerSession C) PeerError.t (option PeerEvent) := fun s =>
  read_event_loop (S (length (grace (ps_requests s)))) 0 clock s.

(** ** The service *)

Record ServiceState : Type := MkService { sv_registry : Registry; sv_queues : QueueState; sv_cooldown : gmap IpAddr Z }.

Record EstablishOutcome : Type := MkOutcome { eo_session : PeerSession C; replaced_peer : option PeerId }.

Definition cooldown_remote (ip : IpAddr) (now : Z) (s : ServiceState) : ServiceState :=
  MkService (sv_registry s) (sv_queues s) (cooldown_insert_at ip now (sv_cooldown s)).

Definition is_cooling_down (ip : IpAddr) (now : Z) (s : ServiceState) : bool * ServiceState :=
  let '(b, t) := cooldown_contains_at ip now (sv_cooldown s) in (b, MkService (sv_registry s) (sv_queues s) t).

Definition with_registry (s : ServiceState) (r : Registry) : ServiceState := MkService r (sv_queues s) (sv_cooldown s).

(** [budget] is the handle of the session's new budget; [now] its first instant. *)
Definition establish (config : PeerConfig) (local : Hello) (connection : C) (remote_addr : SocketAddr) (direction : Direction)
    (deadline budget : nat) (now : Z) : eff ServiceState PeerError.t EstablishOutcome := fun s =>
  match perform_handshake local deadline connection with
  | (Err e, _) => (Err e, s)
  | (Ok handshake, connection) =>
      match register config local remote_addr direction handshake (sv_registry s) with
      | (Err e, r) => (Err e, with_registry s r)
      | (Ok (established, registration, replaced), r) =>
          (Ok (MkOutcome (PeerSession_new established connection budget registration now) replaced),
           MkService r (PeerQueueBudget_new budget (sv_queues s)) (sv_cooldown s))
      end
  end.

(** A pending handshake is counted while [m] runs, and no longer. *)
Definition while_pending {A} (m : eff ServiceState PeerError.t A) : eff ServiceState PeerError.t A := fun s =>
  match acquire (sv_registry s) with
  | (Err e, _) => (Err e, s)
  | (Ok _, r) => let '(x, s) := m (with_registry s r) in (x, with_registry s (guard_drop (sv_registry s)))
  end.

(** [dial] is what the transport's [connect] returns.  [connect] and
    [accept_connection] are written as one step; the source awaits the dial
    and the handshake between them, and what other connections do to the
    registry meanwhile is the interleaving of [registry_step_rel]. *)
Definition connect (config : PeerConfig) (local : Hello) (addr : SocketAddr) (dial : result NetworkError.t C)
    (deadline budget : nat) (now : Z) : eff ServiceState PeerError.t EstablishOutcome := fun s =>
  let '(cooling, s) := is_cooling_down addr.1 now s in
  if cooling then (Err PeerError.Cooldown, s)
  else while_pending
    (let! connection := eff_lift (map_err PeerError.Network dial) in
     establish config local connection addr Outbound deadline budget now) s.

Definition accept_connection (config : PeerConfig) (local : Hello) (connection : C) (addr : SocketAddr)
    (deadline budget : nat) (now : Z) : eff ServiceState PeerError.t EstablishOutcome := fun s =>
  let '(cooling, s) := is_cooling_down addr.1 now s in
  if cooling then (Err PeerError.Cooldown, s)
  else while_pending (establish config local connection addr Inbound deadline budget now) s.
(** ** Reading ends *)

Lemma length_prune_grace now r : (length (grace (prune_grace now r)) <= length (grace r))%nat.
Proof. apply sublist_length, filter_sublist. Qed.

Lemma grace_drop_shrinks key now r k r' :
  classify_key_at key now r = (GraceDrop k, r') -> (length (grace r') < length (grace r))%nat.
Proof.
  unfold classify_key_at. destruct (outstanding _ !! key); [done|].
  pose proof (remove_first_spec key (grace (prune_grace now r))) as Hs. pose proof (length_prune_grace now r) as Hl.
  destruct (remove_first key _) as [g|]; [|done]. destruct Hs as (a & e & b & Hg & -> & _). intros [= <- <-]. cbn.
  rewrite Hg in Hl. rewrite length_app in *. cbn in Hl. lia.
Qed.

Lemma read_event_loop_total fuel i clock s r s' :
  (length (grace (ps_requests s)) < fuel)%nat -> read_event_loop fuel i clock s = (r, s') -> r <> Ok None.
Proof.
  revert i s. induction fuel as [|fuel IH]; intros i s Hf; [lia|]. cbn [read_event_loop].
  destruct (connection_read (ps_connection s)) as [[msg|e] c]; [|by intros [= <- <-]].
  set (s1 := with_liveness _ _).
  assert (forall m, (let '(event, s2) := classify_message_at m (clock i) s1 in
     match event with Some event => (Ok (Some event), s2) | None => read_event_loop fuel (S i) clock s2 end) = (r, s') -> r <> Ok None) as Hgo.
  { intros m. unfold classify_message_at. destruct (response_key m) as [key|]; [|by intros [= <- <-]].
    change (ps_requests s1) with (ps_requests s).
    destruct (classify_key_at key (clock i) (ps_requests s)) as [[k|k|k] rq] eqn:Ec; [by intros [= <- <-]| |by intros [= <- <-]].
    apply IH. cbn. apply grace_drop_shrinks in Ec. lia. }
  destruct msg; try apply Hgo. by intros [= <- <-].
Qed.

(** Reading returns an event or an error: at most the messages forgiven by the
    grace list are passed over. *)
Lemma read_event_total clock s r s' : read_event clock s = (r, s') -> r <> Ok None.
Proof. apply read_event_loop_total. lia. Qed.

(** ** Sending returns what it reserved *)

Lemma try_reserve_permit h class bytes q p q' :
  try_reserve h class bytes q = (Ok (Some p), q') -> p = MkPermit h class bytes.
Proof. unfold try_reserve. destruct (_ || _); [by destruct (bool_decide _)|]. by destruct (negb _ || negb _); intros [= <- <-]. Qed.

Lemma session_send_releases message class q s r q' s' live :
  budget_ok q live -> session_send message class [] (q, s) = (r, (q', s')) -> budget_ok q' live.
Proof.
  intros Hok. unfold session_send.
  destruct (map_err _ (encode_message message)) as [[t payload]|]; [cbn|by intros [= <- <- <-]].
  destruct (checked_add _ _ _) as [bytes|] eqn:Ea; [cbn|by intros [= <- <- <-]]. apply checked_add_Some in Ea as [-> _].
  set (bytes := _ + _). assert (0 <= bytes) as Hb by lia.
  assert (forall o q1, reserve (ps_budget s) class bytes [] q = (o, q1) ->
    match o with Ok (Some p) => budget_ok q1 (p :: live) | _ => budget_ok q1 live end) as HR.
  { intros o q1. assert (forall o q1, try_reserve (ps_budget s) class bytes q = (o, q1) ->
      match o with Ok (Some p) => budget_ok q1 (p :: live) | _ => q1 = q end) as HT.
    { intros o' q1' Ht. destruct o' as [[p|]|e]; [by eapply reserve_keeps| |]; unfold try_reserve in Ht;
        (destruct (_ || _); [by destruct (bool_decide _); injection Ht|]); by destruct (negb _ || negb _); injection Ht. }
    unfold reserve. destruct (bool_decide _).
    - intros Ht%HT. destruct o as [[p|]|]; [done| |]; by subst.
    - cbn. unfold eff_bind. destruct (try_reserve _ _ _ _) as [o' q1']. specialize (HT _ _ eq_refl).
      destruct o' as [[p|]|e]; intros [= <- <-]; [done|by subst..]. }
  destruct (reserve (ps_budget s) class bytes [] q) as [[[p|]|e] q1]; specialize (HR _ _ eq_refl); cbn in HR.
  - destruct (connection_write message (ps_connection s)) as [w c]. intros [= <- <- <-]. by apply release_keeps.
  - by intros [= <- <- <-].
  - by intros [= <- <- <-].
Qed.

(** ** A session that is established *)

(** [connection] is the one the session was made on, [after] the state once it is. *)
Record session_agreed (config : PeerConfig) (local : Hello) (addr : SocketAddr) (d : Direction) (connection : C) (deadline budget : nat)
    (before after : ServiceState) (o : EstablishOutcome) : Prop := MkSessionAgreed {
  sa_agreed : exists h, let remote := hr_remote h in let n := instance_nonce remote in let existing := by_nonce (sv_registry before) !! n in
    perform_handshake local deadline connection = (Ok h, ps_connection (eo_session o)) /\
    hello_chain_id remote = hello_chain_id local /\ n <> instance_nonce local /\ negotiate local remote = Ok (hr_negotiated h) /\
    ps_peer (eo_session o) = MkEstablished (next_peer_id (sv_registry before)) addr d (protocol_version (hr_negotiated h))
      (features (hr_negotiated h)) (best_height remote) (best_block_id remote) /\
    by_nonce (sv_registry after) = <[n := MkRegistered (next_peer_id (sv_registry before)) d]> (by_nonce (sv_registry before)) /\
    replaced_peer o = rp_peer_id <$> existing /\
    match existing with
    | Some peer => preferred_direction (instance_nonce local) n = Ok d /\ rp_direction peer <> d
    | None => True
    end;
  sa_room : reg_count d (sv_registry before) < direction_limit config d;
  sa_budget : ps_budget (eo_session o) = budget /\
    forall h, peer_state (sv_queues after) h = if (budget =? h)%nat then PeerState_default else peer_state (sv_queues before) h;
  sa_pending : pending (sv_registry after) = pending (sv_registry before);
}.

(** What an attempt over [conn], the connection made or why there is none, comes to. *)
Definition attempt_sound (config : PeerConfig) (local : Hello) (addr : SocketAddr) (d : Direction) (conn : result NetworkError.t C)
    (deadline budget : nat) (now : Z) (before : ServiceState) (r : result PeerError.t EstablishOutcome) (after : ServiceState) : Prop :=
  match r with
  | Ok o => (cooldown_contains_at addr.1 now (sv_cooldown before)).1 = false /\
      exists connection, conn = Ok connection /\ session_agreed config local addr d connection deadline budget before after o
  | Err _ => sv_registry after = sv_registry before /\ sv_queues after = sv_queues before
  end.

(** The slot taken and given back. *)
Lemma pending_restored r :
  0 <= pending r -> guard_drop (MkReg (pending r + 1) (inbound r) (outbound r) (next_peer_id r) (by_nonce r)) = r.
Proof. intros Hp. destruct r. unfold guard_drop, saturating_sub. cbn in *. f_equal. lia. Qed.

Lemma register_err config local addr d h r e r' : register config local addr d h r = (Err e, r') -> r' = r.
Proof. unfold register. destruct (let? x := _ in _) as [[rp nx]|]; [done|]. by intros [= _ <-]. Qed.

Lemma while_establish_agreed config local connection addr d deadline budget now s r s' :
  0 <= pending (sv_registry s) ->
  while_pending (establish config local connection addr d deadline budget now) s = (r, s') ->
  match r with
  | Ok o => session_agreed config local addr d connection deadline budget s s' o
  | Err _ => sv_registry s' = sv_registry s /\ sv_queues s' = sv_queues s
  end.
Proof.
  intros Hp. unfold while_pending, acquire. destruct (_ >=? _); [by intros [= <- <-]|]. set (r1 := MkReg _ _ _ _ _).
  unfold establish. destruct (perform_handshake local deadline connection) as [[h|e] c] eqn:Eh.
  2: { intros [= <- <-]. split; [by apply pending_restored|done]. }
  pose proof (perform_handshake_sound _ _ _ _ _ Eh) as (Hc & Hn & Hg).
  change (sv_registry (with_registry s r1)) with r1. change (sv_queues (with_registry s r1)) with (sv_queues s).
  destruct (register config local addr d h r1) as [[[[e g] rep]|e] r2] eqn:Er.
  2: { apply register_err in Er as ->. intros [= <- <-]. split; [by apply pending_restored|done]. }
  intros [= <- <-]. pose proof Er as (pr & replaced & Hspec)%register_spec. cbn zeta in Hspec.
  destruct Hspec as (Hpr & _ & Hl & Hm & Hlim & -> & -> & HP & _ & _ & HB & _).
  unfold register in Er. destruct (let? x := _ in _) as [[rp nx]|]; [|done]. injection Er as <- _ _.
  constructor; [exists h; cbn zeta; split_and!; try done| | |].
  - cbn. change (by_nonce (sv_registry s)) with (by_nonce r1). by rewrite <- Hl.
  - change (by_nonce (sv_registry s)) with (by_nonce r1). rewrite Hl. destruct replaced as [peer|]; [|done].
    destruct Hm as [Hne ->]. done.
  - by destruct d.
  - split; [done|]. intros h'. cbn. unfold PeerQueueBudget_new. by rewrite peer_state_insert.
  - cbn. rewrite HP. unfold saturating_sub. cbn. lia.
Qed.


End Session.

(** Bob dials Alice: his greeting and his acknowledgement are on the wire. *)
Definition demo_service : ServiceState := MkService Registry_new GlobalQueueBudget_new ∅.

Definition bob_on_the_wire : FramedConnection :=
  let sent := write_messages (H := demo_blake3) [MsgHello demo_bob; ack_of demo_bob demo_alice] (MkFramed [] [] (arr_fill 4 x11)) in
  MkFramed [Data (fc_outbound sent.2)] [] (arr_fill 4 x11).

Definition alice_accepts : result PeerError.t EstablishOutcome * ServiceState :=
  accept_connection (H0 := framed_transport (H := demo_blake3)) PeerConfig_default demo_alice bob_on_the_wire demo_addr 2 1 0 demo_service.

Lemma outcome_of {E A S} (p : result E A * S) : is_ok p.1 = true -> exists a s, p = (Ok a, s).
Proof. destruct p as [[a|e] s]; [eauto|done]. Qed.

