(* ===== verification/Sync.v ===== *)
(** [oregon-sync]: locators, header responses and the search for the blocks to
    download ([view.rs], [topology.rs], [locator.rs]).

    The synchroniser sees the chain state through [ChainSyncView]; the theorems
    are proved for any view that answers from two chains of headers. *)
From S2P Require Import Prelude Encoding Transaction Block Layout Protocol.

Module SyncViewError.
Inductive t : Type := Unavailable.
End SyncViewError.

Module SyncError.
Inductive t : Type :=
| DuplicateTarget (id : Hash256)
| UnexpectedBlock (peer_id : Z) (id : Hash256)
| BufferFull
| DetachedHeaders
| NonContiguousHeaders
| TooManyHeaders
| View (e : SyncViewError.t).
End SyncError.

Record SyncTip : Type := MkSyncTip { tip_block_id : Hash256; tip_height : Z }.

Class ChainSyncView : Type := {
  view_active_tip : result SyncViewError.t SyncTip;
  view_preferred_header_tip : result SyncViewError.t SyncTip;
  view_active_id_at_height : Z -> result SyncViewError.t (option Hash256);
  view_preferred_header_id_at_height : Z -> result SyncViewError.t (option Hash256);
  view_preferred_header_at_height : Z -> result SyncViewError.t (option BlockHeader);
  view_body_retained : Hash256 -> result SyncViewError.t bool;
}.

(** ** Topology *)

Section Topology.
Context {V : ChainSyncView}.

(** The loop of [find_common_height]; [n] is the height. *)
Fixpoint common_loop (n : nat) : result SyncViewError.t Z :=
  let height := Z.of_nat n in
  let? a := view_active_id_at_height height in
  let? active_id := ok_or a SyncViewError.Unavailable in
  let? p := view_preferred_header_id_at_height height in
  let? preferred_id := ok_or p SyncViewError.Unavailable in
  if bool_decide (active_id = preferred_id) then Ok height
  else match n with
  | O => Err SyncViewError.Unavailable
  | S n => common_loop n
  end.

Definition find_common_height : result SyncViewError.t Z :=
  let? active := view_active_tip in
  let? preferred := view_preferred_header_tip in
  common_loop (Z.to_nat (Z.min (tip_height active) (tip_height preferred))).

(** The loop of [missing_body_targets]: [n] heights from [height] on. *)
Fixpoint missing_loop (n : nat) (height : Z) : result SyncViewError.t (list Hash256) :=
  match n with
  | O => Ok []
  | S n =>
      let? p := view_preferred_header_id_at_height height in
      let? block_id := ok_or p SyncViewError.Unavailable in
      let? retained := view_body_retained block_id in
      let? targets := missing_loop n (height + 1) in
      Ok (if retained then targets else block_id :: targets)
  end.

Definition missing_body_targets : result SyncViewError.t (list Hash256) :=
  let? common_height := find_common_height in
  let? preferred := view_preferred_header_tip in
  if common_height >=? tip_height preferred then Ok []
  else missing_loop (Z.to_nat (tip_height preferred - common_height)) (common_height + 1).

End Topology.

(** ** Locators *)

Definition U64_saturating_mul (a b : Z) : Z := Z.min U64_MAX (a * b).

(** The loop of [locator_heights]: [len] heights are pushed already.  It pushes
    at least one each time and never more than [MAX_LOCATOR_HASHES]. *)
Fixpoint locator_loop (fuel : nat) (len : Z) (height step : Z) : list Z :=
  match fuel with
  | O => []
  | S fuel =>
      if (len + 1 =? MAX_LOCATOR_HASHES) && negb (height =? 0) then [0]
      else if height =? 0 then [height]
      else
        let step := if len + 1 >=? 10 then U64_saturating_mul step 2 else step in
        height :: locator_loop fuel (len + 1) (saturating_sub height step) step
  end.

Definition locator_heights (tip_height : Z) : list Z := locator_loop (Z.to_nat MAX_LOCATOR_HASHES) 0 tip_height 1.

Definition build_locator {V : ChainSyncView} (stop : option Hash256) : result SyncViewError.t GetHeaders :=
  let? tip := view_preferred_header_tip in
  let? locator := try_map (fun height =>
    let? id := view_preferred_header_id_at_height height in ok_or id SyncViewError.Unavailable) (locator_heights (tip_height tip)) in
  Ok (MkGetHeaders locator stop).

Definition better_hit (locator_id : Hash256) (best : option (Z * Hash256)) (local : Z * Hash256) : option (Z * Hash256) :=
  if bool_decide (locator_id = local.2) && match best with None => true | Some b => local.1 >? b.1 end then Some local else best.

Definition highest_locator_hit (locator : list Hash256) (preferred_path : list (Z * Hash256)) : option (Z * Hash256) :=
  foldl (fun best locator_id => foldl (better_hit locator_id) best preferred_path) None locator.

Section Headers.
Context `{Blake3}.

(** [headers.windows(2)]. *)
Fixpoint contiguous (headers : list BlockHeader) : bool :=
  match headers with
  | a :: ((b :: _) as rest) => bool_decide (previous_block b = block_id a) && contiguous rest
  | _ => true
  end.

Definition validate_headers_response (common_ancestor : Hash256) (headers : list BlockHeader) : result SyncError.t unit :=
  if Z.of_nat (length headers) >? MAX_HEADERS_PER_MESSAGE then Err SyncError.TooManyHeaders
  else match headers with
  | [] => Ok tt
  | first :: _ =>
      if negb (bool_decide (previous_block first = common_ancestor)) then Err SyncError.DetachedHeaders
      else if negb (contiguous headers) then Err SyncError.NonContiguousHeaders
      else Ok tt
  end.

(** The loop of [headers_after_common_height]: it pushes a header each time,
    [MAX_HEADERS_PER_MESSAGE] at most. *)
Fixpoint headers_loop {V : ChainSyncView} (fuel : nat) (height tip : Z) (stop : option Hash256) : result SyncViewError.t (list BlockHeader) :=
  match fuel with
  | O => Ok []
  | S fuel =>
      if height <=? tip then
        let? h := view_preferred_header_at_height height in
        let? header := ok_or h SyncViewError.Unavailable in
        if bool_decide (stop = Some (block_id header)) then Ok [header]
        else
          let? headers := headers_loop fuel (saturating_add U64_MAX height 1) tip stop in
          Ok (header :: headers)
      else Ok []
  end.

Definition headers_after_common_height {V : ChainSyncView} (common_height : Z) (stop : option Hash256)
  : result SyncViewError.t (list BlockHeader) :=
  let? tip := view_preferred_header_tip in
  if common_height >=? tip_height tip then Ok []
  else headers_loop (Z.to_nat MAX_HEADERS_PER_MESSAGE) (saturating_add U64_MAX common_height 1) (tip_height tip) stop.

End Headers.

(** ** The shape of a locator *)

Lemma locator_loop_spec fuel len height step :
  0 <= height -> 1 <= step <= U64_MAX -> 0 <= len -> len + Z.of_nat fuel = MAX_LOCATOR_HASHES -> (1 <= fuel)%nat ->
  let l := locator_loop fuel len height step in
  (1 <= length l <= fuel)%nat /\ last l = Some 0 /\ (len + 1 < MAX_LOCATOR_HASHES -> head l = Some height) /\
  StronglySorted Z.gt l /\ Forall (fun h => 0 <= h <= height) l.
Proof.
  revert len height step. induction fuel as [|fuel IH]; intros len height step Hh Hs Hl He Hf; [lia|]. cbn [locator_loop]. cbn zeta.
  destruct (Z.eqb_spec (len + 1) MAX_LOCATOR_HASHES) as [E1|E1], (Z.eqb_spec height 0) as [->|E2]; cbn [andb negb].
  1-3: split_and!; cbn; [lia|lia|done|intros; first [done|lia]|repeat constructor|repeat constructor; lia].
  set (step' := if len + 1 >=? 10 then U64_saturating_mul step 2 else step).
  assert (1 <= step' <= U64_MAX) as Hs' by (unfold step', U64_saturating_mul; destruct (_ >=? _); lia).
  destruct (IH (len + 1) (saturating_sub height step') step') as (L & HL & _ & HS & HF); [unfold saturating_sub; lia|done|lia|lia|lia|].
  split_and!; cbn [length]; [lia|lia| |done| |].
  - rewrite last_cons. by rewrite HL.
  - constructor; [done|]. eapply Forall_impl; [exact HF|]. unfold saturating_sub. cbn. intros x Hx. lia.
  - constructor; [lia|]. eapply Forall_impl; [exact HF|]. unfold saturating_sub. cbn. intros x Hx. lia.
Qed.

Lemma locator_heights_spec tip :
  0 <= tip -> let l := locator_heights tip in
  (1 <= length l <= 64)%nat /\ last l = Some 0 /\ head l = Some tip /\ StronglySorted Z.gt l /\ Forall (fun h => 0 <= h <= tip) l.
Proof.
  intros Ht. destruct (locator_loop_spec (Z.to_nat MAX_LOCATOR_HASHES) 0 tip 1 Ht) as (A & B & C & D & E); [done|lia|done|unfold MAX_LOCATOR_HASHES; lia|].
  split_and!; [apply A|apply A|done|by apply C|done|done].
Qed.

(** The ten newest heights are all in it. *)
Lemma locator_loop_recent fuel len height :
  0 <= len -> len + Z.of_nat fuel = MAX_LOCATOR_HASHES ->
  forall i, 0 <= i -> len + i < 10 -> i <= height -> height - i ∈ locator_loop fuel len height 1.
Proof.
  revert len height. induction fuel as [|fuel IH]; intros len height Hl He i Hi H10 Hh; [unfold MAX_LOCATOR_HASHES in *; lia|].
  cbn [locator_loop]. destruct (Z.eqb_spec (len + 1) MAX_LOCATOR_HASHES) as [E1|E1]; [unfold MAX_LOCATOR_HASHES in *; lia|]. cbn [andb].
  destruct (Z.eqb_spec height 0) as [->|E2]; [assert (i = 0) as -> by lia; by left|].
  destruct (Z.eq_dec i 0) as [->|Hne]; [rewrite Z.sub_0_r; by left|]. right.
  destruct (Z.geb_spec (len + 1) 10); [lia|]. unfold saturating_sub. rewrite Z.max_r by lia.
  replace (height - i) with (height - 1 - (i - 1)) by lia. apply IH; lia.
Qed.

(** ** What the responder finds *)

(** [best] is a hit, and no hit among the pairs seen is higher. *)
Definition hit_ok (seen : list (Hash256 * (Z * Hash256))) (best : option (Z * Hash256)) : Prop :=
  match best with
  | Some b => (b.2, b) ∈ seen /\ forall l p, (l, p) ∈ seen -> l = p.2 -> p.1 <= b.1
  | None => forall l p, (l, p) ∈ seen -> l <> p.2
  end.

Lemma better_hit_ok seen best l p : hit_ok seen best -> hit_ok (seen ++ [(l, p)]) (better_hit l best p).
Proof.
  intros Hok. unfold better_hit. destruct (bool_decide_reflect (l = p.2)) as [->|Hne]; cbn [andb].
  - destruct best as [b|]; [destruct Hok as [Hb Hm]; destruct (p.1 >? b.1) eqn:E|].
    + split; [set_solver|]. intros l' p' [Hin|[= -> ->]%list_elem_of_singleton]%elem_of_app Hl; [specialize (Hm _ _ Hin Hl); lia|lia].
    + split; [set_solver|]. intros l' p' [Hin|[= -> ->]%list_elem_of_singleton]%elem_of_app Hl; [by eapply Hm|lia].
    + split; [set_solver|]. intros l' p' [Hin|[= -> ->]%list_elem_of_singleton]%elem_of_app Hl; [by destruct (Hok _ _ Hin)|lia].
  - destruct best as [b|].
    + destruct Hok as [Hb Hm]. split; [set_solver|]. intros l' p' [Hin|[= -> ->]%list_elem_of_singleton]%elem_of_app Hl; [by eapply Hm|done].
    + intros l' p' [Hin|[= -> ->]%list_elem_of_singleton]%elem_of_app; [by eapply Hok|done].
Qed.

Lemma better_hits_ok l path seen best :
  hit_ok seen best -> hit_ok (seen ++ map (pair l) path) (foldl (better_hit l) best path).
Proof.
  revert seen best. induction path as [|p path IH]; intros seen best Hok; cbn [map foldl]; [by rewrite app_nil_r|].
  change (pair l p :: map (pair l) path) with ([(l, p)] ++ map (pair l) path). rewrite app_assoc. by apply IH, better_hit_ok.
Qed.

Lemma highest_hit_ok locator path : hit_ok (flat_map (fun l => map (pair l) path) locator) (highest_locator_hit locator path).
Proof.
  unfold highest_locator_hit.
  assert (forall seen best, hit_ok seen best ->
    hit_ok (seen ++ flat_map (fun l => map (pair l) path) locator)
      (foldl (fun best l => foldl (better_hit l) best path) best locator)) as HG; [|apply (HG [] None); by intros ? ? ?%not_elem_of_nil].
  induction locator as [|l locator IH]; intros seen best Hok; cbn [flat_map foldl]; [by rewrite app_nil_r|].
  rewrite app_assoc. by apply IH, better_hits_ok.
Qed.

Lemma elem_of_pairs (locator : list Hash256) (path : list (Z * Hash256)) l p :
  (l, p) ∈ flat_map (fun l => map (pair l) path) locator <-> l ∈ locator /\ p ∈ path.
Proof.
  rewrite list_elem_of_In, in_flat_map. setoid_rewrite in_map_iff. setoid_rewrite <- list_elem_of_In. split.
  - intros (l' & Hl & p' & [= -> ->] & Hp). done.
  - intros [Hl Hp]. exists l. split; [done|]. by exists p.
Qed.

Lemma highest_locator_hit_spec locator path :
  match highest_locator_hit locator path with
  | Some b => b ∈ path /\ b.2 ∈ locator /\ forall p, p ∈ path -> p.2 ∈ locator -> p.1 <= b.1
  | None => forall p, p ∈ path -> p.2 ∉ locator
  end.
Proof.
  pose proof (highest_hit_ok locator path) as Hok. destruct (highest_locator_hit locator path) as [b|].
  - destruct Hok as [[Hl Hp]%elem_of_pairs Hm]. split_and!; [done|done|]. intros p Hp' Hl'. apply (Hm p.2 p); [by apply elem_of_pairs|done].
  - intros p Hp Hl. by apply (Hok p.2 p); [apply elem_of_pairs|].
Qed.

(** ** Views of two chains *)

Section Views.
Context `{Blake3}.

(** Block ids of a chain of headers, the anchor first. *)
Definition ids (c : list BlockHeader) : list Hash256 := map block_id c.

(** The view answers from an active chain and a preferred chain of headers,
    which start at the same anchor. *)
Record serves (V : ChainSyncView) (active preferred : list BlockHeader) (retained : Hash256 -> bool) : Prop := MkServes {
  sv_active_tip : exists id, view_active_tip = Ok (MkSyncTip id (Z.of_nat (length active) - 1));
  sv_preferred_tip : exists id, view_preferred_header_tip = Ok (MkSyncTip id (Z.of_nat (length preferred) - 1));
  sv_active_id n : Z.of_nat n <= U64_MAX -> view_active_id_at_height (Z.of_nat n) = Ok (ids active !! n);
  sv_preferred_id n : view_preferred_header_id_at_height (Z.of_nat n) = Ok (ids preferred !! n);
  sv_preferred_header n : view_preferred_header_at_height (Z.of_nat n) = Ok (preferred !! n);
  sv_retained id : view_body_retained id = Ok (retained id);
  sv_anchor : exists g, head (ids active) = Some g /\ head (ids preferred) = Some g;
  sv_bound : Z.of_nat (length preferred) <= U64_MAX;
}.

Definition path_of (c : list BlockHeader) : list (Z * Hash256) := imap (fun n h => (Z.of_nat n, block_id h)) c.

Lemma elem_of_path c h id : (h, id) ∈ path_of c <-> 0 <= h /\ ids c !! Z.to_nat h = Some id.
Proof.
  unfold path_of, ids. rewrite elem_of_lookup_imap, list_lookup_fmap. split.
  - intros (n & x & [= -> ->] & Hx). rewrite Nat2Z.id, Hx. split; [lia|done].
  - intros [Hh Hid]. destruct (c !! Z.to_nat h) as [x|] eqn:E; [|done]. exists (Z.to_nat h), x.
    rewrite Z2Nat.id by done. split; [|done]. cbn in Hid. congruence.
Qed.

Lemma length_ids c : length (ids c) = length c.
Proof. apply length_map. Qed.

(** The preferred chain is not empty. *)
Lemma serves_nonempty V a p r : serves V a p r -> (0 < length a)%nat /\ (0 < length p)%nat.
Proof. intros [_ _ _ _ _ _ (g & Ha & Hp) _]. destruct a, p; cbn in *; try done. lia. Qed.

(** *** Locators *)

Lemma try_map_lookup {A} (f : Z -> result SyncViewError.t A) l (g : Z -> option A) :
  (forall h, h ∈ l -> exists a, f h = Ok a /\ g h = Some a) ->
  exists out, try_map f l = Ok out /\ Forall2 (fun h a => g h = Some a) l out.
Proof.
  induction l as [|h l IH]; intros Hf; [by exists []|]. destruct (Hf h) as (a & Ha & Hg); [by left|].
  destruct IH as (out & Ho & HF); [intros; apply Hf; by right|]. exists (a :: out). cbn. rewrite Ha, Ho. split; [done|by constructor].
Qed.

Lemma build_locator_spec V a p r stop :
  serves V a p r -> exists locator, build_locator (V := V) stop = Ok (MkGetHeaders locator stop) /\
    Forall2 (fun h id => ids p !! Z.to_nat h = Some id) (locator_heights (Z.of_nat (length p) - 1)) locator.
Proof.
  intros S. pose proof (serves_nonempty _ _ _ _ S) as [_ Hp]. destruct S as [_ (tid & Ht) _ Hid _ _ _ _].
  unfold build_locator. rewrite Ht. cbn [tip_height].
  destruct (locator_heights_spec (Z.of_nat (length p) - 1) ltac:(lia)) as (_ & _ & _ & _ & HF).
  destruct (try_map_lookup (fun height => let? id := view_preferred_header_id_at_height height in ok_or id SyncViewError.Unavailable)
    (locator_heights (Z.of_nat (length p) - 1)) (fun h => ids p !! Z.to_nat h)) as (out & Ho & HF2).
  { intros h Hh. rewrite Forall_forall in HF. specialize (HF h Hh). cbn in HF.
    destruct (lookup_lt_is_Some_2 (ids p) (Z.to_nat h)) as [id Hi]; [rewrite length_ids; lia|]. exists id.
    rewrite <- (Z2Nat.id h) at 1 by lia. rewrite Hid, Hi. done. }
  exists out. by rewrite Ho.
Qed.

(** Its anchor is in every locator. *)
Lemma locator_has_anchor V a p r stop g req :
  serves V a p r -> head (ids p) = Some g -> build_locator (V := V) stop = Ok req -> g ∈ locator req /\ (length (locator req) <= 64)%nat.
Proof.
  intros S Hg Hreq. pose proof (serves_nonempty _ _ _ _ S) as [_ Hp]. destruct (build_locator_spec V a p r stop S) as (l & Hl & HF).
  rewrite Hl in Hreq. injection Hreq as <-. cbn [locator].
  destruct (locator_heights_spec (Z.of_nat (length p) - 1) ltac:(lia)) as (HL & Hlast & _).
  split; [|rewrite <- (Forall2_length _ _ _ HF); lia].
  apply last_Some in Hlast as (init & Hlast). rewrite Hlast in HF. apply Forall2_app_inv_l in HF as (l1 & l2 & _ & HF & ->).
  inversion HF as [|? id ? ? Hid HF']; subst. change (Z.to_nat 0) with 0%nat in Hid. rewrite <- head_lookup, Hg in Hid. injection Hid as ->. set_solver.
Qed.

(** *** Header responses *)

Lemma headers_loop_spec V a p r fuel n :
  serves V a p r ->
  headers_loop (V := V) fuel (Z.of_nat n) (Z.of_nat (length p) - 1) None = Ok (take fuel (drop n p)).
Proof.
  intros SV. revert n. induction fuel as [|fuel IH]; intros n; cbn [headers_loop]; [by rewrite take_0|].
  destruct (Z.leb_spec (Z.of_nat n) (Z.of_nat (length p) - 1)) as [Hle|Hgt].
  - rewrite (sv_preferred_header _ _ _ _ SV). destruct (p !! n) as [h|] eqn:Eh; [cbn|apply lookup_ge_None in Eh; lia].
    pose proof (sv_bound _ _ _ _ SV). unfold saturating_add. rewrite Z.min_r by lia.
    replace (Z.of_nat n + 1) with (Z.of_nat (S n)) by lia. rewrite IH. by rewrite (drop_S p h n Eh).
  - rewrite drop_ge by lia. by rewrite take_nil.
Qed.

Lemma contiguous_take n c : contiguous c = true -> contiguous (take n c) = true.
Proof.
  revert n. induction c as [|x [|y c] IH]; intros [|[|n]]; try done.
  cbn [contiguous take]. rewrite !andb_true_iff. intros [H1 H2]. split; [done|]. by apply (IH (S n)).
Qed.

Lemma contiguous_drop n c : contiguous c = true -> contiguous (drop n c) = true.
Proof.
  revert c. induction n as [|n IH]; intros [|x [|y c]]; try done; cbn [contiguous drop]; [by rewrite drop_nil|].
  rewrite !andb_true_iff. intros [_ H2]. by apply IH.
Qed.

Lemma contiguous_next c n x y : contiguous c = true -> c !! n = Some x -> c !! S n = Some y -> previous_block y = block_id x.
Proof.
  revert c. induction n as [|n IH]; intros [|a [|b c]] Hc Hx Hy; try done.
  - cbn in Hc, Hx, Hy. apply andb_true_iff in Hc as [Hc _]. simplify_eq. by apply bool_decide_eq_true_1 in Hc.
  - cbn [contiguous] in Hc. apply andb_true_iff in Hc as [_ Hc]. by apply (IH (b :: c)).
Qed.

(** C28: one round of header synchronisation.  For any two nodes on the same
    anchor, the first one's locator has at most 64 entries; the second finds
    in it the highest block of its own preferred chain it mentions, and
    answers with the 128 headers after that block, or all of them when fewer
    are left; the first accepts the answer, and it is empty only if the
    second has nothing after that block. *)
Theorem header_sync_round VA a pa ra VB b pb rb :
  serves VA a pa ra -> serves VB b pb rb -> head (ids pa) = head (ids pb) -> contiguous pb = true ->
  exists req h id headers,
    build_locator (V := VA) None = Ok req /\ (length (locator req) <= 64)%nat /\
    highest_locator_hit (locator req) (path_of pb) = Some (h, id) /\
    id ∈ ids pa /\ ids pb !! Z.to_nat h = Some id /\
    (forall h' id', ids pb !! h' = Some id' -> id' ∈ locator req -> Z.of_nat h' <= h) /\
    headers_after_common_height (V := VB) h None = Ok headers /\
    headers = take (Z.to_nat MAX_HEADERS_PER_MESSAGE) (drop (S (Z.to_nat h)) pb) /\
    validate_headers_response id headers = Ok tt /\
    (headers = [] <-> h = Z.of_nat (length pb) - 1).
Proof.
  intros SA SB Hg Hc. destruct (sv_anchor _ _ _ _ SB) as (g & _ & Hgb). destruct (build_locator_spec VA a pa ra None SA) as (l & Hl & HF).
  destruct (locator_has_anchor VA a pa ra None g _ SA ltac:(congruence) Hl) as [Hin HL]. cbn [locator] in Hin, HL.
  pose proof (highest_locator_hit_spec l (path_of pb)) as Hs. pose proof (serves_nonempty _ _ _ _ SB) as [_ Hpb].
  destruct (highest_locator_hit l (path_of pb)) as [[h id]|] eqn:Eh.
  2:{ destruct (Hs (0, g)); [|done]. apply elem_of_path. split; [done|]. change (Z.to_nat 0) with 0%nat. by rewrite <- head_lookup. }
  destruct Hs as (Hp & Hid & Hmax). cbn [fst snd] in *. apply elem_of_path in Hp as [Hh0 Hp].
  pose proof (lookup_lt_Some _ _ _ Hp) as Hlt. rewrite length_ids in Hlt.
  exists (MkGetHeaders l None), h, id, (take (Z.to_nat MAX_HEADERS_PER_MESSAGE) (drop (S (Z.to_nat h)) pb)). cbn [locator].
  split_and!; [done|done|done| |done| | |done| |].
  - apply list_elem_of_lookup in Hid as [i Hi]. destruct (Forall2_lookup_r _ _ _ _ _ HF Hi) as (k & _ & Hk). by eapply list_elem_of_lookup_2.
  - intros h' id' Hh' Hin'. apply (Hmax (Z.of_nat h', id')); [|done]. apply elem_of_path. rewrite Nat2Z.id. split; [lia|done].
  - unfold headers_after_common_height. destruct (sv_preferred_tip _ _ _ _ SB) as (tid & ->). cbn [tip_height].
    destruct (Z.geb_spec h (Z.of_nat (length pb) - 1)) as [Hge|Hlt']; [by rewrite drop_ge, take_nil by lia|].
    pose proof (sv_bound _ _ _ _ SB). unfold saturating_add. rewrite Z.min_r by lia.
    replace (h + 1) with (Z.of_nat (S (Z.to_nat h))) by lia. by apply (headers_loop_spec VB b pb rb).
  - unfold validate_headers_response. rewrite length_take.
    destruct (_ >? MAX_HEADERS_PER_MESSAGE) eqn:Eg; [rewrite Z.gtb_lt in Eg; unfold MAX_HEADERS_PER_MESSAGE in Eg; lia|].
    destruct (take _ (drop (S (Z.to_nat h)) pb)) as [|y rest] eqn:Et; [done|].
    assert (pb !! S (Z.to_nat h) = Some y) as Hy.
    { rewrite <- (Nat.add_0_r (S (Z.to_nat h))), <- lookup_drop. apply (f_equal (fun l => l !! 0%nat)) in Et.
      rewrite lookup_take_lt in Et by (unfold MAX_HEADERS_PER_MESSAGE; lia). exact Et. }
    unfold ids in Hp. rewrite list_lookup_fmap in Hp. destruct (pb !! Z.to_nat h) as [x|] eqn:Ex; [|done]. injection Hp as <-.
    rewrite bool_decide_true by by eapply contiguous_next. cbn [negb].
    rewrite <- Et, contiguous_take by by apply contiguous_drop. done.
  - split.
    + intros Hn. apply (f_equal length) in Hn. rewrite length_take, length_drop in Hn. unfold MAX_HEADERS_PER_MESSAGE in Hn. cbn in Hn. lia.
    + intros Hh. by rewrite drop_ge, take_nil by lia.
Qed.

(** *** Blocks to download *)

(** [n] is the last height at which the two chains have the same block. *)
Definition forks_after (a p : list BlockHeader) (n : nat) : Prop :=
  (exists id, ids a !! n = Some id /\ ids p !! n = Some id) /\
  forall m id id', (n < m)%nat -> ids a !! m = Some id -> ids p !! m = Some id' -> id <> id'.

Lemma common_loop_spec V a p r n :
  serves V a p r -> (n < length a)%nat -> (n < length p)%nat ->
  (forall m id id', (n < m)%nat -> ids a !! m = Some id -> ids p !! m = Some id' -> id <> id') ->
  exists c, common_loop (V := V) n = Ok (Z.of_nat c) /\ forks_after a p c.
Proof.
  intros SV. induction n as [|n IH]; intros Ha Hp Hd; cbn [common_loop];
    (rewrite (sv_active_id _ _ _ _ SV) by (pose proof (sv_bound _ _ _ _ SV); lia)); rewrite (sv_preferred_id _ _ _ _ SV).
  - destruct (sv_anchor _ _ _ _ SV) as (g & Hga & Hgp). rewrite head_lookup in Hga, Hgp. rewrite Hga, Hgp. cbn.
    rewrite bool_decide_true by done. exists 0%nat. split; [done|]. split; [by exists g|done].
  - destruct (lookup_lt_is_Some_2 (ids a) (S n)) as [x Hx]; [by rewrite length_ids|].
    destruct (lookup_lt_is_Some_2 (ids p) (S n)) as [y Hy]; [by rewrite length_ids|]. rewrite Hx, Hy. cbn [ok_or].
    destruct (bool_decide_reflect (x = y)) as [->|Hne]; [exists (S n); split; [done|split; [by exists y|done]]|].
    apply IH; [lia..|]. intros m id id' Hm Hi Hi'. destruct (decide (m = S n)) as [->|]; [congruence|]. apply (Hd m); [lia|done..].
Qed.

Lemma missing_loop_spec V a p r n k :
  serves V a p r -> (k + n <= length p)%nat ->
  missing_loop (V := V) n (Z.of_nat k) = Ok (filter (fun id => r id = false) (take n (drop k (ids p)))).
Proof.
  intros SV. revert k. induction n as [|n IH]; intros k Hk; cbn [missing_loop]; [by rewrite take_0|].
  rewrite (sv_preferred_id _ _ _ _ SV). destruct (lookup_lt_is_Some_2 (ids p) k) as [x Hx]; [rewrite length_ids; lia|].
  rewrite Hx. cbn [ok_or]. rewrite (sv_retained _ _ _ _ SV). replace (Z.of_nat k + 1) with (Z.of_nat (S k)) by lia. rewrite IH by lia.
  rewrite (drop_S _ x k Hx). cbn [take]. destruct (r x) eqn:Er; [by rewrite filter_cons_False by congruence|by rewrite filter_cons_True].
Qed.

(** Exactly the missing blocks of the preferred chain are downloaded.  On any
    view, the last height the active and the preferred chain share is found,
    and the targets are the blocks of the preferred chain above it whose
    bodies are not retained, in the order of the chain, lowest first. *)
Theorem download_targets_exact V active preferred retained :
  serves V active preferred retained ->
  exists n, find_common_height (V := V) = Ok (Z.of_nat n) /\ forks_after active preferred n /\
    missing_body_targets (V := V) = Ok (filter (fun id => retained id = false) (drop (S n) (ids preferred))).
Proof.
  intros SV. pose proof (serves_nonempty _ _ _ _ SV) as [Ha Hp]. unfold missing_body_targets, find_common_height.
  destruct (sv_active_tip _ _ _ _ SV) as (ta & ->). destruct (sv_preferred_tip _ _ _ _ SV) as (tp & ->). cbn [tip_height].
  destruct (common_loop_spec V active preferred retained
    (Z.to_nat (Z.min (Z.of_nat (length active) - 1) (Z.of_nat (length preferred) - 1))) SV) as (n & -> & Hf); [lia..| |].
  { intros m id id' Hm Hi%lookup_lt_Some Hi'%lookup_lt_Some. rewrite length_ids in *. lia. }
  exists n. split; [done|]. split; [done|]. destruct Hf as [(id & _ & Hid) _]. apply lookup_lt_Some in Hid. rewrite length_ids in Hid.
  destruct (Z.geb_spec (Z.of_nat n) (Z.of_nat (length preferred) - 1)) as [Hge|Hlt]; [by rewrite drop_ge by (rewrite length_ids; lia)|].
  replace (Z.of_nat n + 1) with (Z.of_nat (S n)) by lia. rewrite (missing_loop_spec V active preferred retained) by (done || lia).
  f_equal. f_equal. apply take_ge. rewrite length_drop, length_ids. lia.
Qed.

End Views.

(** A view that answers from two lists of headers. *)
Definition view_of `{Blake3} (active preferred : list BlockHeader) (retained : Hash256 -> bool) : ChainSyncView := {|
  view_active_tip := Ok (MkSyncTip (default (arr_fill 32 x00) (last (ids active))) (Z.of_nat (length active) - 1));
  view_preferred_header_tip := Ok (MkSyncTip (default (arr_fill 32 x00) (last (ids preferred))) (Z.of_nat (length preferred) - 1));
  view_active_id_at_height h := Ok (ids active !! Z.to_nat h);
  view_preferred_header_id_at_height h := Ok (ids preferred !! Z.to_nat h);
  view_preferred_header_at_height h := Ok (preferred !! Z.to_nat h);
  view_body_retained id := Ok (retained id);
|}.

Lemma view_of_serves `{Blake3} a p r :
  head (ids a) = head (ids p) -> is_Some (head (ids a)) -> Z.of_nat (length p) <= U64_MAX -> serves (view_of a p r) a p r.
Proof.
  intros Hh [g Hg] Hb. constructor; try (intros; cbn; rewrite ?Nat2Z.id; done); [cbn; eauto..| ].
  exists g. by rewrite <- Hh.
Qed.

(** Chains of headers, each on the one before. *)
Fixpoint demo_chain `{Blake3} (previous : Hash256) (nonces : list Z) : list BlockHeader :=
  match nonces with
  | [] => []
  | n :: nonces =>
      let h := MkBlockHeader 1 previous (arr_fill 32 x05) (1700000000 + n) (arr_fill 32 xff) n in
      h :: demo_chain (block_id h) nonces
  end.

Definition demo_headers (nonces : list Z) : list BlockHeader := demo_chain (H := demo_blake3) (arr_fill 32 x00) nonces.

Lemma demo_serves a p r :
  head (ids (H := demo_blake3) (demo_headers (0 :: a))) = head (ids (H := demo_blake3) (demo_headers (0 :: p))) /\
  (Z.of_nat (length (demo_headers (0 :: p))) <= U64_MAX ->
   serves (H := demo_blake3) (view_of (H := demo_blake3) (demo_headers (0 :: a)) (demo_headers (0 :: p)) r)
     (demo_headers (0 :: a)) (demo_headers (0 :: p)) r).
Proof. split; [done|]. intros Hl. apply view_of_serves; [done|by eexists|done]. Qed.

Definition demo_theirs : list BlockHeader := demo_headers [0; 1; 2; 3; 4].

Lemma header_sync_round_witness :
  exists req h id headers,
    build_locator (V := view_of (H := demo_blake3) (demo_headers [0; 1]) (demo_headers [0; 1; 9]) (fun _ => false)) None = Ok req /\
    highest_locator_hit (locator req) (path_of (H := demo_blake3) demo_theirs) = Some (h, id) /\
    validate_headers_response (H := demo_blake3) id headers = Ok tt.
Proof.
  destruct (header_sync_round (H := demo_blake3) _ _ _ _ _ _ _ _
    (proj2 (demo_serves [1] [1; 9] (fun _ => false)) ltac:(by vm_compute))
    (proj2 (demo_serves [] [1; 2; 3; 4] (fun _ => false)) ltac:(by vm_compute)) ltac:(reflexivity) ltac:(by vm_compute))
    as (req & h & id & headers & H1 & _ & H3 & _ & _ & _ & _ & _ & H9 & _).
  exists req, h, id, headers. split; [exact H1|]. split; [exact H3|exact H9].
Defined.

Lemma download_targets_exact_witness :
  exists n, find_common_height (V := view_of (H := demo_blake3) (demo_headers [0; 1; 9]) demo_theirs (fun _ => false)) = Ok (Z.of_nat n).
Proof.
  destruct (download_targets_exact (H := demo_blake3) _ _ _ _ (proj2 (demo_serves [1; 9] [1; 2; 3; 4] (fun _ => false)) ltac:(by vm_compute)))
    as (n & Hn & _). exists n. exact Hn.
Defined.
