(* ===== verification/Scheduler.v ===== *)
(** [oregon-sync/scheduler.rs]: which block is asked of which peer, and in which
    order the answers are handed on. *)
From S2P Require Import Prelude Encoding Transaction Block Layout MapSum Protocol Framing PeerPolicy PeerBudget Handshake PeerService Sync.

Definition MAX_IN_FLIGHT_BLOCKS_GLOBAL : nat := 32.
Definition MAX_IN_FLIGHT_BLOCKS_PEER : Z := 8.
Definition MAX_BUFFERED_BLOCKS : nat := 32.
Definition MAX_BLOCK_ATTEMPTS : Z := 3.

Record SyncPeer : Type := MkSyncPeer {
  sp_peer_id : PeerId;
  block_relay : bool;
  sync_eligible : bool;
  sp_performance : PerformanceSnapshot;
}.

Record BufferedBlock : Type := MkBuffered { bb_source : PeerId; bb_block : Block }.

Inductive SyncAction : Type :=
| SendGetHeaders (peer_id : PeerId) (request : GetHeaders)
| RequestBlock (peer_id : PeerId) (id : Hash256)
| SubmitBlock (source : PeerId) (block : Block)
| Stalled (id : Hash256).

Record BlockScheduler : Type := MkScheduler {
  targets : list Hash256;
  target_index : gmap Hash256 nat;
  next_submit : nat;
  in_flight : gmap Hash256 PeerId;
  in_flight_per_peer : gmap PeerId Z;
  attempt_counts : gmap Hash256 Z;
  buffered : gmap Hash256 BufferedBlock;
  stalled : gset Hash256;
}.

Fixpoint index_targets (i : nat) (l : list Hash256) (m : gmap Hash256 nat) : result SyncError.t (gmap Hash256 nat) :=
  match l with
  | [] => Ok m
  | id :: l => if bool_decide (m !! id = None) then index_targets (S i) l (<[id := i]> m) else Err (SyncError.DuplicateTarget id)
  end.

Definition BlockScheduler_new (targets : list Hash256) : result SyncError.t BlockScheduler :=
  let? index := index_targets 0 targets ∅ in
  Ok (MkScheduler targets index 0 ∅ ∅ ∅ ∅ ∅).

Definition in_flight_for_peer (p : PeerId) (s : BlockScheduler) : Z := default 0 (in_flight_per_peer s !! p).
Definition attempts (id : Hash256) (s : BlockScheduler) : Z := default 0 (attempt_counts s !! id).
Definition is_complete (s : BlockScheduler) : bool := (next_submit s =? length (targets s))%nat.

(** The order of [sort_by_key]. *)
Definition peer_le (a b : SyncPeer) : Prop :=
  let pa := sp_performance a in let pb := sp_performance b in
  timeout_count pa < timeout_count pb \/ timeout_count pa = timeout_count pb /\
  (average_response_latency_ms pa < average_response_latency_ms pb \/
   average_response_latency_ms pa = average_response_latency_ms pb /\ sp_peer_id a <= sp_peer_id b).

#[global] Instance peer_le_dec a b : Decision (peer_le a b).
Proof. unfold peer_le. apply _. Defined.

Definition eligible_peers (peers : list SyncPeer) : list SyncPeer :=
  merge_sort peer_le (filter (fun p => block_relay p && sync_eligible p = true) peers).

(** A target no longer wanted from the peers. *)
Definition skip_target (id : Hash256) (s : BlockScheduler) : bool :=
  bool_decide (is_Some (in_flight s !! id)) || bool_decide (is_Some (buffered s !! id)) || bool_decide (id ∈ stalled s)
  || match attempt_counts s !! id with Some n => n >=? MAX_BLOCK_ATTEMPTS | None => false end.

Definition assign (id : Hash256) (p : PeerId) (s : BlockScheduler) : BlockScheduler :=
  MkScheduler (targets s) (target_index s) (next_submit s) (<[id := p]> (in_flight s))
    (<[p := in_flight_for_peer p s + 1]> (in_flight_per_peer s)) (<[id := attempts id s + 1]> (attempt_counts s)) (buffered s) (stalled s).

(** The loop of [schedule], over the targets from [next_submit] on. *)
Fixpoint schedule_loop (eligible : list SyncPeer) (l : list Hash256) (s : BlockScheduler) : list SyncAction * BlockScheduler :=
  match l with
  | [] => ([], s)
  | id :: l =>
      if (MAX_IN_FLIGHT_BLOCKS_GLOBAL <=? size (in_flight s))%nat then ([], s)
      else if skip_target id s then schedule_loop eligible l s
      else match find (fun p => in_flight_for_peer (sp_peer_id p) s <? MAX_IN_FLIGHT_BLOCKS_PEER) eligible with
      | None => ([], s)
      | Some p =>
          let '(actions, s) := schedule_loop eligible l (assign id (sp_peer_id p) s) in
          (RequestBlock (sp_peer_id p) id :: actions, s)
      end
  end.

Definition schedule (peers : list SyncPeer) (s : BlockScheduler) : list SyncAction * BlockScheduler :=
  let eligible := eligible_peers peers in
  match eligible with
  | [] => ([], s)
  | _ => schedule_loop eligible (drop (next_submit s) (targets s)) s
  end.

Definition release_block (id : Hash256) (p : PeerId) (s : BlockScheduler) : BlockScheduler :=
  let per_peer :=
    match in_flight_per_peer s !! p with
    | Some count =>
        let count := saturating_sub count 1 in
        if count =? 0 then delete p (in_flight_per_peer s) else <[p := count]> (in_flight_per_peer s)
    | None => in_flight_per_peer s
    end in
  MkScheduler (targets s) (target_index s) (next_submit s) (delete id (in_flight s)) per_peer (attempt_counts s) (buffered s) (stalled s).

Definition with_stalled (s : BlockScheduler) (m : gset Hash256) : BlockScheduler :=
  MkScheduler (targets s) (target_index s) (next_submit s) (in_flight s) (in_flight_per_peer s) (attempt_counts s) (buffered s) m.

Definition on_timeout (p : PeerId) (id : Hash256) (s : BlockScheduler) : list SyncAction * BlockScheduler :=
  match in_flight s !! id with
  | None => ([], s)
  | Some owner =>
      if negb (owner =? p) then ([], s)
      else
        let s := release_block id p s in
        if (attempts id s >=? MAX_BLOCK_ATTEMPTS) && bool_decide (id ∉ stalled s)
        then ([Stalled id], with_stalled s ({[id]} ∪ stalled s))
        else ([], s)
  end.

Definition with_buffer (s : BlockScheduler) (n : nat) (m : gmap Hash256 BufferedBlock) : BlockScheduler :=
  MkScheduler (targets s) (target_index s) n (in_flight s) (in_flight_per_peer s) (attempt_counts s) m (stalled s).

(** The loop that hands the buffered blocks on, over the targets from [next_submit] on. *)
Fixpoint submit_loop (l : list Hash256) (s : BlockScheduler) : list SyncAction * BlockScheduler :=
  match l with
  | [] => ([], s)
  | expected :: l =>
      match buffered s !! expected with
      | None => ([], s)
      | Some b =>
          let '(actions, s) := submit_loop l (with_buffer s (S (next_submit s)) (delete expected (buffered s))) in
          (SubmitBlock (bb_source b) (bb_block b) :: actions, s)
      end
  end.

Definition on_block `{Blake3} (p : PeerId) (block : Block) : eff BlockScheduler SyncError.t (list SyncAction) := fun s =>
  let id := block_id (header block) in
  let unexpected := Err (SyncError.UnexpectedBlock p id) in
  match in_flight s !! id with
  | None => (unexpected, s)
  | Some owner =>
      if negb (owner =? p) then (unexpected, s)
      else
        let s := release_block id p s in
        match target_index s !! id with
        | None => (unexpected, s)
        | Some index =>
            if (index <? next_submit s)%nat then (unexpected, s)
            else if (MAX_BUFFERED_BLOCKS <=? size (buffered s))%nat then (Err SyncError.BufferFull, s)
            else
              let s := with_buffer s (next_submit s) (<[id := MkBuffered p block]> (buffered s)) in
              let '(actions, s) := submit_loop (drop (next_submit s) (targets s)) s in
              (Ok actions, s)
        end
  end.

(** ** The scheduler's invariant *)

Section Invariant.
Context `{Blake3}.

Definition is_owner (p : PeerId) (_ : Hash256) (q : PeerId) : Z := if q =? p then 1 else 0.

(** A target that is still to be handed on. *)
Definition waiting (s : BlockScheduler) (id : Hash256) : Prop := exists i, targets s !! i = Some id /\ (next_submit s <= i)%nat.

Record scheduler_ok (s : BlockScheduler) : Prop := MkSchedulerOk {
  so_nodup : NoDup (targets s);
  so_index id i : target_index s !! id = Some i <-> targets s !! i = Some id;
  so_next : (next_submit s <= length (targets s))%nat;
  so_flight id : is_Some (in_flight s !! id) -> waiting s id /\ buffered s !! id = None /\ 1 <= attempts id s /\ id ∉ stalled s;
  so_flight_cap : (size (in_flight s) <= MAX_IN_FLIGHT_BLOCKS_GLOBAL)%nat;
  so_per_peer p : in_flight_for_peer p s = msum (is_owner p) (in_flight s);
  so_peer_cap p : in_flight_for_peer p s <= MAX_IN_FLIGHT_BLOCKS_PEER;
  so_buffer id b : buffered s !! id = Some b -> waiting s id /\ block_id (header (bb_block b)) = id;
  so_buffer_cap : (size (buffered s) <= MAX_BUFFERED_BLOCKS)%nat;
  so_attempts id : 0 <= attempts id s <= MAX_BLOCK_ATTEMPTS;
}.

(** The next block to hand on has not arrived. *)
Definition head_missing (s : BlockScheduler) : Prop :=
  forall id, targets s !! next_submit s = Some id -> buffered s !! id = None.

Lemma is_owner_nonneg p id q : 0 <= is_owner p id q.
Proof. unfold is_owner. destruct (_ =? _); lia. Qed.

Lemma index_targets_spec l i m m' (done_l : list Hash256) :
  i = length done_l -> NoDup done_l -> (forall id k, m !! id = Some k <-> done_l !! k = Some id) ->
  index_targets i l m = Ok m' -> NoDup (done_l ++ l) /\ forall id k, m' !! id = Some k <-> (done_l ++ l) !! k = Some id.
Proof.
  revert i m done_l. induction l as [|x l IH]; intros i m done_l Hi HN HM; cbn [index_targets].
  { intros [= <-]. by rewrite app_nil_r. }
  destruct (bool_decide_reflect (m !! x = None)) as [Hx|Hx]; [|done].
  assert (x ∉ done_l) as Hnot. { intros [k Hk]%list_elem_of_lookup. apply HM in Hk. congruence. }
  intros HR. apply (IH (S i) (<[x := i]> m) (done_l ++ [x])) in HR; [by rewrite <- app_assoc in HR|..].
  - rewrite length_app. cbn. lia.
  - apply NoDup_app. split_and!; [done| |apply NoDup_singleton]. by intros y Hy ->%list_elem_of_singleton.
  - intros id k. destruct (decide (id = x)) as [->|Hne].
    + rewrite lookup_insert_eq. split; [intros [= <-]; by rewrite lookup_app_r, Hi, Nat.sub_diag by lia|].
      intros Hk. f_equal. destruct (decide (k < length done_l)%nat) as [Hlt|Hge].
      * rewrite lookup_app_l in Hk by done. by apply list_elem_of_lookup_2 in Hk.
      * rewrite lookup_app_r in Hk by lia. destruct (k - length done_l)%nat as [|j] eqn:Ej; [lia|by destruct j].
    + rewrite lookup_insert_ne by done. rewrite HM. destruct (decide (k < length done_l)%nat) as [Hlt|Hge].
      * by rewrite lookup_app_l.
      * rewrite (lookup_ge_None_2 done_l), lookup_app_r by lia. split; [done|].
        destruct (k - length done_l)%nat as [|j]; [intros [= ->]; done|by destruct j].
Qed.

Lemma new_ok l s : BlockScheduler_new l = Ok s -> scheduler_ok s /\ head_missing s /\ targets s = l /\ next_submit s = 0%nat /\ attempt_counts s = ∅.
Proof.
  unfold BlockScheduler_new. destruct (index_targets 0 l ∅) as [m|] eqn:E; [|done]. intros [= <-].
  apply (index_targets_spec l 0 ∅ m []) in E as [HN HM]; [|done|constructor|intros id k; by rewrite lookup_empty, lookup_nil].
  split; [|split; [by intros id _; apply lookup_empty|done]].
  constructor; try done.
  all: try (intros id [x Hx]; by rewrite lookup_empty in Hx).
  all: try (intros p; unfold in_flight_for_peer; cbn; by rewrite lookup_empty, ?msum_empty).
  all: try (intros id; unfold attempts; cbn; by rewrite lookup_empty).
  all: cbn; rewrite ?map_size_empty; lia.
Qed.

Lemma skip_target_false id s :
  skip_target id s = false ->
  in_flight s !! id = None /\ buffered s !! id = None /\ (id ∉ stalled s) /\ attempts id s < MAX_BLOCK_ATTEMPTS.
Proof.
  unfold skip_target, attempts. rewrite !orb_false_iff, !bool_decide_eq_false, <- !eq_None_not_Some. intros [[[H1 H2] H3] H4].
  split_and!; [done..|]. destruct (attempt_counts s !! id); cbn; [lia|done].
Qed.

Lemma assign_ok id p s :
  scheduler_ok s -> waiting s id -> skip_target id s = false -> (size (in_flight s) < MAX_IN_FLIGHT_BLOCKS_GLOBAL)%nat ->
  in_flight_for_peer p s < MAX_IN_FLIGHT_BLOCKS_PEER -> scheduler_ok (assign id p s).
Proof.
  intros [ND IX NX FL FC PP PC BU BC AT] HW (Hf & Hb & Hst & Ha)%skip_target_false HS HP.
  assert (forall q, in_flight_for_peer q (assign id p s) = if q =? p then in_flight_for_peer p s + 1 else in_flight_for_peer q s) as HQ.
  { intros q. unfold in_flight_for_peer. cbn. destruct (Z.eqb_spec q p) as [->|Hne]; [by rewrite lookup_insert_eq|by rewrite lookup_insert_ne]. }
  assert (forall x, attempts x (assign id p s) = if bool_decide (x = id) then attempts id s + 1 else attempts x s) as HA.
  { intros x. unfold attempts. cbn. destruct (bool_decide_reflect (x = id)) as [->|Hne]; [by rewrite lookup_insert_eq|by rewrite lookup_insert_ne]. }
  constructor; cbn [targets target_index next_submit in_flight buffered stalled assign]; try done.
  - intros x [q Hx]. change (waiting (assign id p s) x) with (waiting s x). rewrite HA. pose proof (AT x) as Hx0.
    destruct (bool_decide_reflect (x = id)) as [->|Hne]; [split_and!; [done|done|lia|done]|].
    rewrite lookup_insert_ne in Hx by done. by apply FL.
  - rewrite map_size_insert_None by done. lia.
  - intros q. rewrite HQ, msum_insert, <- PP by done. unfold is_owner. rewrite Z.eqb_sym. destruct (Z.eqb_spec p q) as [->|]; lia.
  - intros q. rewrite HQ. specialize (PC q). destruct (q =? p); lia.
  - intros x. rewrite HA. specialize (AT x). destruct (bool_decide_reflect (x = id)) as [->|]; lia.
Qed.

Lemma release_per_peer id p s q :
  in_flight_for_peer q (release_block id p s) = if p =? q then saturating_sub (in_flight_for_peer p s) 1 else in_flight_for_peer q s.
Proof.
  unfold in_flight_for_peer, release_block. cbn [in_flight_per_peer]. destruct (Z.eqb_spec p q) as [->|Hne].
  - destruct (in_flight_per_peer s !! q) as [c|] eqn:Ec; [|by rewrite Ec]. cbn [default].
    destruct (Z.eqb_spec (saturating_sub c 1) 0) as [E0|E0]; [by rewrite lookup_delete_eq|by rewrite lookup_insert_eq].
  - destruct (in_flight_per_peer s !! p) as [c|]; [|done].
    destruct (_ =? 0); [by rewrite lookup_delete_ne|by rewrite lookup_insert_ne].
Qed.

Lemma release_ok id p s : scheduler_ok s -> in_flight s !! id = Some p -> scheduler_ok (release_block id p s).
Proof.
  intros [ND IX NX FL FC PP PC BU BC AT] Hf.
  assert (forall q, in_flight_for_peer q (release_block id p s) = msum (is_owner q) (delete id (in_flight s)) /\
    in_flight_for_peer q (release_block id p s) <= in_flight_for_peer q s) as HQ.
  { intros q. pose proof (msum_delete (is_owner q) (in_flight s) id) as HD. unfold mget in HD. rewrite Hf in HD. rewrite <- PP in HD.
    pose proof (msum_nonneg (is_owner q) (delete id (in_flight s)) (is_owner_nonneg q)) as H0.
    change (is_owner q id p) with (if p =? q then 1 else 0) in HD.
    rewrite release_per_peer. unfold saturating_sub. destruct (Z.eqb_spec p q) as [->|]; lia. }
  constructor; cbn [targets target_index next_submit in_flight buffered stalled release_block]; try done.
  - intros x [q [Hne Hx]%lookup_delete_Some]. apply FL. by eexists.
  - etrans; [|exact FC]. rewrite map_size_delete, Hf. lia.
  - intros q. apply HQ.
  - intros q. etrans; [apply HQ|apply PC].
Qed.

(** ** Runs *)

(** How often a block was asked for, and which blocks were handed on. *)
Definition asks (id : Hash256) (a : SyncAction) : bool := match a with RequestBlock _ id' => bool_decide (id' = id) | _ => false end.
Definition requested (id : Hash256) (l : list SyncAction) : Z := Z.of_nat (length (filter (fun a => asks id a = true) l)).
Definition submitted (l : list SyncAction) : list Hash256 :=
  omap (fun a => match a with SubmitBlock _ b => Some (block_id (header b)) | _ => None end) l.

Lemma requested_app id a b : requested id (a ++ b) = requested id a + requested id b.
Proof. unfold requested. rewrite filter_app, length_app. lia. Qed.

Lemma requested_cons id a l : requested id (a :: l) = (if asks id a then 1 else 0) + requested id l.
Proof.
  unfold requested. destruct (asks id a) eqn:E; [rewrite filter_cons_True by done|rewrite filter_cons_False by congruence]; cbn [length]; lia.
Qed.

Lemma submitted_app a b : submitted (a ++ b) = submitted a ++ submitted b.
Proof. apply omap_app. Qed.

(** What one operation does to the log. *)
Record step_ok (s : BlockScheduler) (actions : list SyncAction) (s' : BlockScheduler) : Prop := MkStepOk {
  st_ok : scheduler_ok s';
  st_head : head_missing s';
  st_targets : targets s' = targets s;
  st_submitted : submitted actions = take (next_submit s' - next_submit s) (drop (next_submit s) (targets s));
  st_next : (next_submit s <= next_submit s')%nat;
  st_requested id : attempts id s' = attempts id s + requested id actions;
}.

Lemma schedule_loop_ok eligible l s :
  scheduler_ok s -> head_missing s -> (forall id, id ∈ l -> waiting s id) ->
  step_ok s (schedule_loop eligible l s).1 (schedule_loop eligible l s).2 /\
  next_submit (schedule_loop eligible l s).2 = next_submit s.
Proof.
  assert (forall s, scheduler_ok s -> head_missing s -> step_ok s [] s) as Hnil.
  { intros s' Hs Hh. constructor; try done; [by rewrite Nat.sub_diag|]. intros id. unfold requested. cbn. lia. }
  revert s. induction l as [|id l IH]; intros s Hok Hh HW; cbn [schedule_loop]; [split; [by apply Hnil|done]|].
  destruct (Nat.leb_spec MAX_IN_FLIGHT_BLOCKS_GLOBAL (size (in_flight s))) as [HG|HG]; [split; [by apply Hnil|done]|].
  destruct (skip_target id s) eqn:Esk; [apply IH; [done..|]; intros; apply HW; by right|].
  destruct (find _ eligible) as [p|] eqn:Ef; [|split; [by apply Hnil|done]].
  apply find_some in Ef as [_ Hp]. apply Z.ltb_lt in Hp.
  pose proof (assign_ok id (sp_peer_id p) s Hok (HW id ltac:(by left)) Esk HG Hp) as Hok1.
  destruct (IH (assign id (sp_peer_id p) s) Hok1 Hh) as [[O Hd T S N R] Hn]; [intros; apply HW; by right|].
  destruct (schedule_loop eligible l (assign id (sp_peer_id p) s)) as [acts s']. cbn [fst snd] in *. split; [|done].
  constructor; [done..|]. intros x. rewrite R, requested_cons. cbn [asks]. unfold attempts at 1 2. cbn [attempt_counts assign].
  destruct (bool_decide_reflect (id = x)) as [->|Hne]; [rewrite lookup_insert_eq; unfold attempts; cbn; lia|by rewrite lookup_insert_ne].
Qed.

Lemma waiting_drop s id : id ∈ drop (next_submit s) (targets s) -> waiting s id.
Proof. intros [i Hi]%list_elem_of_lookup. rewrite lookup_drop in Hi. eexists. split; [exact Hi|lia]. Qed.

Lemma idle_ok s : scheduler_ok s -> head_missing s -> step_ok s [] s.
Proof. intros Hs Hh. constructor; try done; [by rewrite Nat.sub_diag|]. intros id. unfold requested. cbn. lia. Qed.

Lemma schedule_ok peers s :
  scheduler_ok s -> head_missing s -> step_ok s (schedule peers s).1 (schedule peers s).2.
Proof.
  intros Hok Hh. unfold schedule. destruct (eligible_peers peers) as [|p ps]; [by apply idle_ok|].
  apply schedule_loop_ok; [done..|]. intros id. apply waiting_drop.
Qed.

Lemma released_ok id p s :
  scheduler_ok s -> head_missing s -> in_flight s !! id = Some p -> step_ok s [] (release_block id p s).
Proof.
  intros Hok Hh Hf. constructor; try done; [by apply release_ok|cbn; by rewrite Nat.sub_diag|].
  intros x. unfold requested, attempts. cbn. lia.
Qed.

Lemma timeout_ok p id s :
  scheduler_ok s -> head_missing s -> step_ok s (on_timeout p id s).1 (on_timeout p id s).2.
Proof.
  intros Hok Hh. unfold on_timeout. destruct (in_flight s !! id) as [owner|] eqn:Ef; [|by apply idle_ok].
  destruct (Z.eqb_spec owner p) as [->|Hne]; cbn [negb]; [|by apply idle_ok].
  pose proof (release_ok id p s Hok Ef) as Hok1.
  pose proof (released_ok id p s Hok Hh Ef) as Hst.
  destruct (_ && _) eqn:E; [|done]. destruct Hst as [O Hd T S N R]. constructor; try done.
  destruct O as [ND IX NX FL FC PP PC BU BC AT]. constructor; try done.
  intros x Hx. destruct (FL x Hx) as (? & ? & ? & Hns). split_and!; [done..|]. cbn in *. apply not_elem_of_union. split; [|done].
  intros ->%elem_of_singleton. cbn in Hx. by rewrite lookup_delete_eq in Hx; destruct Hx.
Qed.

(** Everything but the missing head: the state between buffering and handing on. *)
Lemma submit_loop_ok l s :
  scheduler_ok s -> l = drop (next_submit s) (targets s) ->
  step_ok s (submit_loop l s).1 (submit_loop l s).2.
Proof.
  revert s. induction l as [|id l IH]; intros s Hok Hl; cbn [submit_loop].
  { apply idle_ok; [done|]. intros x Hx. pose proof (so_next s Hok). apply lookup_lt_Some in Hx.
    symmetry in Hl. apply (f_equal length) in Hl. rewrite length_drop in Hl. cbn [length snd] in *. lia. }
  assert (targets s !! next_submit s = Some id) as Hid.
  { rewrite <- (Nat.add_0_r (next_submit s)), <- lookup_drop, <- Hl. done. }
  destruct (buffered s !! id) as [b|] eqn:Eb; [|apply idle_ok; [done|]; cbn [fst snd]; intros x Hx; congruence].
  pose proof (so_buffer s Hok id b Eb) as [_ Hbid]. destruct Hok as [ND IX NX FL FC PP PC BU BC AT].
  assert (forall x, waiting s x -> x <> id -> waiting (with_buffer s (S (next_submit s)) (delete id (buffered s))) x) as HW.
  { intros x (i & Hi & Hle) Hne. exists i. split; [done|]. cbn. destruct (decide (i = next_submit s)) as [->|]; [congruence|lia]. }
  destruct (IH (with_buffer s (S (next_submit s)) (delete id (buffered s)))) as [O Hd T S N R].
  - constructor; cbn [targets target_index next_submit in_flight buffered stalled with_buffer]; try done.
    + apply lookup_lt_Some in Hid. lia.
    + intros x Hx. destruct (FL x Hx) as (Hw & Hbx & Ha & Hs). split_and!; [|rewrite lookup_delete_None; by right|done|done].
      apply HW; [done|]. intros ->. congruence.
    + intros x bx [Hne Hx]%lookup_delete_Some. destruct (BU x bx Hx) as [Hw ?]. split; [|done]. by apply HW.
    + etrans; [|exact BC]. rewrite map_size_delete, Eb. lia.
  - cbn [next_submit targets with_buffer]. rewrite (drop_S _ _ _ Hid) in Hl. congruence.
  - destruct (submit_loop l _) as [acts s']. cbn [fst snd next_submit targets with_buffer] in *. constructor; try done; [|lia].
    + cbn [submitted omap list_omap]. fold (submitted acts). rewrite S, Hbid, (drop_S _ _ _ Hid).
      replace (next_submit s' - next_submit s)%nat with (Datatypes.S (next_submit s' - Datatypes.S (next_submit s)))%nat by lia. done.
Qed.

Definition actions_of (r : result SyncError.t (list SyncAction)) : list SyncAction := match r with Ok l => l | Err _ => [] end.

Lemma buffer_ok p block s :
  scheduler_ok s -> in_flight s !! block_id (header block) = Some p -> (size (buffered s) < MAX_BUFFERED_BLOCKS)%nat ->
  scheduler_ok (with_buffer (release_block (block_id (header block)) p s) (next_submit s)
                  (<[block_id (header block) := MkBuffered p block]> (buffered s))).
Proof.
  intros Hok Hf HS. set (id := block_id (header block)) in *. destruct (so_flight s Hok id) as (Hw & _); [by eexists|].
  destruct (release_ok id p s Hok Hf) as [ND IX NX FL FC PP PC BU BC AT]. constructor; try done.
  - intros x Hx. destruct (FL x Hx) as (Hwx & Hbx & Ha & Hs). split_and!; [done| |done|done].
    cbn in Hx |- *. rewrite lookup_insert_ne; [done|]. intros <-. rewrite lookup_delete_eq in Hx. by destruct Hx.
  - intros x b. cbn [buffered with_buffer]. destruct (decide (x = id)) as [->|Hne].
    + rewrite lookup_insert_eq. intros [= <-]. done.
    + rewrite lookup_insert_ne by done. apply BU.
  - cbn. rewrite map_size_insert. unfold MAX_BUFFERED_BLOCKS in *. destruct (buffered s !! id); cbn; lia.
Qed.

Lemma block_ok p block s :
  scheduler_ok s -> head_missing s -> step_ok s (actions_of (on_block p block s).1) (on_block p block s).2.
Proof.
  intros Hok Hh. unfold on_block. destruct (in_flight s !! _) as [owner|] eqn:Ef; [|by apply idle_ok].
  destruct (Z.eqb_spec owner p) as [->|Hne]; cbn [negb]; [|by apply idle_ok].
  pose proof (released_ok _ p s Hok Hh Ef) as Hst.
  destruct (target_index _ !! _) as [index|]; [|done]. destruct (_ <? _)%nat; [done|].
  destruct (Nat.leb_spec MAX_BUFFERED_BLOCKS (size (buffered (release_block (block_id (header block)) p s)))) as [|Hb]; [done|].
  pose proof (buffer_ok p block s Hok Ef Hb) as Hok1. cbn zeta.
  pose proof (submit_loop_ok _ _ Hok1 eq_refl) as [O Hd T S N R].
  change (buffered (release_block _ p s)) with (buffered s). change (next_submit (release_block _ p s)) with (next_submit s).
  set (s1 := with_buffer _ _ _) in *. destruct (submit_loop (drop (next_submit s1) (targets s1)) s1) as [acts s']. by constructor.
Qed.

Inductive SchedulerOp : Type :=
| DoSchedule (peers : list SyncPeer) | DoTimeout (p : PeerId) (id : Hash256) | DoBlock (p : PeerId) (block : Block).

Definition scheduler_step (op : SchedulerOp) (s : BlockScheduler) : list SyncAction * BlockScheduler :=
  match op with
  | DoSchedule peers => schedule peers s
  | DoTimeout p id => on_timeout p id s
  | DoBlock p block => let '(r, s) := on_block p block s in (actions_of r, s)
  end.

Fixpoint run_scheduler (ops : list SchedulerOp) (s : BlockScheduler) : list SyncAction * BlockScheduler :=
  match ops with
  | [] => ([], s)
  | op :: ops => let '(l, s) := scheduler_step op s in let '(l', s) := run_scheduler ops s in (l ++ l', s)
  end.

Lemma scheduler_step_ok op s :
  scheduler_ok s -> head_missing s -> step_ok s (scheduler_step op s).1 (scheduler_step op s).2.
Proof.
  intros Hok Hh. destruct op as [peers|p id|p block]; cbn [scheduler_step]; [by apply schedule_ok|by apply timeout_ok|].
  pose proof (block_ok p block s Hok Hh) as Hb. by destruct (on_block p block s).
Qed.

Lemma step_ok_trans s l s1 l' s2 : step_ok s l s1 -> step_ok s1 l' s2 -> step_ok s (l ++ l') s2.
Proof.
  intros [O1 H1 T1 S1 N1 R1] [O2 H2 T2 S2 N2 R2]. constructor; try done.
  - congruence.
  - rewrite submitted_app, S1, S2, T1. replace (drop (next_submit s1) (targets s))
      with (drop (next_submit s1 - next_submit s) (drop (next_submit s) (targets s))) by (rewrite drop_drop; f_equal; lia).
    rewrite take_take_drop. f_equal. lia.
  - lia.
  - intros id. rewrite R2, R1, requested_app. lia.
Qed.

Lemma run_scheduler_ok ops s :
  scheduler_ok s -> head_missing s -> step_ok s (run_scheduler ops s).1 (run_scheduler ops s).2.
Proof.
  revert s. induction ops as [|op ops IH]; intros s Hok Hh; cbn [run_scheduler]; [by apply idle_ok|].
  pose proof (scheduler_step_ok op s Hok Hh) as Hs. destruct (scheduler_step op s) as [l s1]. cbn [fst snd] in Hs.
  specialize (IH s1 (st_ok _ _ _ Hs) (st_head _ _ _ Hs)). destruct (run_scheduler ops s1) as [l' s2]. by eapply step_ok_trans.
Qed.

(** Block downloads stay within their limits.  For any list of distinct
    targets and any sequence of scheduling rounds, timeouts and deliveries,
    solicited or not, at most 32 blocks are asked for at a time and at most
    8 of one peer, by the exact counts; at most 32 wait to be handed on;
    no block is asked for more than three times, and none that has arrived
    or is outstanding is asked for again. *)
Theorem scheduler_within_limits l s0 ops :
  BlockScheduler_new l = Ok s0 ->
  let actions := (run_scheduler ops s0).1 in let s := (run_scheduler ops s0).2 in
  scheduler_ok s /\ forall id, requested id actions = attempts id s /\ requested id actions <= 3.
Proof.
  intros (Hok & Hh & Ht & Hn & HA)%new_ok. cbn zeta. destruct (run_scheduler_ok ops s0 Hok Hh) as [O _ _ _ _ R]. split; [done|].
  intros id. specialize (R id). pose proof (so_attempts _ O id) as Ha. unfold MAX_BLOCK_ATTEMPTS in Ha.
  unfold attempts at 2 in R. rewrite HA, lookup_empty in R. cbn in R. lia.
Qed.

(** C27: blocks are handed on in the order of the chain, each once.  Whatever is
    scheduled, times out and arrives in whatever order, the blocks handed on
    so far are exactly the first targets, in their order, up to the next one
    missing; the download is complete when all of them have been. *)
Theorem blocks_submitted_in_order l s0 ops :
  BlockScheduler_new l = Ok s0 ->
  let actions := (run_scheduler ops s0).1 in let s := (run_scheduler ops s0).2 in
  submitted actions = take (next_submit s) l /\
  (is_complete s = true <-> submitted actions = l) /\
  (forall id, l !! next_submit s = Some id -> buffered s !! id = None).
Proof.
  intros (Hok & Hh & Ht & Hn & _)%new_ok. cbn zeta. destruct (run_scheduler_ok ops s0 Hok Hh) as [O Hd T S N R].
  set (s := (run_scheduler ops s0).2) in *. rewrite Hn, Ht, Nat.sub_0_r, drop_0 in S. rewrite Ht in T. split; [done|]. split.
  - unfold is_complete. rewrite T, S, Nat.eqb_eq. pose proof (so_next _ O) as HN. rewrite T in HN. split.
    + intros ->. by apply take_ge.
    + intros HE. apply (f_equal length) in HE. rewrite length_take in HE. lia.
  - intros id. rewrite <- T. apply Hd.
Qed.

(** ** A download that cannot end *)

Lemma run_scheduler_app a b s :
  run_scheduler (a ++ b) s =
    ((run_scheduler a s).1 ++ (run_scheduler b (run_scheduler a s).2).1, (run_scheduler b (run_scheduler a s).2).2).
Proof.
  revert s. induction a as [|op a IH]; intros s; cbn [run_scheduler app]; [cbn [fst snd app]; by rewrite <- surjective_pairing|].
  destruct (scheduler_step op s) as [l s1]. rewrite IH. destruct (run_scheduler a s1) as [l1 s2]. cbn. by rewrite app_assoc.
Qed.

Lemma schedule_loop_keeps eligible l s :
  buffered (schedule_loop eligible l s).2 = buffered s /\ next_submit (schedule_loop eligible l s).2 = next_submit s.
Proof.
  revert s. induction l as [|x l IH]; intros s; cbn [schedule_loop]; [done|].
  destruct (_ <=? _)%nat; [done|]. destruct (skip_target x s); [by apply IH|]. destruct (find _ eligible) as [p|]; [|done].
  specialize (IH (assign x (sp_peer_id p) s)). by destruct (schedule_loop eligible l _).
Qed.

(** While the buffer is full nothing enters it and nothing leaves it. *)
Lemma scheduler_step_full op s :
  size (buffered s) = MAX_BUFFERED_BLOCKS ->
  buffered (scheduler_step op s).2 = buffered s /\ next_submit (scheduler_step op s).2 = next_submit s.
Proof.
  intros Hs. destruct op as [peers|p x|p block]; cbn [scheduler_step].
  - unfold schedule. destruct (eligible_peers peers); [done|apply schedule_loop_keeps].
  - unfold on_timeout. destruct (in_flight s !! x) as [o|]; [|done]. destruct (negb _); [done|]. by destruct (_ && _).
  - unfold on_block. destruct (in_flight s !! _) as [o|]; [|done]. destruct (negb _); [done|].
    destruct (target_index _ !! _); [|done]. destruct (_ <? _)%nat; [done|]. cbn [buffered release_block]. by rewrite Hs.
Qed.

Lemma run_scheduler_full ops s :
  size (buffered s) = MAX_BUFFERED_BLOCKS ->
  buffered (run_scheduler ops s).2 = buffered s /\ next_submit (run_scheduler ops s).2 = next_submit s.
Proof.
  revert s. induction ops as [|op ops IH]; intros s Hs; cbn [run_scheduler]; [done|].
  destruct (scheduler_step_full op s Hs) as [Hb Hn]. destruct (scheduler_step op s) as [l s1]. cbn [snd] in Hb, Hn.
  specialize (IH s1). rewrite Hb in IH. specialize (IH Hs). destruct (run_scheduler ops s1). cbn [snd] in *. intuition congruence.
Qed.

Definition reports (a : SyncAction) : Prop := match a with Stalled _ => True | _ => False end.

Lemma schedule_loop_silent eligible l s a : a ∈ (schedule_loop eligible l s).1 -> ~ reports a.
Proof.
  revert s. induction l as [|x l IH]; intros s; cbn [schedule_loop]; [by intros ?%not_elem_of_nil|].
  destruct (_ <=? _)%nat; [by intros ?%not_elem_of_nil|]. destruct (skip_target x s); [by apply IH|].
  destruct (find _ eligible) as [p|]; [|by intros ?%not_elem_of_nil]. specialize (IH (assign x (sp_peer_id p) s)).
  destruct (schedule_loop eligible l _). intros [->|Ha]%elem_of_cons; [by intros []|by apply IH].
Qed.

Lemma submit_loop_silent l s a : a ∈ (submit_loop l s).1 -> ~ reports a.
Proof.
  revert s. induction l as [|x l IH]; intros s; cbn [submit_loop]; [by intros ?%not_elem_of_nil|].
  destruct (buffered s !! x) as [b|]; [|by intros ?%not_elem_of_nil].
  specialize (IH (with_buffer s (S (next_submit s)) (delete x (buffered s)))). destruct (submit_loop l _).
  intros [->|Ha]%elem_of_cons; [by intros []|by apply IH].
Qed.

(** Only a timeout of the block's own request reports it. *)
Lemma scheduler_step_reports op s id : Stalled id ∈ (scheduler_step op s).1 -> exists p, op = DoTimeout p id.
Proof.
  destruct op as [peers|p x|p block]; cbn [scheduler_step].
  - unfold schedule. destruct (eligible_peers peers); [by intros ?%not_elem_of_nil|]. by intros []%schedule_loop_silent.
  - unfold on_timeout. destruct (in_flight s !! x) as [o|]; [|by intros ?%not_elem_of_nil]. destruct (negb _); [by intros ?%not_elem_of_nil|].
    destruct (_ && _); [|by intros ?%not_elem_of_nil]. intros [= ->]%list_elem_of_singleton. eauto.
  - unfold on_block. destruct (in_flight s !! _) as [o|]; [|by intros ?%not_elem_of_nil]. destruct (negb _); [by intros ?%not_elem_of_nil|].
    destruct (target_index _ !! _); [|by intros ?%not_elem_of_nil]. destruct (_ <? _)%nat; [by intros ?%not_elem_of_nil|].
    destruct (_ <=? _)%nat; [by intros ?%not_elem_of_nil|]. set (s1 := with_buffer _ _ _).
    pose proof (submit_loop_silent (drop (next_submit s1) (targets s1)) s1 (Stalled id)) as Hs.
    destruct (submit_loop _ _). intros []%Hs. done.
Qed.

Lemma run_scheduler_reports ops s id : Stalled id ∈ (run_scheduler ops s).1 -> exists p, DoTimeout p id ∈ ops.
Proof.
  revert s. induction ops as [|op ops IH]; intros s; cbn [run_scheduler]; [by intros ?%not_elem_of_nil|].
  pose proof (scheduler_step_reports op s id) as Hs. destruct (scheduler_step op s) as [l s1].
  specialize (IH s1). destruct (run_scheduler ops s1) as [l' s2]. cbn [fst] in *.
  intros [Ha|Ha]%elem_of_app; [destruct (Hs Ha) as [p ->]|destruct (IH Ha) as [p Hp]]; exists p; set_solver.
Qed.

(** A delivery the scheduler asked for is refused while the buffer is full. *)
Lemma on_block_full p block s :
  scheduler_ok s -> size (buffered s) = MAX_BUFFERED_BLOCKS -> in_flight s !! block_id (header block) = Some p ->
  on_block p block s = (Err SyncError.BufferFull, release_block (block_id (header block)) p s).
Proof.
  intros Hok Hs Hf. destruct (so_flight s Hok _ (mk_is_Some _ _ Hf)) as ((i & Hi & Hle) & _). apply (so_index s Hok) in Hi.
  unfold on_block. destruct (in_flight s !! _) as [o|] eqn:Ef; [|unfold PeerId in *; congruence].
  assert (o = p) as -> by (unfold PeerId in *; congruence). rewrite Z.eqb_refl. cbn [negb target_index next_submit buffered release_block].
  rewrite Hi, Hs.
  by destruct (Nat.ltb_spec i (next_submit s)); [lia|].
Qed.

(** C32: a download whose buffer fills up never ends, and need not be reported.
    Once 32 later blocks are buffered, then whatever is scheduled, times out
    or arrives afterwards, no further block is handed on and the download
    stays incomplete: the next block is refused with [BufferFull] every time
    it is delivered, its refused deliveries count as attempts, at most three
    in all, and unless a request for it has timed out no action of the whole
    run reports it as stalled. *)
Theorem full_buffer_wedges l s0 before after :
  BlockScheduler_new l = Ok s0 ->
  let s := (run_scheduler before s0).2 in
  size (buffered s) = MAX_BUFFERED_BLOCKS ->
  let actions := (run_scheduler (before ++ after) s0).1 in let s' := (run_scheduler (before ++ after) s0).2 in
  exists id, l !! next_submit s = Some id /\
    submitted actions = take (next_submit s) l /\ is_complete s' = false /\
    (forall p block, block_id (header block) = id -> in_flight s' !! id = Some p ->
       on_block p block s' = (Err SyncError.BufferFull, release_block id p s')) /\
    requested id actions = attempts id s' /\ attempts id s' <= MAX_BLOCK_ATTEMPTS /\
    ((forall p, DoTimeout p id ∉ before ++ after) -> Stalled id ∉ actions).
Proof.
  intros (Hok & Hh & Ht & Hn & HA)%new_ok s Hs actions s'.
  destruct (run_scheduler_ok before s0 Hok Hh) as [O _ T _ _ _]. fold s in O, T.
  destruct (run_scheduler_ok (before ++ after) s0 Hok Hh) as [O' _ T' S' _ R']. fold actions s' in O', T', S', R'.
  destruct (run_scheduler_full after s Hs) as [Hb Hn']. assert ((run_scheduler after s).2 = s') as Es'
    by (unfold s', s; by rewrite run_scheduler_app). rewrite Es' in Hb, Hn'.
  assert (exists id, l !! next_submit s = Some id) as [id Hid].
  { destruct (map_choose (buffered s)) as (x & b & Hx); [intros E; rewrite E, map_size_empty in Hs; done|].
    destruct (so_buffer s O x b Hx) as [(i & Hi & Hle) _]. apply lookup_lt_is_Some. rewrite <- Ht, <- T. apply lookup_lt_Some in Hi. lia. }
  exists id. rewrite Hn, Nat.sub_0_r, drop_0, Hn', Ht in S'. rewrite Ht in T'. split_and!; [done..| | | | |].
  - unfold is_complete. rewrite T', Hn'. apply Nat.eqb_neq. apply lookup_lt_Some in Hid. lia.
  - intros p block <- Hf. apply on_block_full; [done|by rewrite Hb|done].
  - rewrite R'. unfold attempts. by rewrite HA, lookup_empty.
  - apply (so_attempts _ O').
  - intros Hno Hst. apply run_scheduler_reports in Hst as [p Hp]. by apply (Hno p).
Qed.

End Invariant.

(** Thirty-three blocks, five peers.  The first block is late: the 32 after it
    arrive before it and fill the buffer. *)
Definition tail_hash : Blake3 := fun l => default (arr_fill 32 x00) (to_arr 32 (drop (length l - 32) l)).

Definition demo_blocks : list Block :=
  map (fun h => MkBlock h []) (demo_chain (H := tail_hash) (arr_fill 32 x00) (map Z.of_nat (seq 0 33))).
Definition demo_ids : list Hash256 := map (fun b => block_id (H := tail_hash) (header b)) demo_blocks.
Definition demo_peers : list SyncPeer := map (fun p => MkSyncPeer p true true (MkPerformance 0 0 0)) [1; 2; 3; 4; 5].

Definition deliver (i : nat) : list SchedulerOp :=
  match demo_blocks !! i with Some b => [DoBlock (1 + Z.of_nat (i mod 32) / 8) b] | None => [] end.

(** The first block is delivered three times after the buffer has filled. *)
Definition demo_fill : list SchedulerOp :=
  [DoSchedule demo_peers] ++ flat_map deliver (seq 1 31) ++ [DoSchedule demo_peers] ++ deliver 32.

Definition demo_refused : list SchedulerOp :=
  deliver 0 ++ [DoSchedule demo_peers] ++ deliver 0 ++ [DoSchedule demo_peers] ++ deliver 0 ++ [DoSchedule demo_peers].

Definition demo_late : list SchedulerOp := demo_fill ++ demo_refused.

Definition or_empty (r : result SyncError.t BlockScheduler) : BlockScheduler :=
  match r with Ok s => s | Err _ => MkScheduler [] ∅ 0 ∅ ∅ ∅ ∅ ∅ end.

Definition demo_start : BlockScheduler := or_empty (BlockScheduler_new demo_ids).

Definition demo_end : BlockScheduler := (run_scheduler (H := tail_hash) demo_late demo_start).2.

Definition first_id : Hash256 := default (arr_fill 32 x00) (head demo_ids).

Lemma or_empty_ok r : is_ok r = true -> r = Ok (or_empty r).
Proof. by destruct r. Qed.

Lemma demo_start_ok : BlockScheduler_new demo_ids = Ok demo_start.
Proof. apply or_empty_ok. by vm_compute. Qed.

Lemma scheduler_within_limits_witness : scheduler_ok (H := tail_hash) demo_end.
Proof. exact (proj1 (scheduler_within_limits (H := tail_hash) demo_ids demo_start demo_late demo_start_ok)). Defined.

Lemma blocks_submitted_in_order_witness :
  submitted (H := tail_hash) (run_scheduler (H := tail_hash) demo_late demo_start).1 = take (next_submit demo_end) demo_ids.
Proof. exact (proj1 (blocks_submitted_in_order (H := tail_hash) demo_ids demo_start demo_late demo_start_ok)). Defined.

Lemma full_buffer_wedges_witness :
  let run := run_scheduler (H := tail_hash) demo_late demo_start in
  in_flight run.2 !! first_id = None /\ attempts first_id run.2 = 3 /\
  is_complete run.2 = false /\ submitted (H := tail_hash) run.1 = [] /\ Stalled first_id ∉ run.1.
Proof.
  destruct (full_buffer_wedges (H := tail_hash) demo_ids demo_start demo_fill demo_refused demo_start_ok
    ltac:(vm_compute; reflexivity)) as (id & Hid & Hsub & Hc & _ & _ & _ & Hst).
  assert (next_submit (run_scheduler (H := tail_hash) demo_fill demo_start).2 = 0%nat) as E by (vm_compute; reflexivity).
  rewrite E in Hid, Hsub. assert (id = first_id) as -> by (change (demo_ids !! 0%nat) with (head demo_ids) in Hid; unfold first_id; by rewrite Hid).
  cbn zeta. split_and!; [vm_compute; reflexivity..|exact Hc|exact Hsub|].
  apply Hst. intros p Hp. assert (forallb (fun op => match op with DoTimeout _ _ => false | _ => true end) demo_late = true) as F
    by (vm_compute; reflexivity). rewrite forallb_forall in F. by specialize (F _ (proj1 (list_elem_of_In _ _) Hp)).
Defined.
