(* ===== verification/Records.v ===== *)
(** [oregon-storage]: the values the database holds and their bytes: block
    index records and node health ([records.rs]), schema versions and the
    migration marker ([schema.rs]), outpoint keys, unspent outputs and undo
    records ([codec.rs]).  Error messages are not modelled; the variant of the
    error is. *)
From S2P Require Import Prelude Encoding Transaction Block Difficulty Utxo.

(** ** Schema versions and errors *)

Record SchemaVersion : Type := MkSchemaVersion { major : Z; minor : Z }.

#[global] Instance SchemaVersion_eq_dec : EqDecision SchemaVersion.
Proof. solve_decision. Defined.

Module StorageError.
Inductive t : Type :=
| RocksDb
| CorruptData
| UnsupportedSchema (v : SchemaVersion)
| DurabilityFailure.
End StorageError.

Definition LEGACY_SCHEMA_VERSION_1_0 : SchemaVersion := MkSchemaVersion 1 0.
Definition SCHEMA_VERSION : SchemaVersion := MkSchemaVersion 1 1.
Definition MIGRATION_MARKER_VERSION : byte := x01.
Definition MIGRATION_MARKER_BYTES : nat := 9.

(** [u16::to_be_bytes], [u64::to_be_bytes] and their inverses. *)
Definition be_bytes (n : nat) (z : Z) : list byte := rev (le_bytes n z).
Definition be_num (l : list byte) : Z := le_num (rev l).

Definition encode_schema_version (v : SchemaVersion) : list byte :=
  be_bytes 2 (major v) ++ be_bytes 2 (minor v).

Definition decode_schema_version (bytes : list byte) : result StorageError.t SchemaVersion :=
  if negb (length bytes =? 4)%nat then Err StorageError.CorruptData
  else Ok (MkSchemaVersion (be_num (take 2 bytes)) (be_num (drop 2 bytes))).

Definition encode_migration_marker (from to : SchemaVersion) : list byte :=
  [MIGRATION_MARKER_VERSION] ++ encode_schema_version from ++ encode_schema_version to.

Definition decode_migration_marker (bytes : list byte)
  : result StorageError.t (SchemaVersion * SchemaVersion) :=
  if negb (length bytes =? MIGRATION_MARKER_BYTES)%nat then Err StorageError.CorruptData
  else if negb (bool_decide (head bytes = Some MIGRATION_MARKER_VERSION)) then Err StorageError.CorruptData
  else
    let? from := decode_schema_version (take 4 (drop 1 bytes)) in
    let? to := decode_schema_version (take 4 (drop 5 bytes)) in
    Ok (from, to).

(** ** Block index records and health *)

Definition STORAGE_RECORD_VERSION : byte := x01.
Definition MAX_CHAINWORK_BYTES : Z := 40.

Inductive ValidationStatus : Type := HeaderValidated | FullyValidated | Invalid.

#[global] Instance ValidationStatus_eq_dec : EqDecision ValidationStatus.
Proof. solve_decision. Defined.

Record BlockIndexRecord : Type := MkBlockIndexRecord {
  idx_header : BlockHeader;
  idx_parent : Hash256;
  idx_height : Z;
  idx_work : ChainWork;
  idx_validation : ValidationStatus;
  idx_body_retained : bool;
}.

#[global] Instance BlockIndexRecord_eq_dec : EqDecision BlockIndexRecord.
Proof. solve_decision. Defined.

Inductive NodeHealth : Type := NodeHealthy | NodeReindexRequired.

#[global] Instance NodeHealth_eq_dec : EqDecision NodeHealth.
Proof. solve_decision. Defined.

(** ** The storage cursor: the canonical decoder with storage errors *)

Definition storage_reader (A : Type) : Type := eff Decoder StorageError.t A.

Definition primitive_error (e : PrimitiveError.t) : StorageError.t := StorageError.CorruptData.

Definition StorageCursor_read_exact (len : nat) : storage_reader (list byte) :=
  eff_map_err primitive_error (read_bytes len).

Definition StorageCursor_read_u8 : storage_reader byte :=
  let! bytes := StorageCursor_read_exact 1 in eff_ret (nth 0 bytes x00).

Definition StorageCursor_read_u64 : storage_reader Z := eff_map_err primitive_error read_u64.

Definition StorageCursor_read_len (max : Z) : storage_reader nat :=
  eff_map_err primitive_error (read_len max).

Definition StorageCursor_finish : storage_reader unit := eff_map_err primitive_error finish.

(** The leading version byte of every record. *)
Definition read_version : storage_reader unit :=
  let! version := StorageCursor_read_u8 in
  eff_lift (if negb (bool_decide (version = STORAGE_RECORD_VERSION))
            then Err StorageError.CorruptData else Ok tt).

Definition decode_flag (b : byte) : result StorageError.t bool :=
  match byte_to_Z b with
  | 0 => Ok false
  | 1 => Ok true
  | _ => Err StorageError.CorruptData
  end.
Definition encode_flag (b : bool) : byte := if b then x01 else x00.

Definition read_flag : storage_reader bool :=
  let! b := StorageCursor_read_u8 in eff_lift (decode_flag b).

(** A length and that many bytes. *)
Definition read_sized (max : Z) : storage_reader (list byte) :=
  let! len := StorageCursor_read_len max in StorageCursor_read_exact len.

Definition encode_validation_status (status : ValidationStatus) : byte :=
  match status with HeaderValidated => x00 | FullyValidated => x01 | Invalid => x02 end.

Definition decode_validation_status (b : byte) : result StorageError.t ValidationStatus :=
  match byte_to_Z b with
  | 0 => Ok HeaderValidated
  | 1 => Ok FullyValidated
  | 2 => Ok Invalid
  | _ => Err StorageError.CorruptData
  end.

(** The bytes of a record, in the order they are pushed. *)
Definition block_index_bytes (r : BlockIndexRecord) : list byte :=
  let chainwork := ChainWork_to_canonical_be_bytes (idx_work r) in
  [STORAGE_RECORD_VERSION] ++ BlockHeader_encode (idx_header r) ++ arr_bytes (idx_parent r)
    ++ le_bytes 8 (idx_height r) ++ (write_varint (Z.of_nat (length chainwork)) ++ chainwork)
    ++ [encode_validation_status (idx_validation r)] ++ [encode_flag (idx_body_retained r)].

Definition encode_block_index (r : BlockIndexRecord) : result StorageError.t (list byte) :=
  if negb (bool_decide (idx_parent r = previous_block (idx_header r))) then Err StorageError.CorruptData
  else
    let chainwork := ChainWork_to_canonical_be_bytes (idx_work r) in
    if Z.of_nat (length chainwork) >? MAX_CHAINWORK_BYTES then Err StorageError.CorruptData
    else
      let header := BlockHeader_encode (idx_header r) in
      if negb (length header =? BLOCK_HEADER_BYTES)%nat then Err StorageError.CorruptData
      else Ok (block_index_bytes r).

(** The fields of the record up to the trailing-byte check. *)
Definition read_block_index : storage_reader BlockIndexRecord :=
  let! _ := read_version in
  let! header := (let! header_bytes := StorageCursor_read_exact BLOCK_HEADER_BYTES in
                  eff_lift (map_err primitive_error (BlockHeader_decode header_bytes))) in
  let! parent := (let! bytes := StorageCursor_read_exact 32 in
                  eff_lift (map_err primitive_error (Hash256_from_slice bytes))) in
  let! height := StorageCursor_read_u64 in
  let! work := (let! bytes := read_sized MAX_CHAINWORK_BYTES in
                eff_lift (ok_or (ChainWork_from_canonical_be_bytes bytes) StorageError.CorruptData)) in
  let! validation := (let! b := StorageCursor_read_u8 in eff_lift (decode_validation_status b)) in
  let! body_retained := read_flag in
  eff_ret (MkBlockIndexRecord header parent height work validation body_retained).

Definition decode_block_index (bytes : list byte) : result StorageError.t BlockIndexRecord :=
  fst ((let! r := read_block_index in
        let! _ := StorageCursor_finish in
        eff_lift (if negb (bool_decide (idx_parent r = previous_block (idx_header r)))
                  then Err StorageError.CorruptData else Ok r)) (Decoder_new bytes)).

Definition encode_node_health (h : NodeHealth) : list byte :=
  [STORAGE_RECORD_VERSION] ++ [encode_flag (match h with NodeHealthy => false | NodeReindexRequired => true end)].

Definition decode_node_health (bytes : list byte) : result StorageError.t NodeHealth :=
  fst ((let! h := (let! _ := read_version in
                   let! b := read_flag in
                   eff_ret (if b then NodeReindexRequired else NodeHealthy)) in
        let! _ := StorageCursor_finish in eff_lift (Ok h)) (Decoder_new bytes)).

(** ** Keys of the chain metadata *)

Definition bytes_of (s : String.string) : list byte := String.list_byte_of_string s.
Arguments bytes_of s%_string_scope.

Definition SCHEMA_KEY : list byte := bytes_of "schema/version".
Definition SCHEMA_MIGRATION_KEY : list byte := bytes_of "schema/migration".
Definition CONFIG_ANCHOR_ID_KEY : list byte := bytes_of "config/anchor_id".
Definition CONFIG_GENESIS_TIMESTAMP_KEY : list byte := bytes_of "config/genesis_timestamp".
Definition ACTIVE_TIP_ID_KEY : list byte := bytes_of "active/tip_id".
Definition ACTIVE_TIP_HEIGHT_KEY : list byte := bytes_of "active/tip_height".
Definition PREFERRED_HEADER_TIP_ID_KEY : list byte := bytes_of "headers/tip_id".
Definition PREFERRED_HEADER_TIP_HEIGHT_KEY : list byte := bytes_of "headers/tip_height".
Definition HEALTH_STATE_KEY : list byte := bytes_of "health/state".
Definition PRUNE_CURSOR_KEY : list byte := bytes_of "prune/cursor".
Definition ACTIVE_HEIGHT_PREFIX : list byte := bytes_of "active/".

Definition active_height_key (height : Z) : list byte := ACTIVE_HEIGHT_PREFIX ++ be_bytes 8 height.

(** ** Unspent outputs *)

Definition MAX_LOCKING_PROGRAM_BYTES : Z := 65536.
Definition MAX_UTXO_RECORD_BYTES : Z := 65600.
Definition MAX_UNDO_ENTRIES : Z := 1000000.

Definition encode_outpoint_key (o : OutPoint) : list byte := arr_bytes (txid o) ++ le_bytes 4 (index o).

Definition decode_outpoint_key (bytes : list byte) : result StorageError.t OutPoint :=
  if negb (length bytes =? 36)%nat then Err StorageError.CorruptData
  else
    let? id := map_err primitive_error (Hash256_from_slice (take 32 bytes)) in
    Ok (MkOutPoint id (le_num (drop 32 bytes))).

Definition utxo_entry_bytes (e : UtxoEntry) : list byte :=
  let program := locking_program (output e) in
  [STORAGE_RECORD_VERSION] ++ le_bytes 8 (base_units (value (output e)))
    ++ le_bytes 8 (creation_height e) ++ [encode_flag (is_coinbase e)]
    ++ (write_varint (Z.of_nat (length program)) ++ program).

Definition encode_utxo_entry (e : UtxoEntry) : result StorageError.t (list byte) :=
  let program := locking_program (output e) in
  if Z.of_nat (length program) >? MAX_LOCKING_PROGRAM_BYTES then Err StorageError.CorruptData
  else Ok (utxo_entry_bytes e).

Definition read_utxo_entry : storage_reader UtxoEntry :=
  let! _ := read_version in
  let! value := (let! units := StorageCursor_read_u64 in
                 eff_lift (map_err primitive_error (Amount_from_base_units units))) in
  let! creation_height := StorageCursor_read_u64 in
  let! is_coinbase := read_flag in
  let! program := read_sized MAX_LOCKING_PROGRAM_BYTES in
  eff_ret (MkUtxoEntry (MkTxOutput value program) creation_height is_coinbase).

Definition decode_utxo_entry (bytes : list byte) : result StorageError.t UtxoEntry :=
  if Z.of_nat (length bytes) >? MAX_UTXO_RECORD_BYTES then Err StorageError.CorruptData
  else
    fst ((let! e := read_utxo_entry in let! _ := StorageCursor_finish in eff_lift (Ok e))
           (Decoder_new bytes)).

(** ** Undo records *)

Definition outpoint_ltb (a b : OutPoint) : bool := negb (bool_decide (outpoint_le b a)).

Definition require_next_outpoint (previous : option OutPoint) (current : OutPoint)
  : result StorageError.t unit :=
  match previous with
  | Some value => if outpoint_ltb value current then Ok tt else Err StorageError.CorruptData
  | None => Ok tt
  end.

Fixpoint strictly_sorted (outpoints : list OutPoint) : bool :=
  match outpoints with
  | a :: ((b :: _) as rest) => outpoint_ltb a b && strictly_sorted rest
  | _ => true
  end.

Definition require_strictly_sorted_outpoints (outpoints : list OutPoint) : result StorageError.t unit :=
  if strictly_sorted outpoints then Ok tt else Err StorageError.CorruptData.

Definition encode_spent (p : OutPoint * UtxoEntry) : result StorageError.t (list byte) :=
  let? entry := encode_utxo_entry p.2 in
  Ok (encode_outpoint_key p.1 ++ (write_varint (Z.of_nat (length entry)) ++ entry)).

Definition encode_block_undo (u : BlockUndo) : result StorageError.t (list byte) :=
  if (Z.of_nat (length (spent u)) >? MAX_UNDO_ENTRIES) || (Z.of_nat (length (created u)) >? MAX_UNDO_ENTRIES)
  then Err StorageError.CorruptData
  else
    let spent_outpoints := (spent u).*1 in
    let? _ := require_strictly_sorted_outpoints spent_outpoints in
    let? _ := require_strictly_sorted_outpoints (created u) in
    if existsb (fun o => bool_decide (o ∈ spent_outpoints)) (created u) then Err StorageError.CorruptData
    else
      let? spent_bytes := try_map encode_spent (spent u) in
      Ok ([STORAGE_RECORD_VERSION] ++ write_varint (Z.of_nat (length (spent u))) ++ concat spent_bytes
            ++ write_varint (Z.of_nat (length (created u))) ++ encode_all encode_outpoint_key (created u)).

Definition read_outpoint_key : storage_reader OutPoint :=
  let! bytes := StorageCursor_read_exact 36 in eff_lift (decode_outpoint_key bytes).

Fixpoint read_spent (count : nat) (previous : option OutPoint) : storage_reader (list (OutPoint * UtxoEntry)) :=
  match count with
  | O => eff_ret []
  | S count =>
      let! outpoint := read_outpoint_key in
      let! _ := eff_lift (require_next_outpoint previous outpoint) in
      let! entry := (let! bytes := read_sized MAX_UTXO_RECORD_BYTES in eff_lift (decode_utxo_entry bytes)) in
      let! rest := read_spent count (Some outpoint) in
      eff_ret ((outpoint, entry) :: rest)
  end.

Fixpoint read_created (count : nat) (previous : option OutPoint) (spent_outpoints : gset OutPoint)
  : storage_reader (list OutPoint) :=
  match count with
  | O => eff_ret []
  | S count =>
      let! outpoint := read_outpoint_key in
      let! _ := eff_lift (require_next_outpoint previous outpoint) in
      let! _ := eff_lift (if bool_decide (outpoint ∈ spent_outpoints) then Err StorageError.CorruptData
                          else Ok tt) in
      let! rest := read_created count (Some outpoint) spent_outpoints in
      eff_ret (outpoint :: rest)
  end.

Definition read_block_undo : storage_reader BlockUndo :=
  let! _ := read_version in
  let! spent_count := StorageCursor_read_len MAX_UNDO_ENTRIES in
  let! spent := read_spent spent_count None in
  let! created_count := StorageCursor_read_len MAX_UNDO_ENTRIES in
  let! created := read_created created_count None (list_to_set spent.*1) in
  eff_ret (MkBlockUndo spent created).

Definition decode_block_undo (bytes : list byte) : result StorageError.t BlockUndo :=
  fst ((let! u := read_block_undo in let! _ := StorageCursor_finish in eff_lift (Ok u)) (Decoder_new bytes)).

(** ** What the Rust types guarantee *)

Definition entry_typed (e : UtxoEntry) : Prop := amount_ok (value (output e)) /\ in_u64 (creation_height e).
Definition outpoint_typed (o : OutPoint) : Prop := in_u32 (index o).
Definition index_typed (r : BlockIndexRecord) : Prop :=
  header_within (idx_header r) /\ in_u64 (idx_height r) /\ 0 <= work_value (idx_work r).
Definition undo_typed (u : BlockUndo) : Prop :=
  Forall (fun p => outpoint_typed p.1 /\ entry_typed p.2) (spent u) /\ Forall outpoint_typed (created u).

(** ** The cursor's readers are codecs *)

#[export] Instance cursor_read_exact_codec n :
  Codec (fun l => l) (StorageCursor_read_exact n) (fun l => length l = n).
Proof. unfold StorageCursor_read_exact. apply _. Qed.

#[export] Instance cursor_read_u8_codec : Codec (fun b => [b]) StorageCursor_read_u8 (fun _ => True).
Proof.
  intros d b d' W. unfold StorageCursor_read_u8. split.
  - intros H. codec_fwd H. destruct a as [|x [|? ?]]; simplify_eq/=. injection H as <- <-. done.
  - intros [_ C]. codec_bwd; done.
Qed.

#[export] Instance cursor_read_u64_codec : Codec (le_bytes 8) StorageCursor_read_u64 in_u64.
Proof. unfold StorageCursor_read_u64. apply _. Qed.

#[export] Instance cursor_read_len_codec max :
  Codec (fun n => write_varint (Z.of_nat n)) (StorageCursor_read_len max)
    (fun n => Z.of_nat n <= max /\ Z.of_nat n <= USIZE_MAX).
Proof. unfold StorageCursor_read_len. apply _. Qed.

#[export] Instance read_sized_codec max : Codec encode_var_bytes (read_sized max) (fun l => fits l max).
Proof.
  intros d l d' W. unfold read_sized, encode_var_bytes. split.
  - intros H. codec_fwd H. apply codec_spec in H as [HL C']; [|by eauto using consumes_wf].
    subst a. split; [done|]. consumes_join.
  - intros [[? ?] C]. consumes_split C. codec_bwd; [done|]. apply codec_spec; eauto using consumes_wf.
Qed.

#[export] Instance read_version_codec :
  Codec (fun _ => [STORAGE_RECORD_VERSION]) read_version (fun _ => True).
Proof.
  intros d [] d' W. unfold read_version. split.
  - intros H. codec_fwd H. case_bool_decide; [|done]. injection H as <-. by subst.
  - intros [_ C]. codec_bwd; [done|]. done.
Qed.

Ltac version_bwd :=
  eapply (codec_bind_bwd (enc := fun _ => [STORAGE_RECORD_VERSION]) _ _ tt);
    [by eauto using consumes_wf|done|eassumption|].

Lemma decode_flag_spec b f : decode_flag b = Ok f <-> b = encode_flag f.
Proof.
  unfold decode_flag. split.
  - intros H. apply byte_to_Z_inj. destruct (byte_to_Z b) as [|[| |]|]; simplify_eq; done.
  - intros ->. by destruct f.
Qed.

#[export] Instance read_flag_codec : Codec (fun f => [encode_flag f]) read_flag (fun _ => True).
Proof.
  apply (codec_convert (fun b => [b]) StorageCursor_read_u8 (fun _ => True) _ encode_flag); [apply _| |done].
  intros b a _. rewrite decode_flag_spec. tauto.
Qed.

Lemma decode_validation_status_spec b v : decode_validation_status b = Ok v <-> b = encode_validation_status v.
Proof.
  unfold decode_validation_status. split.
  - intros H. apply byte_to_Z_inj. destruct (byte_to_Z b) as [|[|[]|]|]; simplify_eq; done.
  - intros ->. by destruct v.
Qed.

#[export] Instance read_validation_codec :
  Codec (fun v => [encode_validation_status v])
    (let! b := StorageCursor_read_u8 in eff_lift (decode_validation_status b)) (fun _ => True).
Proof.
  apply (codec_convert (fun b => [b]) StorageCursor_read_u8 (fun _ => True) _ encode_validation_status);
    [apply _| |done].
  intros b a _. rewrite decode_validation_status_spec. tauto.
Qed.

#[export] Instance read_header_codec :
  Codec BlockHeader_encode
    (let! bytes := StorageCursor_read_exact BLOCK_HEADER_BYTES in
     eff_lift (map_err primitive_error (BlockHeader_decode bytes))) header_within.
Proof.
  apply (codec_convert (fun l => l) (StorageCursor_read_exact BLOCK_HEADER_BYTES)
           (fun l => length l = BLOCK_HEADER_BYTES) _ BlockHeader_encode).
  - apply _.
  - intros b a HL. rewrite map_err_Ok. split.
    + intros [-> ?]%BlockHeader_decode_spec; [done|]. rewrite HL. by vm_compute.
    + intros [? ->]. by apply BlockHeader_decode_encode.
  - intros a _. apply length_BlockHeader_encode.
Qed.

#[export] Instance read_hash_bytes_codec :
  Codec arr_bytes
    (let! bytes := StorageCursor_read_exact 32 in
     eff_lift (map_err primitive_error (Hash256_from_slice bytes))) (fun _ => True).
Proof.
  apply (codec_convert (fun l => l) (StorageCursor_read_exact 32) (fun l => length l = 32%nat) _ arr_bytes).
  - apply _.
  - intros b a _. unfold Hash256_from_slice. rewrite map_err_Ok, ok_or_Ok, to_arr_Some. tauto.
  - intros a _. apply arr_length.
Qed.

#[export] Instance read_work_codec :
  Codec (fun w => encode_var_bytes (ChainWork_to_canonical_be_bytes w))
    (let! bytes := read_sized MAX_CHAINWORK_BYTES in
     eff_lift (ok_or (ChainWork_from_canonical_be_bytes bytes) StorageError.CorruptData))
    (fun w => 0 <= work_value w /\ fits (ChainWork_to_canonical_be_bytes w) MAX_CHAINWORK_BYTES).
Proof.
  apply (codec_convert encode_var_bytes (read_sized MAX_CHAINWORK_BYTES) (fun l => fits l MAX_CHAINWORK_BYTES)
           _ ChainWork_to_canonical_be_bytes).
  - apply _.
  - intros b a HL. rewrite ok_or_Ok. split.
    + intros [<- ?]%chain_work_encode_decode. done.
    + intros [[? _] ->]. by apply chain_work_decode_encode.
  - by intros a [_ ?].
Qed.

#[export] Instance read_amount_codec :
  Codec (fun a => le_bytes 8 (base_units a))
    (let! units := StorageCursor_read_u64 in
     eff_lift (map_err primitive_error (Amount_from_base_units units))) amount_ok.
Proof.
  apply (codec_convert (le_bytes 8) StorageCursor_read_u64 in_u64 _ base_units).
  - apply _.
  - intros u [v] Hu. rewrite map_err_Ok. unfold Amount_from_base_units, amount_ok. simpl.
    destruct (Z.gtb_spec u MAX_SUPPLY_BASE_UNITS); split; unfold_ints; [done|lia|naive_solver lia|].
    by intros [_ ->].
  - intros [v] [? HM]. simpl in *. unfold MAX_SUPPLY_BASE_UNITS, BASE_UNITS_PER_OREG in HM. unfold_ints. lia.
Qed.

(** ** Block index records *)

#[export] Instance read_block_index_codec :
  Codec block_index_bytes read_block_index
    (fun r => index_typed r /\ fits (ChainWork_to_canonical_be_bytes (idx_work r)) MAX_CHAINWORK_BYTES).
Proof.
  intros d [h p ht w v b] d' W. unfold read_block_index, block_index_bytes, index_typed. cbn -[le_bytes app]. split.
  - intros H. do 7 codec_fwd H. injection H as -> -> -> -> -> -> <-.
    destruct Wf3. split; [done|]. fold (encode_var_bytes (ChainWork_to_canonical_be_bytes w)). consumes_join.
  - intros [[(? & ? & ?) ?] C]. fold (encode_var_bytes (ChainWork_to_canonical_be_bytes w)) in C.
    do 6 consumes_split C. version_bwd. do 6 (codec_bwd; [done|]). done.
Qed.

Lemma length_block_index r :
  fits (ChainWork_to_canonical_be_bytes (idx_work r)) MAX_CHAINWORK_BYTES ->
  (length (block_index_bytes r) <= 214)%nat.
Proof.
  intros [HL _]. unfold block_index_bytes. rewrite !length_app, length_BlockHeader_encode, length_le_bytes, arr_length.
  pose proof (length_write_varint (Z.of_nat (length (ChainWork_to_canonical_be_bytes (idx_work r))))).
  unfold MAX_CHAINWORK_BYTES, BLOCK_HEADER_BYTES in *. simpl. lia.
Qed.

Lemma encode_block_index_spec r bytes :
  encode_block_index r = Ok bytes <->
  idx_parent r = previous_block (idx_header r) /\
  fits (ChainWork_to_canonical_be_bytes (idx_work r)) MAX_CHAINWORK_BYTES /\ bytes = block_index_bytes r.
Proof.
  unfold encode_block_index, fits. rewrite length_BlockHeader_encode. cbn [negb Nat.eqb].
  case_bool_decide; cbn [negb]; [|naive_solver].
  destruct (Z.gtb_spec (Z.of_nat (length (ChainWork_to_canonical_be_bytes (idx_work r)))) MAX_CHAINWORK_BYTES) as [HG|HG].
  - split; [done|]. intros (_ & [? _] & _). lia.
  - assert (MAX_CHAINWORK_BYTES <= USIZE_MAX) by by vm_compute.
    change (BLOCK_HEADER_BYTES =? BLOCK_HEADER_BYTES)%nat with true. cbn [negb]. split; [|naive_solver].
    intros [= <-]. split_and!; [done|lia|lia|done].
Qed.

(** A block index record is read back exactly when its encoding was written. *)
Lemma decode_block_index_spec bytes r :
  Z.of_nat (length bytes) <= USIZE_MAX ->
  decode_block_index bytes = Ok r <-> index_typed r /\ encode_block_index r = Ok bytes.
Proof.
  intros HL. unfold decode_block_index, StorageCursor_finish.
  rewrite (decode_checked_spec primitive_error _ block_index_bytes read_block_index) by (done || apply _).
  setoid_rewrite encode_block_index_spec. split.
  - intros (r' & [? ?] & -> & Hc). case_bool_decide; [|done]. injection Hc as ->. done.
  - intros (? & ? & ? & ->). exists r. rewrite bool_decide_true by done. done.
Qed.

Lemma block_index_round_trip r bytes :
  index_typed r -> encode_block_index r = Ok bytes -> decode_block_index bytes = Ok r.
Proof.
  intros HT HE. apply decode_block_index_spec; [|done]. apply encode_block_index_spec in HE as (_ & HF & ->).
  apply length_block_index in HF. unfold_ints. lia.
Qed.

(** ** Health, schema and keys *)

Lemma node_health_round_trip h : decode_node_health (encode_node_health h) = Ok h.
Proof. by destruct h. Qed.

Lemma be_num_be_bytes n z : 0 <= z < 256 ^ Z.of_nat n -> be_num (be_bytes n z) = z.
Proof. intros Hz. unfold be_num, be_bytes. rewrite rev_involutive. by apply le_num_le_bytes. Qed.

Lemma length_be_bytes n z : length (be_bytes n z) = n.
Proof. unfold be_bytes. by rewrite length_rev, length_le_bytes. Qed.

Definition version_typed (v : SchemaVersion) : Prop := in_u16 (major v) /\ in_u16 (minor v).

Lemma schema_version_round_trip v :
  version_typed v -> decode_schema_version (encode_schema_version v) = Ok v.
Proof.
  intros [H1 H2]. unfold decode_schema_version, encode_schema_version.
  rewrite length_app, !length_be_bytes. simpl negb. cbn [negb Nat.add Nat.eqb].
  rewrite take_app_length', drop_app_length' by (by rewrite length_be_bytes). unfold_ints.
  rewrite !be_num_be_bytes by (simpl; lia). by destruct v.
Qed.

Lemma length_encode_schema_version v : length (encode_schema_version v) = 4%nat.
Proof. unfold encode_schema_version. by rewrite length_app, !length_be_bytes. Qed.

Lemma migration_marker_round_trip from to :
  version_typed from -> version_typed to ->
  decode_migration_marker (encode_migration_marker from to) = Ok (from, to).
Proof.
  intros H1 H2. unfold decode_migration_marker, encode_migration_marker, MIGRATION_MARKER_BYTES.
  pose proof (length_encode_schema_version from) as L1. pose proof (length_encode_schema_version to) as L2.
  rewrite !length_app, L1, L2. cbn [length Nat.add Nat.eqb negb head app].
  rewrite bool_decide_true by done. cbn [negb drop].
  rewrite drop_0, take_app_length' by done.
  rewrite drop_app_length', (take_ge (encode_schema_version to)) by lia.
  by rewrite !schema_version_round_trip.
Qed.

Lemma active_height_key_inj a b : in_u64 a -> in_u64 b -> active_height_key a = active_height_key b -> a = b.
Proof.
  intros Ha Hb E. apply app_inv_head in E. unfold_ints.
  rewrite <- (be_num_be_bytes 8 a), <- (be_num_be_bytes 8 b) by (simpl; lia). by rewrite E.
Qed.

Lemma length_active_height_key h : length (active_height_key h) = 15%nat.
Proof. unfold active_height_key. rewrite length_app, length_be_bytes. done. Qed.

Lemma length_outpoint_key o : length (encode_outpoint_key o) = 36%nat.
Proof. unfold encode_outpoint_key. by rewrite length_app, arr_length, length_le_bytes. Qed.

Lemma decode_outpoint_key_spec bytes o :
  decode_outpoint_key bytes = Ok o <-> outpoint_typed o /\ bytes = encode_outpoint_key o.
Proof.
  unfold decode_outpoint_key, outpoint_typed, encode_outpoint_key, Hash256_from_slice. split.
  - destruct (Nat.eqb_spec (length bytes) 36) as [HL|]; [|done]. cbn [negb].
    destruct (to_arr 32 (take 32 bytes)) as [a|] eqn:Ea; [|done]. apply to_arr_Some in Ea.
    intros [= <-]. simpl. pose proof (le_num_range (drop 32 bytes)) as R.
    rewrite length_drop, HL in R. split; [unfold_ints; simpl in R; lia|].
    rewrite <- Ea, (le_bytes_eq 4 (drop 32 bytes)), take_drop; [done|rewrite length_drop; lia|done].
  - intros [Hi ->]. rewrite length_app, arr_length, length_le_bytes. cbn [Nat.add Nat.eqb negb].
    rewrite take_app_length', drop_app_length', to_arr_bytes by (by rewrite arr_length). cbn.
    rewrite le_num_le_bytes by (unfold_ints; simpl; lia). by destruct o.
Qed.

Lemma outpoint_key_inj a b :
  outpoint_typed a -> outpoint_typed b -> encode_outpoint_key a = encode_outpoint_key b -> a = b.
Proof.
  intros Ha Hb E. assert (Ok a = Ok (E := StorageError.t) b) as [= ->]; [|done].
  rewrite <- (proj2 (decode_outpoint_key_spec (encode_outpoint_key a) a)) by done.
  rewrite E. by apply decode_outpoint_key_spec.
Qed.

(** ** Unspent outputs *)

Definition entry_wf (e : UtxoEntry) : Prop :=
  entry_typed e /\ fits (locking_program (output e)) MAX_LOCKING_PROGRAM_BYTES.

#[export] Instance read_utxo_entry_codec : Codec utxo_entry_bytes read_utxo_entry entry_wf.
Proof.
  intros d [[v pr] ht cb] d' W. unfold read_utxo_entry, utxo_entry_bytes, entry_wf, entry_typed.
  cbn -[le_bytes app]. fold (encode_var_bytes pr). split.
  - intros H. do 5 codec_fwd H. injection H as -> -> -> -> <-. split; [done|]. consumes_join.
  - intros [[[? ?] ?] C]. do 4 consumes_split C. version_bwd. do 4 (codec_bwd; [done|]). done.
Qed.

Lemma length_utxo_entry_bytes e :
  fits (locking_program (output e)) MAX_LOCKING_PROGRAM_BYTES ->
  Z.of_nat (length (utxo_entry_bytes e)) <= MAX_UTXO_RECORD_BYTES.
Proof.
  intros [HL _]. unfold utxo_entry_bytes. rewrite !length_app, !length_le_bytes.
  pose proof (length_write_varint (Z.of_nat (length (locking_program (output e))))).
  unfold MAX_LOCKING_PROGRAM_BYTES, MAX_UTXO_RECORD_BYTES in *. simpl. lia.
Qed.

Lemma encode_utxo_entry_spec e bytes :
  encode_utxo_entry e = Ok bytes <->
  fits (locking_program (output e)) MAX_LOCKING_PROGRAM_BYTES /\ bytes = utxo_entry_bytes e.
Proof.
  unfold encode_utxo_entry, fits.
  destruct (Z.gtb_spec (Z.of_nat (length (locking_program (output e)))) MAX_LOCKING_PROGRAM_BYTES).
  - split; [done|]. lia.
  - assert (MAX_LOCKING_PROGRAM_BYTES <= USIZE_MAX) by by vm_compute. split; [|naive_solver].
    intros [= <-]. split_and!; [lia|lia|done].
Qed.

Lemma decode_utxo_entry_spec bytes e :
  decode_utxo_entry bytes = Ok e <-> entry_typed e /\ encode_utxo_entry e = Ok bytes.
Proof.
  unfold decode_utxo_entry. rewrite encode_utxo_entry_spec.
  destruct (Z.gtb_spec (Z.of_nat (length bytes)) MAX_UTXO_RECORD_BYTES) as [HG|HG].
  - split; [done|]. intros (_ & HF%length_utxo_entry_bytes & ->). lia.
  - unfold StorageCursor_finish.
    rewrite (decode_checked_spec primitive_error _ utxo_entry_bytes read_utxo_entry entry_wf) by
      (unfold MAX_UTXO_RECORD_BYTES in *; unfold_ints; lia).
    unfold entry_wf. naive_solver.
Qed.

(** ** Undo records *)

#[export] Instance read_outpoint_key_codec : Codec encode_outpoint_key read_outpoint_key outpoint_typed.
Proof.
  apply (codec_convert (fun l => l) (StorageCursor_read_exact 36) (fun l => length l = 36%nat) _ encode_outpoint_key).
  - apply _.
  - intros b a _. apply decode_outpoint_key_spec.
  - intros a _. apply length_outpoint_key.
Qed.

#[export] Instance read_entry_record_codec :
  Codec (fun e => encode_var_bytes (utxo_entry_bytes e))
    (let! bytes := read_sized MAX_UTXO_RECORD_BYTES in eff_lift (decode_utxo_entry bytes)) entry_wf.
Proof.
  apply (codec_convert encode_var_bytes (read_sized MAX_UTXO_RECORD_BYTES) (fun l => fits l MAX_UTXO_RECORD_BYTES)
           _ utxo_entry_bytes).
  - apply _.
  - intros b a _. rewrite decode_utxo_entry_spec, encode_utxo_entry_spec. unfold entry_wf. tauto.
  - intros a [_ HF%length_utxo_entry_bytes]. unfold fits, MAX_UTXO_RECORD_BYTES in *. unfold_ints. lia.
Qed.

Definition next_ok (previous : option OutPoint) (o : OutPoint) : bool :=
  match previous with Some p => outpoint_ltb p o | None => true end.

Fixpoint sorted_from (previous : option OutPoint) (l : list OutPoint) : bool :=
  match l with
  | [] => true
  | o :: l => next_ok previous o && sorted_from (Some o) l
  end.

Lemma strictly_sorted_from l : strictly_sorted l = sorted_from None l.
Proof.
  destruct l as [|a l]; [done|]. simpl. revert a. induction l as [|b l IH]; intros a; [done|].
  cbn [strictly_sorted sorted_from next_ok]. by rewrite <- IH.
Qed.

Lemma require_next_ok previous o : require_next_outpoint previous o = Ok tt <-> next_ok previous o = true.
Proof. destruct previous as [p|]; simpl; [|tauto]. by destruct (outpoint_ltb p o). Qed.

Lemma eff_lift_bind_Ok {E A B} (r : result E A) (k : A -> eff Decoder E B) d b d' :
  eff_bind (eff_lift r) k d = (Ok b, d') <-> exists a, r = Ok a /\ k a d = (Ok b, d').
Proof. unfold eff_bind, eff_lift. destruct r; naive_solver. Qed.

Definition spent_bytes (p : OutPoint * UtxoEntry) : list byte :=
  encode_outpoint_key p.1 ++ encode_var_bytes (utxo_entry_bytes p.2).
Definition spent_wf (p : OutPoint * UtxoEntry) : Prop := outpoint_typed p.1 /\ entry_wf p.2.

#[export] Instance read_spent_codec n previous :
  Codec (encode_all spent_bytes) (read_spent n previous)
    (fun l => length l = n /\ sorted_from previous l.*1 = true /\ Forall spent_wf l).
Proof.
  revert previous. induction n as [|n IH]; intros previous d l d' W; cbn [read_spent].
  - split.
    + intros [= <- <-]. split; [done|]. by apply consumes_nil.
    + intros [(->%nil_length_inv & _) ->%consumes_nil]; done.
  - split.
    + intros H. codec_fwd H. apply eff_lift_bind_Ok in H as ([] & Hn%require_next_ok & H).
      do 2 codec_fwd H. injection H as <- <-. destruct Wf1 as (HL & HS & HF).
      split; [|simpl; unfold spent_bytes at 1; rewrite <- app_assoc; consumes_join].
      cbn. rewrite Hn, HS. split_and!; [by f_equal|done|]. constructor; [done|done].
    + intros [(HL & HS & HF) C]. destruct l as [|[o e] l]; [done|]. inversion HF as [|? ? [? ?]]; subst.
      cbn in C, HS. apply andb_prop in HS as [Hn HS]. unfold spent_bytes at 1 in C. rewrite <- app_assoc in C.
      do 2 consumes_split C. codec_bwd; [done|]. apply eff_lift_bind_Ok. exists tt.
      split; [by apply require_next_ok|]. codec_bwd; [done|]. codec_bwd; [|done]. simpl in HL. auto with lia.
Qed.

#[export] Instance read_created_codec n previous S :
  Codec (encode_all encode_outpoint_key) (read_created n previous S)
    (fun l => length l = n /\ sorted_from previous l = true /\ Forall (fun o => o ∉ S) l /\ Forall outpoint_typed l).
Proof.
  revert previous. induction n as [|n IH]; intros previous d l d' W; cbn [read_created].
  - split.
    + intros [= <- <-]. split; [done|]. by apply consumes_nil.
    + intros [(->%nil_length_inv & _) ->%consumes_nil]; done.
  - split.
    + intros H. codec_fwd H. apply eff_lift_bind_Ok in H as ([] & Hn%require_next_ok & H).
      apply eff_lift_bind_Ok in H as ([] & Hs & H). case_bool_decide; [done|].
      codec_fwd H. injection H as <- <-. destruct Wf0 as (HL & HS & HN & HF).
      split; [|simpl; consumes_join]. cbn. rewrite Hn, HS. split_and!; [by f_equal|done|by constructor|by constructor].
    + intros [(HL & HS & HN & HF) C]. destruct l as [|o l]; [done|].
      inversion HF; inversion HN; subst. cbn in C, HS. apply andb_prop in HS as [Hn HS].
      consumes_split C. codec_bwd; [done|]. apply eff_lift_bind_Ok. exists tt.
      split; [by apply require_next_ok|]. apply eff_lift_bind_Ok. exists tt. rewrite bool_decide_false by done.
      split; [done|]. codec_bwd; [|done]. simpl in HL. auto with lia.
Qed.

Definition undo_bytes (u : BlockUndo) : list byte :=
  [STORAGE_RECORD_VERSION] ++ write_varint (Z.of_nat (length (spent u))) ++ encode_all spent_bytes (spent u)
    ++ write_varint (Z.of_nat (length (created u))) ++ encode_all encode_outpoint_key (created u).

(** The undo records the encoder accepts. *)
Definition undo_wf (u : BlockUndo) : Prop :=
  fits (spent u) MAX_UNDO_ENTRIES /\ fits (created u) MAX_UNDO_ENTRIES /\
  strictly_sorted (spent u).*1 = true /\ strictly_sorted (created u) = true /\
  Forall (fun o => o ∉ (spent u).*1) (created u) /\
  Forall (fun p => fits (locking_program (output p.2)) MAX_LOCKING_PROGRAM_BYTES) (spent u).

#[export] Instance read_block_undo_codec :
  Codec undo_bytes read_block_undo (fun u => undo_typed u /\ undo_wf u).
Proof.
  intros d [sp cr] d' W. unfold read_block_undo, undo_bytes, undo_typed, undo_wf. cbn [spent created].
  rewrite !strictly_sorted_from. split.
  - intros H. do 5 codec_fwd H. injection H as -> -> <-.
    destruct Wf0 as [? ?], Wf2 as [? ?], Wf1 as (<- & ? & HF), Wf3 as (<- & ? & HN & ?).
    split; [|consumes_join]. split_and!; [|done|done|done|done|done| |].
    + eapply Forall_impl; [exact HF|]. intros p [? [? ?]]. done.
    + eapply Forall_impl; [exact HN|]. intros o Ho Hin. apply Ho. by apply elem_of_list_to_set.
    + eapply Forall_impl; [exact HF|]. intros p [? [? ?]]. done.
  - intros [((HF & ?) & [? ?] & [? ?] & ? & ? & HN & HP) C]. do 4 consumes_split C.
    version_bwd. codec_bwd; [done|]. codec_bwd; [split_and!; [done|done|]|].
    { rewrite Forall_forall in HF, HP |- *. intros p Hp. split; [by apply HF|]. split; [by apply HF|by apply HP]. }
    codec_bwd; [done|]. codec_bwd; [split_and!; [done|done| |done]|done].
    eapply Forall_impl; [exact HN|]. intros o Ho Hin%elem_of_list_to_set. done.
Qed.

Lemma try_map_spent l :
  (exists bs, try_map encode_spent l = Ok bs /\ concat bs = encode_all spent_bytes l /\
     Forall (fun p => fits (locking_program (output p.2)) MAX_LOCKING_PROGRAM_BYTES) l) \/
  (exists e, try_map encode_spent l = Err e) /\
  ~ Forall (fun p => fits (locking_program (output p.2)) MAX_LOCKING_PROGRAM_BYTES) l.
Proof.
  induction l as [|p l IH]; [left; by exists []|]. cbn [try_map]. unfold encode_spent at 1 3.
  destruct (encode_utxo_entry p.2) as [b|e] eqn:E.
  - apply encode_utxo_entry_spec in E as [HF ->]. destruct IH as [(bs & -> & Eb & HA)|[[e ->] HN]].
    + left. eexists. split_and!; [done|simpl; by rewrite Eb|by constructor].
    + right. split; [eauto|]. intros HA. by inversion HA.
  - right. split; [eauto|]. intros HA. inversion HA; subst.
    assert (encode_utxo_entry p.2 = Ok (utxo_entry_bytes p.2)) by (by apply encode_utxo_entry_spec). congruence.
Qed.

Lemma fits_undo_entries {A} (l : list A) :
  fits l MAX_UNDO_ENTRIES <-> (Z.of_nat (length l) >? MAX_UNDO_ENTRIES) = false.
Proof.
  unfold fits. destruct (Z.gtb_spec (Z.of_nat (length l)) MAX_UNDO_ENTRIES); split; try done; try lia.
  assert (MAX_UNDO_ENTRIES <= USIZE_MAX) by by vm_compute. lia.
Qed.

Lemma existsb_elem (l m : list OutPoint) :
  existsb (fun o => bool_decide (o ∈ m)) l = false <-> Forall (fun o => o ∉ m) l.
Proof.
  induction l as [|o l IH]; [done|]. simpl. rewrite orb_false_iff, IH, bool_decide_eq_false, Forall_cons. done.
Qed.

Lemma encode_block_undo_spec u bytes :
  encode_block_undo u = Ok bytes <-> undo_wf u /\ bytes = undo_bytes u.
Proof.
  unfold encode_block_undo, undo_wf, require_strictly_sorted_outpoints. rewrite !fits_undo_entries, <- existsb_elem.
  destruct (Z.of_nat (length (spent u)) >? _); [naive_solver|].
  destruct (Z.of_nat (length (created u)) >? _); [naive_solver|]. cbn [orb].
  destruct (strictly_sorted (spent u).*1); [|naive_solver]. destruct (strictly_sorted (created u)); [|naive_solver].
  destruct (existsb _ _); [naive_solver|].
  destruct (try_map_spent (spent u)) as [(bs & -> & -> & HA)|[[e ->] HN]]; [|naive_solver].
  unfold undo_bytes. naive_solver.
Qed.

Lemma length_encode_all {A} (enc : A -> list byte) (k : Z) l :
  Forall (fun a => Z.of_nat (length (enc a)) <= k) l ->
  Z.of_nat (length (encode_all enc l)) <= k * Z.of_nat (length l).
Proof.
  induction 1 as [|a l Ha HF IH]; [simpl; lia|]. unfold encode_all in *. simpl. rewrite length_app. lia.
Qed.

Lemma length_undo_bytes u : undo_wf u -> Z.of_nat (length (undo_bytes u)) <= USIZE_MAX.
Proof.
  intros ([H1 _] & [H2 _] & _ & _ & _ & HP). unfold undo_bytes. rewrite !length_app.
  pose proof (length_write_varint (Z.of_nat (length (spent u)))).
  pose proof (length_write_varint (Z.of_nat (length (created u)))).
  assert (Z.of_nat (length (encode_all spent_bytes (spent u))) <= 65645 * Z.of_nat (length (spent u))).
  { apply length_encode_all. eapply Forall_impl; [exact HP|]. intros p HF%length_utxo_entry_bytes.
    unfold spent_bytes, encode_var_bytes. rewrite !length_app, length_outpoint_key.
    pose proof (length_write_varint (Z.of_nat (length (utxo_entry_bytes p.2)))).
    unfold MAX_UTXO_RECORD_BYTES in HF. lia. }
  assert (Z.of_nat (length (encode_all encode_outpoint_key (created u))) <= 36 * Z.of_nat (length (created u))).
  { apply length_encode_all, Forall_true. intros o. by rewrite length_outpoint_key. }
  unfold MAX_UNDO_ENTRIES in *. cbn [length]. unfold_ints. lia.
Qed.

Lemma decode_block_undo_spec bytes u :
  Z.of_nat (length bytes) <= USIZE_MAX ->
  decode_block_undo bytes = Ok u <-> undo_typed u /\ encode_block_undo u = Ok bytes.
Proof.
  intros HL. unfold decode_block_undo, StorageCursor_finish.
  rewrite (decode_checked_spec primitive_error _ undo_bytes read_block_undo) by (done || apply _).
  rewrite encode_block_undo_spec. naive_solver.
Qed.

Lemma block_undo_round_trip u bytes :
  undo_typed u -> encode_block_undo u = Ok bytes -> decode_block_undo bytes = Ok u.
Proof.
  intros HT HE. apply decode_block_undo_spec; [|done]. apply encode_block_undo_spec in HE as [HW ->].
  by apply length_undo_bytes.
Qed.
