(* ===== verification/StoreSpec.v ===== *)
(** The interface between the chain state and its database: the batch of
    storage operations ([oregon-storage/src/batch.rs]), the abstract store a
    batch acts on, and the class of databases that implement it.  The chain
    state is written and verified against [BlockStoreLaws]; Storage.v shows
    that [OregonDb] over RocksDB satisfies it. *)
From S2P Require Import Prelude Encoding Transaction Block Difficulty Utxo Records.

(** ** Batches *)

Inductive DurabilityMode : Type := Sync | NoSync.

Inductive StorageOp : Type :=
| PutBlock (b : Block)
| DeleteBlock (id : Hash256)
| PutIndex (r : BlockIndexRecord)
| PutUtxo (o : OutPoint) (e : UtxoEntry)
| DeleteUtxo (o : OutPoint)
| PutUndo (id : Hash256) (u : BlockUndo)
| DeleteUndo (id : Hash256)
| SetActiveHeight (height : Z) (id : Hash256)
| DeleteActiveHeight (height : Z)
| SetTip (id : Hash256) (height : Z)
| SetPreferredHeaderTip (id : Hash256) (height : Z)
| SetConfigAnchorId (id : Hash256)
| SetConfigGenesisTimestamp (timestamp : Z)
| SetHealth (h : NodeHealth)
| SetPruneCursor (height : Z).

Definition StorageBatch : Type := list StorageOp.

Definition StorageBatch_new : StorageBatch := [].
Definition put_block (b : Block) (batch : StorageBatch) : StorageBatch := batch ++ [PutBlock b].
Definition delete_block (id : Hash256) (batch : StorageBatch) : StorageBatch := batch ++ [DeleteBlock id].
Definition put_index (r : BlockIndexRecord) (batch : StorageBatch) : StorageBatch := batch ++ [PutIndex r].
Definition put_utxo (o : OutPoint) (e : UtxoEntry) (batch : StorageBatch) : StorageBatch :=
  batch ++ [PutUtxo o e].
Definition delete_utxo (o : OutPoint) (batch : StorageBatch) : StorageBatch := batch ++ [DeleteUtxo o].
Definition put_undo (id : Hash256) (u : BlockUndo) (batch : StorageBatch) : StorageBatch :=
  batch ++ [PutUndo id u].
Definition delete_undo (id : Hash256) (batch : StorageBatch) : StorageBatch := batch ++ [DeleteUndo id].
Definition set_active_height (height : Z) (id : Hash256) (batch : StorageBatch) : StorageBatch :=
  batch ++ [SetActiveHeight height id].
Definition delete_active_height (height : Z) (batch : StorageBatch) : StorageBatch :=
  batch ++ [DeleteActiveHeight height].
Definition set_tip (id : Hash256) (height : Z) (batch : StorageBatch) : StorageBatch :=
  batch ++ [SetTip id height].
Definition set_preferred_header_tip (id : Hash256) (height : Z) (batch : StorageBatch) : StorageBatch :=
  batch ++ [SetPreferredHeaderTip id height].
Definition set_config_anchor_id (id : Hash256) (batch : StorageBatch) : StorageBatch :=
  batch ++ [SetConfigAnchorId id].
Definition set_config_genesis_timestamp (timestamp : Z) (batch : StorageBatch) : StorageBatch :=
  batch ++ [SetConfigGenesisTimestamp timestamp].
Definition set_health (h : NodeHealth) (batch : StorageBatch) : StorageBatch := batch ++ [SetHealth h].
Definition set_prune_cursor (height : Z) (batch : StorageBatch) : StorageBatch :=
  batch ++ [SetPruneCursor height].

(** ** The abstract store *)

Record Store : Type := MkStore {
  st_blocks : gmap Hash256 Block;
  st_index : gmap Hash256 BlockIndexRecord;
  st_utxos : gmap OutPoint UtxoEntry;
  st_undo : gmap Hash256 BlockUndo;
  st_active : gmap Z Hash256;
  st_tip : option (Hash256 * Z);
  st_header_tip : option (Hash256 * Z);
  st_anchor : option Hash256;
  st_genesis : option Z;
  st_health : option NodeHealth;
  st_cursor : option Z;
}.

Definition empty_store : Store := MkStore ∅ ∅ ∅ ∅ ∅ None None None None None None.

(** What one operation means. *)
Definition apply_op `{Blake3} (s : Store) (op : StorageOp) : Store :=
  let '(MkStore bl ix ux un ac tip htip an ge he cu) := s in
  match op with
  | PutBlock b => MkStore (<[block_id (header b) := b]> bl) ix ux un ac tip htip an ge he cu
  | DeleteBlock id => MkStore (delete id bl) ix ux un ac tip htip an ge he cu
  | PutIndex r => MkStore bl (<[block_id (idx_header r) := r]> ix) ux un ac tip htip an ge he cu
  | PutUtxo o e => MkStore bl ix (<[o := e]> ux) un ac tip htip an ge he cu
  | DeleteUtxo o => MkStore bl ix (delete o ux) un ac tip htip an ge he cu
  | PutUndo id u => MkStore bl ix ux (<[id := u]> un) ac tip htip an ge he cu
  | DeleteUndo id => MkStore bl ix ux (delete id un) ac tip htip an ge he cu
  | SetActiveHeight h id => MkStore bl ix ux un (<[h := id]> ac) tip htip an ge he cu
  | DeleteActiveHeight h => MkStore bl ix ux un (delete h ac) tip htip an ge he cu
  | SetTip id h => MkStore bl ix ux un ac (Some (id, h)) htip an ge he cu
  | SetPreferredHeaderTip id h => MkStore bl ix ux un ac tip (Some (id, h)) an ge he cu
  | SetConfigAnchorId id => MkStore bl ix ux un ac tip htip (Some id) ge he cu
  | SetConfigGenesisTimestamp t => MkStore bl ix ux un ac tip htip an (Some t) he cu
  | SetHealth h => MkStore bl ix ux un ac tip htip an ge (Some h) cu
  | SetPruneCursor h => MkStore bl ix ux un ac tip htip an ge he (Some h)
  end.

Definition apply_batch `{Blake3} (batch : StorageBatch) (s : Store) : Store := foldl apply_op s batch.

(** ** What the Rust types and the decoding limits guarantee of an operation *)

Definition block_storable (b : Block) : Prop :=
  block_within DecodeLimits_default b /\
  Z.of_nat (length (Block_encode b)) <= max_object_bytes DecodeLimits_default.

Definition op_typed (op : StorageOp) : Prop :=
  match op with
  | PutBlock b => block_storable b
  | PutIndex r => index_typed r
  | PutUtxo o e => outpoint_typed o /\ entry_typed e
  | DeleteUtxo o => outpoint_typed o
  | PutUndo _ u => undo_typed u
  | SetActiveHeight h _ | DeleteActiveHeight h | SetTip _ h | SetPreferredHeaderTip _ h
  | SetConfigGenesisTimestamp h | SetPruneCursor h => in_u64 h
  | DeleteBlock _ | DeleteUndo _ | SetConfigAnchorId _ | SetHealth _ => True
  end.

(** What every value in the store satisfies: it is typed, and blocks and
    index records are under the identifier of their header. *)
Record store_typed `{Blake3} (s : Store) : Prop := MkStoreTyped {
  typed_blocks id b : st_blocks s !! id = Some b -> block_id (header b) = id /\ block_storable b;
  typed_index id r : st_index s !! id = Some r ->
    block_id (idx_header r) = id /\ idx_parent r = previous_block (idx_header r) /\ index_typed r;
  typed_utxos o e : st_utxos s !! o = Some e -> outpoint_typed o /\ entry_typed e;
  typed_undo id u : st_undo s !! id = Some u -> undo_typed u;
  typed_active h id : st_active s !! h = Some id -> in_u64 h;
  typed_tip id h : st_tip s = Some (id, h) -> in_u64 h;
  typed_header_tip id h : st_header_tip s = Some (id, h) -> in_u64 h;
  typed_genesis t : st_genesis s = Some t -> in_u64 t;
  typed_cursor h : st_cursor s = Some h -> in_u64 h;
}.

(** ** The interface *)

Class BlockStore (DB : Type) : Type := {
  db_get_block : DB -> Hash256 -> result StorageError.t (option Block);
  db_get_index : DB -> Hash256 -> result StorageError.t (option BlockIndexRecord);
  db_get_undo : DB -> Hash256 -> result StorageError.t (option BlockUndo);
  db_iter_utxos : DB -> result StorageError.t (list (OutPoint * UtxoEntry));
  db_iter_body_retained_indices : DB -> result StorageError.t (list (Hash256 * BlockIndexRecord));
  db_active_id_at_height : DB -> Z -> result StorageError.t (option Hash256);
  db_active_tip : DB -> result StorageError.t (option (Hash256 * Z));
  db_preferred_header_tip : DB -> result StorageError.t (option (Hash256 * Z));
  db_config_anchor_id : DB -> result StorageError.t (option Hash256);
  db_config_genesis_timestamp : DB -> result StorageError.t (option Z);
  db_health : DB -> result StorageError.t (option NodeHealth);
  db_prune_cursor : DB -> result StorageError.t (option Z);
  db_commit : StorageBatch -> DurabilityMode -> eff DB StorageError.t unit;
}.

Definition commit_durable {DB} `{BlockStore DB} (batch : StorageBatch) : eff DB StorageError.t unit :=
  db_commit batch Sync.
Definition commit_maintenance {DB} `{BlockStore DB} (batch : StorageBatch) : eff DB StorageError.t unit :=
  db_commit batch NoSync.

(** [stores db s]: the database holds the store [s].  A read that succeeds
    gives what [s] holds; a batch is applied whole when the commit succeeds,
    and whole or not at all when it fails. *)
Class BlockStoreLaws `{Blake3} (DB : Type) `{!BlockStore DB} : Type := {
  stores : DB -> Store -> Prop;
  law_typed db s : stores db s -> store_typed s;
  law_get_block db s id r : stores db s -> db_get_block db id = Ok r -> r = st_blocks s !! id;
  law_get_index db s id r : stores db s -> db_get_index db id = Ok r -> r = st_index s !! id;
  law_get_undo db s id r : stores db s -> db_get_undo db id = Ok r -> r = st_undo s !! id;
  law_iter_utxos db s l : stores db s -> db_iter_utxos db = Ok l -> l ≡ₚ map_to_list (st_utxos s);
  law_iter_retained db s l : stores db s -> db_iter_body_retained_indices db = Ok l ->
    l ≡ₚ filter (fun p => idx_body_retained p.2 = true) (map_to_list (st_index s));
  law_active_id db s h r : stores db s -> in_u64 h -> db_active_id_at_height db h = Ok r -> r = st_active s !! h;
  law_active_tip db s r : stores db s -> db_active_tip db = Ok r -> r = st_tip s;
  law_header_tip db s r : stores db s -> db_preferred_header_tip db = Ok r -> r = st_header_tip s;
  law_anchor db s r : stores db s -> db_config_anchor_id db = Ok r -> r = st_anchor s;
  law_genesis db s r : stores db s -> db_config_genesis_timestamp db = Ok r -> r = st_genesis s;
  law_health db s r : stores db s -> db_health db = Ok r -> r = st_health s;
  law_cursor db s r : stores db s -> db_prune_cursor db = Ok r -> r = st_cursor s;
  law_commit db s batch mode db' : stores db s -> Forall op_typed batch ->
    db_commit batch mode db = (Ok tt, db') -> stores db' (apply_batch batch s);
  law_commit_err db s batch mode e db' : stores db s -> Forall op_typed batch ->
    db_commit batch mode db = (Err e, db') -> stores db' s \/ stores db' (apply_batch batch s);
}.
