(* ===== verification/Storage.v ===== *)
(** [oregon-storage/src/db.rs]: [OregonDb], five column families of RocksDB
    with the schema version, the migration from schema 1.0 to 1.1, the reads,
    and batches that are encoded and then written atomically.

    RocksDB is third-party code: its calls are the class [RocksDb], and what
    the code relies on (a read returns what was written, an iteration visits
    every key once, a write batch is applied whole or not at all) is the class
    [RocksDbLaws].  The content of a RocksDB error is only passed on and is not
    modelled.  The test hooks are not modelled. *)
From S2P Require Import Prelude Encoding Transaction Block Difficulty Utxo Records StoreSpec.

(** ** RocksDB *)

Inductive ColumnFamily : Type :=
| CF_BLOCKS | CF_BLOCK_INDEX | CF_UTXO | CF_UNDO | CF_CHAIN_META | DEFAULT_COLUMN_FAMILY.

#[global] Instance ColumnFamily_eq_dec : EqDecision ColumnFamily.
Proof. solve_decision. Defined.

Definition OREGON_COLUMN_FAMILIES : list ColumnFamily :=
  [CF_BLOCKS; CF_BLOCK_INDEX; CF_UTXO; CF_UNDO; CF_CHAIN_META].

Record EncodedOp : Type := MkEncodedOp {
  op_column_family : ColumnFamily;
  op_key : list byte;
  op_value : option (list byte);
}.

Definition EncodedOp_put (cf : ColumnFamily) (key value : list byte) : EncodedOp :=
  MkEncodedOp cf key (Some value).
Definition EncodedOp_delete (cf : ColumnFamily) (key : list byte) : EncodedOp := MkEncodedOp cf key None.

(** The calls of RocksDB; a [WriteBatch] is its list of puts and deletes. *)
Class RocksDb (DB : Type) : Type := {
  cf_handle : DB -> ColumnFamily -> bool;
  get_cf : DB -> ColumnFamily -> list byte -> result unit (option (list byte));
  iterator_cf : DB -> ColumnFamily -> list (result unit (list byte * list byte));
  write_opt : list EncodedOp -> bool -> eff DB unit unit;
}.

(** ** The database *)

Section OregonDb.
Context `{Blake3} {DB : Type} `{!RocksDb DB}.

Definition rocks {A} (r : result unit A) : result StorageError.t A := map_err (fun _ => StorageError.RocksDb) r.

Definition OregonDb_column_family (db : DB) (cf : ColumnFamily) : result StorageError.t unit :=
  if cf_handle db cf then Ok tt else Err StorageError.CorruptData.

Definition decode_hash (bytes : list byte) : result StorageError.t Hash256 :=
  map_err primitive_error (Hash256_from_slice bytes).

Definition decode_u64_le (bytes : list byte) : result StorageError.t Z :=
  if (length bytes =? 8)%nat then Ok (le_num bytes) else Err StorageError.CorruptData.

Definition read_tip_pair (db : DB) (id_key height_key : list byte)
  : result StorageError.t (option (Hash256 * Z)) :=
  let? id := rocks (get_cf db CF_CHAIN_META id_key) in
  let? height := rocks (get_cf db CF_CHAIN_META height_key) in
  match id, height with
  | None, None => Ok None
  | Some id, Some height =>
      let? id := decode_hash id in
      let? height := decode_u64_le height in
      Ok (Some (id, height))
  | _, _ => Err StorageError.CorruptData
  end.

(** [Option::map(..).transpose()] of a read. *)
Definition transpose_map {A} (f : list byte -> result StorageError.t A) (o : option (list byte))
  : result StorageError.t (option A) :=
  match o with
  | None => Ok None
  | Some bytes => let? a := f bytes in Ok (Some a)
  end.

Definition read_with {A} (db : DB) (cf : ColumnFamily) (key : list byte)
  (f : list byte -> result StorageError.t A) : result StorageError.t (option A) :=
  let? _ := OregonDb_column_family db cf in
  let? bytes := rocks (get_cf db cf key) in
  transpose_map f bytes.

Definition OregonDb_schema_version (db : DB) : result StorageError.t SchemaVersion :=
  let? _ := OregonDb_column_family db CF_CHAIN_META in
  let? bytes := rocks (get_cf db CF_CHAIN_META SCHEMA_KEY) in
  let? bytes := ok_or bytes StorageError.CorruptData in
  decode_schema_version bytes.

Definition OregonDb_get_block (db : DB) (id : Hash256) : result StorageError.t (option Block) :=
  read_with db CF_BLOCKS (arr_bytes id) (fun bytes =>
    let? block := map_err primitive_error (Block_decode bytes DecodeLimits_default) in
    if negb (bool_decide (block_id (header block) = id)) then Err StorageError.CorruptData else Ok block).

Definition OregonDb_get_index (db : DB) (id : Hash256) : result StorageError.t (option BlockIndexRecord) :=
  read_with db CF_BLOCK_INDEX (arr_bytes id) (fun bytes =>
    let? record := decode_block_index bytes in
    if negb (bool_decide (block_id (idx_header record) = id)) then Err StorageError.CorruptData else Ok record).

Definition OregonDb_get_utxo (db : DB) (o : OutPoint) : result StorageError.t (option UtxoEntry) :=
  read_with db CF_UTXO (encode_outpoint_key o) decode_utxo_entry.

Definition OregonDb_iter_utxos (db : DB) : result StorageError.t (list (OutPoint * UtxoEntry)) :=
  let? _ := OregonDb_column_family db CF_UTXO in
  try_map (fun item =>
    let? (key, value) := rocks item in
    let? o := decode_outpoint_key key in
    let? e := decode_utxo_entry value in
    Ok (o, e)) (iterator_cf db CF_UTXO).

Definition OregonDb_get_undo (db : DB) (id : Hash256) : result StorageError.t (option BlockUndo) :=
  read_with db CF_UNDO (arr_bytes id) decode_block_undo.

Definition OregonDb_active_id_at_height (db : DB) (height : Z) : result StorageError.t (option Hash256) :=
  read_with db CF_CHAIN_META (active_height_key height) decode_hash.

Definition OregonDb_active_tip (db : DB) : result StorageError.t (option (Hash256 * Z)) :=
  let? _ := OregonDb_column_family db CF_CHAIN_META in
  read_tip_pair db ACTIVE_TIP_ID_KEY ACTIVE_TIP_HEIGHT_KEY.

Definition OregonDb_preferred_header_tip (db : DB) : result StorageError.t (option (Hash256 * Z)) :=
  let? _ := OregonDb_column_family db CF_CHAIN_META in
  read_tip_pair db PREFERRED_HEADER_TIP_ID_KEY PREFERRED_HEADER_TIP_HEIGHT_KEY.

Definition OregonDb_config_anchor_id (db : DB) : result StorageError.t (option Hash256) :=
  read_with db CF_CHAIN_META CONFIG_ANCHOR_ID_KEY decode_hash.

Definition OregonDb_config_genesis_timestamp (db : DB) : result StorageError.t (option Z) :=
  read_with db CF_CHAIN_META CONFIG_GENESIS_TIMESTAMP_KEY decode_u64_le.

Definition OregonDb_health (db : DB) : result StorageError.t (option NodeHealth) :=
  read_with db CF_CHAIN_META HEALTH_STATE_KEY decode_node_health.

Definition OregonDb_prune_cursor (db : DB) : result StorageError.t (option Z) :=
  read_with db CF_CHAIN_META PRUNE_CURSOR_KEY decode_u64_le.

Definition OregonDb_iter_body_retained_indices (db : DB)
  : result StorageError.t (list (Hash256 * BlockIndexRecord)) :=
  let? _ := OregonDb_column_family db CF_BLOCK_INDEX in
  try_fold (fun records item =>
    let? (key, value) := rocks item in
    let? id := decode_hash key in
    let? record := decode_block_index value in
    if negb (bool_decide (block_id (idx_header record) = id)) then Err StorageError.CorruptData
    else if idx_body_retained record then Ok (records ++ [(id, record)]) else Ok records)
    (iterator_cf db CF_BLOCK_INDEX) [].

(** ** Encoding and committing a batch *)

Definition encode_operation (op : StorageOp) : result StorageError.t (list EncodedOp) :=
  match op with
  | PutBlock b => Ok [EncodedOp_put CF_BLOCKS (arr_bytes (block_id (header b))) (Block_encode b)]
  | DeleteBlock id => Ok [EncodedOp_delete CF_BLOCKS (arr_bytes id)]
  | PutIndex r =>
      let? value := encode_block_index r in
      Ok [EncodedOp_put CF_BLOCK_INDEX (arr_bytes (block_id (idx_header r))) value]
  | PutUtxo o e =>
      let? value := encode_utxo_entry e in
      Ok [EncodedOp_put CF_UTXO (encode_outpoint_key o) value]
  | DeleteUtxo o => Ok [EncodedOp_delete CF_UTXO (encode_outpoint_key o)]
  | PutUndo id u =>
      let? value := encode_block_undo u in
      Ok [EncodedOp_put CF_UNDO (arr_bytes id) value]
  | DeleteUndo id => Ok [EncodedOp_delete CF_UNDO (arr_bytes id)]
  | SetActiveHeight h id => Ok [EncodedOp_put CF_CHAIN_META (active_height_key h) (arr_bytes id)]
  | DeleteActiveHeight h => Ok [EncodedOp_delete CF_CHAIN_META (active_height_key h)]
  | SetTip id h =>
      Ok [EncodedOp_put CF_CHAIN_META ACTIVE_TIP_ID_KEY (arr_bytes id);
          EncodedOp_put CF_CHAIN_META ACTIVE_TIP_HEIGHT_KEY (le_bytes 8 h)]
  | SetPreferredHeaderTip id h =>
      Ok [EncodedOp_put CF_CHAIN_META PREFERRED_HEADER_TIP_ID_KEY (arr_bytes id);
          EncodedOp_put CF_CHAIN_META PREFERRED_HEADER_TIP_HEIGHT_KEY (le_bytes 8 h)]
  | SetConfigAnchorId id => Ok [EncodedOp_put CF_CHAIN_META CONFIG_ANCHOR_ID_KEY (arr_bytes id)]
  | SetConfigGenesisTimestamp t =>
      Ok [EncodedOp_put CF_CHAIN_META CONFIG_GENESIS_TIMESTAMP_KEY (le_bytes 8 t)]
  | SetHealth h => Ok [EncodedOp_put CF_CHAIN_META HEALTH_STATE_KEY (encode_node_health h)]
  | SetPruneCursor h => Ok [EncodedOp_put CF_CHAIN_META PRUNE_CURSOR_KEY (le_bytes 8 h)]
  end.

Definition encode_operations (operations : list StorageOp) : result StorageError.t (list EncodedOp) :=
  try_fold (fun encoded op => let? ops := encode_operation op in Ok (encoded ++ ops)) operations [].

Definition OregonDb_commit (batch : StorageBatch) (mode : DurabilityMode) : eff DB StorageError.t unit := fun db =>
  match
    (let? encoded := encode_operations batch in
     try_map (fun op => let? _ := OregonDb_column_family db (op_column_family op) in Ok op) encoded)
  with
  | Err e => (Err e, db)
  | Ok write_batch =>
      eff_map_err (fun _ => StorageError.DurabilityFailure)
        (write_opt write_batch (match mode with Sync => true | NoSync => false end)) db
  end.

(** ** Opening and migrating *)

Definition sync_write (batch : list EncodedOp) : eff DB StorageError.t unit :=
  eff_map_err (fun _ => StorageError.DurabilityFailure) (write_opt batch true).

Definition sync_put (cf : ColumnFamily) (key value : list byte) : eff DB StorageError.t unit :=
  sync_write [EncodedOp_put cf key value].

Definition database_has_no_user_records (db : DB) : result StorageError.t bool :=
  try_fold (fun (acc : bool) cf =>
    if acc then
      let? _ := OregonDb_column_family db cf in
      match iterator_cf db cf with
      | [] => Ok true
      | Ok _ :: _ => Ok false
      | Err _ :: _ => Err StorageError.RocksDb
      end
    else Ok false) (OREGON_COLUMN_FAMILIES ++ [DEFAULT_COLUMN_FAMILY]) true.

Definition migration_batch (active_tip preferred_tip : option (Hash256 * Z)) : list EncodedOp :=
  match preferred_tip, active_tip with
  | None, Some (id, height) =>
      [EncodedOp_put CF_CHAIN_META PREFERRED_HEADER_TIP_ID_KEY (arr_bytes id);
       EncodedOp_put CF_CHAIN_META PREFERRED_HEADER_TIP_HEIGHT_KEY (le_bytes 8 height)]
  | _, _ => []
  end
  ++ [EncodedOp_put CF_CHAIN_META SCHEMA_KEY (encode_schema_version SCHEMA_VERSION);
      EncodedOp_delete CF_CHAIN_META SCHEMA_MIGRATION_KEY].

Definition run_migration_1_0_to_1_1 : eff DB StorageError.t unit :=
  let from := LEGACY_SCHEMA_VERSION_1_0 in
  let to := SCHEMA_VERSION in
  let! marker_present := eff_read (fun db =>
    let? bytes := rocks (get_cf db CF_CHAIN_META SCHEMA_MIGRATION_KEY) in
    match bytes with
    | Some bytes =>
        let? marker := decode_migration_marker bytes in
        if negb (bool_decide (marker = (from, to))) then Err StorageError.CorruptData else Ok true
    | None => Ok false
    end) in
  let! active_tip := eff_read (fun db => read_tip_pair db ACTIVE_TIP_ID_KEY ACTIVE_TIP_HEIGHT_KEY) in
  let! preferred_tip := eff_read (fun db =>
    read_tip_pair db PREFERRED_HEADER_TIP_ID_KEY PREFERRED_HEADER_TIP_HEIGHT_KEY) in
  let! _ := eff_lift (match preferred_tip with
                      | Some existing =>
                          if negb (bool_decide (active_tip = Some existing))
                          then Err StorageError.CorruptData else Ok tt
                      | None => Ok tt
                      end) in
  let! _ := (if marker_present then eff_ret tt
             else sync_put CF_CHAIN_META SCHEMA_MIGRATION_KEY (encode_migration_marker from to)) in
  sync_write (migration_batch active_tip preferred_tip).

(** [open_internal] on the handle that [DB::open_cf_descriptors] returns. *)
Definition OregonDb_open_internal : eff DB StorageError.t unit :=
  let! _ := eff_read (fun db => OregonDb_column_family db CF_CHAIN_META) in
  let! schema := eff_read (fun db => rocks (get_cf db CF_CHAIN_META SCHEMA_KEY)) in
  let! _ := (match schema with
             | Some bytes =>
                 let! version := eff_lift (decode_schema_version bytes) in
                 if bool_decide (version = LEGACY_SCHEMA_VERSION_1_0) then run_migration_1_0_to_1_1
                 else if bool_decide (version = SCHEMA_VERSION) then
                   let! marker := eff_read (fun db => rocks (get_cf db CF_CHAIN_META SCHEMA_MIGRATION_KEY)) in
                   (match marker with Some _ => eff_fail StorageError.CorruptData | None => eff_ret tt end)
                 else eff_fail (StorageError.UnsupportedSchema version)
             | None =>
                 let! fresh := eff_read database_has_no_user_records in
                 if negb fresh then eff_fail StorageError.CorruptData
                 else sync_put CF_CHAIN_META SCHEMA_KEY (encode_schema_version SCHEMA_VERSION)
             end) in
  let! _ := eff_read (fun db => read_tip_pair db PREFERRED_HEADER_TIP_ID_KEY PREFERRED_HEADER_TIP_HEIGHT_KEY) in
  eff_ret tt.

Definition OregonDb_open (opened : result unit DB) : result StorageError.t DB :=
  let? db := rocks opened in
  match OregonDb_open_internal db with
  | (Ok _, db) => Ok db
  | (Err e, _) => Err e
  end.

End OregonDb.

#[export] Instance OregonDb_store `{Blake3} {DB} `{!RocksDb DB} : BlockStore DB := {|
  db_get_block := OregonDb_get_block;
  db_get_index := OregonDb_get_index;
  db_get_undo := OregonDb_get_undo;
  db_iter_utxos := OregonDb_iter_utxos;
  db_iter_body_retained_indices := OregonDb_iter_body_retained_indices;
  db_active_id_at_height := OregonDb_active_id_at_height;
  db_active_tip := OregonDb_active_tip;
  db_preferred_header_tip := OregonDb_preferred_header_tip;
  db_config_anchor_id := OregonDb_config_anchor_id;
  db_config_genesis_timestamp := OregonDb_config_genesis_timestamp;
  db_health := OregonDb_health;
  db_prune_cursor := OregonDb_prune_cursor;
  db_commit := OregonDb_commit;
|}.

(** ** What the code relies on from RocksDB *)

Definition write_one (c : ColumnFamily -> gmap (list byte) (list byte)) (op : EncodedOp)
  : ColumnFamily -> gmap (list byte) (list byte) := fun cf =>
  if decide (cf = op_column_family op) then
    match op_value op with
    | Some v => <[op_key op := v]> (c cf)
    | None => delete (op_key op) (c cf)
    end
  else c cf.

Definition apply_writes (ops : list EncodedOp) (c : ColumnFamily -> gmap (list byte) (list byte))
  : ColumnFamily -> gmap (list byte) (list byte) := foldl write_one c ops.

Class RocksDbLaws (DB : Type) `{!RocksDb DB} : Type := {
  contents : DB -> ColumnFamily -> gmap (list byte) (list byte);
  rocks_get db cf k v : get_cf db cf k = Ok v -> v = contents db cf !! k;
  rocks_iterator db cf l : iterator_cf db cf = map Ok l -> l ≡ₚ map_to_list (contents db cf);
  rocks_write db ops sync db' : write_opt ops sync db = (Ok tt, db') ->
    forall cf, contents db' cf = apply_writes ops (contents db) cf;
  rocks_write_err db ops sync e db' : write_opt ops sync db = (Err e, db') ->
    (forall cf, contents db' cf = contents db cf) \/ (forall cf, contents db' cf = apply_writes ops (contents db) cf);
}.

(** ** The bytes that represent a store *)

(** A column family [c] holds exactly the entries of [m], encoded. *)
Definition cf_rep {K V} `{Countable K} (key : K -> list byte) (ok : K -> Prop)
  (enc : V -> result StorageError.t (list byte)) (c : gmap (list byte) (list byte)) (m : gmap K V) : Prop :=
  (forall k v, m !! k = Some v -> ok k /\ exists b, enc v = Ok b /\ c !! key k = Some b) /\
  (forall kb, is_Some (c !! kb) -> exists k, kb = key k /\ is_Some (m !! k)).

Section CfRep.
Context {K V : Type} `{Countable K} (key : K -> list byte) (ok : K -> Prop)
  (enc : V -> result StorageError.t (list byte)).
Hypothesis key_inj : forall a b, ok a -> ok b -> key a = key b -> a = b.

Lemma cf_rep_empty : cf_rep key ok enc ∅ ∅.
Proof. split; [by intros k v|]. intros kb [v Hv]. done. Qed.

Lemma cf_rep_insert c m k v b :
  cf_rep key ok enc c m -> ok k -> enc v = Ok b -> cf_rep key ok enc (<[key k := b]> c) (<[k := v]> m).
Proof.
  intros [R1 R2] Hk Hb. split.
  - intros k' v' Hl. destruct (decide (k' = k)) as [->|Hne].
    + rewrite lookup_insert_eq in Hl. injection Hl as <-. split; [done|]. exists b. by rewrite lookup_insert_eq.
    + rewrite lookup_insert_ne in Hl by done. apply R1 in Hl as (Hk' & b' & Hb' & Hc).
      split; [done|]. exists b'. rewrite lookup_insert_ne; [done|]. intros E. apply Hne. by apply key_inj.
  - intros kb Hs. destruct (decide (kb = key k)) as [->|Hne].
    + exists k. split; [done|]. rewrite lookup_insert_eq. eauto.
    + rewrite lookup_insert_ne in Hs by done. apply R2 in Hs as (k' & -> & Hm). exists k'. split; [done|].
      rewrite lookup_insert_ne; [done|]. by intros ->.
Qed.

Lemma cf_rep_delete c m k :
  cf_rep key ok enc c m -> ok k -> cf_rep key ok enc (delete (key k) c) (delete k m).
Proof.
  intros [R1 R2] Hk. split.
  - intros k' v' [Hne Hl]%lookup_delete_Some. apply R1 in Hl as (Hk' & b' & Hb' & Hc).
    split; [done|]. exists b'. rewrite lookup_delete_ne; [done|]. intros E. apply Hne. by apply key_inj.
  - intros kb [v [Hne Hl]%lookup_delete_Some].
    destruct (R2 kb) as (k' & -> & Hm); [eauto|]. exists k'. split; [done|].
    rewrite lookup_delete_ne; [done|]. by intros ->.
Qed.

(** A read at the key of [k]. *)
Lemma cf_rep_lookup c m k :
  cf_rep key ok enc c m -> ok k ->
  match c !! key k with
  | None => m !! k = None
  | Some b => exists v, m !! k = Some v /\ enc v = Ok b
  end.
Proof.
  intros [R1 R2] Hk. destruct (c !! key k) as [b|] eqn:E.
  - destruct (R2 (key k)) as (k' & Ek & [v Hm]); [eauto|]. pose proof (R1 _ _ Hm) as (Hk' & b' & Hb & Hc).
    apply key_inj in Ek as <-; [|done..]. exists v. split; [done|]. congruence.
  - destruct (m !! k) as [v|] eqn:Em; [|done]. apply R1 in Em as (_ & b & _ & Hc). congruence.
Qed.

End CfRep.

Definition meta_rep (m : gmap (list byte) (list byte)) (s : Store) : Prop :=
  (forall h, in_u64 h -> m !! active_height_key h = arr_bytes <$> (st_active s !! h)) /\
  m !! ACTIVE_TIP_ID_KEY = (fun p => arr_bytes p.1) <$> st_tip s /\
  m !! ACTIVE_TIP_HEIGHT_KEY = (fun p => le_bytes 8 p.2) <$> st_tip s /\
  m !! PREFERRED_HEADER_TIP_ID_KEY = (fun p => arr_bytes p.1) <$> st_header_tip s /\
  m !! PREFERRED_HEADER_TIP_HEIGHT_KEY = (fun p => le_bytes 8 p.2) <$> st_header_tip s /\
  m !! CONFIG_ANCHOR_ID_KEY = arr_bytes <$> st_anchor s /\
  m !! CONFIG_GENESIS_TIMESTAMP_KEY = le_bytes 8 <$> st_genesis s /\
  m !! HEALTH_STATE_KEY = encode_node_health <$> st_health s /\
  m !! PRUNE_CURSOR_KEY = le_bytes 8 <$> st_cursor s.

Definition any_hash (_ : Hash256) : Prop := True.

Record represents (c : ColumnFamily -> gmap (list byte) (list byte)) (s : Store) : Prop := MkRepresents {
  rep_blocks : cf_rep arr_bytes any_hash (fun b => Ok (Block_encode b)) (c CF_BLOCKS) (st_blocks s);
  rep_index : cf_rep arr_bytes any_hash encode_block_index (c CF_BLOCK_INDEX) (st_index s);
  rep_utxos : cf_rep encode_outpoint_key outpoint_typed encode_utxo_entry (c CF_UTXO) (st_utxos s);
  rep_undo : cf_rep arr_bytes any_hash encode_block_undo (c CF_UNDO) (st_undo s);
  rep_meta : meta_rep (c CF_CHAIN_META) s;
}.

Lemma hash_key_inj (a b : Hash256) : any_hash a -> any_hash b -> arr_bytes a = arr_bytes b -> a = b.
Proof. intros _ _. apply arr_eq. Qed.

(** The metadata keys are pairwise different: they differ as constants, and
    none has the 15 bytes of a height key. *)
Ltac key_ne :=
  let E := fresh in intros E;
  first [ discriminate E
        | (apply (f_equal length) in E; rewrite ?length_active_height_key in E; discriminate E) ].

Lemma meta_put_other m s k v :
  (forall h, k <> active_height_key h) ->
  k ∉ [ACTIVE_TIP_ID_KEY; ACTIVE_TIP_HEIGHT_KEY; PREFERRED_HEADER_TIP_ID_KEY; PREFERRED_HEADER_TIP_HEIGHT_KEY;
       CONFIG_ANCHOR_ID_KEY; CONFIG_GENESIS_TIMESTAMP_KEY; HEALTH_STATE_KEY; PRUNE_CURSOR_KEY] ->
  meta_rep m s -> meta_rep (<[k := v]> m) s /\ meta_rep (delete k m) s.
Proof.
  intros Hh Hk (R0 & R1 & R2 & R3 & R4 & R5 & R6 & R7 & R8). unfold meta_rep.
  split; (split_and!; [intros h Hu; rewrite ?lookup_insert_ne, ?lookup_delete_ne by apply Hh; by apply R0|..];
    rewrite ?lookup_insert_ne, ?lookup_delete_ne by set_solver; done).
Qed.

Section Refinement.
Context `{Blake3}.

Lemma represents_ext c c' s : (forall cf, c' cf = c cf) -> represents c s -> represents c' s.
Proof. intros E [R1 R2 R3 R4 R5]. split; by rewrite E. Qed.

Ltac write_case := cbn [foldl apply_writes]; unfold write_one; cbn [op_column_family op_value op_key EncodedOp_put EncodedOp_delete];
  repeat first [rewrite decide_True by done | rewrite decide_False by done]; try assumption.

Ltac meta_case R5 :=
  let R := fresh "R" in
  destruct R5 as (R & ? & ? & ? & ? & ? & ? & ? & ?); unfold meta_rep in *; cbn in *;
  split_and!; [|rewrite ?lookup_insert_eq, ?lookup_insert_ne, ?lookup_delete_ne, ?lookup_insert_eq by key_ne; done..];
  let h := fresh "h" in let Hh := fresh "Hh" in
  intros h Hh; rewrite ?lookup_insert_ne, ?lookup_delete_ne by key_ne; try by apply R.

(** Writing the encoded form of an operation does what the operation means. *)
Lemma represents_op c s op eops :
  op_typed op -> encode_operation op = Ok eops -> represents c s -> represents (apply_writes eops c) (apply_op s op).
Proof.
  intros HT HE [R1 R2 R3 R4 R5]. destruct s as [bl ix ux un ac tip htip an ge he cu].
  cbn [st_blocks st_index st_utxos st_undo] in *.
  destruct op; cbn [encode_operation] in HE; cbn [apply_op op_typed] in *;
    try (destruct (encode_block_index r) eqn:?; [|done]); try (destruct (encode_utxo_entry e) eqn:?; [|done]);
    try (destruct (encode_block_undo u) eqn:?; [|done]); injection HE as <-;
    (split; cbn [st_blocks st_index st_utxos st_undo]; [write_case..|]).
  all: try (apply cf_rep_insert; [apply hash_key_inj|done..]).
  all: try (apply cf_rep_delete; [apply hash_key_inj|done..]).
  all: try (apply cf_rep_insert; [apply outpoint_key_inj|naive_solver..]).
  all: try (apply cf_rep_delete; [apply outpoint_key_inj|naive_solver..]).
  all: write_case; try exact R5.
  all: meta_case R5.
  - destruct (decide (h = height)) as [->|Hne]; [by rewrite !lookup_insert_eq|].
    rewrite !lookup_insert_ne by (done || by intros ?%active_height_key_inj). by apply R.
  - destruct (decide (h = height)) as [->|Hne]; [by rewrite !lookup_delete_eq|].
    rewrite !lookup_delete_ne by (done || by intros ?%active_height_key_inj). by apply R.
Qed.

Lemma store_typed_op s op eops :
  op_typed op -> encode_operation op = Ok eops -> store_typed s -> store_typed (apply_op s op).
Proof.
  intros HT HE [T1 T2 T3 T4 T5 T6 T7 T8 T9]. destruct s as [bl ix ux un ac tip htip an ge he cu].
  destruct op; cbn [encode_operation] in HE; cbn [op_typed] in *;
    try (destruct (encode_block_index r) eqn:HI; [|done]; apply encode_block_index_spec in HI as [? _]);
    split; cbn in *; try assumption; try (intros ? ? Hl; simplify_eq; done).
  all: try (intros k v [Hne Hl]%lookup_delete_Some; eauto; fail).
  all: try (intros k v [[<- <-]|[Hne Hl]]%lookup_insert_Some; eauto; fail).
  all: intros ? [= <-]; done.
Qed.

Lemma encode_operations_app ops acc eops :
  try_fold (fun encoded op => let? ops := encode_operation op in Ok (encoded ++ ops)) ops acc = Ok eops ->
  exists rest, eops = acc ++ rest /\ encode_operations ops = Ok rest.
Proof.
  unfold encode_operations. revert acc eops. induction ops as [|op ops IH]; intros acc eops; cbn [try_fold].
  { intros [= <-]. exists []. by rewrite app_nil_r. }
  destruct (encode_operation op) as [e|]; [|done]. intros (rest & -> & E)%IH. rewrite app_nil_l.
  exists (e ++ rest). split; [by rewrite app_assoc|].
  clear -E IH. destruct (try_fold _ ops e) as [x|] eqn:E2.
  - apply IH in E2 as (rest' & -> & E2). congruence.
  - exfalso. revert E E2. generalize (@nil EncodedOp) at 1. revert e rest. clear IH.
    induction ops as [|op ops IH]; intros acc rest acc'; cbn [try_fold]; [done|].
    destruct (encode_operation op); [|done]. apply IH.
Qed.

Lemma encode_operations_cons op ops eops :
  encode_operations (op :: ops) = Ok eops ->
  exists e rest, eops = e ++ rest /\ encode_operation op = Ok e /\ encode_operations ops = Ok rest.
Proof.
  unfold encode_operations. cbn [try_fold]. destruct (encode_operation op) as [e|]; [|done].
  rewrite app_nil_l. intros (rest & -> & E)%encode_operations_app. eauto 6.
Qed.

Lemma represents_batch ops c s eops :
  Forall op_typed ops -> encode_operations ops = Ok eops -> represents c s -> store_typed s ->
  represents (apply_writes eops c) (apply_batch ops s) /\ store_typed (apply_batch ops s).
Proof.
  intros HF. revert c s eops. induction HF as [|op ops HT HF IH]; intros c s eops HE HR HS.
  { injection HE as <-. done. }
  apply encode_operations_cons in HE as (e & rest & -> & E1 & E2).
  unfold apply_writes, apply_batch. rewrite foldl_app. cbn [foldl].
  apply (IH _ _ _ E2); [by apply represents_op|by eapply store_typed_op].
Qed.

(** ** Iterations *)

Lemma decoded_permutation {K V} `{Countable K} (key : K -> list byte) (ok : K -> Prop)
  (enc : V -> result StorageError.t (list byte)) (dec : list byte -> result StorageError.t V) c m l l' :
  (forall a b, ok a -> ok b -> key a = key b -> a = b) ->
  (forall k v b, m !! k = Some v -> enc v = Ok b -> dec b = Ok v) ->
  cf_rep key ok enc c m -> l' ≡ₚ map_to_list c ->
  Forall2 (fun kv p => kv.1 = key p.1 /\ ok p.1 /\ dec kv.2 = Ok p.2) l' l -> l ≡ₚ map_to_list m.
Proof.
  intros Hinj Hdec HR HP HF. pose proof HR as [R1 R2].
  assert (NoDup l'.*1) as HN by (rewrite HP; apply NoDup_fst_map_to_list).
  apply NoDup_Permutation; [|apply NoDup_map_to_list|].
  - apply NoDup_alt. intros i j p Hi Hj. destruct (Forall2_lookup_r _ _ _ _ _ HF Hi) as (kv & Hi' & Ei & _).
    destruct (Forall2_lookup_r _ _ _ _ _ HF Hj) as (kv' & Hj' & Ej & _).
    eapply (NoDup_lookup l'.*1); [done|by rewrite list_lookup_fmap, Hi'|]. rewrite list_lookup_fmap, Hj'. simpl. congruence.
  - intros [k v]. rewrite elem_of_map_to_list. split.
    + intros [i Hi]%list_elem_of_lookup. destruct (Forall2_lookup_r _ _ _ _ _ HF Hi) as ([kb b] & Hi' & Ek & Hok & Hd).
      cbn [fst snd] in *. subst kb. assert (c !! key k = Some b) as Hc.
      { apply elem_of_map_to_list. rewrite <- HP. by eapply list_elem_of_lookup_2. }
      pose proof (cf_rep_lookup key ok enc Hinj _ _ k HR Hok) as HL. rewrite Hc in HL.
      destruct HL as (v' & Hm & He). rewrite (Hdec _ _ _ Hm He) in Hd. congruence.
    + intros Hm. destruct (R1 _ _ Hm) as (Hok & b & He & Hc).
      assert ((key k, b) ∈ l') as Hin by (rewrite HP; by apply elem_of_map_to_list).
      apply list_elem_of_lookup in Hin as [i Hi]. destruct (Forall2_lookup_l _ _ _ _ _ HF Hi) as ([k' v'] & Hi' & Ek & Hok' & Hd).
      cbn [fst snd] in *. apply Hinj in Ek as <-; [|done..]. rewrite (Hdec _ _ _ Hm He) in Hd. injection Hd as <-.
      by eapply list_elem_of_lookup_2.
Qed.

Lemma try_map_ext {E A B} (f g : A -> result E B) l : (forall a, f a = g a) -> try_map f l = try_map g l.
Proof. intros Hfg. induction l as [|a l IH]; [done|]. cbn [try_map]. by rewrite Hfg, IH. Qed.

Lemma try_fold_ext {E A B} (f g : B -> A -> result E B) l b :
  (forall b a, f b a = g b a) -> try_fold f l b = try_fold g l b.
Proof.
  intros Hfg. revert b. induction l as [|a l IH]; intros b; [done|]. cbn [try_fold]. rewrite Hfg.
  destruct (g b a); [apply IH|done].
Qed.

Lemma try_map_items {A B} (f : A -> result StorageError.t B) (items : list (result unit A)) l :
  try_map (fun item => let? a := rocks item in f a) items = Ok l ->
  exists l', items = map Ok l' /\ Forall2 (fun a b => f a = Ok b) l' l.
Proof.
  revert l. induction items as [|[a|] items IH]; intros l; cbn [try_map]; [intros [= <-]; by exists []| |done].
  cbn [rocks map_err]. destruct (f a) as [b|] eqn:Ef; [|done]. destruct (try_map _ items) as [bs|]; [|done].
  intros [= <-]. destruct (IH bs eq_refl) as (l' & -> & HF). exists (a :: l'). split; [done|by constructor].
Qed.

Lemma try_fold_filter {A B} (f : A -> result StorageError.t B) (keep : B -> bool) (items : list (result unit A)) acc l :
  try_fold (fun acc item => let? a := rocks item in
              let? b := f a in if keep b then Ok (acc ++ [b]) else Ok acc) items acc = Ok l ->
  exists l' bs, items = map Ok l' /\ Forall2 (fun a b => f a = Ok b) l' bs /\
    l = acc ++ filter (fun b => keep b = true) bs.
Proof.
  revert acc. induction items as [|[a|] items IH]; intros acc; cbn [try_fold].
  - intros [= <-]. exists [], []. by rewrite app_nil_r.
  - cbn [rocks map_err]. destruct (f a) as [b|] eqn:Ef; [|done]. intros Hf.
    assert (exists acc', acc' = (if keep b then acc ++ [b] else acc) /\
      exists l' bs, items = map Ok l' /\ Forall2 (fun a b => f a = Ok b) l' bs /\
        l = acc' ++ filter (fun b => keep b = true) bs) as (acc' & -> & l' & bs & -> & HF & ->).
    { eexists. split; [done|]. destruct (keep b); by apply IH in Hf. }
    exists (a :: l'), (b :: bs). split_and!; [done|by constructor|].
    rewrite filter_cons. destruct (keep b); simpl; [by rewrite <- app_assoc|done].
  - done.
Qed.

Context {DB : Type} `{!RocksDb DB} `{!RocksDbLaws DB}.

(** The database holds [s]: its bytes represent [s] and [s] is typed. *)
Definition db_stores (db : DB) (s : Store) : Prop := represents (contents db) s /\ store_typed s.

Lemma read_with_spec {A} db cf key (f : list byte -> result StorageError.t A) r :
  read_with db cf key f = Ok r ->
  match contents db cf !! key with
  | None => r = None
  | Some b => exists a, f b = Ok a /\ r = Some a
  end.
Proof.
  unfold read_with. destruct (OregonDb_column_family db cf) as [[]|]; [|done].
  destruct (get_cf db cf key) as [o|] eqn:E; [|done]. apply rocks_get in E as <-. cbn [rocks map_err].
  destruct o as [b|]; cbn [transpose_map]; [|by intros [= <-]].
  destruct (f b) as [a|]; [|done]. intros [= <-]. eauto.
Qed.

(** A keyed read of a represented column family. *)
Lemma read_cf_spec {K V} `{Countable K} (key : K -> list byte) (ok : K -> Prop) enc
  (dec : list byte -> result StorageError.t V) db cf m k r :
  (forall a b, ok a -> ok b -> key a = key b -> a = b) ->
  (forall v b, m !! k = Some v -> enc v = Ok b -> forall a, dec b = Ok a -> a = v) ->
  cf_rep key ok enc (contents db cf) m -> ok k -> read_with db cf (key k) dec = Ok r -> r = m !! k.
Proof.
  intros Hinj Hdec HR Hk Hr. apply read_with_spec in Hr.
  pose proof (cf_rep_lookup key ok enc Hinj _ _ k HR Hk) as HL.
  destruct (contents db cf !! key k) as [b|]; [|by subst]. destruct HL as (v & Hm & He), Hr as (a & Ha & ->).
  by rewrite (Hdec _ _ Hm He a Ha).
Qed.

Lemma decode_hash_arr a : decode_hash (arr_bytes a) = Ok a.
Proof. unfold decode_hash, Hash256_from_slice. by rewrite to_arr_bytes. Qed.

Lemma decode_u64_le_bytes h : in_u64 h -> decode_u64_le (le_bytes 8 h) = Ok h.
Proof.
  intros Hh. unfold decode_u64_le. rewrite length_le_bytes. cbn [Nat.eqb].
  rewrite le_num_le_bytes by (unfold_ints; simpl; lia). done.
Qed.

(** A read of a metadata field with its decoder. *)
Lemma read_meta_spec {A B} db key (o : option B) (enc : B -> list byte) (dec : list byte -> result StorageError.t A)
  (g : B -> A) r :
  contents db CF_CHAIN_META !! key = enc <$> o -> (forall b, o = Some b -> dec (enc b) = Ok (g b)) ->
  read_with db CF_CHAIN_META key dec = Ok r -> r = g <$> o.
Proof.
  intros Hm Hd Hr. apply read_with_spec in Hr. rewrite Hm in Hr. destruct o as [b|]; simpl in *; [|done].
  destruct Hr as (a & Ha & ->). rewrite Hd in Ha by done. congruence.
Qed.

Lemma read_tip_spec db kid kh (o : option (Hash256 * Z)) r :
  contents db CF_CHAIN_META !! kid = (fun p => arr_bytes p.1) <$> o ->
  contents db CF_CHAIN_META !! kh = (fun p => le_bytes 8 p.2) <$> o ->
  (forall id h, o = Some (id, h) -> in_u64 h) -> read_tip_pair db kid kh = Ok r -> r = o.
Proof.
  intros Hi Hh Hu. unfold read_tip_pair.
  destruct (get_cf db CF_CHAIN_META kid) as [i|] eqn:Ei; [|done]. apply rocks_get in Ei as ->. rewrite Hi.
  destruct (get_cf db CF_CHAIN_META kh) as [x|] eqn:Ex; [|done]. apply rocks_get in Ex as ->. rewrite Hh.
  destruct o as [[id h]|]; simpl; [|congruence].
  rewrite decode_hash_arr, decode_u64_le_bytes by (by eapply Hu). congruence.
Qed.

Lemma check_families db eops wb :
  try_map (fun op => let? _ := OregonDb_column_family db (op_column_family op) in Ok op) eops = Ok wb -> wb = eops.
Proof.
  revert wb. induction eops as [|op eops IH]; intros wb; cbn [try_map]; [by intros [= <-]|].
  destruct (OregonDb_column_family _ _) as [[]|]; [|done]. destruct (try_map _ eops) as [l|]; [|done].
  intros [= <-]. f_equal. by apply IH.
Qed.

Lemma commit_cases batch mode db :
  (exists e, OregonDb_commit batch mode db = (Err e, db)) \/
  exists eops sync, encode_operations batch = Ok eops /\
    OregonDb_commit batch mode db = eff_map_err (fun _ => StorageError.DurabilityFailure) (write_opt eops sync) db.
Proof.
  unfold OregonDb_commit. destruct (encode_operations batch) as [eops|e]; [|left; eauto].
  destruct (try_map _ eops) as [wb|e] eqn:E; [|left; eauto]. apply check_families in E as ->. right. eauto.
Qed.

Lemma commit_stores db s batch mode r db' :
  db_stores db s -> Forall op_typed batch -> OregonDb_commit batch mode db = (r, db') ->
  match r with
  | Ok _ => db_stores db' (apply_batch batch s)
  | Err _ => db_stores db' s \/ db_stores db' (apply_batch batch s)
  end.
Proof.
  intros [HR HS] HF HC. destruct (commit_cases batch mode db) as [[e E]|(eops & sync & HE & E)]; rewrite E in HC.
  { injection HC as <- <-. left. done. }
  destruct (represents_batch _ _ _ _ HF HE HR HS) as [HR' HS'].
  unfold eff_map_err in HC. destruct (write_opt eops sync db) as [[[]|[]] db1] eqn:EW; injection HC as <- <-.
  - split; [|done]. eapply represents_ext; [|done]. by eapply rocks_write.
  - apply rocks_write_err in EW as [EW|EW]; [left|right]; (split; [|done]); by eapply represents_ext.
Qed.

#[export] Program Instance OregonDb_laws : BlockStoreLaws DB := {| stores := db_stores |}.
Next Obligation. by intros db s [_ ?]. Qed.
Next Obligation.
  intros db s id r [HR HS] Hr. eapply (read_cf_spec arr_bytes any_hash); [apply hash_key_inj| |apply HR|done|exact Hr].
  intros v b Hm [= <-] a. apply (typed_blocks _ HS) in Hm as [<- [Hw Hl]].
  assert (Block_decode (Block_encode v) DecodeLimits_default = Ok v) as -> by (apply Block_decode_spec; done).
  cbn [map_err]. rewrite bool_decide_true by done. by intros [= <-].
Qed.
Next Obligation.
  intros db s id r [HR HS] Hr. eapply (read_cf_spec arr_bytes any_hash); [apply hash_key_inj| |apply HR|done|exact Hr].
  intros v b Hm He a. apply (typed_index _ HS) in Hm as (<- & _ & Ht).
  rewrite (block_index_round_trip _ _ Ht He), bool_decide_true by done. by intros [= <-].
Qed.
Next Obligation.
  intros db s id r [HR HS] Hr. eapply (read_cf_spec arr_bytes any_hash); [apply hash_key_inj| |apply HR|done|exact Hr].
  intros v b Hm He a. apply (typed_undo _ HS) in Hm. rewrite (block_undo_round_trip _ _ Hm He). by intros [= <-].
Qed.
Next Obligation.
  intros db s l [HR HS]. cbn. unfold OregonDb_iter_utxos. destruct (OregonDb_column_family _ _) as [[]|]; [|done].
  intros Hl.
  destruct (try_map_items (fun kv : list byte * list byte => let? o := decode_outpoint_key kv.1 in
     let? e := decode_utxo_entry kv.2 in Ok (o, e)) (iterator_cf db CF_UTXO) l) as (l' & E & HF).
  { rewrite <- Hl. apply try_map_ext. by intros [[k v]|]. }
  eapply (decoded_permutation encode_outpoint_key outpoint_typed encode_utxo_entry decode_utxo_entry);
    [apply outpoint_key_inj| |apply HR|by apply rocks_iterator|].
  - intros k v b Hm He. apply decode_utxo_entry_spec. split; [|done]. by apply (typed_utxos _ HS) in Hm as [_ ?].
  - eapply Forall2_impl; [exact HF|]. intros [k v] [o e]. cbn [fst snd].
    destruct (decode_outpoint_key k) as [o'|] eqn:Eo; [|done]. apply decode_outpoint_key_spec in Eo as [? ->].
    destruct (decode_utxo_entry v) as [e'|]; [|done]. intros [= <- <-]. done.
Qed.
Next Obligation.
  intros db s l [HR HS]. cbn. unfold OregonDb_iter_body_retained_indices. destruct (OregonDb_column_family _ _) as [[]|]; [|done].
  intros Hl.
  destruct (try_fold_filter (fun kv : list byte * list byte => let? id := decode_hash kv.1 in
     let? record := decode_block_index kv.2 in
     if negb (bool_decide (block_id (idx_header record) = id)) then Err StorageError.CorruptData else Ok (id, record))
     (fun p => idx_body_retained p.2) (iterator_cf db CF_BLOCK_INDEX) [] l) as (l' & bs & E & HF & ->).
  { rewrite <- Hl. apply try_fold_ext. intros acc [[k v]|]; [|done]. cbn [rocks map_err fst snd].
    destruct (decode_hash k); [|done]. destruct (decode_block_index v); [|done]. by destruct (negb _). }
  rewrite app_nil_l. apply filter_Permutation.
  eapply (decoded_permutation arr_bytes any_hash encode_block_index decode_block_index);
    [apply hash_key_inj| |apply HR|by apply rocks_iterator|].
  - intros k v b Hm He. apply block_index_round_trip; [|done]. by apply (typed_index _ HS) in Hm as (_ & _ & ?).
  - eapply Forall2_impl; [exact HF|]. intros [k v] [o e]. cbn [fst snd]. unfold decode_hash, Hash256_from_slice.
    destruct (to_arr 32 k) as [o'|] eqn:Eo; [|done]. apply to_arr_Some in Eo as ->. cbn [ok_or map_err].
    destruct (decode_block_index v) as [e'|]; [|done]. case_bool_decide; [|done]. by intros [= <- <-].
Qed.
Next Obligation.
  intros db s h r [HR HS] Hh Hr. destruct (rep_meta _ _ HR) as (R & _).
  rewrite <- (option_fmap_id (st_active s !! h)).
  eapply read_meta_spec; [by apply R| |exact Hr]. intros b _. apply decode_hash_arr.
Qed.
Next Obligation.
  intros db s r [HR HS]. cbn. unfold OregonDb_active_tip. destruct (OregonDb_column_family _ _) as [[]|]; [|done].
  destruct (rep_meta _ _ HR) as (_ & ? & ? & _). eapply read_tip_spec; [done..|]. apply HS.
Qed.
Next Obligation.
  intros db s r [HR HS]. cbn. unfold OregonDb_preferred_header_tip. destruct (OregonDb_column_family _ _) as [[]|]; [|done].
  destruct (rep_meta _ _ HR) as (_ & _ & _ & ? & ? & _). eapply read_tip_spec; [done..|]. apply HS.
Qed.
Next Obligation.
  intros db s r [HR HS] Hr. destruct (rep_meta _ _ HR) as (_ & _ & _ & _ & _ & ? & _).
  rewrite <- (option_fmap_id (st_anchor s)). eapply read_meta_spec; [done| |exact Hr]. intros b _. apply decode_hash_arr.
Qed.
Next Obligation.
  intros db s r [HR HS] Hr. destruct (rep_meta _ _ HR) as (_ & _ & _ & _ & _ & _ & ? & _).
  rewrite <- (option_fmap_id (st_genesis s)). eapply read_meta_spec; [done| |exact Hr].
  intros b Hb. apply decode_u64_le_bytes, (typed_genesis _ HS), Hb.
Qed.
Next Obligation.
  intros db s r [HR HS] Hr. destruct (rep_meta _ _ HR) as (_ & _ & _ & _ & _ & _ & _ & ? & _).
  rewrite <- (option_fmap_id (st_health s)). eapply read_meta_spec; [done| |exact Hr]. intros b _. apply node_health_round_trip.
Qed.
Next Obligation.
  intros db s r [HR HS] Hr. destruct (rep_meta _ _ HR) as (_ & _ & _ & _ & _ & _ & _ & _ & ?).
  rewrite <- (option_fmap_id (st_cursor s)). eapply read_meta_spec; [done| |exact Hr].
  intros b Hb. apply decode_u64_le_bytes, (typed_cursor _ HS), Hb.
Qed.
Next Obligation. intros db s batch mode db' HS HF HC. exact (commit_stores _ _ _ _ _ _ HS HF HC). Qed.
Next Obligation. intros db s batch mode e db' HS HF HC. exact (commit_stores _ _ _ _ _ _ HS HF HC). Qed.

End Refinement.
