(* ===== verification/StorageProps.v ===== *)
(** The properties of [oregon-storage]: the records read back exactly, the
    database refines the abstract store, and the schema migration can be
    interrupted at any write and resumed. *)
From S2P Require Import Prelude Encoding Transaction Block Difficulty Emission BlockRules Utxo Records StoreSpec Storage.

(** ** Records *)

(** Storage records.  For bytes a machine can hold, a block index
    record, an unspent output and an undo record decode exactly from the bytes
    their encoder writes, so a stored value has one form and reads back as
    itself, and every other byte string is refused. *)
Theorem storage_records_exact bytes :
  Z.of_nat (length bytes) <= USIZE_MAX ->
  (forall r, decode_block_index bytes = Ok r <-> index_typed r /\ encode_block_index r = Ok bytes) /\
  (forall e, decode_utxo_entry bytes = Ok e <-> entry_typed e /\ encode_utxo_entry e = Ok bytes) /\
  (forall u, decode_block_undo bytes = Ok u <-> undo_typed u /\ encode_block_undo u = Ok bytes) /\
  (forall o, decode_outpoint_key bytes = Ok o <-> outpoint_typed o /\ bytes = encode_outpoint_key o).
Proof.
  intros HL. split_and!; intros.
  - by apply decode_block_index_spec.
  - apply decode_utxo_entry_spec.
  - by apply decode_block_undo_spec.
  - apply decode_outpoint_key_spec.
Qed.

(** ** Refinement *)

(** What the reads of a database that return return. *)
Definition reads_agree `{Blake3} {DB} `{!RocksDb DB} (db : DB) (s : Store) : Prop :=
  (forall id r, OregonDb_get_block db id = Ok r -> r = st_blocks s !! id) /\
  (forall id r, OregonDb_get_index db id = Ok r -> r = st_index s !! id) /\
  (forall id r, OregonDb_get_undo db id = Ok r -> r = st_undo s !! id) /\
  (forall o r, outpoint_typed o -> OregonDb_get_utxo db o = Ok r -> r = st_utxos s !! o) /\
  (forall l, OregonDb_iter_utxos db = Ok l -> l ≡ₚ map_to_list (st_utxos s)) /\
  (forall l, OregonDb_iter_body_retained_indices db = Ok l ->
     l ≡ₚ filter (fun p => idx_body_retained p.2 = true) (map_to_list (st_index s))) /\
  (forall h r, in_u64 h -> OregonDb_active_id_at_height db h = Ok r -> r = st_active s !! h) /\
  (forall r, OregonDb_active_tip db = Ok r -> r = st_tip s) /\
  (forall r, OregonDb_preferred_header_tip db = Ok r -> r = st_header_tip s) /\
  (forall r, OregonDb_config_anchor_id db = Ok r -> r = st_anchor s) /\
  (forall r, OregonDb_config_genesis_timestamp db = Ok r -> r = st_genesis s) /\
  (forall r, OregonDb_health db = Ok r -> r = st_health s) /\
  (forall r, OregonDb_prune_cursor db = Ok r -> r = st_cursor s).

Section Properties.
Context `{Blake3} {DB : Type} `{!RocksDb DB} `{!RocksDbLaws DB}.

Lemma stores_reads_agree (db : DB) s : db_stores db s -> reads_agree db s.
Proof.
  intros HS. split_and!; intros.
  - by eapply law_get_block.
  - by eapply law_get_index.
  - by eapply law_get_undo.
  - destruct HS as [HR HT]. eapply (read_cf_spec encode_outpoint_key outpoint_typed);
      [apply outpoint_key_inj| |apply HR|done|done].
    intros v b Hm He a. apply (typed_utxos _ HT) in Hm as [_ Ht].
    rewrite (proj2 (decode_utxo_entry_spec b v)) by done. by intros [= <-].
  - by eapply law_iter_utxos.
  - by eapply law_iter_retained.
  - by eapply law_active_id.
  - by eapply law_active_tip.
  - by eapply law_header_tip.
  - by eapply law_anchor.
  - by eapply law_genesis.
  - by eapply law_health.
  - by eapply law_cursor.
Qed.

(** C12: refinement of the abstract store.  Over any key-value store
    with atomic batches, committing a batch of storage operations applies
    their meaning when it succeeds and, when it fails, leaves either the old
    store or the whole new one; afterwards every read that succeeds returns
    what the abstract store holds. *)
Theorem oregon_db_refines_store (db : DB) s batch mode r db' :
  db_stores db s -> Forall op_typed batch -> OregonDb_commit batch mode db = (r, db') ->
  exists s', db_stores db' s' /\ reads_agree db' s' /\
    (s' = apply_batch batch s \/ s' = s /\ is_ok r = false).
Proof.
  intros HS HF HC. pose proof (commit_stores _ _ _ _ _ _ HS HF HC) as HX. destruct r as [[]|e].
  - exists (apply_batch batch s). split_and!; [done|by apply stores_reads_agree|by left].
  - destruct HX as [HX|HX]; [exists s|exists (apply_batch batch s)];
      (split_and!; [done|by apply stores_reads_agree|naive_solver]).
Qed.

(** ** Migration *)

Definition tip_at (m : gmap (list byte) (list byte)) (kid kh : list byte) (o : option (Hash256 * Z)) : Prop :=
  m !! kid = (fun p => arr_bytes p.1) <$> o /\ m !! kh = (fun p => le_bytes 8 p.2) <$> o /\
  (forall id h, o = Some (id, h) -> in_u64 h).

Definition MARKER : list byte := encode_migration_marker LEGACY_SCHEMA_VERSION_1_0 SCHEMA_VERSION.

(** A database of schema 1.0 with active tip [tip], untouched or with its
    migration begun. *)
Definition legacy (m : gmap (list byte) (list byte)) (tip : option (Hash256 * Z)) : Prop :=
  m !! SCHEMA_KEY = Some (encode_schema_version LEGACY_SCHEMA_VERSION_1_0) /\
  (m !! SCHEMA_MIGRATION_KEY = None \/ m !! SCHEMA_MIGRATION_KEY = Some MARKER) /\
  tip_at m ACTIVE_TIP_ID_KEY ACTIVE_TIP_HEIGHT_KEY tip /\
  (tip_at m PREFERRED_HEADER_TIP_ID_KEY PREFERRED_HEADER_TIP_HEIGHT_KEY None \/
   tip_at m PREFERRED_HEADER_TIP_ID_KEY PREFERRED_HEADER_TIP_HEIGHT_KEY tip).

(** A database of schema 1.1 whose preferred header tip is [tip]. *)
Definition migrated (m : gmap (list byte) (list byte)) (tip : option (Hash256 * Z)) : Prop :=
  m !! SCHEMA_KEY = Some (encode_schema_version SCHEMA_VERSION) /\ m !! SCHEMA_MIGRATION_KEY = None /\
  tip_at m ACTIVE_TIP_ID_KEY ACTIVE_TIP_HEIGHT_KEY tip /\
  tip_at m PREFERRED_HEADER_TIP_ID_KEY PREFERRED_HEADER_TIP_HEIGHT_KEY tip.

Definition MIGRATION_KEYS : list (list byte) :=
  [SCHEMA_KEY; SCHEMA_MIGRATION_KEY; PREFERRED_HEADER_TIP_ID_KEY; PREFERRED_HEADER_TIP_HEIGHT_KEY].

(** Everything outside the keys of the migration is as before. *)
Definition untouched (c c' : ColumnFamily -> gmap (list byte) (list byte)) : Prop :=
  (forall cf, cf <> CF_CHAIN_META -> c' cf = c cf) /\
  (forall k, k ∉ MIGRATION_KEYS -> c' CF_CHAIN_META !! k = c CF_CHAIN_META !! k).

Lemma untouched_refl c c' : (forall cf, c' cf = c cf) -> untouched c c'.
Proof. intros E. split; intros; by rewrite E. Qed.

Lemma untouched_trans a b c : untouched a b -> untouched b c -> untouched a c.
Proof. intros [A1 A2] [B1 B2]. split; intros; [by rewrite B1, A1|by rewrite B2, A2]. Qed.

(** Reading a tip: the only failure is RocksDB's. *)
Lemma read_tip_total (db : DB) kid kh o :
  tip_at (contents db CF_CHAIN_META) kid kh o ->
  read_tip_pair db kid kh = Ok o \/ read_tip_pair db kid kh = Err StorageError.RocksDb.
Proof.
  intros (Hi & Hh & Hu). unfold read_tip_pair.
  destruct (get_cf db CF_CHAIN_META kid) as [i|] eqn:Ei; [|by right]. apply rocks_get in Ei as ->. rewrite Hi.
  destruct (get_cf db CF_CHAIN_META kh) as [x|] eqn:Ex; [|by right]. apply rocks_get in Ex as ->. rewrite Hh.
  left. destruct o as [[id h]|]; simpl; [|done]. by rewrite decode_hash_arr, decode_u64_le_bytes by (by eapply Hu).
Qed.

Lemma sync_write_cases ops (db : DB) r db' :
  sync_write ops db = (r, db') ->
  (r = Ok tt /\ forall cf, contents db' cf = apply_writes ops (contents db) cf) \/
  (r = Err StorageError.DurabilityFailure /\
   ((forall cf, contents db' cf = contents db cf) \/ (forall cf, contents db' cf = apply_writes ops (contents db) cf))).
Proof.
  unfold sync_write, eff_map_err. destruct (write_opt ops true db) as [[[]|[]] db1] eqn:E; intros [= <- <-].
  - left. split; [done|]. by eapply rocks_write.
  - right. split; [done|]. by eapply rocks_write_err.
Qed.

Ltac write_meta := unfold apply_writes; cbn [foldl app]; unfold write_one;
  cbn [op_column_family op_value op_key EncodedOp_put EncodedOp_delete];
  repeat first [rewrite decide_True by done | rewrite decide_False by done].

(** The marker is the only thing the first write changes. *)
Lemma marker_written c tip :
  legacy (c CF_CHAIN_META) tip ->
  let c' := apply_writes [EncodedOp_put CF_CHAIN_META SCHEMA_MIGRATION_KEY MARKER] c in
  legacy (c' CF_CHAIN_META) tip /\ untouched c c'.
Proof.
  intros (L1 & L2 & L3 & L4). write_meta. split.
  - unfold legacy, tip_at. rewrite lookup_insert_eq, !lookup_insert_ne by key_ne. split_and!; [done|by right|apply L3|apply L3|apply L3|exact L4].
  - split; intros; [by rewrite decide_False|]. write_meta. rewrite lookup_insert_ne; [done|]. set_solver.
Qed.

(** The final batch migrates whatever the first left. *)
Lemma batch_migrates c tip pref :
  legacy (c CF_CHAIN_META) tip -> tip_at (c CF_CHAIN_META) PREFERRED_HEADER_TIP_ID_KEY PREFERRED_HEADER_TIP_HEIGHT_KEY pref ->
  pref = None \/ pref = tip ->
  let c' := apply_writes (migration_batch tip pref) c in migrated (c' CF_CHAIN_META) tip /\ untouched c c'.
Proof.
  intros (L1 & _ & (L3 & L4 & L5) & _) (P1 & P2 & _) Hp. unfold migration_batch.
  assert (pref <> None -> pref = tip) as Hp' by naive_solver.
  split.
  - unfold migrated, tip_at. destruct pref as [[pi ph]|]; [rewrite <- Hp' in * by done|destruct tip as [[ti th]|]]; write_meta;
      rewrite ?lookup_delete_eq, ?lookup_delete_ne by key_ne;
      repeat first [rewrite lookup_insert_eq | rewrite lookup_insert_ne by key_ne]; simpl in *; split_and!; try done; naive_solver.
  - split; intros; destruct pref as [[pi ph]|]; try destruct tip as [[ti th]|]; write_meta;
      rewrite ?lookup_delete_ne, ?lookup_insert_ne by set_solver; done.
Qed.

(** The outcomes of a step on a legacy database. *)
Definition migration_outcome (tip : option (Hash256 * Z)) (db : DB) (p : result StorageError.t unit * DB) : Prop :=
  untouched (contents db) (contents p.2) /\
  match p.1 with
  | Ok _ => migrated (contents p.2 CF_CHAIN_META) tip
  | Err e => (e = StorageError.RocksDb \/ e = StorageError.DurabilityFailure) /\
             (legacy (contents p.2 CF_CHAIN_META) tip \/ migrated (contents p.2 CF_CHAIN_META) tip)
  end.

Lemma migrates (db : DB) tip pref :
  legacy (contents db CF_CHAIN_META) tip ->
  tip_at (contents db CF_CHAIN_META) PREFERRED_HEADER_TIP_ID_KEY PREFERRED_HEADER_TIP_HEIGHT_KEY pref ->
  pref = None \/ pref = tip -> migration_outcome tip db (sync_write (migration_batch tip pref) db).
Proof.
  intros HL HP Hp. destruct (batch_migrates (contents db) tip pref HL HP Hp) as [HM HU].
  destruct (sync_write _ db) as [r db'] eqn:E. unfold migration_outcome. cbn [fst snd].
  apply sync_write_cases in E as [[-> E]|[-> [E|E]]]; rewrite E.
  - split; [|done]. eapply untouched_trans; [exact HU|]. by apply untouched_refl.
  - split; [by apply untouched_refl|]. split; [by right|by left].
  - split; [|split; by right]. eapply untouched_trans; [exact HU|]. by apply untouched_refl.
Qed.

Lemma run_migration_outcome (db : DB) tip :
  legacy (contents db CF_CHAIN_META) tip -> migration_outcome tip db (run_migration_1_0_to_1_1 db).
Proof.
  intros HL. pose proof HL as (L1 & L2 & L3 & L4).
  assert (migration_outcome tip db (Err StorageError.RocksDb, db)) as HR.
  { split; [by apply untouched_refl|]. split; by left. }
  unfold run_migration_1_0_to_1_1, eff_bind at 1, eff_read at 1.
  destruct (get_cf db CF_CHAIN_META SCHEMA_MIGRATION_KEY) as [mk|] eqn:Em; [|exact HR].
  apply rocks_get in Em as ->. cbn [rocks map_err].
  assert (exists b, match contents db CF_CHAIN_META !! SCHEMA_MIGRATION_KEY with
    | Some bytes => let? marker := decode_migration_marker bytes in
        if negb (bool_decide (marker = (LEGACY_SCHEMA_VERSION_1_0, SCHEMA_VERSION))) then Err StorageError.CorruptData else Ok true
    | None => Ok false end = Ok b) as [mp ->] by (destruct L2 as [-> | ->]; [by exists false|by exists true]).
  unfold eff_bind at 1, eff_read at 1.
  destruct (read_tip_total db _ _ _ L3) as [-> | ->]; [|exact HR].
  unfold eff_bind at 1, eff_read at 1.
  assert (exists pref, tip_at (contents db CF_CHAIN_META) PREFERRED_HEADER_TIP_ID_KEY PREFERRED_HEADER_TIP_HEIGHT_KEY pref /\
    (pref = None \/ pref = tip)) as (pref & HP & Hp) by (destruct L4; eauto).
  destruct (read_tip_total db _ _ _ HP) as [-> | ->]; [|exact HR].
  unfold eff_bind at 1, eff_lift at 1.
  assert (match pref with Some existing => if negb (bool_decide (tip = Some existing)) then Err StorageError.CorruptData
     else Ok tt | None => Ok tt end = Ok tt) as ->.
  { destruct Hp as [-> | ->]; [done|]. destruct tip; [by rewrite bool_decide_true|done]. }
  unfold eff_bind. destruct mp; [by apply migrates|]. unfold sync_put. fold MARKER.
  destruct (sync_write _ db) as [r db1] eqn:E. pose proof (marker_written _ _ HL) as [HL1 HU].
  assert (legacy (contents db1 CF_CHAIN_META) tip /\ untouched (contents db) (contents db1)) as [HL2 HU2].
  { apply sync_write_cases in E as [[_ E]|[_ [E|E]]]; rewrite E; (split; [done|]);
      [eapply untouched_trans; [exact HU|]|..|eapply untouched_trans; [exact HU|]]; by apply untouched_refl. }
  assert (r = Ok tt \/ r = Err StorageError.DurabilityFailure) as [-> | ->]
    by (apply sync_write_cases in E as [[-> _]|[-> _]]; eauto).
  - destruct (migrates db1 tip pref HL2) as [HU3 HM]; [|done|].
    { destruct HP as (P1 & P2 & P3). destruct HU2 as [_ _]. clear -E P1 P2 P3.
      apply sync_write_cases in E as [[_ E]|[_ [E|E]]]; rewrite E; unfold tip_at; write_meta;
        rewrite ?lookup_insert_ne by key_ne; done. }
    split; [by eapply untouched_trans|done].
  - split; [done|]. split; [by right|by left].
Qed.

(** C16: schema migration.  Opening a database of schema 1.0, fresh
    or with a migration begun, either ends in schema 1.1 with the preferred
    header tip set to the active tip and no marker, or fails only because the
    disk failed and leaves a database that is still such a legacy database or
    already migrated; blocks, outputs and all other records are never
    touched.  So the migration can be cut at any write and resumed. *)
Theorem schema_migration_resumable (db : DB) tip :
  cf_handle db CF_CHAIN_META = true -> legacy (contents db CF_CHAIN_META) tip ->
  migration_outcome tip db (OregonDb_open_internal db).
Proof.
  intros Hc HL. pose proof HL as (L1 & _).
  unfold OregonDb_open_internal, eff_bind at 1, eff_read at 1, OregonDb_column_family. rewrite Hc.
  unfold eff_bind at 1, eff_read at 1.
  destruct (get_cf db CF_CHAIN_META SCHEMA_KEY) as [sk|] eqn:Em.
  2: { split; [by apply untouched_refl|]. split; by left. }
  apply rocks_get in Em as ->. cbn [rocks map_err]. rewrite L1.
  unfold eff_bind at 2, eff_lift at 1. rewrite schema_version_round_trip by done. rewrite bool_decide_true by done.
  unfold eff_bind. pose proof (run_migration_outcome db tip HL) as HO.
  destruct (run_migration_1_0_to_1_1 db) as [[[]|e] db1]; [|exact HO]. destruct HO as [HU HM]. cbn [fst snd] in *.
  unfold eff_read. destruct HM as (M1 & M2 & M3 & M4).
  destruct (read_tip_total db1 _ _ _ M4) as [-> | ->]; (split; [done|]); cbn [fst snd]; [done|]. split; [by left|]. right. done.
Qed.

End Properties.

(** ** A key-value store in memory *)

(** One table per column family, and a switch that makes the next write fail. *)
Record MemDb : Type := MkMemDb {
  mem_tables : ColumnFamily -> gmap (list byte) (list byte);
  mem_fails : bool;
}.

#[export] Instance mem_rocks : RocksDb MemDb := {|
  cf_handle := fun _ _ => true;
  get_cf := fun db cf k => Ok (mem_tables db cf !! k);
  iterator_cf := fun db cf => map Ok (map_to_list (mem_tables db cf));
  write_opt := fun ops _ db =>
    if mem_fails db then (Err tt, MkMemDb (mem_tables db) false)
    else (Ok tt, MkMemDb (apply_writes ops (mem_tables db)) false);
|}.

#[export] Program Instance mem_rocks_laws : RocksDbLaws MemDb := {| contents := mem_tables |}.
Next Obligation. by intros db cf k v [= <-]. Qed.
Next Obligation.
  intros db cf l El. simpl in El. enough (map_to_list (mem_tables db cf) = l) as <- by done.
  revert l El. induction (map_to_list (mem_tables db cf)) as [|x xs IH]; intros [|y l] El; simplify_eq/=; [done|].
  f_equal. by apply IH.
Qed.
Next Obligation. intros [t []] ops sync db'; simpl; [done|]. by intros [= <-]. Qed.
Next Obligation. intros [t []] ops sync e db'; simpl; [|done]. intros [= <- <-]. by left. Qed.

Definition empty_db : MemDb := MkMemDb (fun _ => ∅) false.

Lemma empty_db_stores `{Blake3} : db_stores empty_db empty_store.
Proof.
  split; [split; try apply cf_rep_empty|split]; simpl; try done.
Qed.

Definition demo_key_bytes : list byte := encode_outpoint_key demo_seed.

Lemma storage_records_exact_witness :
  decode_outpoint_key demo_key_bytes = Ok demo_seed.
Proof.
  refine (proj2 (proj2 (proj2 (proj2 (storage_records_exact demo_key_bytes _))) demo_seed) _).
  - by vm_compute.
  - split; [by vm_compute|done].
Defined.

Definition demo_batch : StorageBatch :=
  set_tip (arr_fill 32 x11) 7 (set_active_height 7 (arr_fill 32 x11)
    (put_utxo demo_seed (MkUtxoEntry (demo_output 100) 1 true) StorageBatch_new)).

Lemma oregon_db_refines_store_witness :
  exists s', db_stores (H := demo_blake3) (OregonDb_commit (H := demo_blake3) demo_batch Sync empty_db).2 s' /\
    reads_agree (H := demo_blake3) (OregonDb_commit (H := demo_blake3) demo_batch Sync empty_db).2 s'.
Proof.
  destruct (oregon_db_refines_store (H := demo_blake3) empty_db empty_store demo_batch Sync
    (OregonDb_commit (H := demo_blake3) demo_batch Sync empty_db).1
    (OregonDb_commit (H := demo_blake3) demo_batch Sync empty_db).2) as (s' & HS & HR & _).
  - apply empty_db_stores.
  - repeat constructor; by vm_compute.
  - by destruct (OregonDb_commit _ _ _).
  - exact (ex_intro _ s' (conj HS HR)).
Defined.

Definition legacy_db : MemDb := MkMemDb (fun cf => match cf with
  | CF_CHAIN_META => {[ SCHEMA_KEY := encode_schema_version LEGACY_SCHEMA_VERSION_1_0;
                        ACTIVE_TIP_ID_KEY := arr_bytes (arr_fill 32 x11);
                        ACTIVE_TIP_HEIGHT_KEY := le_bytes 8 7 ]}
  | _ => ∅ end) false.

Lemma schema_migration_resumable_witness :
  migration_outcome (Some (arr_fill 32 x11, 7)) legacy_db (OregonDb_open_internal legacy_db).
Proof.
  apply (schema_migration_resumable legacy_db (Some (arr_fill 32 x11, 7))); [reflexivity|].
  unfold legacy, tip_at. refine (conj _ (conj (or_introl _) (conj (conj _ (conj _ _)) (or_introl (conj _ (conj _ _)))))).
  - vm_compute; reflexivity.
  - vm_compute; reflexivity.
  - vm_compute; reflexivity.
  - vm_compute; reflexivity.
  - intros id h [= _ <-]. by unfold_ints.
  - vm_compute; reflexivity.
  - vm_compute; reflexivity.
  - intros id h E. discriminate E.
Defined.
