(* ===== verification/ChainState.v ===== *)
(** [oregon-chainstate]: the block tree, the active chain and its unspent
    outputs, over a database that satisfies [BlockStore].  Headers are admitted
    into the tree, blocks extend the active chain, are kept on side chains or
    reorganise the chain when they carry more work; old bodies and undo
    records are pruned; a state is bootstrapped or reopened from its database.
    Error messages are not modelled. *)
From S2P Require Import Prelude Encoding Transaction Block Difficulty Emission HeaderRules BlockRules Utxo.
From S2P Require Import Records StoreSpec.

(** ** The light RandomX engine *)

Module PowError.
Inductive t : Type := CacheAllocationFailed | DatasetAllocationFailed | VmAllocationFailed.
End PowError.

(** The RandomX library: whether the cache and the virtual machine for a key
    can be allocated, and the hash under a key. *)
Class RandomX : Type := {
  randomx_alloc_cache : arr 32 -> bool;
  randomx_create_vm : arr 32 -> bool;
  randomx_calculate_hash : arr 32 -> list byte -> arr 32;
}.

Record LightEngine : Type := MkLightEngine { le_key : arr 32 }.

Definition LightEngine_new `{RandomX} (key : arr 32) : result PowError.t LightEngine :=
  if negb (randomx_alloc_cache key) then Err PowError.CacheAllocationFailed
  else if negb (randomx_create_vm key) then Err PowError.VmAllocationFailed
  else Ok (MkLightEngine key).

#[export] Instance LightEngine_pow `{RandomX} : PowEngine LightEngine := {|
  pow_key := le_key;
  pow_hash := fun engine input => (randomx_calculate_hash (le_key engine) input, engine);
|}.

(** ** State and errors *)

Module ChainStateError.
Inductive t : Type :=
| Storage (e : StorageError.t)
| Consensus (e : ConsensusError.t)
| Pow (e : PowError.t)
| Utxo (e : UtxoError.t)
| UnknownParent (id : Hash256)
| MissingBlockBody (id : Hash256)
| MissingUndo (id : Hash256)
| ConfigMismatch
| CorruptState
| StorageFaulted
| ReindexRequired.
End ChainStateError.

Definition REORG_WINDOW : Z := 8064.

Record ChainConfig : Type := MkChainConfig {
  anchor_header : BlockHeader;
  genesis_timestamp : Z;
  params : ConsensusParams;
}.

Record Tip : Type := MkTip { tip_id : Hash256; ct_height : Z; tip_work : ChainWork }.
Record HeaderTip : Type := MkHeaderTip { htip_id : Hash256; htip_height : Z; htip_work : ChainWork }.

Inductive SessionHealth : Type := SessionHealthy | SessionStorageFaulted | SessionReindexRequired.
Inductive AcceptOutcome : Type := Extended | StoredSideChain | Reorganized.
Inductive HeaderImportStatus : Type := HeaderKnown | HeaderStored | HeaderPreferred.

Record HeaderImportOutcome : Type := MkHeaderImportOutcome {
  hio_block_id : Hash256;
  hio_height : Z;
  hio_status : HeaderImportStatus;
  hio_preferred_tip : HeaderTip;
}.

Record ChainState (DB : Type) : Type := MkChainState {
  cs_db : DB;
  cs_config : ChainConfig;
  cs_tip : Tip;
  cs_header_tip : HeaderTip;
  cs_utxos : UtxoState;
  cs_session : SessionHealth;
}.
Arguments MkChainState {DB}.
Arguments cs_db {DB}.
Arguments cs_config {DB}.
Arguments cs_tip {DB}.
Arguments cs_header_tip {DB}.
Arguments cs_utxos {DB}.
Arguments cs_session {DB}.

Definition with_db {DB} (db : DB) (st : ChainState DB) : ChainState DB :=
  MkChainState db (cs_config st) (cs_tip st) (cs_header_tip st) (cs_utxos st) (cs_session st).
Definition with_session {DB} (h : SessionHealth) (st : ChainState DB) : ChainState DB :=
  MkChainState (cs_db st) (cs_config st) (cs_tip st) (cs_header_tip st) (cs_utxos st) h.
Definition with_tip {DB} (tip : Tip) (utxos : UtxoState) (st : ChainState DB) : ChainState DB :=
  MkChainState (cs_db st) (cs_config st) tip (cs_header_tip st) utxos (cs_session st).
Definition with_header_tip {DB} (tip : HeaderTip) (st : ChainState DB) : ChainState DB :=
  MkChainState (cs_db st) (cs_config st) (cs_tip st) tip (cs_utxos st) (cs_session st).

Definition work_gtb (a b : ChainWork) : bool := work_value b <? work_value a.

(** ** Branches of the tree *)

Record BranchView (DB : Type) : Type := MkBranchView { bv_db : DB; bv_tip : Hash256 }.
Arguments MkBranchView {DB}.
Arguments bv_db {DB}.
Arguments bv_tip {DB}.

Section Operations.
Context `{Blake3} {DB : Type} `{!BlockStore DB} `{!RandomX} {V : Type} `{!SpendVerifier V}.

(** [?] on a result of the storage layer. *)
Definition storage {A} (r : result StorageError.t A) : result ChainStateError.t A :=
  map_err ChainStateError.Storage r.

Definition checked_index (db : DB) (id : Hash256) : result ChainStateError.t BlockIndexRecord :=
  let? found := storage (db_get_index db id) in
  let? record := ok_or found ChainStateError.CorruptState in
  ensure negb (bool_decide (idx_validation record = Invalid)) else ChainStateError.CorruptState in
  if idx_height record =? 0 then
    ensure bool_decide (idx_work record = ChainWork_zero) else ChainStateError.CorruptState in
    Ok record
  else
    let? found := storage (db_get_index db (idx_parent record)) in
    let? parent := ok_or found ChainStateError.CorruptState in
    ensure negb (bool_decide (idx_validation parent = Invalid)) else ChainStateError.CorruptState in
    let? expected_height := ok_or (checked_add U64_MAX (idx_height parent) 1) ChainStateError.CorruptState in
    ensure idx_height record =? expected_height else ChainStateError.CorruptState in
    let? target := map_err (fun _ => ChainStateError.CorruptState)
                     (Target_from_le_bytes (difficulty_commitment (idx_header record))) in
    let expected_work := ChainWork_add_assign (idx_work parent) (block_work target) in
    ensure bool_decide (idx_work record = expected_work) else ChainStateError.CorruptState in
    Ok record.

(** The loop of [ancestor_id_at_height].  A checked record is one above its
    parent, so the difference of the heights is the number of rounds. *)
Fixpoint ancestor_loop (fuel : nat) (db : DB) (current_id : Hash256) (current : BlockIndexRecord) (height : Z)
  : result ChainStateError.t Hash256 :=
  if idx_height current >? height then
    match fuel with
    | O => Err ChainStateError.CorruptState
    | S fuel =>
        let current_id := idx_parent current in
        let? current := checked_index db current_id in
        ancestor_loop fuel db current_id current height
    end
  else Ok current_id.

Definition ancestor_id_at_height (view : BranchView DB) (height : Z)
  : result ChainStateError.t (option Hash256) :=
  let? current := checked_index (bv_db view) (bv_tip view) in
  if height >? idx_height current then Ok None
  else
    let? id := ancestor_loop (Z.to_nat (idx_height current - height)) (bv_db view) (bv_tip view) current height in
    Ok (Some id).

Fixpoint mtp_loop (n : nat) (db : DB) (current_id : Hash256) : result ChainStateError.t (list Z) :=
  match n with
  | O => Ok []
  | S n =>
      let? current := checked_index db current_id in
      if idx_height current =? 0 then Ok [timestamp (idx_header current)]
      else
        let? rest := mtp_loop n db (idx_parent current) in
        Ok (timestamp (idx_header current) :: rest)
  end.

Definition mtp_window (view : BranchView DB) : result ChainStateError.t (list Z) :=
  mtp_loop 11 (bv_db view) (bv_tip view).

#[export] Instance BranchView_key_source : PowKeyBlockSource (BranchView DB) := fun view height =>
  match ancestor_id_at_height view height with Ok id => id | Err _ => None end.

(** ** Headers *)

Definition validate_candidate_header (st : ChainState DB) (header : BlockHeader)
  : result ChainStateError.t BlockIndexRecord :=
  let parent_id := previous_block header in
  let? found := storage (db_get_index (cs_db st) parent_id) in
  let? parent := ok_or found (ChainStateError.UnknownParent parent_id) in
  ensure negb (bool_decide (idx_validation parent = Invalid)) else ChainStateError.CorruptState in
  let branch := MkBranchView (cs_db st) parent_id in
  let? window := mtp_window branch in
  let? height := ok_or (checked_add U64_MAX (idx_height parent) 1) ChainStateError.CorruptState in
  let? facts := map_err ChainStateError.Consensus
    (validate_header_pre_pow header
       (MkHeaderContext height (idx_header parent) (genesis_timestamp (cs_config st)) window)
       (params (cs_config st))) in
  let key_height := key_block_height height in
  let? key := ancestor_id_at_height branch key_height in
  let? key_block_id := ok_or key (ChainStateError.Consensus ConsensusError.PowKeyBlockUnavailable) in
  let? engine := map_err ChainStateError.Pow (LightEngine_new (derive_randomx_key key_block_id)) in
  let? _ := map_err ChainStateError.Consensus (fst (validate_header_pow header facts branch engine)) in
  let cumulative_work := ChainWork_add_assign (idx_work parent) (facts_work facts) in
  Ok (MkBlockIndexRecord header parent_id height cumulative_work HeaderValidated false).

(** [state.db.commit_durable(batch)?] *)
Definition commit_batch (batch : StorageBatch) : eff (ChainState DB) ChainStateError.t unit := fun st =>
  let '(r, db) := commit_durable batch (cs_db st) in (storage r, with_db db st).

Definition modify (f : ChainState DB -> ChainState DB) : eff (ChainState DB) ChainStateError.t unit := fun st =>
  (Ok tt, f st).

Definition accept_header_healthy (header : BlockHeader) : eff (ChainState DB) ChainStateError.t HeaderImportOutcome :=
  let id := block_id header in
  let! found := eff_read (fun st => storage (db_get_index (cs_db st) id)) in
  match found with
  | Some existing =>
      if bool_decide (idx_validation existing = Invalid) then eff_fail ChainStateError.CorruptState
      else eff_read (fun st => Ok (MkHeaderImportOutcome id (idx_height existing) HeaderKnown (cs_header_tip st)))
  | None =>
      let! index := eff_read (fun st => validate_candidate_header st header) in
      let height := idx_height index in
      let candidate_tip := MkHeaderTip id height (idx_work index) in
      let! becomes_preferred := eff_read (fun st => Ok (work_gtb (htip_work candidate_tip) (htip_work (cs_header_tip st)))) in
      let batch := put_index index StorageBatch_new in
      let batch := if becomes_preferred then set_preferred_header_tip id height batch else batch in
      let! _ := commit_batch batch in
      let! status := (if becomes_preferred
                      then let! _ := modify (with_header_tip candidate_tip) in eff_ret HeaderPreferred
                      else eff_ret HeaderStored) in
      eff_read (fun st => Ok (MkHeaderImportOutcome id height status (cs_header_tip st)))
  end.

(** ** Changes of the unspent outputs *)

(** A [BTreeMap]: the last change of each outpoint. *)
Abbreviation UtxoDelta := (gmap OutPoint (option UtxoEntry)).

Definition insert_created (staged : UtxoState) (created : list OutPoint) (delta : UtxoDelta)
  : result ChainStateError.t UtxoDelta :=
  try_fold (fun (delta : UtxoDelta) o =>
    let? entry := ok_or (staged !! o) ChainStateError.CorruptState in
    Ok (<[o := Some entry]> delta)) created delta.

Definition record_connect_delta (delta : UtxoDelta) (staged : UtxoState) (undo : BlockUndo)
  : result ChainStateError.t UtxoDelta :=
  insert_created staged (created undo) (foldl (fun (delta : UtxoDelta) p => <[p.1 := None]> delta) delta (spent undo)).

Definition build_utxo_delta (staged : UtxoState) (undo : BlockUndo) : result ChainStateError.t UtxoDelta :=
  insert_created staged (created undo) (foldl (fun (delta : UtxoDelta) p => <[p.1 := None]> delta) ∅ (spent undo)).

Definition record_disconnect_delta (delta : UtxoDelta) (undo : BlockUndo) : UtxoDelta :=
  foldl (fun (delta : UtxoDelta) p => <[p.1 := Some p.2]> delta)
    (foldl (fun (delta : UtxoDelta) o => <[o := None]> delta) delta (created undo)) (spent undo).

(** The entries of the map in the order of their outpoints. *)
Definition delta_entries (delta : UtxoDelta) : list (OutPoint * option UtxoEntry) :=
  merge_sort (fun p q => outpoint_le p.1 q.1) (map_to_list delta).

Definition apply_utxo_delta (delta : UtxoDelta) (batch : StorageBatch) : StorageBatch :=
  foldl (fun batch p => match p.2 with
                        | Some entry => put_utxo p.1 entry batch
                        | None => delete_utxo p.1 batch
                        end) batch (delta_entries delta).

(** ** Extending the active chain *)

Definition extend_active (block : Block) (height : Z) (cumulative_work : ChainWork) (verifier : V)
  : eff (ChainState DB) ChainStateError.t AcceptOutcome :=
  let id := block_id (header block) in
  let parent_id := previous_block (header block) in
  let! (undo, staged) := eff_read (fun st =>
    match connect_block block height (params (cs_config st)) verifier (cs_utxos st) with
    | (Ok undo, staged) => Ok (undo, staged)
    | (Err e, _) => Err (ChainStateError.Utxo e)
    end) in
  let! delta := eff_lift (build_utxo_delta staged undo) in
  let index := MkBlockIndexRecord (header block) parent_id height cumulative_work FullyValidated true in
  let! becomes_preferred := eff_read (fun st => Ok (work_gtb cumulative_work (htip_work (cs_header_tip st)))) in
  let batch := put_block block StorageBatch_new in
  let batch := put_index index batch in
  let batch := put_undo id undo batch in
  let batch := apply_utxo_delta delta batch in
  let batch := set_active_height height id batch in
  let batch := set_tip id height batch in
  let batch := if becomes_preferred then set_preferred_header_tip id height batch else batch in
  let! _ := commit_batch batch in
  let! _ := modify (with_tip (MkTip id height cumulative_work) staged) in
  let! _ := (if becomes_preferred then modify (with_header_tip (MkHeaderTip id height cumulative_work))
             else eff_ret tt) in
  eff_ret Extended.

(** ** Finding the fork *)

Record CandidateNode : Type := MkCandidateNode { cn_id : Hash256; cn_index : BlockIndexRecord }.
Record ForkDiscovery : Type := MkForkDiscovery { fork_height : Z; fork_candidate : list CandidateNode }.
Record ReorgCandidate : Type := MkReorgCandidate { rc_id : Hash256; rc_index : BlockIndexRecord; rc_block : Block }.
Record ReorgPlan : Type := MkReorgPlan {
  plan_fork_height : Z;
  plan_old_active : list (Hash256 * BlockUndo);
  plan_candidate : list ReorgCandidate;
}.

Definition reorg_depth_allowed (depth : Z) : bool := depth <=? REORG_WINDOW.

Definition validate_index_identity (id : Hash256) (record : BlockIndexRecord) : result ChainStateError.t unit :=
  if negb (bool_decide (block_id (idx_header record) = id))
     || negb (bool_decide (idx_parent record = previous_block (idx_header record)))
  then Err ChainStateError.CorruptState else Ok tt.

Definition validate_parent_child (parent_id : Hash256) (parent : BlockIndexRecord) (child_id : Hash256)
  (child : BlockIndexRecord) : result ChainStateError.t unit :=
  let? _ := validate_index_identity parent_id parent in
  let? _ := validate_index_identity child_id child in
  ensure negb (bool_decide (idx_validation parent = Invalid)) else ChainStateError.CorruptState in
  ensure bool_decide (idx_parent child = parent_id) else ChainStateError.CorruptState in
  let? expected_height := ok_or (checked_add U64_MAX (idx_height parent) 1) ChainStateError.CorruptState in
  ensure idx_height child =? expected_height else ChainStateError.CorruptState in
  let? target := map_err (fun _ => ChainStateError.CorruptState)
                   (Target_from_le_bytes (difficulty_commitment (idx_header child))) in
  let expected_work := ChainWork_add_assign (idx_work parent) (block_work target) in
  ensure bool_decide (idx_work child = expected_work) else ChainStateError.CorruptState in
  Ok tt.

(** The loop of [discover_fork]; [candidate] is in the order it is pushed.  A
    validated parent is one below its child, so the height is the number of
    rounds. *)
Fixpoint discover_loop (fuel : nat) (db : DB) (current_id : Hash256) (current : BlockIndexRecord)
  (candidate : list CandidateNode) : result ChainStateError.t ForkDiscovery :=
  let? active := storage (db_active_id_at_height db (idx_height current)) in
  if bool_decide (active = Some current_id) then Ok (MkForkDiscovery (idx_height current) (rev candidate))
  else
    ensure negb (bool_decide (idx_validation current = Invalid)) else ChainStateError.CorruptState in
    ensure negb (idx_height current =? 0) else ChainStateError.CorruptState in
    let candidate := candidate ++ [MkCandidateNode current_id current] in
    let parent_id := idx_parent current in
    let? found := storage (db_get_index db parent_id) in
    let? parent := ok_or found ChainStateError.CorruptState in
    let? _ := validate_parent_child parent_id parent current_id current in
    match fuel with
    | O => Err ChainStateError.CorruptState
    | S fuel => discover_loop fuel db parent_id parent candidate
    end.

Definition discover_fork (db : DB) (candidate_id : Hash256) (candidate_index : BlockIndexRecord)
  : result ChainStateError.t ForkDiscovery :=
  let? _ := validate_index_identity candidate_id candidate_index in
  discover_loop (Z.to_nat (idx_height candidate_index)) db candidate_id candidate_index [].

Definition load_old_active (db : DB) (fork_height active_tip_height : Z)
  : result ChainStateError.t (list (Hash256 * BlockUndo)) :=
  try_map (fun height =>
    let? found := storage (db_active_id_at_height db height) in
    let? id := ok_or found ChainStateError.CorruptState in
    let? found := storage (db_get_undo db id) in
    let? undo := ok_or found (ChainStateError.MissingUndo id) in
    Ok (id, undo)) (rev (seqZ (fork_height + 1) (active_tip_height - fork_height))).

Definition load_candidate (db : DB) (current_candidate_id : Hash256) (current_candidate_block : Block)
  (node : CandidateNode) : result ChainStateError.t ReorgCandidate :=
  let? block :=
    (if bool_decide (cn_id node = current_candidate_id) then Ok current_candidate_block
     else
       ensure idx_body_retained (cn_index node) else ChainStateError.MissingBlockBody (cn_id node) in
       let? found := storage (db_get_block db (cn_id node)) in
       ok_or found (ChainStateError.MissingBlockBody (cn_id node))) in
  if negb (bool_decide (block_id (header block) = cn_id node))
     || negb (bool_decide (header block = idx_header (cn_index node)))
  then Err ChainStateError.CorruptState
  else Ok (MkReorgCandidate (cn_id node) (cn_index node) block).

Definition load_reorg_plan (db : DB) (active_tip_height : Z) (discovery : ForkDiscovery)
  (current_candidate_id : Hash256) (current_candidate_block : Block) : result ChainStateError.t ReorgPlan :=
  let? old_active := load_old_active db (fork_height discovery) active_tip_height in
  let? candidate := try_map (load_candidate db current_candidate_id current_candidate_block) (fork_candidate discovery) in
  Ok (MkReorgPlan (fork_height discovery) old_active candidate).

(** ** Reorganising *)

Definition disconnect_all (old_active : list (Hash256 * BlockUndo)) (staged : UtxoState)
  : result ChainStateError.t (UtxoState * UtxoDelta) :=
  try_fold (fun '(staged, delta) '(_, undo) =>
    let delta := record_disconnect_delta delta undo in
    match disconnect_block undo staged with
    | (Ok _, staged) => Ok (staged, delta)
    | (Err e, _) => Err (ChainStateError.Utxo e)
    end) old_active (staged, ∅).

Inductive ConnectOutcome : Type :=
| Connected (staged : UtxoState) (delta : UtxoDelta) (undos : list BlockUndo)
| ConnectFailed (error : UtxoError.t) (invalid : list ReorgCandidate)
| DeltaFailed (error : ChainStateError.t).

(** The loop that connects the candidate path; a failure returns the nodes
    from the failing one on. *)
Fixpoint connect_all (p : ConsensusParams) (verifier : V) (candidate : list ReorgCandidate) (staged : UtxoState)
  (delta : UtxoDelta) (new_undos : list BlockUndo) : ConnectOutcome :=
  match candidate with
  | [] => Connected staged delta new_undos
  | node :: rest =>
      match connect_block (rc_block node) (idx_height (rc_index node)) p verifier staged with
      | (Ok undo, staged) =>
          match record_connect_delta delta staged undo with
          | Ok delta => connect_all p verifier rest staged delta (new_undos ++ [undo])
          | Err e => DeltaFailed e
          end
      | (Err error, _) => ConnectFailed error (node :: rest)
      end
  end.

Definition mark_invalid (current_candidate_id : Hash256) (node : ReorgCandidate) : BlockIndexRecord :=
  let i := rc_index node in
  MkBlockIndexRecord (idx_header i) (idx_parent i) (idx_height i) (idx_work i) Invalid
    (if bool_decide (rc_id node = current_candidate_id) then false else idx_body_retained i).

Definition mark_active (i : BlockIndexRecord) : BlockIndexRecord :=
  MkBlockIndexRecord (idx_header i) (idx_parent i) (idx_height i) (idx_work i) FullyValidated true.

Definition invalid_batch (current_candidate_id : Hash256) (invalid : list ReorgCandidate) : StorageBatch :=
  foldl (fun batch node => put_index (mark_invalid current_candidate_id node) batch) StorageBatch_new invalid.

Definition reorg_batch (fork_height tip_height : Z) (candidate : list ReorgCandidate) (new_undos : list BlockUndo)
  (delta : UtxoDelta) : StorageBatch :=
  let batch := foldl (fun batch height => delete_active_height height batch) StorageBatch_new
                 (seqZ (fork_height + 1) (tip_height - fork_height)) in
  let batch := foldl (fun batch p =>
      let '(node, undo) := p in
      let batch := put_block (rc_block node) batch in
      let batch := put_index (mark_active (rc_index node)) batch in
      let batch := put_undo (rc_id node) undo batch in
      set_active_height (idx_height (rc_index node)) (rc_id node) batch)
    batch (zip candidate new_undos) in
  apply_utxo_delta delta batch.

Definition apply_reorg_plan (plan : ReorgPlan) (current_candidate_id : Hash256) (verifier : V)
  : eff (ChainState DB) ChainStateError.t AcceptOutcome :=
  let '(MkReorgPlan fork_height old_active candidate) := plan in
  match candidate with
  | [] => eff_fail ChainStateError.CorruptState
  | _ =>
      let! (staged, delta) := eff_read (fun st => disconnect_all old_active (cs_utxos st)) in
      let! outcome := eff_read (fun st =>
        Ok (connect_all (params (cs_config st)) verifier candidate staged delta [])) in
      match outcome with
      | DeltaFailed e => eff_fail e
      | ConnectFailed error invalid =>
          let! _ := commit_batch (invalid_batch current_candidate_id invalid) in
          eff_fail (ChainStateError.Utxo error)
      | Connected staged delta new_undos =>
          let! new_tip := eff_lift (ok_or (last candidate) ChainStateError.CorruptState) in
          let new_tip_height := idx_height (rc_index new_tip) in
          let new_tip_work := idx_work (rc_index new_tip) in
          let! becomes_preferred := eff_read (fun st => Ok (work_gtb new_tip_work (htip_work (cs_header_tip st)))) in
          let! _ := eff_lift (ok_or (checked_add U64_MAX fork_height 1) ChainStateError.CorruptState) in
          let! batch := eff_read (fun st =>
            Ok (reorg_batch fork_height (ct_height (cs_tip st)) candidate new_undos delta)) in
          let batch := set_tip (rc_id new_tip) new_tip_height batch in
          let batch := if becomes_preferred then set_preferred_header_tip (rc_id new_tip) new_tip_height batch
                       else batch in
          let! _ := commit_batch batch in
          let! _ := modify (with_tip (MkTip (rc_id new_tip) new_tip_height new_tip_work) staged) in
          let! _ := (if becomes_preferred
                     then modify (with_header_tip (MkHeaderTip (rc_id new_tip) new_tip_height new_tip_work))
                     else eff_ret tt) in
          eff_ret Reorganized
      end
  end.

Definition reorganize (candidate_block : Block) (candidate_index : BlockIndexRecord) (verifier : V)
  : eff (ChainState DB) ChainStateError.t AcceptOutcome :=
  let candidate_id := block_id (header candidate_block) in
  let! discovery := eff_read (fun st => discover_fork (cs_db st) candidate_id candidate_index) in
  let! depth := eff_read (fun st =>
    ok_or (checked_sub (ct_height (cs_tip st)) (fork_height discovery)) ChainStateError.CorruptState) in
  if negb (reorg_depth_allowed depth) then
    let! _ := commit_batch (set_health NodeReindexRequired StorageBatch_new) in
    let! _ := modify (with_session SessionReindexRequired) in
    eff_fail ChainStateError.ReindexRequired
  else
    let! plan := eff_read (fun st =>
      load_reorg_plan (cs_db st) (ct_height (cs_tip st)) discovery candidate_id candidate_block) in
    apply_reorg_plan plan candidate_id verifier.

(** ** Admission *)

Definition existing_outcome (st : ChainState DB) (id : Hash256) : AcceptOutcome :=
  if bool_decide (id = tip_id (cs_tip st)) then Extended else StoredSideChain.

Definition with_body_retained (i : BlockIndexRecord) : BlockIndexRecord :=
  MkBlockIndexRecord (idx_header i) (idx_parent i) (idx_height i) (idx_work i) (idx_validation i) true.

(** The end both admission paths share: extend, reorganise, or keep aside. *)
Definition place_block (block : Block) (index : BlockIndexRecord) (verifier : V)
  : eff (ChainState DB) ChainStateError.t AcceptOutcome :=
  let! extends := eff_read (fun st => Ok (bool_decide (idx_parent index = tip_id (cs_tip st)))) in
  if extends then extend_active block (idx_height index) (idx_work index) verifier
  else
    let retained := with_body_retained index in
    let! heavier := eff_read (fun st => Ok (work_gtb (idx_work index) (tip_work (cs_tip st)))) in
    if heavier then reorganize block retained verifier
    else
      let batch := put_block block StorageBatch_new in
      let batch := put_index retained batch in
      let! _ := commit_batch batch in
      eff_ret StoredSideChain.

Definition accept_block_healthy (block : Block) (verifier : V) : eff (ChainState DB) ChainStateError.t AcceptOutcome :=
  let id := block_id (header block) in
  let! found := eff_read (fun st => storage (db_get_index (cs_db st) id)) in
  match found with
  | Some existing =>
      match idx_validation existing with
      | Invalid => eff_fail ChainStateError.CorruptState
      | FullyValidated => eff_read (fun st => Ok (existing_outcome st id))
      | HeaderValidated =>
          if idx_body_retained existing then eff_read (fun st => Ok (existing_outcome st id))
          else if negb (bool_decide (idx_header existing = header block)) then eff_fail ChainStateError.CorruptState
          else place_block block existing verifier
      end
  | None =>
      let! index := eff_read (fun st => validate_candidate_header st (header block)) in
      place_block block index verifier
  end.

(** ** The public operations *)

Definition ensure_mutation_allowed (st : ChainState DB) : result ChainStateError.t unit :=
  match cs_session st with
  | SessionHealthy => Ok tt
  | SessionStorageFaulted => Err ChainStateError.StorageFaulted
  | SessionReindexRequired => Err ChainStateError.ReindexRequired
  end.

(** A storage error faults the session. *)
Definition faulting {A} (op : eff (ChainState DB) ChainStateError.t A) : eff (ChainState DB) ChainStateError.t A :=
  fun st =>
  match ensure_mutation_allowed st with
  | Err e => (Err e, st)
  | Ok _ =>
      match op st with
      | (Err (ChainStateError.Storage e), st) =>
          (Err (ChainStateError.Storage e), with_session SessionStorageFaulted st)
      | p => p
      end
  end.

Definition accept_header (header : BlockHeader) : eff (ChainState DB) ChainStateError.t HeaderImportOutcome :=
  faulting (accept_header_healthy header).

Definition accept_block (block : Block) (verifier : V) : eff (ChainState DB) ChainStateError.t AcceptOutcome :=
  faulting (accept_block_healthy block verifier).

End Operations.
