(* ===== verification/ChainRecovery.v ===== *)
(** [oregon-chainstate]: pruning ([prune.rs]), bootstrapping and reopening
    ([recovery.rs]) and the reads that synchronisation uses ([sync_view.rs],
    with the adapter of [oregon-node/src/sync_adapter.rs]). *)
From S2P Require Import Prelude Encoding Transaction Block Difficulty Emission HeaderRules BlockRules Utxo.
From S2P Require Import Records StoreSpec ChainState Protocol Sync.

(** ** Pruning *)

Record PruneReport : Type := MkPruneReport { deleted_bodies : Z; deleted_undos : Z }.

Definition retained_active_floor (height : Z) : Z := saturating_sub height (REORG_WINDOW - 1).
Definition prune_cursor_for_tip (height : Z) : Z := saturating_sub height REORG_WINDOW.

Definition should_retain_body (block_height common_fork_height active_tip_height : Z) : bool :=
  if block_height <? retained_active_floor active_tip_height then false
  else match checked_sub active_tip_height common_fork_height with
       | Some depth => depth <=? REORG_WINDOW
       | None => false
       end.

Definition should_retain_undo (is_active : bool) (block_height active_tip_height : Z) : bool :=
  is_active && (block_height <=? active_tip_height) && (block_height >=? retained_active_floor active_tip_height).

Definition without_body (i : BlockIndexRecord) : BlockIndexRecord :=
  MkBlockIndexRecord (idx_header i) (idx_parent i) (idx_height i) (idx_work i) (idx_validation i) false.

Section Operations.
Context `{Blake3} {DB : Type} `{!BlockStore DB}.

(** Whether the body of a retained record stays. *)
Definition retain_body (db : DB) (active_tip_height : Z) (id : Hash256) (index : BlockIndexRecord) (is_active : bool)
  : result ChainStateError.t bool :=
  if bool_decide (idx_validation index = Invalid) || (idx_height index <? retained_active_floor active_tip_height)
  then Ok false
  else
    let? common_fork_height :=
      (if is_active then Ok (idx_height index)
       else let? discovery := discover_fork db id index in Ok (fork_height discovery)) in
    Ok (should_retain_body (idx_height index) common_fork_height active_tip_height).

(** One round of the loop of [plan_prune]. *)
Definition prune_record (db : DB) (active_tip_height : Z) (acc : StorageBatch * PruneReport)
  (item : Hash256 * BlockIndexRecord) : result ChainStateError.t (StorageBatch * PruneReport) :=
  let '(batch, report) := acc in
  let '(id, index) := item in
  let? active := storage (db_active_id_at_height db (idx_height index)) in
  let is_active := bool_decide (active = Some id) in
  ensure negb (is_active && negb (bool_decide (idx_validation index = FullyValidated)))
    else ChainStateError.CorruptState in
  let? body := storage (db_get_block db id) in
  let? _ := ok_or body ChainStateError.CorruptState in
  let? keep := retain_body db active_tip_height id index is_active in
  let? (batch, report) :=
    (if negb keep then
       let? n := ok_or (checked_add U64_MAX (deleted_bodies report) 1) ChainStateError.CorruptState in
       Ok (put_index (without_body index) (delete_block id batch), MkPruneReport n (deleted_undos report))
     else Ok (batch, report)) in
  let keep_undo := should_retain_undo is_active (idx_height index) active_tip_height in
  let? undo := storage (db_get_undo db id) in
  match undo with
  | Some _ =>
      if negb keep_undo then
        let? n := ok_or (checked_add U64_MAX (deleted_undos report) 1) ChainStateError.CorruptState in
        Ok (delete_undo id batch, MkPruneReport (deleted_bodies report) n)
      else Ok (batch, report)
  | None => if keep_undo then Err (ChainStateError.MissingUndo id) else Ok (batch, report)
  end.

Definition plan_prune (db : DB) (active_tip_height : Z) : result ChainStateError.t (StorageBatch * PruneReport) :=
  let? indices := storage (db_iter_body_retained_indices db) in
  let? (batch, report) := try_fold (prune_record db active_tip_height) indices
                            (StorageBatch_new, MkPruneReport 0 0) in
  Ok (set_prune_cursor (prune_cursor_for_tip active_tip_height) batch, report).

Definition prune : eff (ChainState DB) ChainStateError.t PruneReport := fun st =>
  match ensure_mutation_allowed st with
  | Err e => (Err e, st)
  | Ok _ =>
      match plan_prune (cs_db st) (ct_height (cs_tip st)) with
      | Err e => (Err e, st)
      | Ok (batch, report) =>
          let '(r, db) := commit_maintenance batch (cs_db st) in
          (storage (let? _ := r in Ok report), with_db db st)
      end
  end.

(** ** Opening *)

Definition validate_config (config : ChainConfig) : result ChainStateError.t unit :=
  let zero := arr_fill 32 x00 in
  ensure bool_decide (previous_block (anchor_header config) = zero) else ChainStateError.ConfigMismatch in
  ensure timestamp (anchor_header config) =? genesis_timestamp config else ChainStateError.ConfigMismatch in
  let? target := map_err (fun _ => ChainStateError.ConfigMismatch)
                   (Target_from_le_bytes (difficulty_commitment (anchor_header config))) in
  map_err (fun _ => ChainStateError.ConfigMismatch) (Target_validate_against target (pow_limit (params config))).

Definition bootstrap (config : ChainConfig) (db : DB) : result ChainStateError.t (ChainState DB) * DB :=
  let anchor_id := block_id (anchor_header config) in
  let present {A} (o : option A) : bool := match o with Some _ => true | None => false end in
  match
    (let? a := storage (db_config_anchor_id db) in
     if present a then Ok true else
     let? a := storage (db_config_genesis_timestamp db) in
     if present a then Ok true else
     let? a := storage (db_health db) in
     if present a then Ok true else
     let? a := storage (db_prune_cursor db) in
     if present a then Ok true else
     let? a := storage (db_active_id_at_height db 0) in
     if present a then Ok true else
     let? a := storage (db_preferred_header_tip db) in
     if present a then Ok true else
     let? a := storage (db_get_index db anchor_id) in
     Ok (present a))
  with
  | Err e => (Err e, db)
  | Ok true => (Err ChainStateError.CorruptState, db)
  | Ok false =>
      let anchor_index := MkBlockIndexRecord (anchor_header config) (previous_block (anchor_header config)) 0
                            ChainWork_zero FullyValidated false in
      let batch := put_index anchor_index StorageBatch_new in
      let batch := set_active_height 0 anchor_id batch in
      let batch := set_tip anchor_id 0 batch in
      let batch := set_preferred_header_tip anchor_id 0 batch in
      let batch := set_config_anchor_id anchor_id batch in
      let batch := set_config_genesis_timestamp (genesis_timestamp config) batch in
      let batch := set_health NodeHealthy batch in
      let batch := set_prune_cursor 0 batch in
      let '(r, db) := commit_durable batch db in
      (storage (let? _ := r in
                Ok (MkChainState db config (MkTip anchor_id 0 ChainWork_zero) (MkHeaderTip anchor_id 0 ChainWork_zero)
                      ∅ SessionHealthy)), db)
  end.

Definition load_preferred_header_tip (db : DB) (expected_anchor_id : Hash256) : result ChainStateError.t HeaderTip :=
  let? found := storage (db_preferred_header_tip db) in
  let? (id, height) := ok_or found ChainStateError.CorruptState in
  let? found := storage (db_get_index db id) in
  let? record := ok_or found ChainStateError.CorruptState in
  ensure idx_height record =? height else ChainStateError.CorruptState in
  ensure negb (bool_decide (idx_validation record = Invalid)) else ChainStateError.CorruptState in
  let? found := ancestor_id_at_height (MkBranchView db id) 0 in
  let? anchor_id := ok_or found ChainStateError.CorruptState in
  ensure bool_decide (anchor_id = expected_anchor_id) else ChainStateError.CorruptState in
  Ok (MkHeaderTip id height (idx_work record)).

(** What the loop of [reopen] carries from one height to the next. *)
Record Walk : Type := MkWalk { walk_id : option Hash256; walk_work : ChainWork; walk_final : option ChainWork }.

Definition check_anchor (config : ChainConfig) (id : Hash256) (record : BlockIndexRecord)
  : result ChainStateError.t unit :=
  ensure negb (negb (bool_decide (id = block_id (anchor_header config)))
               || negb (bool_decide (idx_header record = anchor_header config)))
    else ChainStateError.ConfigMismatch in
  ensure bool_decide (idx_work record = ChainWork_zero) else ChainStateError.CorruptState in
  ensure negb (idx_body_retained record) else ChainStateError.CorruptState in
  Ok tt.

Definition check_active (db : DB) (config : ChainConfig) (maximum_safe_prune_cursor height : Z) (w : Walk)
  (id : Hash256) (record : BlockIndexRecord) : result ChainStateError.t unit :=
  let? parent_id := ok_or (walk_id w) ChainStateError.CorruptState in
  ensure bool_decide (idx_parent record = parent_id) else ChainStateError.CorruptState in
  let? target := map_err (fun _ => ChainStateError.CorruptState)
                   (Target_from_le_bytes (difficulty_commitment (idx_header record))) in
  let? _ := map_err (fun _ => ChainStateError.CorruptState)
              (Target_validate_against target (pow_limit (params config))) in
  let expected_work := ChainWork_add_assign (walk_work w) (block_work target) in
  ensure bool_decide (idx_work record = expected_work) else ChainStateError.CorruptState in
  let must_retain := height >? maximum_safe_prune_cursor in
  ensure negb (must_retain && negb (idx_body_retained record)) else ChainStateError.CorruptState in
  if idx_body_retained record then
    let? body := storage (db_get_block db id) in
    let? _ := ok_or body ChainStateError.CorruptState in
    let? undo := storage (db_get_undo db id) in
    let? _ := ok_or undo ChainStateError.CorruptState in
    Ok tt
  else Ok tt.

Definition check_height (db : DB) (config : ChainConfig) (maximum_safe_prune_cursor : Z) (w : Walk) (height : Z)
  : result ChainStateError.t Walk :=
  let? found := storage (db_active_id_at_height db height) in
  let? id := ok_or found ChainStateError.CorruptState in
  let? found := storage (db_get_index db id) in
  let? record := ok_or found ChainStateError.CorruptState in
  ensure idx_height record =? height else ChainStateError.CorruptState in
  ensure bool_decide (idx_validation record = FullyValidated) else ChainStateError.CorruptState in
  let? _ := (if height =? 0 then check_anchor config id record
             else check_active db config maximum_safe_prune_cursor height w id record) in
  Ok (MkWalk (Some id) (idx_work record) (Some (idx_work record))).

Definition reopen (config : ChainConfig) (tip_id : Hash256) (tip_height : Z) (db : DB)
  : result ChainStateError.t (ChainState DB) :=
  let expected_anchor_id := block_id (anchor_header config) in
  let? found := storage (db_config_anchor_id db) in
  let? stored_anchor_id := ok_or found ChainStateError.CorruptState in
  ensure bool_decide (stored_anchor_id = expected_anchor_id) else ChainStateError.ConfigMismatch in
  let? found := storage (db_config_genesis_timestamp db) in
  let? stored_genesis_timestamp := ok_or found ChainStateError.CorruptState in
  ensure stored_genesis_timestamp =? genesis_timestamp config else ChainStateError.ConfigMismatch in
  let? found := storage (db_health db) in
  let? health := ok_or found ChainStateError.CorruptState in
  ensure bool_decide (health = NodeHealthy) else ChainStateError.ReindexRequired in
  let? found := storage (db_prune_cursor db) in
  let? prune_cursor := ok_or found ChainStateError.CorruptState in
  let maximum_safe_prune_cursor := saturating_sub tip_height REORG_WINDOW in
  ensure negb (prune_cursor >? maximum_safe_prune_cursor) else ChainStateError.CorruptState in
  let? w := try_fold (check_height db config maximum_safe_prune_cursor) (seqZ 0 (tip_height + 1))
              (MkWalk None ChainWork_zero None) in
  ensure bool_decide (walk_id w = Some tip_id) else ChainStateError.CorruptState in
  let? cumulative_work := ok_or (walk_final w) ChainStateError.CorruptState in
  let? header_tip := load_preferred_header_tip db expected_anchor_id in
  let? entries := storage (db_iter_utxos db) in
  let? utxos := map_err ChainStateError.Utxo (try_from_entries entries) in
  Ok (MkChainState db config (MkTip tip_id tip_height cumulative_work) header_tip utxos SessionHealthy).

(** [ChainState::open] on the result of opening the database. *)
Definition open_chain (config : ChainConfig) (opened : result StorageError.t DB)
  : result ChainStateError.t (ChainState DB) :=
  let? _ := validate_config config in
  let? db := storage opened in
  let? tip := storage (db_active_tip db) in
  match tip with
  | None => fst (bootstrap config db)
  | Some (tip_id, tip_height) => reopen config tip_id tip_height db
  end.

(** ** Reads for synchronisation *)

Definition ChainState_chain_id (st : ChainState DB) : Hash256 := block_id (anchor_header (cs_config st)).

Definition preferred_header_id_at_height (st : ChainState DB) (height : Z)
  : result ChainStateError.t (option Hash256) :=
  if height >? htip_height (cs_header_tip st) then Ok None
  else ancestor_id_at_height (MkBranchView (cs_db st) (htip_id (cs_header_tip st))) height.

Definition preferred_header_at_height (st : ChainState DB) (height : Z)
  : result ChainStateError.t (option BlockHeader) :=
  let? id := preferred_header_id_at_height st height in
  match id with
  | None => Ok None
  | Some id =>
      let? found := storage (db_get_index (cs_db st) id) in
      let? record := ok_or found ChainStateError.CorruptState in
      Ok (Some (idx_header record))
  end.

Definition ChainState_active_id_at_height (st : ChainState DB) (height : Z)
  : result ChainStateError.t (option Hash256) := storage (db_active_id_at_height (cs_db st) height).

Definition ChainState_body_retained (st : ChainState DB) (id : Hash256) : result ChainStateError.t bool :=
  let? found := storage (db_get_index (cs_db st) id) in
  Ok (match found with Some record => idx_body_retained record | None => false end).

(** The view the node gives to synchronisation: every error is
    [Unavailable]. *)
Definition view_result {A} (r : result ChainStateError.t A) : result SyncViewError.t A :=
  map_err (fun _ => SyncViewError.Unavailable) r.

Definition NodeSyncView (st : ChainState DB) : ChainSyncView := {|
  view_active_tip := Ok (MkSyncTip (tip_id (cs_tip st)) (ct_height (cs_tip st)));
  view_preferred_header_tip := Ok (MkSyncTip (htip_id (cs_header_tip st)) (htip_height (cs_header_tip st)));
  view_active_id_at_height := fun h => view_result (ChainState_active_id_at_height st h);
  view_preferred_header_id_at_height := fun h => view_result (preferred_header_id_at_height st h);
  view_preferred_header_at_height := fun h => view_result (preferred_header_at_height st h);
  view_body_retained := fun id => view_result (ChainState_body_retained st id);
|}.

End Operations.
