(* ===== verification/Fresh.v ===== *)
(** Why a node never sees the identifier of a transaction twice: a connected
    block only holds transactions that are not in the chain below it, because
    the inputs of a repeated transaction are already spent and a coinbase
    commits to its height.  So, unless two different transactions have one
    identifier, every block that connects satisfies [fresh_block]. *)
From S2P Require Import Prelude Encoding Transaction Block Difficulty Emission BlockRules Utxo Ledger.

Section Fresh.
Context `{Blake3} {V : Type} `{!SpendVerifier V}.
Variable given : Transaction -> Prop.

Definition txids_distinct : Prop :=
  forall t1 t2, given t1 -> given t2 -> Transaction_txid t1 = Transaction_txid t2 -> t1 = t2.

(** The transactions of a chain whose next block is at height [h] and whose
    unspent outputs are [s]. *)
Record history (txs : list Transaction) (h : Z) (s : UtxoState) : Prop := MkHistory {
  hi_given t : t ∈ txs -> given t;
  hi_origin o e : s !! o = Some e -> exists t, t ∈ txs /\ Transaction_txid t = txid o;
  hi_spent t o : t ∈ txs -> is_coinbase_form t = false -> o ∈ spent_outpoints t ->
    s !! o = None /\ exists t', t' ∈ txs /\ Transaction_txid t' = txid o;
  hi_coinbase t : t ∈ txs -> is_coinbase_form t = true ->
    exists k i w, 0 <= k < h /\ inputs t = [i] /\ witness i = write_varint k :: w;
}.

Lemma history_empty : history [] 1 ∅.
Proof. split; [set_solver| |set_solver..]. intros o e Ho. by rewrite lookup_empty in Ho. Qed.

(** A transaction with a new identifier whose outputs are the only new ones
    extends the history. *)
Lemma history_extend txs h h' s s' t :
  history txs h s -> given t -> h <= h' -> (forall t', t' ∈ txs -> Transaction_txid t' <> Transaction_txid t) ->
  (forall o e, s' !! o = Some e -> s !! o = Some e \/ txid o = Transaction_txid t) ->
  (is_coinbase_form t = false -> forall o, o ∈ spent_outpoints t ->
     s' !! o = None /\ exists t', t' ∈ txs /\ Transaction_txid t' = txid o) ->
  (is_coinbase_form t = true -> exists k i w, 0 <= k < h' /\ inputs t = [i] /\ witness i = write_varint k :: w) ->
  history (t :: txs) h' s'.
Proof.
  intros [H1 H2 H3 H4] Hg Hh Hf Ho Hs Hc. split.
  - set_solver.
  - intros o e [(t' & ? & ?)%H2|?]%Ho; [exists t'; set_solver|exists t; set_solver].
  - intros t0 o [->|Ht0]%elem_of_cons Hn Hin.
    + destruct (Hs Hn o Hin) as (? & t' & ? & ?). split; [done|]. exists t'. set_solver.
    + destruct (H3 _ _ Ht0 Hn Hin) as (HN & t' & Ht' & E). split; [|exists t'; set_solver].
      destruct (s' !! o) as [e|] eqn:Es; [|done]. destruct (Ho _ _ Es) as [?|E']; [congruence|].
      exfalso. apply (Hf t'); [done|congruence].
  - intros t0 [->|Ht0]%elem_of_cons HC; [by apply Hc|]. destruct (H4 _ Ht0 HC) as (k & i & w & ? & ? & ?).
    exists k, i, w. split_and!; [lia|lia|done|done].
Qed.

Lemma normal_not_coinbase t :
  inputs t <> [] -> Forall (fun i => is_null_outpoint i = false) (inputs t) -> is_coinbase_form t = false.
Proof. unfold is_coinbase_form. destruct (inputs t) as [|i [|]]; [done| |by intros]. intros _ HF. by inversion HF. Qed.

Hypothesis distinct : txids_distinct.

Lemma history_normal txs h s t hs v fee s' :
  history txs h s -> given t -> inputs t <> [] -> Forall (fun i => is_null_outpoint i = false) (inputs t) ->
  apply_normal_transaction t hs v s = (Ok fee, s') ->
  history (t :: txs) h s' /\ forall t', t' ∈ txs -> Transaction_txid t' <> Transaction_txid t.
Proof.
  intros HH Hg Hi Hn Ha. pose proof (normal_not_coinbase t Hi Hn) as Hc.
  pose proof (fun o e => apply_normal_origin t hs v s fee s' o e Ha) as Ho.
  apply apply_normal_spec in Ha as (_ & _ & HA & -> & _). apply spent_present in HA. rewrite Forall_forall in HA.
  assert (forall t', t' ∈ txs -> Transaction_txid t' <> Transaction_txid t) as Hf.
  { intros t' Ht' E. assert (t' = t) as -> by (by apply distinct; [eapply hi_given| |]).
    destruct (inputs t) as [|i ins] eqn:Ei; [done|].
    assert (TxInput_outpoint i ∈ spent_outpoints t) as Hin by (unfold spent_outpoints; rewrite Ei; by left).
    destruct (hi_spent _ _ _ HH _ _ Ht' Hc Hin) as [HN _]. destruct (HA _ Hin) as [e He]. congruence. }
  split; [|done]. apply (history_extend txs h h s); try done; [|congruence]. intros _ o Hin.
  destruct (HA _ Hin) as [e He]. destruct (hi_origin _ _ _ HH _ _ He) as (t' & Ht' & E). split; [|eauto].
  destruct (insert_all _ _ !! o) as [e'|] eqn:Es; [|done]. apply insert_numbered_lookup in Es as [Es|[E' _]].
  - rewrite remove_all_lookup in Es. by rewrite bool_decide_true in Es.
  - exfalso. apply (Hf t'); [done|congruence].
Qed.

Lemma history_transactions positions hs v i new : forall txs h s fees fees' s',
  history txs h s -> Forall given new ->
  Forall (fun t => inputs t <> [] /\ Forall (fun i => is_null_outpoint i = false) (inputs t)) new ->
  apply_transactions positions hs v i new fees s = Ok (fees', s') ->
  exists txs', history txs' h s' /\ txs ⊆ txs' /\
    forall t t', t ∈ new -> t' ∈ txs -> Transaction_txid t' <> Transaction_txid t.
Proof.
  revert i. induction new as [|t new IH]; intros i txs h s fees fees' s' HH HG HN.
  { intros [= _ <-]. exists txs. split_and!; [done|done|]. intros t t' Ht. by apply not_elem_of_nil in Ht. }
  apply Forall_cons in HG as [Hg HG]. apply Forall_cons in HN as [[Hi Hn] HN].
  cbn [apply_transactions]. destruct (existsb _ _); [done|].
  destruct (apply_normal_transaction t hs v s) as [[fee|] s1] eqn:Ea; [|done].
  destruct (history_normal _ _ _ _ _ _ _ _ HH Hg Hi Hn Ea) as [HH1 Hf].
  destruct (checked_add _ _ _); [|done]. cbn [ok_or]. intros Hr.
  destruct (IH _ _ _ _ _ _ _ HH1 HG HN Hr) as (txs' & HH' & Hsub & Hf'). exists txs'. split_and!; [done|set_solver|].
  intros t0 t' [->|Ht0]%elem_of_cons Ht'; [by apply Hf|]. apply Hf'; set_solver.
Qed.

(** Connecting a block keeps the history, and the block is fresh. *)
Lemma connect_fresh txs h p v b s u s' :
  history txs h s -> in_u64 h -> (forall t, t ∈ transactions b -> given t) ->
  connect_block b h p v s = (Ok u, s') ->
  fresh_block b s /\ exists txs', history txs' (h + 1) s'.
Proof.
  intros HH Hu HG. unfold connect_block.
  destruct (validate_non_genesis_block_skeleton b h) as [[]|] eqn:Esk; [cbn [map_err]|done].
  apply block_skeleton_spec in Esk as (_ & _ & _ & cb & new & Et & Hcb & _ & Hn). rewrite Et in *.
  destruct (tx_positions_from 1 new ∅) as [pos|]; [|done].
  destruct (apply_transactions _ _ _ _ _ _ _) as [[fees s1]|] eqn:Ea; [|done].
  apply (history_transactions _ _ _ _ _ txs h) in Ea as (txs1 & HH1 & Hsub & Hf); [|done|apply Forall_forall; set_solver|].
  2: { eapply Forall_impl; [exact Hn|]. intros t (? & _ & ?). done. }
  destruct (Amount_from_base_units fees); [|done]. cbn [map_err].
  destruct (validate_coinbase _ _ _ _) as [[]|] eqn:Ecb; [cbn [map_err]|done].
  apply validate_coinbase_inv in Ecb as (_ & _ & (i & w & Hin & Hw & _) & _); [|apply Hu].
  unfold insert_coinbase_outputs. destruct (created_entries _ _ _ _ _ _) as [l|] eqn:Ecr; [|done].
  apply created_entries_Ok in Ecr as [-> _]. intros [= _ <-].
  assert (forall t', t' ∈ txs1 -> Transaction_txid t' <> Transaction_txid cb) as Hfc.
  { intros t' Ht' E. assert (t' = cb) as -> by (apply distinct; [by eapply hi_given|apply HG; by left|done]).
    destruct (hi_coinbase _ _ _ HH1 _ Ht' Hcb) as (k & i' & w' & Hk & Hin' & Hw').
    rewrite Hin in Hin'. injection Hin' as <-. rewrite Hw in Hw'. injection Hw' as Hw' _.
    apply write_varint_inj in Hw'; [lia|done|]. destruct Hu. split; lia. }
  split.
  - intros o Hin'. unfold block_txids in Hin'. rewrite Et in Hin'. apply list_elem_of_fmap in Hin' as (t & E & Ht).
    destruct (s !! o) as [e|] eqn:Es; [|done]. exfalso. destruct (hi_origin _ _ _ HH _ _ Es) as (t' & Ht' & E').
    apply elem_of_cons in Ht as [->|Ht]; [apply (Hfc t'); [set_solver|congruence]|apply (Hf t t'); [done|done|congruence]].
  - exists (cb :: txs1). apply (history_extend txs1 h _ s1); try done; [apply HG; by left|lia| |congruence|].
    + intros o e [?|[? _]]%insert_numbered_lookup; auto.
    + intros _. exists h, i, w. destruct Hu. split_and!; done || lia.
Qed.

End Fresh.

(** ** The transactions of a list of blocks *)

Section Blocks.
Context `{Blake3}.

Definition blocks_messages (bs : list Block) : list (list byte) := bs ≫= fun b => txid_messages (transactions b).

#[global] Instance collision_in_dec xs ys : Decision (collision_in xs ys).
Proof.
  refine (cast_if (decide (Exists (fun x : list byte => Exists (fun y : list byte => x <> y /\ blake3 x = blake3 y) ys) xs))).
  - abstract (apply Exists_exists in e as (x & Hx & (y & Hy & ? & ?)%Exists_exists); by exists x, y).
  - abstract (intros (x & y & Hx & Hy & ? & ?); apply n, Exists_exists; exists x; split; [done|]; apply Exists_exists; eauto).
Defined.

(** Without a collision among their transactions, the identifiers of the
    transactions of the blocks are distinct. *)
Lemma no_collision_distinct bs :
  Forall (fun b => block_within DecodeLimits_default b /\ Z.of_nat (length (Block_encode b)) <= USIZE_MAX) bs ->
  ~ collision_in (blocks_messages bs) (blocks_messages bs) ->
  txids_distinct (fun t => exists b, b ∈ bs /\ t ∈ transactions b).
Proof.
  intros HB HC t1 t2 (b1 & Hb1 & Ht1) (b2 & Hb2 & Ht2) E. rewrite Forall_forall in HB.
  destruct (HB _ Hb1) as [(_ & _ & _ & W1) L1], (HB _ Hb2) as [(_ & _ & _ & W2) _].
  rewrite Forall_forall in W1. rewrite Forall_forall in W2.
  destruct (txids_bind_transactions DecodeLimits_default [t1] [t2]) as [[= ->]|C]; [..|done|].
  - apply Forall_singleton. by apply W1.
  - apply Forall_singleton. by apply W2.
  - apply list_elem_of_split in Ht1 as (l1 & l2 & El). unfold Block_encode, encode_all in L1 |- *. rewrite El, flat_map_app in L1.
    cbn [flat_map] in *. rewrite !length_app in L1. rewrite app_nil_r. lia.
  - cbn. by rewrite E.
  - exfalso. apply HC. eapply collision_in_mono; [exact C|..]; intros m ->%list_elem_of_singleton; apply list_elem_of_bind.
    + exists b1. split; [|done]. by apply (list_elem_of_fmap_2 (fun tx => TX_DOMAIN ++ Transaction_encode tx)).
    + exists b2. split; [|done]. by apply (list_elem_of_fmap_2 (fun tx => TX_DOMAIN ++ Transaction_encode tx)).
Qed.

End Blocks.
