(* ===== verification/LedgerRuns.v ===== *)
(** The unspent-output set as a state machine: blocks are connected and
    disconnected in any order a node may take, and the properties that make
    the ledger sound hold in every reachable state. *)
From S2P Require Import Prelude Encoding Transaction Block Difficulty Emission BlockRules Utxo Ledger Fresh.

Section Runs.
Context `{Blake3} {V : Type} `{!SpendVerifier V}.
Variable params : ConsensusParams.
Variable verifier : V.

(** The blocks that are ever given to the node. *)
Variable bs : list Block.

Inductive event : Type :=
| Connect (b : Block)
| Disconnect.

(** One step of a node at height [n] with the undo records of its chain. *)
Inductive step : nat * UtxoState * list BlockUndo -> event -> nat * UtxoState * list BlockUndo -> Prop :=
| step_connect n s us b u s' :
    b ∈ bs -> in_u64 (Z.of_nat (S n)) ->
    connect_block b (Z.of_nat (S n)) params verifier s = (Ok u, s') ->
    step (n, s, us) (Connect b) (S n, s', u :: us)
| step_disconnect n s us u s' :
    disconnect_block u s = (Ok tt, s') ->
    step (S n, s, u :: us) Disconnect (n, s', us).

Inductive reachable : nat * UtxoState * list BlockUndo -> Prop :=
| reach_genesis : reachable (0%nat, ∅, [])
| reach_step c ev c' : reachable c -> step c ev c' -> reachable c'.

(** The states reached by connecting blocks only. *)
Inductive linear : nat -> UtxoState -> list BlockUndo -> Prop :=
| linear_genesis : linear 0 ∅ []
| linear_connect n s us b u s' :
    linear n s us -> b ∈ bs -> in_u64 (Z.of_nat (S n)) ->
    connect_block b (Z.of_nat (S n)) params verifier s = (Ok u, s') ->
    linear (S n) s' (u :: us).

Definition block_tx (t : Transaction) : Prop := exists b, b ∈ bs /\ t ∈ transactions b.

Section Distinct.
Hypothesis distinct : txids_distinct block_tx.

(** Every block of the chain made new outputs. *)
Lemma linear_history n s us :
  linear n s us -> canonical params verifier n s us /\ exists txs, history block_tx txs (Z.of_nat (S n)) s.
Proof.
  induction 1 as [|n s us b u s' _ [IC [txs IH]] Hb Hu HC]; [split; [constructor|exists []; apply history_empty]|].
  destruct (connect_fresh block_tx distinct _ _ _ _ _ _ _ _ IH Hu (fun t Ht => ex_intro _ b (conj Hb Ht)) HC) as [HF [txs' HH]].
  split; [by eapply canon_connect|]. exists txs'. by replace (Z.of_nat (S (S n))) with (Z.of_nat (S n) + 1) by lia.
Qed.

Lemma linear_undo n s us b u s' :
  linear n s us -> b ∈ bs -> in_u64 (Z.of_nat (S n)) -> connect_block b (Z.of_nat (S n)) params verifier s = (Ok u, s') ->
  disconnect_block u s' = (Ok tt, s).
Proof.
  intros HL Hb Hu HC. destruct (linear_history _ _ _ HL) as [_ [txs HH]].
  destruct (connect_fresh block_tx distinct _ _ _ _ _ _ _ _ HH Hu (fun t Ht => ex_intro _ b (conj Hb Ht)) HC) as [HF _].
  by eapply connect_disconnect.
Qed.

(** Whatever detours a node takes, it is where connecting alone would be. *)
Lemma reachable_linear c : reachable c -> linear c.1.1 c.1.2 c.2.
Proof.
  induction 1 as [|c ev c' _ IH Hs]; [constructor|]. destruct Hs as [n s us b u s' Hb Hu HC|n s us u s' HD].
  - by eapply linear_connect.
  - simpl in *. inversion IH as [|? s0 ? b ? ? HL Hb Hu HC]; subst.
    rewrite (linear_undo _ _ _ _ _ _ HL Hb Hu HC) in HD. by injection HD as <-.
Qed.

End Distinct.

(** The sizes the decoder admits. *)
Definition blocks_sized : Prop :=
  Forall (fun b => block_within DecodeLimits_default b /\ Z.of_nat (length (Block_encode b)) <= USIZE_MAX) bs.

(** Two transactions of the blocks have one identifier. *)
Definition identifier_collision : Prop := collision_in (blocks_messages bs) (blocks_messages bs).

(** The supply cap.  In every state a node can reach by connecting and
    disconnecting blocks, the unspent outputs together hold at most what the
    schedule has minted up to that height, never more than the published total
    and never more than the maximum supply. *)
Theorem supply_bounded n s us :
  blocks_sized -> reachable (n, s, us) ->
  (total_value s <= minted n /\ minted n <= SCHEDULED_TOTAL_WITH_FOUNDER_BASE_UNITS /\
   SCHEDULED_TOTAL_WITH_FOUNDER_BASE_UNITS <= MAX_SUPPLY_BASE_UNITS) \/ identifier_collision.
Proof.
  intros HB HR. destruct (decide identifier_collision) as [|HC]; [by right|left].
  pose proof (no_collision_distinct bs HB HC) as HD. destruct (linear_history HD _ _ _ (reachable_linear HD _ HR)) as [HL _].
  split_and!; [by eapply canonical_value|apply minted_bound|by vm_compute].
Qed.

(** C11: reorganisation.  From any state that a node reaches by connecting and
    disconnecting the blocks it is given, however it got there, the undo record
    of the next block that connects takes it back to that state, and the chain
    of recorded undo records leads back to the empty state; unless two
    transactions of the blocks collide under BLAKE3. *)
Theorem reorganisation_restores n s us :
  blocks_sized -> reachable (n, s, us) ->
  (length us = n /\
   (forall b u s', b ∈ bs -> in_u64 (Z.of_nat (S n)) -> connect_block b (Z.of_nat (S n)) params verifier s = (Ok u, s') ->
      disconnect_block u s' = (Ok tt, s)) /\
   foldl (fun c u => match c with
                     | Some s => match disconnect_block u s with (Ok _, s') => Some s' | _ => None end
                     | None => None end) (Some s) us = Some ∅) \/ identifier_collision.
Proof.
  intros HB HR. destruct (decide identifier_collision) as [|HC]; [by right|left].
  pose proof (no_collision_distinct bs HB HC) as HD. apply (reachable_linear HD) in HR. simpl in HR. split_and!.
  - by eapply canonical_undo_length, linear_history.
  - intros. by eapply linear_undo.
  - induction HR as [|n s us b u s' HL IH Hb Hu HCn]; [done|]. cbn [foldl]. by rewrite (linear_undo HD _ _ _ _ _ _ HL Hb Hu HCn).
Qed.

End Runs.

(** ** A chain of two blocks, with every spend accepted *)

#[local] Existing Instance demo_blake3.
#[local] Existing Instance accept_all.

Definition demo_block_two : Block := demo_block 2 [demo_coinbase 2 [demo_output 237500000]].
Definition demo_blocks : list Block := [demo_block_one; demo_block_two].
Definition demo_connect_two : result UtxoError.t BlockUndo * UtxoState :=
  connect_block demo_block_two 2 demo_params tt demo_connect.2.

Lemma demo_blocks_sized : blocks_sized demo_blocks.
Proof. repeat constructor; by vm_compute. Qed.

Lemma demo_reachable : reachable demo_params tt demo_blocks (1%nat, demo_connect.2, [unwrap_undo demo_connect.1]).
Proof.
  eapply reach_step; [apply reach_genesis|]. apply step_connect with (b := demo_block_one).
  - by left.
  - unfold_ints. lia.
  - apply unwrap_pair, demo_connect_ok.
Qed.

Lemma supply_bounded_witness :
  total_value demo_connect.2 = minted 1 /\
  ((total_value demo_connect.2 <= minted 1 /\ minted 1 <= SCHEDULED_TOTAL_WITH_FOUNDER_BASE_UNITS /\
    SCHEDULED_TOTAL_WITH_FOUNDER_BASE_UNITS <= MAX_SUPPLY_BASE_UNITS) \/ identifier_collision demo_blocks).
Proof.
  split; [vm_compute; reflexivity|].
  exact (supply_bounded demo_params tt demo_blocks 1 demo_connect.2 [unwrap_undo demo_connect.1] demo_blocks_sized demo_reachable).
Defined.

(** The two blocks do not collide, so the second one is undone. *)
Lemma reorganisation_restores_witness :
  disconnect_block (unwrap_undo demo_connect_two.1) demo_connect_two.2 = (Ok tt, demo_connect.2).
Proof.
  destruct (reorganisation_restores demo_params tt demo_blocks 1 demo_connect.2 [unwrap_undo demo_connect.1] demo_blocks_sized demo_reachable)
    as [(_ & HC & _)|HC].
  - apply (HC demo_block_two).
    + by right; left.
    + unfold_ints. lia.
    + apply unwrap_pair. vm_compute. reflexivity.
  - exfalso. apply (bool_decide_eq_true (identifier_collision demo_blocks)) in HC. vm_compute in HC. discriminate HC.
Defined.
