(* ===== verification/ChainInv.v ===== *)
(** The invariant of [oregon-chainstate] and what one batch does to it.

    [store_ok] says what a durable store holds: a tree of headers with their
    heights and cumulative work, an active path from the anchor to the tip
    whose blocks are fully validated, a preferred header tip of maximal work,
    and unspent outputs that are the replay of the active blocks, with undo
    records that match.  [chain_ok] adds that the state in memory mirrors the
    store. *)
From S2P Require Import Prelude Encoding Transaction Block Difficulty Emission HeaderRules BlockRules Utxo Ledger Fresh.
From S2P Require Import Records StoreSpec ChainState.

(** ** Batches *)

Section Batches.
Context `{Blake3}.

Lemma apply_batch_app b1 b2 s : apply_batch (b1 ++ b2) s = apply_batch b2 (apply_batch b1 s).
Proof. unfold apply_batch. apply foldl_app. Qed.

Definition set_utxos (m : UtxoState) (s : Store) : Store :=
  let '(MkStore bl ix _ un ac tip htip an ge he cu) := s in MkStore bl ix m un ac tip htip an ge he cu.

(** The outputs after the changes of a delta. *)
Definition delta_apply (delta : gmap OutPoint (option UtxoEntry)) (m : UtxoState) : UtxoState :=
  merge (fun d e => match d with Some v => v | None => e end) delta m.

Lemma delta_apply_lookup delta m o :
  delta_apply delta m !! o = match delta !! o with Some v => v | None => m !! o end.
Proof. unfold delta_apply. rewrite lookup_merge. by destruct (delta !! o), (m !! o). Qed.

Definition delta_op (p : OutPoint * option UtxoEntry) : StorageOp :=
  match p.2 with Some e => PutUtxo p.1 e | None => DeleteUtxo p.1 end.

Lemma apply_utxo_delta_ops delta batch : apply_utxo_delta delta batch = batch ++ map delta_op (delta_entries delta).
Proof.
  unfold apply_utxo_delta. revert batch. induction (delta_entries delta) as [|[o [e|]] l IH]; intros batch; simpl.
  - by rewrite app_nil_r.
  - rewrite IH. unfold put_utxo. by rewrite <- app_assoc.
  - rewrite IH. unfold delete_utxo. by rewrite <- app_assoc.
Qed.

Lemma apply_delta_ops l s :
  NoDup l.*1 ->
  apply_batch (map delta_op l) s = set_utxos (delta_apply (list_to_map l) (st_utxos s)) s.
Proof.
  revert s. induction l as [|[o v] l IH]; intros s HN.
  { destruct s. unfold apply_batch. simpl. f_equal. apply map_eq. intros o. by rewrite delta_apply_lookup, lookup_empty. }
  cbn [fmap list_fmap] in HN. apply NoDup_cons in HN as [Ho HN].
  change (map delta_op ((o, v) :: l)) with ([delta_op (o, v)] ++ map delta_op l). rewrite apply_batch_app, IH by done.
  assert (list_to_map (M := gmap OutPoint (option UtxoEntry)) l !! o = None) as Hl by (by apply not_elem_of_list_to_map_1).
  destruct s as [bl ix ux un ac tip htip an ge he cu]. unfold apply_batch. cbn [foldl list_to_map foldr uncurry].
  destruct v as [e|]; cbn; f_equal; apply map_eq; intros o'; rewrite !delta_apply_lookup;
    (destruct (decide (o' = o)) as [->|Hne];
     [rewrite Hl, ?lookup_insert_eq, ?lookup_delete_eq|rewrite ?lookup_insert_ne, ?lookup_delete_ne by done]); done.
Qed.

Lemma delta_entries_perm delta : delta_entries delta ≡ₚ map_to_list delta.
Proof. unfold delta_entries. apply merge_sort_Permutation. Qed.

Lemma delta_entries_nodup delta : NoDup (delta_entries delta).*1.
Proof. rewrite delta_entries_perm. apply NoDup_fst_map_to_list. Qed.

(** Committing a delta changes the stored outputs as the delta says. *)
Lemma apply_utxo_delta_store delta batch s :
  apply_batch (apply_utxo_delta delta batch) s =
  let s1 := apply_batch batch s in set_utxos (delta_apply delta (st_utxos s1)) s1.
Proof.
  rewrite apply_utxo_delta_ops, apply_batch_app, apply_delta_ops by apply delta_entries_nodup. cbn zeta. f_equal. f_equal.
  rewrite <- (list_to_map_to_list delta) at 2. apply list_to_map_proper; [apply delta_entries_nodup|apply delta_entries_perm].
Qed.

(** ** What deltas record *)

(** [delta] takes the outputs [base] to [now]. *)
Definition delta_from (base now : UtxoState) (delta : gmap OutPoint (option UtxoEntry)) : Prop :=
  delta_apply delta base = now.

Lemma delta_from_empty m : delta_from m m ∅.
Proof. apply map_eq. intros o. by rewrite delta_apply_lookup, lookup_empty. Qed.

Lemma foldl_none_lookup {A} (f : A -> OutPoint) (l : list A) (d : gmap OutPoint (option UtxoEntry)) o :
  foldl (fun (d : gmap OutPoint (option UtxoEntry)) a => <[f a := None]> d) d l !! o =
  if decide (o ∈ map f l) then Some None else d !! o.
Proof.
  revert d. induction l as [|a l IH]; intros d; cbn [foldl map]; [by rewrite decide_False by set_solver|].
  rewrite IH. destruct (decide (o ∈ map f l)); [by rewrite decide_True by set_solver|].
  destruct (decide (o = f a)) as [->|Hne]; [by rewrite lookup_insert_eq, decide_True by set_solver|].
  by rewrite lookup_insert_ne, decide_False by set_solver.
Qed.

Lemma foldl_some_lookup (l : list (OutPoint * UtxoEntry)) (d : gmap OutPoint (option UtxoEntry)) o :
  NoDup l.*1 ->
  foldl (fun (d : gmap OutPoint (option UtxoEntry)) p => <[p.1 := Some p.2]> d) d l !! o =
  match list_to_map (M := UtxoState) l !! o with Some e => Some (Some e) | None => d !! o end.
Proof.
  revert d. induction l as [|[a e] l IH]; intros d HN; [done|]. cbn [fmap list_fmap] in HN.
  apply NoDup_cons in HN as [Ha HN]. cbn [foldl fst snd list_to_map foldr uncurry]. rewrite IH by done.
  assert (list_to_map (M := UtxoState) l !! a = None) as Hl by (by apply not_elem_of_list_to_map_1).
  destruct (decide (o = a)) as [->|Hne]; [by rewrite Hl, !lookup_insert_eq|]. by rewrite !lookup_insert_ne.
Qed.

Lemma insert_created_Ok staged l d d' :
  insert_created staged l d = Ok d' ->
  (forall o, o ∈ l -> is_Some (staged !! o)) /\ forall o, d' !! o = if decide (o ∈ l) then Some (staged !! o) else d !! o.
Proof.
  unfold insert_created. revert d. induction l as [|a l IH]; intros d; cbn [try_fold].
  { intros [= <-]. split; [set_solver|]. intros o. by rewrite decide_False by set_solver. }
  destruct (staged !! a) as [e|] eqn:Ea; [|done]. cbn [ok_or]. intros [H1 H2]%IH. split.
  { intros o [->|Ho]%elem_of_cons; [eauto|by apply H1]. }
  intros o. rewrite H2. destruct (decide (o ∈ l)); [by rewrite decide_True by (by right)|].
  destruct (decide (o = a)) as [->|Hne]; [by rewrite lookup_insert_eq, decide_True, Ea by (by left)|].
  rewrite lookup_insert_ne, decide_False; [done|by intros [|]%elem_of_cons|done].
Qed.

Lemma undo_elem_fst (l : list (OutPoint * UtxoEntry)) o : o ∈ map fst l <-> exists e, (o, e) ∈ l.
Proof.
  change (map fst l) with l.*1. rewrite list_elem_of_fmap. split.
  - intros ([o' e] & -> & Hin). eauto.
  - intros [e Hin]. by exists (o, e).
Qed.

(** Connecting: the undo record of a block that overwrites nothing records
    every change of the outputs. *)
Lemma record_connect_from base s s' delta delta' :
  agree s s' -> delta_from base s delta ->
  record_connect_delta delta s' (MkBlockUndo (spent_entries s s') (created_outpoints s s')) = Ok delta' ->
  delta_from base s' delta'.
Proof.
  intros HA HD HR. apply insert_created_Ok in HR as [_ HR]. cbn [spent created] in HR. apply map_eq. intros o.
  rewrite delta_apply_lookup, HR. destruct (decide (o ∈ created_outpoints s s')) as [Hc|Hc]; [done|].
  rewrite (foldl_none_lookup fst). destruct (decide (o ∈ map fst (spent_entries s s'))) as [Hs|Hs].
  { apply undo_elem_fst in Hs as [e [_ He]%spent_entries_elem]. done. }
  assert (s !! o = s' !! o) as <-.
  { rewrite created_outpoints_elem in Hc. rewrite undo_elem_fst in Hs.
    destruct (s !! o) as [e|] eqn:E1, (s' !! o) as [e'|] eqn:E2; [by rewrite (HA _ _ _ E1 E2)| | |done].
    - exfalso. apply Hs. exists e. by apply spent_entries_elem.
    - exfalso. apply Hc. eauto. }
  rewrite <- HD. by rewrite delta_apply_lookup.
Qed.

Lemma disconnect_block_Ok u s s' :
  disconnect_block u s = (Ok tt, s') ->
  NoDup (spent u).*1 /\ s' = insert_all (spent u) (remove_all (created u) s).
Proof.
  unfold disconnect_block. destruct (check_created s (created u) ∅) as [sc|]; [|done].
  destruct (check_spent s sc (spent u) ∅) as [[]|] eqn:Es; [|done].
  destruct (remove_checked (created u) s) as [m|] eqn:Er; [|done].
  destruct (insert_checked (spent u) m) as [m'|] eqn:Ei; [|done]. intros [= <-]. split.
  - clear -Es. enough (NoDup (spent u).*1 /\ forall o, o ∈ (spent u).*1 -> o ∉ (∅ : gset OutPoint)) as [? _] by done.
    revert Es. generalize (∅ : gset OutPoint). induction (spent u) as [|[o e] l IH]; intros seen; cbn [check_spent].
    { intros _. split; [constructor|set_solver]. }
    case_bool_decide as Hs; [done|]. case_bool_decide; [done|]. cbn [orb]. destruct (negb _); [done|].
    intros [HN HS]%IH. cbn [fmap list_fmap]. split; [constructor; [|done]|]; set_solver.
  - clear Es. unfold remove_checked, insert_checked, insert_all, remove_all in *.
    assert (m = foldl (fun m o => delete o m) s (created u)) as ->.
    { revert s Er. induction (created u) as [|o l IH]; intros s; cbn [try_fold foldl]; [by intros [= <-]|].
      destruct (s !! o); [|done]. apply IH. }
    revert Ei. generalize (foldl (fun m o => delete o m) s (created u)).
    induction (spent u) as [|[o e] l IH]; intros m0; cbn [try_fold foldl]; [by intros [= <-]|].
    destruct (m0 !! o); [done|]. apply IH.
Qed.

(** Disconnecting records the change it makes. *)
Lemma record_disconnect_from base s s' u delta :
  delta_from base s delta -> disconnect_block u s = (Ok tt, s') ->
  delta_from base s' (record_disconnect_delta delta u).
Proof.
  intros HD HC. apply disconnect_block_Ok in HC as [HN ->]. apply map_eq. intros o.
  rewrite delta_apply_lookup. unfold record_disconnect_delta. rewrite foldl_some_lookup by done.
  rewrite insert_all_union by done. rewrite (foldl_none_lookup (fun o => o)), map_id.
  destruct (list_to_map (spent u) !! o) as [e|] eqn:El; [by rewrite (lookup_union_Some_l _ _ _ _ El)|].
  rewrite lookup_union_r by done. rewrite remove_all_lookup. destruct (decide (o ∈ created u)) as [Hc|Hc].
  - by rewrite bool_decide_true.
  - rewrite bool_decide_false by done. rewrite <- HD. by rewrite delta_apply_lookup.
Qed.

End Batches.

(** ** The invariant *)

(** The blocks that were given to the node. *)
Class KnownBlocks : Type := known : Block -> Prop.

Section Invariant.
Context `{Blake3} {V : Type} `{!SpendVerifier V} {KB : KnownBlocks}.
Variable config : ChainConfig.
Variable verifier : V.

Definition anchor_id : Hash256 := block_id (anchor_header config).

(** [r] is a child of [p]: one higher, with the work of its target added. *)
Definition follows (p r : BlockIndexRecord) : Prop :=
  idx_height r = idx_height p + 1 /\
  exists t, Target_from_le_bytes (difficulty_commitment (idx_header r)) = Ok t /\
            idx_work r = ChainWork_add_assign (idx_work p) (block_work t).

(** Every indexed header is the anchor or follows its indexed parent. *)
Definition tree_ok (s : Store) : Prop :=
  forall id r, st_index s !! id = Some r ->
    (idx_height r = 0 /\ id = anchor_id /\ idx_work r = ChainWork_zero) \/
    (exists p, st_index s !! idx_parent r = Some p /\ follows p r).

(** The active path from the anchor to the tip. *)
Record active_ok (s : Store) (tip : Tip) : Prop := MkActiveOk {
  ac_height : 0 <= ct_height tip;
  ac_outside h : ~ (0 <= h <= ct_height tip) -> st_active s !! h = None;
  ac_at h : 0 <= h <= ct_height tip ->
    exists id r, st_active s !! h = Some id /\ st_index s !! id = Some r /\
      idx_height r = h /\ idx_validation r = FullyValidated /\
      (0 < h -> st_active s !! (h - 1) = Some (idx_parent r));
  ac_anchor : st_active s !! 0 = Some anchor_id;
  ac_tip : exists r, st_active s !! ct_height tip = Some (tip_id tip) /\
    st_index s !! tip_id tip = Some r /\ idx_work r = tip_work tip;
}.

(** The preferred header tip is indexed, and no header that is not known to be
    invalid has more work. *)
Definition headers_ok (s : Store) (ht : HeaderTip) : Prop :=
  (exists r, st_index s !! htip_id ht = Some r /\ idx_height r = htip_height ht /\ idx_work r = htip_work ht) /\
  (forall id r, st_index s !! id = Some r -> idx_validation r <> Invalid -> work_value (idx_work r) <= work_value (htip_work ht)).

(** The outputs reached by connecting the blocks of a chain, the newest first,
    with the undo record of each. *)
Inductive replay : list (Block * BlockUndo) -> UtxoState -> Prop :=
| replay_genesis : replay [] ∅
| replay_connect c s b u s' :
    replay c s -> known b -> fresh_block b s ->
    connect_block b (Z.of_nat (S (length c))) (params config) verifier s = (Ok u, s') ->
    replay ((b, u) :: c) s'.

(** A chain of blocks is the active chain, and the undo records that are kept
    for it are the ones its connection produced. *)
Definition is_active_chain (s : Store) (tip : Tip) (c : list (Block * BlockUndo)) : Prop :=
  Z.of_nat (length c) = ct_height tip /\
  forall i b u, c !! i = Some (b, u) ->
    st_active s !! (ct_height tip - Z.of_nat i) = Some (block_id (header b)) /\
    forall u', st_undo s !! block_id (header b) = Some u' -> u' = u.

(** The tree, the active path and the outputs of a store. *)
Record path_ok (s : Store) (tip : Tip) : Prop := MkPathOk {
  pk_tree : tree_ok s;
  pk_active : active_ok s tip;
  pk_ledger : exists c, replay c (st_utxos s) /\ is_active_chain s tip c;
  pk_tip : st_tip s = Some (tip_id tip, ct_height tip);
}.

Record store_ok (s : Store) (tip : Tip) (ht : HeaderTip) : Prop := MkStoreOk {
  ok_path : path_ok s tip;
  ok_headers : headers_ok s ht;
  ok_header_tip : st_header_tip s = Some (htip_id ht, htip_height ht);
  ok_blocks id b : st_blocks s !! id = Some b -> known b;
}.

(** A block that connects to a replayed chain but repeats the identifier of a
    transaction whose outputs are still unspent. *)
Definition txid_reused : Prop :=
  exists c s b u s', replay c s /\ known b /\ in_u64 (Z.of_nat (S (length c))) /\
    connect_block b (Z.of_nat (S (length c))) (params config) verifier s = (Ok u, s') /\ ~ fresh_block b s.

#[global] Instance fresh_block_dec b s : Decision (fresh_block b s).
Proof.
  refine (cast_if (decide (map_Forall (fun o _ => txid o ∉ block_txids b) s))).
  - abstract (intros o Ho; destruct (s !! o) eqn:E; [|done]; exfalso; by eapply m).
  - abstract (intros HF; apply n; intros o e Hs Ho; specialize (HF o Ho); congruence).
Defined.

Lemma replay_extend c s b u s' :
  replay c s -> known b -> in_u64 (Z.of_nat (S (length c))) ->
  connect_block b (Z.of_nat (S (length c))) (params config) verifier s = (Ok u, s') ->
  (replay ((b, u) :: c) s' /\ agree s s' /\ u = MkBlockUndo (spent_entries s s') (created_outpoints s s')) \/ txid_reused.
Proof.
  intros HR Hk Hu HC. destruct (decide (fresh_block b s)) as [HF|HF].
  - left. split_and!; [by econstructor|by eapply connect_agree|].
    apply connect_block_spec in HC as (_ & -> & _); [done|lia].
  - right. by exists c, s, b, u, s'.
Qed.

Lemma replay_history given c s :
  txids_distinct given -> (forall b t, known b -> t ∈ transactions b -> given t) -> in_u64 (Z.of_nat (length c)) -> replay c s ->
  exists txs, history given txs (Z.of_nat (S (length c))) s.
Proof.
  intros HD HK Hu HR. induction HR as [|c s b u s' HR IH Hb HF HC]; [exists []; apply history_empty|].
  destruct IH as [txs HH]; [cbn [length] in Hu; unfold_ints; lia|].
  destruct (connect_fresh given HD _ _ _ _ _ _ _ _ HH Hu (fun t => HK b t Hb) HC) as (_ & txs' & HH'). exists txs'.
  replace (Z.of_nat (S (length ((b, u) :: c)))) with (Z.of_nat (S (length c)) + 1) by (cbn [length]; lia). exact HH'.
Qed.

(** No identifier is reused if those of the known transactions are distinct. *)
Lemma not_reused given :
  txids_distinct given -> (forall b t, known b -> t ∈ transactions b -> given t) -> ~ txid_reused.
Proof.
  intros HD HK (c & s & b & u & s' & HR & Hb & Hu & HC & HF). apply HF.
  destruct (replay_history given c s HD HK) as [txs HH]; [unfold_ints; lia|exact HR|].
  by destruct (connect_fresh given HD _ _ _ _ _ _ _ _ HH Hu (fun t => HK b t Hb) HC) as [? _].
Qed.

Lemma replay_canonical c s : replay c s -> canonical (params config) verifier (length c) s (map snd c).
Proof. induction 1; [constructor|]. by econstructor. Qed.

(** Disconnecting the newest blocks of a replayed chain by their undo records. *)
Lemma replay_disconnect c s b u : replay ((b, u) :: c) s -> exists s0, replay c s0 /\ disconnect_block u s = (Ok tt, s0).
Proof. inversion 1; subst. eexists. split; [done|]. by eapply connect_disconnect. Qed.

Lemma works_pos a t : work_value a < work_value (ChainWork_add_assign a (block_work t)).
Proof. pose proof (block_work_pos t). unfold ChainWork_add_assign. cbn [work_value]. lia. Qed.

Lemma follows_work p r : follows p r -> work_value (idx_work p) < work_value (idx_work r).
Proof. intros (_ & t & _ & ->). apply works_pos. Qed.

(** ** Updates of the index *)

(** Two records of the same node of the tree. *)
Definition same_node (r r' : BlockIndexRecord) : Prop :=
  idx_header r' = idx_header r /\ idx_parent r' = idx_parent r /\ idx_height r' = idx_height r /\
  idx_work r' = idx_work r.

Lemma follows_same p p' r r' : same_node p p' -> same_node r r' -> follows p r -> follows p' r'.
Proof.
  intros (_ & _ & Hp & Wp) (Hh & _ & Hr & Wr) (E & t & Et & Ew). split; [lia|]. exists t.
  rewrite Hh, Wr, Wp. done.
Qed.

Lemma same_node_refl r : same_node r r.
Proof. done. Qed.

(** An update of the index that keeps every node and its place, and adds only
    nodes that follow their parents. *)
Definition index_grows (ix ix' : gmap Hash256 BlockIndexRecord) : Prop :=
  (forall id r, ix !! id = Some r -> exists r', ix' !! id = Some r' /\ same_node r r') /\
  (forall id r', ix' !! id = Some r' ->
     (exists r, ix !! id = Some r /\ same_node r r') \/ (exists p, ix' !! idx_parent r' = Some p /\ follows p r')).

Lemma tree_ok_grows s s' : tree_ok s -> index_grows (st_index s) (st_index s') -> tree_ok s'.
Proof.
  intros HT [G1 G2] id r' Hr. destruct (G2 _ _ Hr) as [(r & Hr0 & HS)|?]; [|by right].
  destruct (HT _ _ Hr0) as [(E1 & E2 & E3)|(p & Hp & HF)].
  - left. destruct HS as (_ & _ & -> & ->). done.
  - right. destruct (G1 _ _ Hp) as (p' & Hp' & HSp). pose proof HS as (_ & Epar & _). rewrite Epar.
    exists p'. split; [done|]. by eapply follows_same.
Qed.

Lemma index_grows_insert ix r :
  (ix !! block_id (idx_header r) = None \/ exists r0, ix !! block_id (idx_header r) = Some r0 /\ same_node r0 r) ->
  (exists p, ix !! idx_parent r = Some p /\ follows p r) \/ (exists r0, ix !! block_id (idx_header r) = Some r0) ->
  index_grows ix (<[block_id (idx_header r) := r]> ix).
Proof.
  intros Hnew HP. split.
  - intros id r0 Hr0. destruct (decide (id = block_id (idx_header r))) as [->|Hne].
    + exists r. rewrite lookup_insert_eq. split; [done|]. destruct Hnew as [?|(r1 & ? & ?)]; congruence.
    + exists r0. by rewrite lookup_insert_ne.
  - intros id r' Hr'. destruct (decide (id = block_id (idx_header r))) as [->|Hne].
    + rewrite lookup_insert_eq in Hr'. injection Hr' as <-.
      destruct Hnew as [Hn|(r0 & ? & ?)]; [|left; eauto]. destruct HP as [(p & Hp & HF)|[r0 ?]]; [|congruence].
      right. exists p. split; [|done]. rewrite lookup_insert_ne; [done|]. intros E. rewrite E in Hn. congruence.
    + rewrite lookup_insert_ne in Hr' by done. left. eauto using same_node_refl.
Qed.

Lemma index_grows_refl ix : index_grows ix ix.
Proof. split; eauto using same_node_refl. Qed.

Lemma index_grows_trans a b c : index_grows a b -> index_grows b c -> index_grows a c.
Proof.
  intros [A1 A2] [B1 B2]. split.
  - intros id r (r1 & H1 & S1)%A1. apply B1 in H1 as (r2 & H2 & S2). exists r2. split; [done|].
    destruct S1 as (? & ? & ? & ?), S2 as (? & ? & ? & ?). repeat split; congruence.
  - intros id r2 Hr2. destruct (B2 _ _ Hr2) as [(r1 & H1 & S1)|?]; [|by right].
    destruct (A2 _ _ H1) as [(r & H0 & S0)|(p & Hp & HF)].
    + left. exists r. split; [done|]. destruct S1 as (? & ? & ? & ?), S0 as (? & ? & ? & ?). repeat split; congruence.
    + right. destruct (B1 _ _ Hp) as (p' & Hp' & HSp). pose proof S1 as (_ & Epar & _). rewrite Epar.
      exists p'. split; [done|]. by eapply follows_same.
Qed.

(** ** Updates that keep the active chain *)

Lemma path_ok_update s s' tip :
  path_ok s tip -> index_grows (st_index s) (st_index s') ->
  (forall h id r', st_active s !! h = Some id -> st_index s' !! id = Some r' -> idx_validation r' = FullyValidated) ->
  st_active s' = st_active s -> st_utxos s' = st_utxos s -> st_tip s' = st_tip s ->
  (forall id u, st_undo s' !! id = Some u -> st_undo s !! id = Some u) -> path_ok s' tip.
Proof.
  intros [HT [A1 A2 A3 A4 (rt & A5 & A6 & A7)] (c & HR & HL & HC) Ht] HG HV Ea Eu Et Hun.
  pose proof HG as [G1 _]. split.
  - by eapply tree_ok_grows.
  - split; [done|by rewrite Ea| |by rewrite Ea|].
    + intros h (id & r & Hh & Hi & Er & _ & Hp)%A3. destruct (G1 _ _ Hi) as (r' & Hi' & HS).
      exists id, r'. rewrite !Ea. pose proof HS as (_ & Epar & Eh & _).
      split_and!; [done|done|lia|by eapply HV|by rewrite Epar].
    + destruct (G1 _ _ A6) as (r' & Hi' & (_ & _ & _ & Ew)). exists r'. rewrite Ea. split_and!; [done|done|congruence].
  - exists c. rewrite Eu. split; [done|]. split; [done|]. intros i b u Hi. apply HC in Hi as [H1 H2].
    rewrite Ea. split; [done|]. intros u' Hu'. by apply H2, Hun.
  - by rewrite Et.
Qed.

(** ** Moving the tip *)

Lemma active_in_range s tip h id : active_ok s tip -> st_active s !! h = Some id -> 0 <= h <= ct_height tip.
Proof.
  intros HA Hh. destruct (decide (0 <= h <= ct_height tip)); [done|]. rewrite (ac_outside _ _ HA) in Hh by done. done.
Qed.

Lemma active_record s tip h id :
  active_ok s tip -> st_active s !! h = Some id ->
  exists r, st_index s !! id = Some r /\ idx_height r = h /\ idx_validation r = FullyValidated /\
    (0 < h -> st_active s !! (h - 1) = Some (idx_parent r)).
Proof.
  intros HA Hh. pose proof (active_in_range _ _ _ _ HA Hh) as HR.
  destruct (ac_at _ _ HA h HR) as (id' & r & E & Hr). rewrite Hh in E. injection E as <-. eauto.
Qed.

(** The store with the active chain cut at height [f]. *)
Definition rewound (f : Z) (id : Hash256) (utxos : UtxoState) (s : Store) : Store :=
  MkStore (st_blocks s) (st_index s) utxos (st_undo s) (filter (fun p => p.1 <= f) (st_active s)) (Some (id, f))
    (st_header_tip s) (st_anchor s) (st_genesis s) (st_health s) (st_cursor s).

Lemma lookup_cut (ac : gmap Z Hash256) f h :
  filter (fun p : Z * Hash256 => p.1 <= f) ac !! h = if decide (h <= f) then ac !! h else None.
Proof.
  destruct (decide (h <= f)) as [Hh|Hh].
  - destruct (ac !! h) as [id|] eqn:E; [by apply map_lookup_filter_Some|]. apply map_lookup_filter_None. by left.
  - apply map_lookup_filter_None. right. intros x _ ?. simpl in *. lia.
Qed.

Lemma path_ok_rewind s tip f id r c1 c2 utxos :
  path_ok s tip -> 0 <= f <= ct_height tip -> st_active s !! f = Some id -> st_index s !! id = Some r ->
  is_active_chain s tip (c1 ++ c2) -> Z.of_nat (length c2) = f -> replay c2 utxos ->
  path_ok (rewound f id utxos s) (MkTip id f (idx_work r)).
Proof.
  intros [HT HA _ _] Hf Hid Hr [HL HC] H2 HR. split.
  - exact HT.
  - split; cbn [ct_height tip_id tip_work rewound st_active st_index].
    + lia.
    + intros h Hh. rewrite lookup_cut. case_decide; [|done]. apply (ac_outside _ _ HA). lia.
    + intros h Hh. rewrite !lookup_cut, !decide_True by lia. apply (ac_at _ _ HA). lia.
    + rewrite lookup_cut, decide_True by lia. apply (ac_anchor _ _ HA).
    + exists r. rewrite lookup_cut, decide_True by lia. done.
  - exists c2. split; [done|]. split; [done|]. cbn [ct_height rewound st_active st_undo]. intros i b u Hi.
    pose proof (lookup_lt_Some _ _ _ Hi). rewrite lookup_cut, decide_True by lia.
    rewrite length_app in HL. specialize (HC (length c1 + i)%nat b u). rewrite lookup_app_r in HC by lia.
    replace (length c1 + i - length c1)%nat with i in HC by lia.
    replace (ct_height tip - Z.of_nat (length c1 + i)) with (f - Z.of_nat i) in HC by lia. by apply HC.
  - done.
Qed.

(** The store with one more block on top. *)
Definition advanced (b : Block) (i : BlockIndexRecord) (u : BlockUndo) (utxos : UtxoState) (s : Store) : Store :=
  let id := block_id (header b) in
  MkStore (<[id := b]> (st_blocks s)) (<[id := mark_active i]> (st_index s)) utxos (<[id := u]> (st_undo s))
    (<[idx_height i := id]> (st_active s)) (Some (id, idx_height i))
    (st_header_tip s) (st_anchor s) (st_genesis s) (st_health s) (st_cursor s).

(** The record [i] of a block can be put on the tip. *)
Definition extends_tip (s : Store) (tip : Tip) (b : Block) (i : BlockIndexRecord) : Prop :=
  idx_header i = header b /\ idx_parent i = tip_id tip /\
  (exists p, st_index s !! tip_id tip = Some p /\ follows p i) /\
  (st_index s !! block_id (header b) = None \/ exists r0, st_index s !! block_id (header b) = Some r0 /\ same_node r0 i).

Lemma extends_height s tip b i : active_ok s tip -> extends_tip s tip b i -> idx_height i = ct_height tip + 1.
Proof.
  intros HA (_ & _ & (p & Hp & [-> _]) & _). destruct (ac_tip _ _ HA) as (r & Ht & _).
  destruct (active_record _ _ _ _ HA Ht) as (r' & Hr' & <- & _). congruence.
Qed.

(** A block above the tip is not on the active chain. *)
Lemma extends_not_active s tip b i h :
  active_ok s tip -> extends_tip s tip b i -> st_active s !! h <> Some (block_id (header b)).
Proof.
  intros HA HE Hh. pose proof (extends_height _ _ _ _ HA HE) as Eh.
  pose proof (active_in_range _ _ _ _ HA Hh). destruct (active_record _ _ _ _ HA Hh) as (r & Hr & Hrh & _).
  destruct HE as (_ & _ & _ & [Hn|(r0 & Hr0 & (_ & _ & E & _))]); [congruence|].
  rewrite Hr in Hr0. injection Hr0 as <-. lia.
Qed.

Lemma path_ok_advance s tip b i u utxos c :
  path_ok s tip -> extends_tip s tip b i -> replay c (st_utxos s) -> is_active_chain s tip c ->
  replay ((b, u) :: c) utxos ->
  path_ok (advanced b i u utxos s) (MkTip (block_id (header b)) (idx_height i) (idx_work i)).
Proof.
  intros [HT HA _ _] HE HR [HL HC] HR'. pose proof (extends_height _ _ _ _ HA HE) as Eh.
  pose proof (fun h => extends_not_active _ _ _ _ h HA HE) as HN. pose proof (ac_height _ _ HA) as H0.
  pose proof HE as (Ehd & Epar & (p & Hp & HF) & Hnew).
  assert (index_grows (st_index s) (<[block_id (header b) := mark_active i]> (st_index s))) as HG.
  { rewrite <- Ehd. apply (index_grows_insert _ (mark_active i)); cbn [mark_active idx_header idx_parent]; rewrite Ehd.
    - destruct Hnew as [?|(r0 & ? & ?)]; [by left|]. right. by exists r0.
    - left. rewrite Epar. exists p. split; [done|]. exact HF. }
  split.
  - eapply tree_ok_grows; [exact HT|exact HG].
  - split; cbn [ct_height tip_id tip_work advanced st_active st_index].
    + lia.
    + intros h Hh. rewrite lookup_insert_ne by lia. apply (ac_outside _ _ HA). lia.
    + intros h Hh. destruct (decide (h = idx_height i)) as [->|Hne].
      * exists (block_id (header b)), (mark_active i). rewrite !lookup_insert_eq. split_and!; [done..|]. intros _.
        rewrite lookup_insert_ne by lia. cbn [mark_active idx_parent]. rewrite Epar.
        replace (idx_height i - 1) with (ct_height tip) by lia. destruct (ac_tip _ _ HA) as (r & -> & _). done.
      * destruct (ac_at _ _ HA h) as (id & r & H1 & H2 & H3 & H4 & H5); [lia|]. exists id, r.
        rewrite !lookup_insert_ne by lia. rewrite lookup_insert_ne; [|intros <-; by eapply HN]. split_and!; try done. intros ?. rewrite lookup_insert_ne by lia. by apply H5.
    + rewrite lookup_insert_ne by lia. apply (ac_anchor _ _ HA).
    + exists (mark_active i). by rewrite !lookup_insert_eq.
  - exists ((b, u) :: c). split; [exact HR'|]. split; [simpl; lia|].
    cbn [ct_height advanced st_active st_undo]. intros [|k] b' u' Hk.
    + injection Hk as <- <-. rewrite Z.sub_0_r, !lookup_insert_eq. split; [done|]. congruence.
    + simpl in Hk. pose proof (lookup_lt_Some _ _ _ Hk). apply HC in Hk as [K1 K2].
      replace (idx_height i - Z.of_nat (S k)) with (ct_height tip - Z.of_nat k) by lia.
      rewrite lookup_insert_ne by lia. split; [done|]. intros u0. rewrite lookup_insert_ne; [apply K2|].
      intros E. rewrite <- E in K1. by eapply HN.
  - done.
Qed.

End Invariant.
