(* ===== verification/ChainProofs.v ===== *)
(** The operations of the chain state keep the invariant of ChainInv.v, over
    any database that satisfies [BlockStoreLaws]: extending, storing aside,
    reorganising and importing a header, on success and on every error. *)
From S2P Require Import Prelude Encoding Transaction Block Difficulty Emission HeaderRules BlockRules Utxo Ledger Fresh.
From S2P Require Import Records StoreSpec ChainState ChainInv.

(** ** Types of the outputs *)

Definition utxos_typed (s : UtxoState) : Prop := map_Forall (fun o e => outpoint_typed o /\ entry_typed e) s.

Lemma numbered_typed id h cb i outs :
  in_u64 h -> Forall (output_within DecodeLimits_default) outs -> Z.of_nat (i + length outs) <= 70000 ->
  Forall (fun p => outpoint_typed p.1 /\ entry_typed p.2) (numbered id h cb i outs).
Proof.
  intros Hh HF. revert i. induction HF as [|o outs [Ho _] HF IH]; intros i HL; cbn [numbered]; [constructor|].
  cbn [length] in HL. constructor; [|apply IH; lia]. unfold outpoint_typed, entry_typed. cbn. unfold_ints. split; [lia|done].
Qed.

Lemma insert_all_typed l s :
  Forall (fun p => outpoint_typed p.1 /\ entry_typed p.2) l -> utxos_typed s -> utxos_typed (insert_all l s).
Proof.
  unfold insert_all. intros HF. revert s. induction HF as [|[o e] l Hp HF IH]; intros s Hs; [done|].
  cbn [foldl]. apply IH. by apply map_Forall_insert_2.
Qed.

Lemma remove_all_typed l s : utxos_typed s -> utxos_typed (remove_all l s).
Proof.
  intros Hs o e Ho. rewrite remove_all_lookup in Ho. case_bool_decide; [done|]. by apply Hs.
Qed.

Section Typed.
Context `{Blake3} {V : Type} `{!SpendVerifier V}.

Lemma transaction_typed tx h cb :
  in_u64 h -> transaction_within DecodeLimits_default tx ->
  Forall (fun p => outpoint_typed p.1 /\ entry_typed p.2) (numbered (Transaction_txid tx) h cb 0 (outputs tx)).
Proof.
  intros Hh (_ & _ & _ & [HL _] & HF & _). apply numbered_typed; [done|done|]. cbn in HL. lia.
Qed.

Lemma apply_transactions_typed positions h v i txs fees s fees' s' :
  in_u64 h -> Forall (transaction_within DecodeLimits_default) txs -> utxos_typed s ->
  apply_transactions positions h v i txs fees s = Ok (fees', s') -> utxos_typed s'.
Proof.
  intros Hh HF. revert i fees s. induction HF as [|tx txs Htx HF IH]; intros i fees s Hs.
  { by intros [= _ <-]. }
  cbn [apply_transactions]. destruct (existsb _ _); [done|].
  destruct (apply_normal_transaction tx h v s) as [[fee|] s1] eqn:Ea; [|done].
  apply apply_normal_spec in Ea as (_ & _ & _ & -> & _). destruct (checked_add _ _ _); [|done]. cbn [ok_or].
  apply IH, insert_all_typed; [by apply transaction_typed|]. by apply remove_all_typed.
Qed.

Lemma connect_typed b h p v s u s' :
  in_u64 h -> block_within DecodeLimits_default b -> utxos_typed s ->
  connect_block b h p v s = (Ok u, s') -> utxos_typed s'.
Proof.
  intros Hh (_ & _ & _ & HF) Hs. unfold connect_block. destruct (validate_non_genesis_block_skeleton b h); [|done].
  cbn [map_err]. destruct (transactions b) as [|cb txs]; [done|]. inversion HF; subst.
  destruct (tx_positions_from 1 txs ∅); [|done].
  destruct (apply_transactions _ _ _ _ _ _ _) as [[fees s1]|] eqn:Ea; [|done].
  apply apply_transactions_typed in Ea; [|done..].
  destruct (Amount_from_base_units _); [|done]. cbn [map_err]. destruct (validate_coinbase _ _ _ _); [|done]. cbn [map_err].
  unfold insert_coinbase_outputs. destruct (created_entries _ _ _ _ _ _) as [l|] eqn:Ecr; [|done].
  apply created_entries_Ok in Ecr as [-> _]. intros [= _ <-].
  apply insert_all_typed; [by apply transaction_typed|done].
Qed.

(** The undo record of a change of typed outputs is typed. *)
Lemma undo_of_typed s s' :
  utxos_typed s -> utxos_typed s' -> undo_typed (MkBlockUndo (spent_entries s s') (created_outpoints s s')).
Proof.
  intros Hs Hs'. split; apply Forall_forall.
  - intros [o e] [He _]%spent_entries_elem. by apply Hs in He.
  - intros o [_ [e He]]%created_outpoints_elem. by apply Hs' in He as [? _].
Qed.

Lemma disconnect_typed u s s' : utxos_typed s -> undo_typed u -> disconnect_block u s = (Ok tt, s') -> utxos_typed s'.
Proof.
  intros Hs [HU _] (_ & ->)%disconnect_block_Ok. apply insert_all_typed; [done|]. by apply remove_all_typed.
Qed.

(** The operations of a delta between typed outputs are typed. *)
Lemma delta_ops_typed delta :
  map_Forall (fun o v => outpoint_typed o /\ forall e, v = Some e -> entry_typed e) delta ->
  Forall op_typed (map delta_op (delta_entries delta)).
Proof.
  intros HD. apply Forall_forall. intros op ([o v] & -> & Hin)%list_elem_of_fmap.
  rewrite delta_entries_perm in Hin. apply elem_of_map_to_list in Hin. apply HD in Hin as [? He].
  unfold delta_op. destruct v; cbn; auto.
Qed.

Definition delta_typed (delta : gmap OutPoint (option UtxoEntry)) : Prop :=
  map_Forall (fun o v => outpoint_typed o /\ forall e, v = Some e -> entry_typed e) delta.

Lemma record_connect_typed delta s s' delta' :
  utxos_typed s -> utxos_typed s' -> delta_typed delta ->
  record_connect_delta delta s' (MkBlockUndo (spent_entries s s') (created_outpoints s s')) = Ok delta' ->
  delta_typed delta'.
Proof.
  intros Hs Hs' HD HR. apply insert_created_Ok in HR as [HC HR]. cbn [spent created] in *. intros o v Ho.
  rewrite HR in Ho. case_decide as Hc.
  - injection Ho as <-. destruct (HC o Hc) as [e He]. rewrite He. apply Hs' in He as [? ?]. split; [done|]. congruence.
  - rewrite (foldl_none_lookup fst) in Ho. case_decide as Hx; [|by apply HD in Ho]. injection Ho as <-.
    apply undo_elem_fst in Hx as [e [He _]%spent_entries_elem]. apply Hs in He as [? _]. done.
Qed.

Lemma record_disconnect_typed delta u s s' :
  delta_typed delta -> undo_typed u -> disconnect_block u s = (Ok tt, s') -> delta_typed (record_disconnect_delta delta u).
Proof.
  intros HD [HS HC] (HN & _)%disconnect_block_Ok o v Ho. unfold record_disconnect_delta in Ho.
  rewrite foldl_some_lookup in Ho by done. rewrite Forall_forall in HS. rewrite Forall_forall in HC.
  destruct (list_to_map (spent u) !! o) as [e|] eqn:El.
  - injection Ho as <-. apply elem_of_list_to_map_2, HS in El as [? ?]. split; [done|]. by intros e0 [= <-].
  - rewrite (foldl_none_lookup (fun o => o)), map_id in Ho. case_decide as Hx; [|by apply HD in Ho].
    injection Ho as <-. apply HC in Hx. done.
Qed.

End Typed.

(** ** Sequencing *)

Lemma bind_read {S E A B} (f : S -> result E A) (k : A -> eff S E B) s :
  eff_bind (eff_read f) k s = match f s with Ok a => k a s | Err e => (Err e, s) end.
Proof. unfold eff_bind, eff_read. by destruct (f s). Qed.

Lemma bind_lift {S E A B} (r : result E A) (k : A -> eff S E B) s :
  eff_bind (eff_lift r) k s = match r with Ok a => k a s | Err e => (Err e, s) end.
Proof. unfold eff_bind, eff_lift. by destruct r. Qed.

Lemma bind_modify {DB A} (f : ChainState DB -> ChainState DB) (k : unit -> eff (ChainState DB) ChainStateError.t A) st :
  eff_bind (modify f) k st = k tt (f st).
Proof. done. Qed.

Section Ops.
Context `{Blake3} {DB : Type} `{!BlockStore DB} `{!BlockStoreLaws DB} `{!RandomX} {V : Type} `{!SpendVerifier V} {KB : KnownBlocks}.
Variable config : ChainConfig.
Variable verifier : V.

Abbreviation store_ok := (store_ok config verifier).
Abbreviation path_ok := (path_ok config verifier).
Abbreviation replay := (replay config verifier).
Abbreviation txid_reused := (txid_reused config verifier).

(** The database holds a store in which the invariant holds. *)
Definition durable (db : DB) : Prop := exists s tip ht, stores db s /\ store_ok s tip ht.

(** The state in memory mirrors the store. *)
Definition mirrors (st : ChainState DB) (s : Store) : Prop :=
  cs_config st = config /\ stores (cs_db st) s /\ store_ok s (cs_tip st) (cs_header_tip st) /\ st_utxos s = cs_utxos st.
Definition chain_ok (st : ChainState DB) : Prop := exists s, mirrors st s.

Definition same_memory (st st' : ChainState DB) : Prop :=
  cs_config st' = cs_config st /\ cs_tip st' = cs_tip st /\ cs_header_tip st' = cs_header_tip st /\
  cs_utxos st' = cs_utxos st.

(** What an operation guarantees from a good state: whatever its result, the
    database holds a good store; on success the state is good and [Q] holds;
    a storage error leaves the memory as it was; any other error leaves a good
    state with the same memory, and only a reorganisation that is too deep
    changes the health of the session. *)
Definition op_post {A} (Q : A -> ChainState DB -> Prop) (st : ChainState DB)
  (p : result ChainStateError.t A * ChainState DB) : Prop :=
  durable (cs_db p.2) /\
  match p.1 with
  | Ok a => chain_ok p.2 /\ cs_session p.2 = cs_session st /\ Q a p.2
  | Err e =>
      same_memory st p.2 /\
      match e with
      | ChainStateError.Storage _ => cs_session p.2 = cs_session st
      | ChainStateError.ReindexRequired => chain_ok p.2
      | _ => chain_ok p.2 /\ cs_session p.2 = cs_session st
      end
  end.

Lemma chain_ok_durable st : chain_ok st -> durable (cs_db st).
Proof. intros (s & _ & HS & HK & _). by exists s, (cs_tip st), (cs_header_tip st). Qed.

Lemma same_memory_db st db : same_memory st (with_db db st).
Proof. done. Qed.

(** An error before anything is written. *)
Lemma post_err {A} (Q : A -> ChainState DB -> Prop) st e : chain_ok st -> op_post Q st (Err e, st).
Proof.
  intros HC. split; [by apply chain_ok_durable|]. cbn [fst snd]. split; [done|]. by destruct e.
Qed.

Lemma post_storage {A B} (Q : A -> ChainState DB -> Prop) st (r : result StorageError.t B) (k : B -> _) :
  chain_ok st -> (forall b, r = Ok b -> op_post Q st (k b)) ->
  op_post Q st match storage r with Ok b => k b | Err e => (Err e, st) end.
Proof. intros HC HK. destruct r as [b|e]; cbn [storage map_err]; [by apply HK|by apply post_err]. Qed.

(** A batch that keeps the invariant: the commit either fails, leaving one of
    two good stores, or the rest runs with the batch applied. *)
Lemma commit_post {A} (Q : A -> ChainState DB -> Prop) st s batch k tip' ht' :
  mirrors st s -> Forall op_typed batch -> store_ok (apply_batch batch s) tip' ht' ->
  (forall db', stores db' (apply_batch batch s) -> op_post Q st (k tt (with_db db' st))) ->
  op_post Q st (eff_bind (commit_batch batch) k st).
Proof.
  intros (Hc & HS & HK & HU) HT HK' Hk. unfold eff_bind, commit_batch, commit_durable.
  destruct (db_commit batch Sync (cs_db st)) as [[[]|e] db'] eqn:E; cbn [storage map_err].
  - apply Hk. by eapply law_commit.
  - split; cbn [fst snd cs_db with_db]; [|split; [apply same_memory_db|done]].
    destruct (law_commit_err _ _ _ _ _ _ HS HT E); [by eexists _, _, _|by eexists _, _, _].
Qed.

(** ** Extending *)

Definition set_htip (o : option (Hash256 * Z)) (s : Store) : Store :=
  let '(MkStore bl ix ux un ac tip _ an ge he cu) := s in MkStore bl ix ux un ac tip o an ge he cu.

(** A record that can become the record of a block. *)
Record placeable (s : Store) (b : Block) (i : BlockIndexRecord) : Prop := MkPlaceable {
  pl_header : idx_header i = header b;
  pl_parent : idx_parent i = previous_block (header b);
  pl_follows : exists p, st_index s !! idx_parent i = Some p /\ follows p i;
  pl_known : st_index s !! block_id (header b) = None \/
    exists r0, st_index s !! block_id (header b) = Some r0 /\ same_node r0 i /\ idx_validation r0 = HeaderValidated;
  pl_typed : index_typed i;
  pl_block : block_storable b;
  pl_status : idx_validation i = HeaderValidated;
  pl_given : known b;
}.

Lemma placeable_extends s tip b i : placeable s b i -> idx_parent i = tip_id tip -> extends_tip s tip b i.
Proof.
  intros [P1 P2 P3 P4 _ _ _ _] Hp. split_and!; [done|done|by rewrite <- Hp|].
  destruct P4 as [?|(r0 & ? & ? & _)]; [by left|]. right. eauto.
Qed.

(** The header tip after a block of index [i] became active. *)
Definition htip_after (ht : HeaderTip) (i : BlockIndexRecord) (id : Hash256) : HeaderTip :=
  if work_gtb (idx_work i) (htip_work ht) then MkHeaderTip id (idx_height i) (idx_work i) else ht.

Lemma work_gtb_spec a b : work_gtb a b = true <-> work_value b < work_value a.
Proof. unfold work_gtb. apply Z.ltb_lt. Qed.

Lemma htip_after_work ht i id : work_value (htip_work ht) <= work_value (htip_work (htip_after ht i id)) /\
  work_value (idx_work i) <= work_value (htip_work (htip_after ht i id)).
Proof. unfold htip_after. destruct (work_gtb _ _) eqn:E; cbn [htip_work]; unfold work_gtb in E; lia. Qed.

(** The preferred header tip after a record is put that is not known to be
    invalid. *)
Lemma headers_ok_insert s s' ht r :
  headers_ok s ht -> st_index s' = <[block_id (idx_header r) := r]> (st_index s) ->
  (st_index s !! block_id (idx_header r) = None \/
   exists r0, st_index s !! block_id (idx_header r) = Some r0 /\ same_node r0 r) ->
  headers_ok s' (htip_after ht r (block_id (idx_header r))).
Proof.
  intros [(rt & Ht & Hh & Hw) HM] Hix Hknown. destruct (htip_after_work ht r (block_id (idx_header r))) as [W1 W2]. split.
  - unfold htip_after in *. destruct (work_gtb _ _) eqn:E; cbn [htip_id htip_height htip_work].
    + exists r. by rewrite Hix, lookup_insert_eq.
    + rewrite Hix. destruct (decide (block_id (idx_header r) = htip_id ht)) as [E0|Hne].
      * exists r. rewrite E0 in *. rewrite lookup_insert_eq. destruct Hknown as [?|(r0 & Hr0 & (_ & _ & E1 & E2))]; [congruence|].
        rewrite Ht in Hr0. injection Hr0 as <-. split_and!; [done|congruence|congruence].
      * exists rt. by rewrite lookup_insert_ne.
  - intros id r1 Hr1 Hv. rewrite Hix in Hr1. apply lookup_insert_Some in Hr1 as [[_ <-]|[_ Hr1]]; [done|].
    specialize (HM _ _ Hr1 Hv). lia.
Qed.

(** The heavier of two header tips, the first when they are equal. *)
Definition heavier_tip (ht candidate : HeaderTip) : HeaderTip :=
  if decide (work_value (htip_work ht) < work_value (htip_work candidate)) then candidate else ht.

Lemma htip_after_heavier ht i id : htip_after ht i id = heavier_tip ht (MkHeaderTip id (idx_height i) (idx_work i)).
Proof. unfold htip_after, heavier_tip, work_gtb. cbn [htip_work]. case_decide; destruct (Z.ltb_spec (work_value (htip_work ht)) (work_value (idx_work i))); done || lia. Qed.

(** What accepting a new block guarantees of the new state: it becomes the
    tip with more work than the old one, and the preferred header if it has more
    work than that one; or it is stored aside with its body, having no more
    work than the tip, and memory stays as it is. *)
Definition placed (st : ChainState DB) (b : Block) (o : AcceptOutcome) (st' : ChainState DB) : Prop :=
  match o with
  | Extended | Reorganized =>
      tip_id (cs_tip st') = block_id (header b) /\ work_value (tip_work (cs_tip st)) < work_value (tip_work (cs_tip st')) /\
      cs_header_tip st' = heavier_tip (cs_header_tip st)
        (MkHeaderTip (block_id (header b)) (ct_height (cs_tip st')) (tip_work (cs_tip st')))
  | StoredSideChain =>
      same_memory st st' /\ exists s' r, mirrors st' s' /\
        st_index s' !! block_id (header b) = Some r /\ st_blocks s' !! block_id (header b) = Some b /\
        idx_body_retained r = true /\ work_value (idx_work r) <= work_value (tip_work (cs_tip st))
  end.

Definition prefer (pref : bool) (id : Hash256) (h : Z) (batch : StorageBatch) : StorageBatch :=
  if pref then set_preferred_header_tip id h batch else batch.

Definition prefer_store (pref : bool) (id : Hash256) (h : Z) (s : Store) : Store :=
  if pref then set_htip (Some (id, h)) s else s.

Definition extend_batch (b : Block) (i : BlockIndexRecord) (u : BlockUndo) (delta : gmap OutPoint (option UtxoEntry))
  (pref : bool) : StorageBatch :=
  let id := block_id (header b) in
  let height := idx_height i in
  prefer pref id height
    (set_tip id height (set_active_height height id
       (apply_utxo_delta delta (put_undo id u (put_index (mark_active i) (put_block b StorageBatch_new)))))).

Lemma extend_store s b i u delta staged pref :
  delta_from (st_utxos s) staged delta -> idx_header i = header b ->
  apply_batch (extend_batch b i u delta pref) s =
  prefer_store pref (block_id (header b)) (idx_height i) (advanced b i u staged s).
Proof.
  intros HD Hh. unfold extend_batch, prefer, prefer_store.
  assert (apply_batch (set_tip (block_id (header b)) (idx_height i) (set_active_height (idx_height i) (block_id (header b))
    (apply_utxo_delta delta (put_undo (block_id (header b)) u (put_index (mark_active i) (put_block b StorageBatch_new)))))) s
    = advanced b i u staged s) as E.
  { unfold set_tip, set_active_height. rewrite !apply_batch_app, apply_utxo_delta_store. unfold delta_from in HD.
    destruct s as [bl ix ux un ac tip htip an ge he cu]. cbn -[delta_apply]. unfold advanced. cbn -[delta_apply] in *.
    by rewrite Hh, HD. }
  destruct pref; [|exact E]. unfold set_preferred_header_tip. rewrite apply_batch_app, E. done.
Qed.

Lemma extend_batch_typed b i u delta pref :
  block_storable b -> index_typed i -> undo_typed u -> delta_typed delta -> Forall op_typed (extend_batch b i u delta pref).
Proof.
  intros Hb Hi Hu HD. unfold extend_batch, prefer, set_preferred_header_tip, set_tip, set_active_height.
  rewrite apply_utxo_delta_ops. unfold put_undo, put_index, put_block, StorageBatch_new.
  assert (in_u64 (idx_height i)) by apply Hi.
  destruct pref; rewrite !Forall_app, !Forall_singleton; split_and!; try (by apply delta_ops_typed); try exact Hi; done.
Qed.

Lemma path_ok_htip o s tip : path_ok s tip -> path_ok (set_htip o s) tip.
Proof. intros [HT [A1 A2 A3 A4 A5] HL Ht]. destruct s. split; [exact HT|by split|exact HL|exact Ht]. Qed.

Lemma store_ok_prefer s tip ht i id :
  path_ok s tip -> headers_ok s (htip_after ht i id) -> st_header_tip s = Some (htip_id ht, htip_height ht) ->
  (forall id b, st_blocks s !! id = Some b -> known b) ->
  store_ok (prefer_store (work_gtb (idx_work i) (htip_work ht)) id (idx_height i) s) tip (htip_after ht i id).
Proof.
  intros HP HH Hht HB. unfold prefer_store, htip_after in *. destruct (work_gtb _ _); [|by split].
  split; [by apply path_ok_htip|by destruct s|by destruct s|by destruct s].
Qed.

(** Memory after the tip has moved to [i]. *)
Definition moved (st : ChainState DB) (db : DB) (i : BlockIndexRecord) (id : Hash256) (utxos : UtxoState) : ChainState DB :=
  MkChainState db (cs_config st) (MkTip id (idx_height i) (idx_work i)) (htip_after (cs_header_tip st) i id) utxos (cs_session st).

Lemma extend_active_post st s b i :
  mirrors st s -> placeable s b i -> idx_parent i = tip_id (cs_tip st) ->
  op_post (placed st b) st (extend_active b (idx_height i) (idx_work i) verifier st) \/ txid_reused.
Proof.
  intros HM HP Hpar. pose proof HM as (Hc & HS & [HK HH Hht HB] & HU). pose proof HK as [HT HA (c & HR & HC) Ht].
  pose proof (placeable_extends s (cs_tip st) b i HP Hpar) as HE.
  pose proof (extends_height _ _ _ _ _ HA HE) as Eh. destruct HP as [P1 P2 P3 P4 P5 P6 P7 P8].
  assert (utxos_typed (st_utxos s)) as HUt by (intros o e; apply (typed_utxos _ (law_typed _ _ HS))).
  unfold extend_active. rewrite bind_read, Hc, <- HU.
  destruct (connect_block b (idx_height i) (params config) verifier (st_utxos s)) as [[u|e] staged] eqn:EC.
  2: { left. apply post_err. by exists s. }
  assert (idx_height i = Z.of_nat (S (length c))) as El by (destruct HC as [HCl _]; lia).
  destruct (replay_extend config verifier c (st_utxos s) b u staged HR) as [(HR' & HAg & Eu)|?]; [done|rewrite <- El; apply P5|by rewrite <- El| |by right].
  left. rewrite bind_lift. destruct (build_utxo_delta staged u) as [delta|e] eqn:ED; [|apply post_err; by exists s].
  change (record_connect_delta ∅ staged u = Ok delta) in ED.
  assert (in_u64 (idx_height i)) as Hu64 by apply P5.
  pose proof (connect_typed _ _ _ _ _ _ _ Hu64 (proj1 P6) HUt EC) as HSt. rewrite Eu in ED.
  assert (delta_from (st_utxos s) staged delta) as HD by (eapply record_connect_from; [exact HAg|apply delta_from_empty|exact ED]).
  assert (delta_typed delta) as HDt by (eapply record_connect_typed; [exact HUt|exact HSt|apply map_Forall_empty|exact ED]).
  assert (undo_typed u) as HUn by (rewrite Eu; by apply undo_of_typed).
  rewrite bind_read. cbn zeta. set (pref := work_gtb (idx_work i) (htip_work (cs_header_tip st))).
  set (id := block_id (header b)).
  assert (store_ok (apply_batch (extend_batch b i u delta pref) s) (MkTip id (idx_height i) (idx_work i))
            (htip_after (cs_header_tip st) i id)) as HK'.
  { rewrite (extend_store _ _ _ _ _ _ _ HD P1). apply store_ok_prefer; [by eapply path_ok_advance| |done|].
    2: { cbn [advanced st_blocks]. intros k b' [[_ <-]|[_ Hb]]%lookup_insert_Some; [done|by eapply HB]. }
    unfold id. rewrite <- P1. apply (headers_ok_insert s _ _ (mark_active i)); [done|cbn [mark_active idx_header advanced st_index]; by rewrite P1|].
    cbn [mark_active idx_header]. rewrite P1. destruct P4 as [?|(r0 & ? & ? & _)]; [by left|]. right. by exists r0. }
  assert (MkBlockIndexRecord (header b) (previous_block (header b)) (idx_height i) (idx_work i) FullyValidated true
    = mark_active i) as -> by (unfold mark_active; by rewrite P1, P2).
  apply (commit_post _ st s (extend_batch b i u delta pref) _ _ _ HM (extend_batch_typed _ _ _ _ _ P6 P5 HUn HDt) HK').
  intros db' HS'. rewrite bind_modify.
  enough (op_post (placed st b) st (Ok Extended, moved st db' i id staged)) as HX.
  { unfold moved, htip_after in HX. fold pref in HX. destruct pref; exact HX. }
  assert (mirrors (moved st db' i id staged) (apply_batch (extend_batch b i u delta pref) s)) as HM'.
  { split_and!; [done|done|exact HK'|]. rewrite (extend_store _ _ _ _ _ _ _ HD P1). unfold prefer_store. by destruct pref. }
  split; [apply chain_ok_durable; by eexists|]. cbn [fst snd]. split_and!; [by eexists|done|].
  unfold placed. cbn [moved cs_tip cs_header_tip tip_id tip_work].
  split_and!; [done| |apply htip_after_heavier]. destruct (ac_tip _ _ _ HA) as (r & _ & Hr & <-).
  destruct P3 as (p & Hp & HF). rewrite Hpar, Hr in Hp. injection Hp as <-. by apply follows_work.
Qed.

(** ** Putting a record of a node that is not active *)

Lemma path_ok_put s s' tip i :
  path_ok s tip -> (exists p, st_index s !! idx_parent i = Some p /\ follows p i) ->
  (st_index s !! block_id (idx_header i) = None \/
   exists r0, st_index s !! block_id (idx_header i) = Some r0 /\ same_node r0 i /\ idx_validation r0 = HeaderValidated) ->
  st_index s' = <[block_id (idx_header i) := i]> (st_index s) ->
  st_active s' = st_active s -> st_utxos s' = st_utxos s -> st_tip s' = st_tip s -> st_undo s' = st_undo s ->
  path_ok s' tip.
Proof.
  intros HK HF Hkn Eix Ea Eu Et Eun. eapply path_ok_update; [exact HK| | |done|done|done|by rewrite Eun].
  - rewrite Eix. apply index_grows_insert; [|by left]. destruct Hkn as [?|(r0 & ? & ? & _)]; [by left|right; eauto].
  - intros h id r' Hh Hr'. destruct (active_record _ _ _ _ _ (pk_active _ _ _ _ HK) Hh) as (r & Hr & _ & Hv & _).
    rewrite Eix in Hr'. apply lookup_insert_Some in Hr' as [[<- <-]|[_ Hr']]; [|congruence].
    destruct Hkn as [?|(r0 & ? & _ & ?)]; congruence.
Qed.

Lemma tip_work_le s tip ht : store_ok s tip ht -> work_value (tip_work tip) <= work_value (htip_work ht).
Proof.
  intros [HK [_ HM] _ _]. destruct (ac_tip _ _ _ (pk_active _ _ _ _ HK)) as (r & Ha & Hr & <-).
  apply (HM _ _ Hr). destruct (active_record _ _ _ _ _ (pk_active _ _ _ _ HK) Ha) as (r' & Hr' & _ & Hv & _). congruence.
Qed.

Definition side_batch (b : Block) (i : BlockIndexRecord) : StorageBatch :=
  put_index (with_body_retained i) (put_block b StorageBatch_new).

Lemma store_aside_post st s b i :
  mirrors st s -> placeable s b i -> work_gtb (idx_work i) (tip_work (cs_tip st)) = false ->
  op_post (placed st b) st (eff_bind (commit_batch (side_batch b i)) (fun _ => eff_ret StoredSideChain) st).
Proof.
  intros HM [P1 P2 P3 P4 P5 P6 P7 P8] Hw. pose proof HM as (Hc & HS & HK & HU). pose proof (tip_work_le _ _ _ HK) as Hle.
  assert (store_ok (apply_batch (side_batch b i) s) (cs_tip st) (cs_header_tip st)) as HK'.
  { destruct HK as [HP HH Hht HB]. split.
    - destruct s as [bl ix ux un ac tip htip an ge he cu].
      eapply (path_ok_put _ _ _ (with_body_retained i)); [exact HP|exact P3| |done..].
      cbn [with_body_retained idx_header]. rewrite P1. exact P4.
    - assert (htip_after (cs_header_tip st) (with_body_retained i) (block_id (idx_header i)) = cs_header_tip st) as <-.
      { unfold htip_after, work_gtb in *. cbn [with_body_retained idx_work]. case_match; [lia|done]. }
      destruct s as [bl ix ux un ac tip htip an ge he cu].
      apply (headers_ok_insert (MkStore bl ix ux un ac tip htip an ge he cu) _ _ (with_body_retained i)); [done|done|].
      cbn [with_body_retained idx_header]. rewrite P1. destruct P4 as [?|(r0 & ? & ? & _)]; [by left|right; by exists r0].
    - by destruct s.
    - destruct s as [bl ix ux un ac tip htip an ge he cu]. cbn. intros k b' [[_ <-]|[_ Hb]]%lookup_insert_Some; [done|by eapply HB]. }
  eapply commit_post; [exact HM| |exact HK'|].
  - unfold side_batch, put_index, put_block, StorageBatch_new. rewrite !Forall_app, !Forall_singleton.
    split_and!; [constructor|exact P6|exact P5].
  - intros db' HS'. split; [by eexists _, _, _|]. cbn [fst snd eff_ret].
    assert (mirrors (with_db db' st) (apply_batch (side_batch b i) s)) as HM'.
    { split_and!; [done|exact HS'|exact HK'|]. by destruct s. }
    split; [by eexists|]. split; [done|]. split; [done|]. eexists _, (with_body_retained i). split; [exact HM'|].
    assert (work_value (idx_work i) <= work_value (tip_work (cs_tip st))) by (unfold work_gtb in Hw; lia).
    destruct s. cbn. rewrite P1, !lookup_insert_eq. done.
Qed.

(** ** Validating a header *)

Lemma pre_pow_target h ctx p facts :
  validate_header_pre_pow h ctx p = Ok facts ->
  Target_from_le_bytes (difficulty_commitment h) = Ok (facts_target facts) /\
  facts_work facts = block_work (facts_target facts).
Proof.
  unfold validate_header_pre_pow. destruct (_ =? 0); [done|]. case_bool_decide; [cbn [negb]|done].
  destruct (median_time_past _); [|done]. destruct (_ <=? _); [done|]. destruct (required_target _ _ _ _); [|done].
  destruct (Target_from_le_bytes _) as [t|] eqn:Et; [|done]. destruct (Target_validate_against _ _); [|done].
  case_bool_decide; [cbn [negb]|done]. intros [= <-]. done.
Qed.

(** A validated header is a new child of a stored node. *)
Lemma validate_candidate_spec st s h i :
  mirrors st s -> header_within h -> validate_candidate_header st h = Ok i ->
  idx_header i = h /\ idx_parent i = previous_block h /\ idx_validation i = HeaderValidated /\ index_typed i /\
  exists p, st_index s !! idx_parent i = Some p /\ follows p i.
Proof.
  intros (Hc & HS & HK & HU) Hw. unfold validate_candidate_header.
  destruct (db_get_index (cs_db st) (previous_block h)) as [found|] eqn:Ef; [|done]. cbn [storage map_err].
  apply (law_get_index _ _ _ _ HS) in Ef. destruct found as [p|]; [|done]. cbn [ok_or].
  case_bool_decide; [done|]. cbn [negb]. destruct (mtp_window _); [|done].
  destruct (checked_add U64_MAX (idx_height p) 1) as [ht|] eqn:Eh; [|done]. cbn [ok_or].
  apply checked_add_Some in Eh as [-> Hmax].
  destruct (validate_header_pre_pow _ _ _) as [facts|] eqn:Epp; [|done]. cbn [map_err].
  apply pre_pow_target in Epp as [Et Ew].
  destruct (ancestor_id_at_height _ _) as [[k|]|]; [|done|done]. cbn [ok_or].
  destruct (LightEngine_new _) as [e|]; [|done]. cbn [map_err].
  destruct (fst (validate_header_pow _ _ _ _)); [|done]. cbn [map_err]. intros [= <-]. cbn.
  symmetry in Ef. destruct (typed_index _ (law_typed _ _ HS) _ _ Ef) as (_ & _ & (_ & Hp & Hpw)).
  split_and!; [done|done|done| |].
  - split; [done|]. cbn. pose proof (block_work_pos (facts_target facts)). rewrite Ew. unfold_ints.
    unfold ChainWork_add_assign. cbn [work_value]. lia.
  - exists p. split; [done|]. split; [done|]. exists (facts_target facts). by rewrite Ew.
Qed.

(** ** Importing a header *)

(** What importing a header guarantees: the tip and outputs do not move; a
    header that is known changes nothing; a new one is recorded, and becomes
    the preferred tip exactly when it has more work than that one. *)
Definition imported (st : ChainState DB) (h : BlockHeader) (o : HeaderImportOutcome) (st' : ChainState DB) : Prop :=
  hio_block_id o = block_id h /\ hio_preferred_tip o = cs_header_tip st' /\
  cs_tip st' = cs_tip st /\ cs_utxos st' = cs_utxos st /\
  exists s s' r, mirrors st s /\ mirrors st' s' /\ st_index s' !! block_id h = Some r /\ hio_height o = idx_height r /\
    match hio_status o with
    | HeaderKnown => st' = st /\ s' = s
    | HeaderStored =>
        st_index s !! block_id h = None /\ idx_header r = h /\ cs_header_tip st' = cs_header_tip st /\
        work_value (idx_work r) <= work_value (htip_work (cs_header_tip st))
    | HeaderPreferred =>
        st_index s !! block_id h = None /\ idx_header r = h /\
        cs_header_tip st' = MkHeaderTip (block_id h) (idx_height r) (idx_work r) /\
        work_value (htip_work (cs_header_tip st)) < work_value (idx_work r)
    end.

Lemma accept_header_healthy_post st h :
  chain_ok st -> header_within h -> op_post (imported st h) st (accept_header_healthy h st).
Proof.
  intros HC Hw. pose proof HC as (s & HM). pose proof HM as (Hc & HS & HK & HU).
  unfold accept_header_healthy. rewrite bind_read.
  apply post_storage; [done|]. intros found Ef. apply (law_get_index _ _ _ _ HS) in Ef as ->.
  destruct (st_index s !! block_id h) as [r|] eqn:Er.
  { case_bool_decide; [by apply post_err|]. split; [by apply chain_ok_durable|]. cbn. split_and!; [done..|].
    unfold imported. cbn. split_and!; [done..|]. by exists s, s, r. }
  rewrite bind_read. destruct (validate_candidate_header st h) as [i|] eqn:Ev; [|by apply post_err].
  destruct (validate_candidate_spec _ _ _ _ HM Hw Ev) as (E1 & E2 & E3 & E4 & HF).
  rewrite bind_read. cbn [htip_work]. cbn zeta. set (pref := work_gtb (idx_work i) (htip_work (cs_header_tip st))).
  assert (store_ok (apply_batch (prefer pref (block_id h) (idx_height i) (put_index i StorageBatch_new)) s) (cs_tip st)
            (htip_after (cs_header_tip st) i (block_id h))) as HK'.
  { assert (apply_batch (prefer pref (block_id h) (idx_height i) (put_index i StorageBatch_new)) s
      = prefer_store pref (block_id h) (idx_height i) (apply_op s (PutIndex i))) as ->.
    { unfold prefer, prefer_store. destruct s, pref; done. }
    destruct HK as [HP HH Hht HB]. apply store_ok_prefer.
    - destruct s as [bl ix ux un ac tip htip an ge he cu]. eapply (path_ok_put _ _ _ i); [exact HP|exact HF| |done..].
      rewrite E1. by left.
    - rewrite <- E1. apply (headers_ok_insert s _ _ i); [done|by destruct s|]. rewrite E1. by left.
    - by destruct s.
    - by destruct s. }
  eapply commit_post; [exact HM| |exact HK'|].
  { unfold prefer, set_preferred_header_tip, put_index, StorageBatch_new. destruct pref; rewrite ?Forall_app, ?Forall_singleton;
      split_and?; try constructor; try done; apply E4. }
  intros db' HS'.
  assert (mirrors (with_header_tip (htip_after (cs_header_tip st) i (block_id h)) (with_db db' st))
    (apply_batch (prefer pref (block_id h) (idx_height i) (put_index i StorageBatch_new)) s)) as HM'.
  { split_and!; [done|exact HS'|exact HK'|]. unfold prefer. destruct s, pref; exact HU. }
  assert (st_index (apply_batch (prefer pref (block_id h) (idx_height i) (put_index i StorageBatch_new)) s) !! block_id h = Some i) as HI.
  { unfold prefer. rewrite <- E1. destruct s, pref; apply lookup_insert_eq. }
  unfold htip_after in HM'. fold pref in HM'. destruct pref eqn:Ep.
  - apply work_gtb_spec in Ep. split; [apply chain_ok_durable; by eexists|]. cbn. split; [by eexists|]. split; [done|].
    unfold imported. cbn. split_and!; [done..|]. by eexists s, _, i.
  - assert (work_value (idx_work i) <= work_value (htip_work (cs_header_tip st))) by (unfold pref, work_gtb in Ep; lia).
    split; [apply (chain_ok_durable (with_header_tip (cs_header_tip st) (with_db db' st))); by eexists|]. cbn.
    split; [by eexists|]. split; [done|]. unfold imported. cbn. split_and!; [done..|]. by eexists s, _, i.
Qed.

End Ops.
