(* ===== verification/ChainReorg.v ===== *)
(** Reorganisation: the fork that is found, the plan that is loaded, and the
    store after the old blocks are disconnected and the candidate path is
    connected, or after the candidate is marked invalid. *)
From S2P Require Import Prelude Encoding Transaction Block Difficulty Emission HeaderRules BlockRules Utxo Ledger Fresh.
From S2P Require Import Records StoreSpec ChainState ChainInv ChainProofs.

(** ** Several records at once *)

Section PutAll.
Context `{Blake3}.

Definition rec_id (r : BlockIndexRecord) : Hash256 := block_id (idx_header r).

Definition put_all (l : list BlockIndexRecord) (ix : gmap Hash256 BlockIndexRecord) : gmap Hash256 BlockIndexRecord :=
  foldl (fun (ix : gmap Hash256 BlockIndexRecord) r => <[rec_id r := r]> ix) ix l.

Lemma put_all_other l ix id : id ∉ map rec_id l -> put_all l ix !! id = ix !! id.
Proof.
  revert ix. induction l as [|r l IH]; intros ix Hid; [done|]. cbn [map] in Hid. apply not_elem_of_cons in Hid as [H1 H2].
  cbn [put_all foldl]. fold (put_all l (<[rec_id r := r]> ix)). rewrite IH by done. by rewrite lookup_insert_ne.
Qed.

Lemma put_all_in l ix r : NoDup (map rec_id l) -> r ∈ l -> put_all l ix !! rec_id r = Some r.
Proof.
  revert ix. induction l as [|r0 l IH]; intros ix HN Hr; [by apply not_elem_of_nil in Hr|]. cbn [map] in HN.
  apply NoDup_cons in HN as [H0 HN]. cbn [put_all foldl]. fold (put_all l (<[rec_id r0 := r0]> ix)).
  apply elem_of_cons in Hr as [->|Hr]; [|by apply IH]. rewrite put_all_other by done. by rewrite lookup_insert_eq.
Qed.

Lemma put_all_inv l ix id r :
  NoDup (map rec_id l) -> put_all l ix !! id = Some r -> (r ∈ l /\ id = rec_id r) \/ ((id ∉ map rec_id l) /\ ix !! id = Some r).
Proof.
  intros HN Hr. destruct (decide (id ∈ map rec_id l)) as [Hin|Hin].
  - apply list_elem_of_fmap in Hin as (r0 & -> & Hr0). left. rewrite (put_all_in l ix r0 HN Hr0) in Hr. by injection Hr as <-.
  - right. rewrite put_all_other in Hr by done. done.
Qed.

(** Putting records of known nodes, or of new nodes under their parents. *)
Lemma put_all_grows l ix :
  NoDup (map rec_id l) ->
  Forall (fun r => ix !! rec_id r = None \/ exists r0, ix !! rec_id r = Some r0 /\ same_node r0 r) l ->
  Forall (fun r => (exists r0, ix !! rec_id r = Some r0) \/
                   exists p, put_all l ix !! idx_parent r = Some p /\ follows p r) l ->
  index_grows ix (put_all l ix).
Proof.
  intros HN HK HF. rewrite Forall_forall in HK. rewrite Forall_forall in HF. split.
  - intros id r Hr. destruct (decide (id ∈ map rec_id l)) as [Hin|Hin].
    + apply list_elem_of_fmap in Hin as (r1 & -> & Hr1). exists r1. split; [by apply put_all_in|].
      destruct (HK _ Hr1) as [?|(r0 & ? & ?)]; congruence.
    + exists r. by rewrite put_all_other.
  - intros id r' Hr'. apply put_all_inv in Hr' as [[Hin ->]|[_ Hr']]; [|left; by exists r'|done].
    destruct (HK _ Hin) as [Hn|(r0 & ? & ?)]; [|left; eauto].
    destruct (HF _ Hin) as [[r0 ?]|?]; [congruence|by right].
Qed.

Lemma put_index_batch l batch s :
  apply_batch (foldl (fun batch r => put_index r batch) batch l) s =
  let s1 := apply_batch batch s in
  MkStore (st_blocks s1) (put_all l (st_index s1)) (st_utxos s1) (st_undo s1) (st_active s1) (st_tip s1)
    (st_header_tip s1) (st_anchor s1) (st_genesis s1) (st_health s1) (st_cursor s1).
Proof.
  revert batch. induction l as [|r l IH]; intros batch; cbn [foldl].
  { cbn. by destruct (apply_batch batch s). }
  rewrite IH. unfold put_index. rewrite apply_batch_app. by destruct (apply_batch batch s).
Qed.

(** ** The candidate path *)

(** The nodes form a path that starts below at the node [p] of identifier [pid]. *)
Fixpoint linked (pid : Hash256) (p : BlockIndexRecord) (l : list ReorgCandidate) : Prop :=
  match l with
  | [] => True
  | n :: l => idx_parent (rc_index n) = pid /\ follows p (rc_index n) /\ linked (rc_id n) (rc_index n) l
  end.

(** A node and its block belong together, and the node is new or known. *)
Record cand_ok (ix : gmap Hash256 BlockIndexRecord) (n : ReorgCandidate) : Prop := MkCandOk {
  ca_id : rc_id n = block_id (header (rc_block n));
  ca_header : idx_header (rc_index n) = header (rc_block n);
  ca_parent : idx_parent (rc_index n) = previous_block (header (rc_block n));
  ca_known : ix !! rc_id n = None \/ exists r0, ix !! rc_id n = Some r0 /\ same_node r0 (rc_index n);
  ca_typed : index_typed (rc_index n);
  ca_block : block_storable (rc_block n);
}.

Definition last_tip (tip : Tip) (l : list ReorgCandidate) : Tip :=
  match last l with
  | Some n => MkTip (rc_id n) (idx_height (rc_index n)) (idx_work (rc_index n))
  | None => tip
  end.

Lemma linked_work pid p l n :
  linked pid p l -> n ∈ l -> work_value (idx_work p) < work_value (idx_work (rc_index n)) /\
    exists m, last l = Some m /\ work_value (idx_work (rc_index n)) <= work_value (idx_work (rc_index m)).
Proof.
  revert pid p n. induction l as [|x l IH]; intros pid p n; [intros _ Hn; by apply not_elem_of_nil in Hn|].
  intros (_ & HF & HL) Hn. apply follows_work in HF. apply elem_of_cons in Hn as [->|Hn].
  - split; [done|]. destruct l as [|y l]; [exists x; split; [done|lia]|].
    destruct (IH _ _ y HL) as [H1 (m & H2 & H3)]; [by left|]. exists m. split; [exact H2|]. lia.
  - destruct (IH _ _ n HL Hn) as [H1 (m & H2 & H3)]. split; [lia|]. exists m. split; [|done].
    destruct l; [by apply not_elem_of_nil in Hn|done].
Qed.

(** ** The store of a reorganisation *)

(** The blocks, records, undo records and heights of connected nodes. *)
Definition put_node (s : Store) (p : ReorgCandidate * BlockUndo) : Store :=
  let '(n, u) := p in
  MkStore (<[rc_id n := rc_block n]> (st_blocks s)) (<[rc_id n := mark_active (rc_index n)]> (st_index s)) (st_utxos s)
    (<[rc_id n := u]> (st_undo s)) (<[idx_height (rc_index n) := rc_id n]> (st_active s)) (st_tip s)
    (st_header_tip s) (st_anchor s) (st_genesis s) (st_health s) (st_cursor s).

(** A store with other outputs and another tip. *)
Definition at_tip (utxos : UtxoState) (tip : Tip) (s : Store) : Store :=
  MkStore (st_blocks s) (st_index s) utxos (st_undo s) (st_active s) (Some (tip_id tip, ct_height tip))
    (st_header_tip s) (st_anchor s) (st_genesis s) (st_health s) (st_cursor s).

Lemma put_node_index l s :
  Forall (fun p => rc_id p.1 = rec_id (rc_index p.1)) l ->
  st_index (foldl put_node s l) = put_all (map (fun p => mark_active (rc_index p.1)) l) (st_index s).
Proof.
  intros HF. revert s. induction HF as [|[n u] l Hid HF IH]; intros s; [done|]. cbn [foldl map put_all].
  rewrite IH. cbn [put_node st_index]. cbn [fst] in Hid. by rewrite Hid.
Qed.

End PutAll.

Section Connect.
Context `{Blake3} {V : Type} `{!SpendVerifier V} {KB : KnownBlocks}.
Variable config : ChainConfig.
Variable verifier : V.

Abbreviation path_ok := (path_ok config verifier).
Abbreviation replay := (replay config verifier).
Abbreviation txid_reused := (txid_reused config verifier).

Lemma insert_created_err staged l d e : insert_created staged l d = Err e -> e = ChainStateError.CorruptState.
Proof.
  unfold insert_created. revert d. induction l as [|o l IH]; intros d; cbn [try_fold]; [done|].
  destruct (staged !! o); cbn [ok_or]; [apply IH|]. by intros [= <-].
Qed.

(** What connecting the candidate path gives. *)
Definition connect_post (base : UtxoState) (raw : Store) (tip : Tip) (cands : list ReorgCandidate)
  (undos0 : list BlockUndo) (o : ConnectOutcome) : Prop :=
  match o with
  | Connected staged delta undos =>
      exists us, undos = undos0 ++ us /\ length us = length cands /\
        path_ok (at_tip staged (last_tip tip cands) (foldl put_node raw (zip cands us))) (last_tip tip cands) /\
        delta_from base staged delta /\ delta_typed delta /\ Forall undo_typed us
  | ConnectFailed _ invalid => exists pre, cands = pre ++ invalid
  | DeltaFailed e => e = ChainStateError.CorruptState
  end.

Lemma advanced_at_tip n u staged staged' tip raw :
  rc_id n = block_id (header (rc_block n)) ->
  advanced (rc_block n) (rc_index n) u staged' (at_tip staged tip raw) =
  at_tip staged' (MkTip (rc_id n) (idx_height (rc_index n)) (idx_work (rc_index n))) (put_node raw (n, u)).
Proof. intros E. unfold advanced. rewrite <- E. done. Qed.

Lemma cand_ok_put ix n m :
  cand_ok ix n -> rc_id n <> rc_id m -> cand_ok (<[rc_id m := mark_active (rc_index m)]> ix) n.
Proof. intros [C1 C2 C3 C4 C5 C6] Hne. split; [done..| |done|done]. by rewrite lookup_insert_ne. Qed.

Lemma last_tip_cons tip n l :
  last_tip tip (n :: l) = last_tip (MkTip (rc_id n) (idx_height (rc_index n)) (idx_work (rc_index n))) l.
Proof. unfold last_tip. destruct l as [|m l]; [done|]. rewrite (last_cons n). by destruct (last (m :: l)) eqn:E; [|apply last_None in E]. Qed.

Lemma connect_all_post cands : forall staged delta undos0 raw tip base p p',
  path_ok (at_tip staged tip raw) tip ->
  st_index raw !! tip_id tip = Some p' -> same_node p p' -> linked (tip_id tip) p cands ->
  Forall (cand_ok (st_index raw)) cands -> Forall (fun n => known (rc_block n)) cands -> NoDup (map rc_id cands) ->
  delta_from base staged delta -> delta_typed delta -> utxos_typed staged ->
  connect_post base raw tip cands undos0 (connect_all (params config) verifier cands staged delta undos0) \/ txid_reused.
Proof.
  induction cands as [|n cands IH]; intros staged delta undos0 raw tip base p p' HP Htip Hsame HL HF HG HN HD HDt HUt.
  { left. exists []. rewrite app_nil_r. split_and!; [done|done|exact HP|done|done|constructor]. }
  cbn [connect_all]. destruct HL as (L1 & L2 & L3). pose proof (pk_ledger _ _ _ _ HP) as (c & HR & HC). cbn [at_tip st_utxos] in HR. apply Forall_cons in HF as [[C1 C2 C3 C4 C5 C6] HF].
  apply Forall_cons in HG as [Hg HG]. cbn [map] in HN. apply NoDup_cons in HN as [N1 N2].
  assert (extends_tip (at_tip staged tip raw) tip (rc_block n) (rc_index n)) as HE.
  { split_and!; [done|done| |by rewrite <- C1]. exists p'. split; [done|]. eapply follows_same; [exact Hsame|done|exact L2]. }
  pose proof (extends_height _ _ _ _ _ (pk_active _ _ _ _ HP) HE) as Eh.
  assert (idx_height (rc_index n) = Z.of_nat (S (length c))) as El by (destruct HC as [HCl _]; lia).
  destruct (connect_block (rc_block n) (idx_height (rc_index n)) (params config) verifier staged) as [[u|e] staged'] eqn:EC.
  2: { left. by exists []. }
  destruct (replay_extend config verifier c staged (rc_block n) u staged' HR) as [(HR' & HA & Eu)|?];
    [done|rewrite <- El; apply C5|by rewrite <- El| |by right].
  destruct (record_connect_delta delta staged' u) as [delta'|e] eqn:ED.
  2: { left. by apply insert_created_err in ED. }
  assert (in_u64 (idx_height (rc_index n))) as Hu64 by apply C5.
  pose proof (connect_typed _ _ _ _ _ _ _ Hu64 (proj1 C6) HUt EC) as HSt.
  pose proof ED as ED2. rewrite Eu in ED2.
  pose proof (record_connect_from _ _ _ _ _ HA HD ED2) as HD'.
  pose proof (record_connect_typed _ _ _ _ HUt HSt HDt ED2) as HDt'.
  set (tip' := MkTip (rc_id n) (idx_height (rc_index n)) (idx_work (rc_index n))).
  assert (path_ok (at_tip staged' tip' (put_node raw (n, u))) tip') as HP'.
  { pose proof (path_ok_advance config verifier _ tip (rc_block n) (rc_index n) u staged' c HP HE HR HC HR') as HX.
    rewrite (advanced_at_tip n u staged staged' tip raw C1), <- C1 in HX. exact HX. }
  destruct (IH staged' delta' (undos0 ++ [u]) (put_node raw (n, u)) tip' base (rc_index n) (mark_active (rc_index n)))
    as [HX|?]; try done; [by cbn; rewrite lookup_insert_eq| | |by right].
  { cbn [put_node st_index]. apply Forall_forall. intros m Hm. apply cand_ok_put; [by eapply Forall_forall|].
    intros E. apply N1. rewrite <- E. by apply list_elem_of_fmap_2. }
  left. unfold connect_post in *. rewrite last_tip_cons. fold tip'.
  destruct (connect_all _ _ cands _ _ _) as [st d us|e inv|e]; [|destruct HX as [pre ->]; by exists (n :: pre)|done].
  destruct HX as (us' & -> & HLen & HPP & HDD & HDDt & HUs). exists (u :: us').
  split_and!; [by rewrite <- app_assoc|cbn; lia|exact HPP|done|done|]. constructor; [|done].
  rewrite Eu. by apply undo_of_typed.
Qed.

End Connect.

(** ** Disconnecting the old blocks *)

Section Disconnect.
Context `{Blake3} {V : Type} `{!SpendVerifier V} {KB : KnownBlocks}.
Variable config : ChainConfig.
Variable verifier : V.

Lemma disconnect_fold base old : forall c1 c2 staged0 delta0 staged delta,
  replay config verifier (c1 ++ c2) staged0 -> map snd old = map snd c1 ->
  delta_from base staged0 delta0 -> delta_typed delta0 -> utxos_typed staged0 -> Forall undo_typed (map snd old) ->
  try_fold (fun '(staged, delta) '((_, undo) : Hash256 * BlockUndo) =>
    match disconnect_block undo staged with
    | (Ok _, staged) => Ok (staged, record_disconnect_delta delta undo)
    | (Err e, _) => Err (ChainStateError.Utxo e)
    end) old (staged0, delta0) = Ok (staged, delta) ->
  replay config verifier c2 staged /\ delta_from base staged delta /\ delta_typed delta /\ utxos_typed staged.
Proof.
  induction old as [|[id u] old IH]; intros c1 c2 staged0 delta0 staged delta HR HE HD HDt HUt HF HX.
  { destruct c1; [|done]. injection HX as <- <-. done. }
  destruct c1 as [|[b u'] c1]; [done|]. cbn [map snd] in HE. injection HE as <- HE.
  cbn [map snd] in HF. apply Forall_cons in HF as [Hu HF].
  cbn [app] in HR. apply replay_disconnect in HR as (s0 & HR & Hdis).
  cbn [try_fold] in HX. rewrite Hdis in HX.
  eapply IH; [exact HR|exact HE| | | |exact HF|exact HX].
  - by eapply record_disconnect_from.
  - by eapply record_disconnect_typed.
  - by eapply disconnect_typed.
Qed.

Lemma disconnect_all_spec old c1 c2 utxos staged delta :
  replay config verifier (c1 ++ c2) utxos -> map snd old = map snd c1 -> utxos_typed utxos ->
  Forall undo_typed (map snd old) -> disconnect_all old utxos = Ok (staged, delta) ->
  replay config verifier c2 staged /\ delta_from utxos staged delta /\ delta_typed delta /\ utxos_typed staged.
Proof.
  intros HR HE HU HF HX. eapply disconnect_fold; [exact HR|exact HE|apply delta_from_empty|apply map_Forall_empty|done|done|].
  exact HX.
Qed.

End Disconnect.

(** ** Discovering the fork *)

Section Discover.
Context `{Blake3} {DB : Type} `{!BlockStore DB} `{!BlockStoreLaws DB}.

(** A path of nodes above the node [p] of identifier [pid]. *)
Fixpoint path_from (pid : Hash256) (p : BlockIndexRecord) (l : list CandidateNode) : Prop :=
  match l with
  | [] => True
  | n :: l =>
      idx_parent (cn_index n) = pid /\ follows p (cn_index n) /\
      block_id (idx_header (cn_index n)) = cn_id n /\
      idx_parent (cn_index n) = previous_block (idx_header (cn_index n)) /\
      path_from (cn_id n) (cn_index n) l
  end.

Definition path_end (pid : Hash256) (p : BlockIndexRecord) (l : list CandidateNode) : Hash256 * BlockIndexRecord :=
  match last l with Some n => (cn_id n, cn_index n) | None => (pid, p) end.

Lemma path_from_snoc pid p l n :
  path_from pid p l ->
  (let '(id, r) := path_end pid p l in idx_parent (cn_index n) = id /\ follows r (cn_index n)) ->
  block_id (idx_header (cn_index n)) = cn_id n ->
  idx_parent (cn_index n) = previous_block (idx_header (cn_index n)) -> path_from pid p (l ++ [n]).
Proof.
  revert pid p. induction l as [|m l IH]; intros pid p HP HE Hid Hpar.
  { cbn in *. naive_solver. }
  destruct HP as (P1 & P2 & P3 & P4 & HP). cbn [app path_from]. split_and!; [done..|].
  apply IH; [done| |done|done]. unfold path_end in *. destruct l as [|m' l]; [exact HE|].
  rewrite (last_cons m) in HE. by destruct (last (m' :: l)) eqn:E; [|apply last_None in E].
Qed.

Lemma identity_Ok id r : validate_index_identity id r = Ok tt -> block_id (idx_header r) = id /\ idx_parent r = previous_block (idx_header r).
Proof. unfold validate_index_identity. repeat case_bool_decide; done. Qed.

Lemma parent_child_Ok pid p id r :
  validate_parent_child pid p id r = Ok tt ->
  block_id (idx_header p) = pid /\ block_id (idx_header r) = id /\ idx_parent r = previous_block (idx_header r) /\
  idx_validation p <> Invalid /\ idx_parent r = pid /\ follows p r.
Proof.
  unfold validate_parent_child. destruct (validate_index_identity pid p) as [[]|] eqn:E1; [|done].
  destruct (validate_index_identity id r) as [[]|] eqn:E2; [|done].
  apply identity_Ok in E1 as [? ?]. apply identity_Ok in E2 as [? ?].
  case_bool_decide; [done|]. cbn [negb]. case_bool_decide; [|done].
  destruct (checked_add U64_MAX (idx_height p) 1) as [h|] eqn:E3; [|done]. apply checked_add_Some in E3 as [-> _]. cbn [ok_or].
  destruct (Z.eqb_spec (idx_height r) (idx_height p + 1)); [|done].
  destruct (Target_from_le_bytes _) as [t|] eqn:Et; [|done]. cbn [map_err]. case_bool_decide; [|done]. intros _.
  split_and!; try done. split; [done|]. by exists t.
Qed.

(** The fork that [discover_fork] returns: an active node and the path of
    nodes from it to the candidate, none of them active or invalid. *)
Record found_fork (s : Store) (id : Hash256) (cur : BlockIndexRecord) (f : Z) (new : list CandidateNode)
  (fid : Hash256) (fr : BlockIndexRecord) : Prop := MkFoundFork {
  ff_active : st_active s !! f = Some fid;
  ff_height : idx_height fr = f;
  ff_path : path_from fid fr new;
  ff_end : path_end fid fr new = (id, cur);
  ff_stored : Forall (fun n => n = MkCandidateNode id cur \/ st_index s !! cn_id n = Some (cn_index n)) new;
  ff_fork : new = [] \/ st_index s !! fid = Some fr;
  ff_inactive : Forall (fun n => st_active s !! idx_height (cn_index n) <> Some (cn_id n)) new;
  ff_valid : Forall (fun n => idx_validation (cn_index n) <> Invalid) new;
}.

Lemma discover_loop_spec fuel : forall (db : DB) s id cur acc d,
  stores db s -> in_u64 (idx_height cur) -> block_id (idx_header cur) = id -> idx_parent cur = previous_block (idx_header cur) ->
  discover_loop fuel db id cur acc = Ok d ->
  exists new fid fr, fork_candidate d = new ++ rev acc /\ found_fork s id cur (fork_height d) new fid fr.
Proof.
  induction fuel as [|fuel IH]; intros db s id cur acc d HS Hu Hid Hpar; cbn [discover_loop];
    (destruct (db_active_id_at_height db (idx_height cur)) as [a|] eqn:Ea; [|done]); cbn [storage map_err];
    apply (law_active_id _ _ _ _ HS Hu) in Ea; subst a;
    (case_bool_decide as Hact;
     [intros [= <-]; exists [], id, cur; split; [done|]; split; [done|done|done|done|constructor|by left|constructor|constructor]|]);
    (case_bool_decide as Hinv; [done|]); cbn [negb];
    (destruct (idx_height cur =? 0); [done|]); cbn [negb];
    (destruct (db_get_index db (idx_parent cur)) as [found|] eqn:Ef; [|done]); cbn [storage map_err];
    apply (law_get_index _ _ _ _ HS) in Ef; (destruct found as [p|]; [|done]); cbn [ok_or];
    (destruct (validate_parent_child (idx_parent cur) p id cur) as [[]|] eqn:Ev; [|done]); [done|].
  apply parent_child_Ok in Ev as (V1 & V2 & V3 & V4 & V5 & V6). symmetry in Ef.
  destruct (typed_index _ (law_typed _ _ HS) _ _ Ef) as (_ & Hpp & Htp).
  intros Hd. destruct (IH db s (idx_parent cur) p (acc ++ [MkCandidateNode id cur]) d HS) as (new & fid & fr & E & [F1 F2 F3 F4 F5 F6 F7 F8]);
    [apply Htp|done|done|exact Hd|].
  exists (new ++ [MkCandidateNode id cur]), fid, fr. split; [rewrite E, rev_app_distr, <- app_assoc; done|]. split; try done.
  - apply path_from_snoc; [done| |done|done]. rewrite F4. done.
  - unfold path_end. by rewrite last_snoc.
  - apply Forall_app. split; [|by constructor; [left|]]. eapply Forall_impl; [exact F5|].
    intros n [->|?]; right; done.
  - right. destruct F6 as [->|?]; [|done]. unfold path_end in F4. cbn in F4. by injection F4 as -> ->.
  - apply Forall_app. split; [done|]. by constructor.
  - apply Forall_app. split; [done|]. by constructor.
Qed.

Lemma discover_fork_spec (db : DB) s id cur d :
  stores db s -> in_u64 (idx_height cur) -> discover_fork db id cur = Ok d ->
  exists fid fr, found_fork s id cur (fork_height d) (fork_candidate d) fid fr.
Proof.
  intros HS Hu. unfold discover_fork. destruct (validate_index_identity id cur) as [[]|] eqn:E; [|done].
  apply identity_Ok in E as [E1 E2]. intros Hd.
  destruct (discover_loop_spec _ _ _ _ _ _ _ HS Hu E1 E2 Hd) as (new & fid & fr & EN & HF).
  cbn in EN. rewrite app_nil_r in EN. rewrite EN. eauto.
Qed.

End Discover.

(** ** Loading the plan *)

Lemma lookup_rev_seqZ f n i h : rev (seqZ f n) !! i = Some h -> h = f + n - 1 - Z.of_nat i /\ Z.of_nat i < n.
Proof.
  intros Hi. pose proof (lookup_lt_Some _ _ _ Hi) as HL. rewrite length_rev, length_seqZ in HL.
  rewrite rev_alt in Hi. change (rev_append (seqZ f n) []) with (reverse (seqZ f n)) in Hi.
  rewrite reverse_lookup in Hi by (rewrite length_seqZ; done). rewrite length_seqZ in Hi. apply lookup_seqZ in Hi as [-> ?]. lia.
Qed.

Section Plan.
Context `{Blake3} {DB : Type} `{!BlockStore DB} `{!BlockStoreLaws DB}.

Lemma load_old_active_spec (db : DB) s f th old :
  stores db s -> 0 <= f -> in_u64 th -> load_old_active db f th = Ok old ->
  Z.of_nat (length old) = Z.max 0 (th - f) /\
  forall i p, old !! i = Some p -> st_active s !! (th - Z.of_nat i) = Some p.1 /\ st_undo s !! p.1 = Some p.2.
Proof.
  intros HS Hf Hth Hl. apply try_map_Forall2 in Hl. split.
  { rewrite <- (Forall2_length _ _ _ Hl), length_rev, length_seqZ. lia. }
  intros i [id u] Hi. destruct (Forall2_lookup_r _ _ _ _ _ Hl Hi) as (h & Hh & Hx).
  apply lookup_rev_seqZ in Hh as [-> Hlt]. cbn [fst snd].
  replace (th - Z.of_nat i) with (f + 1 + (th - f) - 1 - Z.of_nat i) by lia.
  destruct (db_active_id_at_height db _) as [a|] eqn:Ea; [|done]. apply (law_active_id _ _ _ _ HS) in Ea; [|unfold_ints; lia].
  cbn [storage map_err] in Hx. destruct a as [id'|]; [|done]. cbn [ok_or] in Hx.
  destruct (db_get_undo db id') as [x|] eqn:Ex; [|done]. apply (law_get_undo _ _ _ _ HS) in Ex. cbn [storage map_err] in Hx.
  destruct x as [u'|]; [|done]. cbn [ok_or] in Hx. injection Hx as <- <-. done.
Qed.

Lemma load_candidate_spec (db : DB) s cid cb n rc :
  stores db s -> load_candidate db cid cb n = Ok rc ->
  rc_id rc = cn_id n /\ rc_index rc = cn_index n /\ block_id (header (rc_block rc)) = cn_id n /\
  header (rc_block rc) = idx_header (cn_index n) /\ (rc_block rc = cb \/ st_blocks s !! cn_id n = Some (rc_block rc)).
Proof.
  intros HS. unfold load_candidate.
  destruct (if bool_decide (cn_id n = cid) then _ else _) as [block|] eqn:Eb; [|done].
  destruct (bool_decide (block_id (header block) = cn_id n)) eqn:E1; [|done]. apply bool_decide_eq_true in E1.
  destruct (bool_decide (header block = idx_header (cn_index n))) eqn:E2; [|done]. apply bool_decide_eq_true in E2.
  intros [= <-]. cbn. split_and!; try done. case_bool_decide; [left; congruence|]. destruct (idx_body_retained _); [|done].
  destruct (db_get_block db (cn_id n)) as [x|] eqn:Ex; [|done]. apply (law_get_block _ _ _ _ HS) in Ex. cbn [storage map_err] in Eb.
  destruct x as [b|]; [|done]. cbn [ok_or] in Eb. right. congruence.
Qed.

Lemma path_heights pid p l k n : path_from pid p l -> l !! k = Some n -> idx_height (cn_index n) = idx_height p + 1 + Z.of_nat k.
Proof.
  revert pid p k. induction l as [|m l IH]; intros pid p k HP Hk; [done|]. destruct HP as (_ & [Hh _] & _ & _ & HP).
  destruct k as [|k]; [injection Hk as ->; lia|]. apply (IH _ _ _ HP) in Hk. lia.
Qed.

(** The identifiers of the nodes of a discovered path are distinct. *)
Lemma path_nodup s id cur f new fid fr :
  found_fork s id cur f new fid fr ->
  (st_index s !! id = None \/ exists r0, st_index s !! id = Some r0 /\ same_node r0 cur) -> NoDup (map cn_id new).
Proof.
  intros [F1 F2 F3 F4 F5 F6 F7 F8] Hk. apply NoDup_alt. intros i j x Hi Hj.
  change (map cn_id new) with (cn_id <$> new) in *.
  apply list_lookup_fmap_Some in Hi as (n & -> & Hn). apply list_lookup_fmap_Some in Hj as (m & E & Hm).
  assert (idx_height (cn_index n) = idx_height (cn_index m)) as Eh.
  { rewrite Forall_forall in F5.
    destruct (F5 n) as [->|Hsn]; [by eapply list_elem_of_lookup_2| |]; (destruct (F5 m) as [->|Hsm]; [by eapply list_elem_of_lookup_2| |]);
      cbn in *; [done| | |congruence].
    - rewrite <- E in Hsm. destruct Hk as [?|(r0 & Hr0 & (_ & _ & -> & _))]; congruence.
    - rewrite E in Hsn. destruct Hk as [?|(r0 & Hr0 & (_ & _ & -> & _))]; congruence. }
  rewrite (path_heights _ _ _ _ _ F3 Hn), (path_heights _ _ _ _ _ F3 Hm) in Eh. lia.
Qed.

(** The loaded candidates form a linked path of good nodes. *)
Lemma loaded_candidates (db : DB) s id cur f new fid fr cb cands :
  stores db s -> found_fork s id cur f new fid fr ->
  (st_index s !! id = None \/ exists r0, st_index s !! id = Some r0 /\ same_node r0 cur) ->
  index_typed cur -> block_storable cb -> Forall2 (fun n rc => load_candidate db id cb n = Ok rc) new cands ->
  linked fid fr cands /\ Forall (cand_ok (st_index s)) cands /\ map rc_id cands = map cn_id new /\
  map rc_index cands = map cn_index new.
Proof.
  intros HS [F1 F2 F3 F4 F5 F6 F7 F8] Hk Ht Hb HL.
  assert (Forall2 (fun n rc => rc_id rc = cn_id n /\ rc_index rc = cn_index n /\ block_id (header (rc_block rc)) = cn_id n /\
    header (rc_block rc) = idx_header (cn_index n) /\ (rc_block rc = cb \/ st_blocks s !! cn_id n = Some (rc_block rc))) new cands) as HL2.
  { eapply Forall2_impl; [exact HL|]. intros n rc. by apply load_candidate_spec. }
  clear HL F1 F2 F4 F6 F7 F8. revert fid fr F3. induction HL2 as [|n rc new cands (E1 & E2 & E3 & E4 & E5) HL IH]; intros fid fr F3.
  { split_and!; [done|constructor|done|done]. }
  destruct F3 as (P1 & P2 & P3 & P4 & P5). apply Forall_cons in F5 as [F5 F5'].
  destruct (IH F5' _ _ P5) as (I1 & I2 & I3 & I4). split_and!; [|constructor; [|done]|cbn; congruence|cbn; congruence].
  - cbn [linked]. rewrite E1, E2. done.
  - split.
    + congruence.
    + congruence.
    + rewrite E2, E4. done.
    + rewrite E1, E2. destruct F5 as [->|F5]; [exact Hk|]. right. by eexists.
    + rewrite E2. destruct F5 as [->|F5]; [done|]. by apply (typed_index _ (law_typed _ _ HS)) in F5 as (_ & _ & ?).
    + destruct E5 as [->|E5]; [done|]. by apply (typed_blocks _ (law_typed _ _ HS)) in E5 as [_ ?].
Qed.

End Plan.

(** ** The stores of a reorganisation *)

Section Stores.
Context `{Blake3} {V : Type} `{!SpendVerifier V} {KB : KnownBlocks}.
Variable config : ChainConfig.
Variable verifier : V.

(** The store with the active heights above [f] removed. *)
Definition cut (f : Z) (s : Store) : Store :=
  MkStore (st_blocks s) (st_index s) (st_utxos s) (st_undo s) (filter (fun p => p.1 <= f) (st_active s)) (st_tip s)
    (st_header_tip s) (st_anchor s) (st_genesis s) (st_health s) (st_cursor s).

Lemma rewound_cut f id utxos w s : rewound f id utxos s = at_tip utxos (MkTip id f w) (cut f s).
Proof. done. Qed.

Lemma delete_heights_store l batch s :
  apply_batch (foldl (fun batch h => delete_active_height h batch) batch l) s =
  let s1 := apply_batch batch s in
  MkStore (st_blocks s1) (st_index s1) (st_utxos s1) (st_undo s1) (foldl (fun ac h => delete h ac) (st_active s1) l) (st_tip s1)
    (st_header_tip s1) (st_anchor s1) (st_genesis s1) (st_health s1) (st_cursor s1).
Proof.
  revert batch. induction l as [|h l IH]; intros batch; cbn [foldl].
  { cbn. by destruct (apply_batch batch s). }
  rewrite IH. unfold delete_active_height. rewrite apply_batch_app. by destruct (apply_batch batch s).
Qed.

Lemma delete_heights_lookup l (ac : gmap Z Hash256) h :
  foldl (fun ac h => delete h ac) ac l !! h = if decide (h ∈ l) then None else ac !! h.
Proof.
  revert ac. induction l as [|x l IH]; intros ac; cbn [foldl]; [by rewrite decide_False by apply not_elem_of_nil|].
  rewrite IH. destruct (decide (h ∈ l)); [by rewrite decide_True by (by right)|].
  destruct (decide (h = x)) as [->|Hne]; [by rewrite lookup_delete_eq, decide_True by (by left)|].
  rewrite lookup_delete_ne by done. rewrite decide_False; [done|]. by intros [|]%elem_of_cons.
Qed.

(** Deleting the replaced heights cuts the chain at the fork. *)
Lemma delete_heights_cut s tip f :
  active_ok config s tip ->
  apply_batch (foldl (fun batch h => delete_active_height h batch) StorageBatch_new
                 (seqZ (f + 1) (ct_height tip - f))) s = cut f s.
Proof.
  intros HA. rewrite delete_heights_store. cbn. unfold cut. f_equal. apply map_eq. intros h.
  rewrite delete_heights_lookup, lookup_cut. destruct (decide (h <= f)) as [Hh|Hh].
  - rewrite decide_False; [done|]. rewrite elem_of_seqZ. lia.
  - case_decide as Hin; [done|]. rewrite elem_of_seqZ in Hin. apply (ac_outside _ _ _ HA). lia.
Qed.

Lemma put_nodes_store (l : list (ReorgCandidate * BlockUndo)) batch s :
  Forall (fun p => rc_id p.1 = block_id (header (rc_block p.1)) /\ idx_header (rc_index p.1) = header (rc_block p.1)) l ->
  apply_batch (foldl (fun batch p =>
      let '(node, undo) := p in
      let batch := put_block (rc_block node) batch in
      let batch := put_index (mark_active (rc_index node)) batch in
      let batch := put_undo (rc_id node) undo batch in
      set_active_height (idx_height (rc_index node)) (rc_id node) batch) batch l) s
  = foldl put_node (apply_batch batch s) l.
Proof.
  intros HF. revert batch. induction HF as [|[n u] l [E1 E2] HF IH]; intros batch; [done|]. cbn [foldl]. rewrite IH. f_equal.
  unfold set_active_height, put_undo, put_index, put_block. rewrite !apply_batch_app. cbn [fst] in *.
  destruct (apply_batch batch s). cbn. by rewrite E2, <- E1.
Qed.

(** The outputs and the tip of the final batch. *)
Lemma reorg_store s tip f cands us delta staged tip' :
  active_ok config s tip -> delta_from (st_utxos s) staged delta ->
  Forall (fun n => rc_id n = block_id (header (rc_block n)) /\ idx_header (rc_index n) = header (rc_block n)) cands ->
  apply_batch (set_tip (tip_id tip') (ct_height tip') (reorg_batch f (ct_height tip) cands us delta)) s =
  at_tip staged tip' (foldl put_node (cut f s) (zip cands us)).
Proof.
  intros HA HD HF. unfold set_tip, reorg_batch. rewrite apply_batch_app, apply_utxo_delta_store.
  rewrite put_nodes_store.
  2: { rewrite Forall_forall in HF. apply Forall_forall. intros [n u] Hin. cbn. apply HF. by eapply elem_of_zip_l. }
  rewrite (delete_heights_cut s tip f HA). cbn zeta.
  assert (st_utxos (foldl put_node (cut f s) (zip cands us)) = st_utxos s) as E.
  { change (st_utxos s) with (st_utxos (cut f s)). generalize (cut f s). induction (zip cands us) as [|[n u] l IH]; intros s0; [done|].
    cbn [foldl]. by rewrite IH. }
  rewrite E, HD. destruct (foldl put_node (cut f s) (zip cands us)). done.
Qed.

Lemma reorg_batch_typed f th cands us delta ix :
  0 <= f -> in_u64 th -> Forall (cand_ok ix) cands -> Forall undo_typed us -> delta_typed delta ->
  Forall op_typed (reorg_batch f th cands us delta).
Proof.
  intros Hf Hth HF HU HD. unfold reorg_batch. rewrite apply_utxo_delta_ops. apply Forall_app. split; [|by apply delta_ops_typed].
  assert (Forall op_typed (foldl (fun batch height => delete_active_height height batch) StorageBatch_new (seqZ (f + 1) (th - f)))) as H0.
  { assert (Forall in_u64 (seqZ (f + 1) (th - f))) as Hs.
    { apply Forall_forall. intros h Hh%elem_of_seqZ. unfold_ints. lia. }
    assert (Forall op_typed StorageBatch_new) as Hb by constructor. revert Hb. generalize StorageBatch_new.
    induction Hs as [|h l Hh Hs IH]; intros batch Hb; [done|]. cbn [foldl]. apply IH. unfold delete_active_height.
    apply Forall_app. split; [done|]. by constructor. }
  revert H0. generalize (foldl (fun batch height => delete_active_height height batch) StorageBatch_new (seqZ (f + 1) (th - f))).
  revert us HU. induction HF as [|n cands [C1 C2 C3 C4 C5 C6] HF IH]; intros us HU batch Hb; [by destruct us|].
  destruct us as [|u us]; [done|]. apply Forall_cons in HU as [Hu HU]. cbn [zip zip_with foldl]. apply IH; [done|].
  unfold set_active_height, put_undo, put_index, put_block. rewrite !Forall_app, !Forall_singleton.
  split_and!; [done|exact C6|exact C5|exact Hu|apply C5].
Qed.

(** The preferred header tip after the candidates became active. *)
Lemma headers_ok_reorg s ht fid fr cands us n (raw s' : Store) :
  headers_ok s ht -> linked fid fr cands -> Forall (cand_ok (st_index s)) cands -> NoDup (map rc_id cands) ->
  length us = length cands -> last cands = Some n ->
  st_index raw = st_index s -> st_index s' = st_index (foldl put_node raw (zip cands us)) ->
  headers_ok s' (htip_after ht (rc_index n) (rc_id n)).
Proof.
  intros [(rt & Ht & Hh & Hw) HM] HL HF HN Hlen Hlast Eraw Eix. rewrite Forall_forall in HF.
  assert (map (fun p => mark_active (rc_index p.1)) (zip cands us) = map (fun n => mark_active (rc_index n)) cands) as Ez.
  { clear -Hlen. revert us Hlen. induction cands as [|x l IH]; intros [|u us] Hlen; try done. cbn. f_equal. apply IH. cbn in Hlen. lia. }
  assert (forall m, m ∈ cands -> rec_id (mark_active (rc_index m)) = rc_id m) as Eid.
  { intros m Hm. destruct (HF _ Hm) as [C1 C2 _ _ _ _]. unfold rec_id. cbn. by rewrite C2, C1. }
  rewrite put_node_index, Ez, Eraw in Eix.
  2: { apply Forall_forall. intros [m u] Hin%elem_of_zip_l. cbn. symmetry. by apply Eid. }
  assert (NoDup (map rec_id (map (fun n => mark_active (rc_index n)) cands))) as HN'.
  { rewrite map_map. erewrite map_ext_in; [exact HN|]. intros m Hm. apply Eid. by apply list_elem_of_In. }
  destruct (htip_after_work ht (rc_index n) (rc_id n)) as [W1 W2].
  assert (n ∈ cands) as Hn by (by apply last_Some_elem_of). split.
  - unfold htip_after. destruct (work_gtb _ _); cbn [htip_id htip_height htip_work].
    + exists (mark_active (rc_index n)). rewrite Eix, <- Eid by done. split; [|done]. apply put_all_in; [done|].
      by apply (list_elem_of_fmap_2 (fun n => mark_active (rc_index n))).
    + rewrite Eix. destruct (decide (htip_id ht ∈ map rec_id (map (fun n => mark_active (rc_index n)) cands))) as [Hin|Hin].
      * apply list_elem_of_fmap in Hin as (r & E & (m & -> & Hm)%list_elem_of_fmap).
        exists (mark_active (rc_index m)). rewrite E, put_all_in; [|done|by apply (list_elem_of_fmap_2 (fun n => mark_active (rc_index n)))].
        rewrite Eid in E by done. destruct (HF _ Hm) as [_ _ _ [Hk|(r0 & Hr0 & (_ & _ & E1 & E2))] _ _]; [congruence|].
        rewrite <- E, Ht in Hr0. injection Hr0 as <-. cbn. split_and!; [done|congruence|congruence].
      * exists rt. by rewrite put_all_other.
  - intros id r Hr Hv. rewrite Eix in Hr. apply put_all_inv in Hr as [[Hin _]|[_ Hr]]; [| |done].
    + apply list_elem_of_fmap in Hin as (m & -> & Hm). destruct (linked_work _ _ _ _ HL Hm) as [_ (x & Hx & Hle)].
      rewrite Hlast in Hx. injection Hx as <-. cbn. lia.
    + specialize (HM _ _ Hr Hv). lia.
Qed.

(** Putting known records, or new ones under stored parents. *)
Lemma put_all_grows_stored l ix :
  NoDup (map rec_id l) ->
  Forall (fun r => ix !! rec_id r = None \/ exists r0, ix !! rec_id r = Some r0 /\ same_node r0 r) l ->
  Forall (fun r => (exists r0, ix !! rec_id r = Some r0) \/ exists p, ix !! idx_parent r = Some p /\ follows p r) l ->
  index_grows ix (put_all l ix).
Proof.
  intros HN HK HF. apply put_all_grows; [done|done|]. eapply Forall_impl; [exact HF|].
  intros r [?|(p & Hp & Hf)]; [by left|]. right.
  destruct (decide (idx_parent r ∈ map rec_id l)) as [Hin|Hin]; [|exists p; by rewrite put_all_other].
  apply list_elem_of_fmap in Hin as (q & E & Hq). exists q. rewrite E, put_all_in by done. split; [done|].
  rewrite Forall_forall in HK. destruct (HK _ Hq) as [?|(r0 & Hr0 & HS)]; [congruence|].
  eapply follows_same; [|done|exact Hf]. congruence.
Qed.

Lemma invalid_batch_puts cid inv s :
  apply_batch (invalid_batch cid inv) s =
  MkStore (st_blocks s) (put_all (map (mark_invalid cid) inv) (st_index s)) (st_utxos s) (st_undo s) (st_active s) (st_tip s)
    (st_header_tip s) (st_anchor s) (st_genesis s) (st_health s) (st_cursor s).
Proof.
  unfold invalid_batch.
  assert (forall batch, foldl (fun batch node => put_index (mark_invalid cid node) batch) batch inv
    = foldl (fun batch r => put_index r batch) batch (map (mark_invalid cid) inv)) as ->.
  { induction inv as [|n inv IH]; intros batch; [done|]. cbn [foldl map]. apply IH. }
  rewrite put_index_batch. done.
Qed.

(** Marking nodes that are not active invalid keeps the invariant. *)
Lemma invalid_store_ok s tip ht cid inv :
  store_ok config verifier s tip ht -> NoDup (map rc_id inv) -> Forall (cand_ok (st_index s)) inv ->
  Forall (fun n => (exists r0, st_index s !! rc_id n = Some r0) \/
                   exists p, st_index s !! idx_parent (rc_index n) = Some p /\ follows p (rc_index n)) inv ->
  Forall (fun n => st_active s !! idx_height (rc_index n) <> Some (rc_id n)) inv ->
  store_ok config verifier (apply_batch (invalid_batch cid inv) s) tip ht.
Proof.
  intros [HK [(rt & Ht & Hh & Hw) HM] Hht HB] HN HF HP HA. rewrite invalid_batch_puts.
  rewrite Forall_forall in HF. rewrite Forall_forall in HP. rewrite Forall_forall in HA.
  assert (forall n, n ∈ inv -> rec_id (mark_invalid cid n) = rc_id n) as Eid.
  { intros m Hm. destruct (HF _ Hm) as [C1 C2 _ _ _ _]. unfold rec_id. cbn. by rewrite C2, C1. }
  assert (NoDup (map rec_id (map (mark_invalid cid) inv))) as HN'.
  { rewrite map_map. erewrite map_ext_in; [exact HN|]. intros m Hm. apply Eid. by apply list_elem_of_In. }
  assert (index_grows (st_index s) (put_all (map (mark_invalid cid) inv) (st_index s))) as HG.
  { apply put_all_grows_stored; [done|apply Forall_forall..].
    - intros r (n & -> & Hn)%list_elem_of_fmap. rewrite Eid by done. by destruct (HF _ Hn) as [_ _ _ C4 _ _].
    - intros r (n & -> & Hn)%list_elem_of_fmap. rewrite Eid by done. by apply HP. }
  split.
  - eapply path_ok_update; [exact HK|exact HG| |done|done|done|done]. cbn [st_index]. intros h id r' Hh' Hr'.
    destruct (active_record _ _ _ _ _ (pk_active _ _ _ _ HK) Hh') as (r & Hr & Hrh & Hv & _).
    apply put_all_inv in Hr' as [[Hin ->]|[_ Hr']]; [|congruence|done]. exfalso.
    apply list_elem_of_fmap in Hin as (n & -> & Hn). rewrite Eid in * by done. apply (HA _ Hn).
    destruct (HF _ Hn) as [_ _ _ [?|(r0 & Hr0 & (_ & _ & E1 & _))] _ _]; [congruence|].
    rewrite Hr in Hr0. injection Hr0 as <-. by rewrite E1, Hrh.
  - destruct HG as [G1 _]. split.
    + destruct (G1 _ _ Ht) as (r' & Hr' & (_ & _ & E1 & E2)). exists r'. split_and!; [done|congruence|congruence].
    + intros id r' Hr' Hv. cbn [st_index] in Hr'. apply put_all_inv in Hr' as [[Hin ->]|[_ Hr']]; [|by eapply HM|done].
      by apply list_elem_of_fmap in Hin as (n & -> & Hn).
  - exact Hht.
  - exact HB.
Qed.

End Stores.

(** ** The operations *)

Section Reorganize.
Context `{Blake3} {DB : Type} `{!BlockStore DB} `{!BlockStoreLaws DB} `{!RandomX} {V : Type} `{!SpendVerifier V} {KB : KnownBlocks}.
Variable config : ChainConfig.
Variable verifier : V.

Abbreviation store_ok := (store_ok config verifier).
Abbreviation txid_reused := (txid_reused config verifier).
Abbreviation mirrors := (mirrors config verifier).
Abbreviation chain_ok := (chain_ok config verifier).
Abbreviation op_post := (op_post config verifier).
Abbreviation placed := (placed config verifier).

(** A loaded plan and the facts that hold of it. *)
Record plan_ok (s : Store) (tip : Tip) (b : Block) (cur : BlockIndexRecord) (plan : ReorgPlan) (fid : Hash256)
  (fr : BlockIndexRecord) : Prop := MkPlanOk {
  po_range : 0 <= plan_fork_height plan <= ct_height tip;
  po_active : st_active s !! plan_fork_height plan = Some fid;
  po_fork : plan_candidate plan = [] \/ st_index s !! fid = Some fr;
  po_height : idx_height fr = plan_fork_height plan;
  po_old_length : Z.of_nat (length (plan_old_active plan)) = ct_height tip - plan_fork_height plan;
  po_old i p : plan_old_active plan !! i = Some p ->
    st_active s !! (ct_height tip - Z.of_nat i) = Some p.1 /\ st_undo s !! p.1 = Some p.2;
  po_linked : linked fid fr (plan_candidate plan);
  po_cands : Forall (cand_ok (st_index s)) (plan_candidate plan);
  po_nodup : NoDup (map rc_id (plan_candidate plan));
  po_inactive : Forall (fun n => st_active s !! idx_height (rc_index n) <> Some (rc_id n)) (plan_candidate plan);
  po_parents : Forall (fun n => (exists r0, st_index s !! rc_id n = Some r0) \/
      exists p, st_index s !! idx_parent (rc_index n) = Some p /\ follows p (rc_index n)) (plan_candidate plan);
  po_given : Forall (fun n => known (rc_block n)) (plan_candidate plan);
  po_last : plan_candidate plan = [] \/
    exists n, last (plan_candidate plan) = Some n /\ rc_id n = block_id (header b) /\ rc_index n = cur;
}.

Lemma forall_map_index (P : Hash256 -> BlockIndexRecord -> Prop) (cands : list ReorgCandidate) (new : list CandidateNode) :
  map rc_id cands = map cn_id new -> map rc_index cands = map cn_index new ->
  Forall (fun n => P (cn_id n) (cn_index n)) new -> Forall (fun n => P (rc_id n) (rc_index n)) cands.
Proof.
  revert new. induction cands as [|c cands IH]; intros [|n new] E1 E2 HF; try done.
  cbn in E1, E2. injection E1 as E1 E1'. injection E2 as E2 E2'. apply Forall_cons in HF as [HF HF'].
  constructor; [by rewrite E1, E2|]. by eapply IH.
Qed.

Lemma load_plan_ok st s b i d plan :
  mirrors st s -> placeable s b i ->
  discover_fork (cs_db st) (block_id (header b)) (with_body_retained i) = Ok d ->
  fork_height d <= ct_height (cs_tip st) ->
  load_reorg_plan (cs_db st) (ct_height (cs_tip st)) d (block_id (header b)) b = Ok plan ->
  exists fid fr, plan_ok s (cs_tip st) b (with_body_retained i) plan fid fr.
Proof.
  intros (Hc & HS & [HK HH Hht HB] & HU) [P1 P2 P3 P4 P5 P6 P7 P8] Hd Hle Hl.
  apply (discover_fork_spec _ _ _ _ _ HS) in Hd as (fid & fr & HFF); [|apply P5]. pose proof HFF as [F1 F2 F3 F4 F5 F6 F7 F8].
  pose proof (active_in_range _ _ _ _ _ (pk_active _ _ _ _ HK) F1) as HR.
  assert (in_u64 (ct_height (cs_tip st))) as Hu by (apply (typed_tip _ (law_typed _ _ HS) (tip_id (cs_tip st))); apply HK).
  unfold load_reorg_plan in Hl. destruct (load_old_active _ _ _) as [old|] eqn:Eo; [|done].
  destruct (try_map _ _) as [cands|] eqn:Ec; [|done]. injection Hl as <-.
  apply (load_old_active_spec _ _ _ _ _ HS) in Eo as [O1 O2]; [|lia|done]. apply try_map_Forall2 in Ec.
  assert (st_index s !! block_id (header b) = None \/
    exists r0, st_index s !! block_id (header b) = Some r0 /\ same_node r0 (with_body_retained i)) as Hkn.
  { destruct P4 as [?|(r0 & ? & ? & _)]; [by left|right; eauto]. }
  destruct (loaded_candidates _ _ _ _ _ _ _ _ _ _ HS HFF Hkn P5 P6 Ec) as (L1 & L2 & L3 & L4).
  exists fid, fr. split; cbn [plan_fork_height plan_old_active plan_candidate].
  - lia.
  - done.
  - destruct F6 as [E|?]; [|by right]. left. rewrite E in Ec. by inversion Ec.
  - done.
  - lia.
  - exact O2.
  - exact L1.
  - exact L2.
  - rewrite L3. by eapply path_nodup.
  - apply (forall_map_index (fun id r => st_active s !! idx_height r <> Some id) cands _ L3 L4). exact F7.
  - apply (forall_map_index (fun id r => (exists r0, st_index s !! id = Some r0) \/
        exists p, st_index s !! idx_parent r = Some p /\ follows p r) cands _ L3 L4).
    eapply Forall_impl; [exact F5|]. intros n [->|Hn]; [right; exact P3|left; eauto].
  - apply Forall_forall. intros n Hn. apply list_elem_of_lookup in Hn as [k Hk].
    destruct (Forall2_lookup_r _ _ _ _ _ Ec Hk) as (x & _ & (_ & _ & _ & _ & [-> | Hb])%(load_candidate_spec _ _ _ _ _ _ HS)); [done|].
    by eapply HB.
  - unfold path_end in F4. destruct (last (fork_candidate d)) as [n|] eqn:El.
    + right. injection F4 as E1 E2.
      assert (last (map rc_id cands) = Some (cn_id n)) as H1 by (rewrite L3; change (map cn_id (fork_candidate d)) with (cn_id <$> fork_candidate d); by rewrite fmap_last, El).
      assert (last (map rc_index cands) = Some (cn_index n)) as H2 by (rewrite L4; change (map cn_index (fork_candidate d)) with (cn_index <$> fork_candidate d); by rewrite fmap_last, El).
      change (map rc_id cands) with (rc_id <$> cands) in H1. change (map rc_index cands) with (rc_index <$> cands) in H2.
      rewrite fmap_last in H1. rewrite fmap_last in H2. destruct (last cands) as [m|]; [|done]. injection H1 as H1. injection H2 as H2.
      exists m. split_and!; [done|congruence|congruence].
    + left. apply last_None in El. rewrite El in Ec. by inversion Ec.
Qed.

(** The undo records of the plan are those of the replayed chain. *)
Lemma old_undos s tip plan b cur fid fr c :
  plan_ok s tip b cur plan fid fr -> is_active_chain s tip c ->
  map snd (plan_old_active plan) = map snd (take (length (plan_old_active plan)) c).
Proof.
  intros HP [HL HC]. pose proof (po_old_length _ _ _ _ _ _ _ HP) as Hlen. pose proof (po_range _ _ _ _ _ _ _ HP) as HR.
  apply list_eq_same_length with (length (plan_old_active plan)); rewrite ?length_map, ?length_take; [lia|done|].
  intros i x y Hi Hx Hy. change (map snd (plan_old_active plan)) with ((plan_old_active plan).*2) in Hx.
  change (map snd (take (length (plan_old_active plan)) c)) with ((take (length (plan_old_active plan)) c).*2) in Hy.
  apply list_lookup_fmap_Some in Hx as (p & -> & Hp). apply list_lookup_fmap_Some in Hy as ([b' u'] & -> & Hb).
  apply lookup_take_Some in Hb as [Hb _]. apply (po_old _ _ _ _ _ _ _ HP) in Hp as [A1 A2]. apply HC in Hb as [B1 B2].
  rewrite A1 in B1. injection B1 as B1. cbn. apply B2. by rewrite <- B1.
Qed.

(** The blocks of connected nodes are known. *)
Lemma put_nodes_known (cands : list ReorgCandidate) us raw id b :
  Forall (fun n => known (rc_block n)) cands -> (forall id b, st_blocks raw !! id = Some b -> known b) ->
  st_blocks (foldl put_node raw (zip cands us)) !! id = Some b -> known b.
Proof.
  intros HF. revert us raw. induction HF as [|n cands Hn HF IH]; intros [|u us] raw HB; [apply HB..|].
  cbn [zip zip_with foldl]. apply IH. cbn. intros k b' [[_ <-]|[_ Hb]]%lookup_insert_Some; [done|by eapply HB].
Qed.

Lemma invalid_batch_typed ix cid inv : Forall (cand_ok ix) inv -> Forall op_typed (invalid_batch cid inv).
Proof.
  intros HF. unfold invalid_batch. assert (Forall op_typed StorageBatch_new) as Hb by constructor. revert Hb. generalize StorageBatch_new.
  induction HF as [|n inv [C1 C2 C3 C4 C5 C6] HF IH]; intros batch Hb; [done|]. cbn [foldl]. apply IH.
  unfold put_index. apply Forall_app. split; [done|]. constructor; [exact C5|constructor].
Qed.

(** A candidate that does not connect is marked invalid. *)
Lemma mark_invalid_post st s b cur plan fid fr e inv pre :
  mirrors st s -> plan_ok s (cs_tip st) b cur plan fid fr -> plan_candidate plan = pre ++ inv ->
  op_post (placed st b) st
    (eff_bind (commit_batch (invalid_batch (block_id (header b)) inv)) (fun _ => eff_fail (ChainStateError.Utxo e)) st).
Proof.
  intros HM [_ _ _ _ _ _ _ O1 O2 O3 O4 _ _] Ep. rewrite Ep in *. apply Forall_app in O1 as [_ O1], O3 as [_ O3], O4 as [_ O4].
  rewrite map_app in O2. apply NoDup_app in O2 as (_ & _ & O2). pose proof HM as (Hc & HS & HK & HU).
  pose proof (invalid_store_ok config verifier s _ _ (block_id (header b)) inv HK O2 O1 O4 O3) as HK'.
  eapply commit_post; [exact HM| |exact HK'|].
  - by eapply invalid_batch_typed.
  - intros db' HS'. assert (chain_ok (with_db db' st)) as HX.
    { eexists. split_and!; [done|exact HS'|exact HK'|]. by rewrite invalid_batch_puts. }
    split; [by eapply chain_ok_durable|]. done.
Qed.

Lemma apply_reorg_plan_post st s b cur plan fid fr :
  mirrors st s -> plan_ok s (cs_tip st) b cur plan fid fr ->
  work_value (tip_work (cs_tip st)) < work_value (idx_work cur) ->
  op_post (placed st b) st (apply_reorg_plan plan (block_id (header b)) verifier st) \/ txid_reused.
Proof.
  intros HM HPL Hw. pose proof HM as (Hc & HS & HK & HU). pose proof HK as [HKP HH Hht HB].
  assert (chain_ok st) as HC by (by exists s).
  pose proof (pk_ledger _ _ _ _ HKP) as (c & HR & HCh).
  pose proof (old_undos _ _ _ _ _ _ _ _ HPL HCh) as HOld. pose proof HPL as [O1 O2 O3 O4 O5 O6 O7 O8 O9 O10 O11 OG O12].
  destruct plan as [f old cands]. cbn [plan_fork_height plan_old_active plan_candidate] in *. unfold apply_reorg_plan.
  destruct cands as [|n0 cands0] eqn:Ecs; [left; by apply post_err|]. rewrite <- Ecs in *.
  destruct O3 as [?|Hfr]; [congruence|]. destruct O12 as [?|(n & Hlast & Hnid & Hnidx)]; [congruence|].
  rewrite bind_read, <- HU. destruct (disconnect_all old (st_utxos s)) as [[staged delta]|e] eqn:ED; [|left; by apply post_err].
  assert (utxos_typed (st_utxos s)) as HUt by (intros o e; apply (typed_utxos _ (law_typed _ _ HS))).
  rewrite <- (take_drop (length old) c) in HR.
  assert (Forall undo_typed (map snd old)) as HUn.
  { apply Forall_forall. intros u (p & -> & Hp)%list_elem_of_fmap. apply list_elem_of_lookup in Hp as [k Hk].
    apply O6 in Hk as [_ Hk]. by eapply (typed_undo _ (law_typed _ _ HS)). }
  destruct (disconnect_all_spec config verifier _ _ _ _ _ _ HR HOld HUt HUn ED) as (HR2 & HD & HDt & HSt).
  assert (path_ok config verifier (at_tip staged (MkTip fid f (idx_work fr)) (cut f s)) (MkTip fid f (idx_work fr))) as HP0.
  { rewrite <- rewound_cut. destruct HCh as [HCl HCc].
    eapply (path_ok_rewind config verifier s (cs_tip st) f fid fr (take (length old) c) (drop (length old) c)); try done.
    - rewrite take_drop. by split.
    - rewrite length_drop. lia. }
  rewrite bind_read, Hc.
  destruct (connect_all_post config verifier cands staged delta [] (cut f s) (MkTip fid f (idx_work fr)) (st_utxos s) fr fr)
    as [HX|?]; try done; [|by right].
  left. unfold connect_post in HX.
  destruct (connect_all (params config) verifier cands staged delta []) as [staged' delta' us|e inv|e];
    [|destruct HX as [pre Hpre]; by eapply (mark_invalid_post st s b cur (MkReorgPlan f old cands))|subst e; by apply post_err].
  destruct HX as (us' & -> & Hlen & HPN & HD' & HDt' & HUs). cbn [app] in *.
  rewrite bind_lift, Hlast. cbn [ok_or]. rewrite bind_read. cbn zeta. rewrite bind_lift.
  assert (in_u64 (ct_height (cs_tip st))) as Hu by (apply (typed_tip _ (law_typed _ _ HS) (tip_id (cs_tip st))); apply HKP).
  destruct (checked_add U64_MAX f 1) as [f1|] eqn:Ef; [|by apply post_err]. cbn [ok_or]. rewrite bind_read.
  unfold last_tip in HPN. rewrite Hlast in HPN. set (tip' := MkTip (rc_id n) (idx_height (rc_index n)) (idx_work (rc_index n))) in *.
  set (pref := work_gtb (idx_work (rc_index n)) (htip_work (cs_header_tip st))).
  assert (Forall (fun n => rc_id n = block_id (header (rc_block n)) /\ idx_header (rc_index n) = header (rc_block n)) cands) as HFc.
  { eapply Forall_impl; [exact O8|]. by intros x [C1 C2 _ _ _ _]. }
  set (batch := prefer pref (rc_id n) (idx_height (rc_index n))
    (set_tip (rc_id n) (idx_height (rc_index n)) (reorg_batch f (ct_height (cs_tip st)) cands us' delta'))).
  assert (apply_batch batch s = prefer_store pref (rc_id n) (idx_height (rc_index n))
    (at_tip staged' tip' (foldl put_node (cut f s) (zip cands us')))) as EB.
  { pose proof (reorg_store config s (cs_tip st) f cands us' delta' staged' tip' (pk_active _ _ _ _ HKP) HD' HFc) as ER.
    unfold batch, prefer, prefer_store. destruct pref; [|exact ER]. unfold set_preferred_header_tip. rewrite apply_batch_app.
    cbn [tip' tip_id ct_height] in ER. rewrite ER. done. }
  assert (store_ok (apply_batch batch s) tip' (htip_after (cs_header_tip st) (rc_index n) (rc_id n))) as HK'.
  { rewrite EB. apply store_ok_prefer; [exact HPN| | |intros k b'; cbn [at_tip st_blocks]; by apply put_nodes_known].
    - eapply (headers_ok_reorg s (cs_header_tip st) fid fr cands us' n (cut f s)); done.
    - rewrite <- Hht. cbn [at_tip st_header_tip]. clear. change (st_header_tip s) with (st_header_tip (cut f s)).
      generalize (cut f s). induction (zip cands us') as [|[x u] l IH]; intros s0; [done|]. cbn [foldl]. by rewrite IH. }
  apply (commit_post config verifier _ st s batch _ tip' (htip_after (cs_header_tip st) (rc_index n) (rc_id n)) HM); [|exact HK'|].
  { assert (in_u64 (idx_height (rc_index n))) as Hun.
    { apply last_Some_elem_of in Hlast. eapply Forall_forall in O8 as [_ _ _ _ C5 _]; [apply C5|exact Hlast]. }
    pose proof (reorg_batch_typed f (ct_height (cs_tip st)) cands us' delta' _ (proj1 O1) Hu O8 HUs HDt') as HT.
    unfold batch, prefer, set_preferred_header_tip, set_tip. destruct pref; rewrite !Forall_app, !Forall_singleton; done. }
  intros db' HS'. rewrite bind_modify.
  enough (op_post (placed st b) st (Ok Reorganized, moved st db' (rc_index n) (rc_id n) staged')) as HX.
  { unfold moved, htip_after in HX. fold pref in HX. destruct pref; exact HX. }
  assert (chain_ok (moved st db' (rc_index n) (rc_id n) staged')) as HCO.
  { exists (apply_batch batch s). split_and!; [done|exact HS'|exact HK'|]. rewrite EB. unfold prefer_store. by destruct pref. }
  split; [by eapply chain_ok_durable|]. cbn [fst snd]. split_and!; [done|done|]. unfold placed.
  cbn [moved cs_tip cs_header_tip tip_id tip_work].
  split_and!; [done|by rewrite Hnidx|]. rewrite htip_after_heavier. by rewrite Hnid.
Qed.

(** Setting the health of the node changes nothing else. *)
Lemma store_ok_health s tip ht h : store_ok s tip ht -> store_ok (apply_op s (SetHealth h)) tip ht.
Proof.
  intros [HK [HH HM] Hht HB]. destruct s as [bl ix ux un ac tp htip an ge he cu]. split; [|by split|done|done].
  eapply path_ok_update; [exact HK|apply index_grows_refl| |done..]. cbn. intros k id r Hk Hr.
  destruct (active_record _ _ _ _ _ (pk_active _ _ _ _ HK) Hk) as (r' & Hr' & _ & Hv & _). cbn in Hr'. congruence.
Qed.

Lemma reorganize_post st s b i :
  mirrors st s -> placeable s b i -> work_value (tip_work (cs_tip st)) < work_value (idx_work i) ->
  op_post (placed st b) st (reorganize b (with_body_retained i) verifier st) \/ txid_reused.
Proof.
  intros HM HP Hw. pose proof HM as (Hc & HS & HK & HU). assert (chain_ok st) as HC by (by exists s).
  unfold reorganize. rewrite bind_read.
  destruct (discover_fork _ _ _) as [d|e] eqn:Ed; [|left; by apply post_err]. rewrite bind_read.
  destruct (checked_sub _ _) as [depth|] eqn:Es; [|left; by apply post_err]. cbn [ok_or]. apply checked_sub_Some in Es as [-> Hle].
  destruct (reorg_depth_allowed _); cbn [negb].
  - rewrite bind_read. destruct (load_reorg_plan _ _ _ _ _) as [plan|e] eqn:El; [|left; by apply post_err].
    destruct (load_plan_ok _ _ _ _ _ _ HM HP Ed Hle El) as (fid & fr & HPL). by eapply apply_reorg_plan_post.
  - left. eapply commit_post; [exact HM| |apply store_ok_health, HK|].
    { unfold set_health, StorageBatch_new. by repeat constructor. }
    intros db' HS'. rewrite bind_modify.
    assert (chain_ok (with_session SessionReindexRequired (with_db db' st))) as HX.
    { exists (apply_op s (SetHealth NodeReindexRequired)). split_and!; [done|exact HS'|by apply store_ok_health|]. by destruct s. }
    split; [by eapply chain_ok_durable|]. done.
Qed.

Lemma place_block_post st s b i :
  mirrors st s -> placeable s b i -> op_post (placed st b) st (place_block b i verifier st) \/ txid_reused.
Proof.
  intros HM HP. unfold place_block. rewrite bind_read. case_bool_decide as Hpar; [by eapply extend_active_post|].
  rewrite bind_read. destruct (work_gtb _ _) eqn:Ew.
  - eapply reorganize_post; [exact HM|exact HP|]. by apply work_gtb_spec.
  - left. by eapply store_aside_post.
Qed.

(** What accepting a block guarantees: the outcome describes the new state,
    and a block that is already known changes nothing. *)
Definition accepted (st : ChainState DB) (b : Block) (o : AcceptOutcome) (st' : ChainState DB) : Prop :=
  placed st b o st' \/
  (st' = st /\ exists s r, mirrors st s /\ st_index s !! block_id (header b) = Some r /\ idx_validation r <> Invalid /\
     (o = Extended <-> block_id (header b) = tip_id (cs_tip st)) /\ o <> Reorganized).

Lemma known_placeable st s b r :
  mirrors st s -> block_storable b -> known b -> st_index s !! block_id (header b) = Some r ->
  idx_validation r = HeaderValidated -> idx_header r = header b -> placeable s b r.
Proof.
  intros (_ & HS & HK & _) Hb Hk Ef Ev Ehd. destruct (typed_index _ (law_typed _ _ HS) _ _ Ef) as (T1 & T2 & T3).
  split; try done; [by rewrite T2, Ehd| |].
  - destruct (pk_tree _ _ _ _ (ok_path _ _ _ _ _ HK) _ _ Ef) as [(_ & Ea & _)|?]; [|done]. exfalso.
    pose proof (ac_anchor _ _ _ (pk_active _ _ _ _ (ok_path _ _ _ _ _ HK))) as Hanc. rewrite <- Ea in Hanc.
    destruct (active_record _ _ _ _ _ (pk_active _ _ _ _ (ok_path _ _ _ _ _ HK)) Hanc) as (r' & Hr' & _ & Hv & _). congruence.
  - right. exists r. split_and!; done.
Qed.

Lemma accept_block_healthy_post st b :
  chain_ok st -> block_storable b -> known b -> op_post (accepted st b) st (accept_block_healthy b verifier st) \/ txid_reused.
Proof.
  intros HC Hb Hk. pose proof HC as (s & HM). pose proof HM as (Hc & HS & HK & HU).
  assert (forall p, op_post (placed st b) st p -> op_post (accepted st b) st p) as Hweak.
  { intros [[a|e] st'] [HD HX]; (split; [exact HD|]); cbn [fst snd] in *; [|exact HX].
    destruct HX as (H1 & H2 & H3). split_and!; [done|done|by left]. }
  unfold accept_block_healthy. rewrite bind_read.
  destruct (db_get_index (cs_db st) (block_id (header b))) as [found|e] eqn:Ef; cbn [storage map_err]; [|left; by apply post_err].
  apply (law_get_index _ _ _ _ HS) in Ef. destruct found as [r|].
  - symmetry in Ef. assert (idx_validation r <> Invalid -> op_post (accepted st b) st (Ok (existing_outcome st (block_id (header b))), st)) as Hex.
    { intros Hv. split; [by eapply chain_ok_durable|]. cbn [fst snd]. split_and!; [done|done|]. right. split; [done|]. exists s, r.
      unfold existing_outcome. case_bool_decide; split_and!; done. }
    destruct (idx_validation r) eqn:Ev; [|left; by apply Hex|left; by apply post_err].
    destruct (idx_body_retained r); [left; by apply Hex|].
    case_bool_decide as Ehd; [cbn [negb]|left; by apply post_err].
    destruct (place_block_post st s b r HM) as [?|?]; [by eapply known_placeable|left; by apply Hweak|by right].
  - rewrite bind_read. destruct (validate_candidate_header st (header b)) as [i|e] eqn:Ev; [|left; by apply post_err].
    destruct (validate_candidate_spec _ _ _ _ _ _ HM (proj1 (proj1 Hb)) Ev) as (E1 & E2 & E3 & E4 & HF).
    destruct (place_block_post st s b i HM) as [?|?]; [|left; by apply Hweak|by right]. split; try done. by left.
Qed.

End Reorganize.
