(* ===== verification/ChainOpen.v ===== *)
(** Pruning, bootstrapping and reopening keep the invariant of the chain
    state; pruning keeps what a permitted reorganisation reads; the loops that
    walk the tree end within the bounds used. *)
From S2P Require Import Prelude Encoding Transaction Block Difficulty Emission HeaderRules BlockRules Utxo Ledger Fresh.
From S2P Require Import Records StoreSpec ChainState Protocol Sync ChainRecovery ChainInv ChainProofs ChainReorg.

(** ** The loops that walk the tree *)

Section Loops.
Context `{Blake3} {DB : Type} `{!BlockStore DB}.

Lemma checked_index_get (db : DB) id r : checked_index db id = Ok r -> storage (db_get_index db id) = Ok (Some r).
Proof.
  unfold checked_index. destruct (storage (db_get_index db id)) as [[r0|]|]; [|done..]. cbn [ok_or].
  case_bool_decide; [done|]. cbn [negb]. destruct (_ =? 0); [destruct (bool_decide _); [by intros [= <-]|done]|].
  destruct (storage _) as [[q|]|]; [|done..]. cbn [ok_or]. destruct (negb _); [|done].
  destruct (checked_add U64_MAX (idx_height q) 1); [|done]. cbn [ok_or]. destruct (_ =? _); [|done].
  destruct (Target_from_le_bytes _); [|done]. cbn [map_err]. destruct (bool_decide _); [by intros [= <-]|done].
Qed.

(** A checked record above the anchor is one above its parent. *)
Lemma checked_index_parent (db : DB) id r p :
  checked_index db id = Ok r -> idx_height r <> 0 -> checked_index db (idx_parent r) = Ok p ->
  idx_height r = idx_height p + 1.
Proof.
  intros Hr H0 Hp. pose proof (checked_index_get _ _ _ Hr) as Er. apply checked_index_get in Hp as Ep.
  unfold checked_index in Hr. rewrite Er in Hr. cbn [ok_or] in Hr. destruct (negb _); [|done].
  destruct (Z.eqb_spec (idx_height r) 0) as [E0|_]; [done|]. rewrite Ep in Hr. cbn [ok_or] in Hr. destruct (negb _); [|done].
  destruct (checked_add U64_MAX (idx_height p) 1) as [h|] eqn:Eh; [|done].
  apply checked_add_Some in Eh as [-> _]. cbn [ok_or] in Hr. by destruct (Z.eqb_spec (idx_height r) (idx_height p + 1)).
Qed.

Lemma ancestor_loop_enough fuel : forall (db : DB) id r h,
  checked_index db id = Ok r -> 0 <= h -> (Z.to_nat (idx_height r - h) <= fuel)%nat ->
  ancestor_loop fuel db id r h = ancestor_loop (Z.to_nat (idx_height r - h)) db id r h.
Proof.
  induction fuel as [|fuel IH]; intros db id r h Hr Hh HF.
  { by replace (Z.to_nat (idx_height r - h)) with 0%nat by lia. }
  destruct (Z.gtb_spec (idx_height r) h) as [Hgt|Hle].
  2: { replace (Z.to_nat (idx_height r - h)) with 0%nat by lia. cbn [ancestor_loop]. destruct (Z.gtb_spec (idx_height r) h); [lia|done]. }
  replace (Z.to_nat (idx_height r - h)) with (S (Z.to_nat (idx_height r - 1 - h))) in * by lia. cbn [ancestor_loop].
  destruct (Z.gtb_spec (idx_height r) h); [|lia].
  destruct (checked_index db (idx_parent r)) as [p|] eqn:Ep; [|done].
  pose proof (checked_index_parent _ _ _ _ Hr ltac:(lia) Ep) as E.
  replace (idx_height r - 1 - h) with (idx_height p - h) in * by lia. apply IH; [done|done|lia].
Qed.

Lemma discover_loop_enough fuel : forall (db : DB) id r acc,
  0 <= idx_height r -> (Z.to_nat (idx_height r) <= fuel)%nat ->
  discover_loop fuel db id r acc = discover_loop (Z.to_nat (idx_height r)) db id r acc.
Proof.
  induction fuel as [|fuel IH]; intros db id r acc Hr HF.
  { by replace (Z.to_nat (idx_height r)) with 0%nat by lia. }
  destruct (Z.eqb_spec (idx_height r) 0) as [E|E].
  { rewrite E. change (Z.to_nat 0) with 0%nat. cbn [discover_loop]. rewrite E. cbn [Z.eqb negb].
    destruct (storage (db_active_id_at_height db 0)); [|done]. destruct (bool_decide _); [done|]. by destruct (negb _). }
  replace (Z.to_nat (idx_height r)) with (S (Z.to_nat (idx_height r - 1))) in * by lia. cbn [discover_loop].
  destruct (storage (db_active_id_at_height db (idx_height r))) as [a|]; [|done]. destruct (bool_decide _); [done|].
  destruct (negb _); [|done]. destruct (negb _); [|done].
  destruct (storage (db_get_index db (idx_parent r))) as [[p|]|]; [|done..]. cbn [ok_or].
  destruct (validate_parent_child (idx_parent r) p id r) as [[]|] eqn:Ev; [|done].
  apply parent_child_Ok in Ev as (_ & _ & _ & _ & _ & [Eh _]).
  replace (idx_height r - 1) with (idx_height p) in * by lia. apply IH; lia.
Qed.

Lemma discover_loop_succeeds fuel : forall (db : DB) id r a1 a2 d,
  discover_loop fuel db id r a1 = Ok d -> exists d', discover_loop fuel db id r a2 = Ok d'.
Proof.
  induction fuel as [|fuel IH]; intros db id r a1 a2 d; cbn [discover_loop];
    (destruct (storage (db_active_id_at_height db (idx_height r))) as [a|]; [|done]); (destruct (bool_decide _); [eauto|]);
    (destruct (negb _); [|done]); (destruct (negb _); [|done]);
    (destruct (storage (db_get_index db (idx_parent r))) as [[q|]|]; [|done..]); cbn [ok_or];
    (destruct (validate_parent_child _ _ _ _) as [[]|]; [|done]); [done|]. apply IH.
Qed.

(** What the loop accumulates does not change what it finds. *)
Lemma discover_loop_acc fuel : forall (db : DB) id r acc d,
  discover_loop fuel db id r acc = Ok d ->
  exists new, d = MkForkDiscovery (fork_height d) (new ++ rev acc) /\
              discover_loop fuel db id r [] = Ok (MkForkDiscovery (fork_height d) new).
Proof.
  induction fuel as [|fuel IH]; intros db id r acc d; cbn [discover_loop];
    (destruct (storage (db_active_id_at_height db (idx_height r))) as [a|]; [|done]);
    (destruct (bool_decide _); [intros [= <-]; by exists []|]);
    (destruct (negb _); [|done]); (destruct (negb _); [|done]);
    (destruct (storage (db_get_index db (idx_parent r))) as [[p|]|]; [|done..]); cbn [ok_or];
    (destruct (validate_parent_child _ _ _ _) as [[]|]; [|done]); [done|].
  intros Hd. destruct (IH _ _ _ _ _ Hd) as (new & -> & E). cbn [fork_height].
  destruct (discover_loop_succeeds fuel db (idx_parent r) p [] ([] ++ [MkCandidateNode id r]) _ E) as [d2 E2].
  destruct (IH _ _ _ _ _ E2) as (new2 & E3 & E4). rewrite E in E4. injection E4 as E4 <-. rewrite E2, E3, <- E4.
  exists (new ++ [MkCandidateNode id r]). rewrite rev_app_distr, <- app_assoc. done.
Qed.

End Loops.

(** ** Pruning *)

Section Prune.
Context `{Blake3} {DB : Type} `{!BlockStore DB} `{!BlockStoreLaws DB} `{!RandomX} {V : Type} `{!SpendVerifier V} {KB : KnownBlocks}.
Variable config : ChainConfig.
Variable verifier : V.

Abbreviation mirrors := (mirrors config verifier).
Abbreviation chain_ok := (chain_ok config verifier).
Abbreviation op_post := (op_post config verifier).

(** A node whose body a permitted reorganisation may need: it is not invalid,
    and the path from it to the active chain leaves it within the window. *)
Definition body_needed (db : DB) (s : Store) (h : Z) (id : Hash256) : Prop :=
  exists r d, st_index s !! id = Some r /\ idx_validation r <> Invalid /\ discover_fork db id r = Ok d /\
    retained_active_floor h <= idx_height r /\ 0 <= h - fork_height d <= REORG_WINDOW.

(** A node whose undo record a permitted reorganisation may need. *)
Definition undo_needed (s : Store) (h : Z) (id : Hash256) : Prop :=
  exists k, st_active s !! k = Some id /\ retained_active_floor h <= k <= h.

(** The stores pruning can lead to. *)
Record pruned (body undo : Hash256 -> Prop) (s s' : Store) : Prop := MkPruned {
  pr_grow id r : st_index s !! id = Some r ->
    exists r', st_index s' !! id = Some r' /\ same_node r r' /\ idx_validation r' = idx_validation r;
  pr_old id r' : st_index s' !! id = Some r' -> exists r, st_index s !! id = Some r;
  pr_undo id u : st_undo s' !! id = Some u -> st_undo s !! id = Some u;
  pr_active : st_active s' = st_active s;
  pr_utxos : st_utxos s' = st_utxos s;
  pr_tip : st_tip s' = st_tip s;
  pr_htip : st_header_tip s' = st_header_tip s;
  pr_body id : body id -> st_blocks s' !! id = st_blocks s !! id /\ st_index s' !! id = st_index s !! id;
  pr_keep id : undo id -> st_undo s' !! id = st_undo s !! id;
  pr_blocks id b : st_blocks s' !! id = Some b -> st_blocks s !! id = Some b;
}.

(** The operations of a pruning batch. *)
Definition prune_op (body undo : Hash256 -> Prop) (s : Store) (op : StorageOp) : Prop :=
  match op with
  | DeleteBlock id => ~ body id
  | PutIndex i => exists r, i = without_body r /\ st_index s !! block_id (idx_header r) = Some r /\
                    index_typed r /\ ~ body (block_id (idx_header r))
  | DeleteUndo id => ~ undo id
  | SetPruneCursor h => in_u64 h
  | _ => False
  end.

Lemma pruned_refl body undo s : pruned body undo s s.
Proof. split; eauto using same_node_refl. Qed.

Lemma pruned_op body undo s s' op : pruned body undo s s' -> prune_op body undo s op -> pruned body undo s (apply_op s' op).
Proof.
  intros [P1 P2 P3 P4 P5 P6 P7 P8 P9 P10] HO. destruct s' as [bl ix ux un ac tp htip an ge he cu]. cbn in *.
  destruct op as [|id|i| | | |id| | | | | | | |h]; cbn [prune_op] in HO; try done; split; cbn; try done.
  - intros k Hk. rewrite lookup_delete_ne by (intros ->; done). by apply P8.
  - intros k b [_ Hb]%lookup_delete_Some. by apply P10.
  - intros k r Hr. destruct HO as (r0 & -> & Hr0 & _). destruct (decide (k = block_id (idx_header r0))) as [->|Hne].
    + exists (without_body r0). cbn. rewrite lookup_insert_eq. rewrite Hr in Hr0. by injection Hr0 as <-.
    + cbn. rewrite lookup_insert_ne by done. by apply P1.
  - intros k r' Hr'. destruct HO as (r0 & -> & Hr0 & _). apply lookup_insert_Some in Hr' as [[<- _]|[_ Hr']]; eauto.
  - intros k Hk. destruct HO as (r0 & -> & _ & _ & Hb). cbn. rewrite lookup_insert_ne by (intros E; by rewrite E in Hb). by apply P8.
  - intros k u [_ Hu]%lookup_delete_Some. by apply P3.
  - intros k Hk. rewrite lookup_delete_ne by (intros ->; done). by apply P9.
Qed.

Lemma pruned_batch body undo s batch : Forall (prune_op body undo s) batch -> pruned body undo s (apply_batch batch s).
Proof.
  intros HF. pose proof (pruned_refl body undo s) as HP. revert HP. generalize s at 2 4. induction HF as [|op ops Ho HF IH]; intros s1 HP; [done|].
  cbn [apply_batch foldl]. apply IH. by apply pruned_op.
Qed.

Lemma prune_op_typed body undo s op : prune_op body undo s op -> op_typed op.
Proof. destruct op; try done. intros (r0 & -> & _ & (? & ? & ?) & _). done. Qed.

(** A pruned store keeps the invariant. *)
Lemma pruned_ok body undo s s' tip ht : store_ok config verifier s tip ht -> pruned body undo s s' -> store_ok config verifier s' tip ht.
Proof.
  intros [HK [(rt & Ht & Hh & Hw) HM] Hht HB] [P1 P2 P3 P4 P5 P6 P7 _ _ P10].
  assert (forall id r', st_index s' !! id = Some r' -> exists r, st_index s !! id = Some r /\ same_node r r' /\
    idx_validation r' = idx_validation r) as PB.
  { intros id r' Hr'. destruct (P2 _ _ Hr') as [r Hr]. destruct (P1 _ _ Hr) as (r1 & Hr1 & ? & ?). exists r. naive_solver congruence. }
  split.
  - eapply path_ok_update; [exact HK| | |done..|exact P3].
    + split; [intros id r (r' & ? & ? & _)%P1; eauto|]. intros id r' (r & ? & ? & _)%PB. left. eauto.
    + intros h id r' Hh' (r & Hr & _ & ->)%PB.
      destruct (active_record _ _ _ _ _ (pk_active _ _ _ _ HK) Hh') as (r0 & ? & _ & ? & _). congruence.
  - split.
    + destruct (P1 _ _ Ht) as (r' & ? & (_ & _ & E1 & E2) & _). exists r'. split_and!; [done|congruence|congruence].
    + intros id r' (r & Hr & (_ & _ & _ & ->) & ->)%PB. by apply HM with id.
  - by rewrite P7.
  - intros id b Hb. by eapply HB, P10.
Qed.

(** What one round of the loop adds. *)
Lemma prune_record_ops db s h batch report id r batch' report' :
  stores db s -> st_index s !! id = Some r -> (forall k, st_active s !! k = Some id -> idx_height r = k) ->
  prune_record db h (batch, report) (id, r) = Ok (batch', report') ->
  Forall (prune_op (body_needed db s h) (undo_needed s h) s) batch ->
  Forall (prune_op (body_needed db s h) (undo_needed s h) s) batch'.
Proof.
  intros HS Hr Hh. destruct (typed_index _ (law_typed _ _ HS) _ _ Hr) as (T1 & T2 & T3). unfold prune_record.
  destruct (db_active_id_at_height db (idx_height r)) as [a|] eqn:Ea; [|done]. cbn [storage map_err].
  pose proof (law_active_id _ _ _ _ HS (proj1 (proj2 T3)) Ea) as Ha.
  destruct (negb _); [|done]. destruct (db_get_block db id) as [[bd|]|]; [|done..]. cbn [storage map_err ok_or].
  destruct (retain_body db h id r _) as [keep|] eqn:Ek; [|done].
  assert (keep = false -> ~ body_needed db s h id) as Hbody.
  { intros -> (r0 & d & Hr0 & Hv & Hd & Hf & Hw). rewrite Hr in Hr0. injection Hr0 as <-. unfold retain_body in Ek.
    rewrite bool_decide_false in Ek by done. destruct (Z.ltb_spec (idx_height r) (retained_active_floor h)); [lia|]. cbn [orb] in Ek.
    assert ((if bool_decide (a = Some id) then Ok (idx_height r) else let? d := discover_fork db id r in Ok (fork_height d)) =
      Ok (fork_height d)) as E.
    { case_bool_decide as Hact; [|by rewrite Hd]. f_equal. unfold discover_fork in Hd. destruct (validate_index_identity id r); [|done].
      destruct (Z.to_nat (idx_height r)); cbn [discover_loop] in Hd; rewrite Ea in Hd; cbn [storage map_err] in Hd;
        rewrite bool_decide_true in Hd by done; by injection Hd as <-. }
    rewrite E in Ek. injection Ek as Ek. unfold should_retain_body in Ek.
    destruct (Z.ltb_spec (idx_height r) (retained_active_floor h)); [lia|].
    destruct (checked_sub h (fork_height d)) as [x|] eqn:Ex; [|apply checked_sub_None in Ex; lia].
    apply checked_sub_Some in Ex as [-> _]. lia. }
  assert (should_retain_undo (bool_decide (a = Some id)) (idx_height r) h = false -> ~ undo_needed s h id) as Hundo.
  { intros Hs (k & Hk & Hkr). unfold should_retain_undo in Hs. pose proof (Hh k Hk) as E. rewrite bool_decide_true in Hs; [lia|].
    by rewrite Ha, E. }
  intros Hp HF.
  assert (exists b1 rep1, (if negb keep then
      let? n := ok_or (checked_add U64_MAX (deleted_bodies report) 1) ChainStateError.CorruptState in
      Ok (put_index (without_body r) (delete_block id batch), MkPruneReport n (deleted_undos report))
    else Ok (batch, report)) = Ok (b1, rep1) /\ Forall (prune_op (body_needed db s h) (undo_needed s h) s) b1) as (b1 & rep1 & E1 & HF1).
  { destruct keep; cbn [negb] in *; [by eexists _, _|]. destruct (checked_add _ _ _); [|done]. cbn [ok_or]. eexists _, _. split; [done|].
    unfold put_index, delete_block. rewrite !Forall_app, !Forall_singleton. split_and!; [done|by apply Hbody|].
    exists r. rewrite T1. split_and!; [done|done|done|by apply Hbody]. }
  rewrite E1 in Hp. destruct (storage (db_get_undo db id)) as [[u|]|]; [| |done].
  - destruct (should_retain_undo _ _ _); cbn [negb] in Hp; [by injection Hp as <- _|].
    destruct (checked_add _ _ _); [|done]. cbn [ok_or] in Hp. injection Hp as <- _.
    unfold delete_undo. rewrite Forall_app, Forall_singleton. split; [done|by apply Hundo].
  - destruct (should_retain_undo _ _ _); [done|]. by injection Hp as <- _.
Qed.

Lemma plan_prune_ops st s batch report :
  mirrors st s -> plan_prune (cs_db st) (ct_height (cs_tip st)) = Ok (batch, report) ->
  let h := ct_height (cs_tip st) in
  Forall (prune_op (body_needed (cs_db st) s h) (undo_needed s h) s) batch /\
  st_cursor (apply_batch batch s) = Some (prune_cursor_for_tip h).
Proof.
  intros (Hc & HS & [HK _ _ _] & HU) Hp h. unfold plan_prune in Hp.
  destruct (db_iter_body_retained_indices (cs_db st)) as [l|] eqn:El; [|done]. cbn [storage map_err] in Hp.
  apply (law_iter_retained _ _ _ HS) in El. fold h in Hp.
  destruct (try_fold _ l _) as [[b0 rep0]|] eqn:Ef; [|done]. injection Hp as <- <-.
  assert (in_u64 h) as Hu by (apply (typed_tip _ (law_typed _ _ HS) (tip_id (cs_tip st))); apply HK).
  split; [|unfold set_prune_cursor; rewrite apply_batch_app; by destruct (apply_batch b0 s)].
  unfold set_prune_cursor. rewrite Forall_app, Forall_singleton. split.
  2: { cbn. unfold prune_cursor_for_tip, saturating_sub, REORG_WINDOW. unfold_ints. lia. }
  assert (Forall (fun p => st_index s !! p.1 = Some p.2) l) as HL.
  { apply Forall_forall. intros [id r]. rewrite El, list_elem_of_filter, elem_of_map_to_list. by intros [_ ?]. }
  clear El. assert (Forall (prune_op (body_needed (cs_db st) s h) (undo_needed s h) s) StorageBatch_new) as HB by constructor.
  revert Ef HB. generalize StorageBatch_new, (MkPruneReport 0 0). induction HL as [|[id r] l Hr HL IH]; intros b rep; cbn [try_fold].
  { by intros [= <- _]. }
  destruct (prune_record _ _ _ _) as [[b1 rep1]|] eqn:E1; [|done]. intros Ef HB. apply (IH _ _ Ef).
  eapply prune_record_ops; [exact HS|exact Hr| |exact E1|exact HB]. intros k Hk.
  destruct (active_record _ _ _ _ _ (pk_active _ _ _ _ HK) Hk) as (r0 & Hr0 & <- & _). cbn in Hr, Hr0. rewrite Hr in Hr0. by injection Hr0 as <-.
Qed.

(** What pruning guarantees, on success and on every error. *)
Definition prune_post (st : ChainState DB) (p : result ChainStateError.t PruneReport * ChainState DB) : Prop :=
  let h := ct_height (cs_tip st) in
  same_memory st p.2 /\ cs_session p.2 = cs_session st /\
  exists s s', mirrors st s /\ mirrors p.2 s' /\ pruned (body_needed (cs_db st) s h) (undo_needed s h) s s' /\
    (forall report, p.1 = Ok report -> st_cursor s' = Some (prune_cursor_for_tip h)).

Lemma prune_keeps st : chain_ok st -> prune_post st (prune st).
Proof.
  intros (s & HM). pose proof HM as (Hc & HS & HK & HU).
  assert (forall e, prune_post st (Err e, st)) as Herr.
  { intros e. split_and!; [done|done|]. exists s, s. split_and!; [done|done|apply pruned_refl|done]. }
  unfold prune. destruct (ensure_mutation_allowed st) as [[]|]; [|apply Herr].
  destruct (plan_prune (cs_db st) (ct_height (cs_tip st))) as [[batch report]|] eqn:Ep; [|apply Herr].
  apply (plan_prune_ops st s _ _ HM) in Ep as [HF HCu].
  assert (Forall op_typed batch) as HT by (eapply Forall_impl; [exact HF|]; intros op; by eapply prune_op_typed).
  pose proof (pruned_batch _ _ _ _ HF) as HP. pose proof (pruned_ok _ _ _ _ _ _ HK HP) as HK'.
  assert (forall db', stores db' (apply_batch batch s) -> mirrors (with_db db' st) (apply_batch batch s)) as HM'.
  { intros db' HS'. split_and!; [done|done|exact HK'|]. by rewrite (pr_utxos _ _ _ _ HP). }
  unfold commit_maintenance. destruct (db_commit batch NoSync (cs_db st)) as [[[]|e] db'] eqn:E; cbn [storage map_err].
  - apply (law_commit _ _ _ _ _ HS HT) in E. split_and!; [done|done|]. exists s, (apply_batch batch s).
    split_and!; [done|by apply HM'|done|done].
  - split_and!; [done|done|]. destruct (law_commit_err _ _ _ _ _ _ HS HT E) as [HS'|HS'].
    + exists s, s. split_and!; [done|done|apply pruned_refl|done].
    + exists s, (apply_batch batch s). split_and!; [done|by apply HM'|done|done].
Qed.

(** ** Pruning keeps the plans of permitted reorganisations *)

(** [r] is [a], unless the database could not be read. *)
Definition reads {A} (r : result ChainStateError.t A) (a : A) : Prop :=
  r = Ok a \/ exists e, r = Err (ChainStateError.Storage e).

Lemma reads_index (db : DB) s id o : stores db s -> st_index s !! id = o -> reads (storage (db_get_index db id)) o.
Proof. intros HS <-. destruct (db_get_index db id) as [x|] eqn:E; [left|right; by eexists]. by rewrite (law_get_index _ _ _ _ HS E). Qed.
Lemma reads_block (db : DB) s id o : stores db s -> st_blocks s !! id = o -> reads (storage (db_get_block db id)) o.
Proof. intros HS <-. destruct (db_get_block db id) as [x|] eqn:E; [left|right; by eexists]. by rewrite (law_get_block _ _ _ _ HS E). Qed.
Lemma reads_undo (db : DB) s id o : stores db s -> st_undo s !! id = o -> reads (storage (db_get_undo db id)) o.
Proof. intros HS <-. destruct (db_get_undo db id) as [x|] eqn:E; [left|right; by eexists]. by rewrite (law_get_undo _ _ _ _ HS E). Qed.
Lemma reads_active (db : DB) s h o :
  stores db s -> in_u64 h -> st_active s !! h = o -> reads (storage (db_active_id_at_height db h)) o.
Proof.
  intros HS Hh <-. destruct (db_active_id_at_height db h) as [x|] eqn:E; [left|right; by eexists]. by rewrite (law_active_id _ _ _ _ HS Hh E).
Qed.

Lemma reads_bind {A B} (r : result ChainStateError.t A) a (k : A -> result ChainStateError.t B) b :
  reads r a -> reads (k a) b -> reads (match r with Ok a => k a | Err e => Err e end) b.
Proof. intros [-> | [e ->]] HK; [done|right; by eexists]. Qed.

Lemma reads_try_map {A B} (f g : A -> result ChainStateError.t B) l l' :
  Forall2 (fun a b => f a = Ok b) l l' -> (forall a b, a ∈ l -> f a = Ok b -> reads (g a) b) -> reads (try_map g l) l'.
Proof.
  induction 1 as [|a b l l' Hf HF IH]; intros Hg; [by left|]. cbn [try_map]. eapply reads_bind; [apply Hg; [by left|done]|].
  eapply reads_bind; [apply IH; intros; apply Hg; [by right|done]|]. by left.
Qed.

Lemma identity_intro id r :
  block_id (idx_header r) = id -> idx_parent r = previous_block (idx_header r) -> validate_index_identity id r = Ok tt.
Proof. intros <- E. unfold validate_index_identity. by rewrite !bool_decide_true. Qed.

(** The nodes on the way to the fork have the same fork. *)
Lemma discover_nodes fuel : forall (db : DB) s id r d n,
  stores db s -> fuel = Z.to_nat (idx_height r) -> 0 <= idx_height r -> block_id (idx_header r) = id ->
  idx_parent r = previous_block (idx_header r) ->
  discover_loop fuel db id r [] = Ok d -> n ∈ fork_candidate d ->
  exists d', discover_fork db (cn_id n) (cn_index n) = Ok d' /\ fork_height d' = fork_height d.
Proof.
  induction fuel as [|fuel IH]; intros db s id r d n HS HF Hz Hid Hpar Hd Hn.
  all: assert (discover_fork db id r = Ok d) as Hself by (unfold discover_fork; by rewrite identity_intro, <- HF).
  all: cbn [discover_loop] in Hd.
  all: destruct (storage (db_active_id_at_height db (idx_height r))) as [a|]; [|done].
  all: destruct (bool_decide _); [injection Hd as <-; by apply not_elem_of_nil in Hn|].
  all: destruct (negb _); [|done]; destruct (Z.eqb_spec (idx_height r) 0) as [|E0]; cbn [negb] in Hd; [done|].
  all: destruct (db_get_index db (idx_parent r)) as [found|] eqn:Ef; [|done]; cbn [storage map_err] in Hd.
  all: apply (law_get_index _ _ _ _ HS) in Ef; destruct found as [p|]; [|done]; cbn [ok_or] in Hd.
  all: destruct (validate_parent_child _ _ _ _) as [[]|] eqn:Ev; [|done].
  { done. }
  apply parent_child_Ok in Ev as (V1 & _ & _ & _ & _ & [V6 _]). symmetry in Ef.
  destruct (typed_index _ (law_typed _ _ HS) _ _ Ef) as (_ & Hpp & (_ & [Hp0 _] & _)).
  destruct (discover_loop_acc _ _ _ _ _ _ Hd) as (new & E & Hsub). rewrite E in Hn. cbn [fork_candidate app rev] in Hn.
  apply elem_of_app in Hn as [Hn| ->%list_elem_of_singleton]; [|by exists d].
  destruct (IH db s (idx_parent r) p (MkForkDiscovery (fork_height d) new) n HS) as (d' & ? & ?); try done; [lia|by exists d'].
Qed.

Lemma parent_child_same pid p p' id r :
  same_node p p' -> idx_validation p' = idx_validation p ->
  validate_parent_child pid p' id r = validate_parent_child pid p id r.
Proof. destruct p, p'. intros (E1 & E2 & E3 & E4) E5. cbn in *. by subst. Qed.

(** A node below the window that is not active is above the fork. *)
Lemma discovered_above (db : DB) s fuel id r d :
  stores db s -> in_u64 (idx_height r) -> block_id (idx_header r) = id -> idx_parent r = previous_block (idx_header r) ->
  discover_loop fuel db id r [] = Ok d -> st_active s !! idx_height r <> Some id -> fork_height d < idx_height r.
Proof.
  intros HS Hu Hid Hpar Hd Hact. destruct (discover_loop_spec _ _ _ _ _ _ _ HS Hu Hid Hpar Hd) as (new & fid & fr & _ & [F1 F2 F3 F4 _ _ _ _]).
  unfold path_end in F4. destruct (last new) as [n|] eqn:El.
  - injection F4 as <- <-. rewrite last_lookup in El. rewrite (path_heights _ _ _ _ _ F3 El). lia.
  - injection F4 as -> ->. congruence.
Qed.

Lemma discover_kept fuel : forall (db db' : DB) s s' h id r r' acc d,
  stores db s -> stores db' s' -> pruned (body_needed db s h) (undo_needed s h) s s' ->
  fuel = Z.to_nat (idx_height r) -> in_u64 (idx_height r) ->
  discover_loop fuel db id r acc = Ok d -> 0 <= h - fork_height d <= REORG_WINDOW ->
  same_node r r' -> idx_validation r' = idx_validation r -> (st_active s !! idx_height r = Some id \/ r' = r) ->
  reads (discover_loop fuel db' id r' acc) d.
Proof.
  induction fuel as [|fuel IH]; intros db db' s s' h id r r' acc d HS HS' HP HF Hu Hd Hw HN HV Hr.
  all: pose proof HN as (_ & _ & Eh & _); cbn [discover_loop] in *; rewrite Eh in *.
  all: destruct (db_active_id_at_height db (idx_height r)) as [a|] eqn:Ea; [|done]; cbn [storage map_err] in Hd.
  all: apply (law_active_id _ _ _ _ HS Hu) in Ea; subst a.
  all: eapply reads_bind; [eapply reads_active; [exact HS'|exact Hu|by rewrite (pr_active _ _ _ _ HP)]|].
  all: case_bool_decide as Hact; [by left|]; destruct Hr as [?| ->]; [done|].
  all: destruct (negb _); [|done]; destruct (Z.eqb_spec (idx_height r) 0) as [|E0]; cbn [negb] in *; [done|].
  all: destruct (db_get_index db (idx_parent r)) as [found|] eqn:Ef; [|done]; cbn [storage map_err] in Hd.
  all: apply (law_get_index _ _ _ _ HS) in Ef; destruct found as [p|]; [|done]; cbn [ok_or] in Hd; symmetry in Ef.
  all: destruct (pr_grow _ _ _ _ HP _ _ Ef) as (p' & Hp' & HNp & HVp).
  all: eapply reads_bind; [eapply reads_index; [exact HS'|exact Hp']|]; cbn [ok_or].
  all: rewrite (parent_child_same _ _ _ _ _ HNp HVp).
  all: destruct (validate_parent_child _ _ _ _) as [[]|] eqn:Ev; [|done].
  { done. }
  apply parent_child_Ok in Ev as (V1 & _ & _ & V4 & _ & [V6 _]).
  destruct (typed_index _ (law_typed _ _ HS) _ _ Ef) as (_ & Hpp & (_ & Hpu & _)).
  apply (IH db db' s s' h (idx_parent r) p p' _ d); [exact HS|exact HS'|exact HP|lia|exact Hpu|exact Hd|exact Hw|exact HNp|exact HVp|].
  destruct (decide (st_active s !! idx_height p = Some (idx_parent r))) as [|Hpa]; [by left|right].
  destruct (discover_loop_acc _ _ _ _ _ _ Hd) as (new & _ & Hsub).
  pose proof (discovered_above _ _ _ _ _ _ HS Hpu V1 Hpp Hsub Hpa) as Hab. cbn [fork_height] in Hab.
  destruct (pr_body _ _ _ _ HP (idx_parent r)) as [_ E]; [|congruence].
  exists p, (MkForkDiscovery (fork_height d) new). split_and!; try done; cbn [fork_height].
  - unfold discover_fork. rewrite identity_intro by done. by replace (Z.to_nat (idx_height p)) with fuel by lia.
  - unfold retained_active_floor, saturating_sub, REORG_WINDOW in *. destruct Hpu. lia.
  - lia.
  - lia.
Qed.

(** The plan of a permitted reorganisation is loaded as before. *)
Lemma plan_kept (db db' : DB) s s' h b i d plan :
  stores db s -> stores db' s' -> pruned (body_needed db s h) (undo_needed s h) s s' ->
  in_u64 (idx_height i) -> in_u64 h -> discover_fork db (block_id (header b)) i = Ok d -> 0 <= h - fork_height d <= REORG_WINDOW ->
  0 <= fork_height d ->
  load_reorg_plan db h d (block_id (header b)) b = Ok plan ->
  reads (discover_fork db' (block_id (header b)) i) d /\ reads (load_reorg_plan db' h d (block_id (header b)) b) plan.
Proof.
  intros HS HS' HP Hu Hh Hd Hw Hf0 Hl. pose proof Hd as Hd0. unfold discover_fork in Hd.
  destruct (validate_index_identity _ i) as [[]|] eqn:Ei; [|done]. pose proof (identity_Ok _ _ Ei) as [I1 I2]. split.
  { unfold discover_fork. rewrite Ei. eapply (discover_kept _ db db' s s' h _ i i); try done. by right. }
  unfold load_reorg_plan in *. destruct (load_old_active _ _ _) as [old|] eqn:Eo; [|done].
  destruct (try_map _ _) as [cands|] eqn:Ec; [|done]. injection Hl as <-. eapply reads_bind.
  - apply try_map_Forall2 in Eo. eapply reads_try_map; [exact Eo|]. intros k [id u] Hk Hx. cbn beta in Hx.
    apply list_elem_of_In, in_rev, list_elem_of_In, elem_of_seqZ in Hk.
    assert (in_u64 k) as Hku by (unfold_ints; lia).
    destruct (db_active_id_at_height db k) as [a|] eqn:Ea; [|done]. apply (law_active_id _ _ _ _ HS Hku) in Ea.
    cbn [storage map_err] in Hx. destruct a as [id'|]; [|done]. cbn [ok_or] in Hx.
    destruct (db_get_undo db id') as [x|] eqn:Ex; [|done]. apply (law_get_undo _ _ _ _ HS) in Ex. cbn [storage map_err] in Hx.
    destruct x as [u'|]; [|done]. injection Hx as -> ->.
    eapply reads_bind; [eapply (reads_active db' s' k (Some id)); [exact HS'|exact Hku|by rewrite (pr_active _ _ _ _ HP)]|]. cbn [ok_or].
    eapply reads_bind; [eapply (reads_undo db' s' id (Some u)); [exact HS'|]|].
    { rewrite (pr_keep _ _ _ _ HP); [done|]. exists k. split; [done|].
      unfold retained_active_floor, saturating_sub, REORG_WINDOW in *. lia. }
    by left.
  - eapply reads_bind; [|by left]. apply try_map_Forall2 in Ec. eapply reads_try_map; [exact Ec|]. intros n rc Hn Hx.
    unfold load_candidate in *. destruct (decide (cn_id n = block_id (header b))) as [En|En].
    { rewrite bool_decide_true in * by done. left. exact Hx. }
    rewrite bool_decide_false in * by done. destruct (idx_body_retained (cn_index n)); [|done].
    destruct (discover_fork_spec _ _ _ _ _ HS Hu Hd0) as (fid & fr & HFF).
    pose proof (ff_stored _ _ _ _ _ _ _ HFF) as HSt. rewrite Forall_forall in HSt.
    destruct (HSt n Hn) as [->|Hst]; [done|]. pose proof (ff_valid _ _ _ _ _ _ _ HFF) as HVa. rewrite Forall_forall in HVa.
    destruct (discover_nodes _ _ _ _ _ _ _ HS eq_refl (proj1 Hu) I1 I2 Hd Hn) as (d' & Hd' & Ed').
    destruct (pr_body _ _ _ _ HP (cn_id n)) as [EB _].
    { exists (cn_index n), d'. split_and!; try done; [by apply HVa| |lia|lia].
      apply list_elem_of_lookup in Hn as [k Hk]. rewrite (path_heights _ _ _ _ _ (ff_path _ _ _ _ _ _ _ HFF) Hk).
      rewrite (ff_height _ _ _ _ _ _ _ HFF). unfold retained_active_floor, saturating_sub, REORG_WINDOW in *. lia. }
    destruct (db_get_block db (cn_id n)) as [x|] eqn:Ex; [|done]. apply (law_get_block _ _ _ _ HS) in Ex. cbn [storage map_err] in Hx.
    destruct (reads_block db' s' (cn_id n) x HS') as [E|[e E]]; [congruence| |]; rewrite E; [by left|right; by eexists].
Qed.

End Prune.

(** ** Opening *)

Lemma try_fold_app {E A B} (f : B -> A -> result E B) l1 l2 acc :
  try_fold f (l1 ++ l2) acc = match try_fold f l1 acc with Ok a => try_fold f l2 a | Err e => Err e end.
Proof. revert acc. induction l1 as [|x l1 IH]; intros acc; [done|]. cbn [app try_fold]. by destruct (f acc x). Qed.

(** Restoring the outputs from a listing gives the map that was listed. *)
Lemma try_from_entries_map (m : UtxoState) entries m' : entries ≡ₚ map_to_list m -> try_from_entries entries = Ok m' -> m' = m.
Proof.
  intros HP HT. assert (forall o e, m' !! o = Some e <-> (∅ : UtxoState) !! o = Some e \/ (o, e) ∈ entries) as HL.
  { clear HP. unfold try_from_entries in HT. revert HT. generalize (∅ : UtxoState). induction entries as [|[o e] l IH]; intros m0; cbn [try_fold].
    { intros [= ->] o e. set_solver. }
    destruct (m0 !! o) eqn:E0; [done|]. intros HT o' e'. rewrite (IH _ HT), elem_of_cons, lookup_insert_Some. split.
    - intros [[[<- <-]|[? ?]]|?]; [by right; left|by left|by right; right].
    - intros [?|[[= -> ->]|?]]; [|by left; left|by right]. left. right. split; [|done]. intros ->. congruence. }
  apply map_eq. intros o. apply option_eq. intros e. rewrite HL, lookup_empty, HP, elem_of_map_to_list. naive_solver.
Qed.

Section Open.
Context `{Blake3} {DB : Type} `{!BlockStore DB} `{!BlockStoreLaws DB} `{!RandomX} {V : Type} `{!SpendVerifier V} {KB : KnownBlocks}.
Variable config : ChainConfig.
Variable verifier : V.

Abbreviation store_ok := (store_ok config verifier).
Abbreviation mirrors := (mirrors config verifier).
Abbreviation chain_ok := (chain_ok config verifier).
Abbreviation durable := (durable config verifier).

(** What the Rust types say of a configuration. *)
Definition config_typed (c : ChainConfig) : Prop := header_within (anchor_header c) /\ in_u64 (genesis_timestamp c).

Definition anchor_record : BlockIndexRecord :=
  MkBlockIndexRecord (anchor_header config) (previous_block (anchor_header config)) 0 ChainWork_zero FullyValidated false.

Definition anchor_store : Store :=
  MkStore ∅ {[anchor_id config := anchor_record]} ∅ ∅ {[0 := anchor_id config]} (Some (anchor_id config, 0))
    (Some (anchor_id config, 0)) (Some (anchor_id config)) (Some (genesis_timestamp config)) (Some NodeHealthy) (Some 0).

Lemma anchor_store_ok :
  store_ok anchor_store (MkTip (anchor_id config) 0 ChainWork_zero) (MkHeaderTip (anchor_id config) 0 ChainWork_zero).
Proof.
  split; [split| |done|done].
  - intros id r Hr. cbn [anchor_store st_index] in Hr. apply lookup_singleton_Some in Hr as [<- <-]. by left.
  - split; cbn [ct_height tip_id tip_work anchor_store st_active st_index].
    + done.
    + intros h Hh. apply lookup_singleton_ne. lia.
    + intros h Hh. replace h with 0 by lia. exists (anchor_id config), anchor_record. rewrite !lookup_singleton_eq. split_and!; done.
    + apply lookup_singleton_eq.
    + exists anchor_record. by rewrite !lookup_singleton_eq.
  - exists []. split; [constructor|]. split; [done|]. intros i b u Hi. done.
  - done.
  - split.
    + exists anchor_record. cbn [anchor_store st_index htip_id]. by rewrite lookup_singleton_eq.
    + intros id r Hr _. cbn [anchor_store st_index] in Hr. apply lookup_singleton_Some in Hr as [<- <-]. done.
Qed.

(** A database that no chain state has used. *)
Definition pristine (db : DB) : Prop := stores db empty_store.

Lemma bootstrap_post db r db' :
  config_typed config -> pristine db -> bootstrap config db = (r, db') ->
  (pristine db' \/ durable db') /\
  match r with
  | Ok st => chain_ok st /\ cs_db st = db' /\ cs_session st = SessionHealthy /\ cs_utxos st = ∅ /\
             cs_tip st = MkTip (anchor_id config) 0 ChainWork_zero
  | Err e => exists se, e = ChainStateError.Storage se
  end.
Proof.
  intros [Hw Hg] HS. unfold bootstrap.
  destruct (db_config_anchor_id db) as [x|] eqn:E; cbn [storage map_err];
    [apply (law_anchor _ _ _ HS) in E as ->|intros [= <- <-]; split; [by left|by eexists]]. cbn [empty_store st_anchor].
  destruct (db_config_genesis_timestamp db) as [x|] eqn:E; cbn [storage map_err];
    [apply (law_genesis _ _ _ HS) in E as ->|intros [= <- <-]; split; [by left|by eexists]]. cbn [empty_store st_genesis].
  destruct (db_health db) as [x|] eqn:E; cbn [storage map_err];
    [apply (law_health _ _ _ HS) in E as ->|intros [= <- <-]; split; [by left|by eexists]]. cbn [empty_store st_health].
  destruct (db_prune_cursor db) as [x|] eqn:E; cbn [storage map_err];
    [apply (law_cursor _ _ _ HS) in E as ->|intros [= <- <-]; split; [by left|by eexists]]. cbn [empty_store st_cursor].
  destruct (db_active_id_at_height db 0) as [x|] eqn:E; cbn [storage map_err];
    [apply (law_active_id _ _ _ _ HS) in E as ->; [|done]|intros [= <- <-]; split; [by left|by eexists]]. cbn [empty_store st_active]. rewrite lookup_empty.
  destruct (db_preferred_header_tip db) as [x|] eqn:E; cbn [storage map_err];
    [apply (law_header_tip _ _ _ HS) in E as ->|intros [= <- <-]; split; [by left|by eexists]]. cbn [empty_store st_header_tip].
  destruct (db_get_index db (block_id (anchor_header config))) as [x|] eqn:E; cbn [storage map_err];
    [apply (law_get_index _ _ _ _ HS) in E as ->|intros [= <- <-]; split; [by left|by eexists]]. cbn [empty_store st_index]. rewrite lookup_empty.
  match goal with |- context [commit_durable ?b _] => set (batch := b) end.
  assert (Forall op_typed batch) as HT.
  { unfold batch, set_prune_cursor, set_health, set_config_genesis_timestamp, set_config_anchor_id, set_preferred_header_tip, set_tip,
      set_active_height, put_index, StorageBatch_new. rewrite !Forall_app, !Forall_singleton.
    assert (index_typed anchor_record) by done. split_and!; done. }
  assert (apply_batch batch empty_store = anchor_store) as EB by done.
  unfold commit_durable. destruct (db_commit batch _ db) as [[[]|e] db1] eqn:Ec; cbn [storage map_err]; intros [= <- <-].
  - apply (law_commit _ _ _ _ _ HS HT) in Ec. rewrite EB in Ec. split.
    + right. eexists _, _, _. split; [exact Ec|apply anchor_store_ok].
    + split_and!; try done. exists anchor_store. split_and!; try done. apply anchor_store_ok.
  - split; [|by eexists]. destruct (law_commit_err _ _ _ _ _ _ HS HT Ec) as [?|HX]; [by left|right].
    rewrite EB in HX. eexists _, _, _. split; [exact HX|apply anchor_store_ok].
Qed.

Lemma check_height_Ok (db : DB) s m w h w' :
  stores db s -> in_u64 h -> check_height db config m w h = Ok w' ->
  exists id r, st_active s !! h = Some id /\ st_index s !! id = Some r /\ w' = MkWalk (Some id) (idx_work r) (Some (idx_work r)).
Proof.
  intros HS Hh. unfold check_height. destruct (db_active_id_at_height db h) as [a|] eqn:Ea; [|done]. cbn [storage map_err].
  apply (law_active_id _ _ _ _ HS Hh) in Ea as ->. destruct (st_active s !! h) as [id|]; [|done]. cbn [ok_or].
  destruct (db_get_index db id) as [x|] eqn:Ex; [|done]. cbn [storage map_err]. apply (law_get_index _ _ _ _ HS) in Ex as ->.
  destruct (st_index s !! id) as [r|] eqn:Er; [|done]. cbn [ok_or]. destruct (idx_height r =? h); [|done].
  destruct (bool_decide _); [|done]. destruct (if h =? 0 then _ else _); [|done]. intros [= <-]. eauto.
Qed.

Lemma load_header_tip_Ok (db : DB) s tip ht a ht' :
  stores db s -> store_ok s tip ht -> load_preferred_header_tip db a = Ok ht' -> ht' = ht.
Proof.
  intros HS [_ [(r & Hr & Hh & Hw) _] Hht _]. unfold load_preferred_header_tip.
  destruct (db_preferred_header_tip db) as [x|] eqn:Ex; [|done]. cbn [storage map_err]. apply (law_header_tip _ _ _ HS) in Ex as ->.
  rewrite Hht. cbn [ok_or]. destruct (db_get_index db (htip_id ht)) as [x|] eqn:Ex; [|done]. cbn [storage map_err].
  apply (law_get_index _ _ _ _ HS) in Ex as ->. rewrite Hr. cbn [ok_or]. destruct (_ =? _); [|done]. destruct (negb _); [|done].
  destruct (ancestor_id_at_height _ _) as [[k|]|]; [|done..]. cbn [ok_or]. destruct (bool_decide _); [|done].
  intros [= <-]. rewrite Hw. by destruct ht.
Qed.

(** What reopening restores. *)
Lemma reopen_post db s tip ht st :
  stores db s -> store_ok s tip ht -> reopen config (tip_id tip) (ct_height tip) db = Ok st ->
  mirrors st s /\ cs_db st = db /\ cs_tip st = tip /\ cs_header_tip st = ht /\ cs_session st = SessionHealthy.
Proof.
  intros HS HK Hr. pose proof (ok_path _ _ _ _ _ HK) as HP. pose proof (ac_height _ _ _ (pk_active _ _ _ _ HP)) as H0'.
  assert (in_u64 (ct_height tip)) as Hu by (apply (typed_tip _ (law_typed _ _ HS) (tip_id tip)); apply HP).
  unfold reopen in Hr. destruct (storage (db_config_anchor_id db)) as [[a|]|]; [|done..]. cbn [ok_or] in Hr.
  destruct (bool_decide (a = _)); [|done]. destruct (storage (db_config_genesis_timestamp db)) as [[g|]|]; [|done..]. cbn [ok_or] in Hr.
  destruct (g =? _); [|done]. destruct (storage (db_health db)) as [[he|]|]; [|done..]. cbn [ok_or] in Hr.
  destruct (bool_decide (he = NodeHealthy)); [|done]. destruct (storage (db_prune_cursor db)) as [[cu|]|]; [|done..]. cbn [ok_or] in Hr.
  destruct (negb _); [|done].
  replace (seqZ 0 (ct_height tip + 1)) with (seqZ 0 (ct_height tip) ++ [ct_height tip]) in Hr
    by (rewrite seqZ_app by lia; f_equal; by rewrite Z.add_0_l).
  rewrite try_fold_app in Hr. destruct (try_fold _ (seqZ 0 _) _) as [w|]; [|done]. cbn [try_fold] in Hr.
  destruct (check_height _ _ _ _ _) as [w'|] eqn:Ew; [|done].
  apply (check_height_Ok _ _ _ _ _ _ HS Hu) in Ew as (id & r & Ha & Hi & ->). cbn [walk_id walk_final] in Hr.
  case_bool_decide; [|done]. cbn [ok_or] in Hr. destruct (ac_tip _ _ _ (pk_active _ _ _ _ HP)) as (rt & Hat & Hit & Ewt).
  rewrite Hat in Ha. injection Ha as <-. rewrite Hit in Hi. injection Hi as <-.
  destruct (load_preferred_header_tip _ _) as [ht'|] eqn:Eht; [|done]. apply (load_header_tip_Ok _ _ _ _ _ _ HS HK) in Eht as ->.
  destruct (db_iter_utxos db) as [entries|] eqn:Ee; [|done]. cbn [storage map_err] in Hr. apply (law_iter_utxos _ _ _ HS) in Ee.
  destruct (try_from_entries entries) as [m|] eqn:Em; [|done]. apply (try_from_entries_map _ _ _ Ee) in Em as ->. injection Hr as <-.
  rewrite Ewt. destruct tip as [ti th tw]. split_and!; done.
Qed.

(** Opening a database that the invariant holds for, or a pristine one. *)
Lemma open_post db st :
  config_typed config -> pristine db \/ durable db -> open_chain config (Ok db) = Ok st ->
  chain_ok st /\ cs_session st = SessionHealthy.
Proof.
  intros HT HD. unfold open_chain. destruct (validate_config config) as [[]|]; [|done]. cbn [storage map_err].
  destruct (db_active_tip db) as [t|] eqn:Et; [|done]. unfold storage. cbn [map_err]. destruct HD as [HS|(s & tip & ht & HS & HK)];
    apply (law_active_tip _ _ _ HS) in Et as ->.
  - cbn [empty_store st_tip]. destruct (bootstrap config db) as [r db'] eqn:Eb. cbn [fst]. intros Er. rewrite Er in Eb.
    apply (bootstrap_post _ _ _ HT HS) in Eb as (_ & ? & _ & ? & _). done.
  - rewrite (pk_tip _ _ _ _ (ok_path _ _ _ _ _ HK)). intros (? & _ & _ & _ & ?)%(reopen_post _ _ _ _ _ HS HK). split; [by exists s|done].
Qed.

End Open.
