(* ===== verification/ChainRejected.v ===== *)
(** A reorganisation that is refused: the blocks of its path from the failing
    one on are marked invalid, the preferred header tip is left where it is, and
    a database whose preferred header is invalid is not opened. *)
From S2P Require Import Prelude Encoding Transaction Block Difficulty Emission HeaderRules BlockRules Utxo Ledger Fresh.
From S2P Require Import Records StoreSpec ChainState Protocol Sync ChainRecovery ChainInv ChainProofs ChainReorg ChainOpen.

(** ** Errors that are not the ledger's *)

Definition not_utxo {A} (r : result ChainStateError.t A) : Prop := forall e, r <> Err (ChainStateError.Utxo e).

Lemma not_utxo_bind {A B} (r : result ChainStateError.t A) (k : A -> result ChainStateError.t B) :
  not_utxo r -> (forall a, r = Ok a -> not_utxo (k a)) -> not_utxo (let? a := r in k a).
Proof. intros H1 H2. destruct r as [a|x]; [by apply H2|]. intros e [= ->]. by apply (H1 e). Qed.

Lemma not_utxo_storage {A} (r : result StorageError.t A) : not_utxo (storage r).
Proof. by destruct r. Qed.

Lemma not_utxo_ok_or {A} (o : option A) e : not_utxo (Err e : result _ unit) -> not_utxo (ok_or o e).
Proof. intros H0. destruct o; [done|]. intros x [= ->]. by apply (H0 x). Qed.

Lemma not_utxo_if {A} (b : bool) (r1 r2 : result ChainStateError.t A) : not_utxo r1 -> not_utxo r2 -> not_utxo (if b then r1 else r2).
Proof. by destruct b. Qed.

Lemma not_utxo_try_map {A B} (f : A -> result ChainStateError.t B) l : (forall x, not_utxo (f x)) -> not_utxo (try_map f l).
Proof.
  intros Hf. induction l as [|x l IH]; [done|]. cbn [try_map]. apply not_utxo_bind; [apply Hf|]. intros y _.
  by apply not_utxo_bind.
Qed.

Create HintDb refused.
#[export] Hint Resolve not_utxo_storage not_utxo_try_map : refused.
#[export] Hint Extern 3 (not_utxo (Ok _)) => done : refused.
#[export] Hint Extern 3 (not_utxo (Err _)) => done : refused.
#[export] Hint Extern 1 (not_utxo (ok_or _ _)) => apply not_utxo_ok_or : refused.
#[export] Hint Extern 1 (not_utxo (map_err (fun _ => _) ?r)) => destruct r; done : refused.
#[export] Hint Extern 2 (not_utxo (if _ then _ else _)) => apply not_utxo_if : refused.
#[export] Hint Extern 2 (not_utxo (match _ with Ok _ => _ | Err e => Err e end)) => apply not_utxo_bind; [|intros ? _] : refused.

Section Refused.
Context `{Blake3} {DB : Type} `{!BlockStore DB} `{!BlockStoreLaws DB} `{!RandomX} {V : Type} `{!SpendVerifier V} {KB : KnownBlocks}.
Variable config : ChainConfig.
Variable verifier : V.

Abbreviation mirrors := (mirrors config verifier).

Lemma identity_not_utxo id r : not_utxo (validate_index_identity id r).
Proof. unfold validate_index_identity. eauto with refused. Qed.

Lemma parent_child_not_utxo pid p id r : not_utxo (validate_parent_child pid p id r).
Proof. unfold validate_parent_child. eauto 20 using identity_not_utxo with refused. Qed.

Lemma discover_not_utxo fuel : forall (db : DB) id r acc, not_utxo (discover_loop fuel db id r acc).
Proof. induction fuel as [|fuel IH]; intros; cbn [discover_loop]; eauto 20 using parent_child_not_utxo with refused. Qed.

Lemma discover_fork_not_utxo (db : DB) id r : not_utxo (discover_fork db id r).
Proof. unfold discover_fork. eauto using identity_not_utxo, discover_not_utxo with refused. Qed.

Lemma load_plan_not_utxo (db : DB) h d id b : not_utxo (load_reorg_plan db h d id b).
Proof.
  unfold load_reorg_plan, load_old_active. apply not_utxo_bind; [apply not_utxo_try_map; intros; eauto 12 with refused|intros ? _].
  apply not_utxo_bind; [|done]. apply not_utxo_try_map. intros x. unfold load_candidate. eauto 12 with refused.
Qed.

(** ** The path that does not connect *)

Lemma disconnect_all_ok old c1 c2 utxos :
  replay config verifier (c1 ++ c2) utxos -> map snd old = map snd c1 -> exists r, disconnect_all old utxos = Ok r.
Proof.
  unfold disconnect_all. generalize (∅ : gmap OutPoint (option UtxoEntry)). revert c1 utxos.
  induction old as [|[id u] old IH]; intros c1 utxos delta HR HE; [by eexists|].
  destruct c1 as [|[b u'] c1]; [done|]. cbn [map snd] in HE. injection HE as <- HE.
  cbn [app] in HR. apply replay_disconnect in HR as (s0 & HR & Hdis). cbn [try_fold]. rewrite Hdis. by eapply IH.
Qed.

(** The loop that connects the path fails with a suffix of it, or with an error
    that is not the ledger's. *)
Lemma connect_all_fails p cands : forall staged delta us,
  match connect_all p verifier cands staged delta us with
  | Connected _ _ _ => True
  | ConnectFailed _ inv => exists pre n rest, inv = n :: rest /\ cands = pre ++ inv
  | DeltaFailed e => e = ChainStateError.CorruptState
  end.
Proof.
  induction cands as [|n cands IH]; intros staged delta us; [done|]. cbn [connect_all].
  destruct (connect_block _ _ _ _ _) as [[u|e] staged']; [|by exists [], n, cands].
  destruct (record_connect_delta delta staged' u) as [delta'|e] eqn:ED; [|by apply insert_created_err in ED].
  specialize (IH staged' delta' (us ++ [u])). destruct (connect_all _ _ cands _ _ _) as [| |]; [done| |done].
  destruct IH as (pre & m & rest & -> & ->). by exists (n :: pre), m, rest.
Qed.

(** What a refused reorganisation leaves in the database. *)
Definition refused (st : ChainState DB) (b : Block) (st' : ChainState DB) : Prop :=
  exists s s' r, mirrors st s /\ mirrors st' s' /\ st_header_tip s' = st_header_tip s /\
    st_index s' !! block_id (header b) = Some r /\ idx_validation r = Invalid.

Lemma apply_reorg_plan_refused st s b cur plan fid fr e st' :
  mirrors st s -> plan_ok s (cs_tip st) b cur plan fid fr ->
  apply_reorg_plan plan (block_id (header b)) verifier st = (Err (ChainStateError.Utxo e), st') -> refused st b st'.
Proof.
  intros HM HPL. pose proof HM as (Hc & HS & HK & HU). destruct (pk_ledger _ _ _ _ (ok_path _ _ _ _ _ HK)) as (c & HR & HCh).
  pose proof (old_undos _ _ _ _ _ _ _ _ HPL HCh) as HOld. pose proof HPL as [_ _ _ _ _ _ _ O8 O9 O10 O11 _ O12].
  destruct plan as [f old cands]. cbn [plan_fork_height plan_old_active plan_candidate] in *. unfold apply_reorg_plan.
  destruct cands as [|n0 cands0] eqn:Ecs; [done|]. rewrite <- Ecs in *.
  destruct O12 as [?|(n & Hlast & Hnid & _)]; [congruence|]. rewrite bind_read, <- HU.
  rewrite <- (take_drop (length old) c) in HR. destruct (disconnect_all_ok _ _ _ _ HR HOld) as [[staged delta] ->].
  rewrite bind_read. pose proof (connect_all_fails (params (cs_config st)) cands staged delta []) as HF.
  destruct (connect_all _ _ cands _ _ _) as [staged' delta' us|e' inv|e'] in HF |- *; [| |by subst e'].
  { rewrite bind_lift, Hlast. cbn [ok_or]. rewrite bind_read. cbn zeta. rewrite bind_lift.
    destruct (checked_add _ _ _); [|done]. cbn [ok_or]. rewrite bind_read. unfold eff_bind at 1, commit_batch.
    destruct (commit_durable _ _) as [[?|?] ?]; [|done]. destruct (work_gtb _ _); done. }
  destruct HF as (pre & m & rest & -> & HF). rewrite HF in *.
  apply Forall_app in O8 as [_ O8], O10 as [_ O10], O11 as [_ O11]. rewrite map_app in O9. apply NoDup_app in O9 as (_ & _ & O9).
  pose proof (invalid_store_ok config verifier s _ _ (block_id (header b)) _ HK O9 O8 O11 O10) as HK'.
  assert (n ∈ m :: rest) as Hn by (apply last_Some_elem_of; by rewrite last_app_cons in Hlast).
  set (inv := m :: rest) in *. rewrite Forall_forall in O8.
  intros HX. unfold eff_bind, commit_batch, commit_durable in HX.
  destruct (db_commit _ Sync (cs_db st)) as [[[]|x] db'] eqn:E in HX; [|done]. injection HX as _ <-.
  assert (stores db' (apply_batch (invalid_batch (block_id (header b)) inv) s)) as HS'.
  { eapply law_commit; [exact HS| |exact E]. eapply invalid_batch_typed. by apply Forall_forall. }
  exists s, (apply_batch (invalid_batch (block_id (header b)) inv) s), (mark_invalid (block_id (header b)) n).
  split; [done|]. split; [split_and!; [done|exact HS'|exact HK'|by rewrite invalid_batch_puts]|].
  rewrite invalid_batch_puts. split; [done|]. split; [|done]. cbn [st_index].
  assert (forall x, x ∈ inv -> rec_id (mark_invalid (block_id (header b)) x) = rc_id x) as Eid.
  { intros x Hx. destruct (O8 _ Hx) as [C1 C2 _ _ _ _]. unfold rec_id. cbn. by rewrite C2, C1. }
  assert (NoDup (map rec_id (map (mark_invalid (block_id (header b))) inv))) as HN.
  { rewrite map_map. erewrite map_ext_in; [exact O9|]. intros x Hx. apply Eid. by apply list_elem_of_In. }
  pose proof (put_all_in _ (st_index s) _ HN (list_elem_of_fmap_2 _ _ _ Hn)) as HI. by rewrite Eid, Hnid in HI by done.
Qed.

(** A block on another branch than the active one that is refused by the ledger
    has gone through a reorganisation, which marked it invalid. *)
Lemma place_block_refused st s b i e st' :
  mirrors st s -> placeable s b i -> idx_parent i <> tip_id (cs_tip st) ->
  place_block b i verifier st = (Err (ChainStateError.Utxo e), st') -> refused st b st'.
Proof.
  intros HM HP Hpar. unfold place_block. rewrite bind_read, bool_decide_false by done. rewrite bind_read.
  destruct (work_gtb _ _).
  2: { unfold eff_bind, commit_batch. by destruct (commit_durable _ _) as [[?|?] ?]. }
  unfold reorganize. rewrite bind_read. destruct (discover_fork _ _ _) as [d|x] eqn:Ed.
  2: { intros [= -> _]. by apply discover_fork_not_utxo in Ed. }
  rewrite bind_read. destruct (checked_sub _ _) as [depth|] eqn:Es; [|done]. cbn [ok_or]. apply checked_sub_Some in Es as [-> Hle].
  destruct (reorg_depth_allowed _); cbn [negb].
  2: { unfold eff_bind at 1, commit_batch. by destruct (commit_durable _ _) as [[?|?] ?]. }
  rewrite bind_read. destruct (load_reorg_plan _ _ _ _ _) as [plan|x] eqn:El.
  2: { intros [= -> _]. by apply load_plan_not_utxo in El. }
  destruct (load_plan_ok config verifier _ _ _ _ _ _ HM HP Ed Hle El) as (fid & fr & HPL). by eapply apply_reorg_plan_refused.
Qed.

Lemma accept_block_refused st b e st' :
  chain_ok config verifier st -> block_storable b -> known b ->
  block_id (header b) = htip_id (cs_header_tip st) -> previous_block (header b) <> tip_id (cs_tip st) ->
  accept_block_healthy b verifier st = (Err (ChainStateError.Utxo e), st') -> refused st b st'.
Proof.
  intros [s HM] Hb Hk Hid Hpar. pose proof HM as (Hc & HS & HK & HU). unfold accept_block_healthy. rewrite bind_read.
  destruct (db_get_index (cs_db st) (block_id (header b))) as [found|x] eqn:Ef; cbn [storage map_err]; [|done].
  apply (law_get_index _ _ _ _ HS) in Ef as ->. destruct (ok_headers _ _ _ _ _ HK) as [(r & Hr & _) _].
  rewrite Hid, Hr. destruct (idx_validation r) eqn:Ev; [|done..]. destruct (idx_body_retained r); [done|].
  case_bool_decide as Ehd; [cbn [negb]|done]. rewrite <- Hid in Hr.
  destruct (typed_index _ (law_typed _ _ HS) _ _ Hr) as (T1 & T2 & T3).
  eapply place_block_refused; [exact HM| |by rewrite T2, Ehd].
  by eapply known_placeable.
Qed.

(** ** Opening *)

Lemma open_refuses_invalid (db : DB) s tip ht r :
  stores db s -> store_ok config verifier s tip ht -> st_index s !! htip_id ht = Some r -> idx_validation r = Invalid ->
  is_ok (open_chain config (Ok db)) = false.
Proof.
  intros HS HK Hr Hv. unfold open_chain. destruct (validate_config config); [|done]. unfold storage at 1. cbn [map_err].
  destruct (db_active_tip db) as [t|] eqn:Et; [|done]. unfold storage at 1. cbn [map_err].
  apply (law_active_tip _ _ _ HS) in Et as ->. rewrite (pk_tip _ _ _ _ (ok_path _ _ _ _ _ HK)).
  assert (forall anchor, is_ok (load_preferred_header_tip db anchor) = false) as HL.
  { intros anchor. unfold load_preferred_header_tip.
    destruct (db_preferred_header_tip db) as [x|] eqn:Ex; [|done]. cbn [storage map_err]. apply (law_header_tip _ _ _ HS) in Ex as ->.
    rewrite (ok_header_tip _ _ _ _ _ HK). cbn [ok_or]. destruct (db_get_index db (htip_id ht)) as [x|] eqn:Ex; [|done]. cbn [storage map_err].
    apply (law_get_index _ _ _ _ HS) in Ex as ->. rewrite Hr. cbn [ok_or]. destruct (_ =? _); [|done]. by rewrite Hv. }
  unfold reopen. cbn zeta. specialize (HL (block_id (anchor_header config))).
  destruct (load_preferred_header_tip db _) as [x|x]; [done|]. clear. repeat case_match; done.
Qed.

End Refused.
