(* ===== verification/ChainProps.v ===== *)
(** What the chain state guarantees: the properties of [oregon-chainstate] over
    any database that satisfies [BlockStoreLaws], and a concrete node that runs
    them over the abstract store. *)
From S2P Require Import Prelude Encoding Transaction Block Difficulty Emission HeaderRules BlockRules Utxo Ledger Fresh.
From S2P Require Import Records StoreSpec ChainState Protocol Sync ChainRecovery Scheduler.
From S2P Require Import ChainInv ChainProofs ChainReorg ChainOpen ChainRejected.

#[global] Instance SessionHealth_eq_dec : EqDecision SessionHealth.
Proof. solve_decision. Defined.

Section Node.
Context `{Blake3} {DB : Type} `{!BlockStore DB} `{!BlockStoreLaws DB} `{!RandomX} {V : Type} `{!SpendVerifier V}.
Variable config : ChainConfig.
Variable verifier : V.

(** The blocks that are ever given to the node. *)
Variable bs : list Block.
#[local] Instance given_blocks : KnownBlocks := fun b => b ∈ bs.

Definition txid_collision : Prop := collision_in (blocks_messages bs) (blocks_messages bs).

Lemma reused_collides : Forall block_storable bs -> txid_reused config verifier -> txid_collision.
Proof.
  intros HB HR. destruct (decide txid_collision) as [|HC]; [done|exfalso].
  eapply (not_reused config verifier (fun t => exists b, b ∈ bs /\ t ∈ transactions b)); [|by eauto|exact HR].
  apply no_collision_distinct; [|exact HC]. eapply Forall_impl; [exact HB|]. intros b [H1 H2]. split; [done|].
  cbn in H2. unfold USIZE_MAX. unfold_ints. lia.
Qed.

(** The states of a node: the database is opened for the first time, blocks
    and headers are submitted, old data is pruned, and the node restarts on
    its database, also after an operation that failed. *)
Inductive runs : ChainState DB -> Prop :=
| runs_open db st : pristine db -> open_chain config (Ok db) = Ok st -> runs st
| runs_block st b : runs st -> b ∈ bs -> runs (accept_block b verifier st).2
| runs_header st h : runs st -> header_within h -> runs (accept_header h st).2
| runs_prune st : runs st -> runs (prune st).2
| runs_restart st st' : runs st -> open_chain config (Ok (cs_db st)) = Ok st' -> runs st'.

(** A node whose session is faulted still has a good database. *)
Definition node_ok (st : ChainState DB) : Prop :=
  durable config verifier (cs_db st) /\
  (cs_session st <> SessionStorageFaulted -> chain_ok config verifier st).

Lemma chain_ok_node st : chain_ok config verifier st -> node_ok st.
Proof. intros HC. split; [by eapply chain_ok_durable|done]. Qed.

(** What a public operation guarantees from a good state. *)
Definition public_post {A} (Q : A -> ChainState DB -> Prop) (st : ChainState DB)
  (p : result ChainStateError.t A * ChainState DB) : Prop :=
  node_ok p.2 /\
  match p.1 with
  | Ok a => cs_session st = SessionHealthy /\ cs_session p.2 = SessionHealthy /\ Q a p.2
  | Err e =>
      same_memory st p.2 /\
      match e with
      | ChainStateError.Storage _ => cs_session p.2 = SessionStorageFaulted
      | ChainStateError.StorageFaulted | ChainStateError.ReindexRequired => True
      | _ => cs_session p.2 = cs_session st
      end
  end.

Lemma faulting_post {A} (Q : A -> ChainState DB -> Prop) st (op : eff (ChainState DB) ChainStateError.t A) :
  node_ok st -> (cs_session st = SessionHealthy -> op_post config verifier Q st (op st)) ->
  public_post Q st (faulting op st).
Proof.
  intros HN HO. unfold faulting, ensure_mutation_allowed.
  destruct (cs_session st) eqn:Es; [|by split..]. destruct (HO eq_refl) as [HD HX].
  destruct (op st) as [[a|e] st']; cbn [fst snd] in *.
  - destruct HX as (HC & E & HQ). rewrite Es in E. split; [by apply chain_ok_node|done].
  - destruct HX as [HM HX].
    destruct e; [split; [split; [exact HD|done]|by split]| | | | | | | | | |split; [by apply chain_ok_node|by split]];
      (destruct HX as [HC E]; rewrite Es in E; split; [by apply chain_ok_node|by rewrite Es]).
Qed.

Lemma accept_block_post st b :
  Forall block_storable bs -> b ∈ bs -> node_ok st -> public_post (accepted config verifier st b) st (accept_block b verifier st) \/ txid_collision.
Proof.
  intros HB Hb HN. destruct (decide (cs_session st = SessionHealthy)) as [Es|Es].
  2: { left. apply faulting_post; [done|]. congruence. }
  destruct (accept_block_healthy_post config verifier st b) as [HX|HR]; [apply HN; congruence|by eapply Forall_forall|done| |].
  - left. by apply faulting_post.
  - right. by apply reused_collides.
Qed.

Lemma accept_header_post st h : header_within h -> node_ok st -> public_post (imported config verifier st h) st (accept_header h st).
Proof.
  intros Hh HN. apply faulting_post; [done|]. intros Es. apply accept_header_healthy_post; [apply HN; congruence|done].
Qed.

Lemma runs_ok st : config_typed config -> Forall block_storable bs -> runs st -> node_ok st \/ txid_collision.
Proof.
  intros HT HB HR. induction HR as [db st HP HO|st b HR IH Hb|st h HR IH Hh|st HR IH|st st' HR IH HO].
  - left. apply chain_ok_node. destruct (open_post config verifier db st HT (or_introl HP) HO) as [? _]. done.
  - destruct IH as [HN|?]; [|by right]. destruct (accept_block_post st b HB Hb HN) as [[? _]|?]; [by left|by right].
  - destruct IH as [HN|?]; [left|by right]. by apply (accept_header_post st h).
  - destruct IH as [HN|?]; [left|by right]. destruct (decide (cs_session st = SessionStorageFaulted)) as [Es|Es].
    + unfold prune, ensure_mutation_allowed. by rewrite Es.
    + destruct (prune_keeps config verifier st (proj2 HN Es)) as (_ & _ & s & s' & _ & HM & _). apply chain_ok_node. by exists s'.
  - destruct IH as [[HD _]|?]; [left|by right]. apply chain_ok_node.
    destruct (open_post config verifier _ _ HT (or_intror HD) HO) as [? _]. done.
Qed.

(** C1: the invariant of the chain state.  Whatever blocks and headers a
    node is given, whatever operations fail on the way, and however often it
    prunes and restarts: its database holds a tree of headers with their true
    heights and work, an active path of fully validated blocks from the
    anchor, unspent outputs that are exactly the replay of that path with
    matching undo records, and a preferred header of maximal work; and unless
    a storage error has faulted the session, the state in memory mirrors it.
    The one exception is a collision between the transactions of the blocks
    the node was given. *)
Theorem chain_state_invariant st :
  config_typed config -> Forall block_storable bs -> runs st -> node_ok st \/ txid_collision.
Proof. apply runs_ok. Qed.


(** C3: the supply in the chain state.  The unspent outputs a node holds
    in memory are worth at most what the blocks up to its tip may mint, and
    never more than the scheduled total. *)
Theorem chain_supply_bounded st :
  config_typed config -> Forall block_storable bs -> runs st -> cs_session st <> SessionStorageFaulted ->
  (total_value (cs_utxos st) <= minted (Z.to_nat (ct_height (cs_tip st))) /\
   total_value (cs_utxos st) <= SCHEDULED_TOTAL_WITH_FOUNDER_BASE_UNITS) \/ txid_collision.
Proof.
  intros HT HB HR Hs. destruct (runs_ok st HT HB HR) as [HN|?]; [left|by right].
  destruct (proj2 HN Hs) as (s & _ & _ & HK & <-). destruct (pk_ledger _ _ _ _ (ok_path _ _ _ _ _ HK)) as (c & Hc & HL & _).
  apply replay_canonical, canonical_value in Hc. pose proof (minted_bound (length c)).
  replace (Z.to_nat (ct_height (cs_tip st))) with (length c) by lia. lia.
Qed.

(** C13: restarting.  When a node reopens its database, whatever failed
    before, the state it gets satisfies the invariant with a healthy session;
    and if no storage error had faulted the session, tip, preferred header and
    unspent outputs are those it had in memory. *)
Theorem restart_restores st st' :
  config_typed config -> Forall block_storable bs -> runs st -> open_chain config (Ok (cs_db st)) = Ok st' ->
  (chain_ok config verifier st' /\ cs_session st' = SessionHealthy /\
   (cs_session st <> SessionStorageFaulted -> same_memory st st')) \/ txid_collision.
Proof.
  intros HT HB HR HO. destruct (runs_ok st HT HB HR) as [HN|?]; [left|by right]. destruct (HN) as [HD HC].
  destruct (open_post config verifier _ _ HT (or_intror HD) HO) as [H1 H2]. split_and!; [done|done|]. intros Hs.
  destruct (HC Hs) as (s & Hcfg & HS & HK & HU). unfold open_chain in HO. destruct (validate_config config); [|done].
  unfold storage in HO. cbn [map_err] in HO. destruct (db_active_tip (cs_db st)) as [t|] eqn:Et; [|done]. cbn [map_err] in HO.
  apply (law_active_tip _ _ _ HS) in Et as ->. rewrite (pk_tip _ _ _ _ (ok_path _ _ _ _ _ HK)) in HO.
  destruct (reopen_post config verifier _ _ _ _ _ HS HK HO) as ((Hcfg' & _ & _ & HU') & _ & E1 & E2 & _).
  split_and!; congruence.
Qed.

(** C14: pruning.  It keeps the invariant, the memory and the session,
    also when its commit fails; and every reorganisation within the window
    whose plan could be loaded before finds the same fork and loads the same
    plan afterwards, unless the disk fails to be read. *)
Theorem prune_keeps_reorganisations st b i d plan :
  config_typed config -> Forall block_storable bs -> runs st -> cs_session st <> SessionStorageFaulted ->
  in_u64 (idx_height i) -> discover_fork (cs_db st) (block_id (header b)) i = Ok d ->
  reorg_depth_allowed (ct_height (cs_tip st) - fork_height d) = true ->
  load_reorg_plan (cs_db st) (ct_height (cs_tip st)) d (block_id (header b)) b = Ok plan ->
  let st' := (prune st).2 in
  (chain_ok config verifier st' /\ same_memory st st' /\ cs_session st' = cs_session st /\
   reads (discover_fork (cs_db st') (block_id (header b)) i) d /\
   reads (load_reorg_plan (cs_db st') (ct_height (cs_tip st')) d (block_id (header b)) b) plan) \/ txid_collision.
Proof.
  intros HT HB HR Hs Hi Hd Hw Hl st'. destruct (runs_ok st HT HB HR) as [HN|?]; [left|by right].
  destruct (prune_keeps config verifier st (proj2 HN Hs)) as (HM & Hse & s & s' & (_ & HS & HK & _) & HM' & HP & _).
  pose proof HM' as (_ & HS' & _ & _). fold st' in HM, Hse, HM', HS'. pose proof (ok_path _ _ _ _ _ HK) as HKP.
  assert (in_u64 (ct_height (cs_tip st))) as Hu by (apply (typed_tip _ (law_typed _ _ HS) (tip_id (cs_tip st))); apply HKP).
  destruct (discover_fork_spec _ _ _ _ _ HS Hi Hd) as (fid & fr & HF).
  pose proof (active_in_range _ _ _ _ _ (pk_active _ _ _ _ HKP) (ff_active _ _ _ _ _ _ _ HF)) as HRa.
  unfold reorg_depth_allowed in Hw. pose proof HM as (_ & Et & _). rewrite Et.
  destruct (plan_kept _ _ _ _ _ _ _ _ _ HS HS' HP Hi Hu Hd ltac:(lia) ltac:(lia) Hl) as [R1 R2].
  split_and!; try done. by exists s'.
Qed.

(** C17: a rejected branch stops the next start.  When any node is given
    the block of its preferred header, that block does not extend the active
    tip, and the ledger refuses it or a block below it on its branch, the node
    keeps its memory and stays healthy and the block is marked invalid in the
    database; but the preferred header tip in the database still names it, so
    that the node cannot be started on this database again; unless two
    transactions of the given blocks collide under BLAKE3. *)
Theorem rejected_branch_blocks_restart st b e :
  config_typed config -> Forall block_storable bs -> runs st -> b ∈ bs ->
  block_id (header b) = htip_id (cs_header_tip st) -> previous_block (header b) <> tip_id (cs_tip st) ->
  (accept_block b verifier st).1 = Err (ChainStateError.Utxo e) ->
  let st' := (accept_block b verifier st).2 in
  (same_memory st st' /\ cs_session st' = SessionHealthy /\ refused config verifier st b st' /\
   is_ok (open_chain config (Ok (cs_db st'))) = false) \/ txid_collision.
Proof.
  intros HT HB HR Hb Hid Hpar HE st'. destruct (runs_ok st HT HB HR) as [HN|?]; [|by right].
  destruct (accept_block_post st b HB Hb HN) as [[_ HP]|?]; [left|by right]. rewrite HE in HP. destruct HP as [HM Hse]. fold st' in HM, Hse.
  assert (cs_session st = SessionHealthy /\ accept_block_healthy b verifier st = (Err (ChainStateError.Utxo e), st')) as [Hs EA].
  { subst st'. unfold accept_block, faulting, ensure_mutation_allowed in HE |- *. destruct (cs_session st); [|done..]. split; [done|].
    destruct (accept_block_healthy b verifier st) as [[a|x] st1]; [done|]. destruct x; done || (cbn in HE |- *; congruence). }
  assert (refused config verifier st b st') as HRf.
  { eapply accept_block_refused; [apply HN; congruence|by eapply Forall_forall|done..|exact EA]. }
  split_and!; [done|congruence|done|]. destruct HRf as (s & s' & r & _ & (_ & HS' & HK' & _) & _ & Hr & Hv).
  destruct HM as (_ & _ & Ht & _). rewrite Ht in HK'. rewrite Hid in Hr. by eapply open_refuses_invalid.
Qed.

End Node.

(** C18: the walks of the tree end.  On any database, the rounds that
    looking for an ancestor and looking for the fork are given are enough:
    more rounds never change the result, since a checked record is one above
    its parent. *)
Theorem tree_walks_terminate `{Blake3} {DB} `{!BlockStore DB} (db : DB) fuel :
  (forall id r h, checked_index db id = Ok r -> 0 <= h -> (Z.to_nat (idx_height r - h) <= fuel)%nat ->
     ancestor_loop fuel db id r h = ancestor_loop (Z.to_nat (idx_height r - h)) db id r h) /\
  (forall id r acc, 0 <= idx_height r -> (Z.to_nat (idx_height r) <= fuel)%nat ->
     discover_loop fuel db id r acc = discover_loop (Z.to_nat (idx_height r)) db id r acc).
Proof. split; intros; [by apply ancestor_loop_enough|by apply discover_loop_enough]. Qed.

(** ** The abstract store as a database *)

Section MemStore.
Context `{Blake3}.

(** A record is only encoded under the parent its header names. *)
Definition op_encodable (op : StorageOp) : bool :=
  match op with
  | PutIndex r => bool_decide (idx_parent r = previous_block (idx_header r))
  | _ => true
  end.

#[export] Instance mem_store : BlockStore Store := {|
  db_get_block := fun s id => Ok (st_blocks s !! id);
  db_get_index := fun s id => Ok (st_index s !! id);
  db_get_undo := fun s id => Ok (st_undo s !! id);
  db_iter_utxos := fun s => Ok (map_to_list (st_utxos s));
  db_iter_body_retained_indices := fun s => Ok (filter (fun p => idx_body_retained p.2 = true) (map_to_list (st_index s)));
  db_active_id_at_height := fun s h => Ok (st_active s !! h);
  db_active_tip := fun s => Ok (st_tip s);
  db_preferred_header_tip := fun s => Ok (st_header_tip s);
  db_config_anchor_id := fun s => Ok (st_anchor s);
  db_config_genesis_timestamp := fun s => Ok (st_genesis s);
  db_health := fun s => Ok (st_health s);
  db_prune_cursor := fun s => Ok (st_cursor s);
  db_commit := fun batch _ s =>
    if forallb op_encodable batch then (Ok tt, apply_batch batch s) else (Err StorageError.CorruptData, s);
|}.

Lemma mem_store_typed s batch :
  store_typed s -> Forall op_typed batch -> forallb op_encodable batch = true -> store_typed (apply_batch batch s).
Proof.
  intros HS HT. revert s HS. induction HT as [|op batch Ho HT IH]; intros s HS HE; [done|].
  cbn [forallb] in HE. apply andb_true_iff in HE as [HE1 HE2]. cbn [apply_batch foldl]. apply IH; [|done].
  destruct HS as [T1 T2 T3 T4 T5 T6 T7 T8 T9], s as [bl ix ux un ac tip htip an ge he cu].
  destruct op; cbn [op_typed op_encodable] in *; try apply bool_decide_eq_true in HE1;
    split; cbn in *; try assumption; try (intros ? ? Hl; simplify_eq; done).
  all: try (intros k v [Hne Hl]%lookup_delete_Some; eauto; fail).
  all: try (intros k v [[<- <-]|[Hne Hl]]%lookup_insert_Some; eauto; fail).
  all: intros ? [= <-]; done.
Qed.

#[local] Obligation Tactic := intros; simpl in *; destruct_and?; simplify_eq; try done.

#[export] Program Instance mem_store_laws : BlockStoreLaws Store := {| stores := fun db s => db = s /\ store_typed s |}.
Next Obligation. destruct (forallb _ _) eqn:E; [|done]. simplify_eq. split; [done|]. by apply mem_store_typed. Qed.
Next Obligation. destruct (forallb _ _) eqn:E; [done|]. simplify_eq. by left. Qed.

Lemma empty_store_pristine : pristine empty_store.
Proof. split; [done|]. by split. Qed.

End MemStore.

(** ** A node in memory *)

#[local] Existing Instance tail_hash.
#[local] Existing Instance accept_all.

(** Every key can be allocated and every hash meets its target. *)
#[local] Instance demo_randomx : RandomX := {|
  randomx_alloc_cache := fun _ => true;
  randomx_create_vm := fun _ => true;
  randomx_calculate_hash := fun _ _ => arr_fill 32 x00;
|}.

Definition demo_anchor : BlockHeader :=
  MkBlockHeader 1 (arr_fill 32 x00) (arr_fill 32 x00) 1800000000 (target_bytes (initial_target demo_params)) 0.
Definition demo_chain_config : ChainConfig := MkChainConfig demo_anchor 1800000000 demo_params.

(** A block with one coinbase, at the target its height requires. *)
Definition demo_mine (nonce : Z) (parent : BlockHeader) (height time : Z) (outs : list TxOutput) : Block :=
  let txs := [demo_coinbase height outs] in
  let root := match transaction_root txs with Ok r => r | Err _ => NULL_TXID end in
  let target := match required_target height (timestamp parent) 1800000000 demo_params with
                | Ok t => target_bytes t
                | Err _ => arr_fill 32 x00
                end in
  MkBlock (MkBlockHeader 1 (block_id parent) root time target nonce) txs.

(** One block on the anchor, and a branch of two beside it whose second
    coinbase claims one unit too much. *)
Definition demo_reward : list TxOutput := [founder_output demo_params; demo_output 237500000].
Definition block_a1 : Block := demo_mine 1 demo_anchor 1 1800000300 demo_reward.
Definition block_b1 : Block := demo_mine 2 demo_anchor 1 1800000310 demo_reward.
Definition block_b2 : Block := demo_mine 3 (header block_b1) 2 1800000600 [demo_output 237500001].
Definition demo_given : list Block := [block_a1; block_b1; block_b2].

Definition dead_node : ChainState Store :=
  MkChainState empty_store demo_chain_config (MkTip NULL_TXID 0 ChainWork_zero) (MkHeaderTip NULL_TXID 0 ChainWork_zero) ∅
    SessionStorageFaulted.

Definition unwrap_or {E A} (d : A) (r : result E A) : A := match r with Ok a => a | Err _ => d end.

Lemma unwrap_or_ok {E A} (d : A) (r : result E A) : is_ok r = true -> r = Ok (unwrap_or d r).
Proof. by destruct r. Qed.

(** The node after its first start, after each of two blocks, and after the
    header of the third. *)
Definition node_0 : ChainState Store := unwrap_or dead_node (open_chain demo_chain_config (Ok empty_store)).
Definition node_1 : ChainState Store := (accept_block block_a1 tt node_0).2.
Definition node_2 : ChainState Store := (accept_block block_b1 tt node_1).2.
Definition node_3 : ChainState Store := (accept_header (header block_b2) node_2).2.

Lemma demo_config_typed : config_typed demo_chain_config.
Proof. repeat split; by vm_compute. Qed.

Lemma demo_given_storable : Forall block_storable demo_given.
Proof. repeat constructor; by vm_compute. Qed.

Lemma node_0_runs : runs demo_chain_config tt demo_given node_0.
Proof. apply runs_open with empty_store; [apply empty_store_pristine|]. apply unwrap_or_ok. vm_compute. reflexivity. Qed.

Lemma node_1_runs : runs demo_chain_config tt demo_given node_1.
Proof. apply runs_block; [apply node_0_runs|by left]. Qed.

Lemma node_2_runs : runs demo_chain_config tt demo_given node_2.
Proof. apply runs_block; [apply node_1_runs|by right; left]. Qed.

Lemma node_3_runs : runs demo_chain_config tt demo_given node_3.
Proof. apply runs_header; [apply node_2_runs|]. repeat split; by vm_compute. Qed.

Lemma not_faulted (st : ChainState Store) :
  bool_decide (cs_session st = SessionStorageFaulted) = false -> cs_session st <> SessionStorageFaulted.
Proof. apply bool_decide_eq_false. Qed.

Lemma node_1_not_faulted : cs_session node_1 <> SessionStorageFaulted.
Proof. apply not_faulted. vm_compute. reflexivity. Qed.

Lemma node_2_not_faulted : cs_session node_2 <> SessionStorageFaulted.
Proof. apply not_faulted. vm_compute. reflexivity. Qed.

Lemma chain_state_invariant_witness :
  node_ok demo_chain_config tt demo_given node_3 \/ txid_collision demo_given.
Proof. apply (chain_state_invariant demo_chain_config tt demo_given node_3 demo_config_typed demo_given_storable node_3_runs). Defined.


Lemma chain_supply_bounded_witness :
  total_value (cs_utxos node_1) = minted 1 /\
  ((total_value (cs_utxos node_1) <= minted (Z.to_nat (ct_height (cs_tip node_1))) /\
    total_value (cs_utxos node_1) <= SCHEDULED_TOTAL_WITH_FOUNDER_BASE_UNITS) \/ txid_collision demo_given).
Proof.
  split; [vm_compute; reflexivity|].
  exact (chain_supply_bounded demo_chain_config tt demo_given node_1 demo_config_typed demo_given_storable node_1_runs
    node_1_not_faulted).
Defined.

Definition node_3_again : ChainState Store := unwrap_or dead_node (open_chain demo_chain_config (Ok (cs_db node_3))).

Lemma node_3_reopens : open_chain demo_chain_config (Ok (cs_db node_3)) = Ok node_3_again.
Proof. apply unwrap_or_ok. vm_compute. reflexivity. Qed.

Lemma restart_restores_witness :
  (chain_ok (KB := given_blocks demo_given) demo_chain_config tt node_3_again /\ cs_session node_3_again = SessionHealthy /\
   (cs_session node_3 <> SessionStorageFaulted -> same_memory node_3 node_3_again)) \/ txid_collision demo_given.
Proof.
  apply (restart_restores demo_chain_config tt demo_given node_3 node_3_again demo_config_typed demo_given_storable node_3_runs).
  exact node_3_reopens.
Defined.

(** The reorganisation to the branch of the example. *)
Definition index_b2 : BlockIndexRecord :=
  unwrap_or (anchor_record demo_chain_config) (validate_candidate_header node_2 (header block_b2)).
Definition fork_b2 : ForkDiscovery :=
  unwrap_or (MkForkDiscovery 0 []) (discover_fork (cs_db node_2) (block_id (header block_b2)) index_b2).
Definition plan_b2 : ReorgPlan :=
  unwrap_or (MkReorgPlan 0 [] []) (load_reorg_plan (cs_db node_2) (ct_height (cs_tip node_2)) fork_b2 (block_id (header block_b2)) block_b2).

Lemma index_b2_height : in_u64 (idx_height index_b2).
Proof. split; vm_compute; intros E; discriminate E. Qed.

Lemma fork_b2_found : discover_fork (cs_db node_2) (block_id (header block_b2)) index_b2 = Ok fork_b2.
Proof. apply unwrap_or_ok. vm_compute. reflexivity. Qed.

Lemma plan_b2_loaded :
  load_reorg_plan (cs_db node_2) (ct_height (cs_tip node_2)) fork_b2 (block_id (header block_b2)) block_b2 = Ok plan_b2.
Proof. apply unwrap_or_ok. vm_compute. reflexivity. Qed.

Lemma prune_keeps_reorganisations_witness :
  length (plan_candidate plan_b2) = 2%nat /\
  let st' := (prune node_2).2 in
  ((chain_ok (KB := given_blocks demo_given) demo_chain_config tt st' /\ same_memory node_2 st' /\ cs_session st' = cs_session node_2 /\
    reads (discover_fork (cs_db st') (block_id (header block_b2)) index_b2) fork_b2 /\
    reads (load_reorg_plan (cs_db st') (ct_height (cs_tip st')) fork_b2 (block_id (header block_b2)) block_b2) plan_b2) \/
   txid_collision demo_given).
Proof.
  split; [vm_compute; reflexivity|].
  apply (prune_keeps_reorganisations demo_chain_config tt demo_given node_2 block_b2 index_b2 fork_b2 plan_b2
    demo_config_typed demo_given_storable node_2_runs).
  - exact node_2_not_faulted.
  - exact index_b2_height.
  - exact fork_b2_found.
  - vm_compute. reflexivity.
  - exact plan_b2_loaded.
Defined.

Lemma tree_walks_terminate_witness :
  discover_loop 5 (cs_db node_2) (block_id (header block_b2)) index_b2 [] =
  discover_loop (Z.to_nat (idx_height index_b2)) (cs_db node_2) (block_id (header block_b2)) index_b2 [].
Proof.
  apply (proj2 (tree_walks_terminate (cs_db node_2) 5)).
  - vm_compute. intros E. discriminate E.
  - apply Nat.leb_le. vm_compute. reflexivity.
Defined.

Lemma rejected_branch_blocks_restart_witness :
  is_ok (open_chain demo_chain_config (Ok (cs_db node_3))) = true /\
  ((same_memory node_3 (accept_block block_b2 tt node_3).2 /\
    cs_session (accept_block block_b2 tt node_3).2 = SessionHealthy /\
    refused (KB := given_blocks demo_given) demo_chain_config tt node_3 block_b2 (accept_block block_b2 tt node_3).2 /\
    is_ok (open_chain demo_chain_config (Ok (cs_db (accept_block block_b2 tt node_3).2))) = false) \/ txid_collision demo_given).
Proof.
  split; [vm_compute; reflexivity|].
  apply (rejected_branch_blocks_restart demo_chain_config tt demo_given node_3 block_b2
    (UtxoError.Consensus ConsensusError.CoinbaseOverClaim) demo_config_typed demo_given_storable node_3_runs).
  - right. right. left.
  - vm_compute. reflexivity.
  - apply (bool_decide_eq_false (previous_block (header block_b2) = tip_id (cs_tip node_3))). vm_compute. reflexivity.
  - vm_compute. reflexivity.
Defined.

(** A branch beside three active blocks: the second block claims too much, two
    blocks stand on it, and a fourth makes one of them heavier than the tip. *)
Definition block_a2 : Block := demo_mine 4 (header block_a1) 2 1800000600 [demo_output 237500000].
Definition block_a3 : Block := demo_mine 5 (header block_a2) 3 1800000900 [demo_output 237500000].
Definition block_c3 : Block := demo_mine 6 (header block_b2) 3 1800000900 [demo_output 237500000].
Definition block_d3 : Block := demo_mine 7 (header block_b2) 3 1800000910 [demo_output 237500000].
Definition block_c4 : Block := demo_mine 8 (header block_c3) 4 1800001200 [demo_output 237500000].

Definition accept_all_blocks (l : list Block) (st : ChainState Store) : ChainState Store :=
  foldl (fun st b => (accept_block b tt st).2) st l.

Definition branch_given : list Block := [block_a1; block_a2; block_a3; block_b1; block_b2; block_c3; block_d3; block_c4].
Definition node_8 : ChainState Store := accept_all_blocks branch_given node_0.

Lemma accept_all_runs given l st : runs demo_chain_config tt given st -> l ⊆ given -> runs demo_chain_config tt given (accept_all_blocks l st).
Proof.
  revert st. induction l as [|b l IH]; intros st HR Hl; [done|]. cbn [accept_all_blocks foldl]. apply IH; [|set_solver].
  apply runs_block; [done|set_solver].
Qed.

(** A rejected branch stops pruning.  When a reorganisation fails, the blocks
    of its path are marked invalid, but not the other blocks that stand on
    them; a healthy node that keeps the body of such a block refuses to prune,
    reporting a corrupt state. *)
Theorem rejected_branch_blocks_pruning :
  exists st : ChainState Store,
    runs demo_chain_config tt branch_given st /\ cs_session st = SessionHealthy /\ (prune st).1 = Err ChainStateError.CorruptState.
Proof.
  exists node_8. split; [apply accept_all_runs; [|done]|split; vm_compute; reflexivity].
  apply runs_open with empty_store; [apply empty_store_pristine|]. apply unwrap_or_ok. vm_compute. reflexivity.
Qed.
