(* ===== verification/ChainSync.v ===== *)
(** The chain state serves synchronisation: the view that [oregon-node] builds
    from it satisfies the contract [serves] of Sync.v, so that the theorems on
    locators, header rounds and download targets hold of a running node. *)
From S2P Require Import Prelude Encoding Transaction Block Difficulty Emission HeaderRules BlockRules Utxo Ledger Fresh.
From S2P Require Import Records StoreSpec ChainState Protocol Sync ChainRecovery Scheduler.
From S2P Require Import ChainInv ChainProofs ChainReorg ChainOpen ChainProps.

(** A list from a choice at every position. *)
Lemma list_of_choices {A} (P : nat -> A -> Prop) n :
  (forall k, (k < n)%nat -> exists a, P k a) -> exists l, length l = n /\ forall k a, l !! k = Some a -> P k a.
Proof.
  induction n as [|n IH]; intros HP; [exists []; split; [done|]; intros; by rewrite lookup_nil in *|].
  destruct IH as (l & HL & HI); [intros; apply HP; lia|]. destruct (HP n) as [a Ha]; [lia|]. exists (l ++ [a]).
  split; [rewrite length_app; cbn; lia|]. intros k x Hk. apply lookup_app_Some in Hk as [Hk|[Hge Hk]]; [by apply HI|].
  apply list_lookup_singleton_Some in Hk as [E <-]. by replace k with n by lia.
Qed.

Section Walk.
Context `{Blake3} {DB : Type} `{!BlockStore DB}.

(** The branch below a checked record whose walk to the anchor succeeds: one
    checked record at every height, each the parent of the next, and what the
    walk to any height returns. *)
Record branch (db : DB) (id : Hash256) (r : BlockIndexRecord) (l : list (Hash256 * BlockIndexRecord)) : Prop := MkBranch {
  br_length : Z.of_nat (length l) = idx_height r + 1;
  br_last : last l = Some (id, r);
  br_checked k p : l !! k = Some p -> checked_index db p.1 = Ok p.2;
  br_parent k p q : l !! k = Some p -> l !! S k = Some q -> idx_parent q.2 = p.1;
  br_height k p : l !! k = Some p -> idx_height p.2 = Z.of_nat k;
  br_walk k p : l !! k = Some p ->
    ancestor_loop (Z.to_nat (idx_height r - Z.of_nat k)) db id r (Z.of_nat k) = Ok p.1;
}.

Lemma walk_branch n : forall (db : DB) id r a,
  n = Z.to_nat (idx_height r) -> 0 <= idx_height r -> checked_index db id = Ok r ->
  ancestor_loop n db id r 0 = Ok a -> exists l, branch db id r l /\ head l.*1 = Some a.
Proof.
  induction n as [|n IH]; intros db id r a HN H0 Hc; cbn [ancestor_loop].
  - destruct (Z.gtb_spec (idx_height r) 0); [lia|]. intros [= <-]. exists [(id, r)]. split; [|done]. split.
    + cbn. lia.
    + done.
    + intros k p Hk. by apply list_lookup_singleton_Some in Hk as [_ <-].
    + intros k p q _ Hq. by apply list_lookup_singleton_Some in Hq as [? _].
    + intros k p Hk. apply list_lookup_singleton_Some in Hk as [-> <-]. cbn [snd]. lia.
    + intros k p Hk. apply list_lookup_singleton_Some in Hk as [-> <-]. replace (Z.to_nat (idx_height r - Z.of_nat 0)) with 0%nat by lia.
      cbn [ancestor_loop]. destruct (Z.gtb_spec (idx_height r) (Z.of_nat 0)); [lia|done].
  - destruct (Z.gtb_spec (idx_height r) 0); [|lia]. destruct (checked_index db (idx_parent r)) as [p|] eqn:Ep; [|done].
    pose proof (checked_index_parent _ _ _ _ Hc ltac:(lia) Ep) as Eh. intros Ha.
    destruct (IH db (idx_parent r) p a) as (l & [B1 B2 B3 B4 B6 B5] & Hh); [lia|lia|done|done|].
    assert (l <> []) as Hne by (by intros ->). exists (l ++ [(id, r)]). split; [split|].
    + rewrite length_app. cbn. lia.
    + apply last_snoc.
    + intros k q Hk. apply lookup_app_Some in Hk as [Hk|[_ Hk]]; [by eapply B3|]. by apply list_lookup_singleton_Some in Hk as [_ <-].
    + intros k x q Hx Hq. apply lookup_app_Some in Hq as [Hq|[Hge Hq]].
      * rewrite lookup_app_l in Hx by (apply lookup_lt_Some in Hq; lia). by eapply B4.
      * apply list_lookup_singleton_Some in Hq as [E <-]. rewrite lookup_app_l in Hx by lia. cbn [snd].
        rewrite last_lookup in B2. replace (pred (length l)) with k in B2 by lia. rewrite B2 in Hx. by injection Hx as <-.
    + intros k q Hk. apply lookup_app_Some in Hk as [Hk|[Hge Hk]]; [by apply B6|].
      apply list_lookup_singleton_Some in Hk as [E <-]. cbn [snd]. lia.
    + intros k q Hk. apply lookup_app_Some in Hk as [Hk|[Hge Hk]].
      * pose proof (lookup_lt_Some _ _ _ Hk). apply B5 in Hk.
        replace (Z.to_nat (idx_height r - Z.of_nat k)) with (S (Z.to_nat (idx_height p - Z.of_nat k))) by lia. cbn [ancestor_loop].
        destruct (Z.gtb_spec (idx_height r) (Z.of_nat k)); [|lia]. by rewrite Ep.
      * apply list_lookup_singleton_Some in Hk as [E <-]. assert (Z.of_nat k = idx_height r) as -> by lia. rewrite Z.sub_diag.
        change (Z.to_nat 0) with 0%nat. cbn [ancestor_loop]. by destruct (Z.gtb_spec (idx_height r) (idx_height r)); [lia|].
    + rewrite fmap_app. destruct l as [|x l]; [done|]. exact Hh.
Qed.

(** Looking a height up on such a branch. *)
Lemma branch_lookup (db : DB) id r l k :
  branch db id r l -> checked_index db id = Ok r ->
  ancestor_id_at_height (MkBranchView db id) (Z.of_nat k) = Ok (l.*1 !! k).
Proof.
  intros [B1 B2 B3 B4 _ B5] Hc. unfold ancestor_id_at_height. cbn [bv_db bv_tip]. rewrite Hc, list_lookup_fmap.
  destruct (l !! k) as [p|] eqn:Ek; cbn [fmap option_fmap option_map].
  - pose proof (lookup_lt_Some _ _ _ Ek). destruct (Z.gtb_spec (Z.of_nat k) (idx_height r)); [lia|]. by rewrite (B5 _ _ Ek).
  - apply lookup_ge_None in Ek. by destruct (Z.gtb_spec (Z.of_nat k) (idx_height r)); [|lia].
Qed.

End Walk.

Section Serve.
Context `{Blake3} {DB : Type} `{!BlockStore DB} `{!BlockStoreLaws DB} `{!RandomX} {V : Type} `{!SpendVerifier V}.
Variable config : ChainConfig.
Variable verifier : V.

Lemma contiguous_intro c :
  (forall k a b, c !! k = Some a -> c !! S k = Some b -> previous_block b = block_id a) -> contiguous c = true.
Proof.
  induction c as [|a [|b c] IH]; intros HC; [done|done|]. cbn [contiguous]. apply andb_true_iff. split.
  - apply bool_decide_eq_true. by apply (HC 0%nat).
  - apply IH. intros k x y Hx Hy. by apply (HC (S k)).
Qed.

(** The database can be read. *)
Definition readable (db : DB) : Prop :=
  (forall id, is_ok (db_get_index db id) = true) /\
  (forall h, in_u64 h -> is_ok (db_active_id_at_height db h) = true).

(** The headers of the active chain, the anchor first. *)
Lemma active_headers s tip :
  store_typed s -> active_ok config s tip ->
  exists active, Z.of_nat (length active) = ct_height tip + 1 /\ (forall k, ids active !! k = st_active s !! Z.of_nat k) /\
    contiguous active = true.
Proof.
  intros HT HA. pose proof (ac_height _ _ _ HA) as Hz.
  destruct (list_of_choices (fun k h => exists id r, st_active s !! Z.of_nat k = Some id /\ st_index s !! id = Some r /\
    h = idx_header r /\ (0 < Z.of_nat k -> st_active s !! (Z.of_nat k - 1) = Some (idx_parent r)))
    (S (Z.to_nat (ct_height tip)))) as (l & HL & HI).
  { intros k Hk. destruct (ac_at _ _ _ HA (Z.of_nat k)) as (id & r & ? & ? & _ & _ & ?); [lia|]. by exists (idx_header r), id, r. }
  exists l. split_and!; [lia| |].
  - intros k. unfold ids. change (map block_id l) with (block_id <$> l). rewrite list_lookup_fmap.
    destruct (l !! k) as [h|] eqn:Ek; cbn [fmap option_fmap option_map].
    + destruct (HI _ _ Ek) as (id & r & -> & Hr & -> & _). apply (typed_index _ HT) in Hr as (-> & _). done.
    + apply lookup_ge_None in Ek. rewrite (ac_outside _ _ _ HA); [done|lia].
  - apply contiguous_intro. intros k a b Ha Hb. destruct (HI _ _ Ha) as (ida & ra & Aa & Ia & -> & _).
    destruct (HI _ _ Hb) as (idb & rb & Ab & Ib & -> & Hp). apply (typed_index _ HT) in Ia as (<- & _).
    apply (typed_index _ HT) in Ib as (_ & <- & _). specialize (Hp ltac:(lia)).
    replace (Z.of_nat (S k) - 1) with (Z.of_nat k) in Hp by lia. congruence.
Qed.

Lemma checked_stored (db : DB) s id r : stores db s -> checked_index db id = Ok r -> st_index s !! id = Some r.
Proof.
  intros HS Hc. apply checked_index_get in Hc. destruct (db_get_index db id) as [x|] eqn:E; [|done].
  apply (law_get_index _ _ _ _ HS) in E as ->. by injection Hc.
Qed.

(** The headers of a branch that reaches the anchor. *)
Lemma branch_headers (db : DB) s id r l a :
  stores db s -> tree_ok config s -> branch db id r l -> head l.*1 = Some a ->
  ids (map (fun p => idx_header p.2) l) = l.*1 /\ contiguous (map (fun p => idx_header p.2) l) = true /\ a = anchor_id config.
Proof.
  intros HS HT [B1 B2 B3 B4 B6 _] Ha. pose proof (law_typed _ _ HS) as HTy.
  assert (forall k p, l !! k = Some p -> block_id (idx_header p.2) = p.1 /\ idx_parent p.2 = previous_block (idx_header p.2)) as Hid.
  { intros k p Hk. apply B3, (checked_stored _ _ _ _ HS), (typed_index _ HTy) in Hk as (? & ? & _). done. }
  split_and!.
  - unfold ids. rewrite map_map. apply list_eq. intros k. change (map (fun x => block_id (idx_header x.2)) l) with ((fun x => block_id (idx_header x.2)) <$> l).
    rewrite !list_lookup_fmap. destruct (l !! k) as [p|] eqn:Ek; [|done]. cbn. by rewrite (proj1 (Hid _ _ Ek)).
  - apply contiguous_intro. intros k x y Hx Hy. change (map (fun p => idx_header p.2) l) with ((fun p : Hash256 * BlockIndexRecord => idx_header p.2) <$> l) in *.
    apply list_lookup_fmap_Some in Hx as (p & -> & Hp). apply list_lookup_fmap_Some in Hy as (q & -> & Hq).
    rewrite (proj1 (Hid _ _ Hp)), <- (proj2 (Hid _ _ Hq)). by eapply B4.
  - destruct l as [|p l]; [done|]. injection Ha as <-. pose proof (B3 0%nat p eq_refl) as Hp.
    apply (checked_stored _ _ _ _ HS) in Hp.
    destruct (HT _ _ Hp) as [(_ & ? & _)|(q & Hq & [Eh _])]; [done|exfalso].
    apply (typed_index _ HTy) in Hq as (_ & _ & (_ & [Hq0 _] & _)).
    pose proof (B6 0%nat p eq_refl). lia.
Qed.

(** The bodies the index of a store records as retained. *)
Definition retained_in (s : Store) (id : Hash256) : bool :=
  match st_index s !! id with Some r => idx_body_retained r | None => false end.

(** A node serves two chains out of a store: the active chain of the store up
    to the tip and the preferred chain up to the preferred header. *)
Record served (st : ChainState DB) (s : Store) (active preferred : list BlockHeader) : Prop := MkServed {
  sd_view : serves (NodeSyncView st) active preferred (retained_in s);
  sd_active k : ids active !! k = st_active s !! Z.of_nat k;
  sd_linked : contiguous active = true /\ contiguous preferred = true;
  sd_anchor : head (ids preferred) = Some (ChainState_chain_id st);
  sd_active_tip : last (ids active) = Some (tip_id (cs_tip st)) /\
    view_active_tip (ChainSyncView := NodeSyncView st) = Ok (MkSyncTip (tip_id (cs_tip st)) (ct_height (cs_tip st)));
  sd_preferred_tip : last (ids preferred) = Some (htip_id (cs_header_tip st)) /\
    view_preferred_header_tip (ChainSyncView := NodeSyncView st) =
      Ok (MkSyncTip (htip_id (cs_header_tip st)) (htip_height (cs_header_tip st)));
}.

(** The node's view of its own chain state, read from a readable database. *)
Lemma view_serves {KB : KnownBlocks} st s a :
  mirrors config verifier st s -> readable (cs_db st) -> htip_height (cs_header_tip st) < U64_MAX ->
  ancestor_id_at_height (MkBranchView (cs_db st) (htip_id (cs_header_tip st))) 0 = Ok (Some a) ->
  exists active preferred, served st s active preferred.
Proof.
  intros (Hcfg & HS & HK & _) [HRi HRa] Hmax Hw. pose proof (ok_path _ _ _ _ _ HK) as HP. pose proof (law_typed _ _ HS) as HTy.
  destruct (active_headers s (cs_tip st) HTy (pk_active _ _ _ _ HP)) as (active & A1 & A2 & A3).
  destruct (ok_headers _ _ _ _ _ HK) as [(rt & Hrt & Hh & _) _].
  pose proof Hw as Hw'. unfold ancestor_id_at_height in Hw'. cbn [bv_db bv_tip] in Hw'.
  destruct (checked_index (cs_db st) (htip_id (cs_header_tip st))) as [r|] eqn:Ec; [|done].
  assert (r = rt) as -> by (pose proof (checked_stored _ _ _ _ HS Ec); congruence).
  destruct (typed_index _ HTy _ _ Hrt) as (_ & _ & (_ & [Hr0 _] & _)).
  destruct (Z.gtb_spec 0 (idx_height rt)); [done|]. rewrite Z.sub_0_r in Hw'.
  destruct (ancestor_loop _ _ _ _ _) as [a'|] eqn:Ea; [|done]. injection Hw' as ->.
  destruct (walk_branch _ _ _ _ _ eq_refl Hr0 Ec Ea) as (l & HB & Hhd).
  destruct (branch_headers _ _ _ _ _ _ HS (pk_tree _ _ _ _ HP) HB Hhd) as (Hids & Hcont & ->).
  pose proof (br_length _ _ _ _ HB) as HL.
  assert (forall k, preferred_header_id_at_height st (Z.of_nat k) = Ok (l.*1 !! k)) as Hpid.
  { intros k. unfold preferred_header_id_at_height. destruct (Z.gtb_spec (Z.of_nat k) (htip_height (cs_header_tip st))).
    - by rewrite lookup_ge_None_2 by (rewrite length_fmap; lia).
    - by rewrite (branch_lookup _ _ _ _ _ HB Ec). }
  exists active, (map (fun p => idx_header p.2) l). split; [split|done|done| | |].
  - exists (tip_id (cs_tip st)). cbn. by replace (Z.of_nat (length active) - 1) with (ct_height (cs_tip st)) by lia.
  - exists (htip_id (cs_header_tip st)). cbn. rewrite length_map. by replace (Z.of_nat (length l) - 1) with (htip_height (cs_header_tip st)) by lia.
  - intros n Hn. cbn. unfold ChainState_active_id_at_height, view_result, storage. rewrite A2.
    assert (in_u64 (Z.of_nat n)) as Hu by (unfold_ints; lia). specialize (HRa _ Hu).
    destruct (db_active_id_at_height (cs_db st) (Z.of_nat n)) as [x|] eqn:E; [|done]. cbn [map_err].
    by rewrite (law_active_id _ _ _ _ HS Hu E).
  - intros n. cbn. by rewrite Hpid, Hids.
  - intros n. cbn. unfold preferred_header_at_height. rewrite Hpid, list_lookup_fmap.
    change (map (fun p => idx_header p.2) l) with ((fun p : Hash256 * BlockIndexRecord => idx_header p.2) <$> l). rewrite list_lookup_fmap.
    destruct (l !! n) as [p|] eqn:En; [|done]. cbn [fmap option_fmap option_map].
    by rewrite (checked_index_get _ _ _ (br_checked _ _ _ _ HB _ _ En)).
  - intros id. cbn. unfold ChainState_body_retained, view_result, storage. specialize (HRi id).
    destruct (db_get_index (cs_db st) id) as [x|] eqn:E; [|done]. cbn [map_err]. by rewrite (law_get_index _ _ _ _ HS E).
  - exists (anchor_id config). rewrite Hids. split; [|done]. rewrite head_lookup, A2. apply (ac_anchor _ _ _ (pk_active _ _ _ _ HP)).
  - rewrite length_map. lia.
  - rewrite Hids, Hhd. unfold ChainState_chain_id. by rewrite Hcfg.
  - split; [|done]. pose proof (ac_height _ _ _ (pk_active _ _ _ _ HP)). rewrite last_lookup, length_ids, A2. replace (Z.of_nat (pred (length active))) with (ct_height (cs_tip st)) by lia.
    by destruct (ac_tip _ _ _ (pk_active _ _ _ _ HP)) as (? & ? & _).
  - split; [|done]. by rewrite Hids, fmap_last, (br_last _ _ _ _ HB).
Qed.

(** C15: the node serves synchronisation.  Whenever the walk from the
    preferred header tip to the anchor succeeds and the database can be read,
    the view a running node gives to synchronisation answers from two chains
    of linked headers, both from the anchor: the active chain its database
    records, up to the tip, and the preferred chain, up to the preferred
    header; and it reports exactly the bodies that the index of its database
    records as retained.  It is assumed that no storage error has faulted the
    session, that the preferred header is below the last height there is, and
    that no two transactions of the given blocks collide. *)
Theorem node_view_serves bs st a :
  config_typed config -> Forall block_storable bs -> runs config verifier bs st -> cs_session st <> SessionStorageFaulted ->
  readable (cs_db st) -> htip_height (cs_header_tip st) < U64_MAX ->
  ancestor_id_at_height (MkBranchView (cs_db st) (htip_id (cs_header_tip st))) 0 = Ok (Some a) ->
  (exists s active preferred, mirrors (KB := given_blocks bs) config verifier st s /\ served st s active preferred) \/ txid_collision bs.
Proof.
  intros HT HB HR Hs HRd Hmax Hw. destruct (runs_ok config verifier bs st HT HB HR) as [HN|?]; [left|by right].
  destruct (proj2 HN Hs) as (s & HM). exists s.
  destruct (view_serves (KB := given_blocks bs) st s a) as (active & preferred & HV); [done..|]. by exists active, preferred.
Qed.

End Serve.

(** ** The node of the example *)

#[local] Existing Instance tail_hash.
#[local] Existing Instance accept_all.
#[local] Existing Instance demo_randomx.

Lemma node_3_not_faulted : cs_session node_3 <> SessionStorageFaulted.
Proof. apply not_faulted. vm_compute. reflexivity. Qed.

Lemma node_3_height : htip_height (cs_header_tip node_3) < U64_MAX.
Proof. vm_compute. reflexivity. Qed.

Definition anchor_3 : Hash256 :=
  default NULL_TXID (unwrap_or None (ancestor_id_at_height (MkBranchView (cs_db node_3) (htip_id (cs_header_tip node_3))) 0)).

Lemma some_of_ok {E A} (d : A) (r : result E (option A)) :
  match r with Ok (Some _) => true | _ => false end = true -> r = Ok (Some (default d (unwrap_or None r))).
Proof. by destruct r as [[a|]|]. Qed.

Lemma anchor_3_found :
  ancestor_id_at_height (MkBranchView (cs_db node_3) (htip_id (cs_header_tip node_3))) 0 = Ok (Some anchor_3).
Proof. apply some_of_ok. vm_compute. reflexivity. Qed.

Lemma node_view_serves_witness :
  (exists s active preferred, mirrors (KB := given_blocks demo_given) demo_chain_config tt node_3 s /\ served node_3 s active preferred) \/
  txid_collision demo_given.
Proof.
  apply (node_view_serves demo_chain_config tt demo_given node_3 anchor_3 demo_config_typed demo_given_storable node_3_runs
    node_3_not_faulted).
  - split; reflexivity.
  - exact node_3_height.
  - exact anchor_3_found.
Defined.
