(* ===== verification/Runtime.v ===== *)
(** [oregon-runtime]: the calls, results and traps of the execution runtimes,
    and the interface between a runtime and its host ([types.rs], [host.rs]).

    The source's [RuntimeBackendV1] is a trait object: any program that talks
    to its host through the methods of [RuntimeHostV1] and returns.  Here it is
    the tree of its host calls: a leaf is what [execute] returns, every other
    node is one call, with the rest of the program as a function of the answer.
    The tree is inductive, so a backend makes finitely many calls on every
    path; nothing else is assumed about it. *)
From S2P Require Import Prelude Encoding Layout Address Envelope.

Definition RUNTIME_ABI_VERSION_V1 : Z := 1.
Definition MAX_RUNTIME_CALL_DEPTH : Z := 64.
Definition MAX_RUNTIME_CALL_INPUT_BYTES : Z := 262144.
Definition MAX_RUNTIME_RETURN_DATA_BYTES : Z := 262144.

Module RuntimeAbiError.
Inductive t : Type :=
| InvalidCallTarget
| CallInputTooLarge
| InvalidCallDepth
| ContextDomainTargetMismatch
| ReturnDataTooLarge
| UnknownTrapCode (code : Z).
End RuntimeAbiError.

(** ** Calls *)

Record RuntimeCallSpecV1 : Type := MkCallSpec {
  spec_target : ExecutionAddress;
  spec_value : Z;
  spec_read_only : bool;
  spec_input : list byte;
}.

(** [matches!(kind, Evm | Wasm)] *)
Definition runtime_kind (k : ExecutionAddressKind) : bool :=
  match k with KindEvm | KindWasm => true | KindOregon | KindSystem => false end.

Definition RuntimeCallSpecV1_new (target : ExecutionAddress) (value : Z) (read_only : bool) (input : list byte)
  : result RuntimeAbiError.t RuntimeCallSpecV1 :=
  if Z.of_nat (length input) >? MAX_RUNTIME_CALL_INPUT_BYTES then Err RuntimeAbiError.CallInputTooLarge
  else if negb (runtime_kind (kind target)) then Err RuntimeAbiError.InvalidCallTarget
  else Ok (MkCallSpec target value read_only input).

Record RuntimeCallContextV1Parts : Type := MkContextParts {
  cx_chain_id : Z;
  cx_height : Z;
  cx_parent_block_hash : Hash256;
  cx_txid : Hash256;
  cx_principal : ExecutionAddress;
  cx_caller : ExecutionAddress;
  cx_target : ExecutionAddress;
  cx_execution_domain : ExecutionDomain;
  cx_depth : Z;
  cx_read_only : bool;
  cx_transferred_value : Z;
}.

Record RuntimeCallContextV1 : Type := MkCallContext { cx_parts : RuntimeCallContextV1Parts }.

Definition target_matches_domain (d : ExecutionDomain) (k : ExecutionAddressKind) : bool :=
  match d, k with ExecEvm, KindEvm | ExecWasm, KindWasm => true | _, _ => false end.

Definition from_trusted_parts (p : RuntimeCallContextV1Parts) : result RuntimeAbiError.t RuntimeCallContextV1 :=
  if negb ((1 <=? cx_depth p) && (cx_depth p <=? MAX_RUNTIME_CALL_DEPTH)) then Err RuntimeAbiError.InvalidCallDepth
  else if negb (target_matches_domain (cx_execution_domain p) (kind (cx_target p)))
  then Err RuntimeAbiError.ContextDomainTargetMismatch
  else Ok (MkCallContext p).

(** ** Results *)

Module RuntimeTrapCodeV1.
Inductive t : Type :=
| BackendDeterministic
| InvalidCallTarget
| StateAccessDenied
| ReadOnlyViolation
| CallDepthExceeded
| CallInputTooLarge
| ReturnDataTooLarge
| EventLimitExceeded
| AttachedValueTransferFailed
| UnsupportedOperation
| InvalidHostInput.
End RuntimeTrapCodeV1.

#[global] Instance RuntimeTrapCodeV1_eq_dec : EqDecision RuntimeTrapCodeV1.t.
Proof. solve_decision. Defined.

(** [code as u16] *)
Definition trap_u16 (c : RuntimeTrapCodeV1.t) : Z :=
  match c with
  | RuntimeTrapCodeV1.BackendDeterministic => 1
  | RuntimeTrapCodeV1.InvalidCallTarget => 2
  | RuntimeTrapCodeV1.StateAccessDenied => 3
  | RuntimeTrapCodeV1.ReadOnlyViolation => 4
  | RuntimeTrapCodeV1.CallDepthExceeded => 5
  | RuntimeTrapCodeV1.CallInputTooLarge => 6
  | RuntimeTrapCodeV1.ReturnDataTooLarge => 7
  | RuntimeTrapCodeV1.EventLimitExceeded => 8
  | RuntimeTrapCodeV1.AttachedValueTransferFailed => 9
  | RuntimeTrapCodeV1.UnsupportedOperation => 10
  | RuntimeTrapCodeV1.InvalidHostInput => 11
  end.

Definition trap_try_from (value : Z) : result RuntimeAbiError.t RuntimeTrapCodeV1.t :=
  match value with
  | 1 => Ok RuntimeTrapCodeV1.BackendDeterministic
  | 2 => Ok RuntimeTrapCodeV1.InvalidCallTarget
  | 3 => Ok RuntimeTrapCodeV1.StateAccessDenied
  | 4 => Ok RuntimeTrapCodeV1.ReadOnlyViolation
  | 5 => Ok RuntimeTrapCodeV1.CallDepthExceeded
  | 6 => Ok RuntimeTrapCodeV1.CallInputTooLarge
  | 7 => Ok RuntimeTrapCodeV1.ReturnDataTooLarge
  | 8 => Ok RuntimeTrapCodeV1.EventLimitExceeded
  | 9 => Ok RuntimeTrapCodeV1.AttachedValueTransferFailed
  | 10 => Ok RuntimeTrapCodeV1.UnsupportedOperation
  | 11 => Ok RuntimeTrapCodeV1.InvalidHostInput
  | _ => Err (RuntimeAbiError.UnknownTrapCode value)
  end.

Module RuntimeCallResultV1.
Inductive t : Type :=
| Success (return_data : list byte)
| Revert (return_data : list byte)
| Trap (code : RuntimeTrapCodeV1.t).
End RuntimeCallResultV1.

Definition call_return_data (r : RuntimeCallResultV1.t) : option (list byte) :=
  match r with
  | RuntimeCallResultV1.Success data | RuntimeCallResultV1.Revert data => Some data
  | RuntimeCallResultV1.Trap _ => None
  end.

Definition call_trap_code (r : RuntimeCallResultV1.t) : option RuntimeTrapCodeV1.t :=
  match r with
  | RuntimeCallResultV1.Trap code => Some code
  | RuntimeCallResultV1.Success _ | RuntimeCallResultV1.Revert _ => None
  end.

Definition call_validate (r : RuntimeCallResultV1.t) : result RuntimeAbiError.t unit :=
  match r with
  | RuntimeCallResultV1.Success data | RuntimeCallResultV1.Revert data =>
      if Z.of_nat (length data) >? MAX_RUNTIME_RETURN_DATA_BYTES then Err RuntimeAbiError.ReturnDataTooLarge
      else Ok tt
  | RuntimeCallResultV1.Trap _ => Ok tt
  end.

Definition call_success (return_data : list byte) : result RuntimeAbiError.t RuntimeCallResultV1.t :=
  let r := RuntimeCallResultV1.Success return_data in
  let? _ := call_validate r in Ok r.

Definition call_revert (return_data : list byte) : result RuntimeAbiError.t RuntimeCallResultV1.t :=
  let r := RuntimeCallResultV1.Revert return_data in
  let? _ := call_validate r in Ok r.

(** ** The host interface *)

Module RuntimeHostSignalV1.
Inductive t : Type := Trap (code : RuntimeTrapCodeV1.t) | Abort.
End RuntimeHostSignalV1.

Inductive RuntimeBackendFailureV1 : Type := BackendFatal.

Abbreviation host_result := (result RuntimeHostSignalV1.t).

(** The methods of the trait, over the state behind [&mut self]. *)
Record RuntimeHostV1 (S : Type) : Type := MkRuntimeHost {
  host_context : RuntimeCallContextV1;
  host_state_get : list byte -> eff S RuntimeHostSignalV1.t (option (list byte));
  host_state_put : list byte -> list byte -> eff S RuntimeHostSignalV1.t unit;
  host_state_delete : list byte -> eff S RuntimeHostSignalV1.t unit;
  host_emit_event : list Hash256 -> list byte -> eff S RuntimeHostSignalV1.t unit;
  host_call : RuntimeCallSpecV1 -> eff S RuntimeHostSignalV1.t RuntimeCallResultV1.t;
  host_charge_vm_units : Z -> eff S RuntimeHostSignalV1.t unit;
  host_charge_common : Z -> eff S RuntimeHostSignalV1.t unit;
}.
Arguments MkRuntimeHost {S}.
Arguments host_context {S}.
Arguments host_state_get {S}.
Arguments host_state_put {S}.
Arguments host_state_delete {S}.
Arguments host_emit_event {S}.
Arguments host_call {S}.
Arguments host_charge_vm_units {S}.
Arguments host_charge_common {S}.

(** A backend. *)
Inductive RuntimeBackendV1 : Type :=
| Return (r : result RuntimeBackendFailureV1 RuntimeCallResultV1.t)
| Context (k : RuntimeCallContextV1 -> RuntimeBackendV1)
| StateGet (key : list byte) (k : host_result (option (list byte)) -> RuntimeBackendV1)
| StatePut (key value : list byte) (k : host_result unit -> RuntimeBackendV1)
| StateDelete (key : list byte) (k : host_result unit -> RuntimeBackendV1)
| EmitEvent (topics : list Hash256) (data : list byte) (k : host_result unit -> RuntimeBackendV1)
| Call (spec : RuntimeCallSpecV1) (k : host_result RuntimeCallResultV1.t -> RuntimeBackendV1)
| ChargeVmUnits (units : Z) (k : host_result unit -> RuntimeBackendV1)
| ChargeCommon (units : Z) (k : host_result unit -> RuntimeBackendV1).

(** [backend.execute(&mut host)] *)
Fixpoint backend_execute {S} (host : RuntimeHostV1 S) (b : RuntimeBackendV1)
  : eff S RuntimeBackendFailureV1 RuntimeCallResultV1.t := fun s =>
  match b with
  | Return r => (r, s)
  | Context k => backend_execute host (k (host_context host)) s
  | StateGet key k => let '(a, s') := host_state_get host key s in backend_execute host (k a) s'
  | StatePut key value k => let '(a, s') := host_state_put host key value s in backend_execute host (k a) s'
  | StateDelete key k => let '(a, s') := host_state_delete host key s in backend_execute host (k a) s'
  | EmitEvent topics data k => let '(a, s') := host_emit_event host topics data s in backend_execute host (k a) s'
  | Call spec k => let '(a, s') := host_call host spec s in backend_execute host (k a) s'
  | ChargeVmUnits units k => let '(a, s') := host_charge_vm_units host units s in backend_execute host (k a) s'
  | ChargeCommon units k => let '(a, s') := host_charge_common host units s in backend_execute host (k a) s'
  end.

(** ** The values a backend can pass

    The arguments of the host methods are Rust values: integers in their
    range, and call specifications made by their constructor. *)

Definition spec_ok (s : RuntimeCallSpecV1) : Prop :=
  in_u64 (spec_value s) /\ Z.of_nat (length (spec_input s)) <= MAX_RUNTIME_CALL_INPUT_BYTES /\
  runtime_kind (kind (spec_target s)) = true.

Inductive backend_ok : RuntimeBackendV1 -> Prop :=
| ok_Return r : backend_ok (Return r)
| ok_Context k : (forall c, backend_ok (k c)) -> backend_ok (Context k)
| ok_StateGet key k : (forall a, backend_ok (k a)) -> backend_ok (StateGet key k)
| ok_StatePut key value k : (forall a, backend_ok (k a)) -> backend_ok (StatePut key value k)
| ok_StateDelete key k : (forall a, backend_ok (k a)) -> backend_ok (StateDelete key k)
| ok_EmitEvent topics data k : (forall a, backend_ok (k a)) -> backend_ok (EmitEvent topics data k)
| ok_Call spec k : spec_ok spec -> (forall a, backend_ok (k a)) -> backend_ok (Call spec k)
| ok_ChargeVmUnits units k : in_u64 units -> (forall a, backend_ok (k a)) -> backend_ok (ChargeVmUnits units k)
| ok_ChargeCommon units k : in_u64 units -> (forall a, backend_ok (k a)) -> backend_ok (ChargeCommon units k).

Definition context_ok (c : RuntimeCallContextV1) : Prop :=
  1 <= cx_depth (cx_parts c) <= MAX_RUNTIME_CALL_DEPTH /\
  target_matches_domain (cx_execution_domain (cx_parts c)) (kind (cx_target (cx_parts c))) = true.

Lemma from_trusted_parts_Ok p c : from_trusted_parts p = Ok c <-> c = MkCallContext p /\ context_ok c.
Proof.
  unfold from_trusted_parts, context_ok. split.
  - destruct (Z.leb_spec 1 (cx_depth p)), (Z.leb_spec (cx_depth p) MAX_RUNTIME_CALL_DEPTH); cbn [andb negb]; try done.
    destruct (target_matches_domain _ _) eqn:E; [|done]. cbn [negb]. by intros [= <-].
  - intros [-> [HD HT]]. cbn [cx_parts] in *. rewrite HT.
    destruct (Z.leb_spec 1 (cx_depth p)), (Z.leb_spec (cx_depth p) MAX_RUNTIME_CALL_DEPTH); try lia. done.
Qed.

Lemma call_spec_Ok target value ro input s :
  in_u64 value -> RuntimeCallSpecV1_new target value ro input = Ok s ->
  s = MkCallSpec target value ro input /\ spec_ok s.
Proof.
  intros HV. unfold RuntimeCallSpecV1_new. destruct (_ >? _) eqn:E; [done|].
  destruct (runtime_kind _) eqn:EK; [|done]. cbn [negb]. intros [= <-]. split; [done|].
  unfold spec_ok. cbn. split_and!; try done; lia.
Qed.

Lemma trap_code_exact v c : trap_try_from v = Ok c <-> v = trap_u16 c.
Proof.
  split; [|intros ->; by destruct c]. unfold trap_try_from.
  repeat (case_match; try done); intros [= <-]; done.
Qed.

(** A property of the state that holds at the start and that every host
    method keeps holds when the backend returns. *)
Section Run.
Context {S : Type} (host : RuntimeHostV1 S) (R : S -> S -> Prop).
Hypothesis R_refl : forall s, R s s.
Hypothesis R_trans : forall a b c, R a b -> R b c -> R a c.
Context (I : S -> Prop).

(** A method keeps [I] and moves along [R]. *)
Definition steps {E A} (m : eff S E A) : Prop := forall s, I s -> I (m s).2 /\ R s (m s).2.

Record host_steps : Prop := MkHostSteps {
  hs_get : forall key, steps (host_state_get host key);
  hs_put : forall key value, steps (host_state_put host key value);
  hs_delete : forall key, steps (host_state_delete host key);
  hs_event : forall topics data, steps (host_emit_event host topics data);
  hs_call : forall spec, spec_ok spec -> steps (host_call host spec);
  hs_vm : forall units, in_u64 units -> steps (host_charge_vm_units host units);
  hs_common : forall units, in_u64 units -> steps (host_charge_common host units);
}.

Lemma execute_steps b : host_steps -> backend_ok b -> steps (backend_execute host b).
Proof.
  intros [H1 H2 H3 H4 H5 H6 H7] HB. induction HB as [r|k Hk IH|key k Hk IH|key v k Hk IH|key k Hk IH|ts d k Hk IH
    |spec k Hs Hk IH|u k Hu Hk IH|u k Hu Hk IH]; intros s HI; cbn [backend_execute].
  1: { split; [done|apply R_refl]. }
  1: { by apply IH. }
  1: pose proof (H1 key s HI) as HM.
  2: pose proof (H2 key v s HI) as HM.
  3: pose proof (H3 key s HI) as HM.
  4: pose proof (H4 ts d s HI) as HM.
  5: pose proof (H5 spec Hs s HI) as HM.
  6: pose proof (H6 u Hu s HI) as HM.
  7: pose proof (H7 u Hu s HI) as HM.
  all: match type of HM with I (snd ?e) /\ _ => destruct e as [a s'] end; destruct HM as [HI' HR];
    destruct (IH a s' HI') as [HI2 HR2]; split; [done|by eapply R_trans].
Qed.

End Run.
