(* ===== verification/Effects.v ===== *)
(** [oregon-execution/coordinator/types.rs] and [effects.rs]: the limits, errors
    and outcomes of the execution coordinator, and the stack of effect frames
    that keeps the events and the retained bytes of the calls of a transaction.
    The source's vector of frames is kept top first, as in the journal. *)
From S2P Require Import Prelude Encoding Layout Address Envelope FeeReceipt Commitment Receipts Journal Runtime.

Definition MAX_COORDINATOR_EFFECT_BYTES_V1 : Z := 2097152.
Definition MAX_COORDINATOR_FRAMES_V1 : Z := 4096.

(** The coordinator is compiled for tests only; the variant the source keeps
    for other builds is left out with the check that returns it. *)
Module CoordinatorError.
Inductive t : Type :=
| InvalidLimits
| UnsupportedHostChargeScheduleVersion (version : Z)
| HostChargeOverflow
| InvalidRuntimeTarget
| DuplicateRuntimeTarget
| InsufficientExecutionFunding
| FundingContextMismatch
| RuntimeContextMismatch
| FundingCapabilityMismatch
| FundingCapabilityAmountTooSmall
| EscrowOpenFailed
| FeeSettlementFailed
| FatalExecution
| ExecutionDomainMismatch
| RootFrameLifecycle
| CallDepthExceeded
| FrameLimitExceeded
| EventLimitExceeded
| EventDataTooLarge
| EventTopicsTooLarge
| EffectBytesLimitExceeded
| AccountingInvariant
| FrameStackMismatch
| PhaseAReceiptDomain
| InvalidReceiptSnapshotDomain
| DuplicateReceipt
| ReceiptPrimitive (e : ExecutionReceiptError.t)
| ReceiptState (e : JournalError.t).
End CoordinatorError.

Record CoordinatorLimitsV1 : Type := MkCoordinatorLimits {
  max_call_depth : Z;
  max_events : Z;
  max_effect_bytes : Z;
}.

Definition CoordinatorLimitsV1_new (depth events bytes : Z) : result CoordinatorError.t CoordinatorLimitsV1 :=
  if (depth =? 0) || (events =? 0) || (bytes =? 0) || (depth >? MAX_RUNTIME_CALL_DEPTH)
     || (events >? MAX_EXECUTION_EVENTS_V1) || (bytes >? MAX_COORDINATOR_EFFECT_BYTES_V1)
  then Err CoordinatorError.InvalidLimits
  else Ok (MkCoordinatorLimits depth events bytes).

Inductive CoordinatorTerminalV1 : Type := Running | TerminalExhausted | Fatal.

#[global] Instance CoordinatorTerminalV1_eq_dec : EqDecision CoordinatorTerminalV1.
Proof. solve_decision. Defined.

Inductive CoordinatorOutcomeV1 : Type :=
| OutcomeCommitted | OutcomeReverted | OutcomeTrapped (code : RuntimeTrapCodeV1.t) | OutcomeExhausted.

(** ** The effect stack *)

Record EffectFrameV1 : Type := MkEffectFrame {
  ef_events : list ExecutionEventV1;
  retained_event_bytes : Z;
  retained_return_bytes : Z;
}.

Definition EffectFrameV1_default : EffectFrameV1 := MkEffectFrame [] 0 0.

Definition frame_retained_bytes (f : EffectFrameV1) : result CoordinatorError.t Z :=
  ok_or (checked_add USIZE_MAX (retained_event_bytes f) (retained_return_bytes f)) CoordinatorError.AccountingInvariant.

Record EffectStackV1 : Type := MkEffectStack {
  es_frames : list EffectFrameV1;
  es_limits : CoordinatorLimitsV1;
  es_total_frames_created : Z;
  live_event_count : Z;
  live_retained_bytes : Z;
}.

Definition EffectStackV1_new (limits : CoordinatorLimitsV1) : EffectStackV1 :=
  MkEffectStack [EffectFrameV1_default] limits 1 0 0.

Definition es_begin : eff EffectStackV1 CoordinatorError.t unit := fun es =>
  match checked_add USIZE_MAX (Z.of_nat (length (es_frames es))) 1 with
  | None => (Err CoordinatorError.CallDepthExceeded, es)
  | Some next_depth =>
      if next_depth >? max_call_depth (es_limits es) then (Err CoordinatorError.CallDepthExceeded, es)
      else
        match checked_add USIZE_MAX (es_total_frames_created es) 1 with
        | None => (Err CoordinatorError.FrameLimitExceeded, es)
        | Some next_total =>
            if next_total >? MAX_COORDINATOR_FRAMES_V1 then (Err CoordinatorError.FrameLimitExceeded, es)
            else (Ok tt, MkEffectStack (EffectFrameV1_default :: es_frames es) (es_limits es) next_total
                           (live_event_count es) (live_retained_bytes es))
        end
  end.

(** The source indexes at [len - 2]; the stack always has its root frame, so
    an empty stack is never met. *)
Definition es_commit : eff EffectStackV1 CoordinatorError.t unit := fun es =>
  if (length (es_frames es) =? 1)%nat then (Err CoordinatorError.RootFrameLifecycle, es)
  else
    match es_frames es with
    | child :: parent :: below =>
        match checked_add USIZE_MAX (retained_event_bytes parent) (retained_event_bytes child),
              checked_add USIZE_MAX (retained_return_bytes parent) (retained_return_bytes child) with
        | Some next_event_bytes, Some next_return_bytes =>
            (Ok tt,
             MkEffectStack (MkEffectFrame (ef_events parent ++ ef_events child) next_event_bytes next_return_bytes :: below)
               (es_limits es) (es_total_frames_created es) (live_event_count es) (live_retained_bytes es))
        | _, _ => (Err CoordinatorError.AccountingInvariant, es)
        end
    | _ => (Err CoordinatorError.AccountingInvariant, es)
    end.

Definition es_revert : eff EffectStackV1 CoordinatorError.t unit := fun es =>
  if (length (es_frames es) =? 1)%nat then (Err CoordinatorError.RootFrameLifecycle, es)
  else
    match es_frames es with
    | [] => (Err CoordinatorError.AccountingInvariant, es)
    | child :: below =>
        match frame_retained_bytes child with
        | Err e => (Err e, es)
        | Ok child_bytes =>
            match checked_sub (live_event_count es) (Z.of_nat (length (ef_events child))),
                  checked_sub (live_retained_bytes es) child_bytes with
            | Some next_count, Some next_bytes =>
                (Ok tt, MkEffectStack below (es_limits es) (es_total_frames_created es) next_count next_bytes)
            | _, _ => (Err CoordinatorError.AccountingInvariant, es)
            end
        end
    end.

Definition reserve_event (data_bytes : Z) : eff EffectStackV1 CoordinatorError.t unit := fun es =>
  match checked_add USIZE_MAX (live_event_count es) 1 with
  | None => (Err CoordinatorError.EventLimitExceeded, es)
  | Some next_count =>
      if next_count >? max_events (es_limits es) then (Err CoordinatorError.EventLimitExceeded, es)
      else
        match checked_add USIZE_MAX (live_retained_bytes es) data_bytes with
        | None => (Err CoordinatorError.EffectBytesLimitExceeded, es)
        | Some next_bytes =>
            if next_bytes >? max_effect_bytes (es_limits es) then (Err CoordinatorError.EffectBytesLimitExceeded, es)
            else (Ok tt, MkEffectStack (es_frames es) (es_limits es) (es_total_frames_created es) next_count next_bytes)
        end
  end.

(** The event is counted in the top frame: the common end of [push_event] and
    [push_event_parts]. *)
Definition record_event (event : ExecutionEventV1) : eff EffectStackV1 CoordinatorError.t unit := fun es =>
  match es_frames es with
  | [] => (Err CoordinatorError.AccountingInvariant, es)
  | f :: below =>
      match checked_add USIZE_MAX (retained_event_bytes f) (Z.of_nat (length (data event))) with
      | None => (Err CoordinatorError.AccountingInvariant, es)
      | Some n =>
          (Ok tt, MkEffectStack (MkEffectFrame (ef_events f ++ [event]) n (retained_return_bytes f) :: below)
                    (es_limits es) (es_total_frames_created es) (live_event_count es) (live_retained_bytes es))
      end
  end.

Definition push_event (event : ExecutionEventV1) : eff EffectStackV1 CoordinatorError.t unit :=
  if (MAX_EXECUTION_EVENT_TOPICS_V1 <? length (topics event))%nat then eff_fail CoordinatorError.EventTopicsTooLarge
  else if Z.of_nat (length (data event)) >? MAX_EXECUTION_EVENT_DATA_BYTES_V1
  then eff_fail CoordinatorError.EventDataTooLarge
  else
    let! _ := reserve_event (Z.of_nat (length (data event))) in
    record_event event.

Definition push_event_parts (em : ExecutionAddress) (ts : list Hash256) (bytes : list byte)
  : eff EffectStackV1 CoordinatorError.t unit :=
  if (MAX_EXECUTION_EVENT_TOPICS_V1 <? length ts)%nat then eff_fail CoordinatorError.EventTopicsTooLarge
  else if Z.of_nat (length bytes) >? MAX_EXECUTION_EVENT_DATA_BYTES_V1
  then eff_fail CoordinatorError.EventDataTooLarge
  else
    let! _ := reserve_event (Z.of_nat (length bytes)) in
    let! event := eff_lift (map_err (fun _ => CoordinatorError.AccountingInvariant) (ExecutionEventV1_new em ts bytes)) in
    record_event event.

Definition retain_return_bytes (bytes : Z) : eff EffectStackV1 CoordinatorError.t unit := fun es =>
  match checked_add USIZE_MAX (live_retained_bytes es) bytes with
  | None => (Err CoordinatorError.EffectBytesLimitExceeded, es)
  | Some next_live =>
      if next_live >? max_effect_bytes (es_limits es) then (Err CoordinatorError.EffectBytesLimitExceeded, es)
      else
        match es_frames es with
        | [] => (Err CoordinatorError.AccountingInvariant, es)
        | f :: below =>
            match checked_add USIZE_MAX (retained_return_bytes f) bytes with
            | None => (Err CoordinatorError.AccountingInvariant, es)
            | Some next_frame =>
                (Ok tt, MkEffectStack (MkEffectFrame (ef_events f) (retained_event_bytes f) next_frame :: below)
                          (es_limits es) (es_total_frames_created es) (live_event_count es) next_live)
            end
        end
  end.

(** The terminal flag behind the [&mut] argument is the second state. *)
Definition assert_depth_matches (es : EffectStackV1) (journal_depth : nat)
  : eff CoordinatorTerminalV1 CoordinatorError.t unit := fun terminal =>
  if negb (length (es_frames es) =? journal_depth)%nat then (Err CoordinatorError.FrameStackMismatch, Fatal)
  else (Ok tt, terminal).

(** [&self.frames[0].events] *)
Definition root_events (es : EffectStackV1) : list ExecutionEventV1 :=
  match last (es_frames es) with Some f => ef_events f | None => [] end.

(** ** The invariant *)

Definition coordinator_limits_ok (l : CoordinatorLimitsV1) : Prop :=
  0 < max_call_depth l <= MAX_RUNTIME_CALL_DEPTH /\ 0 < max_events l <= MAX_EXECUTION_EVENTS_V1 /\
  0 < max_effect_bytes l <= MAX_COORDINATOR_EFFECT_BYTES_V1.

Definition events_size (l : list ExecutionEventV1) : Z := foldr (fun e acc => Z.of_nat (length (data e)) + acc) 0 l.
Definition frames_events (fs : list EffectFrameV1) : Z :=
  foldr (fun f acc => Z.of_nat (length (ef_events f)) + acc) 0 fs.
Definition frames_retained (fs : list EffectFrameV1) : Z :=
  foldr (fun f acc => retained_event_bytes f + retained_return_bytes f + acc) 0 fs.

Definition effect_frame_ok (f : EffectFrameV1) : Prop :=
  Forall event_ok (ef_events f) /\ retained_event_bytes f = events_size (ef_events f) /\ 0 <= retained_return_bytes f.

Record effects_ok (es : EffectStackV1) : Prop := MkEffectsOk {
  eo_limits : coordinator_limits_ok (es_limits es);
  eo_frames : es_frames es <> [];
  eo_frame : Forall effect_frame_ok (es_frames es);
  eo_count : live_event_count es = frames_events (es_frames es);
  eo_bytes : live_retained_bytes es = frames_retained (es_frames es);
  eo_depth : Z.of_nat (length (es_frames es)) <= max_call_depth (es_limits es);
  eo_created : 1 <= es_total_frames_created es <= MAX_COORDINATOR_FRAMES_V1;
  eo_events : live_event_count es <= max_events (es_limits es);
  eo_retained : live_retained_bytes es <= max_effect_bytes (es_limits es);
}.

Lemma events_size_nonneg l : 0 <= events_size l.
Proof. unfold events_size. induction l; cbn [foldr]; lia. Qed.

Lemma events_size_app a b : events_size (a ++ b) = events_size a + events_size b.
Proof. unfold events_size. induction a as [|e a IH]; cbn [app foldr]; lia. Qed.

Lemma effect_frame_nonneg f : effect_frame_ok f -> 0 <= retained_event_bytes f /\ 0 <= retained_return_bytes f.
Proof. intros (_ & -> & ?). split; [apply events_size_nonneg|done]. Qed.

Lemma effect_frames_nonneg fs : Forall effect_frame_ok fs -> 0 <= frames_events fs /\ 0 <= frames_retained fs.
Proof.
  unfold frames_events, frames_retained. induction 1 as [|f fs Hf HF IH]; [done|].
  apply effect_frame_nonneg in Hf. cbn [foldr]. lia.
Qed.

Lemma coordinator_limits_new_ok d e b l :
  0 <= d -> 0 <= e -> 0 <= b -> CoordinatorLimitsV1_new d e b = Ok l -> coordinator_limits_ok l.
Proof.
  intros ? ? ?. unfold CoordinatorLimitsV1_new. destruct (_ || _) eqn:E; [done|]. intros [= <-].
  rewrite !orb_false_iff in E. unfold coordinator_limits_ok. cbn. lia.
Qed.

Lemma effects_new_ok l : coordinator_limits_ok l -> effects_ok (EffectStackV1_new l).
Proof.
  intros HL. pose proof HL as (? & ? & ?). split; cbn; try done; try lia. repeat constructor; cbn; lia.
Qed.

(** The bounds the proofs below need, from the invariant. *)
Lemma effects_bounds es f below :
  effects_ok es -> es_frames es = f :: below ->
  effect_frame_ok f /\ Forall effect_frame_ok below /\
  live_event_count es = Z.of_nat (length (ef_events f)) + frames_events below /\
  live_retained_bytes es = retained_event_bytes f + retained_return_bytes f + frames_retained below /\
  0 <= retained_event_bytes f /\ 0 <= retained_return_bytes f /\
  0 <= frames_events below /\ 0 <= frames_retained below /\
  live_event_count es <= 256 /\ live_retained_bytes es <= 2097152.
Proof.
  intros HE EF. pose proof (eo_frame _ HE) as HF. rewrite EF in HF. apply Forall_cons in HF as [Hf HF].
  pose proof (effect_frame_nonneg _ Hf). pose proof (effect_frames_nonneg _ HF).
  pose proof (eo_count _ HE) as HC. pose proof (eo_bytes _ HE) as HB. rewrite EF in HC, HB.
  pose proof (eo_events _ HE). pose proof (eo_retained _ HE). destruct (eo_limits _ HE) as (_ & ? & ?).
  unfold frames_events, frames_retained in *. cbn [foldr] in *.
  unfold MAX_EXECUTION_EVENTS_V1, MAX_COORDINATOR_EFFECT_BYTES_V1 in *. split_and!; try done; lia.
Qed.

Lemma checked_add_ok a b : 0 <= a + b <= 9000000 -> checked_add USIZE_MAX a b = Some (a + b).
Proof. intros. apply checked_add_Some. unfold_ints. lia. Qed.

(** ** Operations under the invariant *)

Lemma es_begin_spec es :
  effects_ok es ->
  match es_begin es with
  | (Ok _, es') => effects_ok es' /\ es_frames es' = EffectFrameV1_default :: es_frames es /\ es_limits es' = es_limits es
      /\ live_retained_bytes es' = live_retained_bytes es
      /\ Z.of_nat (length (es_frames es)) < max_call_depth (es_limits es)
  | (Err _, es') => es' = es
  end.
Proof.
  intros HE. pose proof (eo_depth _ HE). pose proof (eo_created _ HE) as [? ?].
  destruct (eo_limits _ HE) as ((? & ?) & _ & _). unfold MAX_RUNTIME_CALL_DEPTH, MAX_COORDINATOR_FRAMES_V1 in *.
  unfold es_begin. rewrite checked_add_ok by lia. destruct (_ >? max_call_depth _) eqn:E1; [done|].
  rewrite checked_add_ok by lia. destruct (_ >? MAX_COORDINATOR_FRAMES_V1) eqn:E2; [done|].
  split_and!; try done; [|lia]. destruct HE. split; cbn; try done; try lia.
  constructor; [|done]. repeat constructor; cbn; lia.
Qed.

Lemma es_commit_spec es child parent below :
  effects_ok es -> es_frames es = child :: parent :: below ->
  exists es', es_commit es = (Ok tt, es') /\ effects_ok es' /\ es_limits es' = es_limits es /\
    live_retained_bytes es' = live_retained_bytes es /\
    es_frames es' = MkEffectFrame (ef_events parent ++ ef_events child)
                      (retained_event_bytes parent + retained_event_bytes child)
                      (retained_return_bytes parent + retained_return_bytes child) :: below.
Proof.
  intros HE EF. destruct (effects_bounds _ _ _ HE EF) as (Hc & HF & HC & HB & ? & ? & ? & ? & ? & ?).
  apply Forall_cons in HF as [Hp HF]. pose proof (effect_frame_nonneg _ Hp). pose proof (effect_frames_nonneg _ HF).
  unfold frames_events, frames_retained in HC, HB. cbn [foldr] in HC, HB.
  fold (frames_events below) in HC. fold (frames_retained below) in HB.
  unfold es_commit. rewrite EF. cbn [length Nat.eqb]. rewrite !checked_add_ok by lia.
  eexists. split_and!; try done. pose proof (eo_depth _ HE) as HD. rewrite EF in HD. cbn [length] in HD.
  destruct Hc as (Hc1 & Hc2 & Hc3), Hp as (Hp1 & Hp2 & Hp3), HE. split; cbn; try done; try lia.
  - constructor; [|done]. split_and!; cbn; [by apply Forall_app| |lia]. rewrite events_size_app. lia.
  - rewrite length_app. unfold frames_events in HC. lia.
  - unfold frames_retained in HB. lia.
Qed.

Lemma es_revert_spec es child parent below :
  effects_ok es -> es_frames es = child :: parent :: below ->
  exists es', es_revert es = (Ok tt, es') /\ effects_ok es' /\ es_limits es' = es_limits es /\
    live_retained_bytes es' = live_retained_bytes es - retained_event_bytes child - retained_return_bytes child /\
    es_frames es' = parent :: below.
Proof.
  intros HE EF. destruct (effects_bounds _ _ _ HE EF) as (Hc & HF & HC & HB & ? & ? & ? & ? & ? & ?).
  unfold es_revert, frame_retained_bytes. rewrite EF. cbn [length Nat.eqb]. rewrite checked_add_ok by lia.
  cbn [ok_or]. rewrite (proj2 (checked_sub_Some _ _ _)) by (split; [done|lia]).
  rewrite (proj2 (checked_sub_Some _ _ _)) by (split; [done|lia]).
  eexists. split_and!; try done; [|cbn; lia]. pose proof (eo_depth _ HE) as HD. rewrite EF in HD. cbn [length] in HD.
  destruct HE. split; cbn [es_limits es_frames live_event_count live_retained_bytes es_total_frames_created length];
    try done; lia.
Qed.

Lemma retain_return_bytes_spec es n f below :
  effects_ok es -> es_frames es = f :: below -> 0 <= n <= 262144 ->
  match retain_return_bytes n es with
  | (Ok _, es') => effects_ok es' /\ es_limits es' = es_limits es /\
      live_retained_bytes es' = live_retained_bytes es + n /\
      es_frames es' = MkEffectFrame (ef_events f) (retained_event_bytes f) (retained_return_bytes f + n) :: below
  | (Err _, es') => es' = es /\ max_effect_bytes (es_limits es) < live_retained_bytes es + n
  end.
Proof.
  intros HE EF Hn. destruct (effects_bounds _ _ _ HE EF) as (Hc & HF & HC & HB & ? & ? & ? & ? & ? & ?).
  unfold retain_return_bytes. rewrite checked_add_ok by lia. destruct (_ >? _) eqn:E1; [split; [done|lia]|].
  rewrite EF, checked_add_ok by lia. split_and!; try done.
  destruct Hc as (? & ? & ?), HE as [? ? ? ? ? HD]. rewrite EF in *. split; cbn; try done; try lia.
  - constructor; [|done]. split_and!; cbn; try done; lia.
  - unfold frames_retained in *. cbn [foldr] in *. lia.
Qed.

Definition event_trap (e : CoordinatorError.t) : bool :=
  match e with
  | CoordinatorError.EventLimitExceeded | CoordinatorError.EventDataTooLarge
  | CoordinatorError.EventTopicsTooLarge | CoordinatorError.EffectBytesLimitExceeded => true
  | _ => false
  end.

Lemma push_event_parts_spec es em ts bytes f below :
  effects_ok es -> es_frames es = f :: below ->
  match push_event_parts em ts bytes es with
  | (Ok _, es') => effects_ok es' /\ es_limits es' = es_limits es /\
      es_frames es' = MkEffectFrame (ef_events f ++ [MkEvent em ts bytes])
                        (retained_event_bytes f + Z.of_nat (length bytes)) (retained_return_bytes f) :: below
  | (Err e, es') => es' = es /\ event_trap e = true
  end.
Proof.
  intros HE EF. destruct (effects_bounds _ _ _ HE EF) as (Hc & HF & HC & HB & ? & ? & ? & ? & ? & ?).
  unfold push_event_parts. destruct (Nat.ltb_spec MAX_EXECUTION_EVENT_TOPICS_V1 (length ts)); [done|].
  destruct (_ >? MAX_EXECUTION_EVENT_DATA_BYTES_V1) eqn:E1; [done|].
  assert (event_ok (MkEvent em ts bytes)) as HO by (split; cbn; lia).
  unfold MAX_EXECUTION_EVENT_DATA_BYTES_V1 in *. unfold eff_bind, reserve_event.
  rewrite checked_add_ok by lia. destruct (_ >? max_events _) eqn:E2; [done|].
  rewrite checked_add_ok by lia. destruct (_ >? max_effect_bytes _) eqn:E3; [done|].
  rewrite (proj2 (ExecutionEventV1_new_ok em ts bytes _) (conj eq_refl HO)). cbn [map_err eff_lift].
  unfold record_event. cbn [es_frames]. rewrite EF, checked_add_ok by (cbn [data]; lia).
  cbn [data es_limits es_total_frames_created live_event_count live_retained_bytes]. split_and!; try done.
  destruct Hc as (? & ? & ?), HE as [? ? ? ? ? HD]. rewrite EF in *. split; cbn; try done; try lia.
  - constructor; [|done]. split_and!; cbn; [apply Forall_app; split; [done|by constructor]| |lia].
    rewrite events_size_app. unfold events_size at 2. cbn [foldr data]. lia.
  - rewrite length_app. cbn [length]. unfold frames_events in *. cbn [foldr] in *. lia.
  - unfold frames_retained in *. cbn [foldr] in *. lia.
Qed.
