(* ===== verification/Coordinator.v ===== *)
(** [oregon-execution/coordinator]: the accounting, the host and the nested
    calls of the execution coordinator ([accounting.rs], [host.rs], [calls.rs]).

    The source passes the journal, the meter, the effect stack and the terminal
    flag down the calls as mutable references; here they are the state
    [CoordState] of the host methods.  A call runs the backend of its target on
    a host of its own, so the host, the calls and the backends are mutually
    recursive: [run_backend] ties the knot by recursion on the number of call
    levels left. *)
From S2P Require Import Prelude Encoding Layout Address Envelope FeeReceipt Commitment Smt SmtWrite StateValues Receipts Journal Weight Runtime Effects.

Record CoordState : Type := MkCoordState {
  cs_journal : ExecutionJournalV1;
  cs_meter : WeightMeter;
  cs_effects : EffectStackV1;
  cs_terminal : CoordinatorTerminalV1;
}.

Definition set_journal (s : CoordState) (j : ExecutionJournalV1) : CoordState :=
  MkCoordState j (cs_meter s) (cs_effects s) (cs_terminal s).
Definition set_meter (s : CoordState) (m : WeightMeter) : CoordState :=
  MkCoordState (cs_journal s) m (cs_effects s) (cs_terminal s).
Definition set_effects (s : CoordState) (es : EffectStackV1) : CoordState :=
  MkCoordState (cs_journal s) (cs_meter s) es (cs_terminal s).
Definition set_terminal (s : CoordState) (t : CoordinatorTerminalV1) : CoordState :=
  MkCoordState (cs_journal s) (cs_meter s) (cs_effects s) t.

(** Operations of the parts, on the whole. *)
Definition on_journal {E A} (m : eff ExecutionJournalV1 E A) : eff CoordState E A := fun s =>
  let '(r, j) := m (cs_journal s) in (r, set_journal s j).
Definition on_meter {E A} (m : eff WeightMeter E A) : eff CoordState E A := fun s =>
  let '(r, x) := m (cs_meter s) in (r, set_meter s x).
Definition on_effects {E A} (m : eff EffectStackV1 E A) : eff CoordState E A := fun s =>
  let '(r, es) := m (cs_effects s) in (r, set_effects s es).

Abbreviation host_eff := (eff CoordState RuntimeHostSignalV1.t).

(** ** host.rs: the prices of the host methods *)

Definition HOST_CHARGE_SCHEDULE_VERSION_V1 : Z := 1.

Record HostChargeScheduleV1 : Type := MkHostCharges {
  state_read_base : Z;
  state_read_key_byte : Z;
  state_read_copy_byte : Z;
  state_write_base : Z;
  state_write_key_byte : Z;
  state_write_value_byte : Z;
  state_delete_base : Z;
  state_delete_key_byte : Z;
  event_base : Z;
  event_topic : Z;
  event_data_byte : Z;
  nested_call_base : Z;
  nested_call_input_byte : Z;
  nested_call_return_copy_byte : Z;
  context_query : Z;
}.

(** The parts are a version and the prices. *)
Record HostChargeScheduleV1Parts : Type := MkHostChargeParts {
  hc_version : Z;
  hc_prices : HostChargeScheduleV1;
}.

Definition HostChargeScheduleV1_new (parts : HostChargeScheduleV1Parts)
  : result CoordinatorError.t HostChargeScheduleV1 :=
  if negb (hc_version parts =? HOST_CHARGE_SCHEDULE_VERSION_V1)
  then Err (CoordinatorError.UnsupportedHostChargeScheduleVersion (hc_version parts))
  else Ok (hc_prices parts).

Definition add_term (total : Z) (term : Z * nat) : result CoordinatorError.t Z :=
  let? count := ok_or (try_from U128_MAX (Z.of_nat term.2)) CoordinatorError.HostChargeOverflow in
  let? cost := ok_or (checked_mul U128_MAX term.1 count) CoordinatorError.HostChargeOverflow in
  ok_or (checked_add U128_MAX total cost) CoordinatorError.HostChargeOverflow.

Definition checked_cost (fixed : Z) (terms : list (Z * nat)) : result CoordinatorError.t Z :=
  let? total := try_fold add_term terms fixed in
  ok_or (try_from U64_MAX total) CoordinatorError.HostChargeOverflow.

Definition state_read_pre_cost (c : HostChargeScheduleV1) (key_len : nat) :=
  checked_cost (state_read_base c) [(state_read_key_byte c, key_len)].
Definition state_read_copy_cost (c : HostChargeScheduleV1) (value_len : nat) :=
  checked_cost 0 [(state_read_copy_byte c, value_len)].
Definition state_write_cost (c : HostChargeScheduleV1) (key_len value_len : nat) :=
  checked_cost (state_write_base c) [(state_write_key_byte c, key_len); (state_write_value_byte c, value_len)].
Definition state_delete_cost (c : HostChargeScheduleV1) (key_len : nat) :=
  checked_cost (state_delete_base c) [(state_delete_key_byte c, key_len)].
Definition event_cost (c : HostChargeScheduleV1) (topic_count data_len : nat) :=
  checked_cost (event_base c) [(event_topic c, topic_count); (event_data_byte c, data_len)].
Definition nested_call_pre_cost (c : HostChargeScheduleV1) (input_len : nat) :=
  checked_cost (nested_call_base c) [(nested_call_input_byte c, input_len)].
Definition nested_call_return_cost (c : HostChargeScheduleV1) (return_len : nat) :=
  checked_cost 0 [(nested_call_return_copy_byte c, return_len)].

(** ** calls.rs: dispatch, scoped keys and contexts *)

Definition WASM_STORAGE_PREFIX_V1 : list byte := ascii_bytes "wasm/v1/storage/".
Definition EXECUTION_ADDRESS_BYTES : Z := 33.

(** A factory is a plain [fn()] without state, so it stands for the backend it
    makes. *)
Record RuntimeDispatchTableV1 : Type := MkDispatch { factories : gmap (list byte) RuntimeBackendV1 }.

Definition add_factory (table : gmap (list byte) RuntimeBackendV1) (entry : ExecutionAddress * RuntimeBackendV1)
  : result CoordinatorError.t (gmap (list byte) RuntimeBackendV1) :=
  if negb (runtime_kind (kind entry.1)) then Err CoordinatorError.InvalidRuntimeTarget
  else match table !! ExecutionAddress_to_bytes entry.1 with
  | Some _ => Err CoordinatorError.DuplicateRuntimeTarget
  | None => Ok (<[ExecutionAddress_to_bytes entry.1 := entry.2]> table)
  end.

Definition RuntimeDispatchTableV1_new (entries : list (ExecutionAddress * RuntimeBackendV1))
  : result CoordinatorError.t RuntimeDispatchTableV1 :=
  let? table := try_fold add_factory entries ∅ in Ok (MkDispatch table).

Definition factory_for (d : RuntimeDispatchTableV1) (target : ExecutionAddress) : option RuntimeBackendV1 :=
  factories d !! ExecutionAddress_to_bytes target.

Definition scoped_wasm_storage_key (target : ExecutionAddress) (local_key : list byte)
  : result RuntimeTrapCodeV1.t (list byte) :=
  if negb (bool_decide (kind target = KindWasm)) then Err RuntimeTrapCodeV1.StateAccessDenied
  else
    let? overhead := ok_or (checked_add USIZE_MAX (Z.of_nat (length WASM_STORAGE_PREFIX_V1)) EXECUTION_ADDRESS_BYTES)
                       RuntimeTrapCodeV1.InvalidHostInput in
    let? total_len := ok_or (checked_add USIZE_MAX overhead (Z.of_nat (length local_key)))
                        RuntimeTrapCodeV1.InvalidHostInput in
    if total_len >? MAX_STATE_KEY_BYTES then Err RuntimeTrapCodeV1.InvalidHostInput
    else Ok (WASM_STORAGE_PREFIX_V1 ++ ExecutionAddress_to_bytes target ++ local_key).

Definition kind_domain (k : ExecutionAddressKind) : option ExecutionDomain :=
  match k with KindEvm => Some ExecEvm | KindWasm => Some ExecWasm | KindOregon | KindSystem => None end.

Definition derive_child_context (parent : RuntimeCallContextV1) (spec : RuntimeCallSpecV1)
  : result RuntimeTrapCodeV1.t RuntimeCallContextV1 :=
  let p := cx_parts parent in
  let? depth := ok_or (checked_add U16_MAX (cx_depth p) 1) RuntimeTrapCodeV1.CallDepthExceeded in
  if depth >? MAX_RUNTIME_CALL_DEPTH then Err RuntimeTrapCodeV1.CallDepthExceeded
  else
    let? execution_domain := ok_or (kind_domain (kind (spec_target spec))) RuntimeTrapCodeV1.InvalidCallTarget in
    map_err (fun _ => RuntimeTrapCodeV1.InvalidCallTarget)
      (from_trusted_parts
         (MkContextParts (cx_chain_id p) (cx_height p) (cx_parent_block_hash p) (cx_txid p) (cx_principal p)
            (cx_target p) (spec_target spec) execution_domain depth
            (cx_read_only p || spec_read_only spec) (spec_value spec))).

Module AttachedValueTransferErrorV1.
Inductive t : Type := Trap (code : RuntimeTrapCodeV1.t) | Fatal.
End AttachedValueTransferErrorV1.

Section Coordinator.
Context `{Blake3} (source : StateSource).

(** ** accounting.rs *)

Definition ACCOUNTING_DOMAIN : CommitmentDomainId := DomExecutionAccounting.

Definition read_balance (j : ExecutionJournalV1) (address : ExecutionAddress) : result CoordinatorError.t Z :=
  let? value := map_err (fun _ => CoordinatorError.AccountingInvariant)
                  (journal_read source j ACCOUNTING_DOMAIN (balance_key address)) in
  match value with
  | Some bytes => map_err (fun _ => CoordinatorError.AccountingInvariant) (decode_accounting_u64 bytes)
  | None => Ok 0
  end.

Definition write_balance (address : ExecutionAddress) (value : Z) : eff ExecutionJournalV1 CoordinatorError.t unit :=
  let key := balance_key address in
  if value =? 0 then eff_map_err (fun _ => CoordinatorError.AccountingInvariant) (delete_key ACCOUNTING_DOMAIN key)
  else eff_map_err (fun _ => CoordinatorError.AccountingInvariant)
         (put ACCOUNTING_DOMAIN key (encode_accounting_u64 value)).

Definition read_total_execution_balance (j : ExecutionJournalV1) : result CoordinatorError.t Z :=
  let? value := map_err (fun _ => CoordinatorError.AccountingInvariant)
                  (journal_read source j ACCOUNTING_DOMAIN total_execution_balance_key) in
  let? bytes := ok_or value CoordinatorError.AccountingInvariant in
  map_err (fun _ => CoordinatorError.AccountingInvariant) (decode_accounting_u64 bytes).

Definition write_total_execution_balance (value : Z) : eff ExecutionJournalV1 CoordinatorError.t unit :=
  eff_map_err (fun _ => CoordinatorError.AccountingInvariant)
    (put ACCOUNTING_DOMAIN total_execution_balance_key (encode_accounting_u64 value)).

(** ** calls.rs: value and frames *)

Definition transfer_fatal {S A} (m : eff S CoordinatorError.t A) : eff S AttachedValueTransferErrorV1.t A :=
  eff_map_err (fun _ => AttachedValueTransferErrorV1.Fatal) m.

Definition transfer_trap : AttachedValueTransferErrorV1.t :=
  AttachedValueTransferErrorV1.Trap RuntimeTrapCodeV1.AttachedValueTransferFailed.

Definition transfer_attached_value (caller target : ExecutionAddress) (value : Z)
  : eff ExecutionJournalV1 AttachedValueTransferErrorV1.t unit :=
  if value =? 0 then eff_ret tt
  else if negb (runtime_kind (kind caller)) || negb (runtime_kind (kind target)) then eff_fail transfer_trap
  else
    let! caller_balance := transfer_fatal (eff_read (fun j => read_balance j caller)) in
    if caller_balance <? value then eff_fail transfer_trap
    else if bool_decide (caller = target) then eff_ret tt
    else
      let! target_balance := transfer_fatal (eff_read (fun j => read_balance j target)) in
      let! next_caller := eff_lift (ok_or (checked_sub caller_balance value) AttachedValueTransferErrorV1.Fatal) in
      let! next_target := eff_lift (ok_or (checked_add U64_MAX target_balance value)
                                      AttachedValueTransferErrorV1.Fatal) in
      let! _ := transfer_fatal (write_balance caller next_caller) in
      transfer_fatal (write_balance target next_target).

Definition abort_with {A} (t : CoordinatorTerminalV1) : eff CoordState RuntimeHostSignalV1.t A := fun s =>
  (Err RuntimeHostSignalV1.Abort, set_terminal s t).

Definition rollback_child_frames : eff CoordState RuntimeHostSignalV1.t unit := fun s =>
  let '(journal_result, s1) := on_journal revert_frame s in
  let '(effects_result, s2) := on_effects es_revert s1 in
  if negb (is_ok journal_result) || negb (is_ok effects_result) then abort_with Fatal s2
  else (Ok tt, s2).

Definition begin_child_frames : eff CoordState RuntimeHostSignalV1.t unit := fun s =>
  match on_journal begin_frame s with
  | (Err _, s1) => abort_with TerminalExhausted s1
  | (Ok _, s1) =>
      match on_effects es_begin s1 with
      | (Err _, s2) =>
          match on_journal revert_frame s2 with
          | (Err _, s3) => abort_with Fatal s3
          | (Ok _, s3) => abort_with TerminalExhausted s3
          end
      | (Ok _, s2) => (Ok tt, s2)
      end
  end.

Definition commit_child_frames : eff CoordState RuntimeHostSignalV1.t unit := fun s =>
  match on_journal commit_frame s with
  | (Err _, s1) =>
      let '(_, s2) := on_journal revert_frame s1 in
      let '(_, s3) := on_effects es_revert s2 in
      abort_with Fatal s3
  | (Ok _, s1) =>
      match on_effects es_commit s1 with
      | (Err _, s2) => abort_with Fatal s2
      | (Ok _, s2) => (Ok tt, s2)
      end
  end.

Definition data_len (r : RuntimeCallResultV1.t) : nat :=
  match call_return_data r with Some data => length data | None => 0%nat end.

(** [rollback_child_frames(..)?; return Ok(trap(code))] *)
Definition rollback_with (code : RuntimeTrapCodeV1.t) : eff CoordState RuntimeHostSignalV1.t RuntimeCallResultV1.t :=
  let! _ := rollback_child_frames in eff_ret (RuntimeCallResultV1.Trap code).

(** [let _ = rollback_child_frames(..); *terminal = Fatal; return Err(Abort)] *)
Definition rollback_fatal : eff CoordState RuntimeHostSignalV1.t RuntimeCallResultV1.t := fun s =>
  let '(_, s1) := rollback_child_frames s in abort_with Fatal s1.

(** After the backend has returned [result] and the flag is still [Running]. *)
Definition finish_nested_call (result : RuntimeCallResultV1.t)
  : eff CoordState RuntimeHostSignalV1.t RuntimeCallResultV1.t := fun s =>
  if negb (is_ok (call_validate result)) then rollback_with RuntimeTrapCodeV1.ReturnDataTooLarge s
  else
    let return_bytes := data_len result in
    let '(retained, s1) :=
      if (return_bytes =? 0)%nat then (true, s)
      else let '(r, s1) := on_effects (retain_return_bytes (Z.of_nat return_bytes)) s in (is_ok r, s1) in
    if negb retained then rollback_with RuntimeTrapCodeV1.ReturnDataTooLarge s1
    else
      match result with
      | RuntimeCallResultV1.Success _ => (let! _ := commit_child_frames in eff_ret result) s1
      | RuntimeCallResultV1.Revert _ =>
          (let! _ := rollback_child_frames in
           fun s2 =>
             let '(retained, s3) :=
               if (return_bytes =? 0)%nat then (true, s2)
               else let '(r, s3) := on_effects (retain_return_bytes (Z.of_nat return_bytes)) s2 in (is_ok r, s3) in
             if negb retained then abort_with Fatal s3 else (Ok result, s3)) s1
      | RuntimeCallResultV1.Trap _ => (let! _ := rollback_child_frames in eff_ret result) s1
      end.

(** [run] executes a backend on the host of a context. *)
Definition execute_nested_call
    (run : RuntimeCallContextV1 -> RuntimeBackendV1 -> eff CoordState RuntimeBackendFailureV1 RuntimeCallResultV1.t)
    (dispatch : RuntimeDispatchTableV1) (parent_context : RuntimeCallContextV1) (spec : RuntimeCallSpecV1)
  : eff CoordState RuntimeHostSignalV1.t RuntimeCallResultV1.t := fun s =>
  if negb (bool_decide (cs_terminal s = Running)) then (Err RuntimeHostSignalV1.Abort, s)
  else
    match derive_child_context parent_context spec with
    | Err code => (Ok (RuntimeCallResultV1.Trap code), s)
    | Ok child_context =>
        match factory_for dispatch (spec_target spec) with
        | None => (Ok (RuntimeCallResultV1.Trap RuntimeTrapCodeV1.InvalidCallTarget), s)
        | Some backend =>
            match begin_child_frames s with
            | (Err e, s1) => (Err e, s1)
            | (Ok _, s1) =>
                match on_journal (transfer_attached_value (cx_target (cx_parts parent_context)) (spec_target spec)
                                    (spec_value spec)) s1 with
                | (Err (AttachedValueTransferErrorV1.Trap code), s2) => rollback_with code s2
                | (Err AttachedValueTransferErrorV1.Fatal, s2) => rollback_fatal s2
                | (Ok _, s2) =>
                    match run child_context backend s2 with
                    | (Err _, s3) => rollback_fatal s3
                    | (Ok result, s3) =>
                        if negb (bool_decide (cs_terminal s3 = Running))
                        then (let! _ := rollback_child_frames in eff_fail RuntimeHostSignalV1.Abort) s3
                        else finish_nested_call result s3
                    end
                end
            end
        end
    end.

(** ** host.rs: the host *)

(** The journal and the dispatch table of a host are set together, by
    [new_active], or both absent, by [new]. *)
Record CoordinatorHostV1 : Type := MkCoordinatorHost {
  ch_context : RuntimeCallContextV1;
  ch_charges : HostChargeScheduleV1;
  ch_dispatch : option RuntimeDispatchTableV1;
}.

Definition CoordinatorHostV1_new (context : RuntimeCallContextV1) (charges : HostChargeScheduleV1)
  : CoordinatorHostV1 := MkCoordinatorHost context charges None.
Definition CoordinatorHostV1_new_active (context : RuntimeCallContextV1) (charges : HostChargeScheduleV1)
    (dispatch : RuntimeDispatchTableV1) : CoordinatorHostV1 := MkCoordinatorHost context charges (Some dispatch).

Definition ensure_running : host_eff unit := fun s =>
  if bool_decide (cs_terminal s = Running) then (Ok tt, s) else (Err RuntimeHostSignalV1.Abort, s).

Definition latch_fatal {A} : host_eff A := abort_with Fatal.

Definition checked_host_cost (cost : result CoordinatorError.t Z) : host_eff Z :=
  match cost with Ok value => eff_ret value | Err _ => latch_fatal end.

(** A failed charge sets the flag. *)
Definition or_exhausted (m : eff WeightMeter ResourceError.t unit) : host_eff unit := fun s =>
  match on_meter m s with
  | (Err _, s1) => abort_with TerminalExhausted s1
  | (Ok _, s1) => (Ok tt, s1)
  end.

Definition charge_common_weight (weight : Z) : host_eff unit :=
  let! _ := ensure_running in or_exhausted (charge_common weight).

Definition charge_vm_weight (h : CoordinatorHostV1) (units : Z) : host_eff unit :=
  let! _ := ensure_running in
  match cx_execution_domain (cx_parts (ch_context h)) with
  | ExecEvm => or_exhausted (charge Evm units)
  | ExecWasm => or_exhausted (charge Wasm units)
  | ExecNative | ExecSystem => latch_fatal
  end.

Definition charge_context_query (h : CoordinatorHostV1) : host_eff unit :=
  charge_common_weight (context_query (ch_charges h)).

Definition charge_cost (cost : result CoordinatorError.t Z) : host_eff unit :=
  let! value := checked_host_cost cost in charge_common_weight value.

Definition host_trap {A} (code : RuntimeTrapCodeV1.t) : host_eff A := eff_fail (RuntimeHostSignalV1.Trap code).

Definition map_effect_error {A} (error : CoordinatorError.t) : host_eff A :=
  match error with
  | CoordinatorError.EventLimitExceeded | CoordinatorError.EventDataTooLarge
  | CoordinatorError.EventTopicsTooLarge | CoordinatorError.EffectBytesLimitExceeded =>
      host_trap RuntimeTrapCodeV1.EventLimitExceeded
  | _ => latch_fatal
  end.

Definition require_wasm_state (h : CoordinatorHostV1) : host_eff unit :=
  match cx_execution_domain (cx_parts (ch_context h)) with
  | ExecWasm => eff_ret tt
  | ExecEvm => host_trap RuntimeTrapCodeV1.StateAccessDenied
  | ExecNative | ExecSystem => latch_fatal
  end.

Definition scoped_key (h : CoordinatorHostV1) (key : list byte) : host_eff (list byte) :=
  eff_lift (map_err RuntimeHostSignalV1.Trap (scoped_wasm_storage_key (cx_target (cx_parts (ch_context h))) key)).

Definition state_get (h : CoordinatorHostV1) (key : list byte) : host_eff (option (list byte)) :=
  let! _ := ensure_running in
  let! _ := require_wasm_state h in
  let! scoped := scoped_key h key in
  let! _ := charge_cost (state_read_pre_cost (ch_charges h) (length key)) in
  match ch_dispatch h with
  | None => host_trap RuntimeTrapCodeV1.UnsupportedOperation
  | Some _ => fun s =>
      match journal_read source (cs_journal s) DomWasm scoped with
      | Err _ => latch_fatal s
      | Ok None => (Ok None, s)
      | Ok (Some bytes) =>
          (let! _ := charge_cost (state_read_copy_cost (ch_charges h) (length bytes)) in eff_ret (Some bytes)) s
      end
  end.

(** A journal write whose failure is fatal. *)
Definition or_fatal (m : eff ExecutionJournalV1 JournalError.t unit) : host_eff unit := fun s =>
  match on_journal m s with
  | (Err _, s1) => latch_fatal s1
  | (Ok _, s1) => (Ok tt, s1)
  end.

Definition state_put (h : CoordinatorHostV1) (key value : list byte) : host_eff unit :=
  let! _ := ensure_running in
  let! _ := require_wasm_state h in
  if Z.of_nat (length value) >? MAX_STATE_VALUE_BYTES then host_trap RuntimeTrapCodeV1.InvalidHostInput
  else
    let! scoped := scoped_key h key in
    if cx_read_only (cx_parts (ch_context h)) then host_trap RuntimeTrapCodeV1.ReadOnlyViolation
    else
      let! _ := charge_cost (state_write_cost (ch_charges h) (length key) (length value)) in
      match ch_dispatch h with
      | None => host_trap RuntimeTrapCodeV1.UnsupportedOperation
      | Some _ => or_fatal (put DomWasm scoped value)
      end.

Definition state_delete (h : CoordinatorHostV1) (key : list byte) : host_eff unit :=
  let! _ := ensure_running in
  let! _ := require_wasm_state h in
  let! scoped := scoped_key h key in
  if cx_read_only (cx_parts (ch_context h)) then host_trap RuntimeTrapCodeV1.ReadOnlyViolation
  else
    let! _ := charge_cost (state_delete_cost (ch_charges h) (length key)) in
    match ch_dispatch h with
    | None => host_trap RuntimeTrapCodeV1.UnsupportedOperation
    | Some _ => or_fatal (delete_key DomWasm scoped)
    end.

Definition emit_event (h : CoordinatorHostV1) (ts : list Hash256) (bytes : list byte) : host_eff unit :=
  let! _ := ensure_running in
  if (MAX_EXECUTION_EVENT_TOPICS_V1 <? length ts)%nat
     || (Z.of_nat (length bytes) >? MAX_EXECUTION_EVENT_DATA_BYTES_V1)
  then host_trap RuntimeTrapCodeV1.EventLimitExceeded
  else
    let! _ := charge_cost (event_cost (ch_charges h) (length ts) (length bytes)) in
    fun s =>
      match on_effects (push_event_parts (cx_target (cx_parts (ch_context h))) ts bytes) s with
      | (Err error, s1) => map_effect_error error s1
      | (Ok _, s1) => (Ok tt, s1)
      end.

Definition runtime_call
    (run : RuntimeDispatchTableV1 -> RuntimeCallContextV1 -> RuntimeBackendV1
           -> eff CoordState RuntimeBackendFailureV1 RuntimeCallResultV1.t)
    (h : CoordinatorHostV1) (spec : RuntimeCallSpecV1) : host_eff RuntimeCallResultV1.t :=
  let! _ := charge_cost (nested_call_pre_cost (ch_charges h) (length (spec_input spec))) in
  match ch_dispatch h with
  | None => eff_ret (RuntimeCallResultV1.Trap RuntimeTrapCodeV1.UnsupportedOperation)
  | Some dispatch =>
      let! result := execute_nested_call (run dispatch) dispatch (ch_context h) spec in
      match call_return_data result with
      | None => eff_ret result
      | Some return_data =>
          let! _ := charge_cost (nested_call_return_cost (ch_charges h) (length return_data)) in eff_ret result
      end
  end.

(** [impl RuntimeHostV1 for CoordinatorHostV1] *)
Definition coordinator_host
    (run : RuntimeDispatchTableV1 -> RuntimeCallContextV1 -> RuntimeBackendV1
           -> eff CoordState RuntimeBackendFailureV1 RuntimeCallResultV1.t)
    (h : CoordinatorHostV1) : RuntimeHostV1 CoordState :=
  MkRuntimeHost (ch_context h) (state_get h) (state_put h) (state_delete h) (emit_event h) (runtime_call run h)
    (charge_vm_weight h) charge_common_weight.

(** The backend of a context on its active host, with at most [levels] levels
    of calls; [0] is never reached from a context at depth [d] when
    [65 - d <= levels]. *)
Fixpoint run_backend (levels : nat) (charges : HostChargeScheduleV1) (dispatch : RuntimeDispatchTableV1)
    (context : RuntimeCallContextV1) (backend : RuntimeBackendV1)
  : eff CoordState RuntimeBackendFailureV1 RuntimeCallResultV1.t :=
  match levels with
  | O => eff_fail BackendFatal
  | S levels =>
      backend_execute
        (coordinator_host (run_backend levels charges) (CoordinatorHostV1_new_active context charges dispatch))
        backend
  end.

End Coordinator.

Definition CALL_LEVELS : nat := Z.to_nat MAX_RUNTIME_CALL_DEPTH.
