(* ===== verification/Proposal.v ===== *)
(** [oregon-execution/coordinator/settlement.rs] and [proposal.rs]: opening the
    fee escrow of a transaction, running its top-level call, settling the fee
    and composing the two-phase proposal. *)
From S2P Require Import Prelude Encoding Layout Address Envelope FeeReceipt Fees Commitment Smt SmtWrite StateValues Receipts Journal Weight Runtime Effects Coordinator.

(** ** types.rs *)

Record CoordinatorSettlementV1 : Type := MkSettlement {
  st_outcome : CoordinatorOutcomeV1;
  st_fee_receipt : FeeSettlementReceiptV1;
  st_validated_execution_domain : option ExecutionDomain;
}.

Record TransactionExecutionProposalV1 : Type := MkProposal {
  pp_phase_a : JournalResultV1;
  pp_phase_b : JournalResultV1;
  pp_fee_receipt : FeeSettlementReceiptV1;
  pp_execution_receipt : ExecutionReceiptV1;
  pp_execution_fee_total_delta : Z;
}.

(** ** settlement.rs *)

Record FundingValidationRequestV1 : Type := MkFundingRequest {
  fq_chain_id : Z;
  fq_height : Z;
  fq_txid : Hash256;
  fq_execution_domain : ExecutionDomain;
  fq_principal : ExecutionAddress;
  fq_payer : ExecutionAddress;
  fq_authorization_commitment : Hash256;
  fq_source_kind : FeeSourceKind;
  fq_source_commitment : Hash256;
  fq_source_sequence : Z;
  fq_fee_terms : FeeTermsV1;
}.

Record ValidatedEscrowV1 : Type := MkValidatedEscrow {
  ve_ticket : EscrowTicketV1;
  ve_execution_domain : ExecutionDomain;
}.

Record SettlementAuthorityV1 : Type := MkSettlementAuthority {
  sa_ticket : EscrowTicketV1;
  sa_validated_execution_domain : option ExecutionDomain;
}.

Definition SettlementAuthorityV1_validated (escrow : ValidatedEscrowV1) : SettlementAuthorityV1 :=
  MkSettlementAuthority (ve_ticket escrow) (Some (ve_execution_domain escrow)).

(** [FundingSourceValidatorV1::validate], supplied from outside the crate. *)
Abbreviation FundingSourceValidator := (FundingValidationRequestV1 -> result CoordinatorError.t FundingCapabilityV1).

(** A step of the coordinator on the execution state and the escrow book. *)
Abbreviation tx_eff := (eff (CoordState * EscrowBookV1) CoordinatorError.t).

Section Settlement.
Context `{Blake3} (source : StateSource).

Definition reserve_execution_funded_escrow (payer : ExecutionAddress) (escrow : Z)
  : eff ExecutionJournalV1 CoordinatorError.t unit :=
  let! current := eff_read (fun j => read_balance source j payer) in
  let! available := eff_lift (ok_or (checked_sub current escrow) CoordinatorError.InsufficientExecutionFunding) in
  write_balance payer available.

(** The book is staged: it changes only when the call succeeds. *)
Definition open_bound_validated_escrow (validate : FundingSourceValidator) (request : FundingValidationRequestV1)
  : eff (ExecutionJournalV1 * EscrowBookV1) CoordinatorError.t ValidatedEscrowV1 := fun '(j, book) =>
  let context := j_context j in
  if negb (jc_chain_id context =? fq_chain_id request) || negb (jc_height context =? fq_height request)
     || negb (bool_decide (jc_txid context = fq_txid request))
  then (Err CoordinatorError.FundingContextMismatch, (j, book))
  else
    match validate request with
    | Err e => (Err e, (j, book))
    | Ok capability =>
        if negb (bool_decide (cap_source_kind capability = fq_source_kind request))
           || negb (bool_decide (cap_payer capability = fq_payer request))
           || negb (bool_decide (source_commitment capability = fq_source_commitment request))
           || negb (source_sequence capability =? fq_source_sequence request)
           || negb (bool_decide (authorization_commitment capability = fq_authorization_commitment request))
        then (Err CoordinatorError.FundingCapabilityMismatch, (j, book))
        else if available_amount capability <? max_escrow (fq_fee_terms request)
        then (Err CoordinatorError.FundingCapabilityAmountTooSmall, (j, book))
        else
          match open_escrow (fq_txid request) capability (fq_fee_terms request) book with
          | (Err _, _) => (Err CoordinatorError.EscrowOpenFailed, (j, book))
          | (Ok ticket, staged_book) =>
              match fq_source_kind request with
              | ExecutionBalance =>
                  match reserve_execution_funded_escrow (fq_payer request) (max_escrow (fq_fee_terms request)) j with
                  | (Err e, j') => (Err e, (j', book))
                  | (Ok _, j') => (Ok (MkValidatedEscrow ticket (fq_execution_domain request)), (j', staged_book))
                  end
              | NativeUtxo => (Ok (MkValidatedEscrow ticket (fq_execution_domain request)), (j, staged_book))
              end
          end
    end.

Definition open_validated_escrow (validate : FundingSourceValidator) (request : FundingValidationRequestV1)
  : eff (ExecutionJournalV1 * EscrowBookV1) CoordinatorError.t EscrowTicketV1 :=
  let! escrow := open_bound_validated_escrow validate request in eff_ret (ve_ticket escrow).

Definition finish_top_level_frames (commit : bool) : eff CoordState CoordinatorError.t unit := fun s =>
  let '(journal_result, s1) := on_journal (if commit then commit_frame else revert_frame) s in
  let '(effects_result, s2) := on_effects (if commit then es_commit else es_revert) s1 in
  if negb (is_ok journal_result) || negb (is_ok effects_result)
  then (Err CoordinatorError.FatalExecution, set_terminal s2 Fatal)
  else (Ok tt, s2).

Definition apply_execution_funded_settlement (payer : ExecutionAddress) (refund charged : Z)
  : eff ExecutionJournalV1 CoordinatorError.t unit :=
  let! payer_balance := eff_read (fun j => read_balance source j payer) in
  let! next_payer_balance := eff_lift (ok_or (checked_add U64_MAX payer_balance refund)
                                         CoordinatorError.AccountingInvariant) in
  let! total := eff_read (read_total_execution_balance source) in
  let! next_total := eff_lift (ok_or (checked_sub total charged) CoordinatorError.AccountingInvariant) in
  let! _ := write_balance payer next_payer_balance in
  write_total_execution_balance next_total.

(** The outcome, the fee outcome, whether the top frame is kept, and the
    weight to pay. *)
Definition settlement_outcome (meter : WeightMeter) (runtime_result : RuntimeCallResultV1.t)
  : CoordinatorOutcomeV1 * ExecutionOutcome * bool * Z :=
  match runtime_result with
  | RuntimeCallResultV1.Success _ => (OutcomeCommitted, Committed, true, meter_consumed meter)
  | RuntimeCallResultV1.Revert _ => (OutcomeReverted, Reverted, false, meter_consumed meter)
  | RuntimeCallResultV1.Trap code => (OutcomeTrapped code, Reverted, false, meter_consumed meter)
  end.

Definition settle_top_level_execution_inner (authority : SettlementAuthorityV1)
    (runtime_result : RuntimeCallResultV1.t) : tx_eff CoordinatorSettlementV1 := fun '(s, book) =>
  let ticket := sa_ticket authority in
  if bool_decide (cs_terminal s = Fatal) then
    let '(_, s1) := finish_top_level_frames false s in
    (Err CoordinatorError.FatalExecution, (set_terminal s1 Fatal, book))
  else
    let is_exhausted := bool_decide (cs_terminal s = TerminalExhausted) || exhausted (cs_meter s) in
    let '(outcome, fee_outcome, commit_child, actual_weight) :=
      if is_exhausted then (OutcomeExhausted, ResourceExhausted, false, meter_max (cs_meter s))
      else settlement_outcome (cs_meter s) runtime_result in
    let s0 := if is_exhausted then set_terminal s TerminalExhausted else s in
    match finish_top_level_frames commit_child s0 with
    | (Err e, s1) => (Err e, (s1, book))
    | (Ok _, s1) =>
        match settle (escrow_id ticket) fee_outcome actual_weight book with
        | (Err _, _) => (Err CoordinatorError.FeeSettlementFailed, (set_terminal s1 Fatal, book))
        | (Ok settlement, staged_book) =>
            let fee := fr_parts (receipt settlement) in
            let '(applied, s2) :=
              if bool_decide (ticket_source_kind ticket = ExecutionBalance)
              then on_journal (apply_execution_funded_settlement (ticket_payer ticket) (fr_refund fee) (fr_charged fee)) s1
              else (Ok tt, s1) in
            match applied with
            | Err e => (Err e, (set_terminal s2 Fatal, book))
            | Ok _ => (Ok (MkSettlement outcome (receipt settlement) (sa_validated_execution_domain authority)),
                       (s2, staged_book))
            end
        end
    end.

Definition settle_bound_top_level_execution (escrow : ValidatedEscrowV1) (runtime_result : RuntimeCallResultV1.t)
  : tx_eff CoordinatorSettlementV1 :=
  settle_top_level_execution_inner (SettlementAuthorityV1_validated escrow) runtime_result.

(** In a test build, the only one that has the coordinator, the domain of an
    unbound settlement is that of the payer's address. *)
Definition settle_top_level_execution (ticket : EscrowTicketV1) (runtime_result : RuntimeCallResultV1.t)
  : tx_eff CoordinatorSettlementV1 :=
  settle_top_level_execution_inner (MkSettlementAuthority ticket (kind_domain (kind (ticket_payer ticket))))
    runtime_result.

(** ** proposal.rs *)

Definition FEE_RECEIPT_KEY_PREFIX_V1 : list byte := ascii_bytes "receipt/v1/fee/".
Definition EXECUTION_RECEIPT_KEY_PREFIX_V1 : list byte := ascii_bytes "receipt/v1/execution/".

Definition receipt_key (prefix : list byte) (txid : Hash256) : list byte := prefix ++ arr_bytes txid.

Definition receipt_outcome (outcome : CoordinatorOutcomeV1) : ExecutionReceiptOutcomeV1 * Z :=
  match outcome with
  | OutcomeCommitted => (RxCommitted, 0)
  | OutcomeReverted => (RxReverted, 0)
  | OutcomeTrapped code => (RxTrapped, trap_u16 code)
  | OutcomeExhausted => (RxResourceExhausted, 0)
  end.

Definition roots_le (a b : JournalDomainRootsV1) : Prop := domain_u16 (jr_domain a) <= domain_u16 (jr_domain b).

#[global] Instance roots_le_dec : RelDecision roots_le.
Proof. intros a b. unfold roots_le. apply _. Defined.

Definition root_descriptor (r : JournalDomainRootsV1) : result CoordinatorError.t StateEffectDescriptorV1 :=
  map_err CoordinatorError.ReceiptPrimitive
    (StateEffectDescriptorV1_new (jr_domain r) OregonSmtV1 (jr_old_root r) (jr_new_root r)).

Definition build_phase_a_descriptors (phase_a : JournalResultV1)
  : result CoordinatorError.t (list StateEffectDescriptorV1) :=
  if existsb (fun r => bool_decide (jr_domain r = DomExecutionReceipts)) (res_roots phase_a)
  then Err CoordinatorError.PhaseAReceiptDomain
  else
    let? descriptors := try_map root_descriptor (merge_sort roots_le (res_roots phase_a)) in
    let? _ := map_err CoordinatorError.ReceiptPrimitive (compute_state_effect_root descriptors) in
    Ok descriptors.

Definition receipt_state {A} (r : result JournalError.t A) : result CoordinatorError.t A :=
  map_err CoordinatorError.ReceiptState r.

(** Phase B: both receipts in a journal of their own over the receipts domain. *)
Definition stage_receipts (receipt_source : StateSource) (receipt_snapshot : DomainSnapshot)
    (context : JournalContextV1) (fee_receipt : FeeSettlementReceiptV1) (execution_receipt : ExecutionReceiptV1)
  : result CoordinatorError.t JournalResultV1 :=
  let? phase_b := receipt_state (ExecutionJournalV1_new context [receipt_snapshot] JournalLimitsV1_default) in
  let fee_key := receipt_key FEE_RECEIPT_KEY_PREFIX_V1 (jc_txid context) in
  let execution_key := receipt_key EXECUTION_RECEIPT_KEY_PREFIX_V1 (jc_txid context) in
  let? existing_fee := receipt_state (journal_read receipt_source phase_b DomExecutionReceipts fee_key) in
  let? existing_execution := receipt_state (journal_read receipt_source phase_b DomExecutionReceipts execution_key) in
  match existing_fee, existing_execution with
  | None, None =>
      match put DomExecutionReceipts fee_key (fee_receipt_encode fee_receipt) phase_b with
      | (Err e, _) => Err (CoordinatorError.ReceiptState e)
      | (Ok _, phase_b1) =>
          match put DomExecutionReceipts execution_key (receipt_encode execution_receipt) phase_b1 with
          | (Err e, _) => Err (CoordinatorError.ReceiptState e)
          | (Ok _, phase_b2) => receipt_state (finalize receipt_source phase_b2 IntentCommitted)
          end
      end
  | _, _ => Err CoordinatorError.DuplicateReceipt
  end.

Definition compose_transaction_execution_proposal (phase_a : JournalResultV1) (receipt_source : StateSource)
    (receipt_snapshot : DomainSnapshot) (settlement : CoordinatorSettlementV1) (execution_domain : ExecutionDomain)
    (events : list ExecutionEventV1) (return_data : list byte)
  : result CoordinatorError.t TransactionExecutionProposalV1 :=
  if negb (bool_decide (snap_domain receipt_snapshot = DomExecutionReceipts))
  then Err CoordinatorError.InvalidReceiptSnapshotDomain
  else if match st_validated_execution_domain settlement with
          | Some validated => negb (bool_decide (execution_domain = validated))
          | None => false
          end
  then Err CoordinatorError.ExecutionDomainMismatch
  else
    let? descriptors := build_phase_a_descriptors phase_a in
    let? effect_root := map_err CoordinatorError.ReceiptPrimitive (compute_state_effect_root descriptors) in
    let? event_root := map_err CoordinatorError.ReceiptPrimitive (events_root events) in
    let? event_count := ok_or (try_from U32_MAX (Z.of_nat (length events)))
                          (CoordinatorError.ReceiptPrimitive ExecutionReceiptError.TooManyEvents) in
    let? return_data_len := ok_or (try_from U32_MAX (Z.of_nat (length return_data)))
                              (CoordinatorError.ReceiptPrimitive ExecutionReceiptError.ReturnDataTooLarge) in
    let fee_receipt := st_fee_receipt settlement in
    let fee := fr_parts fee_receipt in
    let '(outcome, trap_code) := receipt_outcome (st_outcome settlement) in
    let? execution_receipt :=
      map_err CoordinatorError.ReceiptPrimitive
        (ExecutionReceiptV1_new
           (MkReceiptParts (jc_txid (res_context phase_a)) execution_domain outcome trap_code (fr_payer fee)
              (fr_actual_weight fee) (fr_charged fee) (fee_receipt_id fee_receipt) effect_root event_root
              event_count (return_data_hash return_data) return_data_len empty_outbox_effect_root 0)
           fee_receipt) in
    let? phase_b := stage_receipts receipt_source receipt_snapshot (res_context phase_a) fee_receipt execution_receipt in
    Ok (MkProposal phase_a phase_b fee_receipt execution_receipt
          (match fr_source_kind fee with ExecutionBalance => fr_charged fee | NativeUtxo => 0 end)).

Record TransactionRuntimeV1 : Type := MkTransactionRuntime {
  top_level_context : RuntimeCallContextV1;
  tr_meter : WeightMeter;
  tr_limits : CoordinatorLimitsV1;
  tr_charges : HostChargeScheduleV1;
  tr_dispatch : RuntimeDispatchTableV1;
}.

Definition validate_top_level_context (j : ExecutionJournalV1) (request : FundingValidationRequestV1)
    (context : RuntimeCallContextV1) : result CoordinatorError.t unit :=
  let c := cx_parts context in
  if negb (cx_chain_id c =? fq_chain_id request) || negb (cx_height c =? fq_height request)
     || negb (bool_decide (cx_txid c = fq_txid request))
     || negb (bool_decide (cx_parent_block_hash c = jc_parent_block_hash (j_context j)))
     || negb (bool_decide (cx_principal c = fq_principal request))
     || negb (bool_decide (cx_caller c = fq_principal request))
     || negb (bool_decide (cx_execution_domain c = fq_execution_domain request))
     || negb (cx_depth c =? 1)
  then Err CoordinatorError.RuntimeContextMismatch
  else Ok tt.

(** The top-level call: the result, and the state after it. *)
Definition run_top_level (runtime : TransactionRuntimeV1) (s : CoordState) : RuntimeCallResultV1.t * CoordState :=
  match factory_for (tr_dispatch runtime) (cx_target (cx_parts (top_level_context runtime))) with
  | None => (RuntimeCallResultV1.Trap RuntimeTrapCodeV1.InvalidCallTarget, s)
  | Some backend =>
      match run_backend source CALL_LEVELS (tr_charges runtime) (tr_dispatch runtime) (top_level_context runtime)
              backend s with
      | (Ok result, s1) => (result, s1)
      | (Err _, s1) => (RuntimeCallResultV1.Trap RuntimeTrapCodeV1.BackendDeterministic, set_terminal s1 Fatal)
      end
  end.

(** The result is bounded and its data retained; the third component is the
    return data of the receipt. *)
Definition retain_top_level (result : RuntimeCallResultV1.t) (s : CoordState)
  : RuntimeCallResultV1.t * list byte * CoordState :=
  let result := if is_ok (call_validate result) then result
                else RuntimeCallResultV1.Trap RuntimeTrapCodeV1.ReturnDataTooLarge in
  let return_data := if bool_decide (cs_terminal s = Running) then default [] (call_return_data result) else [] in
  if (length return_data =? 0)%nat then (result, return_data, s)
  else
    match on_effects (retain_return_bytes (Z.of_nat (length return_data))) s with
    | (Ok _, s1) => (result, return_data, s1)
    | (Err _, s1) => (RuntimeCallResultV1.Trap RuntimeTrapCodeV1.ReturnDataTooLarge, [], s1)
    end.

(** The book is staged by the caller: it is replaced only on success, and
    nothing else outlives the call. *)
Definition execute_transaction_v1 (j : ExecutionJournalV1) (receipt_source : StateSource)
    (receipt_snapshot : DomainSnapshot) (validate : FundingSourceValidator) (request : FundingValidationRequestV1)
    (runtime : TransactionRuntimeV1) : eff EscrowBookV1 CoordinatorError.t TransactionExecutionProposalV1 := fun book =>
  match validate_top_level_context j request (top_level_context runtime) with
  | Err e => (Err e, book)
  | Ok _ =>
      match open_bound_validated_escrow validate request (j, book) with
      | (Err e, _) => (Err e, book)
      | (Ok escrow, (j1, staged_book)) =>
          match begin_frame j1 with
          | (Err _, _) => (Err CoordinatorError.FatalExecution, book)
          | (Ok _, j2) =>
              match es_begin (EffectStackV1_new (tr_limits runtime)) with
              | (Err e, _) => (Err e, book)
              | (Ok _, effects) =>
                  let s := MkCoordState j2 (tr_meter runtime) effects Running in
                  let '(result, s1) := run_top_level runtime s in
                  let '(result, return_data, s2) := retain_top_level result s1 in
                  match settle_bound_top_level_execution escrow result (s2, staged_book) with
                  | (Err e, _) => (Err e, book)
                  | (Ok settlement, (s3, settled_book)) =>
                      match finalize source (cs_journal s3) IntentCommitted with
                      | Err _ => (Err CoordinatorError.FatalExecution, book)
                      | Ok phase_a =>
                          match compose_transaction_execution_proposal phase_a receipt_source receipt_snapshot settlement
                                  (fq_execution_domain request) (root_events (cs_effects s3)) return_data with
                          | Err e => (Err e, book)
                          | Ok proposal => (Ok proposal, settled_book)
                          end
                      end
                  end
              end
          end
      end
  end.

End Settlement.
