(* ===== verification/CoordinatorCalls.v ===== *)
(** Nested calls of the coordinator: for every backend, running it keeps the
    invariants of the journal, the effect stack and the meter, leaves the
    frames below its own alone, and moves the journal's view along any relation
    that the permitted writes and transfers respect.  The theorems on the
    coordinator are instances of [run_backend_steps]. *)
From S2P Require Import Prelude Encoding Layout Address Envelope FeeReceipt Commitment Smt SmtWrite StateValues Receipts Journal Weight Runtime Effects Coordinator.

(** ** The journal, one operation at a time *)

(** What the journal shows at its top. *)
Definition jview (j : ExecutionJournalV1) : overlay := lookup_frames (j_frames j).

Create HintDb coordinator.

Definition same_journal (j j' : ExecutionJournalV1) : Prop :=
  j_context j' = j_context j /\ j_snapshots j' = j_snapshots j /\ j_limits j' = j_limits j.

Lemma same_journal_refl j : same_journal j j.
Proof. done. Qed.

Lemma same_journal_trans a b c : same_journal a b -> same_journal b c -> same_journal a c.
Proof. unfold same_journal. intuition congruence. Qed.

Lemma try_fold_Err {E A B} (f : B -> A -> result E B) (Q : E -> Prop) l :
  (forall acc x e, f acc x = Err e -> Q e) -> forall acc e, try_fold f l acc = Err e -> Q e.
Proof.
  intros HF. induction l as [|x l IH]; intros acc e; cbn [try_fold]; [done|].
  destruct (f acc x) as [acc'|e'] eqn:E'; [apply IH|]. intros [= <-]. by eapply HF.
Qed.

Lemma replaced_Err parent child e : replaced parent child = Err e -> e = JournalError.AccountingInvariant.
Proof.
  unfold replaced. revert e. apply (try_fold_Err _ (fun e => e = JournalError.AccountingInvariant)).
  intros acc p e. unfold replace_domain. destruct (parent !! p.1); [|done]. revert acc e.
  intros acc e. apply (try_fold_Err _ (fun e => e = JournalError.AccountingInvariant)). intros acc' k e'. unfold replace_key.
  unfold ok_or. intros HK. by repeat case_match; simplify_eq/=.
Qed.

Lemma begin_frame_spec j :
  journal_ok j ->
  match begin_frame j with
  | (Ok _, j') => journal_ok j' /\ j_frames j' = JournalFrame_default :: j_frames j /\ same_journal j j'
      /\ Z.of_nat (length (j_frames j)) < max_depth (j_limits j)
  | (Err _, j') => j' = j
  end.
Proof.
  intros HJ. destruct (begin_frame j) as [[[]|e] j'] eqn:E; [|by apply (run_jop_atomic OpBegin) in E].
  split; [by apply begin_ok in E as [? _]|]. unfold begin_frame in E. pose proof (ok_depth _ HJ).
  destruct (checked_add USIZE_MAX (Z.of_nat _) 1) as [n|] eqn:E1; [|done]. apply checked_add_Some in E1 as [-> _].
  destruct (_ >? max_depth _) eqn:E2; [done|]. repeat case_match; try done. injection E as <-. split_and!; try done. lia.
Qed.

Lemma revert_frame_spec j child parent below :
  journal_ok j -> j_frames j = child :: parent :: below ->
  exists j', revert_frame j = (Ok tt, j') /\ journal_ok j' /\ j_frames j' = parent :: below /\ same_journal j j'.
Proof.
  intros HJ EF. destruct (revert_frame j) as [r j'] eqn:E. pose proof (revert_ok _ _ _ HJ E) as [HJ' HG].
  unfold revert_frame in E. rewrite EF in E. cbn [length Nat.eqb] in E. repeat case_match; simplify_eq; try done.
  eexists. split_and!; try done.
Qed.

Lemma commit_frame_spec j child parent below :
  journal_ok j -> j_frames j = child :: parent :: below ->
  exists j' f, commit_frame j = (Ok tt, j') /\ journal_ok j' /\ j_frames j' = f :: below /\ same_journal j j' /\
    overlay_eq (jview j') (jview j).
Proof.
  intros HJ EF. unfold commit_frame. pose proof (commit_spec j HJ) as HC.
  destruct (committed j) as [j'|e] eqn:E.
  - destruct HC as (HJ' & child' & parent' & below' & en & by' & EF1 & EF2 & ES). rewrite EF in EF1. simplify_eq.
    exists j'. eexists. split_and!; try done.
    + unfold committed in E. rewrite EF in E. cbn [length Nat.eqb] in E. by repeat case_match; simplify_eq/=.
    + intros d key. unfold jview. rewrite EF2, EF. cbn [lookup_frames jf_writes]. rewrite extend_lookup.
      by destruct (lookup_write (jf_writes child') d key).
  - exfalso. unfold committed in E. rewrite EF in E. cbn [length Nat.eqb] in E.
    unfold ok_or in E. repeat case_match; simplify_eq/=; try done.
    match goal with HR : replaced _ _ = Err _ |- _ => by apply replaced_Err in HR as -> end.
Qed.

(** A staged write, or nothing. *)
Lemma stage_write_spec j d key value :
  journal_ok j ->
  match stage_write d key value j with
  | (Ok _, j') => journal_ok j' /\ tail (j_frames j') = tail (j_frames j) /\ same_journal j j' /\
      overlay_eq (jview j') (overlay_set (jview j) d key (owned_value value))
  | (Err _, j') => j' = j
  end.
Proof.
  intros HJ. unfold stage_write. pose proof (staged_spec j d key value HJ) as HS.
  destruct (staged j d key value) as [j'|e] eqn:E; [|done].
  destruct HS as (HJ' & top & below & en & by' & EF & EF' & ES). rewrite EF, EF'. split_and!; try done.
  - clear -E. unfold staged in E. by repeat case_match; simplify_eq/=.
  - intros d' key'. unfold jview. rewrite EF', EF. pose proof (views_set top below d key (owned_value value) en by') as HV.
    cbn [views] in HV. inversion HV as [|? ? ? ? HO]; subst. apply HO.
Qed.

(** ** Journal code that stays in its top frame *)

Definition keeps {E A} (m : eff ExecutionJournalV1 E A) : Prop := forall j, journal_ok j ->
  journal_ok (m j).2 /\ tail (j_frames (m j).2) = tail (j_frames j) /\ same_journal j (m j).2.

Lemma keeps_read {E A} (f : ExecutionJournalV1 -> result E A) : keeps (eff_read f).
Proof. done. Qed.

Lemma keeps_lift {E A} (r : result E A) : keeps (eff_lift r).
Proof. done. Qed.

Lemma keeps_ret {E A} (a : A) : keeps (eff_ret a : eff _ E A).
Proof. done. Qed.

Lemma keeps_fail {E A} (e : E) : keeps (eff_fail e : eff _ E A).
Proof. done. Qed.

Lemma keeps_map_err {E F A} (f : E -> F) (m : eff ExecutionJournalV1 E A) : keeps m -> keeps (eff_map_err f m).
Proof. intros HM j HJ. specialize (HM j HJ). unfold eff_map_err. by destruct (m j). Qed.

Lemma keeps_bind {E A B} (m : eff ExecutionJournalV1 E A) (k : A -> eff ExecutionJournalV1 E B) :
  keeps m -> (forall a, keeps (k a)) -> keeps (let! a := m in k a).
Proof.
  intros HM HK j HJ. specialize (HM j HJ). unfold eff_bind. destruct (m j) as [[a|e] j1]; [|done].
  destruct HM as (HJ1 & HT & HS). cbn [snd] in *. destruct (HK a j1 HJ1) as (HJ2 & HT2 & HS2).
  split_and!; [done|congruence|by eapply same_journal_trans].
Qed.

Lemma keeps_stage d key value : keeps (stage_write d key value).
Proof.
  intros j HJ. pose proof (stage_write_spec j d key value HJ) as HW. destruct (stage_write d key value j) as [[u|e] j'].
  - by destruct HW as (? & ? & ? & _).
  - by subst j'.
Qed.

#[export] Hint Resolve keeps_read keeps_lift keeps_ret keeps_fail keeps_map_err keeps_bind keeps_stage : coordinator.

Lemma keeps_write_balance a v : keeps (write_balance a v).
Proof. unfold write_balance. destruct (v =? 0); apply keeps_map_err, keeps_stage. Qed.

#[export] Hint Resolve keeps_write_balance : coordinator.

Lemma keeps_transfer `{Blake3} source caller target value : keeps (transfer_attached_value source caller target value).
Proof.
  unfold transfer_attached_value, transfer_fatal. destruct (value =? 0); [apply keeps_ret|].
  destruct (_ || _); [apply keeps_fail|]. apply keeps_bind; [auto with coordinator|]. intros b.
  destruct (b <? value); [apply keeps_fail|]. destruct (bool_decide _); [apply keeps_ret|].
  auto 10 with coordinator.
Qed.

(** ** The state of a running call *)

Definition top_events (es : EffectStackV1) : list ExecutionEventV1 :=
  match es_frames es with f :: _ => ef_events f | [] => [] end.

(** The flag only moves away from [Running], and [Fatal] is final. *)
Definition terminal_after (t t' : CoordinatorTerminalV1) : Prop := t = t' \/ t = Running \/ t' = Fatal.

(** The meter only fills up. *)
Definition meter_after (m m' : WeightMeter) : Prop :=
  meter_max m' = meter_max m /\ schedule m' = schedule m /\ meter_consumed m <= meter_consumed m' /\
  (exhausted m = true -> exhausted m' = true).

Lemma meter_after_refl m : meter_after m m.
Proof. unfold meter_after. split_and!; (done || lia). Qed.

Lemma meter_after_trans a b c : meter_after a b -> meter_after b c -> meter_after a c.
Proof. unfold meter_after. intros (-> & -> & ? & ?) (-> & -> & ? & ?). split_and!; auto; lia. Qed.

Lemma charge_common_after base w m :
  meter_inv base m -> exhausted m = false -> in_u64 w ->
  let '(r, m') := charge_common w m in
  (exists base', meter_inv base' m') /\ meter_after m m' /\ exhausted m' = negb (is_ok r).
Proof.
  intros HI He Hw. pose proof (charge_common_spec base m w HI He Hw) as HC.
  pose proof HI as (_ & _ & _ & _ & ? & _).
  destruct (charge_common w m) as [r m'] eqn:E. destruct HC as (Hs & Hm & _ & HC).
  assert (meter_consumed m <= meter_consumed m') as HL.
  { unfold charge_common in E. rewrite He in E. unfold in_u64 in Hw. destruct (_ >? _); injection E as <- <-; cbn; lia. }
  split_and!; unfold meter_after; split_and?; try done.
  - destruct (_ <=? _); destruct HC as (? & _); eauto.
  - by rewrite He.
  - destruct (_ <=? _); destruct HC as (_ & -> & ->); done.
Qed.

Lemma charge_after base d u m :
  meter_inv base m -> exhausted m = false -> in_u64 u ->
  let '(r, m') := charge d u m in
  (exists base', meter_inv base' m') /\ meter_after m m' /\ exhausted m' = negb (is_ok r).
Proof.
  intros HI He Hu. pose proof (charge_spec base m d u HI He Hu) as HC. pose proof HI as (_ & _ & _ & _ & ? & _).
  destruct (charge d u m) as [r m'] eqn:E. destruct HC as (HI' & Hs & Hm & HC).
  assert (meter_consumed m <= meter_consumed m') as HL.
  { unfold charge, exhaust in E. rewrite He in E. repeat case_match; simplify_eq/=; try lia.
    match goal with HS : checked_sub _ _ = Some _ |- _ => apply checked_sub_Some in HS as [-> ?] end. lia. }
  split_and!; unfold meter_after; split_and?; try done; [by exists base|by rewrite He|].
  destruct (_ && _); destruct HC as (-> & HX); cbn; [by destruct HX as [-> _]|done].
Qed.

Section Calls.
Context `{Blake3} (source : StateSource).
Context (charges : HostChargeScheduleV1) (dispatch : RuntimeDispatchTableV1).
Context (snapshots : gmap CommitmentDomainId DomainSnapshot).
(** The contexts in which calls run, and the relation their writes respect. *)
Context (P : RuntimeCallContextV1 -> Prop) (X : overlay -> overlay -> Prop).

Record call_policy : Prop := MkCallPolicy {
  X_same : forall a b, overlay_eq a b -> X a b;
  X_trans : forall a b c, X a b -> X b c -> X a c;
  X_write : forall c key scoped v value,
    P c -> cx_read_only (cx_parts c) = false ->
    scoped_wasm_storage_key (cx_target (cx_parts c)) key = Ok scoped -> X v (overlay_set v DomWasm scoped value);
  X_transfer : forall c c' spec j j',
    P c -> spec_ok spec -> derive_child_context c spec = Ok c' -> journal_ok j -> j_snapshots j = snapshots ->
    transfer_attached_value source (cx_target (cx_parts c)) (spec_target spec) (spec_value spec) j = (Ok tt, j') ->
    X (jview j) (jview j');
  P_child : forall c c' spec backend,
    P c -> derive_child_context c spec = Ok c' -> factory_for dispatch (spec_target spec) = Some backend -> P c';
  backends_ok : forall target backend, factory_for dispatch target = Some backend -> backend_ok backend;
}.

Record coord_ok (s : CoordState) : Prop := MkCoordOk {
  co_journal : journal_ok (cs_journal s);
  co_snapshots : j_snapshots (cs_journal s) = snapshots;
  co_effects : effects_ok (cs_effects s);
  co_meter : exists base, meter_inv base (cs_meter s);
  co_depth : length (j_frames (cs_journal s)) = length (es_frames (cs_effects s));
  co_exhausted : exhausted (cs_meter s) = true -> cs_terminal s <> Running;
}.

(** From [s] to [s'] inside one call. *)
Record call_step (s s' : CoordState) : Prop := MkCallStep {
  st_below : tail (j_frames (cs_journal s')) = tail (j_frames (cs_journal s));
  st_effects_below : tail (es_frames (cs_effects s')) = tail (es_frames (cs_effects s));
  st_same : same_journal (cs_journal s) (cs_journal s');
  st_limits : es_limits (cs_effects s') = es_limits (cs_effects s);
  st_meter : meter_after (cs_meter s) (cs_meter s');
  st_terminal : terminal_after (cs_terminal s) (cs_terminal s');
  st_frozen : cs_terminal s <> Running ->
    cs_journal s' = cs_journal s /\ cs_effects s' = cs_effects s /\ cs_meter s' = cs_meter s;
  st_events : exists more, top_events (cs_effects s') = top_events (cs_effects s) ++ more;
  st_view : X (jview (cs_journal s)) (jview (cs_journal s'));
}.

Hypothesis policy : call_policy.

Lemma X_refl v : X v v.
Proof. by apply (X_same policy). Qed.

Lemma call_step_refl s : call_step s s.
Proof.
  split; try done; [by left| |apply X_refl]. exists []. by rewrite app_nil_r.
Qed.

Lemma terminal_after_stays t t' : t <> Running -> terminal_after t t' -> t' <> Running.
Proof. unfold terminal_after. intuition congruence. Qed.

Lemma terminal_after_trans a b c : terminal_after a b -> terminal_after b c -> terminal_after a c.
Proof. unfold terminal_after. intuition congruence. Qed.

Lemma call_step_trans a b c : call_step a b -> call_step b c -> call_step a c.
Proof.
  intros [A1 A2 A3 A4 A5 A6 A7 A8 A9] [B1 B2 B3 B4 B5 B6 B7 B8 B9]. split; try congruence.
  - by eapply same_journal_trans.
  - by eapply meter_after_trans.
  - by eapply terminal_after_trans.
  - intros HN. destruct (A7 HN) as (E1 & E2 & E3).
    destruct (B7 (terminal_after_stays _ _ HN A6)) as (E4 & E5 & E6). split_and!; congruence.
  - destruct A8 as [l1 E1], B8 as [l2 E2]. exists (l1 ++ l2). by rewrite E2, E1, app_assoc.
  - by eapply (X_trans policy).
Qed.

(** A host step from a running state: what it keeps, and what its result says. *)
Definition live {A} (m : host_eff A) (Q : A -> Prop) : Prop := forall s,
  coord_ok s -> cs_terminal s = Running ->
  let '(r, s') := m s in
  coord_ok s' /\ call_step s s' /\ match r with Ok a => cs_terminal s' = Running /\ Q a | Err _ => True end.

Abbreviation any := (fun _ => True).

Lemma live_ret {A} (a : A) (Q : A -> Prop) : Q a -> live (eff_ret a) Q.
Proof. intros HQ s HO HR. cbn. split_and!; try done. apply call_step_refl. Qed.

Lemma live_fail {A} e (Q : A -> Prop) : live (eff_fail e) Q.
Proof. intros s HO HR. cbn. split_and!; try done. apply call_step_refl. Qed.

Lemma live_bind {A B} (m : host_eff A) (k : A -> host_eff B) Q Q' :
  live m Q -> (forall a, Q a -> live (k a) Q') -> live (let! a := m in k a) Q'.
Proof.
  intros HM HK s HO HR. unfold eff_bind. specialize (HM s HO HR). destruct (m s) as [[a|e] s1].
  - destruct HM as (HO1 & HS1 & HR1 & HQ). specialize (HK a HQ s1 HO1 HR1). destruct (k a s1) as [r s2].
    destruct HK as (HO2 & HS2 & HR2). split_and!; try done. by eapply call_step_trans.
  - by destruct HM as (? & ? & _).
Qed.

Lemma live_weaken {A} (m : host_eff A) (Q Q' : A -> Prop) : (forall a, Q a -> Q' a) -> live m Q -> live m Q'.
Proof.
  intros HQ HM s HO HR. specialize (HM s HO HR). destruct (m s) as [[a|e] s1]; naive_solver.
Qed.

(** Setting the flag. *)
Lemma coord_ok_terminal s t : coord_ok s -> t <> Running -> coord_ok (set_terminal s t).
Proof. intros [? ? ? ? ? ?] HT. by split. Qed.

Lemma call_step_terminal s t : cs_terminal s = Running \/ t = Fatal -> call_step s (set_terminal s t).
Proof.
  intros HT. split; try done; [right; naive_solver| |apply X_refl].
  exists []. by rewrite app_nil_r.
Qed.

Lemma live_abort {A} t (Q : A -> Prop) : t <> Running -> live (abort_with t) Q.
Proof.
  intros HT s HO HR. cbn. split_and!; [by apply coord_ok_terminal|by apply call_step_terminal; left|done].
Qed.

(** Changing the meter. *)
Lemma live_charge (m : eff WeightMeter ResourceError.t unit) :
  (forall base x, meter_inv base x -> exhausted x = false ->
     let '(r, x') := m x in (exists base', meter_inv base' x') /\ meter_after x x' /\ exhausted x' = negb (is_ok r)) ->
  live (or_exhausted m) any.
Proof.
  intros HM s HO HR. destruct (co_meter _ HO) as [base HB].
  assert (exhausted (cs_meter s) = false) as He.
  { destruct (exhausted (cs_meter s)) eqn:E; [|done]. by apply (co_exhausted _ HO) in E. }
  specialize (HM base _ HB He). unfold or_exhausted, on_meter. destruct (m (cs_meter s)) as [r x].
  destruct HM as (HB' & HA & Hx).
  assert (forall t, (exhausted x = true -> t <> Running) -> coord_ok (MkCoordState (cs_journal s) x (cs_effects s) t))
    as HO' by (intros t Ht; destruct HO; by split).
  assert (forall t, call_step s (MkCoordState (cs_journal s) x (cs_effects s) t)) as HS.
  { intros t. split; try done; [by right; left| |apply X_refl]. exists []. by rewrite app_nil_r. }
  destruct r as [[]|e]; cbn [is_ok negb] in Hx.
  - unfold set_meter. rewrite HR. split_and!; [apply HO'; congruence|apply HS|done|done].
  - unfold abort_with, set_terminal, set_meter. cbn. split_and!; [by apply HO'|apply HS|done].
Qed.

Lemma live_ensure : live ensure_running any.
Proof.
  intros s HO HR. unfold ensure_running. rewrite bool_decide_true by done. split_and!; try done. apply call_step_refl.
Qed.

Lemma live_charge_common w : in_u64 w -> live (charge_common_weight w) any.
Proof.
  intros Hw. apply (live_bind _ _ any); [apply live_ensure|]. intros _ _. apply live_charge.
  intros base x HI He. by apply (charge_common_after base).
Qed.

Lemma checked_cost_u64 fixed terms v : checked_cost fixed terms = Ok v -> in_u64 v.
Proof.
  unfold checked_cost. destruct (try_fold _ _ _) as [total|]; [|done]. intros HV%ok_or_Ok. unfold try_from in HV.
  destruct ((0 <=? total) && _) eqn:E; [|done]. injection HV as <-. unfold in_u64. lia.
Qed.

Lemma live_cost cost : (forall v, cost = Ok v -> in_u64 v) -> live (charge_cost cost) any.
Proof.
  intros HC. unfold charge_cost, checked_host_cost. destruct cost as [v|e].
  - apply (live_bind _ _ (fun a => a = v)); [by apply live_ret|]. intros ? ->. by apply live_charge_common, HC.
  - apply (live_bind _ _ (fun _ => False)); [by apply live_abort|]. by intros ? [].
Qed.

#[local] Hint Resolve checked_cost_u64 : core.

(** *** Host methods *)

Lemma live_charge_vm h units : in_u64 units -> live (charge_vm_weight h units) any.
Proof.
  intros Hu. apply (live_bind _ _ any); [apply live_ensure|]. intros _ _.
  destruct (cx_execution_domain _); try (by apply live_abort);
    apply live_charge; intros base x HI He; by apply (charge_after base).
Qed.

Lemma live_require_wasm h : live (require_wasm_state h) any.
Proof.
  unfold require_wasm_state. destruct (cx_execution_domain _);
    [by apply live_abort|apply live_fail|by apply live_ret|by apply live_abort].
Qed.

Lemma live_scoped h key :
  live (scoped_key h key) (fun k => scoped_wasm_storage_key (cx_target (cx_parts (ch_context h))) key = Ok k).
Proof.
  unfold scoped_key. destruct (scoped_wasm_storage_key _ _) as [k|]; [by apply live_ret|apply live_fail].
Qed.

(** A change of the journal inside its top frame. *)
Lemma journal_step s j :
  coord_ok s -> cs_terminal s = Running -> journal_ok j -> tail (j_frames j) = tail (j_frames (cs_journal s)) ->
  same_journal (cs_journal s) j -> X (jview (cs_journal s)) (jview j) ->
  coord_ok (set_journal s j) /\ call_step s (set_journal s j).
Proof.
  intros HO HR HJ HT (E1 & E2 & E3) HX. pose proof HO as [G1 G2 G3 G4 G5 G6]. split.
  - split; try done; cbn; [congruence|]. rewrite <- G5. pose proof (ok_frames _ HJ). pose proof (ok_frames _ G1).
    destruct (j_frames j), (j_frames (cs_journal s)); try done. cbn in *. by rewrite HT.
  - split; try done; [by left|]. exists []. by rewrite app_nil_r.
Qed.

Lemma live_write c key scoped value :
  P c -> cx_read_only (cx_parts c) = false -> scoped_wasm_storage_key (cx_target (cx_parts c)) key = Ok scoped ->
  live (or_fatal (stage_write DomWasm scoped value)) any.
Proof.
  intros HP HRO HK s HO HR. unfold or_fatal, on_journal.
  pose proof (stage_write_spec (cs_journal s) DomWasm scoped value (co_journal _ HO)) as HW.
  destruct (stage_write DomWasm scoped value (cs_journal s)) as [[[]|e] j].
  - destruct HW as (HJ & HT & HS & HV). destruct (journal_step s j) as [HO' HS']; try done.
    { eapply (X_trans policy); [|apply (X_same policy); symmetry; exact HV]. by eapply (X_write policy). }
  - subst j. assert (set_journal s (cs_journal s) = s) as -> by (by destruct s). by apply live_abort.
Qed.

Lemma live_state_get h key : live (state_get source h key) any.
Proof.
  apply (live_bind _ _ any); [apply live_ensure|]. intros _ _.
  apply (live_bind _ _ any); [apply live_require_wasm|]. intros _ _.
  eapply live_bind; [apply live_scoped|]. intros scoped _.
  apply (live_bind _ _ any); [apply live_cost; eauto|]. intros _ _.
  destruct (ch_dispatch h); [|apply live_fail]. intros s HO HR.
  destruct (journal_read _ _ _ _) as [[bytes|]|].
  - revert s HO HR. apply (live_bind _ _ any); [apply live_cost; eauto|]. intros _ _. by apply live_ret.
  - split_and!; try done. apply call_step_refl.
  - by apply (live_abort Fatal).
Qed.

Lemma live_state_put h key value : P (ch_context h) -> live (state_put h key value) any.
Proof.
  intros HP. apply (live_bind _ _ any); [apply live_ensure|]. intros _ _.
  apply (live_bind _ _ any); [apply live_require_wasm|]. intros _ _.
  destruct (_ >? _); [apply live_fail|]. eapply live_bind; [apply live_scoped|]. intros scoped HK.
  destruct (cx_read_only _) eqn:ER; [apply live_fail|].
  apply (live_bind _ _ any); [apply live_cost; eauto|]. intros _ _.
  destruct (ch_dispatch h); [by apply (live_write (ch_context h) key)|apply live_fail].
Qed.

Lemma live_state_delete h key : P (ch_context h) -> live (state_delete h key) any.
Proof.
  intros HP. apply (live_bind _ _ any); [apply live_ensure|]. intros _ _.
  apply (live_bind _ _ any); [apply live_require_wasm|]. intros _ _.
  eapply live_bind; [apply live_scoped|]. intros scoped HK.
  destruct (cx_read_only _) eqn:ER; [apply live_fail|].
  apply (live_bind _ _ any); [apply live_cost; eauto|]. intros _ _.
  destruct (ch_dispatch h); [by apply (live_write (ch_context h) key)|apply live_fail].
Qed.

Lemma live_emit_event h ts bytes : live (emit_event h ts bytes) any.
Proof.
  apply (live_bind _ _ any); [apply live_ensure|]. intros _ _. destruct (_ || _); [apply live_fail|].
  apply (live_bind _ _ any); [apply live_cost; eauto|]. intros _ _. intros s HO HR. unfold on_effects.
  destruct (es_frames (cs_effects s)) as [|f below] eqn:EF; [by destruct (eo_frames _ (co_effects _ HO))|].
  pose proof (push_event_parts_spec _ (cx_target (cx_parts (ch_context h))) ts bytes _ _ (co_effects _ HO) EF) as HE.
  destruct (push_event_parts _ _ _ _) as [[[]|e] es].
  - destruct HE as (HE & HL & EF'). split_and!; try done.
    + destruct HO as [G1 G2 G3 G4 G5 G6]. split; try done. cbn. by rewrite G5, EF, EF'.
    + split; try done; cbn; [by rewrite EF, EF'|by left|unfold top_events; rewrite EF, EF'; by eexists|apply X_refl].
  - destruct HE as [-> HT]. assert (set_effects s (cs_effects s) = s) as -> by (by destruct s).
    destruct e; try done; by apply (live_fail (RuntimeHostSignalV1.Trap RuntimeTrapCodeV1.EventLimitExceeded)).
Qed.

(** Outside a running state a method changes nothing but the flag. *)
Lemma stopped_step {A} (m : host_eff A) :
  live m any -> (forall s, coord_ok s -> cs_terminal s <> Running -> (m s).2 = s \/ (m s).2 = set_terminal s Fatal) ->
  steps call_step coord_ok m.
Proof.
  intros HM HS s HO. destruct (decide (cs_terminal s = Running)) as [HR|HR].
  - specialize (HM s HO HR). destruct (m s) as [r s']. by destruct HM as (? & ? & _).
  - destruct (HS s HO HR) as [-> | ->]; [split; [done|apply call_step_refl]|].
    split; [by apply coord_ok_terminal|by apply call_step_terminal; right].
Qed.

Lemma stopped_ensure {A} (k : unit -> host_eff A) s :
  cs_terminal s <> Running -> ((let! x := ensure_running in k x) s).2 = s.
Proof. intros HR. unfold eff_bind, ensure_running. by rewrite bool_decide_false. Qed.

Lemma stopped_cost {A} cost (k : unit -> host_eff A) s :
  cs_terminal s <> Running ->
  ((let! x := charge_cost cost in k x) s).2 = s \/ ((let! x := charge_cost cost in k x) s).2 = set_terminal s Fatal.
Proof.
  intros HR. unfold charge_cost, checked_host_cost, charge_common_weight, eff_bind, ensure_running. destruct cost as [v|e].
  - cbn. rewrite bool_decide_false by done. by left.
  - by right.
Qed.

(** *** Frames *)

Lemma rollback_spec s c p b ec ep eb :
  coord_ok s -> j_frames (cs_journal s) = c :: p :: b -> es_frames (cs_effects s) = ec :: ep :: eb ->
  exists s', rollback_child_frames s = (Ok tt, s') /\ coord_ok s' /\ j_frames (cs_journal s') = p :: b /\
    es_frames (cs_effects s') = ep :: eb /\ same_journal (cs_journal s) (cs_journal s') /\
    es_limits (cs_effects s') = es_limits (cs_effects s) /\ cs_meter s' = cs_meter s /\ cs_terminal s' = cs_terminal s /\
    live_retained_bytes (cs_effects s')
    = live_retained_bytes (cs_effects s) - retained_event_bytes ec - retained_return_bytes ec.
Proof.
  intros [G1 G2 G3 G4 G5 G6] EF EE. unfold rollback_child_frames, on_journal, on_effects.
  destruct (revert_frame_spec _ _ _ _ G1 EF) as (j & -> & HJ & EJ & HS).
  cbn [set_journal cs_effects cs_meter cs_terminal].
  destruct (es_revert_spec _ _ _ _ G3 EE) as (es & -> & HE & HL & HB & EE').
  cbn [is_ok negb orb]. eexists. split_and!; try done. destruct HS as (? & ? & ?).
  split; try done; cbn; [congruence|]. rewrite EJ, EE'. rewrite EF, EE in G5. cbn in G5. cbn. lia.
Qed.

Lemma begin_child_spec s :
  coord_ok s -> cs_terminal s = Running ->
  match begin_child_frames s with
  | (Ok _, s') => coord_ok s' /\ j_frames (cs_journal s') = JournalFrame_default :: j_frames (cs_journal s) /\
      es_frames (cs_effects s') = EffectFrameV1_default :: es_frames (cs_effects s) /\
      same_journal (cs_journal s) (cs_journal s') /\ es_limits (cs_effects s') = es_limits (cs_effects s) /\
      cs_meter s' = cs_meter s /\ cs_terminal s' = Running /\
      live_retained_bytes (cs_effects s') = live_retained_bytes (cs_effects s) /\
      Z.of_nat (length (es_frames (cs_effects s))) < max_call_depth (es_limits (cs_effects s))
  | (Err e, s') => e = RuntimeHostSignalV1.Abort /\ coord_ok s' /\ j_frames (cs_journal s') = j_frames (cs_journal s) /\
      cs_effects s' = cs_effects s /\ same_journal (cs_journal s) (cs_journal s') /\ cs_meter s' = cs_meter s /\
      cs_terminal s' = TerminalExhausted
  end.
Proof.
  intros [G1 G2 G3 G4 G5 G6] HR. unfold begin_child_frames, on_journal, on_effects.
  pose proof (begin_frame_spec _ G1) as HB. destruct (begin_frame (cs_journal s)) as [[[]|e] j].
  2: { subst j. cbn. split_and!; done. }
  destruct HB as (HJ & EJ & HS & _). cbn [set_journal cs_effects cs_meter cs_terminal cs_journal].
  pose proof (es_begin_spec _ G3) as HE. destruct (es_begin (cs_effects s)) as [[[]|e] es].
  - destruct HE as (HE & EE & HL & HLR & HD). cbn. split_and!; try done. destruct HS as (? & ? & ?).
    split; try done; cbn; [congruence|by rewrite EJ, EE; cbn; rewrite G5].
  - subst es. cbn [set_effects set_journal cs_journal]. destruct (j_frames (cs_journal s)) as [|f fs] eqn:EF; [by destruct (ok_frames _ G1)|].
    destruct (revert_frame_spec _ _ _ _ HJ EJ) as (j' & -> & HJ' & EJ' & HS'). cbn.
    pose proof (same_journal_trans _ _ _ HS HS') as HT. split_and!; try done. destruct HT as (? & ? & ?).
    split; try done; cbn; [congruence|by rewrite EJ'].
Qed.

Lemma commit_child_spec s c p b ec ep eb :
  coord_ok s -> j_frames (cs_journal s) = c :: p :: b -> es_frames (cs_effects s) = ec :: ep :: eb ->
  exists s' f ef, commit_child_frames s = (Ok tt, s') /\ coord_ok s' /\ j_frames (cs_journal s') = f :: b /\
    es_frames (cs_effects s') = ef :: eb /\ ef_events ef = ef_events ep ++ ef_events ec /\
    same_journal (cs_journal s) (cs_journal s') /\ es_limits (cs_effects s') = es_limits (cs_effects s) /\
    cs_meter s' = cs_meter s /\ cs_terminal s' = cs_terminal s /\ overlay_eq (jview (cs_journal s')) (jview (cs_journal s)).
Proof.
  intros [G1 G2 G3 G4 G5 G6] EF EE. unfold commit_child_frames, on_journal, on_effects.
  destruct (commit_frame_spec _ _ _ _ G1 EF) as (j & f & -> & HJ & EJ & HS & HV).
  cbn [set_journal cs_effects cs_meter cs_terminal].
  destruct (es_commit_spec _ _ _ _ G3 EE) as (es & -> & HE & HL & HB & EE').
  eexists _, f, _. split_and!; try done. destruct HS as (? & ? & ?).
  split; try done; cbn; [congruence|]. rewrite EJ, EE'. rewrite EF, EE in G5. cbn in G5. cbn. lia.
Qed.

(** Back at the level of [s], with the same frames but for retained bytes. *)
Lemma back_step s s' :
  cs_terminal s = Running -> j_frames (cs_journal s') = j_frames (cs_journal s) ->
  tail (es_frames (cs_effects s')) = tail (es_frames (cs_effects s)) ->
  top_events (cs_effects s') = top_events (cs_effects s) -> same_journal (cs_journal s) (cs_journal s') ->
  es_limits (cs_effects s') = es_limits (cs_effects s) -> meter_after (cs_meter s) (cs_meter s') -> call_step s s'.
Proof.
  intros HR EJ EE EV HS HL HM. split; try done; [by rewrite EJ|by right; left| |].
  - exists []. by rewrite EV, app_nil_r.
  - apply (X_same policy). intros d key. unfold jview. by rewrite EJ.
Qed.

(** *** Nested calls *)

(** [s'] is one frame above [s]. *)
Record inside (s s' : CoordState) : Prop := MkInside {
  in_outer : coord_ok s;
  in_running : cs_terminal s = Running;
  in_inner : coord_ok s';
  in_journal : exists c, j_frames (cs_journal s') = c :: j_frames (cs_journal s);
  in_effects : exists ec, es_frames (cs_effects s') = ec :: es_frames (cs_effects s);
  in_same : same_journal (cs_journal s) (cs_journal s');
  in_limits : es_limits (cs_effects s') = es_limits (cs_effects s);
  in_meter : meter_after (cs_meter s) (cs_meter s');
}.

(** The frames show the same writes and events. *)
Definition same_effects (s s' : CoordState) : Prop :=
  j_frames (cs_journal s') = j_frames (cs_journal s) /\
  map ef_events (es_frames (cs_effects s')) = map ef_events (es_frames (cs_effects s)).

Definition call_result (s : CoordState) (r : host_result RuntimeCallResultV1.t) (s' : CoordState) : Prop :=
  coord_ok s' /\ call_step s s' /\
  match r with
  | Ok _ => cs_terminal s' = Running
  | Err e => e = RuntimeHostSignalV1.Abort /\ cs_terminal s' <> Running
  end /\
  ((forall d, r <> Ok (RuntimeCallResultV1.Success d)) -> same_effects s s').

Lemma outer_frames s :
  coord_ok s -> exists f fs ef efs, j_frames (cs_journal s) = f :: fs /\ es_frames (cs_effects s) = ef :: efs.
Proof.
  intros HO. pose proof (ok_frames _ (co_journal _ HO)). pose proof (eo_frames _ (co_effects _ HO)).
  destruct (j_frames _), (es_frames _); try done. by eexists _, _, _, _.
Qed.

Lemma inside_rollback s s' ec :
  inside s s' -> es_frames (cs_effects s') = ec :: es_frames (cs_effects s) ->
  exists s2, rollback_child_frames s' = (Ok tt, s2) /\ coord_ok s2 /\ call_step s s2 /\
    j_frames (cs_journal s2) = j_frames (cs_journal s) /\ es_frames (cs_effects s2) = es_frames (cs_effects s) /\
    cs_terminal s2 = cs_terminal s' /\ es_limits (cs_effects s2) = es_limits (cs_effects s') /\
    live_retained_bytes (cs_effects s2)
    = live_retained_bytes (cs_effects s') - retained_event_bytes ec - retained_return_bytes ec.
Proof.
  intros [HO HR HI [c EJ] _ HS HL HM] EE. destruct (outer_frames s HO) as (f & fs & ef & efs & EF & EE').
  rewrite EF in EJ. rewrite EE' in EE.
  destruct (rollback_spec s' _ _ _ _ _ _ HI EJ EE) as (s2 & -> & HO2 & EJ2 & EE2 & HS2 & HL2 & HM2 & HT2 & HB2).
  exists s2. split_and!; try done; try congruence. apply back_step; try done; try congruence.
  - unfold top_events. by rewrite EE2, EE'.
  - by eapply same_journal_trans.
Qed.

Lemma same_effects_frames s s' :
  j_frames (cs_journal s') = j_frames (cs_journal s) -> es_frames (cs_effects s') = es_frames (cs_effects s) ->
  same_effects s s'.
Proof. intros E1 E2. unfold same_effects. by rewrite E1, E2. Qed.

(** Rolling back and returning what does not depend on the state. *)
Lemma rollback_result s s' (r : RuntimeCallResultV1.t) :
  inside s s' -> cs_terminal s' = Running ->
  let '(x, s2) := (let! _ := rollback_child_frames in eff_ret r) s' in call_result s x s2.
Proof.
  intros HI HR. destruct (in_effects _ _ HI) as [ec EE].
  destruct (inside_rollback _ _ _ HI EE) as (s2 & E & HO & HS & EJ & EE2 & HT & _).
  unfold eff_bind. rewrite E. cbn. split_and!; try done; [congruence|]. intros _. by apply same_effects_frames.
Qed.

Lemma rollback_stopped s s' :
  inside s s' -> cs_terminal s' <> Running ->
  let '(x, s2) := (let! _ := rollback_child_frames in eff_fail RuntimeHostSignalV1.Abort) s' in
  call_result s (x : host_result RuntimeCallResultV1.t) s2.
Proof.
  intros HI HR. destruct (in_effects _ _ HI) as [ec EE].
  destruct (inside_rollback _ _ _ HI EE) as (s2 & E & HO & HS & EJ & EE2 & HT & _).
  unfold eff_bind. rewrite E. cbn. split_and!; try done; [congruence|]. intros _. by apply same_effects_frames.
Qed.

Lemma rollback_fatal_result s s' : inside s s' -> let '(x, s2) := rollback_fatal s' in call_result s x s2.
Proof.
  intros HI. destruct (in_effects _ _ HI) as [ec EE].
  destruct (inside_rollback _ _ _ HI EE) as (s2 & E & HO & HS & EJ & EE2 & HT & _).
  unfold rollback_fatal. rewrite E. cbn. split_and!; try done.
  - by apply coord_ok_terminal.
  - eapply call_step_trans; [done|]. apply call_step_terminal. by right.
  - intros _. by apply same_effects_frames.
Qed.

Lemma commit_result s s' r :
  inside s s' -> cs_terminal s' = Running -> X (jview (cs_journal s)) (jview (cs_journal s')) ->
  let '(x, s2) := (let! _ := commit_child_frames in eff_ret (RuntimeCallResultV1.Success r)) s' in call_result s x s2.
Proof.
  intros [HO HR HI [c EJ] [ec EE] HS HL HM] HR' HX. destruct (outer_frames s HO) as (f & fs & ef & efs & EF & EE').
  rewrite EF in EJ. rewrite EE' in EE.
  destruct (commit_child_spec s' _ _ _ _ _ _ HI EJ EE)
    as (s2 & f' & ef' & E & HO2 & EJ2 & EE2 & EV & HS2 & HL2 & HM2 & HT2 & HV).
  unfold eff_bind. rewrite E. cbn. split_and!; try done.
  - split; try congruence.
    + by rewrite EF, EJ2.
    + by rewrite EE', EE2.
    + by eapply same_journal_trans.
    + by right; left.
    + unfold top_events. rewrite EE', EE2. by eexists.
    + eapply (X_trans policy); [done|]. by apply (X_same policy).
  - congruence.
  - intros HN. by destruct (HN r).
Qed.

(** Retained return bytes only touch the counters of the top frame. *)
Lemma retain_inside s s' n ec :
  inside s s' -> es_frames (cs_effects s') = ec :: es_frames (cs_effects s) -> 0 <= n <= 262144 ->
  match on_effects (retain_return_bytes n) s' with
  | (Ok _, s2) => inside s s2 /\ cs_journal s2 = cs_journal s' /\ cs_terminal s2 = cs_terminal s' /\
      live_retained_bytes (cs_effects s2) = live_retained_bytes (cs_effects s') + n /\
      es_frames (cs_effects s2)
      = MkEffectFrame (ef_events ec) (retained_event_bytes ec) (retained_return_bytes ec + n) :: es_frames (cs_effects s)
  | (Err _, s2) => s2 = s'
  end.
Proof.
  intros HI EE Hn. unfold on_effects.
  pose proof (retain_return_bytes_spec _ n _ _ (co_effects _ (in_inner _ _ HI)) EE Hn) as HT.
  destruct (retain_return_bytes n (cs_effects s')) as [[u|e] es].
  - destruct HT as (HE & HL & HB & EE2). split_and!; try done. destruct HI as [A1 A2 [G1 G2 G3 G4 G5 G6] A4 A5 A6 A7 A8].
    split; try done; cbn; [|by eexists|congruence]. split; try done; cbn. rewrite EE2, G5, EE. done.
  - destruct HT as [-> _]. by destruct s'.
Qed.

Lemma revert_result s s' d n ec :
  inside s s' -> cs_terminal s' = Running ->
  es_frames (cs_effects s') = MkEffectFrame (ef_events ec) (retained_event_bytes ec) (retained_return_bytes ec + n)
                              :: es_frames (cs_effects s) ->
  effect_frame_ok ec -> 0 <= n <= 262144 ->
  let '(x, s2) :=
    (let! _ := rollback_child_frames in
     fun s2 =>
       let '(retained, s3) :=
         if n =? 0 then (true, s2)
         else let '(r, s3) := on_effects (retain_return_bytes n) s2 in (is_ok r, s3) in
       if negb retained then abort_with Fatal s3 else (Ok (RuntimeCallResultV1.Revert d), s3)) s' in
  call_result s x s2.
Proof.
  intros HI HR EE Hc Hn. destruct (inside_rollback _ _ _ HI EE) as (s2 & E & HO & HS & EJ & EE2 & HT & HL & HB).
  unfold eff_bind. rewrite E. cbv beta. destruct (Z.eqb_spec n 0) as [->|Hn0]; cbn [negb].
  { split_and!; try done; [congruence|]. intros _. by apply same_effects_frames. }
  unfold on_effects. destruct (outer_frames s (in_outer _ _ HI)) as (f & fs & ef & efs & EF & EE').
  rewrite EE' in EE2. pose proof (retain_return_bytes_spec _ n _ _ (co_effects _ HO) EE2 Hn) as HRT.
  pose proof (effect_frame_nonneg _ Hc). pose proof (eo_retained _ (co_effects _ (in_inner _ _ HI))).
  cbn [retained_event_bytes retained_return_bytes] in HB.
  destruct (retain_return_bytes n (cs_effects s2)) as [[u|e] es]; cbn [is_ok negb].
  - destruct HRT as (HE & HL' & _ & EE3).
    assert (call_step s2 (set_effects s2 es)) as HS3.
    { apply back_step; try done; cbn; [congruence|by rewrite EE2, EE3|unfold top_events; by rewrite EE2, EE3]. }
    split_and!; try done; cbn.
    + destruct HO as [G1 G2 G3 G4 G5 G6]. split; try done; cbn. by rewrite G5, EE2, EE3.
    + by eapply call_step_trans.
    + congruence.
    + intros _. split; [done|]. cbn. by rewrite EE3, EE'.
  - destruct HRT as [_ HX]. rewrite HL in HX. lia.
Qed.

Lemma finish_result s s' r :
  inside s s' -> cs_terminal s' = Running -> X (jview (cs_journal s)) (jview (cs_journal s')) ->
  let '(x, s2) := finish_nested_call r s' in call_result s x s2.
Proof.
  intros HI HR HX. destruct (in_effects _ _ HI) as [ec EE]. unfold finish_nested_call.
  destruct (call_validate r) as [[]|] eqn:EV; cbn [is_ok negb]; [|by apply rollback_result].
  assert (0 <= Z.of_nat (data_len r) <= 262144) as HN.
  { unfold data_len. destruct r as [d|d|code]; cbn in *; try lia; destruct (_ >? _) eqn:E; try done;
      unfold MAX_RUNTIME_RETURN_DATA_BYTES in *; lia. }
  assert (effect_frame_ok ec) as Hc.
  { pose proof (eo_frame _ (co_effects _ (in_inner _ _ HI))) as HF. rewrite EE in HF. by apply Forall_cons in HF as [? _]. }
  assert (forall n, (n =? 0)%nat = (Z.of_nat n =? 0)) as Hz by (intros [|n]; done). cbv zeta. rewrite Hz.
  assert (exists k s1, (if Z.of_nat (data_len r) =? 0 then (true, s')
     else let '(x, s1) := on_effects (retain_return_bytes (Z.of_nat (data_len r))) s' in (is_ok x, s1)) = (k, s1) /\
     if k then inside s s1 /\ cs_journal s1 = cs_journal s' /\ cs_terminal s1 = Running /\
       es_frames (cs_effects s1) = MkEffectFrame (ef_events ec) (retained_event_bytes ec)
         (retained_return_bytes ec + Z.of_nat (data_len r)) :: es_frames (cs_effects s) else s1 = s') as (k & s1 & -> & HK).
  { destruct (Z.eqb_spec (Z.of_nat (data_len r)) 0) as [->|Hn0].
    - exists true, s'. split_and!; try done. rewrite EE. f_equal. destruct ec; cbn. f_equal. lia.
    - pose proof (retain_inside _ _ _ _ HI EE HN) as HT.
      destruct (on_effects _ s') as [[u|e] s1]; cbn [is_ok]; eexists _, s1; (split; [done|]); [|done].
      destruct HT as (? & ? & ? & ? & ?). split_and!; try done. congruence. }
  destruct k; cbn [negb]; [|by subst s1; apply rollback_result].
  destruct HK as (HI1 & EJ1 & HR1 & EE1). destruct r as [d|d|code].
  - apply commit_result; try done. by rewrite EJ1.
  - by eapply revert_result.
  - by apply rollback_result.
Qed.

Lemma inside_step s s1 s2 : inside s s1 -> coord_ok s2 -> call_step s1 s2 -> inside s s2.
Proof.
  intros [A1 A2 A3 [c A4] [ec A5] A6 A7 A8] HO [B1 B2 B3 B4 B5 _ _ _ _].
  destruct (outer_frames s2 HO) as (f & fs & ef & efs & EF & EE). rewrite A4, EF in B1. rewrite A5, EE in B2.
  cbn in B1, B2. subst fs efs. split; try done; try congruence.
  - by exists f.
  - by exists ef.
  - by eapply same_journal_trans.
  - by eapply meter_after_trans.
Qed.

Lemma derive_child_Ok c spec c' :
  derive_child_context c spec = Ok c' ->
  context_ok c' /\ cx_depth (cx_parts c') = cx_depth (cx_parts c) + 1 /\ cx_target (cx_parts c') = spec_target spec /\
  cx_caller (cx_parts c') = cx_target (cx_parts c) /\
  cx_read_only (cx_parts c') = cx_read_only (cx_parts c) || spec_read_only spec.
Proof.
  unfold derive_child_context. destruct (checked_add _ _ _) as [d|] eqn:Ed; [|done]. apply checked_add_Some in Ed as [-> _].
  cbn [ok_or]. destruct (_ >? _); [done|]. destruct (kind_domain _) as [dom|]; [|done]. cbn [ok_or].
  destruct (from_trusted_parts _) as [x|] eqn:EX; [|done]. intros [= <-]. by apply from_trusted_parts_Ok in EX as [-> HC].
Qed.

Section Nested.
Context (run : RuntimeCallContextV1 -> RuntimeBackendV1 -> eff CoordState RuntimeBackendFailureV1 RuntimeCallResultV1.t).
Hypothesis run_steps : forall c b, P c -> context_ok c -> backend_ok b -> steps call_step coord_ok (run c b).

Lemma same_effects_refl s : same_effects s s.
Proof. done. Qed.

Lemma nested_result c spec s :
  P c -> spec_ok spec -> coord_ok s -> cs_terminal s = Running ->
  let '(x, s2) := execute_nested_call source run dispatch c spec s in call_result s x s2.
Proof.
  intros HP HSp HO HR. unfold execute_nested_call. rewrite bool_decide_true by done. cbn [negb].
  destruct (derive_child_context c spec) as [c'|code] eqn:ED.
  2: { split_and!; try done. apply call_step_refl. }
  destruct (derive_child_Ok _ _ _ ED) as (HC & _).
  destruct (factory_for dispatch (spec_target spec)) as [backend|] eqn:EF.
  2: { split_and!; try done. apply call_step_refl. }
  pose proof (begin_child_spec s HO HR) as HB. destruct (begin_child_frames s) as [[[]|e] s1].
  2: { destruct HB as (-> & HO1 & EJ & EE & HS & HM & HT). split_and!; try done.
       - apply back_step; try done; by rewrite ?EE, ?HM.
       - congruence.
       - intros _. apply same_effects_frames; congruence. }
  destruct HB as (HO1 & EJ & EE & HS & HL & HM & HT & _).
  assert (inside s s1) as HI1 by (split; try done; [by eexists|by eexists|by rewrite HM]).
  unfold on_journal.
  pose proof (keeps_transfer source (cx_target (cx_parts c)) (spec_target spec) (spec_value spec) _ (co_journal _ HO1)) as HK.
  destruct (transfer_attached_value _ _ _ _ _) as [r j] eqn:ET. cbn [snd] in HK. destruct HK as (HJ2 & HT2 & HS2).
  assert (inside s (set_journal s1 j)) as HI2.
  { pose proof (ok_frames _ HJ2). rewrite EJ in HT2. destruct (j_frames j) as [|f fs] eqn:EFj; [done|]. cbn in HT2. subst fs.
    destruct HI1 as [A1 A2 [G1 G2 G3 G4 G5 G6] A4 A5 A6 A7 A8]. split; try done; cbn.
    - destruct HS2 as (? & ? & ?). split; try done; cbn; [congruence|]. rewrite <- G5, EJ, EFj. done.
    - by exists f.
    - by eapply same_journal_trans. }
  destruct r as [[]|[code|]]; [|by apply rollback_result|by apply rollback_fatal_result].
  assert (X (jview (cs_journal s)) (jview j)) as HX.
  { eapply (X_trans policy).
    - apply (X_same policy). instantiate (1 := jview (cs_journal s1)). intros d key. unfold jview. rewrite EJ.
      cbn [lookup_frames jf_writes JournalFrame_default]. unfold lookup_write at 1. by rewrite lookup_empty.
    - eapply (X_transfer policy); try done; [by apply (co_journal _ HO1)|by apply (co_snapshots _ HO1)]. }
  destruct (run_steps c' backend ltac:(by eapply (P_child policy)) HC ltac:(by eapply (backends_ok policy))
    (set_journal s1 j) (in_inner _ _ HI2)) as [HO3 HS3].
  destruct (run c' backend (set_journal s1 j)) as [r s3]. cbn [snd] in *.
  pose proof (inside_step _ _ _ HI2 HO3 HS3) as HI3.
  destruct r as [r|e]; [|by apply rollback_fatal_result].
  case_bool_decide as HR3; cbn [negb]; [|by apply rollback_stopped].
  apply finish_result; try done. eapply (X_trans policy); [done|]. apply (st_view _ _ HS3).
Qed.

End Nested.

Lemma live_call run h spec :
  (forall c b, P c -> context_ok c -> backend_ok b -> steps call_step coord_ok (run dispatch c b)) ->
  P (ch_context h) -> ch_dispatch h = Some dispatch -> spec_ok spec -> live (runtime_call source run h spec) any.
Proof.
  intros Hrun HP HD HSp. unfold runtime_call. rewrite HD.
  apply (live_bind _ _ any); [apply live_cost; eauto|]. intros _ _. apply (live_bind _ _ any).
  - intros s HO HR. pose proof (nested_result _ Hrun _ _ s HP HSp HO HR) as HN.
    destruct (execute_nested_call _ _ _ _ _ s) as [r s2]. destruct HN as (? & ? & HK & _).
    split_and!; try done. by destruct r.
  - intros r _. destruct (call_return_data r); [|by apply live_ret].
    apply (live_bind _ _ any); [apply live_cost; eauto|]. intros _ _. by apply live_ret.
Qed.

(** Every operation of a host whose calls are run by [run]. *)
Lemma coordinator_host_steps run c :
  (forall c b, P c -> context_ok c -> backend_ok b -> steps call_step coord_ok (run dispatch c b)) -> P c ->
  host_steps (coordinator_host source run (CoordinatorHostV1_new_active c charges dispatch)) call_step coord_ok.
Proof.
  intros IH HP. split; cbn.
  - intros key. apply stopped_step; [apply live_state_get|]. intros s _ HR. left. by apply stopped_ensure.
  - intros key value. apply stopped_step; [by apply live_state_put|]. intros s _ HR. left. by apply stopped_ensure.
  - intros key. apply stopped_step; [by apply live_state_delete|]. intros s _ HR. left. by apply stopped_ensure.
  - intros ts bytes. apply stopped_step; [apply live_emit_event|]. intros s _ HR. left. by apply stopped_ensure.
  - intros spec HSp. apply stopped_step; [by apply live_call|]. intros s _ HR. by apply stopped_cost.
  - intros units Hu. apply stopped_step; [by apply live_charge_vm|]. intros s _ HR. left. by apply stopped_ensure.
  - intros units Hu. apply stopped_step; [by apply live_charge_common|]. intros s _ HR. left. by apply stopped_ensure.
Qed.

(** The main lemma: every backend, at every depth. *)
Lemma run_backend_steps levels c b :
  P c -> context_ok c -> backend_ok b -> steps call_step coord_ok (run_backend source levels charges dispatch c b).
Proof.
  revert c b. induction levels as [|levels IH]; intros c b HP HC HB; cbn [run_backend].
  { intros s HO. cbn. split; [done|apply call_step_refl]. }
  apply execute_steps; [apply call_step_refl|apply call_step_trans|by apply coordinator_host_steps|done].
Qed.

End Calls.
