(* ===== verification/CoordinatorFacts.v ===== *)
(** Facts the theorems on the coordinator rest on: the levels of calls are
    bounded, balances are conserved by transfers, scoped keys are disjoint. *)
From S2P Require Import Prelude Encoding Layout Address Envelope FeeReceipt Commitment Smt SmtWrite StateValues Receipts Journal Weight Runtime Effects Coordinator CoordinatorCalls.

(** ** Levels *)

Lemma execute_ext {S} (h1 h2 : RuntimeHostV1 S) b s :
  host_context h1 = host_context h2 ->
  (forall key s, host_state_get h1 key s = host_state_get h2 key s) ->
  (forall key v s, host_state_put h1 key v s = host_state_put h2 key v s) ->
  (forall key s, host_state_delete h1 key s = host_state_delete h2 key s) ->
  (forall ts d s, host_emit_event h1 ts d s = host_emit_event h2 ts d s) ->
  (forall spec s, host_call h1 spec s = host_call h2 spec s) ->
  (forall u s, host_charge_vm_units h1 u s = host_charge_vm_units h2 u s) ->
  (forall u s, host_charge_common h1 u s = host_charge_common h2 u s) ->
  backend_execute h1 b s = backend_execute h2 b s.
Proof.
  intros E0 E1 E2 E3 E4 E5 E6 E7. revert s. induction b as [r|k IH|key k IH|key v k IH|key k IH|ts d k IH|spec k IH|u k IH|u k IH];
    intros s; cbn [backend_execute]; [done|by rewrite E0, IH|rewrite E1|rewrite E2|rewrite E3|rewrite E4|rewrite E5|rewrite E6|rewrite E7];
    match goal with |- context [let '(_, _) := ?x in _] => destruct x as [a s'] end; apply IH.
Qed.

Section Levels.
Context `{Blake3} (source : StateSource) (charges : HostChargeScheduleV1) (dispatch : RuntimeDispatchTableV1).

Lemma nested_ext run1 run2 c spec s :
  (forall c' b s, derive_child_context c spec = Ok c' -> run1 c' b s = run2 c' b s) ->
  execute_nested_call source run1 dispatch c spec s = execute_nested_call source run2 dispatch c spec s.
Proof.
  intros HR. unfold execute_nested_call. destruct (negb _); [done|].
  destruct (derive_child_context c spec) as [c'|]; [|done]. destruct (factory_for _ _); [|done].
  destruct (begin_child_frames s) as [[]]; [|done]. destruct (on_journal _ _) as [[|[]]]; try done. by rewrite HR.
Qed.

Lemma runtime_call_ext run1 run2 h spec s :
  (forall d c' b s, derive_child_context (ch_context h) spec = Ok c' -> ch_dispatch h = Some d ->
     run1 d c' b s = run2 d c' b s) ->
  ch_dispatch h = Some dispatch -> runtime_call source run1 h spec s = runtime_call source run2 h spec s.
Proof.
  intros HR HD. unfold runtime_call, eff_bind. destruct (charge_cost _ _) as [[]]; [|done]. rewrite HD.
  rewrite (nested_ext _ (run2 dispatch)); [done|]. intros c' b' s' HC. by apply HR.
Qed.

(** From a context at depth [d], more than [64 - d] levels are as good as any
    larger number. *)
Lemma run_backend_levels n m c b s :
  context_ok c -> 65 - cx_depth (cx_parts c) <= Z.of_nat n -> 65 - cx_depth (cx_parts c) <= Z.of_nat m ->
  run_backend source n charges dispatch c b s = run_backend source m charges dispatch c b s.
Proof.
  revert m c b s. induction n as [|n IH]; intros m c b s [HD HT] Hn Hm; unfold MAX_RUNTIME_CALL_DEPTH in HD; [lia|].
  destruct m as [|m]; [lia|]. cbn [run_backend]. apply execute_ext; try done. intros spec s'. cbn.
  apply runtime_call_ext; [|done]. intros d c' b' s1 HC [= <-]. cbn in HC.
  destruct (derive_child_Ok _ _ _ HC) as (HO & ED & _). apply IH; [done|lia|lia].
Qed.

End Levels.

(** ** Balances *)

(** Sums over lists of addresses. *)
Definition zsum {A} (f : A -> Z) (l : list A) : Z := foldr (fun a acc => f a + acc) 0 l.

Lemma zsum_perm {A} (f : A -> Z) l1 l2 : l1 ≡ₚ l2 -> zsum f l1 = zsum f l2.
Proof. unfold zsum. induction 1; cbn [foldr] in *; lia. Qed.

Lemma zsum_ext {A} (f g : A -> Z) l : (forall a, a ∈ l -> f a = g a) -> zsum f l = zsum g l.
Proof.
  unfold zsum. induction l as [|a l IH]; intros HE; cbn [foldr]; [done|].
  rewrite (HE a) by set_solver. rewrite IH by (intros; apply HE; set_solver). done.
Qed.

(** Changing the function at one element. *)
Lemma zsum_change {A} `{EqDecision A} (f g : A -> Z) a l :
  NoDup l -> a ∈ l -> (forall x, x <> a -> g x = f x) -> zsum g l = zsum f l + (g a - f a).
Proof.
  intros HN HA HE. destruct (proj1 (elem_of_Permutation l a) HA) as [l' HP]. rewrite !(zsum_perm _ _ _ HP).
  rewrite HP in HN. apply NoDup_cons in HN as [HX _]. unfold zsum. cbn [foldr]. fold (zsum g l') (zsum f l').
  rewrite (zsum_ext g f l'); [lia|]. intros x Hx. apply HE. by intros ->.
Qed.

Section Balances.
Context `{Blake3} (source : StateSource) (snapshots : gmap CommitmentDomainId DomainSnapshot).

(** Reading through a view of the journal. *)
Definition view_read (v : overlay) (d : CommitmentDomainId) (key : list byte)
  : result JournalError.t (option (list byte)) :=
  let? _ := validate_supported_domain d in
  let? snapshot := ok_or (snapshots !! d) (JournalError.UnconfiguredDomain d) in
  let? _ := validate_key key in
  match v d key with
  | Some (JPut bytes) => Ok (Some bytes)
  | Some JDelete => Ok None
  | None => map_err JournalError.State (read_value source snapshot key)
  end.

Lemma journal_read_view j d key :
  j_snapshots j = snapshots -> journal_read source j d key = view_read (jview j) d key.
Proof.
  intros HS. unfold journal_read, view_read, configured_snapshot, jview. rewrite HS.
  by destruct (validate_supported_domain d).
Qed.

Definition balance_read (v : overlay) (a : ExecutionAddress) : result CoordinatorError.t Z :=
  let? value := map_err (fun _ => CoordinatorError.AccountingInvariant) (view_read v ACCOUNTING_DOMAIN (balance_key a)) in
  match value with
  | Some bytes => map_err (fun _ => CoordinatorError.AccountingInvariant) (decode_accounting_u64 bytes)
  | None => Ok 0
  end.

(** The balance of an address, [0] where it cannot be read. *)
Definition balance (v : overlay) (a : ExecutionAddress) : Z :=
  match balance_read v a with Ok b => b | Err _ => 0 end.

Lemma read_balance_view j a : j_snapshots j = snapshots -> read_balance source j a = balance_read (jview j) a.
Proof. intros HS. unfold read_balance, balance_read. by rewrite (journal_read_view _ _ _ HS). Qed.

Lemma balance_ext v v' a : v' ACCOUNTING_DOMAIN (balance_key a) = v ACCOUNTING_DOMAIN (balance_key a) ->
  balance v' a = balance v a.
Proof. intros HE. unfold balance, balance_read, view_read. by rewrite HE. Qed.

Lemma decode_accounting_range bytes b : decode_accounting_u64 bytes = Ok b -> in_u64 b.
Proof.
  unfold decode_accounting_u64. destruct (Nat.eqb_spec (length bytes) 8) as [HL|]; [|done]. intros [= <-].
  pose proof (le_num_range bytes) as HB. rewrite HL in HB. unfold_ints. lia.
Qed.

Lemma decode_encode_accounting b : in_u64 b -> decode_accounting_u64 (encode_accounting_u64 b) = Ok b.
Proof.
  intros HB. unfold decode_accounting_u64, encode_accounting_u64. rewrite length_le_bytes. cbn [Nat.eqb negb].
  by rewrite le_num_le_bytes by (unfold_ints; lia).
Qed.

Lemma balance_read_range v a b : balance_read v a = Ok b -> in_u64 b.
Proof.
  unfold balance_read. destruct (view_read _ _ _) as [[bytes|]|]; [|by intros [= <-]|done]. cbn [map_err].
  destruct (decode_accounting_u64 bytes) as [x|] eqn:E; [|done]. intros [= <-]. by eapply decode_accounting_range.
Qed.

(** What [write_balance] stages. *)
Definition balance_value (b : Z) : option (list byte) := if b =? 0 then None else Some (encode_accounting_u64 b).

Lemma write_balance_spec j a b :
  journal_ok j -> j_snapshots j = snapshots ->
  match write_balance a b j with
  | (Ok _, j') => journal_ok j' /\ tail (j_frames j') = tail (j_frames j) /\ same_journal j j' /\
      overlay_eq (jview j') (overlay_set (jview j) ACCOUNTING_DOMAIN (balance_key a) (owned_value (balance_value b)))
  | (Err _, j') => j' = j
  end.
Proof.
  intros HJ HS. pose proof (stage_write_spec j ACCOUNTING_DOMAIN (balance_key a) (balance_value b) HJ) as HW.
  unfold write_balance, balance_value in *. destruct (b =? 0); unfold eff_map_err, put, delete_key;
    destruct (stage_write _ _ _ j) as [[u|e] j']; by cbn.
Qed.

Lemma balance_set v v' a b bal :
  balance_read v a = Ok bal -> in_u64 b ->
  overlay_eq v' (overlay_set v ACCOUNTING_DOMAIN (balance_key a) (owned_value (balance_value b))) ->
  balance_read v' a = Ok b /\ (forall x, x <> a -> balance_read v' x = balance_read v x).
Proof.
  intros HB Hb HV. split.
  - unfold balance_read, view_read in *. rewrite HV. unfold overlay_set at 1. rewrite bool_decide_true by done.
    destruct (validate_supported_domain _); [|done]. destruct (ok_or _ _); [|done]. destruct (validate_key _); [|done].
    unfold balance_value, owned_value. destruct (Z.eqb_spec b 0) as [->|]; [done|]. cbn [map_err].
    by rewrite decode_encode_accounting.
  - intros x Hx. unfold balance_read, view_read. rewrite HV. unfold overlay_set at 1.
    rewrite bool_decide_false; [done|]. intros [_ HE%(inj balance_key)]. done.
Qed.

(** *** Conservation *)

(** Value moves between finitely many addresses and none is made or lost. *)
Definition conserves (v v' : overlay) : Prop :=
  exists touched, (forall a, a ∉ touched -> balance v' a = balance v a) /\
    forall l, NoDup l -> touched ⊆ l -> zsum (balance v') l = zsum (balance v) l.

Lemma conserves_same v v' : (forall a, balance v' a = balance v a) -> conserves v v'.
Proof. intros HE. exists []. split; [done|]. intros l _ _. by apply zsum_ext. Qed.

Lemma conserves_trans a b c : conserves a b -> conserves b c -> conserves a c.
Proof.
  intros [l1 [H1 S1]] [l2 [H2 S2]]. exists (l1 ++ l2). split.
  - intros x Hx. rewrite H2, H1; [done|set_solver..].
  - intros l HN HL. rewrite S2, S1; [done| |..]; try done; set_solver.
Qed.

Lemma transfer_Ok caller target value j j' :
  journal_ok j -> j_snapshots j = snapshots -> in_u64 value ->
  transfer_attached_value source caller target value j = (Ok tt, j') ->
  conserves (jview j) (jview j') /\
  (forall d key, (forall a, d = ACCOUNTING_DOMAIN -> key <> balance_key a) -> jview j' d key = jview j d key).
Proof.
  intros HJ HS Hv. unfold transfer_attached_value, transfer_fatal.
  destruct (Z.eqb_spec value 0); [intros [= <-]; split; [by apply conserves_same|done]|].
  destruct (_ || _); [done|]. unfold eff_bind, eff_map_err, eff_read, eff_lift, eff_ret, eff_fail. rewrite (read_balance_view _ _ HS).
  destruct (balance_read (jview j) caller) as [b1|] eqn:E1; [|done]. cbn [map_err].
  destruct (Z.ltb_spec b1 value); [done|]. case_bool_decide as Hne; [intros [= <-]; split; [by apply conserves_same|done]|].
  rewrite (read_balance_view _ _ HS). destruct (balance_read (jview j) target) as [b2|] eqn:E2; [|done]. cbn [map_err].
  rewrite (proj2 (checked_sub_Some b1 value _)) by (split; [done|lia]). cbn [ok_or].
  destruct (checked_add U64_MAX b2 value) as [n2|] eqn:EA; [|done]. apply checked_add_Some in EA as [-> HA]. cbn [ok_or].
  pose proof (write_balance_spec j caller (b1 - value) HJ HS) as W1.
  destruct (write_balance caller (b1 - value) j) as [[u|e] j1]; [|done]. cbn [map_err].
  destruct W1 as (HJ1 & _ & (_ & HS1 & _) & HV1).
  pose proof (write_balance_spec j1 target (b2 + value) HJ1 ltac:(congruence)) as W2.
  destruct (write_balance target (b2 + value) j1) as [[u'|e] j2]; [|done]. cbn [map_err]. intros [= _ <-].
  destruct W2 as (_ & _ & _ & HV2).
  pose proof (balance_read_range _ _ _ E1) as R1. pose proof (balance_read_range _ _ _ E2) as R2.
  destruct (balance_set _ _ caller (b1 - value) b1 E1 ltac:(unfold_ints; lia) HV1) as [B1 O1].
  destruct (balance_set _ _ target (b2 + value) b2 ltac:(rewrite O1; [exact E2|congruence]) ltac:(unfold_ints; lia) HV2) as [B2 O2].
  split.
  - exists [caller; target]. split.
    + intros a Ha. unfold balance. rewrite O2, O1 by set_solver. done.
    + intros l HN HL. assert (HC : caller ∈ l) by (apply HL; left). assert (HT : target ∈ l) by (apply HL; right; left).
      rewrite (zsum_change (balance (jview j1)) (balance (jview j2)) target l HN HT),
        (zsum_change (balance (jview j)) (balance (jview j1)) caller l HN HC).
      * unfold balance. rewrite B1, B2, E1, O1 by congruence. rewrite E2. lia.
      * intros x Hx. unfold balance. by rewrite O1.
      * intros x Hx. unfold balance. by rewrite O2.
  - intros d key Hk. rewrite HV2. unfold overlay_set at 1. rewrite bool_decide_false by (intros [-> ->]; by eapply Hk).
    rewrite HV1. unfold overlay_set at 1. by rewrite bool_decide_false by (intros [-> ->]; by eapply Hk).
Qed.

End Balances.

(** ** What a contract can change *)

#[global] Instance JournalValue_eq_dec : EqDecision JournalValue.
Proof. solve_decision. Defined.

Lemma Ok_inj {E A} (a b : A) : (Ok a : result E A) = Ok b -> a = b.
Proof. congruence. Qed.

Section Confinement.
Context `{Blake3} (source : StateSource) (snapshots : gmap CommitmentDomainId DomainSnapshot).
Context (charges : HostChargeScheduleV1) (dispatch : RuntimeDispatchTableV1).

Lemma scoped_key_Ok a local key :
  scoped_wasm_storage_key a local = Ok key ->
  kind a = KindWasm /\ key = WASM_STORAGE_PREFIX_V1 ++ ExecutionAddress_to_bytes a ++ local /\
  Z.of_nat (length key) <= MAX_STATE_KEY_BYTES.
Proof.
  unfold scoped_wasm_storage_key. case_bool_decide as HK; [|done]. cbn [negb].
  destruct (checked_add _ _ EXECUTION_ADDRESS_BYTES) as [o|] eqn:E1; [|done]. cbn [ok_or].
  destruct (checked_add _ o _) as [t|] eqn:E2; [|done]. cbn [ok_or]. destruct (_ >? _) eqn:EL; [done|]. intros HE%Ok_inj. subst key.
  apply checked_add_Some in E1 as [-> _]. apply checked_add_Some in E2 as [-> _]. unfold EXECUTION_ADDRESS_BYTES in *.
  split_and!; try done. rewrite !length_app, length_to_bytes. lia.
Qed.

Lemma scoped_key_inj a b k1 k2 key :
  scoped_wasm_storage_key a k1 = Ok key -> scoped_wasm_storage_key b k2 = Ok key -> a = b /\ k1 = k2.
Proof.
  intros (_ & -> & _)%scoped_key_Ok (_ & HE & _)%scoped_key_Ok. apply app_inv_head in HE.
  apply app_inj_1 in HE as [HA HK]; [|by rewrite !length_to_bytes]. by apply to_bytes_inj in HA.
Qed.

Definition registered (a : ExecutionAddress) : Prop := is_Some (factory_for dispatch a).

(** Value is conserved; no other key of the accounting domain and no other
    domain is touched; storage changes only in the scope of registered
    contracts, and not at all in a read-only call. *)
Record contract_effect (read_only : bool) (v v' : overlay) : Prop := MkContractEffect {
  ce_value : conserves source snapshots v v';
  ce_other : forall d key, d <> DomWasm -> (forall a, d = ACCOUNTING_DOMAIN -> key <> balance_key a) -> v' d key = v d key;
  ce_storage : forall key, v' DomWasm key <> v DomWasm key ->
    exists a local, registered a /\ scoped_wasm_storage_key a local = Ok key;
  ce_read_only : read_only = true -> forall key, v' DomWasm key = v DomWasm key;
}.

Lemma contract_effect_same ro v v' : overlay_eq v v' -> contract_effect ro v v'.
Proof.
  intros HV. split; [|by intros; rewrite HV|by intros key []; rewrite HV|by intros; rewrite HV].
  apply conserves_same. intros a. apply balance_ext. by rewrite HV.
Qed.

Lemma contract_effect_trans ro a b c : contract_effect ro a b -> contract_effect ro b c -> contract_effect ro a c.
Proof.
  intros [A1 A2 A3 A4] [B1 B2 B3 B4]. split.
  - by eapply conserves_trans.
  - intros d key H1 H2. by rewrite B2, A2.
  - intros key HN. destruct (decide (b DomWasm key = a DomWasm key)) as [E|E]; [|by apply A3].
    apply B3. by rewrite E.
  - intros HR key. by rewrite B4, A4.
Qed.

Definition contract_context (read_only : bool) (c : RuntimeCallContextV1) : Prop :=
  registered (cx_target (cx_parts c)) /\ (read_only = true -> cx_read_only (cx_parts c) = true).

Hypothesis backends : forall target backend, factory_for dispatch target = Some backend -> backend_ok backend.

Lemma contract_policy ro : call_policy source dispatch snapshots (contract_context ro) (contract_effect ro).
Proof.
  split.
  - apply contract_effect_same.
  - apply contract_effect_trans.
  - intros c key scoped v value [HT HR] HF HK. split.
    + apply conserves_same. intros a. apply balance_ext. unfold overlay_set. by rewrite bool_decide_false by (by intros [? _]).
    + intros d key' Hd _. unfold overlay_set. by rewrite bool_decide_false by (by intros [? _]).
    + intros key' HN. unfold overlay_set in HN. case_bool_decide as HE; [|done]. destruct HE as [_ ->]. eauto.
    + intros ->. rewrite HR in HF by done. done.
  - intros c c' spec j j' [HT HR] (HV & _) HD HJ HS HX.
    destruct (transfer_Ok source snapshots _ _ _ _ _ HJ HS HV HX) as [HC HO]. split; [done| | |].
    + intros d key Hd Hk. by apply HO.
    + intros key HN. destruct HN. by apply HO.
    + intros _ key. by apply HO.
  - intros c c' spec backend [HT HR] HD HF. destruct (derive_child_Ok _ _ _ HD) as (_ & _ & E1 & _ & E2). split.
    + rewrite E1. by eexists.
    + intros HX. rewrite E2, HR by done. done.
  - exact backends.
Qed.

End Confinement.
