(* ===== verification/ProposalFacts.v ===== *)
(** Lemmas on the settlement and the proposal of a transaction: what each step
    of [execute_transaction_v1] does when it succeeds. *)
From S2P Require Import Prelude Encoding Layout Address Envelope FeeReceipt Fees Commitment Smt SmtWrite StateValues Receipts Journal Weight Runtime Effects Coordinator Proposal CoordinatorCalls CoordinatorFacts.

Section Facts.
Context `{Blake3} (source : StateSource) (snapshots : gmap CommitmentDomainId DomainSnapshot).
Abbreviation bread := (balance_read source snapshots).
Abbreviation bal := (balance source snapshots).

(** ** Accounting *)

Definition total_read (v : overlay) : result CoordinatorError.t Z :=
  let? value := map_err (fun _ => CoordinatorError.AccountingInvariant)
                  (view_read source snapshots v ACCOUNTING_DOMAIN total_execution_balance_key) in
  let? bytes := ok_or value CoordinatorError.AccountingInvariant in
  map_err (fun _ => CoordinatorError.AccountingInvariant) (decode_accounting_u64 bytes).

Lemma read_total_view j :
  j_snapshots j = snapshots -> read_total_execution_balance source j = total_read (jview j).
Proof. intros HS. unfold read_total_execution_balance, total_read. by rewrite (journal_read_view _ _ _ _ _ HS). Qed.

Lemma total_read_ext v v' :
  v' ACCOUNTING_DOMAIN total_execution_balance_key = v ACCOUNTING_DOMAIN total_execution_balance_key ->
  total_read v' = total_read v.
Proof. intros HE. unfold total_read, view_read. by rewrite HE. Qed.

Lemma total_read_range v t : total_read v = Ok t -> in_u64 t.
Proof.
  unfold total_read. destruct (view_read _ _ _ _ _) as [[bytes|]|]; [|done..]. cbn [map_err ok_or].
  destruct (decode_accounting_u64 bytes) as [x|] eqn:E; [|done]. intros [= <-]. by eapply decode_accounting_range.
Qed.

(** The balance of one address moves by [delta], and the keys outside [K] stay. *)
Record moves (K : list byte -> Prop) (a : ExecutionAddress) (delta : Z) (v v' : overlay) : Prop := MkMoves {
  mv_balance : exists b, bread v a = Ok b /\ bread v' a = Ok (b + delta);
  mv_others : forall x, x <> a -> bread v' x = bread v x;
  mv_keys : forall d key, (d = ACCOUNTING_DOMAIN -> ~ K key) -> v' d key = v d key;
}.

Lemma moves_sum K a delta v v' l :
  moves K a delta v v' -> NoDup l -> a ∈ l -> zsum (bal v') l = zsum (bal v) l + delta.
Proof.
  intros [(b & E1 & E2) HO _] HN HA. rewrite (zsum_change (bal v) (bal v') a) by (done || (intros x Hx; unfold balance; by rewrite HO)).
  unfold balance. rewrite E1, E2. lia.
Qed.

Lemma write_moves j a b b' j' :
  journal_ok j -> j_snapshots j = snapshots -> bread (jview j) a = Ok b -> in_u64 b' ->
  write_balance a b' j = (Ok tt, j') ->
  journal_ok j' /\ tail (j_frames j') = tail (j_frames j) /\ same_journal j j' /\
  moves (fun key => key = balance_key a) a (b' - b) (jview j) (jview j').
Proof.
  intros HJ HS HB Hb HW. pose proof (write_balance_spec snapshots j a b' HJ HS) as HX. rewrite HW in HX.
  destruct HX as (HJ' & HT & HSJ & HV). split_and!; try done.
  destruct (balance_set source snapshots _ _ a b' b HB Hb HV) as [B1 B2]. split; [|done|].
  - exists b. split; [done|]. rewrite B1. f_equal. lia.
  - intros d key HK. rewrite HV. unfold overlay_set. rewrite bool_decide_false; [done|]. intros [-> ->]. by apply HK.
Qed.

Lemma reserve_Ok j payer escrow j' :
  journal_ok j -> j_snapshots j = snapshots -> 0 <= escrow ->
  reserve_execution_funded_escrow source payer escrow j = (Ok tt, j') ->
  journal_ok j' /\ tail (j_frames j') = tail (j_frames j) /\ same_journal j j' /\
  moves (fun key => key = balance_key payer) payer (- escrow) (jview j) (jview j').
Proof.
  intros HJ HS He. unfold reserve_execution_funded_escrow, eff_bind, eff_read, eff_lift.
  rewrite (read_balance_view _ _ _ _ HS). destruct (bread (jview j) payer) as [b|] eqn:EB; [|done].
  destruct (checked_sub b escrow) as [n|] eqn:EC; [|done]. apply checked_sub_Some in EC as [-> HL]. cbn [ok_or].
  intros HW. pose proof (balance_read_range _ _ _ _ _ EB).
  destruct (write_moves j payer b (b - escrow) j' HJ HS EB ltac:(unfold_ints; lia) HW) as (? & ? & ? & HM).
  split_and!; try done. by replace (- escrow) with (b - escrow - b) by lia.
Qed.

Lemma total_key_not_balance a : total_execution_balance_key <> balance_key a.
Proof. intros HE. by destruct (fixed_keys_distinct a) as (HN & _). Qed.

Lemma apply_settlement_Ok j payer refund charged j' :
  journal_ok j -> j_snapshots j = snapshots -> 0 <= refund -> 0 <= charged ->
  apply_execution_funded_settlement source payer refund charged j = (Ok tt, j') ->
  journal_ok j' /\ tail (j_frames j') = tail (j_frames j) /\ same_journal j j' /\
  moves (fun key => key = balance_key payer \/ key = total_execution_balance_key) payer refund (jview j) (jview j') /\
  exists t, total_read (jview j) = Ok t /\ total_read (jview j') = Ok (t - charged).
Proof.
  intros HJ HS Hr Hc. unfold apply_execution_funded_settlement, eff_bind, eff_read, eff_lift.
  rewrite (read_balance_view _ _ _ _ HS). destruct (bread (jview j) payer) as [b|] eqn:EB; [|done].
  destruct (checked_add U64_MAX b refund) as [n|] eqn:EC; [|done]. apply checked_add_Some in EC as [-> HL]. cbn [ok_or].
  rewrite (read_total_view _ HS). destruct (total_read (jview j)) as [t|] eqn:ET; [|done].
  destruct (checked_sub t charged) as [m|] eqn:EM; [|done]. apply checked_sub_Some in EM as [-> HM]. cbn [ok_or].
  pose proof (balance_read_range _ _ _ _ _ EB) as RB. pose proof (total_read_range _ _ ET) as RT.
  destruct (write_balance payer (b + refund) j) as [[[]|e] j1] eqn:EW; [|done].
  destruct (write_moves j payer b (b + refund) j1 HJ HS EB ltac:(unfold_ints; lia) EW) as (HJ1 & HT1 & HS1 & [M1 M2 M3]).
  unfold write_total_execution_balance, eff_map_err, put.
  pose proof (stage_write_spec j1 ACCOUNTING_DOMAIN total_execution_balance_key (Some (encode_accounting_u64 (t - charged))) HJ1) as HW.
  destruct (stage_write _ _ _ j1) as [[u|e] j2]; [|done]. cbn [map_err]. intros [= _ <-].
  destruct HW as (HJ2 & HT2 & HS2 & HV2).
  assert (forall d key, (d = ACCOUNTING_DOMAIN -> key <> total_execution_balance_key) -> jview j2 d key = jview j1 d key) as HK.
  { intros d key Hk. rewrite HV2. unfold overlay_set. rewrite bool_decide_false; [done|]. intros [-> ->]. by apply Hk. }
  assert (forall x, bread (jview j2) x = bread (jview j1) x) as HB2.
  { intros x. unfold balance_read, view_read. rewrite HK; [done|]. intros _ HE. symmetry in HE. by apply total_key_not_balance in HE. }
  split_and!; [done|congruence|by eapply same_journal_trans| |].
  - split.
    + destruct M1 as (b0 & E1 & E2). exists b0. split; [done|]. rewrite HB2, E2. f_equal. assert (b0 = b) by congruence. lia.
    + intros x Hx. by rewrite HB2, M2.
    + intros d key Hk. rewrite HK, M3; [done|..]; intros Hd HE; by apply (Hk Hd); auto.
  - exists t. split; [done|]. unfold total_read, view_read in *. rewrite HV2. unfold overlay_set. rewrite bool_decide_true by done.
    destruct (validate_supported_domain _); [|done]. destruct (ok_or (snapshots !! _) _); [|done].
    destruct (validate_key _); [|done]. cbn [owned_value map_err ok_or]. by rewrite decode_encode_accounting by (unfold_ints; lia).
Qed.

(** ** Opening the escrow *)

Lemma open_bound_Ok validate request j book escrow j1 book1 :
  open_bound_validated_escrow source validate request (j, book) = (Ok escrow, (j1, book1)) ->
  jc_txid (j_context j) = fq_txid request /\
  (exists cap, validate request = Ok cap /\ cap_payer cap = fq_payer request /\ cap_source_kind cap = fq_source_kind request /\
     open_escrow (fq_txid request) cap (fq_fee_terms request) book = (Ok (ve_ticket escrow), book1)) /\
  ve_execution_domain escrow = fq_execution_domain request /\
  match fq_source_kind request with
  | ExecutionBalance => reserve_execution_funded_escrow source (fq_payer request) (max_escrow (fq_fee_terms request)) j = (Ok tt, j1)
  | NativeUtxo => j1 = j
  end.
Proof.
  unfold open_bound_validated_escrow. destruct (negb _ || _ || _) eqn:EC; [done|].
  rewrite !orb_false_iff, !negb_false_iff in EC. destruct EC as [_ HT%bool_decide_eq_true].
  destruct (validate request) as [cap|]; [|done]. destruct (negb _ || _ || _ || _ || _) eqn:EM; [done|].
  rewrite !orb_false_iff, !negb_false_iff, !bool_decide_eq_true in EM. destruct EM as ((((HK & HP) & _) & _) & _).
  destruct (_ <? _); [done|]. destruct (open_escrow _ _ _ book) as [[ticket|] book'] eqn:EO; [|done].
  destruct (fq_source_kind request).
  - intros [= <- <- <-]. split_and!; try done. exists cap. split_and!; try done.
  - destruct (reserve_execution_funded_escrow _ _ _ j) as [[[]|] j'] eqn:ER; [|done]. intros [= <- <- <-].
    split_and!; try done. exists cap. split_and!; try done.
Qed.

(** ** Running the top-level call *)

(** The state of the top-level call: a root frame and the frame of the call. *)
Record top_level (s : CoordState) : Prop := MkTopLevel {
  tl_ok : coord_ok snapshots s;
  tl_frames : exists c p, j_frames (cs_journal s) = [c; p];
  tl_effects : exists ec ep, es_frames (cs_effects s) = [ec; ep] /\ ef_events ep = [];
}.

Lemma start_top_level j meter limits j2 effects root :
  journal_ok j -> j_snapshots j = snapshots -> j_frames j = [root] -> coordinator_limits_ok limits ->
  (exists base, meter_inv base meter) -> exhausted meter = false ->
  begin_frame j = (Ok tt, j2) -> es_begin (EffectStackV1_new limits) = (Ok tt, effects) ->
  top_level (MkCoordState j2 meter effects Running) /\ j_frames j2 = [JournalFrame_default; root] /\ same_journal j j2.
Proof.
  intros HJ HS EF HL HM HE HB HG. pose proof (begin_frame_spec j HJ) as HX. rewrite HB in HX.
  destruct HX as (HJ2 & EF2 & HS2 & _). rewrite EF in EF2.
  pose proof (es_begin_spec _ (effects_new_ok _ HL)) as HY. rewrite HG in HY. destruct HY as (HO & EE & _).
  cbn in EE. split_and!; try done. split; cbn.
  - destruct HS2 as (_ & HS2 & _). split; try done; cbn; [congruence|by rewrite EF2, EE|congruence].
  - by eexists _, _.
  - by eexists _, _.
Qed.

Lemma run_top_level_spec runtime ro s r s1 :
  (forall target backend, factory_for (tr_dispatch runtime) target = Some backend -> backend_ok backend) ->
  context_ok (top_level_context runtime) ->
  (ro = true -> cx_read_only (cx_parts (top_level_context runtime)) = true) ->
  top_level s -> run_top_level source runtime s = (r, s1) ->
  top_level s1 /\ tail (j_frames (cs_journal s1)) = tail (j_frames (cs_journal s)) /\
  same_journal (cs_journal s) (cs_journal s1) /\ meter_after (cs_meter s) (cs_meter s1) /\
  contract_effect source snapshots (tr_dispatch runtime) ro (jview (cs_journal s)) (jview (cs_journal s1)).
Proof.
  intros HB HC HRO HT0 HR. pose proof HT0 as [HO HF (ec & ep & EE & HP)]. unfold run_top_level in HR.
  destruct (factory_for _ _) as [backend|] eqn:EB.
  2: { injection HR as <- <-. split_and!; try done; by apply contract_effect_same. }
  pose proof (run_backend_steps source (tr_charges runtime) (tr_dispatch runtime) snapshots
    (contract_context (tr_dispatch runtime) ro) (contract_effect source snapshots (tr_dispatch runtime) ro)
    (contract_policy source snapshots (tr_dispatch runtime) HB ro) CALL_LEVELS (top_level_context runtime) backend) as HX.
  destruct (HX ltac:(split; [by eexists|done]) HC (HB _ _ EB) s HO) as [HO1 [S1 S2 S3 S4 S5 S6 S7 S8 S9]].
  destruct (run_backend _ _ _ _ _ _ s) as [x s']. cbn [snd] in *. destruct HF as (c & p & EF).
  assert (top_level s') as HT.
  { split; [done| |].
    - rewrite EF in S1. pose proof (ok_frames _ (co_journal _ _ HO1)). destruct (j_frames (cs_journal s')) as [|f fs]; [done|].
      cbn in S1. subst fs. by eexists _, _.
    - rewrite EE in S2. pose proof (eo_frames _ (co_effects _ _ HO1)). destruct (es_frames (cs_effects s')) as [|f fs]; [done|].
      cbn in S2. subst fs. by eexists _, _. }
  destruct x as [x|e]; injection HR as <- <-; [done|]. split_and!; try done. destruct HT as [T1 T2 T3]. split; try done.
  by apply coord_ok_terminal.
Qed.

Lemma retain_top_level_spec r s r' d s' :
  top_level s -> retain_top_level r s = (r', d, s') ->
  top_level s' /\ cs_journal s' = cs_journal s /\ cs_meter s' = cs_meter s /\ cs_terminal s' = cs_terminal s /\
  (length d <= Z.to_nat MAX_RUNTIME_RETURN_DATA_BYTES)%nat.
Proof.
  intros HT. pose proof HT as [HO HF (ec & ep & EE & HP)]. unfold retain_top_level.
  set (r0 := if is_ok (call_validate r) then r else _). set (d0 := if bool_decide _ then default [] (call_return_data r0) else []).
  assert (Z.of_nat (length d0) <= MAX_RUNTIME_RETURN_DATA_BYTES) as HL.
  { unfold d0, r0. case_bool_decide; [|done]. destruct (call_validate r) eqn:EV; [|done]. cbn [is_ok].
    destruct r as [x|x|c]; cbn in *; try done; destruct (_ >? _) eqn:E; try done; lia. }
  destruct (Nat.eqb_spec (length d0) 0) as [E0|E0]; [intros [= <- <- <-]; split_and!; try done; lia|].
  unfold on_effects. pose proof (retain_return_bytes_spec _ (Z.of_nat (length d0)) _ _ (co_effects _ _ HO) EE) as HR.
  unfold MAX_RUNTIME_RETURN_DATA_BYTES in *. specialize (HR ltac:(lia)).
  destruct (retain_return_bytes _ _) as [[u|e] es]; intros [= <- <- <-].
  - destruct HR as (HE & HLm & _ & EE'). split_and!; try done; [|lia]. destruct HO as [G1 G2 G3 G4 G5 G6].
    split; [|done|]; cbn; [|by rewrite EE'; eexists _, _]. split; try done; cbn. by rewrite G5, EE, EE'.
  - destruct HR as [-> _]. split_and!; try done; [by destruct s|cbn; lia].
Qed.

(** ** Settlement *)

Lemma finish_top_level_spec commit s s1 :
  top_level s -> finish_top_level_frames commit s = (Ok tt, s1) ->
  exists c p f, j_frames (cs_journal s) = [c; p] /\ j_frames (cs_journal s1) = [f] /\ journal_ok (cs_journal s1) /\
    same_journal (cs_journal s) (cs_journal s1) /\
    (if commit then overlay_eq (jview (cs_journal s1)) (jview (cs_journal s)) else f = p) /\
    (commit = false -> root_events (cs_effects s1) = []).
Proof.
  intros [HO (c & p & EF) (ec & ep & EE & HP)] HFI. unfold finish_top_level_frames, on_journal, on_effects in HFI.
  destruct commit.
  - destruct (commit_frame_spec _ _ _ _ (co_journal _ _ HO) EF) as (j' & f & E1 & HJ & EJ & HS & HV).
    rewrite E1 in HFI. cbn [set_journal cs_effects] in HFI.
    destruct (es_commit_spec _ _ _ _ (co_effects _ _ HO) EE) as (es & E2 & HE & HL & HB & EE'). rewrite E2 in HFI.
    cbn in HFI. injection HFI as <-. exists c, p, f. split_and!; try done.
  - destruct (revert_frame_spec _ _ _ _ (co_journal _ _ HO) EF) as (j' & E1 & HJ & EJ & HS).
    rewrite E1 in HFI. cbn [set_journal cs_effects] in HFI.
    destruct (es_revert_spec _ _ _ _ (co_effects _ _ HO) EE) as (es & E2 & HE & HL & HB & EE'). rewrite E2 in HFI.
    cbn in HFI. injection HFI as <-. exists c, p, p. split_and!; try done. intros _. unfold root_events. cbn. by rewrite EE'.
Qed.

Lemma settle_inner_Ok auth r s book st s3 book3 :
  settle_top_level_execution_inner source auth r (s, book) = (Ok st, (s3, book3)) ->
  exists commit fee_outcome weight s0 s1 sr,
    cs_journal s0 = cs_journal s /\ cs_effects s0 = cs_effects s /\ cs_meter s0 = cs_meter s /\
    (cs_terminal s0 = Running -> exhausted (cs_meter s) = false) /\
    finish_top_level_frames commit s0 = (Ok tt, s1) /\
    settle (escrow_id (sa_ticket auth)) fee_outcome weight book = (Ok sr, book3) /\
    st_fee_receipt st = receipt sr /\ st_validated_execution_domain st = sa_validated_execution_domain auth /\
    (commit = true <-> st_outcome st = OutcomeCommitted) /\
    fee_outcome = expected_fee_outcome (receipt_outcome (st_outcome st)).1 /\
    (weight = meter_consumed (cs_meter s) \/ weight = meter_max (cs_meter s) /\ st_outcome st = OutcomeExhausted) /\
    (if bool_decide (ticket_source_kind (sa_ticket auth) = ExecutionBalance)
     then exists j3, apply_execution_funded_settlement source (ticket_payer (sa_ticket auth))
            (fr_refund (fr_parts (receipt sr))) (fr_charged (fr_parts (receipt sr))) (cs_journal s1) = (Ok tt, j3)
            /\ s3 = set_journal s1 j3
     else s3 = s1).
Proof.
  unfold settle_top_level_execution_inner. case_bool_decide; [by destruct (finish_top_level_frames false s)|].
  set (ex := bool_decide _ || _).
  destruct (if ex then _ else settlement_outcome _ _) as [[[outcome fee_outcome] commit] weight] eqn:EO.
  set (s0 := if ex then _ else s). destruct (finish_top_level_frames commit s0) as [[[]|e] s1] eqn:EF; [|done].
  destruct (settle _ fee_outcome weight book) as [[sr|e] book'] eqn:ES; [|done].
  assert ((commit = true <-> outcome = OutcomeCommitted) /\ fee_outcome = expected_fee_outcome (receipt_outcome outcome).1 /\
    (weight = meter_consumed (cs_meter s) \/ weight = meter_max (cs_meter s) /\ outcome = OutcomeExhausted)) as (A1 & A2 & A3).
  { destruct ex; [injection EO as <- <- <- <-; split_and!; auto; done|].
    unfold settlement_outcome in EO. destruct r; injection EO as <- <- <- <-; split_and!; auto; done. }
  assert (cs_journal s0 = cs_journal s /\ cs_effects s0 = cs_effects s /\ cs_meter s0 = cs_meter s /\
    (cs_terminal s0 = Running -> exhausted (cs_meter s) = false)) as (B1 & B2 & B3 & B4).
  { unfold s0. destruct ex eqn:EX; split_and!; try done. intros _. unfold ex in EX. by apply orb_false_iff in EX as [_ ?]. }
  intros HR. exists commit, fee_outcome, weight, s0, s1, sr.
  destruct (bool_decide (ticket_source_kind _ = _)).
  - unfold on_journal in HR. destruct (apply_execution_funded_settlement _ _ _ _ _) as [[[]|e] j3] eqn:EA; [|done].
    injection HR as <- <- <-. split_and!; try done. by exists j3.
  - injection HR as <- <- <-. by split_and!.
Qed.

(** ** The whole transaction *)

Lemma execute_Ok j receipt_source receipt_snapshot validate request runtime book p book' :
  execute_transaction_v1 source j receipt_source receipt_snapshot validate request runtime book = (Ok p, book') ->
  exists escrow j1 book1 j2 effects r1 s1 r2 d s2 st s3 phase_a,
    open_bound_validated_escrow source validate request (j, book) = (Ok escrow, (j1, book1)) /\
    begin_frame j1 = (Ok tt, j2) /\ es_begin (EffectStackV1_new (tr_limits runtime)) = (Ok tt, effects) /\
    run_top_level source runtime (MkCoordState j2 (tr_meter runtime) effects Running) = (r1, s1) /\
    retain_top_level r1 s1 = (r2, d, s2) /\
    settle_bound_top_level_execution source escrow r2 (s2, book1) = (Ok st, (s3, book')) /\
    finalize source (cs_journal s3) IntentCommitted = Ok phase_a /\
    compose_transaction_execution_proposal phase_a receipt_source receipt_snapshot st (fq_execution_domain request)
      (root_events (cs_effects s3)) d = Ok p.
Proof.
  unfold execute_transaction_v1. destruct (validate_top_level_context _ _ _); [|done].
  destruct (open_bound_validated_escrow _ _ _ _) as [[escrow|] [j1 book1]]; [|done].
  destruct (begin_frame j1) as [[[]|] j2] eqn:E1; [|done]. destruct (es_begin _) as [[[]|] effects] eqn:E2; [|done].
  destruct (run_top_level _ _ _) as [r1 s1] eqn:E3. destruct (retain_top_level r1 s1) as [[r2 d] s2] eqn:E4.
  destruct (settle_bound_top_level_execution _ _ _ _) as [[st|] [s3 book3]] eqn:E5; [|done].
  destruct (finalize _ _ _) as [phase_a|] eqn:E6; [|done].
  destruct (compose_transaction_execution_proposal _ _ _ _ _ _ _) as [p'|] eqn:E7; [|done]. intros [= <- <-].
  by exists escrow, j1, book1, j2, effects, r1, s1, r2, d, s2, st, s3, phase_a.
Qed.

Lemma compose_Ok phase_a receipt_source receipt_snapshot st domain events d p :
  compose_transaction_execution_proposal phase_a receipt_source receipt_snapshot st domain events d = Ok p ->
  pp_phase_a p = phase_a /\ pp_fee_receipt p = st_fee_receipt st /\
  pp_execution_fee_total_delta p
  = (match fr_source_kind (fr_parts (st_fee_receipt st)) with
     | ExecutionBalance => fr_charged (fr_parts (st_fee_receipt st)) | NativeUtxo => 0 end) /\
  stage_receipts receipt_source receipt_snapshot (res_context phase_a) (pp_fee_receipt p) (pp_execution_receipt p)
  = Ok (pp_phase_b p) /\
  (exists descriptors effect_root event_root,
     build_phase_a_descriptors phase_a = Ok descriptors /\ compute_state_effect_root descriptors = Ok effect_root /\
     events_root events = Ok event_root /\
     let fee := fr_parts (st_fee_receipt st) in
     rx_parts (pp_execution_receipt p) =
       MkReceiptParts (jc_txid (res_context phase_a)) domain (receipt_outcome (st_outcome st)).1
         (receipt_outcome (st_outcome st)).2 (fr_payer fee) (fr_actual_weight fee) (fr_charged fee)
         (fee_receipt_id (st_fee_receipt st)) effect_root event_root (Z.of_nat (length events)) (return_data_hash d)
         (Z.of_nat (length d)) empty_outbox_effect_root 0).
Proof.
  unfold compose_transaction_execution_proposal. destruct (negb _); [done|]. 
  match goal with |- context [if ?b then Err CoordinatorError.ExecutionDomainMismatch else _] => destruct b; [done|] end.
  destruct (build_phase_a_descriptors phase_a) as [ds|] eqn:E1; [|done].
  destruct (compute_state_effect_root ds) as [er|] eqn:E2; [|done]. cbn [map_err].
  destruct (events_root events) as [ev|] eqn:E3; [|done]. cbn [map_err].
  destruct (try_from U32_MAX (Z.of_nat (length events))) as [n|] eqn:E4; [|done]. apply try_from_Some in E4 as [-> _]. cbn [ok_or].
  destruct (try_from U32_MAX (Z.of_nat (length d))) as [m|] eqn:E5; [|done]. apply try_from_Some in E5 as [-> _]. cbn [ok_or].
  destruct (receipt_outcome (st_outcome st)) as [o t]. destruct (ExecutionReceiptV1_new _ _) as [rx|] eqn:E6; [|done]. cbn [map_err].
  destruct (stage_receipts _ _ _ _ _) as [pb|] eqn:E7; [|done]. intros [= <-]. split_and!; try done.
  exists ds, er, ev. split_and!; try done. unfold ExecutionReceiptV1_new in E6.
  destruct (validate_structural _); [|done]. destruct (negb _ || _ || _ || _ || _ || _); [done|]. by injection E6 as <-.
Qed.

Lemma settlement_source id ticket o w r :
  settlement_receipt id ticket o w = Ok r -> fr_source_kind (fr_parts r) = ticket_source_kind ticket.
Proof.
  unfold settlement_receipt, FeeSettlementReceiptV1_new. repeat (destruct (ok_or _ _); [|done]).
  destruct (validate_arithmetic _); [|done]. by intros [= <-].
Qed.

Record transaction_inputs (j : ExecutionJournalV1) (request : FundingValidationRequestV1) (runtime : TransactionRuntimeV1)
  : Prop := MkTransactionInputs {
  ti_journal : journal_ok j;
  ti_snapshots : j_snapshots j = snapshots;
  ti_root : exists root, j_frames j = [root];
  ti_limits : coordinator_limits_ok (tr_limits runtime);
  ti_meter : exists base, meter_inv base (tr_meter runtime);
  ti_fresh : exhausted (tr_meter runtime) = false;
  ti_context : context_ok (top_level_context runtime);
  ti_backends : forall target backend, factory_for (tr_dispatch runtime) target = Some backend -> backend_ok backend;
  ti_terms : terms_ok (fq_fee_terms request);
}.

(** The journal after the escrow is opened. *)
Lemma opened_journal j request runtime j1 :
  transaction_inputs j request runtime ->
  match fq_source_kind request with
  | ExecutionBalance => reserve_execution_funded_escrow source (fq_payer request) (max_escrow (fq_fee_terms request)) j = (Ok tt, j1)
  | NativeUtxo => j1 = j
  end ->
  journal_ok j1 /\ j_snapshots j1 = snapshots /\ same_journal j j1 /\ (exists root, j_frames j1 = [root]) /\
  match fq_source_kind request with
  | ExecutionBalance => moves (fun key => key = balance_key (fq_payer request)) (fq_payer request)
      (- max_escrow (fq_fee_terms request)) (jview j) (jview j1)
  | NativeUtxo => j1 = j
  end.
Proof.
  intros [T1 T2 [root T3] _ _ _ _ _ T9] HR. destruct (fq_source_kind request); [subst j1; split_and!; try done; by exists root|].
  destruct T9 as (? & ? & ? & ? & ? & _).
  destruct (reserve_Ok j (fq_payer request) (max_escrow (fq_fee_terms request)) j1 T1 T2 ltac:(nia) HR)
    as (HJ & HT & HSJ & HM). pose proof HSJ as (_ & HS & _).
  split_and!; [done|congruence|done| |done]. rewrite T3 in HT. pose proof (ok_frames _ HJ).
  destruct (j_frames j1) as [|f fs]; [done|]. cbn in HT. subst fs. eauto.
Qed.

(** The fee and the book. *)
Lemma transaction_fee j receipt_source receipt_snapshot validate request runtime book p book' :
  transaction_inputs j request runtime ->
  execute_transaction_v1 source j receipt_source receipt_snapshot validate request runtime book = (Ok p, book') ->
  exists cap ticket weight, let fee := fr_parts (pp_fee_receipt p) in
    validate request = Ok cap /\ ticket = EscrowTicketV1_new (fq_txid request) cap (fq_fee_terms request) /\
    fr_payer fee = fq_payer request /\ fr_txid fee = fq_txid request /\ fr_source_kind fee = fq_source_kind request /\
    fr_escrow_id fee = escrow_id ticket /\ settlement_exact fee /\ fee_inputs_ok fee /\
    fr_charged fee + fr_refund fee = max_escrow (fq_fee_terms request) /\ fr_actual_weight fee = weight /\
    0 < weight <= meter_max (tr_meter runtime) /\ meter_consumed (tr_meter runtime) <= weight /\
    (capability_id cap ∉ consumed_capabilities book) /\ (source_id cap ∉ consumed_sources book) /\
    (escrow_id ticket ∉ settled book) /\
    book' = MkEscrowBookV1 (max_open book) (open_escrows book) ({[capability_id cap]} ∪ consumed_capabilities book)
              ({[source_id cap]} ∪ consumed_sources book) ({[escrow_id ticket]} ∪ settled book).
Proof.
  intros HTI HE. pose proof HTI as [T1 T2 _ T4 T5 T6 T7 T8 T9].
  apply execute_Ok in HE as (escrow & j1 & book1 & j2 & effects & r1 & s1 & r2 & d & s2 & st & s3 & pa & E1 & E2 & E3 & E4 & E5 & E6 & E7 & E8).
  destruct (compose_Ok _ _ _ _ _ _ _ _ E8) as (_ & EF & _ & _ & _).
  apply open_bound_Ok in E1 as (HT & (cap & HC & HP & HK & HO) & _ & HRS).
  apply open_escrow_Ok in HO as (HTk & _ & N1 & N2 & N3 & N4 & _ & _ & _ & HB1).
  apply settle_inner_Ok in E6 as (commit & fo & w & s0 & s1' & sr & A1 & A2 & A3 & _ & A4 & A5 & A6 & _ & _ & _ & A7 & _).
  cbn [SettlementAuthorityV1_validated sa_ticket] in A5. apply settle_Ok in A5 as (_ & _ & (ticket' & L1 & W1 & W2 & L2) & HB').
  subst book1. cbn [open_escrows] in L1. rewrite lookup_insert_eq in L1. injection L1 as <-.
  assert (0 < w <= meter_max (tr_meter runtime) /\ meter_consumed (tr_meter runtime) <= w) as [HW HW'].
  { destruct (opened_journal _ _ _ _ HTI HRS) as (J1 & J2 & _ & (root' & J3) & _).
    destruct (start_top_level _ _ _ _ _ _ J1 J2 J3 T4 T5 T6 E2 E3) as (HTop & _).
    destruct (run_top_level_spec _ false _ _ _ T8 T7 ltac:(done) HTop E4) as (HTop1 & _ & _ & HMA & _).
    destruct (retain_top_level_spec _ _ _ _ _ HTop1 E5) as (_ & _ & HM2 & _).
    destruct (co_meter _ _ (tl_ok _ HTop1)) as (base & _ & _ & _ & _ & HR & _). cbn in HMA. destruct HMA as (HM & _ & HC' & _).
    rewrite HM2 in A7. pose proof W1. lia. }
  destruct (settlement_receipt_total (escrow_id (ve_ticket escrow)) (ve_ticket escrow) fo w) as (r & Er & R1 & R2 & R3 & R4 & R5 & R6 & R7 & R8).
  { rewrite HTk. cbn. done. }
  { rewrite HTk in W2 |- *. cbn in *. lia. }
  rewrite L2 in Er. injection Er as <-. pose proof (settlement_source _ _ _ _ _ L2) as HSK.
  exists cap, (ve_ticket escrow), w. rewrite EF, A6. rewrite HTk in R3, R4, R5, HSK. cbn in R3, R4, R5, HSK.
  split_and!; try done; try congruence; try lia. rewrite HB'. cbn. f_equal. by rewrite delete_insert_id.
Qed.

(** What the journal of phase A shows against the one the transaction got. *)
Record transaction_effect (j : ExecutionJournalV1) (request : FundingValidationRequestV1) (runtime : TransactionRuntimeV1)
    (p : TransactionExecutionProposalV1) (jf : ExecutionJournalV1) : Prop := MkTransactionEffect {
  te_final : finalize source jf IntentCommitted = Ok (pp_phase_a p);
  te_journal : journal_ok jf;
  te_same : same_journal j jf;
  te_value : exists touched, forall l, NoDup l -> touched ⊆ l ->
    zsum (bal (jview jf)) l = zsum (bal (jview j)) l - pp_execution_fee_total_delta p;
  te_total : match fq_source_kind request with
             | ExecutionBalance => exists t, total_read (jview j) = Ok t /\
                 total_read (jview jf) = Ok (t - pp_execution_fee_total_delta p)
             | NativeUtxo => total_read (jview jf) = total_read (jview j)
             end;
  te_domains : forall d key, d <> DomWasm -> d <> ACCOUNTING_DOMAIN -> jview jf d key = jview j d key;
  te_storage : forall key, jview jf DomWasm key <> jview j DomWasm key ->
    cx_read_only (cx_parts (top_level_context runtime)) = false /\
    exists a local, registered (tr_dispatch runtime) a /\ scoped_wasm_storage_key a local = Ok key;
  te_failed : rx_outcome (rx_parts (pp_execution_receipt p)) <> RxCommitted ->
    rx_event_count (rx_parts (pp_execution_receipt p)) = 0 /\
    forall d key, (d = ACCOUNTING_DOMAIN -> key <> balance_key (fq_payer request) /\ key <> total_execution_balance_key) ->
      jview jf d key = jview j d key;
}.

(** Before the settlement is paid: the escrow is out of the payer's balance
    and the effects of the call are in, or dropped. *)
Record unpaid (j : ExecutionJournalV1) (request : FundingValidationRequestV1) (runtime : TransactionRuntimeV1)
    (commit : bool) (v : overlay) : Prop := MkUnpaid {
  up_value : exists touched, forall l, NoDup l -> touched ⊆ l -> fq_payer request ∈ l ->
    zsum (bal v) l = zsum (bal (jview j)) l
      - match fq_source_kind request with ExecutionBalance => max_escrow (fq_fee_terms request) | NativeUtxo => 0 end;
  up_total : total_read v = total_read (jview j);
  up_domains : forall d key, d <> DomWasm -> d <> ACCOUNTING_DOMAIN -> v d key = jview j d key;
  up_storage : forall key, v DomWasm key <> jview j DomWasm key ->
    cx_read_only (cx_parts (top_level_context runtime)) = false /\
    exists a local, registered (tr_dispatch runtime) a /\ scoped_wasm_storage_key a local = Ok key;
  up_failed : commit = false ->
    forall d key, (d = ACCOUNTING_DOMAIN -> key <> balance_key (fq_payer request)) -> v d key = jview j d key;
}.

(** The view after the escrow, as an unpaid one with nothing executed. *)
Lemma unpaid_opened j request runtime j1 :
  match fq_source_kind request with
  | ExecutionBalance => moves (fun key => key = balance_key (fq_payer request)) (fq_payer request)
      (- max_escrow (fq_fee_terms request)) (jview j) (jview j1)
  | NativeUtxo => j1 = j
  end -> unpaid j request runtime false (jview j1).
Proof.
  intros HM. assert (forall d key, (d = ACCOUNTING_DOMAIN -> key <> balance_key (fq_payer request)) ->
    jview j1 d key = jview j d key) as HK.
  { intros d key HK. destruct (fq_source_kind request); [by subst j1|]. by apply (mv_keys _ _ _ _ _ HM). }
  split; try done.
  - exists []. intros l HN _ HP. destruct (fq_source_kind request); [subst j1; lia|]. rewrite (moves_sum _ _ _ _ _ _ HM); [lia|done..].
  - apply total_read_ext, HK. intros _. apply total_key_not_balance.
  - intros d key H1 H2. by apply HK.
  - intros key HX. destruct HX. by apply HK.
Qed.

Lemma unpaid_effect j request runtime v1 v2 :
  unpaid j request runtime false v1 ->
  contract_effect source snapshots (tr_dispatch runtime) (cx_read_only (cx_parts (top_level_context runtime))) v1 v2 ->
  unpaid j request runtime true v2.
Proof.
  intros [[l1 U1] U2 U3 U4 _] [[l2 [C1 C2]] C3 C4 C5]. split; try done.
  - exists (l1 ++ l2). intros l HN HL HP. rewrite C2 by (done || set_solver). apply U1; [done|set_solver|done].
  - rewrite <- U2. apply total_read_ext, C3; [done|]. intros a _. apply total_key_not_balance.
  - intros d key H1 H2. rewrite C3 by (done || by intros ? ->). by apply U3.
  - intros key HX. destruct (decide (v2 DomWasm key = v1 DomWasm key)) as [E|E].
    + apply U4. by rewrite <- E.
    + split; [|by apply C4]. destruct (cx_read_only _); [|done]. by rewrite C5 in E.
Qed.

Lemma unpaid_ext j request runtime commit v v' :
  overlay_eq v' v -> unpaid j request runtime commit v -> unpaid j request runtime commit v'.
Proof.
  intros HV [[l U1] U2 U3 U4 U5]. assert (forall a, bal v' a = bal v a) as HB by (intros a; apply balance_ext; by rewrite HV).
  split.
  - exists l. intros l' HN HL HP. rewrite (zsum_ext _ (bal v)) by done. by apply U1.
  - rewrite <- U2. by apply total_read_ext.
  - intros d key H1 H2. rewrite HV. by apply U3.
  - intros key. rewrite HV. apply U4.
  - intros HC d key HK. rewrite HV. by apply U5.
Qed.

(** The accounting and storage effect of a transaction. *)
Lemma transaction_effect_Ok j receipt_source receipt_snapshot validate request runtime book p book' :
  transaction_inputs j request runtime ->
  execute_transaction_v1 source j receipt_source receipt_snapshot validate request runtime book = (Ok p, book') ->
  exists jf, transaction_effect j request runtime p jf.
Proof.
  intros HTI HE. pose proof (transaction_fee _ _ _ _ _ _ _ _ _ HTI HE) as (cap & ticket & w & _ & HTk & _ & _ & HSK & _ & HX & HFI & HCR & _).
  pose proof HTI as [T1 T2 _ T4 T5 T6 T7 T8 T9].
  apply execute_Ok in HE as (escrow & j1 & book1 & j2 & effects & r1 & s1 & r2 & d & s2 & st & s3 & pa & E1 & E2 & E3 & E4 & E5 & E6 & E7 & E8).
  destruct (compose_Ok _ _ _ _ _ _ _ _ E8) as (EPA & EF & ED & _ & (ds & er & ev & _ & _ & _ & ERX)).
  apply open_bound_Ok in E1 as (_ & (cap' & HC & HP & HK & HO) & _ & HRS).
  apply open_escrow_Ok in HO as (HTk' & _).
  destruct (opened_journal _ _ _ _ HTI HRS) as (J1 & J2 & JS & (root & J3) & JM).
  destruct (start_top_level _ _ _ _ _ _ J1 J2 J3 T4 T5 T6 E2 E3) as (HT0 & EF2 & HS2).
  destruct (run_top_level_spec _ _ _ _ _ T8 T7 ltac:(intros HR; exact HR) HT0 E4) as (HT1 & HTl & HS1 & _ & HCE).
  cbn [cs_journal] in HTl, HS1, HCE.
  destruct (retain_top_level_spec _ _ _ _ _ HT1 E5) as (HT2 & EJ2 & EM2 & ET2 & _).
  apply settle_inner_Ok in E6 as (commit & fo & w' & s0 & s1' & sr & A1 & A2 & A3 & AX & A4 & _ & A6 & _ & A8 & _ & _ & A9).
  cbn [SettlementAuthorityV1_validated sa_ticket] in A9.
  assert (top_level s0) as HT3.
  { destruct HT2 as [[G1 G2 G3 G4 G5 G6] G7 G8]. split; [|by rewrite A1|by rewrite A2].
    split; rewrite ?A1, ?A2, ?A3; try done. intros HXE HR. by rewrite AX in HXE. }
  destruct (finish_top_level_spec _ _ _ HT3 A4) as (c & p0 & f & F1 & F2 & F3 & F4 & F5 & F6).
  assert (unpaid j request runtime commit (jview (cs_journal s1'))) as HU.
  { pose proof (unpaid_opened j request runtime j1 JM) as HU1. destruct commit.
    - eapply unpaid_ext; [exact F5|]. rewrite A1, EJ2. eapply unpaid_effect; [|exact HCE].
      eapply unpaid_ext; [|exact HU1]. intros dd key. unfold jview. rewrite EF2, J3.
      cbn [lookup_frames jf_writes JournalFrame_default]. unfold lookup_write at 1. by rewrite lookup_empty.
    - subst f. rewrite A1, EJ2 in F1. rewrite F1, EF2 in HTl. cbn in HTl. injection HTl as ->.
      eapply unpaid_ext; [|exact HU1]. intros dd key. unfold jview. by rewrite F2, J3. }
  assert (same_journal j (cs_journal s1')) as HSJ.
  { eapply same_journal_trans; [exact JS|]. eapply same_journal_trans; [exact HS2|]. eapply same_journal_trans; [exact HS1|].
    rewrite <- EJ2, <- A1. exact F4. }
  rewrite EF, A6 in HSK, HFI, HCR, HX. rewrite A6 in ED. set (fee := fr_parts (receipt sr)) in *. rewrite HSK in ED.
  unfold fee_inputs_ok, fr_numbers in HFI. rewrite !Forall_cons in HFI. destruct HFI as (_ & _ & _ & _ & _ & _ & _ & _ & R1 & R2 & _).
  assert (rx_outcome (rx_parts (pp_execution_receipt p)) <> RxCommitted -> commit = false /\ rx_event_count (rx_parts (pp_execution_receipt p)) = 0) as HRX.
  { rewrite ERX. cbn. intros HN. destruct commit; [exfalso; apply HN; by rewrite (proj1 A8 eq_refl)|]. split; [done|].
    assert (cs_effects s3 = cs_effects s1') as -> by (destruct (bool_decide _); [destruct A9 as (j3 & _ & ->)|subst s3]; done).
    by rewrite F6. }
  destruct HU as [[lt U1] U2 U3 U4 U5]. exists (cs_journal s3).
  assert (ticket_payer (ve_ticket escrow) = fq_payer request /\ ticket_source_kind (ve_ticket escrow) = fq_source_kind request) as [EP EK]
    by (rewrite HTk'; by cbn).
  rewrite EP, EK in A9. destruct (fq_source_kind request) eqn:EQ.
  - rewrite bool_decide_false in A9 by done. subst s3. split; try done; rewrite ?ED.
    + by rewrite EPA.
    + exists (fq_payer request :: lt). intros l HN HL. apply U1; [done|set_solver|set_solver].
    + by rewrite EQ.
    + intros HN. destruct (HRX HN) as [-> HEC]. split; [done|]. intros dd key Hk. apply U5; [done|]. intros Hd. by apply Hk.
  - rewrite bool_decide_true in A9 by done. destruct A9 as (j3 & HA & ->). cbn [set_journal cs_journal].
    destruct (apply_settlement_Ok (cs_journal s1') (fq_payer request) (fr_refund fee) (fr_charged fee) j3 F3) as (P1 & P2 & P3 & P4 & (t & P5 & P6));
      [destruct HSJ as (_ & -> & _); done|unfold_ints; lia|unfold_ints; lia|done|].
    split; try done; rewrite ?ED.
    + by rewrite EPA.
    + by eapply same_journal_trans.
    + exists (fq_payer request :: lt). intros l HN HL. rewrite (moves_sum _ _ _ _ _ _ P4) by (done || set_solver).
      rewrite U1 by (done || set_solver). lia.
    + rewrite EQ. exists t. by rewrite <- U2.
    + intros dd key H1 H2. rewrite (mv_keys _ _ _ _ _ P4) by done. by apply U3.
    + intros key. rewrite (mv_keys _ _ _ _ _ P4) by done. apply U4.
    + intros HN. destruct (HRX HN) as [-> HEC]. split; [done|]. intros dd key Hk. rewrite (mv_keys _ _ _ _ _ P4).
      * apply U5; [done|]. intros Hd. by apply Hk.
      * intros Hd [->| ->]; by destruct (Hk Hd).
Qed.

End Facts.
