(* ===== verification/CallDepth.v ===== *)
(** The depth of calls as the effect stack counts it: the frame of the
    settlement is one of its levels, so that a contract at depth [d] runs on
    [d + 1] frames, and a chain of calls down to the configured depth does not
    run. *)
From S2P Require Import Prelude Encoding Layout Address Envelope FeeReceipt Fees Commitment Smt SmtWrite StateValues Receipts Journal Weight Runtime Effects Coordinator Proposal CoordinatorCalls CoordinatorFacts ProposalFacts.

Section Depth.
Context `{Blake3} (source : StateSource).

(** The policy that asks nothing, for theorems about frames only. *)
Lemma frame_policy snapshots dispatch :
  (forall t b, factory_for dispatch t = Some b -> backend_ok b) ->
  call_policy source dispatch snapshots (fun _ => True) (fun _ _ => True).
Proof. intros HB. by split. Qed.

(** The contract at an address first of all calls another one without value,
    which calls another one, [n] calls in all. *)
Inductive descends (dispatch : RuntimeDispatchTableV1) : ExecutionAddress -> nat -> Prop :=
| descends_end t backend : factory_for dispatch t = Some backend -> descends dispatch t 0
| descends_call t spec k n : factory_for dispatch t = Some (Call spec k) -> spec_value spec = 0 ->
    descends dispatch (spec_target spec) n -> descends dispatch t (S n).

Lemma descends_registered dispatch t n : descends dispatch t n -> exists b, factory_for dispatch t = Some b.
Proof. destruct 1; eauto. Qed.

Lemma derive_child_exists context spec :
  context_ok context -> spec_ok spec -> cx_depth (cx_parts context) < MAX_RUNTIME_CALL_DEPTH ->
  exists child, derive_child_context context spec = Ok child.
Proof.
  intros [HD _] (_ & _ & HK) HL. unfold derive_child_context, MAX_RUNTIME_CALL_DEPTH in *.
  rewrite (proj2 (checked_add_Some U16_MAX (cx_depth (cx_parts context)) 1 _)) by (split; [done|unfold_ints; lia]). cbn [ok_or].
  destruct (Z.gtb_spec (cx_depth (cx_parts context) + 1) 64); [lia|].
  destruct (kind (spec_target spec)) eqn:EK; try done; cbn [kind_domain ok_or];
    unfold from_trusted_parts, MAX_RUNTIME_CALL_DEPTH; cbn [cx_depth cx_execution_domain cx_target];
    rewrite EK; rewrite !(proj2 (Z.leb_le _ _)) by lia; cbn; by eexists.
Qed.

Section Chain.
Context (charges : HostChargeScheduleV1) (dispatch : RuntimeDispatchTableV1).
Context (snapshots : gmap CommitmentDomainId DomainSnapshot).
Context (HB : forall t b, factory_for dispatch t = Some b -> backend_ok b).

Abbreviation coord_ok := (coord_ok snapshots).
Abbreviation step := (call_step (fun _ _ => True)).

Lemma backend_steps levels c b : context_ok c -> backend_ok b -> steps step coord_ok (run_backend source levels charges dispatch c b).
Proof. intros HC Hb. by apply (run_backend_steps source charges dispatch snapshots _ _ (frame_policy snapshots dispatch HB)). Qed.

Lemma charge_cost_stops cost s e s' : charge_cost cost s = (Err e, s') -> cs_terminal s = Running -> cs_terminal s' <> Running.
Proof.
  unfold charge_cost, checked_host_cost, charge_common_weight, or_exhausted, ensure_running, abort_with, eff_bind.
  intros HE HR. destruct cost as [v|x]; cbn in HE; [|by injection HE as _ <-]. rewrite bool_decide_true in HE by done.
  destruct (on_meter _ s) as [[]]; [done|]. by injection HE as _ <-.
Qed.

Lemma step_frames s s' : coord_ok s -> coord_ok s' -> step s s' ->
  length (es_frames (cs_effects s')) = length (es_frames (cs_effects s)) /\ es_limits (cs_effects s') = es_limits (cs_effects s).
Proof.
  intros HO HO' HS. split; [|apply (st_limits _ _ _ HS)]. pose proof (st_effects_below _ _ _ HS) as HT.
  pose proof (eo_frames _ (co_effects _ _ HO)). pose proof (eo_frames _ (co_effects _ _ HO')).
  destruct (es_frames (cs_effects s)), (es_frames (cs_effects s')); try done. cbn in *. congruence.
Qed.

(** A call without value on which the next frame does not fit, or whose callee
    stops the execution, gives the signal to abort. *)
Lemma nested_stops run context spec s :
  context_ok context -> spec_ok spec -> spec_value spec = 0 -> cx_depth (cx_parts context) < MAX_RUNTIME_CALL_DEPTH ->
  (exists b, factory_for dispatch (spec_target spec) = Some b) -> coord_ok s -> cs_terminal s = Running ->
  (forall child b s1, derive_child_context context spec = Ok child -> factory_for dispatch (spec_target spec) = Some b -> coord_ok s1 ->
     length (es_frames (cs_effects s1)) = S (length (es_frames (cs_effects s))) -> es_limits (cs_effects s1) = es_limits (cs_effects s) ->
     Z.of_nat (length (es_frames (cs_effects s))) < max_call_depth (es_limits (cs_effects s)) ->
     cs_terminal (run child b s1).2 <> Running) ->
  is_ok (execute_nested_call source run dispatch context spec s).1 = false.
Proof.
  intros HC HSp HV HD [b Hb] HO HR Hrun. destruct (derive_child_exists _ _ HC HSp HD) as [child HCh].
  unfold execute_nested_call. rewrite bool_decide_true by done. cbn [negb]. rewrite HCh, Hb.
  pose proof (begin_child_spec snapshots s HO HR) as HBg. destruct (begin_child_frames s) as [[[]|e] s1]; [|done].
  destruct HBg as (HO1 & _ & EE & _ & HL & _ & _ & _ & HX).
  unfold on_journal, transfer_attached_value. rewrite HV. cbn [Z.eqb eff_ret].
  assert (set_journal s1 (cs_journal s1) = s1) as -> by (by destruct s1).
  specialize (Hrun child b s1 HCh Hb HO1 ltac:(by rewrite EE) HL HX). destruct (run child b s1) as [[r|e] s3]; cbn [snd] in Hrun.
  - rewrite bool_decide_false by done. cbn [negb]. unfold eff_bind. by destruct (rollback_child_frames s3) as [[]].
  - unfold rollback_fatal. by destruct (rollback_child_frames s3).
Qed.

(** A chain of calls down to the configured depth stops the execution. *)
Lemma chain_stops n : forall levels context backend s,
  MAX_RUNTIME_CALL_DEPTH - cx_depth (cx_parts context) < Z.of_nat levels -> context_ok context -> coord_ok s ->
  factory_for dispatch (cx_target (cx_parts context)) = Some backend ->
  descends dispatch (cx_target (cx_parts context)) (S n) ->
  Z.of_nat (length (es_frames (cs_effects s))) = cx_depth (cx_parts context) + 1 ->
  max_call_depth (es_limits (cs_effects s)) = cx_depth (cx_parts context) + Z.of_nat (S n) ->
  cs_terminal (run_backend source levels charges dispatch context backend s).2 <> Running.
Proof.
  induction n as [n IH] using lt_wf_ind. intros [|levels] context backend s HLv HC HO HF HD HL HM; [destruct HC as [? _]; lia|].
  assert (max_call_depth (es_limits (cs_effects s)) <= MAX_RUNTIME_CALL_DEPTH) as HM64 by apply (eo_limits _ (co_effects _ _ HO)).
  destruct (decide (cs_terminal s = Running)) as [HR|HR].
  2: { eapply terminal_after_stays; [exact HR|]. apply (st_terminal _ _ _ (proj2 (backend_steps (S levels) context backend HC (HB _ _ HF) s HO))). }
  inversion HD as [|? spec k ? HF' HV HD']; subst. rewrite HF in HF'. injection HF' as ->.
  pose proof (HB _ _ HF) as Hb. inversion Hb as [| | | | | |? ? HSp Hk| |]; subst. cbn [run_backend backend_execute].
  set (host := coordinator_host _ _ _). assert (host_steps host step coord_ok) as HH.
  { apply (coordinator_host_steps source charges dispatch snapshots _ _ (frame_policy snapshots dispatch HB)); [|done].
    intros c b _. apply backend_steps. }
  assert (coord_ok (host_call host spec s).2 /\ cs_terminal (host_call host spec s).2 <> Running) as [HO' HR'].
  { split; [by apply (hs_call _ _ _ HH spec HSp s HO)|]. cbn. unfold runtime_call, eff_bind. cbn [ch_charges ch_dispatch CoordinatorHostV1_new_active ch_context].
    pose proof (live_cost source dispatch snapshots _ _ (frame_policy snapshots dispatch HB)
      (nested_call_pre_cost charges (length (spec_input spec)))) as HLC.
    specialize (HLC ltac:(intros v; apply checked_cost_u64) s HO HR).
    destruct (charge_cost _ s) as [[u|e] s1] eqn:EC; [|by eapply charge_cost_stops]. destruct HLC as (HO1 & HS1 & HR1 & _).
    destruct (step_frames _ _ HO HO1 HS1) as [EL1 EL2]. unfold MAX_RUNTIME_CALL_DEPTH in *.
    pose proof (nested_stops (run_backend source levels charges dispatch) context spec s1 HC HSp HV ltac:(unfold MAX_RUNTIME_CALL_DEPTH; lia)
      (descends_registered _ _ _ HD') HO1 HR1) as HNS.
    pose proof (nested_result source dispatch snapshots _ _ (frame_policy snapshots dispatch HB) (run_backend source levels charges dispatch)
      (fun c b _ Hc Hb => backend_steps levels c b Hc Hb) context spec s1 I HSp HO1 HR1) as HN.
    destruct (execute_nested_call _ _ _ _ _ s1) as [x s2]. destruct HN as (_ & _ & HX & _).
    destruct x as [x|e]; [|apply HX]. discriminate HNS. intros child b s3 HCh Hb3 HO3 EL3 EM3 Hfit. rewrite EL2, EL1 in Hfit. rewrite EL1 in EL3.
    destruct (derive_child_Ok _ _ _ HCh) as (HCc & ED & ET & _). destruct n as [|n]; [lia|].
    apply (IH n); [lia|unfold MAX_RUNTIME_CALL_DEPTH; lia|done|done|by rewrite ET|by rewrite ET|lia|rewrite EM3, EL2; lia]. }
  destruct (host_call host spec s) as [a s']. cbn [snd] in *.
  pose proof (frame_policy snapshots dispatch HB) as HP.
  destruct (execute_steps host step (call_step_refl _ _ _ _ _ HP) (call_step_trans _ _ _ _ _ HP) coord_ok (k a) HH (Hk a) s' HO') as [_ HS].
  eapply terminal_after_stays; [exact HR'|]. apply (st_terminal _ _ _ HS).
Qed.

End Chain.

(** ** The transaction *)

(** A stopped execution that still settles is charged as exhausted. *)
Lemma settle_stopped auth r s book st s3 book3 :
  settle_top_level_execution_inner source auth r (s, book) = (Ok st, (s3, book3)) -> cs_terminal s <> Running ->
  st_outcome st = OutcomeExhausted /\
  exists sr, settle (escrow_id (sa_ticket auth)) ResourceExhausted (meter_max (cs_meter s)) book = (Ok sr, book3) /\
    st_fee_receipt st = receipt sr.
Proof.
  unfold settle_top_level_execution_inner. case_bool_decide as HF; [by destruct (finish_top_level_frames false s)|]. intros HE HR.
  assert (cs_terminal s = TerminalExhausted) as HT by (by destruct (cs_terminal s)). rewrite bool_decide_true in HE by done. cbn [orb] in HE.
  destruct (finish_top_level_frames _ _) as [[[]|] s1]; [|done]. destruct (settle _ _ _ book) as [[sr|] book']; [|done].
  destruct (bool_decide _); [destruct (on_journal _ s1) as [[[]|] s2]; [|done]|]; injection HE as <- <- <-; (split; [done|]); by exists sr.
Qed.

Lemma execute_depth j receipt_source receipt_snapshot validate request runtime book p book' :
  execute_transaction_v1 source j receipt_source receipt_snapshot validate request runtime book = (Ok p, book') ->
  cx_depth (cx_parts (top_level_context runtime)) = 1.
Proof.
  unfold execute_transaction_v1, validate_top_level_context. destruct (_ || _) eqn:E; [done|]. intros _.
  apply orb_false_iff in E as [_ E]. apply negb_false_iff, Z.eqb_eq in E. done.
Qed.

Lemma chain_transaction j receipt_source receipt_snapshot validate request runtime book p book' n :
  transaction_inputs (j_snapshots j) j request runtime ->
  max_call_depth (tr_limits runtime) = Z.of_nat (S (S n)) ->
  descends (tr_dispatch runtime) (cx_target (cx_parts (top_level_context runtime))) (S n) ->
  execute_transaction_v1 source j receipt_source receipt_snapshot validate request runtime book = (Ok p, book') ->
  rx_outcome (rx_parts (pp_execution_receipt p)) = RxResourceExhausted /\
  fr_outcome (fr_parts (pp_fee_receipt p)) = ResourceExhausted /\
  fr_actual_weight (fr_parts (pp_fee_receipt p)) = meter_max (tr_meter runtime).
Proof.
  intros HTI HM HD HE. pose proof (execute_depth _ _ _ _ _ _ _ _ _ HE) as H1. pose proof HTI as [T1 T2 _ T4 T5 T6 T7 T8 T9].
  apply execute_Ok in HE as (escrow & j1 & book1 & j2 & effects & r1 & s1 & r2 & d & s2 & st & s3 & pa & E1 & E2 & E3 & E4 & E5 & E6 & E7 & E8).
  apply open_bound_Ok in E1 as (_ & _ & _ & HRS).
  destruct (opened_journal _ _ _ _ _ _ HTI HRS) as (J1 & J2 & _ & (root' & J3) & _).
  destruct (start_top_level _ _ _ _ _ _ _ J1 J2 J3 T4 T5 T6 E2 E3) as (HTop & _).
  pose proof (es_begin_spec _ (effects_new_ok _ T4)) as HG. rewrite E3 in HG. destruct HG as (_ & EE & EL & _).
  destruct (run_top_level_spec source _ _ false _ _ _ T8 T7 ltac:(done) HTop E4) as (HTop1 & _ & _ & HMA & _).
  destruct (retain_top_level_spec _ _ _ _ _ _ HTop1 E5) as (_ & _ & HM2 & HT2 & _).
  assert (cs_terminal s1 <> Running) as HS1.
  { unfold run_top_level in E4. destruct (descends_registered _ _ _ HD) as [b Hb]. rewrite Hb in E4.
    pose proof (chain_stops (tr_charges runtime) (tr_dispatch runtime) (j_snapshots j) T8 n CALL_LEVELS (top_level_context runtime) b
      (MkCoordState j2 (tr_meter runtime) effects Running)) as HX.
    destruct (run_backend _ _ _ _ _ _ _) as [[x|x] s'] in E4, HX; injection E4 as _ <-; [|done]. apply HX; try done; cbn [cs_effects].
    - rewrite H1. done.
    - apply (tl_ok _ _ HTop).
    - rewrite EE, H1. done.
    - rewrite EL, H1. cbn [es_limits EffectStackV1_new]. lia. }
  rewrite <- HT2 in HS1. destruct (settle_stopped _ _ _ _ _ _ _ E6 HS1) as (HO & sr & HSe & HF).
  destruct (compose_Ok _ _ _ _ _ _ _ _ E8) as (_ & EF & _ & _ & (ds & er & ev & _ & _ & _ & ER)). cbn in ER.
  rewrite ER. cbn [rx_outcome]. rewrite HO, EF, HF. split; [done|].
  apply settle_Ok in HSe as (_ & _ & (t' & _ & _ & _ & L2) & _). rewrite HM2 in L2.
  unfold settlement_receipt, FeeSettlementReceiptV1_new in L2. repeat (destruct (ok_or _ _); [|done]).
  destruct (validate_arithmetic _); [|done]. injection L2 as <-. cbn. split; [done|].
  by destruct HMA as (-> & _).
Qed.

End Depth.
