(* ===== verification/CoordinatorProps.v ===== *)
(** The theorems on the execution coordinator. *)
From S2P Require Import Prelude Encoding Layout Address Envelope FeeReceipt Fees Commitment Smt SmtWrite StateValues Receipts Journal Weight Runtime Effects Coordinator Proposal CoordinatorCalls CoordinatorFacts ProposalFacts CallDepth.

Section Theorems.
Context `{Blake3} (source : StateSource).

(** The dispatch table holds the backends it was built from. *)
Lemma dispatch_backends entries d target backend :
  RuntimeDispatchTableV1_new entries = Ok d -> factory_for d target = Some backend -> (target, backend) ∈ entries.
Proof.
  unfold RuntimeDispatchTableV1_new, factory_for. destruct (try_fold _ _ _) as [m|] eqn:E; [|done]. intros [= <-]. cbn.
  assert (forall m0, try_fold add_factory entries m0 = Ok m -> m !! ExecutionAddress_to_bytes target = Some backend ->
    m0 !! ExecutionAddress_to_bytes target = Some backend \/ (target, backend) ∈ entries) as HX.
  { clear E. induction entries as [|[t b] l IH]; intros m0; cbn [try_fold]; [intros [= <-]; by left|].
    unfold add_factory at 1. cbn [fst snd]. destruct (negb _); [done|]. destruct (m0 !! _) eqn:EM; [done|].
    intros HT HM. destruct (IH _ HT HM) as [HL|HL]; [|right; by apply list_elem_of_further].
    apply lookup_insert_Some in HL as [[Ht <-]|[_ HL]]; [|by left]. apply to_bytes_inj in Ht as ->. right. apply list_elem_of_here. }
  intros HM. destruct (HX _ E HM) as [HL|]; [|done]. by rewrite lookup_empty in HL.
Qed.

Lemma finalize_context j intent r : finalize source j intent = Ok r -> res_context r = j_context j.
Proof. unfold finalize. intros HF. by repeat case_match; simplify_eq/=. Qed.

(** C5: contracts are confined.  Whatever the registered backends do, running
    one of them keeps the accounting of the journal, the effect stack and the
    meter exact, never touches a frame below its own, only adds to the weight
    consumed and to the events, and changes nothing once the execution has
    been stopped.  The only balances that change are moved between accounts,
    with no unit made or lost; no other accounting key and no other state
    domain changes; a storage key changes only inside the scope of a
    registered contract, and none in a read-only call. *)
Theorem contracts_confined charges entries dispatch context backend s r s' :
  RuntimeDispatchTableV1_new entries = Ok dispatch -> Forall (fun e => backend_ok e.2) entries ->
  context_ok context -> factory_for dispatch (cx_target (cx_parts context)) = Some backend ->
  coord_ok (j_snapshots (cs_journal s)) s ->
  run_backend source CALL_LEVELS charges dispatch context backend s = (r, s') ->
  coord_ok (j_snapshots (cs_journal s)) s' /\
  tail (j_frames (cs_journal s')) = tail (j_frames (cs_journal s)) /\
  tail (es_frames (cs_effects s')) = tail (es_frames (cs_effects s)) /\
  meter_consumed (cs_meter s) <= meter_consumed (cs_meter s') <= meter_max (cs_meter s) /\
  (exists more, top_events (cs_effects s') = top_events (cs_effects s) ++ more) /\
  (cs_terminal s <> Running -> cs_journal s' = cs_journal s /\ cs_effects s' = cs_effects s /\ cs_meter s' = cs_meter s) /\
  contract_effect source (j_snapshots (cs_journal s)) dispatch (cx_read_only (cx_parts context))
    (jview (cs_journal s)) (jview (cs_journal s')).
Proof.
  intros HD HF HC HB HO HR. assert (forall t b, factory_for dispatch t = Some b -> backend_ok b) as HBK.
  { intros t b HL. rewrite Forall_forall in HF. apply (HF (t, b)). by eapply dispatch_backends. }
  set (ro := cx_read_only (cx_parts context)).
  pose proof (run_backend_steps source charges dispatch (j_snapshots (cs_journal s)) (contract_context dispatch ro)
    (contract_effect source (j_snapshots (cs_journal s)) dispatch ro)
    (contract_policy source (j_snapshots (cs_journal s)) dispatch HBK ro) CALL_LEVELS context backend) as HX.
  destruct (HX ltac:(split; [by eexists|done]) HC (HBK _ _ HB) s HO) as [HO' [S1 S2 S3 S4 S5 S6 S7 S8 S9]].
  rewrite HR in *. cbn [snd] in *. destruct (co_meter _ _ HO') as (base & _ & _ & _ & _ & HM & _). destruct S5 as (E1 & _ & E2 & _).
  split_and!; try done; lia.
Qed.

Lemma finish_valid result s r s' : finish_nested_call result s = (Ok r, s') -> call_validate r = Ok tt.
Proof.
  unfold finish_nested_call, rollback_with, eff_bind, eff_ret. destruct (call_validate result) as [[]|] eqn:EV; cbn [is_ok negb].
  - intros HE. repeat case_match; simplify_eq/=; done.
  - intros HE. repeat case_match; simplify_eq/=; done.
Qed.

Lemma nested_valid run dispatch context spec s r s' :
  execute_nested_call source run dispatch context spec s = (Ok r, s') -> call_validate r = Ok tt.
Proof.
  unfold execute_nested_call, rollback_with, rollback_fatal, abort_with, eff_bind, eff_ret, eff_fail.
  destruct (negb _); [done|]. destruct (derive_child_context _ _); [|by intros [= <- <-]].
  destruct (factory_for _ _); [|by intros [= <- <-]]. destruct (begin_child_frames s) as [[[]|] s1]; [|done].
  destruct (on_journal _ s1) as [[[]|[code|]] s2]; [| |by destruct (rollback_child_frames s2)].
  2: { destruct (rollback_child_frames s2) as [[[]|] ?]; [by intros [= <- <-]|done]. }
  destruct (run _ _ s2) as [[x|] s3]; [|by destruct (rollback_child_frames s3)].
  destruct (negb _); [by destruct (rollback_child_frames s3) as [[]]|]. apply finish_valid.
Qed.

(** C10: the state of an execution stays well formed.  Whatever a contract
    asks of its host, and whether the request succeeds, traps or stops the
    execution, the state it leaves is well formed: the journal's and the
    effect stack's counters are the sums over their frames, all limits hold,
    both stacks have the same depth, the meter's books balance, and an
    exhausted meter means a stopped execution.  The result of a call that a
    contract is given is always valid: its return data is within 256 KiB. *)
Theorem host_state_typed charges dispatch context s :
  (forall t b, factory_for dispatch t = Some b -> backend_ok b) -> context_ok context ->
  coord_ok (j_snapshots (cs_journal s)) s ->
  let host := coordinator_host source (run_backend source CALL_LEVELS charges) (CoordinatorHostV1_new_active context charges dispatch) in
  let typed {A} (m : host_eff A) := coord_ok (j_snapshots (cs_journal s)) (m s).2 in
  (forall key, typed (host_state_get host key)) /\ (forall key v, typed (host_state_put host key v)) /\
  (forall key, typed (host_state_delete host key)) /\ (forall topics d, typed (host_emit_event host topics d)) /\
  (forall units, in_u64 units -> typed (host_charge_vm_units host units) /\ typed (host_charge_common host units)) /\
  (forall spec, spec_ok spec -> typed (host_call host spec) /\
     (forall r s', host_call host spec s = (Ok r, s') -> call_validate r = Ok tt)).
Proof.
  intros HB HC HO host typed. set (snaps := j_snapshots (cs_journal s)) in *.
  destruct (coordinator_host_steps source charges dispatch snaps _ _ (frame_policy source snaps dispatch HB) (run_backend source CALL_LEVELS charges) context)
    as [H1 H2 H3 H4 H5 H6 H7]; [|done|].
  { intros c b. by apply (run_backend_steps source charges dispatch snaps _ _ (frame_policy source snaps dispatch HB)). }
  fold host in H1, H2, H3, H4, H5, H6, H7. split_and!; unfold typed.
  - intros key. by apply H1.
  - intros key v. by apply H2.
  - intros key. by apply H3.
  - intros ts d. by apply H4.
  - intros units Hu. split; [by apply H6|by apply H7].
  - intros spec HS. split; [by apply H5|]. intros r s'. cbn. unfold runtime_call, eff_bind, eff_ret. cbn [ch_dispatch CoordinatorHostV1_new_active].
    destruct (charge_cost _ s) as [[[]|] s1]; [|done]. destruct (execute_nested_call _ _ _ _ _ s1) as [[x|] s2] eqn:EN; [|done].
    apply nested_valid in EN. destruct (call_return_data x); [|by intros [= <- <-]].
    destruct (charge_cost _ s2) as [[[]|] ?]; [|done]. by intros [= <- <-].
Qed.

(** The caller of a host can no longer do anything: every operation is refused
    and changes at most the flag that says how the execution ended. *)
Definition can_do_nothing (host : RuntimeHostV1 CoordState) (s : CoordState) : Prop :=
  let nothing {A} (m : host_eff A) := (m s).1 = Err RuntimeHostSignalV1.Abort /\
    ((m s).2 = s \/ (m s).2 = set_terminal s Fatal) in
  (forall key, nothing (host_state_get host key)) /\ (forall key v, nothing (host_state_put host key v)) /\
  (forall key, nothing (host_state_delete host key)) /\ (forall topics d, nothing (host_emit_event host topics d)) /\
  (forall units, nothing (host_charge_vm_units host units) /\ nothing (host_charge_common host units)) /\
  (forall spec, nothing (host_call host spec)).

Lemma stopped_does_nothing run context charges dispatch s :
  cs_terminal s <> Running ->
  can_do_nothing (coordinator_host source run (CoordinatorHostV1_new_active context charges dispatch)) s.
Proof.
  intros HR. assert (forall A (k : unit -> host_eff A), (let! x := ensure_running in k x) s = (Err RuntimeHostSignalV1.Abort, s)) as HN.
  { intros A k. unfold eff_bind, ensure_running. by rewrite bool_decide_false. }
  unfold can_do_nothing. cbn. split_and!.
  1-4: intros; unfold state_get, state_put, state_delete, emit_event; rewrite HN; split; [done|by left].
  - intros units. unfold charge_vm_weight, charge_common_weight. rewrite !HN. split; (split; [done|by left]).
  - intros spec. unfold runtime_call, charge_cost at 1 2 3, checked_host_cost, charge_common_weight, eff_bind, ensure_running.
    destruct (nested_call_pre_cost _ _) as [w|x]; cbn; [rewrite bool_decide_false by done; split; [done|by left]|split; [done|by right]].
Qed.


(** C33: calls end.  A call context is at most 64 deep, so a backend that runs
    at depth [d] has at most [64 - d] levels of calls below its own.  Running it
    with any allowance of more than [64 - d] levels gives the result of the
    allowance that transactions are run with, which is itself large enough at
    every depth: it is never used up. *)
Theorem call_levels_suffice charges dispatch context backend levels s :
  context_ok context -> MAX_RUNTIME_CALL_DEPTH - cx_depth (cx_parts context) < Z.of_nat levels ->
  MAX_RUNTIME_CALL_DEPTH - cx_depth (cx_parts context) < Z.of_nat CALL_LEVELS /\
  run_backend source levels charges dispatch context backend s
  = run_backend source CALL_LEVELS charges dispatch context backend s.
Proof.
  intros HC HL. pose proof HC as [HD _]. assert (Z.of_nat CALL_LEVELS = 64) as HE by done.
  unfold MAX_RUNTIME_CALL_DEPTH in *. split; [lia|]. apply run_backend_levels; [done|lia|lia].
Qed.

(** C4: a transaction conserves value.  The state that phase A of a proposal
    publishes differs from the state the transaction started from in this
    way only: over any list of accounts that covers the ones touched, the
    balances drop by exactly the fee that is later moved out of execution
    ([execution_fee_total_delta]); the recorded total drops by the same; a
    transaction funded from outside leaves the total alone; storage changes
    only within registered contracts; and when the outcome is a revert, a trap
    or exhaustion, nothing is different but the payer's balance and the total,
    and no event is in the receipt. *)
Theorem transaction_conserves_value j receipt_source receipt_snapshot validate request runtime book p book' :
  transaction_inputs (j_snapshots j) j request runtime ->
  execute_transaction_v1 source j receipt_source receipt_snapshot validate request runtime book = (Ok p, book') ->
  exists jf, transaction_effect source (j_snapshots j) j request runtime p jf.
Proof. intros HTI HE. by eapply transaction_effect_Ok. Qed.

(** C8: a transaction settles its fee once.  A failed transaction leaves the
    escrow book as it was.  A successful one used a capability and a funding
    source that had not been used, settled an escrow that had not been
    settled, and leaves no escrow open; the fee receipt's arithmetic is
    exact, charge and refund add up to the reserved maximum, the weight paid
    for is at least the intrinsic weight and at most the limit; and the
    execution receipt names the transaction, its domain, its payer and this
    fee receipt. *)
Theorem transaction_settles_once j receipt_source receipt_snapshot validate request runtime book r book' :
  transaction_inputs (j_snapshots j) j request runtime ->
  execute_transaction_v1 source j receipt_source receipt_snapshot validate request runtime book = (r, book') ->
  match r with
  | Err _ => book' = book
  | Ok p =>
      let fee := fr_parts (pp_fee_receipt p) in
      let rx := rx_parts (pp_execution_receipt p) in
      (exists cap, validate request = Ok cap /\
         (capability_id cap ∉ consumed_capabilities book) /\ (source_id cap ∉ consumed_sources book) /\
         capability_id cap ∈ consumed_capabilities book' /\ source_id cap ∈ consumed_sources book') /\
      (fr_escrow_id fee ∉ settled book) /\ fr_escrow_id fee ∈ settled book' /\ open_escrows book' = open_escrows book /\
      settlement_exact fee /\ fr_charged fee + fr_refund fee = max_escrow (fq_fee_terms request) /\
      meter_consumed (tr_meter runtime) <= fr_actual_weight fee <= meter_max (tr_meter runtime) /\
      pp_execution_fee_total_delta p
      = (match fq_source_kind request with ExecutionBalance => fr_charged fee | NativeUtxo => 0 end) /\
      rx_txid rx = fq_txid request /\ rx_execution_domain rx = fq_execution_domain request /\
      rx_fee_payer rx = fq_payer request /\ rx_actual_weight rx = fr_actual_weight fee /\ rx_fee_charged rx = fr_charged fee /\
      rx_fee_settlement_receipt_id rx = fee_receipt_id (pp_fee_receipt p) /\
      fr_outcome fee = expected_fee_outcome (rx_outcome rx)
  end.
Proof.
  intros HTI HE. destruct r as [p|e].
  - pose proof (transaction_fee _ _ _ _ _ _ _ _ _ _ _ HTI HE) as (cap & ticket & w & HV & HTk & F1 & F2 & F3 & F4 & F5 & F6 & F7 & F8 & F9 & F10 & B1 & B2 & B3 & ->).
    destruct (transaction_effect_Ok _ _ _ _ _ _ _ _ _ _ _ HTI HE) as (jf & HTE).
    apply execute_Ok in HE as (escrow & j1 & book1 & j2 & effects & r1 & s1 & r2 & d & s2 & st & s3 & pa & E1 & E2 & E3 & E4 & E5 & E6 & E7 & E8).
    apply open_bound_Ok in E1 as (HTX & _).
    destruct (compose_Ok _ _ _ _ _ _ _ _ E8) as (EPA & EF & ED & _ & (ds & er & ev & _ & _ & _ & ERX)).
    assert (jc_txid (res_context (pp_phase_a p)) = fq_txid request) as HTXR.
    { pose proof (te_final _ _ _ _ _ _ _ HTE) as HFI. rewrite <- HTX. destruct (te_same _ _ _ _ _ _ _ HTE) as (<- & _).
      by rewrite (finalize_context _ _ _ HFI). }
    rewrite ERX. cbn [rx_txid rx_execution_domain rx_fee_payer rx_actual_weight rx_fee_charged rx_fee_settlement_receipt_id rx_outcome].
    rewrite <- EF, <- EPA in *. rewrite ED, F3, F4.
    apply settle_inner_Ok in E6 as (commit & fo & w' & s0 & s1' & sr & _ & _ & _ & _ & _ & A5 & A6 & _ & _ & A8 & _).
    split_and!; try done; try set_solver; try lia.
    apply settle_Ok in A5 as (_ & _ & (t' & _ & _ & _ & L2) & _). rewrite <- A8, EF, A6.
    unfold settlement_receipt, FeeSettlementReceiptV1_new in L2. repeat (destruct (ok_or _ _); [|done]).
    destruct (validate_arithmetic _); [|done]. by injection L2 as <-.
  - unfold execute_transaction_v1 in HE. by repeat case_match; simplify_eq/=.
Qed.

(** C36: the call-depth limit is one short, and costs everything.  Take any
    limit of two or more, and a transaction whose contract calls a contract
    that calls another one, and so on without value, until the last one is
    exactly at the depth of the limit.  The frame of the settlement counts as a
    level too, so the last contract is not run; its caller is not told of a
    trap, but the whole transaction, if it gets a receipt, is settled as
    resource exhaustion, and all of the weight it was authorised to use is
    charged. *)
Theorem call_depth_one_short j receipt_source receipt_snapshot validate request runtime book p book' n :
  transaction_inputs (j_snapshots j) j request runtime ->
  max_call_depth (tr_limits runtime) = Z.of_nat (S (S n)) ->
  descends (tr_dispatch runtime) (cx_target (cx_parts (top_level_context runtime))) (S n) ->
  execute_transaction_v1 source j receipt_source receipt_snapshot validate request runtime book = (Ok p, book') ->
  rx_outcome (rx_parts (pp_execution_receipt p)) = RxResourceExhausted /\
  fr_outcome (fr_parts (pp_fee_receipt p)) = ResourceExhausted /\
  fr_actual_weight (fr_parts (pp_fee_receipt p)) = meter_max (tr_meter runtime).
Proof. apply chain_transaction. Qed.

End Theorems.

(** ** An example: a shop that writes, emits, and pays a bank *)

(** The length of a message and its last 31 bytes: fast, and apart on the keys
    of the example. *)
Definition length_hash : Blake3 := fun m => arr_resize 32 (byte_of_Z (Z.of_nat (length m)) :: drop (length m - 31) m).

Definition empty_snapshot (d : CommitmentDomainId) : DomainSnapshot :=
  MkDomainSnapshot d (hash_at (empty_hashes (H := length_hash) d) 0).

Definition alice : ExecutionAddress := ExecutionAddress_from_evm (arr_fill 20 x01).
Definition shop : ExecutionAddress := MkExecutionAddress KindWasm (arr_fill 32 x02).
Definition bank : ExecutionAddress := MkExecutionAddress KindWasm (arr_fill 32 x03).

Definition demo_snapshots : list DomainSnapshot := [empty_snapshot DomWasm; empty_snapshot ACCOUNTING_DOMAIN].

Definition demo_fresh : ExecutionJournalV1 :=
  unwrap (MkJournal demo_context ∅ [] JournalLimitsV1_default 0 0 0)
    (ExecutionJournalV1_new demo_context demo_snapshots JournalLimitsV1_default).

Definition demo_start : ExecutionJournalV1 :=
  snd (run_jops [OpPut ACCOUNTING_DOMAIN (balance_key alice) (encode_accounting_u64 5000);
                 OpPut ACCOUNTING_DOMAIN (balance_key shop) (encode_accounting_u64 100);
                 OpPut ACCOUNTING_DOMAIN total_execution_balance_key (encode_accounting_u64 5100)] demo_fresh).

Definition bank_code : RuntimeBackendV1 := ChargeVmUnits 10 (fun _ => Return (Ok (RuntimeCallResultV1.Success []))).
Definition pay_bank : RuntimeCallSpecV1 := MkCallSpec bank 40 false [].
Definition shop_code : RuntimeBackendV1 :=
  StatePut [x01] [x07] (fun _ => EmitEvent [] [x08] (fun _ =>
    Call pay_bank (fun _ => Return (Ok (RuntimeCallResultV1.Success [x09]))))).

Definition demo_entries : list (ExecutionAddress * RuntimeBackendV1) := [(shop, shop_code); (bank, bank_code)].
Definition demo_dispatch : RuntimeDispatchTableV1 := unwrap (MkDispatch ∅) (RuntimeDispatchTableV1_new demo_entries).
Definition demo_call : RuntimeCallContextV1 :=
  MkCallContext (MkContextParts 1 7 (arr_fill 32 x11) (arr_fill 32 x22) alice alice shop ExecWasm 1 false 0).
Definition demo_charges : HostChargeScheduleV1 := MkHostCharges 1 1 1 1 1 1 1 1 1 1 1 1 1 1 1.
Definition demo_unit : WeightRatio := MkWeightRatio 1 1.
Definition demo_meter : WeightMeter := MkWeightMeter (MkMeterScheduleV1 demo_unit demo_unit demo_unit) [0; 0; 0] 5 100 false.
Definition demo_runtime (depth : Z) : TransactionRuntimeV1 :=
  MkTransactionRuntime demo_call demo_meter (MkCoordinatorLimits depth 16 1024) demo_charges demo_dispatch.
Definition demo_request : FundingValidationRequestV1 :=
  MkFundingRequest 1 7 (arr_fill 32 x22) ExecWasm alice alice (arr_fill 32 x44) ExecutionBalance (arr_fill 32 x55) 1 demo_terms.
Definition demo_validator : FundingSourceValidator := fun _ =>
  Ok (MkFundingCapabilityV1 ExecutionBalance alice (arr_fill 32 x55) 4000 1 (arr_fill 32 x44)).

Definition demo_execute (depth : Z) : result CoordinatorError.t TransactionExecutionProposalV1 * EscrowBookV1 :=
  execute_transaction_v1 (H := length_hash) no_store demo_start no_store (empty_snapshot DomExecutionReceipts)
    demo_validator demo_request (demo_runtime depth) demo_book.

Lemma demo_fresh_new : ExecutionJournalV1_new demo_context demo_snapshots JournalLimitsV1_default = Ok demo_fresh.
Proof. by apply unwrap_ok. Qed.

Lemma demo_first_ok : journal_ok demo_start.
Proof.
  unfold demo_start. destruct (run_jops _ demo_fresh) as [rs j] eqn:E.
  by destruct (run_jops_ok _ _ _ _ (journal_new_ok _ _ _ _ demo_limits_ok demo_fresh_new) E).
Qed.

Lemma demo_dispatch_new : RuntimeDispatchTableV1_new demo_entries = Ok demo_dispatch.
Proof. by apply unwrap_ok. Qed.

Lemma demo_entries_ok : Forall (fun e => backend_ok e.2) demo_entries.
Proof.
  unfold demo_entries, shop_code, bank_code. repeat (constructor; intros; cbn [fst snd]); try (unfold_ints; lia); done.
Qed.

Lemma demo_backends target backend : factory_for demo_dispatch target = Some backend -> backend_ok backend.
Proof.
  intros HL. apply (dispatch_backends _ _ _ _ demo_dispatch_new) in HL. pose proof demo_entries_ok as HF.
  rewrite Forall_forall in HF. by apply (HF (target, backend)).
Qed.

Lemma demo_call_ok : context_ok demo_call.
Proof. by vm_compute. Qed.

Lemma demo_meter_inv : meter_inv 5 demo_meter.
Proof.
  unfold meter_inv, schedule_ok, ratio_ok, in_u64, counters_weight, exact_weight. cbn. unfold_ints. split_and!; try lia; try done.
  intros []; cbn; lia.
Qed.

Lemma demo_limits_range d : 0 < d <= 64 -> coordinator_limits_ok (MkCoordinatorLimits d 16 1024).
Proof. unfold coordinator_limits_ok, MAX_RUNTIME_CALL_DEPTH, MAX_EXECUTION_EVENTS_V1, MAX_COORDINATOR_EFFECT_BYTES_V1. cbn. lia. Qed.

Lemma demo_inputs d : 0 < d <= 64 -> transaction_inputs (j_snapshots demo_start) demo_start demo_request (demo_runtime d).
Proof.
  intros Hd. split; try done.
  - apply demo_first_ok.
  - by eexists.
  - exists 5. apply demo_meter_inv.
  - apply demo_backends.
Qed.

(** The state in which the shop starts. *)
Definition demo_state (depth : Z) : CoordState :=
  MkCoordState (snd (begin_frame demo_start)) demo_meter
    (snd (es_begin (EffectStackV1_new (MkCoordinatorLimits depth 16 1024)))) Running.

Lemma demo_state_ok d : 1 < d <= 64 -> coord_ok (j_snapshots (cs_journal (demo_state d))) (demo_state d).
Proof.
  intros Hd.
  assert (es_begin (EffectStackV1_new (MkCoordinatorLimits d 16 1024)) = (Ok tt, cs_effects (demo_state d))) as HE.
  { unfold demo_state. cbn [cs_effects]. unfold es_begin.
    change (checked_add USIZE_MAX (Z.of_nat (length (es_frames (EffectStackV1_new (MkCoordinatorLimits d 16 1024))))) 1) with (Some 2).
    cbn [es_limits EffectStackV1_new max_call_depth]. destruct (2 >? d) eqn:E2; [lia|]. done. }
  refine (tl_ok _ _ (proj1 (start_top_level _ demo_start demo_meter _ _ _ _ demo_first_ok eq_refl eq_refl
    (demo_limits_range d ltac:(lia)) (ex_intro _ 5 demo_meter_inv) eq_refl _ HE))). vm_compute. reflexivity.
Qed.

(** What the shop's run of [run_backend] returns. *)
Definition demo_run : result RuntimeBackendFailureV1 RuntimeCallResultV1.t * CoordState :=
  run_backend (H := length_hash) no_store CALL_LEVELS demo_charges demo_dispatch demo_call shop_code (demo_state 8).

Lemma shop_registered : factory_for demo_dispatch shop = Some shop_code.
Proof. vm_compute. reflexivity. Qed.

Lemma bank_registered : factory_for demo_dispatch bank = Some bank_code.
Proof. vm_compute. reflexivity. Qed.

Lemma demo_run_events : length (top_events (cs_effects (snd demo_run))) = 1%nat.
Proof. vm_compute. reflexivity. Qed.

Lemma contracts_confined_witness :
  length (top_events (cs_effects (snd demo_run))) = 1%nat /\
  conserves (H := length_hash) no_store (j_snapshots (cs_journal (demo_state 8))) (jview (cs_journal (demo_state 8)))
    (jview (cs_journal (snd demo_run))).
Proof.
  split; [exact demo_run_events|].
  destruct (contracts_confined (H := length_hash) no_store demo_charges demo_entries demo_dispatch demo_call shop_code
    (demo_state 8) (fst demo_run) (snd demo_run) demo_dispatch_new demo_entries_ok demo_call_ok shop_registered
    (demo_state_ok 8 ltac:(lia)) (surjective_pairing demo_run)) as (_ & _ & _ & _ & _ & _ & HC). exact (ce_value _ _ _ _ _ _ HC).
Defined.

(** A call that asks for more value than the shop has. *)
Definition overpay : RuntimeCallSpecV1 := MkCallSpec bank 101 false [].

Definition demo_overpaid : host_result RuntimeCallResultV1.t * CoordState :=
  execute_nested_call (H := length_hash) no_store (run_backend (H := length_hash) no_store CALL_LEVELS demo_charges demo_dispatch)
    demo_dispatch demo_call overpay (demo_state 8).

Lemma overpaid_traps : fst demo_overpaid = Ok (RuntimeCallResultV1.Trap RuntimeTrapCodeV1.AttachedValueTransferFailed).
Proof. vm_compute. reflexivity. Qed.

Lemma demo_spec_ok v : in_u64 v -> spec_ok (MkCallSpec bank v false []).
Proof. intros Hv. unfold spec_ok. cbn. split_and!; try done. Qed.


Definition demo_host : RuntimeHostV1 CoordState :=
  coordinator_host (H := length_hash) no_store (run_backend (H := length_hash) no_store CALL_LEVELS demo_charges)
    (CoordinatorHostV1_new_active demo_call demo_charges demo_dispatch).

Lemma host_state_typed_witness :
  coord_ok (j_snapshots (cs_journal (demo_state 8))) (snd (host_state_put demo_host [x01] [x02] (demo_state 8))).
Proof.
  destruct (host_state_typed (H := length_hash) no_store demo_charges demo_dispatch demo_call (demo_state 8) demo_backends
    demo_call_ok (demo_state_ok 8 ltac:(lia))) as (_ & HP & _). exact (HP [x01] [x02]).
Defined.

(** The shop at depth 63, where two levels are enough. *)
Definition deep_call : RuntimeCallContextV1 :=
  let c := cx_parts demo_call in
  MkCallContext (MkContextParts (cx_chain_id c) (cx_height c) (cx_parent_block_hash c) (cx_txid c) (cx_principal c) (cx_caller c)
    (cx_target c) (cx_execution_domain c) 63 (cx_read_only c) (cx_transferred_value c)).

Lemma call_levels_suffice_witness :
  run_backend (H := length_hash) no_store 2 demo_charges demo_dispatch deep_call shop_code (demo_state 8)
  = run_backend (H := length_hash) no_store CALL_LEVELS demo_charges demo_dispatch deep_call shop_code (demo_state 8).
Proof.
  apply (call_levels_suffice (H := length_hash) no_store demo_charges demo_dispatch deep_call shop_code 2 (demo_state 8)).
  - split; vm_compute; done.
  - vm_compute. reflexivity.
Defined.

Definition no_proposal : TransactionExecutionProposalV1 :=
  MkProposal (MkJournalResult demo_context [] []) (MkJournalResult demo_context [] [])
    (MkFeeSettlementReceiptV1 (MkFeeParts (arr_fill 32 x00) (arr_fill 32 x00) alice NativeUtxo Committed 0 0 0 0 0 0 0 0 0 0))
    (MkExecutionReceiptV1 (MkReceiptParts (arr_fill 32 x00) ExecNative RxCommitted 0 alice 0 0 (arr_fill 32 x00) (arr_fill 32 x00)
      (arr_fill 32 x00) 0 (arr_fill 32 x00) 0 (arr_fill 32 x00) 0)) 0.

Definition demo_proposal (depth : Z) : TransactionExecutionProposalV1 := unwrap no_proposal (fst (demo_execute depth)).

Lemma demo_commits :
  is_ok (fst (demo_execute 8)) = true /\ pp_execution_fee_total_delta (demo_proposal 8) = 315 /\
  rx_outcome (rx_parts (pp_execution_receipt (demo_proposal 8))) = RxCommitted.
Proof. vm_compute. split_and!; reflexivity. Qed.

Lemma pair_unwrap {S E A} (d : A) (x : result E A * S) : is_ok (fst x) = true -> x = (Ok (unwrap d (fst x)), snd x).
Proof. by destruct x as [[]]. Qed.

Lemma demo_execute_Ok : demo_execute 8 = (Ok (demo_proposal 8), snd (demo_execute 8)).
Proof. exact (pair_unwrap no_proposal (demo_execute 8) (proj1 demo_commits)). Qed.

Lemma transaction_conserves_value_witness :
  exists jf t, total_read (H := length_hash) no_store (j_snapshots demo_start) (jview demo_start) = Ok t /\
    total_read (H := length_hash) no_store (j_snapshots demo_start) (jview jf) = Ok (t - 315).
Proof.
  destruct (transaction_conserves_value (H := length_hash) no_store demo_start no_store (empty_snapshot DomExecutionReceipts)
    demo_validator demo_request (demo_runtime 8) demo_book (demo_proposal 8) (snd (demo_execute 8))
    (demo_inputs 8 ltac:(lia)) demo_execute_Ok) as [jf HT].
  exists jf. pose proof (te_total _ _ _ _ _ _ _ HT) as HV. cbn [fq_source_kind demo_request] in HV.
  destruct demo_commits as (_ & HD & _). rewrite HD in HV. exact HV.
Defined.

Lemma transaction_settles_once_witness :
  fr_charged (fr_parts (pp_fee_receipt (demo_proposal 8))) + fr_refund (fr_parts (pp_fee_receipt (demo_proposal 8)))
  = max_escrow (fq_fee_terms demo_request).
Proof.
  pose proof (transaction_settles_once (H := length_hash) no_store demo_start no_store (empty_snapshot DomExecutionReceipts)
    demo_validator demo_request (demo_runtime 8) demo_book (Ok (demo_proposal 8)) (snd (demo_execute 8))
    (demo_inputs 8 ltac:(lia)) demo_execute_Ok) as HT.
  cbv zeta in HT. destruct HT as (_ & _ & _ & _ & _ & HC & _). exact HC.
Defined.

(** A shop that only calls the bank, without value. *)
Definition chain_entries : list (ExecutionAddress * RuntimeBackendV1) :=
  [(shop, Call (MkCallSpec bank 0 false []) (fun _ => Return (Ok (RuntimeCallResultV1.Success [])))); (bank, bank_code)].
Definition chain_dispatch : RuntimeDispatchTableV1 := unwrap demo_dispatch (RuntimeDispatchTableV1_new chain_entries).
Definition chain_runtime (depth : Z) : TransactionRuntimeV1 :=
  MkTransactionRuntime demo_call demo_meter (MkCoordinatorLimits depth 16 1024) demo_charges chain_dispatch.
Definition chain_execute (depth : Z) : result CoordinatorError.t TransactionExecutionProposalV1 * EscrowBookV1 :=
  execute_transaction_v1 (H := length_hash) no_store demo_start no_store (empty_snapshot DomExecutionReceipts)
    demo_validator demo_request (chain_runtime depth) demo_book.
Definition chain_proposal (depth : Z) : TransactionExecutionProposalV1 := unwrap no_proposal (fst (chain_execute depth)).

Lemma chain_backends target backend : factory_for chain_dispatch target = Some backend -> backend_ok backend.
Proof.
  intros HL. assert (RuntimeDispatchTableV1_new chain_entries = Ok chain_dispatch) as HN by (by apply unwrap_ok).
  apply (dispatch_backends _ _ _ _ HN) in HL. apply elem_of_cons in HL as [[= -> ->]|[[= -> ->]|HL]%elem_of_cons].
  - constructor; [|intros; constructor]. unfold spec_ok. cbn. unfold_ints. split_and!; done || lia.
  - constructor; [|intros; constructor]. unfold_ints. lia.
  - by apply elem_of_nil in HL.
Qed.

Lemma chain_inputs d : 0 < d <= 64 -> transaction_inputs (j_snapshots demo_start) demo_start demo_request (chain_runtime d).
Proof.
  intros Hd. destruct (demo_inputs d Hd) as [T1 T2 T3 T4 T5 T6 T7 T8 T9].
  exact (MkTransactionInputs _ _ _ (chain_runtime d) T1 T2 T3 T4 T5 T6 T7 chain_backends T9).
Qed.

Lemma chain_descends : descends chain_dispatch shop 1.
Proof.
  eapply descends_call; [vm_compute; reflexivity|reflexivity|]. eapply descends_end. vm_compute. reflexivity.
Qed.

Lemma chain_execute_Ok : chain_execute 2 = (Ok (chain_proposal 2), snd (chain_execute 2)).
Proof. apply pair_unwrap. vm_compute. reflexivity. Qed.

Lemma call_depth_one_short_witness :
  rx_outcome (rx_parts (pp_execution_receipt (chain_proposal 3))) = RxCommitted /\
  rx_outcome (rx_parts (pp_execution_receipt (chain_proposal 2))) = RxResourceExhausted /\
  fr_outcome (fr_parts (pp_fee_receipt (chain_proposal 2))) = ResourceExhausted /\
  fr_actual_weight (fr_parts (pp_fee_receipt (chain_proposal 2))) = meter_max demo_meter.
Proof.
  split; [vm_compute; reflexivity|].
  apply (call_depth_one_short (H := length_hash) no_store demo_start no_store (empty_snapshot DomExecutionReceipts)
    demo_validator demo_request (chain_runtime 2) demo_book (chain_proposal 2) (snd (chain_execute 2)) 0
    (chain_inputs 2 ltac:(lia)) eq_refl chain_descends chain_execute_Ok).
Defined.

(** The same transaction under a depth limit of two, which its two levels of
    calls respect, is charged for all its weight. *)
Example depth_two_exhausts :
  rx_outcome (rx_parts (pp_execution_receipt (demo_proposal 2))) = RxResourceExhausted /\
  rx_fee_charged (rx_parts (pp_execution_receipt (demo_proposal 2))) = 1500.
Proof. vm_compute. split_and!; reflexivity. Qed.
