(* ===== verification/Relay.v ===== *)
(** Relaying inventory: [oregon-node/src/relay.rs].  What each peer is known to
    have and what was relayed recently are bounded first-in-first-out sets; an
    accepted object is announced to the peers that do not have it. *)
From S2P Require Import Prelude Encoding Transaction Block Protocol PeerPolicy PeerService.

Definition MAX_KNOWN_INVENTORY_PER_PEER : nat := Z.to_nat 8192.
Definition MAX_RECENT_RELAY_CACHE : nat := Z.to_nat 65536.

Inductive PeerCommand : Type :=
| CmdSend (peer_id : PeerId) (message : Message) (class : QueueClass)
| CmdExpect (peer_id : PeerId) (key : RequestKey)
| CmdDisconnect (peer_id : PeerId)
| CmdFeedback (peer_id : PeerId) (feedback : PeerFeedback).

Record ValidatedRelay : Type := MkValidatedRelay { inventory : InventoryItem }.

(** The oldest item is first in the order. *)
Record BoundedInventory : Type := MkInventory {
  inv_capacity : nat;
  inv_members : gset InventoryItem;
  inv_order : list InventoryItem;
}.

Definition BoundedInventory_new (capacity : nat) : BoundedInventory := MkInventory capacity ∅ [].

(** [None] is a panic: the [expect], or a debug assertion that fails. *)
Definition make_room (b : BoundedInventory) : option BoundedInventory :=
  if (length (inv_order b) =? inv_capacity b)%nat
  then match inv_order b with
       | [] => None
       | oldest :: rest =>
           if bool_decide (oldest ∈ inv_members b)
           then Some (MkInventory (inv_capacity b) (inv_members b ∖ {[oldest]}) rest) else None
       end
  else Some b.

Definition Inventory_insert (item : InventoryItem) (b : BoundedInventory) : option (bool * BoundedInventory) :=
  if bool_decide (item ∈ inv_members b) then Some (false, b)
  else match make_room b with
       | None => None
       | Some b' =>
           if bool_decide (item ∈ inv_members b') then None
           else Some (true, MkInventory (inv_capacity b') ({[item]} ∪ inv_members b') (inv_order b' ++ [item]))
       end.

Definition Inventory_contains (b : BoundedInventory) (item : InventoryItem) : bool := bool_decide (item ∈ inv_members b).

Record RelayState : Type := MkRelayState {
  known_by_peer : gmap PeerId BoundedInventory;
  recent_relay : BoundedInventory;
}.

Definition RelayState_default : RelayState := MkRelayState ∅ (BoundedInventory_new MAX_RECENT_RELAY_CACHE).

Definition known_entry (r : RelayState) (peer_id : PeerId) : BoundedInventory :=
  default (BoundedInventory_new MAX_KNOWN_INVENTORY_PER_PEER) (known_by_peer r !! peer_id).

Definition note_peer_inventory (peer_id : PeerId) (item : InventoryItem) (r : RelayState) : option (bool * RelayState) :=
  match Inventory_insert item (known_entry r peer_id) with
  | None => None
  | Some (fresh, known) => Some (fresh, MkRelayState (<[peer_id := known]> (known_by_peer r)) (recent_relay r))
  end.

Definition peer_knows (r : RelayState) (peer_id : PeerId) (item : InventoryItem) : bool :=
  match known_by_peer r !! peer_id with Some known => Inventory_contains known item | None => false end.

Definition note_recent_relay (item : InventoryItem) (r : RelayState) : option (bool * RelayState) :=
  match Inventory_insert item (recent_relay r) with
  | None => None
  | Some (fresh, recent) => Some (fresh, MkRelayState (known_by_peer r) recent)
  end.

(** [Vec::dedup]: of equal neighbours one stays. *)
Fixpoint dedup (l : list PeerId) : list PeerId :=
  match l with
  | x :: ((y :: _) as rest) => if bool_decide (x = y) then dedup rest else x :: dedup rest
  | _ => l
  end.

(** The loop over the peers. *)
Fixpoint announce (source_peer : option PeerId) (item : InventoryItem) (peers : list PeerId) (r : RelayState)
  : option (list PeerCommand * RelayState) :=
  match peers with
  | [] => Some ([], r)
  | p :: peers =>
      if bool_decide (Some p = source_peer) || peer_knows r p item then announce source_peer item peers r
      else match note_peer_inventory p item r with
           | None => None
           | Some (_, r') =>
               match announce source_peer item peers r' with
               | None => None
               | Some (commands, r'') => Some (CmdSend p (MsgInv [item]) QGossip :: commands, r'')
               end
           end
  end.

Definition note_source (source_peer : option PeerId) (item : InventoryItem) (r : RelayState) : option RelayState :=
  match source_peer with
  | None => Some r
  | Some p => match note_peer_inventory p item r with None => None | Some (_, r') => Some r' end
  end.

Definition relay_inventory (source_peer : option PeerId) (peers : list PeerId) (authorization : ValidatedRelay)
    (r : RelayState) : option (list PeerCommand * RelayState) :=
  let item := inventory authorization in
  match note_source source_peer item r with
  | None => None
  | Some r1 =>
      match note_recent_relay item r1 with
      | None => None
      | Some (false, r2) => Some ([], r2)
      | Some (true, r2) => announce source_peer item (dedup (merge_sort Z.le peers)) r2
      end
  end.

Definition object_request_commands (peer_id : PeerId) (item : InventoryItem) : list PeerCommand :=
  [CmdExpect peer_id (KeyObject item); CmdSend peer_id (MsgGetData [item]) QRequiredData].

Definition validated_relay {E T} (k : InventoryKind) (h : Hash256) (r : result E T) : option ValidatedRelay :=
  match r with Ok _ => Some (MkValidatedRelay (MkInventoryItem k h)) | Err _ => None end.

(** ** A bounded inventory *)

Record inventory_ok (b : BoundedInventory) : Prop := MkInventoryOk {
  io_members : forall x, x ∈ inv_members b <-> x ∈ inv_order b;
  io_nodup : NoDup (inv_order b);
  io_room : (0 < inv_capacity b)%nat;
  io_bound : (length (inv_order b) <= inv_capacity b)%nat;
}.

Lemma inventory_ok_new n : (0 < n)%nat -> inventory_ok (BoundedInventory_new n).
Proof. intros Hn. split; cbn; [set_solver|constructor|done|lia]. Qed.

(** An insertion never panics, says whether the item is new, and drops at
    most the oldest item. *)
Definition inserted (item : InventoryItem) (b : BoundedInventory) (fresh : bool) (b' : BoundedInventory) : Prop :=
  inventory_ok b' /\ inv_capacity b' = inv_capacity b /\ fresh = negb (Inventory_contains b item) /\
  Inventory_contains b' item = true /\
  (if fresh
   then exists front rest, inv_order b = front ++ rest /\ inv_order b' = rest ++ [item] /\
          (length front = if (length (inv_order b) =? inv_capacity b)%nat then 1 else 0)%nat
   else b' = b).

Lemma make_room_spec b :
  inventory_ok b -> exists front b', make_room b = Some b' /\ inv_capacity b' = inv_capacity b /\
    inv_order b = front ++ inv_order b' /\ (forall x, x ∈ inv_members b' <-> x ∈ inv_order b') /\
    (length front = if (length (inv_order b) =? inv_capacity b)%nat then 1 else 0)%nat.
Proof.
  intros [H1 H2 H3 H4]. unfold make_room. destruct (Nat.eqb_spec (length (inv_order b)) (inv_capacity b)) as [E|E].
  - destruct (inv_order b) as [|x rest]; [cbn in E; lia|]. rewrite bool_decide_true by (apply H1; by left).
    exists [x]. eexists. split_and!; [done..| |done]. cbn. intros y. apply NoDup_cons in H2 as [Hx H2]. set_solver.
  - exists [], b. by split_and!.
Qed.

Lemma insert_spec item b :
  inventory_ok b -> exists fresh b', Inventory_insert item b = Some (fresh, b') /\ inserted item b fresh b'.
Proof.
  intros HB. unfold Inventory_insert, inserted, Inventory_contains. destruct (bool_decide_reflect (item ∈ inv_members b)) as [Hi|Hi].
  - exists false, b. split_and!; try done. by rewrite bool_decide_true.
  - destruct (make_room_spec b HB) as (front & b' & -> & Hc & Ho & Hm & Hf). destruct HB as [H1 H2 H3 H4].
    rewrite Ho in H2. pose proof H2 as (_ & _ & H2')%NoDup_app. rewrite H1, Ho in Hi.
    assert (length (inv_order b') < inv_capacity b)%nat as Hl.
    { rewrite Ho, length_app in Hf, H4. destruct (Nat.eqb_spec (length front + length (inv_order b')) (inv_capacity b)); lia. }
    rewrite bool_decide_false by (rewrite Hm; set_solver).
    do 2 eexists. split; [done|]. split_and!; cbn.
    + split; cbn; [set_solver| |by rewrite Hc|rewrite length_app; cbn; lia].
      apply NoDup_app. split_and!; [done|set_solver|apply NoDup_singleton].
    + done.
    + done.
    + rewrite bool_decide_true; set_solver.
    + by exists front, (inv_order b').
Qed.

(** ** The relay state *)

Record relay_ok (r : RelayState) : Prop := MkRelayOk {
  ro_known : forall p b, known_by_peer r !! p = Some b -> inventory_ok b /\ inv_capacity b = MAX_KNOWN_INVENTORY_PER_PEER;
  ro_recent : inventory_ok (recent_relay r);
  ro_recent_capacity : inv_capacity (recent_relay r) = MAX_RECENT_RELAY_CACHE;
}.

Lemma relay_ok_default : relay_ok RelayState_default.
Proof. split; [intros p b Hb; cbn in Hb; by rewrite lookup_empty in Hb|apply inventory_ok_new; unfold MAX_RECENT_RELAY_CACHE; lia|done]. Qed.

Lemma known_entry_ok r p : relay_ok r -> inventory_ok (known_entry r p) /\ inv_capacity (known_entry r p) = MAX_KNOWN_INVENTORY_PER_PEER.
Proof.
  intros HR. unfold known_entry. destruct (known_by_peer r !! p) as [b|] eqn:E; cbn [default from_option].
  - by eapply HR.
  - split; [|done]. apply inventory_ok_new. unfold MAX_KNOWN_INVENTORY_PER_PEER. lia.
Qed.

Lemma peer_knows_entry r p i : peer_knows r p i = Inventory_contains (known_entry r p) i.
Proof. unfold peer_knows, known_entry. by destruct (known_by_peer r !! p). Qed.

(** What noting an item does to what the peers know. *)
Definition noted (p : PeerId) (item : InventoryItem) (r r' : RelayState) : Prop :=
  relay_ok r' /\ recent_relay r' = recent_relay r /\ peer_knows r' p item = true /\
  (forall q i, q <> p -> peer_knows r' q i = peer_knows r q i).

Lemma note_peer_spec p item r :
  relay_ok r -> exists fresh r', note_peer_inventory p item r = Some (fresh, r') /\ noted p item r r' /\
    fresh = negb (peer_knows r p item).
Proof.
  intros HR. destruct (known_entry_ok r p HR) as [HI Hc]. unfold note_peer_inventory.
  destruct (insert_spec item _ HI) as (fresh & b & -> & HI' & Hc' & Hf & Hk & _). do 2 eexists. split; [done|].
  rewrite peer_knows_entry. split; [|done]. split_and!; [|done| |].
  - destruct HR as [H1 H2 H3]. split; cbn; [|done..]. intros q x [[<- <-]|[_ Hx]]%lookup_insert_Some; [|by eapply H1].
    split; [done|congruence].
  - unfold peer_knows. cbn. by rewrite lookup_insert_eq.
  - intros q i Hq. unfold peer_knows. cbn. by rewrite lookup_insert_ne.
Qed.

(** The peers of a list of announcements of [item]. *)
Definition announcements (item : InventoryItem) (targets : list PeerId) : list PeerCommand :=
  map (fun p => CmdSend p (MsgInv [item]) QGossip) targets.

Definition skipped (source : option PeerId) (item : InventoryItem) (r : RelayState) (p : PeerId) : bool :=
  bool_decide (Some p = source) || peer_knows r p item.

Lemma filter_agree {A} (P Q : A -> Prop) `{!forall x, Decision (P x), !forall x, Decision (Q x)} (l : list A) :
  (forall x, x ∈ l -> P x <-> Q x) -> filter P l = filter Q l.
Proof.
  induction l as [|x l IH]; intros HE; [done|]. rewrite !filter_cons, IH by set_solver.
  by rewrite (decide_ext (P x) (Q x)) by (apply HE; by left).
Qed.

Lemma noted_keeps p item r r' q : noted p item r r' -> peer_knows r q item = true -> peer_knows r' q item = true.
Proof. intros (_ & _ & Hp & Hq). destruct (decide (q = p)) as [->|Hne]; [done|by rewrite Hq]. Qed.

Lemma announce_spec source item peers r :
  relay_ok r -> NoDup peers -> exists r',
    announce source item peers r =
      Some (announcements item (filter (fun p => skipped source item r p = false) peers), r') /\
    relay_ok r' /\ recent_relay r' = recent_relay r /\
    (forall p, p ∈ peers -> Some p <> source -> peer_knows r' p item = true) /\
    (forall p, peer_knows r p item = true -> peer_knows r' p item = true).
Proof.
  revert r. induction peers as [|p peers IH]; intros r HR HN.
  { exists r. split_and!; [done..|set_solver|done]. }
  apply NoDup_cons in HN as [Hp HN]. cbn [announce]. fold (skipped source item r p).
  rewrite filter_cons. destruct (skipped source item r p) eqn:Es.
  - rewrite decide_False by done. destruct (IH r HR HN) as (r' & -> & HR' & Hre & Hk & Hm). exists r'.
    split_and!; [done..| |done]. intros q [->|Hq]%elem_of_cons Hs; [|by apply Hk]. apply Hm.
    unfold skipped in Es. apply orb_true_iff in Es as [Es|Es]; [by apply bool_decide_eq_true in Es|done].
  - rewrite decide_True by done. destruct (note_peer_spec p item r HR) as (fresh & r1 & -> & HT & _).
    pose proof HT as (HR1 & Hre1 & Hp1 & Hq1). destruct (IH r1 HR1 HN) as (r' & -> & HR' & Hre & Hk & Hm).
    exists r'. split_and!; [|done|congruence| |].
    + do 2 f_equal. cbn [announcements map]. f_equal. unfold announcements. f_equal. apply filter_agree.
      intros q Hq. unfold skipped. rewrite Hq1 by set_solver. done.
    + intros q [->|Hq]%elem_of_cons Hs; [by apply Hm|by apply Hk].
    + intros q Hq. apply Hm. by eapply noted_keeps.
Qed.

(** ** Distinct peers *)

Lemma elem_of_dedup l x : x ∈ dedup l <-> x ∈ l.
Proof.
  induction l as [|y l IH]; [done|]. destruct l as [|z l]; [done|]. change (dedup (y :: z :: l)) with
    (if bool_decide (y = z) then dedup (z :: l) else y :: dedup (z :: l)).
  case_bool_decide as E; rewrite ?elem_of_cons, ?IH, ?elem_of_cons; naive_solver.
Qed.

Lemma dedup_NoDup l : StronglySorted Z.le l -> NoDup (dedup l).
Proof.
  induction 1 as [|y l HS IH HF]; [constructor|]. destruct l as [|z l]; [apply NoDup_singleton|].
  change (dedup (y :: z :: l)) with (if bool_decide (y = z) then dedup (z :: l) else y :: dedup (z :: l)).
  case_bool_decide as E; [done|]. apply NoDup_cons. split; [|done]. rewrite elem_of_dedup. intros Hy.
  rewrite Forall_forall in HF. pose proof (HF z ltac:(by left)). apply StronglySorted_inv in HS as [_ HZ].
  apply elem_of_cons in Hy as [?|Hy]; [done|]. rewrite Forall_forall in HZ. pose proof (HZ y Hy). lia.
Qed.

Definition distinct_peers (peers : list PeerId) : list PeerId := dedup (merge_sort Z.le peers).

Lemma distinct_peers_spec peers : NoDup (distinct_peers peers) /\ (forall p, p ∈ distinct_peers peers <-> p ∈ peers).
Proof.
  split; [apply dedup_NoDup; apply (StronglySorted_merge_sort Z.le)|].
  intros p. etransitivity; [apply elem_of_dedup|]. by rewrite merge_sort_Permutation.
Qed.

(** ** One relay *)

Lemma note_recent_spec item r :
  relay_ok r -> exists fresh recent, note_recent_relay item r = Some (fresh, MkRelayState (known_by_peer r) recent) /\
    inserted item (recent_relay r) fresh recent /\ relay_ok (MkRelayState (known_by_peer r) recent).
Proof.
  intros [H1 H2 H3]. unfold note_recent_relay. destruct (insert_spec item _ H2) as (fresh & b & -> & HI).
  exists fresh, b. split_and!; [done..|]. destruct HI as (HI & Hc & _). split; cbn; [done..|congruence].
Qed.

Lemma note_source_spec source item r :
  relay_ok r -> exists r', note_source source item r = Some r' /\ relay_ok r' /\ recent_relay r' = recent_relay r /\
    (forall p, peer_knows r' p item = bool_decide (Some p = source) || peer_knows r p item).
Proof.
  intros HR. destruct source as [p|]; cbn [note_source].
  - destruct (note_peer_spec p item r HR) as (fresh & r' & -> & (HR' & Hre & Hp & Hq) & _). exists r'. split_and!; [done..|].
    intros q. destruct (decide (q = p)) as [->|Hne]; [by rewrite bool_decide_true|].
    rewrite Hq by done. by rewrite bool_decide_false by congruence.
  - exists r. by split_and!.
Qed.

(** A relay never panics.  An item that was relayed recently is announced to
    nobody; any other item once to every listed peer other than the source
    that does not have it, and afterwards all of them have it. *)
Definition relayed (source : option PeerId) (peers : list PeerId) (item : InventoryItem) (r : RelayState)
    (targets : list PeerId) (r' : RelayState) : Prop :=
  relay_ok r' /\ NoDup targets /\
  (Inventory_contains (recent_relay r) item = true -> targets = []) /\
  (Inventory_contains (recent_relay r) item = false ->
     (forall p, p ∈ targets <-> p ∈ peers /\ Some p <> source /\ peer_knows r p item = false) /\
     (forall p, p ∈ peers -> peer_knows r' p item = true)) /\
  inserted item (recent_relay r) (negb (Inventory_contains (recent_relay r) item)) (recent_relay r').

Lemma relay_inventory_spec source peers item r :
  relay_ok r -> exists targets r',
    relay_inventory source peers (MkValidatedRelay item) r = Some (announcements item targets, r') /\
    relayed source peers item r targets r'.
Proof.
  intros HR. unfold relay_inventory. cbn [inventory].
  destruct (note_source_spec source item r HR) as (r1 & -> & HR1 & Hre1 & Hk1).
  destruct (note_recent_spec item r1 HR1) as (fresh & recent & -> & HI & HR2). rewrite Hre1 in HI.
  pose proof HI as (_ & _ & Hf & _). subst fresh.
  destruct (Inventory_contains (recent_relay r) item) eqn:Ec; cbn [negb] in *.
  - exists [], (MkRelayState (known_by_peer r1) recent). split; [done|]. unfold relayed. rewrite Ec. cbn [negb].
    split_and!; [done|constructor|done..].
  - destruct (distinct_peers_spec peers) as [HN HE]. fold (distinct_peers peers).
    destruct (announce_spec source item (distinct_peers peers) _ HR2 HN) as (r' & -> & HR' & Hre & Hk & Hm).
    do 2 eexists. split; [done|]. unfold relayed. rewrite Ec. cbn [negb].
    assert (forall p, peer_knows (MkRelayState (known_by_peer r1) recent) p item = peer_knows r1 p item) as HP by done.
    split_and!; [done|by apply NoDup_filter|done| |by rewrite Hre]. intros _. split.
    + intros p. rewrite list_elem_of_filter, HE. unfold skipped. rewrite HP, Hk1.
      destruct (bool_decide_reflect (Some p = source)); cbn; intuition congruence.
    + intros p Hp. destruct (decide (Some p = source)) as [Es|Es]; [|by apply Hk; [apply HE|]].
      apply Hm. by rewrite HP, Hk1, bool_decide_true.
Qed.

(** ** Runs *)

Inductive RelayOp : Type :=
| OpNote (peer_id : PeerId) (item : InventoryItem)
| OpRelay (source : option PeerId) (peers : list PeerId) (item : InventoryItem).

Definition relay_step (op : RelayOp) (r : RelayState) : option (list PeerCommand * RelayState) :=
  match op with
  | OpNote p item => match note_peer_inventory p item r with None => None | Some (_, r') => Some ([], r') end
  | OpRelay source peers item => relay_inventory source peers (MkValidatedRelay item) r
  end.

Fixpoint relay_run (ops : list RelayOp) (r : RelayState) : option (list (list PeerCommand) * RelayState) :=
  match ops with
  | [] => Some ([], r)
  | op :: ops =>
      match relay_step op r with
      | None => None
      | Some (out, r') => match relay_run ops r' with None => None | Some (outs, r'') => Some (out :: outs, r'') end
      end
  end.

(** The items the operations ask to relay. *)
Definition relay_items (op : RelayOp) : gset InventoryItem :=
  match op with OpNote _ _ => ∅ | OpRelay _ _ item => {[item]} end.
Definition items_of (ops : list RelayOp) : gset InventoryItem := ⋃ (map relay_items ops).

Lemma relay_step_ok op r : relay_ok r -> exists out r', relay_step op r = Some (out, r') /\ relay_ok r'.
Proof.
  intros HR. destruct op as [p item|source peers item]; cbn [relay_step].
  - destruct (note_peer_spec p item r HR) as (fresh & r' & -> & (? & _) & _). by exists [], r'.
  - destruct (relay_inventory_spec source peers item r HR) as (targets & r' & -> & (? & _)). eauto.
Qed.

Lemma relay_run_app ops1 ops2 r :
  relay_ok r -> exists outs1 r1 outs2 r2, relay_run ops1 r = Some (outs1, r1) /\ relay_ok r1 /\
    length outs1 = length ops1 /\ relay_run ops2 r1 = Some (outs2, r2) /\ relay_ok r2 /\
    relay_run (ops1 ++ ops2) r = Some (outs1 ++ outs2, r2).
Proof.
  revert r. induction ops1 as [|op ops1 IH]; intros r HR; cbn [app relay_run].
  - exists [], r. revert r HR. induction ops2 as [|op ops2 IH]; intros r HR; cbn [relay_run].
    + by exists [], r.
    + destruct (relay_step_ok op r HR) as (out & r1 & -> & HR1).
      destruct (IH r1 HR1) as (outs & r2 & _ & _ & _ & -> & HR2 & _). by exists (out :: outs), r2.
  - destruct (relay_step_ok op r HR) as (out & r1 & -> & HR1).
    destruct (IH r1 HR1) as (outs1 & r2 & outs2 & r3 & -> & HR2 & Hl & E2 & HR3 & ->).
    exists (out :: outs1), r2, outs2, r3. split_and!; try done. cbn. by rewrite Hl.
Qed.

Lemma relay_run_ok ops r : relay_ok r -> exists outs r', relay_run ops r = Some (outs, r') /\ relay_ok r'.
Proof. intros HR. destruct (relay_run_app ops [] r HR) as (o & r1 & _ & _ & E & H1 & _). eauto. Qed.

(** [x] is in the inventory, and what came after it is in [S]. *)
Definition kept_since (x : InventoryItem) (S : gset InventoryItem) (b : BoundedInventory) : Prop :=
  exists pre post, inv_order b = pre ++ x :: post /\ (forall y, y ∈ post -> y ∈ S).

Lemma NoDup_size_bound (l : list InventoryItem) (S : gset InventoryItem) :
  NoDup l -> (forall y, y ∈ l -> y ∈ S) -> (length l <= size S)%nat.
Proof.
  intros HN HS. rewrite <- (size_list_to_set (C := gset InventoryItem) l HN). apply subseteq_size.
  intros y Hy. apply HS. by apply elem_of_list_to_set in Hy.
Qed.

Lemma insert_kept x S item b fresh b' :
  inserted item b fresh b' -> kept_since x S b ->
  kept_since x ({[item]} ∪ S) b' \/ (inv_capacity b <= size ({[item]} ∪ S))%nat.
Proof.
  intros (HI & _ & _ & _ & HF) (pre & post & Ho & HS). destruct fresh.
  2: { subst b'. left. exists pre, post. split; [done|set_solver]. }
  destruct HF as (front & rest & Hb & Hb' & Hl). rewrite Ho in Hb. destruct front as [|y [|? ?]]; [| |destruct (_ =? _)%nat; done].
  - left. exists pre, (post ++ [item]). cbn in Hb. rewrite Hb', <- Hb, <- app_assoc. split; [done|set_solver].
  - destruct pre as [|z pre]; cbn in Hb; injection Hb as <- <-.
    + right. destruct (Nat.eqb_spec (length (inv_order b)) (inv_capacity b)) as [<-|]; [|done].
      rewrite Ho. replace (length ([] ++ x :: post)) with (length (post ++ [item])) by (rewrite length_app; cbn; lia).
      apply NoDup_size_bound; [rewrite <- Hb'; apply HI|set_solver].
    + left. exists pre, (post ++ [item]). rewrite Hb', <- app_assoc. split; [done|set_solver].
Qed.

Lemma run_kept x S ops r outs r' :
  relay_ok r -> kept_since x S (recent_relay r) -> relay_run ops r = Some (outs, r') ->
  kept_since x (S ∪ items_of ops) (recent_relay r') \/ (MAX_RECENT_RELAY_CACHE <= size (S ∪ items_of ops))%nat.
Proof.
  revert S r outs. induction ops as [|op ops IH]; intros S r outs HR HK; cbn [relay_run].
  { intros [= <- <-]. left. destruct HK as (pre & post & ? & ?). exists pre, post. split; [done|set_solver]. }
  assert (S ∪ items_of (op :: ops) = (relay_items op ∪ S) ∪ items_of ops) as -> by (unfold items_of; cbn; set_solver).
  destruct (relay_step_ok op r HR) as (out & r1 & Es & HR1). rewrite Es.
  destruct (relay_run ops r1) as [[outs' r2]|] eqn:Er; [|done]. intros [= <- <-].
  assert (kept_since x (relay_items op ∪ S) (recent_relay r1) \/ (MAX_RECENT_RELAY_CACHE <= size (relay_items op ∪ S))%nat) as HX.
  { destruct op as [p item|source peers item]; cbn [relay_step relay_items] in *.
    - destruct (note_peer_spec p item r HR) as (fresh & r' & E & (_ & Hre & _) & _). rewrite E in Es. injection Es as <- <-.
      left. rewrite Hre, union_empty_l_L. done.
    - destruct (relay_inventory_spec source peers item r HR) as (targets & r' & E & (_ & _ & _ & _ & HI)). rewrite E in Es.
      injection Es as <- <-. rewrite <- (ro_recent_capacity _ HR). by eapply insert_kept. }
  destruct HX as [HX|HX]; [by eapply IH|right]. etransitivity; [exact HX|]. apply subseteq_size. set_solver.
Qed.

(** Two announcements of one item are a whole cache apart. *)
Lemma announced_apart r s1 ps1 s2 ps2 item o1 r1 mid outs r2 o2 r3 :
  relay_ok r -> relay_step (OpRelay s1 ps1 item) r = Some (o1, r1) -> o1 <> [] ->
  relay_run mid r1 = Some (outs, r2) -> relay_step (OpRelay s2 ps2 item) r2 = Some (o2, r3) -> o2 <> [] ->
  (MAX_RECENT_RELAY_CACHE <= size (items_of mid))%nat.
Proof.
  intros HR E1 H1 Em E2 H2. cbn [relay_step] in *.
  destruct (relay_inventory_spec s1 ps1 item r HR) as (t1 & r1' & E & (HR1 & _ & HA & _ & HI)). rewrite E in E1. injection E1 as <- <-.
  destruct (Inventory_contains (recent_relay r) item) eqn:Ec; [by rewrite HA in H1|]. cbn [negb] in HI.
  destruct HI as (_ & _ & _ & _ & front & rest & _ & Ho & _).
  destruct (run_kept item ∅ mid r1' outs r2 HR1 ltac:(exists rest, []; split; [done|set_solver]) Em) as [HK|HK];
    rewrite union_empty_l_L in HK; [exfalso|done].
  destruct (relay_run_ok mid r1' HR1) as (? & ? & E' & HR2). rewrite E' in Em. injection Em as -> ->.
  destruct (relay_inventory_spec s2 ps2 item r2 HR2) as (t2 & r3' & E3 & (_ & _ & HA2 & _)). rewrite E3 in E2. injection E2 as <- <-.
  rewrite HA2 in H2; [done|]. unfold Inventory_contains. apply bool_decide_eq_true, (io_members _ (ro_recent _ HR2)).
  destruct HK as (pre & post & -> & _). set_solver.
Qed.

(** C34: relaying is bounded and announces an object once.  Whatever peers
    report and whatever is relayed, nothing panics, the inventory kept for a
    peer and the cache of recent relays stay within 8,192 and 65,536 items;
    a relay announces only its own object, once to each of the peers listed
    other than its source that are not known to have it, after which all of
    them are; and between two relays of one object that announce it to anyone
    at least 65,536 other objects were relayed. *)
Theorem relay_announces_once (ops : list RelayOp) :
  exists outs r, relay_run ops RelayState_default = Some (outs, r) /\
    (length (inv_order (recent_relay r)) <= MAX_RECENT_RELAY_CACHE)%nat /\
    (forall p b, known_by_peer r !! p = Some b -> (length (inv_order b) <= MAX_KNOWN_INVENTORY_PER_PEER)%nat) /\
    (forall source peers item, exists targets r',
       relay_inventory source peers (MkValidatedRelay item) r = Some (announcements item targets, r') /\
       relayed source peers item r targets r') /\
    (forall pre s1 ps1 item mid s2 ps2 post o1 o2,
       ops = pre ++ OpRelay s1 ps1 item :: mid ++ OpRelay s2 ps2 item :: post ->
       outs !! length pre = Some o1 -> o1 <> [] ->
       outs !! (length pre + S (length mid))%nat = Some o2 -> o2 <> [] ->
       (MAX_RECENT_RELAY_CACHE <= size (items_of mid))%nat).
Proof.
  destruct (relay_run_ok ops _ relay_ok_default) as (outs & r & Er & HR). exists outs, r. split_and!; [done| | | |].
  - pose proof (io_bound _ (ro_recent _ HR)) as HB. by rewrite (ro_recent_capacity _ HR) in HB.
  - intros p b Hb. destruct (ro_known _ HR p b Hb) as [HI Hc]. pose proof (io_bound _ HI) as HB. by rewrite Hc in HB.
  - intros source peers item. by apply relay_inventory_spec.
  - intros pre s1 ps1 item mid s2 ps2 post o1 o2 -> H1 N1 H2 N2.
    destruct (relay_run_app pre (OpRelay s1 ps1 item :: mid ++ OpRelay s2 ps2 item :: post) _ relay_ok_default)
      as (outs1 & r1 & outs2 & r2 & _ & HR1 & Hl & E2 & _ & E). rewrite E in Er. injection Er as <- <-. clear E.
    cbn [relay_run] in E2. destruct (relay_step _ r1) as [[x1 r3]|] eqn:Es1; [|done].
    destruct (relay_step_ok (OpRelay s1 ps1 item) r1 HR1) as (? & ? & Es1' & HR3). rewrite Es1 in Es1'. injection Es1' as <- <-.
    destruct (relay_run_app mid (OpRelay s2 ps2 item :: post) r3 HR3) as (outs3 & r4 & outs4 & r5 & Em & HR4 & Hl3 & E4 & _ & E).
    rewrite E in E2. injection E2 as <- <-. clear E. cbn [relay_run] in E4.
    destruct (relay_step _ r4) as [[x2 r6]|] eqn:Es2; [|done]. destruct (relay_run post r6) as [[? ?]|]; [|done]. injection E4 as <- <-.
    rewrite (list_lookup_middle outs1) in H1 by done. injection H1 as ->.
    rewrite app_comm_cons, app_assoc, (list_lookup_middle (outs1 ++ o1 :: outs3)) in H2 by (rewrite length_app; cbn; lia).
    injection H2 as ->.
    by eapply (announced_apart r1 s1 ps1 s2 ps2 item).
Qed.
