(* ===== verification/NodeCore.v ===== *)
(** The node: [oregon-node/src/core.rs], [orchestration.rs] and the submissions
    of [lib.rs], and its connections of [network.rs].  One worker owns the chain state and the pool and takes
    commands from a queue that is bounded in entries and in bytes; any number
    of clients send to it and wait for their answers. *)
From S2P Require Import Prelude Encoding Transaction Block Difficulty Utxo MempoolGraph Mempool.
From S2P Require Import Records StoreSpec ChainState Protocol Sync ChainRecovery.
From S2P Require Import Framing PeerPolicy PeerBudget Handshake PeerService Relay.

Module NodeQueueError.
Inductive t : Type := ByteBudgetExhausted | QueueFull | Closed | HeaderBatchTooLarge.
End NodeQueueError.

Module NodeTransactionError.
Inductive t : Type := Unavailable (health : SessionHealth) | FromMempool (e : MempoolError.t).
End NodeTransactionError.

Definition MAX_CORE_COMMANDS : nat := 64.
Definition MAX_CORE_COMMAND_BYTES : Z := 8 * 1024 * 1024.
Definition HEADER_VALIDATION_SLICE : nat := 16.
Definition CORE_READ_COMMAND_BYTES : Z := 1.

(** ** The asynchronous runtime *)

(** What the node uses of tokio: a bounded channel with one receiver, whose
    sends fail at once when it is full or its receiver is gone, and a counting
    semaphore whose permits come back when they are dropped. *)
Inductive TrySendError : Type := SendFull | SendClosed.

Class Tokio : Type := {
  mpsc : Type -> Type;
  mpsc_channel : forall A, nat -> mpsc A;
  mpsc_try_send : forall {A}, A -> mpsc A -> option TrySendError * mpsc A;
  mpsc_recv : forall {A}, mpsc A -> option (A * mpsc A);
  semaphore : Type;
  semaphore_new : Z -> semaphore;
  try_acquire_many : Z -> semaphore -> option semaphore;
  semaphore_release : Z -> semaphore -> semaphore;
}.

Class TokioLaws `{Tokio} : Type := {
  waiting : forall {A}, mpsc A -> list A;
  bound_of : forall {A}, mpsc A -> nat;
  receiving : forall {A}, mpsc A -> bool;
  available : semaphore -> Z;
  law_channel A n :
    waiting (mpsc_channel A n) = [] /\ bound_of (mpsc_channel A n) = n /\ receiving (mpsc_channel A n) = true;
  law_send A (a : A) c :
    let '(e, c') := mpsc_try_send a c in
    bound_of c' = bound_of c /\ receiving c' = receiving c /\
    match e with
    | None => (length (waiting c) < bound_of c)%nat /\ waiting c' = waiting c ++ [a]
    | Some SendFull => (bound_of c <= length (waiting c))%nat /\ waiting c' = waiting c
    | Some SendClosed => receiving c = false /\ waiting c' = waiting c
    end;
  law_recv A (c : mpsc A) :
    match mpsc_recv c with
    | Some (a, c') => waiting c = a :: waiting c' /\ bound_of c' = bound_of c /\ receiving c' = receiving c
    | None => waiting c = []
    end;
  law_semaphore n : available (semaphore_new n) = n;
  law_acquire n s :
    match try_acquire_many n s with
    | Some s' => n <= available s /\ available s' = available s - n
    | None => available s < n
    end;
  law_release n s : available (semaphore_release n s) = available s + n;
}.

(** ** Commands and answers *)

Inductive CoreCommand : Type :=
| CoreHeaders (headers : list BlockHeader)
| CoreBlock (block : Block)
| CoreTransaction (transaction : Transaction)
| CoreActiveTip
| CorePreferredHeaderTip
| CoreActiveIdAtHeight (height : Z)
| CorePreferredHeaderIdAtHeight (height : Z)
| CorePreferredHeaderAtHeight (height : Z)
| CoreBodyRetained (block_id : Hash256).

(** What the [oneshot] channel of a command carries. *)
Inductive CoreResponse : Type :=
| AnsHeaders (results : list (result ChainStateError.t HeaderImportOutcome))
| AnsBlock (r : result ChainStateError.t AcceptOutcome)
| AnsTransaction (r : result NodeTransactionError.t AdmissionOutcome)
| AnsTip (tip : Hash256 * Z)
| AnsId (r : result ChainStateError.t (option Hash256))
| AnsHeader (r : result ChainStateError.t (option BlockHeader))
| AnsRetained (r : result ChainStateError.t bool).

(** A queued command: the client that waits for the answer and the bytes of
    its permit. *)
Record CoreEnvelope : Type := MkEnvelope { env_command : CoreCommand; env_client : nat; env_bytes : Z }.

(** The bytes a command is charged. *)
Definition command_bytes (c : CoreCommand) : Z :=
  match c with
  | CoreHeaders headers => foldr (fun h n => Z.of_nat (length (BlockHeader_encode h)) + n) 0 headers
  | CoreBlock block => Z.of_nat (length (Block_encode block))
  | CoreTransaction tx => Z.of_nat (length (Transaction_encode tx))
  | _ => CORE_READ_COMMAND_BYTES
  end.

(** ** The worker *)

Record NodeCore (DB : Type) : Type := MkNodeCore {
  nc_state : ChainState DB;
  nc_mempool : Mempool;
  nc_saved_config : MempoolConfig;
}.
Arguments MkNodeCore {DB}.
Arguments nc_state {DB}.
Arguments nc_mempool {DB}.
Arguments nc_saved_config {DB}.

Section Worker.
Context `{Blake3} {DB : Type} `{!BlockStore DB} `{!RandomX} {V : Type} `{!SpendVerifier V}.

Definition chain_base (state : ChainState DB) : ChainBase :=
  MkChainBase (ChainState.tip_id (cs_tip state)) (ct_height (cs_tip state)).

(** [None] is a panic of the [expect]. *)
Definition recover_reconciliation_failure (saved_config : MempoolConfig) (new_base : ChainBase)
    (r : result MempoolError.t ReconcileReport) (pool : Mempool) : option (bool * Mempool) :=
  match r with
  | Ok _ => Some (false, pool)
  | Err _ => match Mempool_new new_base saved_config with Ok fresh => Some (true, fresh) | Err _ => None end
  end.

Definition reconcile_after_acceptance (saved_config : MempoolConfig) (outcome : AcceptOutcome) (block : Block)
    (new_base : ChainBase) (chain_utxos : UtxoState) (verifier : V) (pool : Mempool) : option (bool * Mempool) :=
  match outcome with
  | StoredSideChain => Some (false, pool)
  | Extended =>
      let '(r, pool') := reconcile_active_block block new_base chain_utxos verifier pool in
      recover_reconciliation_failure saved_config new_base r pool'
  | Reorganized =>
      let '(r, pool') := reconcile_reorg new_base chain_utxos verifier pool in
      recover_reconciliation_failure saved_config new_base r pool'
  end.

Fixpoint accept_headers (headers : list BlockHeader) (state : ChainState DB)
  : list (result ChainStateError.t HeaderImportOutcome) * ChainState DB :=
  match headers with
  | [] => ([], state)
  | h :: headers =>
      let '(r, state') := accept_header h state in
      let '(rs, state'') := accept_headers headers state' in
      (r :: rs, state'')
  end.

(** One round of the loop of [run_core]. *)
Definition run_command (verifier : V) (command : CoreCommand) (core : NodeCore DB)
  : option (CoreResponse * NodeCore DB) :=
  let state := nc_state core in
  let pool := nc_mempool core in
  let saved := nc_saved_config core in
  match command with
  | CoreHeaders headers =>
      let '(results, state') := accept_headers headers state in
      Some (AnsHeaders results, MkNodeCore state' pool saved)
  | CoreBlock block =>
      let '(r, state') := accept_block block verifier state in
      match r with
      | Ok outcome =>
          match reconcile_after_acceptance saved outcome block (chain_base state') (cs_utxos state') verifier pool with
          | None => None
          | Some (_, pool') => Some (AnsBlock r, MkNodeCore state' pool' saved)
          end
      | Err _ => Some (AnsBlock r, MkNodeCore state' pool saved)
      end
  | CoreTransaction tx =>
      match cs_session state with
      | SessionHealthy =>
          let '(r, pool') := Mempool_admit tx (chain_base state) (cs_utxos state) verifier pool in
          Some (AnsTransaction (map_err NodeTransactionError.FromMempool r), MkNodeCore state pool' saved)
      | health => Some (AnsTransaction (Err (NodeTransactionError.Unavailable health)), core)
      end
  | CoreActiveTip => Some (AnsTip (ChainState.tip_id (cs_tip state), ct_height (cs_tip state)), core)
  | CorePreferredHeaderTip => Some (AnsTip (htip_id (cs_header_tip state), htip_height (cs_header_tip state)), core)
  | CoreActiveIdAtHeight height => Some (AnsId (ChainState_active_id_at_height state height), core)
  | CorePreferredHeaderIdAtHeight height => Some (AnsId (preferred_header_id_at_height state height), core)
  | CorePreferredHeaderAtHeight height => Some (AnsHeader (preferred_header_at_height state height), core)
  | CoreBodyRetained id => Some (AnsRetained (ChainState_body_retained state id), core)
  end.

(** The loop on the commands it receives. *)
Fixpoint run_core (verifier : V) (commands : list CoreCommand) (core : NodeCore DB)
  : option (list CoreResponse * NodeCore DB) :=
  match commands with
  | [] => Some ([], core)
  | command :: commands =>
      match run_command verifier command core with
      | None => None
      | Some (answer, core') =>
          match run_core verifier commands core' with
          | None => None
          | Some (answers, core'') => Some (answer :: answers, core'')
          end
      end
  end.

End Worker.

(** ** The queue *)

Section Queue.
Context `{Tokio}.

Record CoreHandle : Type := MkHandle { ch_tx : mpsc CoreEnvelope; ch_bytes : semaphore }.

Definition core_channel : CoreHandle :=
  MkHandle (mpsc_channel CoreEnvelope MAX_CORE_COMMANDS) (semaphore_new MAX_CORE_COMMAND_BYTES).

Definition try_acquire_bytes (bytes : Z) : eff CoreHandle NodeQueueError.t unit := fun h =>
  if bytes >? MAX_CORE_COMMAND_BYTES then (Err NodeQueueError.ByteBudgetExhausted, h)
  else match try_acquire_many bytes (ch_bytes h) with
       | None => (Err NodeQueueError.ByteBudgetExhausted, h)
       | Some s => (Ok tt, MkHandle (ch_tx h) s)
       end.

(** When the channel refuses the envelope, its permit is dropped with it. *)
Definition try_send (command : CoreCommand) (client : nat) (bytes : Z) : eff CoreHandle NodeQueueError.t unit :=
  let! _ := try_acquire_bytes bytes in
  fun h =>
    match mpsc_try_send (MkEnvelope command client bytes) (ch_tx h) with
    | (None, c) => (Ok tt, MkHandle c (ch_bytes h))
    | (Some SendFull, c) => (Err NodeQueueError.QueueFull, MkHandle c (semaphore_release bytes (ch_bytes h)))
    | (Some SendClosed, c) => (Err NodeQueueError.Closed, MkHandle c (semaphore_release bytes (ch_bytes h)))
    end.

(** The part of [submit_headers], [submit_block], [submit_transaction] and of
    the reads before the answer is awaited. *)
Definition core_submit (command : CoreCommand) (client : nat) : eff CoreHandle NodeQueueError.t unit :=
  match command with
  | CoreHeaders headers =>
      if (HEADER_VALIDATION_SLICE <? length headers)%nat then eff_fail NodeQueueError.HeaderBatchTooLarge
      else try_send command client (command_bytes command)
  | _ => try_send command client (command_bytes command)
  end.

End Queue.

(** ** Connections *)

Module NodeNetworkError.
Inductive t : Type := FromNetwork (e : NetworkError.t) | FromPeer (e : PeerError.t).
End NodeNetworkError.

Record NodeConfig : Type := MkNodeConfig {
  listen_addr : SocketAddr;
  bootstrap_peers : list SocketAddr;
  node_peer : PeerConfig;
  node_mempool : MempoolConfig;
}.

(** The listener, and the configuration and greeting of the peer service; the
    state that service shares with its sessions is [ServiceState]. *)
Record NodeNetwork (L : Type) : Type := MkNodeNetwork {
  nn_listener : L;
  nn_config : PeerConfig;
  nn_hello : Hello;
  nn_magic : arr 4;
}.
Arguments MkNodeNetwork {L}.
Arguments nn_listener {L}.
Arguments nn_config {L}.
Arguments nn_hello {L}.
Arguments nn_magic {L}.

Definition PeerService_new (config : PeerConfig) : result PeerError.t (PeerConfig * ServiceState) :=
  let? config := PeerConfig_new (max_peers config) (max_outbound config) (max_inbound config) in
  Ok (config, MkService Registry_new GlobalQueueBudget_new ∅).

(** [listener] is what the transport's [bind] returns. *)
Definition NodeNetwork_bind {L} (listener : result NetworkError.t L) (config : NodeConfig) (hello : Hello) (magic : arr 4)
  : result NodeNetworkError.t (NodeNetwork L * ServiceState) :=
  let? listener := map_err NodeNetworkError.FromNetwork listener in
  let? (peer, service) := map_err NodeNetworkError.FromPeer (PeerService_new (node_peer config)) in
  Ok (MkNodeNetwork listener peer hello magic, service).

Section Connections.
Context `{Blake3} `{TransportConnection C} {L : Type}.

(** [dial] is what the transport's [connect] does for an address and a magic. *)
Definition NodeNetwork_connect (net : NodeNetwork L) (addr : SocketAddr) (dial : SocketAddr -> arr 4 -> result NetworkError.t C)
    (deadline budget : nat) (now : Z) : eff ServiceState NodeNetworkError.t (EstablishOutcome (C := C)) :=
  eff_map_err NodeNetworkError.FromPeer
    (PeerService.connect (nn_config net) (nn_hello net) addr (dial addr (nn_magic net)) deadline budget now).

(** [incoming] is what the listener's [accept] returns, with the address. *)
Definition NodeNetwork_accept (net : NodeNetwork L) (incoming : result NetworkError.t (C * SocketAddr))
    (deadline budget : nat) (now : Z) : eff ServiceState NodeNetworkError.t (EstablishOutcome (C := C)) :=
  let! connection := eff_lift (map_err NodeNetworkError.FromNetwork incoming) in
  eff_map_err NodeNetworkError.FromPeer
    (accept_connection (nn_config net) (nn_hello net) connection.1 connection.2 deadline budget now).

End Connections.

(** ** Clients and worker together *)

Section System.
Context `{Blake3} `{Tokio} {DB : Type} `{!BlockStore DB} `{!RandomX} {V : Type} `{!SpendVerifier V}.

(** The envelope the worker has received and not yet dropped, and the answers
    it has sent, in order. *)
Record NodeSystem : Type := MkSystem {
  sys_handle : CoreHandle;
  sys_working : option CoreEnvelope;
  sys_core : NodeCore DB;
  sys_answers : list (nat * CoreResponse);
}.

Definition spawn_core (state : ChainState DB) (saved_config : MempoolConfig) : result MempoolError.t NodeSystem :=
  let? mempool := Mempool_new (chain_base state) saved_config in
  Ok (MkSystem core_channel None (MkNodeCore state mempool saved_config) []).

(** The worker receives an envelope, and finishes it: the answer is sent and
    the permit comes back. *)
Definition worker_receive (s : NodeSystem) : option NodeSystem :=
  match sys_working s with
  | Some _ => None
  | None =>
      match mpsc_recv (ch_tx (sys_handle s)) with
      | None => None
      | Some (env, c) => Some (MkSystem (MkHandle c (ch_bytes (sys_handle s))) (Some env) (sys_core s) (sys_answers s))
      end
  end.

Definition worker_finish (verifier : V) (s : NodeSystem) : option NodeSystem :=
  match sys_working s with
  | None => None
  | Some env =>
      match run_command verifier (env_command env) (sys_core s) with
      | None => None
      | Some (answer, core) =>
          Some (MkSystem (MkHandle (ch_tx (sys_handle s)) (semaphore_release (env_bytes env) (ch_bytes (sys_handle s))))
                  None core (sys_answers s ++ [(env_client env, answer)]))
      end
  end.

Definition client_submit (command : CoreCommand) (client : nat) : eff NodeSystem NodeQueueError.t unit := fun s =>
  let '(r, h) := core_submit command client (sys_handle s) in
  (r, MkSystem h (sys_working s) (sys_core s) (sys_answers s)).

(** ** The calls of [OregonNode] *)

(** The worker until nothing waits: each round receives and finishes one
    envelope. *)
Fixpoint worker_loop (verifier : V) (fuel : nat) (s : NodeSystem) : option NodeSystem :=
  match fuel with
  | O => Some s
  | S fuel =>
      match worker_receive s with
      | None => Some s
      | Some s1 =>
          match worker_finish verifier s1 with
          | None => None
          | Some s2 => worker_loop verifier fuel s2
          end
      end
  end.

(** Submit and await the answer while no other client interferes: the worker
    handles what waits, and the last answer is the one awaited.  A worker that
    is gone drops the sender, which the client sees as [Closed]. *)
Definition core_call (verifier : V) (client : nat) (command : CoreCommand)
  : eff NodeSystem NodeQueueError.t CoreResponse :=
  let! _ := client_submit command client in
  fun s =>
    match worker_loop verifier (S MAX_CORE_COMMANDS) s with
    | None => (Err NodeQueueError.Closed, s)
    | Some s' =>
        match last (sys_answers s') with
        | Some (_, answer) => (Ok answer, s')
        | None => (Err NodeQueueError.Closed, s')
        end
    end.

(** The slices of [submit_headers]; each takes at least one header. *)
Fixpoint header_slices (fuel : nat) (headers : list BlockHeader) : list (list BlockHeader) :=
  match fuel, take HEADER_VALIDATION_SLICE headers with
  | S fuel, (_ :: _) as slice => slice :: header_slices fuel (drop HEADER_VALIDATION_SLICE headers)
  | _, _ => []
  end.

Fixpoint submit_slices (verifier : V) (client : nat) (slices : list (list BlockHeader))
  : eff NodeSystem NodeQueueError.t (list (result ChainStateError.t HeaderImportOutcome)) :=
  match slices with
  | [] => eff_ret []
  | slice :: slices =>
      let! answer := core_call verifier client (CoreHeaders slice) in
      let! rest := submit_slices verifier client slices in
      eff_ret ((match answer with AnsHeaders results => results | _ => [] end) ++ rest)
  end.

Definition OregonNode_submit_headers (verifier : V) (client : nat) (headers : list BlockHeader)
  : eff NodeSystem NodeQueueError.t (list (result ChainStateError.t HeaderImportOutcome)) :=
  submit_slices verifier client (header_slices (length headers) headers).

Record BlockSubmission : Type := MkBlockSubmission {
  bsub_result : result ChainStateError.t AcceptOutcome;
  bsub_relay : option ValidatedRelay;
}.

Record TransactionSubmission : Type := MkTransactionSubmission {
  tsub_result : result NodeTransactionError.t AdmissionOutcome;
  tsub_relay : option ValidatedRelay;
}.

(** The channel of a command carries answers of its own type; the other cases
    do not occur. *)
Definition OregonNode_submit_block (verifier : V) (client : nat) (block : Block)
  : eff NodeSystem NodeQueueError.t BlockSubmission :=
  let! answer := core_call verifier client (CoreBlock block) in
  match answer with
  | AnsBlock r => eff_ret (MkBlockSubmission r (validated_relay InvBlock (block_id (header block)) r))
  | _ => eff_fail NodeQueueError.Closed
  end.

Definition OregonNode_submit_transaction (verifier : V) (client : nat) (transaction : Transaction)
  : eff NodeSystem NodeQueueError.t TransactionSubmission :=
  let! answer := core_call verifier client (CoreTransaction transaction) in
  match answer with
  | AnsTransaction r => eff_ret (MkTransactionSubmission r (validated_relay InvTransaction (Transaction_txid transaction) r))
  | _ => eff_fail NodeQueueError.Closed
  end.

End System.
Arguments NodeSystem {_} DB.
