(* ===== verification/NodeProps.v ===== *)
(** What the node guarantees: the queue makes the worker a sequential machine
    for all its clients, and the pool always sits on the chain. *)
From S2P Require Import Prelude Encoding Transaction Block Difficulty HeaderRules BlockRules Utxo Ledger Fresh.
From S2P Require Import MapSum MempoolGraph Mempool MempoolReplay MempoolAdmit MempoolCommit MempoolPolicy MempoolProps.
From S2P Require Import Records StoreSpec ChainState Protocol Sync ChainRecovery Scheduler.
From S2P Require Import ChainInv ChainProofs ChainReorg ChainOpen ChainProps.
From S2P Require Import PeerPolicy PeerService Relay NodeCore.

(** ** The queue *)

Section Queue.
Context `{Blake3} `{TokioLaws} {DB : Type} `{!BlockStore DB} `{!RandomX} {V : Type} `{!SpendVerifier V}.
Variable verifier : V.

Lemma run_core_app a b (core : NodeCore DB) :
  run_core verifier (a ++ b) core =
    match run_core verifier a core with
    | None => None
    | Some (xs, core1) =>
        match run_core verifier b core1 with None => None | Some (ys, core2) => Some (xs ++ ys, core2) end
    end.
Proof.
  revert core. induction a as [|c a IH]; intros core; cbn [app run_core].
  - by destruct (run_core verifier b core) as [[? ?]|].
  - destruct (run_command verifier c core) as [[x core1]|]; [|done]. rewrite IH.
    destruct (run_core verifier a core1) as [[xs core2]|]; [|done]. by destruct (run_core verifier b core2) as [[ys core3]|].
Qed.

Lemma run_core_length commands (core : NodeCore DB) answers core' :
  run_core verifier commands core = Some (answers, core') -> length answers = length commands.
Proof.
  revert core answers. induction commands as [|c commands IH]; intros core answers; cbn [run_core].
  { by intros [= <- <-]. }
  destruct (run_command verifier c core) as [[x core1]|]; [|done].
  destruct (run_core verifier commands core1) as [[xs core2]|] eqn:E; [|done]. intros [= <- <-]. cbn. by rewrite (IH _ _ E).
Qed.

Lemma command_bytes_nonneg c : 0 <= command_bytes c.
Proof.
  destruct c as [headers| | | | | | | |]; cbn [command_bytes]; unfold CORE_READ_COMMAND_BYTES; try lia.
  induction headers as [|h headers IH]; cbn [foldr]; lia.
Qed.

(** The envelopes that hold permits: the one being handled and those that wait. *)
Definition in_flight (s : NodeSystem DB) : list CoreEnvelope :=
  option_list (sys_working s) ++ waiting (ch_tx (sys_handle s)).
Definition held (l : list CoreEnvelope) : Z := foldr (fun e n => env_bytes e + n) 0 l.
Definition sent_by (e : CoreEnvelope) : nat * CoreCommand := (env_client e, env_command e).

Lemma held_app l1 l2 : held (l1 ++ l2) = held l1 + held l2.
Proof. unfold held. induction l1 as [|e l1 IH]; cbn; lia. Qed.

Record queue_ok (s : NodeSystem DB) : Prop := MkQueueOk {
  qo_bound : bound_of (ch_tx (sys_handle s)) = MAX_CORE_COMMANDS;
  qo_alive : receiving (ch_tx (sys_handle s)) = true;
  qo_count : (length (waiting (ch_tx (sys_handle s))) <= MAX_CORE_COMMANDS)%nat;
  qo_bytes : available (ch_bytes (sys_handle s)) + held (in_flight s) = MAX_CORE_COMMAND_BYTES;
  qo_free : 0 <= available (ch_bytes (sys_handle s));
  qo_true : Forall (fun e => env_bytes e = command_bytes (env_command e)) (in_flight s);
}.

(** What sending does: it is all or nothing. *)
Lemma try_send_spec command client bytes h r h' :
  0 <= bytes -> 0 <= available (ch_bytes h) -> try_send command client bytes h = (r, h') ->
  bound_of (ch_tx h') = bound_of (ch_tx h) /\ receiving (ch_tx h') = receiving (ch_tx h) /\
  match r with
  | Ok _ => waiting (ch_tx h') = waiting (ch_tx h) ++ [MkEnvelope command client bytes] /\
            (length (waiting (ch_tx h)) < bound_of (ch_tx h))%nat /\
            available (ch_bytes h') = available (ch_bytes h) - bytes /\ 0 <= available (ch_bytes h')
  | Err _ => waiting (ch_tx h') = waiting (ch_tx h) /\ available (ch_bytes h') = available (ch_bytes h)
  end.
Proof.
  intros Hb Hf. unfold try_send, try_acquire_bytes, eff_bind. destruct (_ >? _); [by intros [= <- <-]|].
  pose proof (law_acquire bytes (ch_bytes h)) as HA. destruct (try_acquire_many bytes (ch_bytes h)) as [sem|]; [|by intros [= <- <-]].
  destruct HA as [HA1 HA2]. cbn [ch_tx ch_bytes].
  pose proof (law_send _ (MkEnvelope command client bytes) (ch_tx h)) as HS.
  destruct (mpsc_try_send _ (ch_tx h)) as [[[]|] c]; destruct HS as (S1 & S2 & S3 & S4);
    intros [= <- <-]; cbn [ch_tx ch_bytes]; rewrite ?law_release, ?HA2; split_and!; try done; lia.
Qed.

Lemma core_submit_spec command client h r h' :
  0 <= available (ch_bytes h) -> core_submit command client h = (r, h') ->
  (exists hs, command = CoreHeaders hs /\ (HEADER_VALIDATION_SLICE < length hs)%nat /\
     r = Err NodeQueueError.HeaderBatchTooLarge /\ h' = h) \/
  try_send command client (command_bytes command) h = (r, h').
Proof.
  intros Hf. destruct command as [hs| | | | | | | |]; cbn [core_submit]; try (by right).
  destruct (Nat.ltb_spec HEADER_VALIDATION_SLICE (length hs)) as [Hl|Hl]; [|by right]. intros [= <- <-]. left. eauto.
Qed.

Lemma submit_spec command client (s : NodeSystem DB) r s' :
  queue_ok s -> client_submit command client s = (r, s') ->
  queue_ok s' /\ sys_core s' = sys_core s /\ sys_answers s' = sys_answers s /\
  in_flight s' = in_flight s ++ match r with Ok _ => [MkEnvelope command client (command_bytes command)] | Err _ => [] end.
Proof.
  intros HQ. unfold client_submit. destruct (core_submit command client (sys_handle s)) as [r0 h] eqn:E. intros [= <- <-].
  destruct HQ as [Q1 Q2 Q3 Q4 Q5 Q6].
  apply core_submit_spec in E as [(hs & -> & _ & -> & ->)|E]; [|apply try_send_spec in E as (B1 & B2 & B3); [|apply command_bytes_nonneg|done]|done].
  - destruct s. cbn in *. rewrite app_nil_r. split_and!; try done.
  - destruct r0 as [[]|e].
    + destruct B3 as (B3 & B4 & B5 & B6). assert (in_flight (MkSystem h (sys_working s) (sys_core s) (sys_answers s)) =
        in_flight s ++ [MkEnvelope command client (command_bytes command)]) as EF.
      { unfold in_flight. cbn [sys_working sys_handle]. by rewrite B3, app_assoc. }
      split_and!; [|done..]. split; rewrite ?EF, ?held_app; cbn [sys_handle]; try congruence.
      * rewrite B3, length_app. cbn. lia.
      * cbn. lia.
      * apply Forall_app. split; [done|]. by apply Forall_singleton.
    + destruct B3 as [B3 B4]. assert (in_flight (MkSystem h (sys_working s) (sys_core s) (sys_answers s)) = in_flight s) as EF.
      { unfold in_flight. cbn [sys_working sys_handle]. by rewrite B3. }
      rewrite app_nil_r. split_and!; [|done..]. split; rewrite ?EF; cbn [sys_handle]; congruence.
Qed.

Lemma receive_spec (s s' : NodeSystem DB) :
  queue_ok s -> worker_receive s = Some s' ->
  queue_ok s' /\ in_flight s' = in_flight s /\ sys_core s' = sys_core s /\ sys_answers s' = sys_answers s.
Proof.
  intros [Q1 Q2 Q3 Q4 Q5 Q6]. unfold worker_receive. destruct (sys_working s) eqn:Ew; [done|].
  pose proof (law_recv _ (ch_tx (sys_handle s))) as HR. destruct (mpsc_recv (ch_tx (sys_handle s))) as [[env c]|]; [|done].
  destruct HR as (HR1 & HR2 & HR3). intros [= <-].
  assert (in_flight (MkSystem (MkHandle c (ch_bytes (sys_handle s))) (Some env) (sys_core s) (sys_answers s)) = in_flight s) as EF.
  { unfold in_flight. rewrite Ew, HR1. done. }
  split_and!; [|done..]. split; rewrite ?EF; cbn [sys_handle ch_tx ch_bytes]; try congruence.
  rewrite HR1 in Q3. cbn in Q3. lia.
Qed.

Lemma finish_spec (s s' : NodeSystem DB) :
  queue_ok s -> worker_finish verifier s = Some s' ->
  exists env answer, in_flight s = env :: in_flight s' /\ queue_ok s' /\
    run_command verifier (env_command env) (sys_core s) = Some (answer, sys_core s') /\
    sys_answers s' = sys_answers s ++ [(env_client env, answer)].
Proof.
  intros [Q1 Q2 Q3 Q4 Q5 Q6]. unfold worker_finish. destruct (sys_working s) as [env|] eqn:Ew; [|done].
  destruct (run_command verifier (env_command env) (sys_core s)) as [[answer core]|] eqn:Er; [|done]. intros [= <-].
  exists env, answer. unfold in_flight in *. rewrite Ew in *. cbn [option_list app] in *. split_and!; [done| |done..].
  apply Forall_cons in Q6 as [Q6 Q7]. pose proof (command_bytes_nonneg (env_command env)). rewrite held_app in Q4. change (held (option_list (Some env))) with (env_bytes env + 0) in Q4.
  split; unfold in_flight; cbn [sys_handle sys_working ch_tx ch_bytes]; change (option_list (@None CoreEnvelope)) with (@nil CoreEnvelope);
    rewrite ?law_release; cbn [app]; try done; lia.
Qed.

(** The runs of a node: any client sends at any time, the worker receives and
    finishes; [sent] lists what was queued, in order. *)
Inductive node_runs (s0 : NodeSystem DB) : list (nat * CoreCommand) -> NodeSystem DB -> Prop :=
| nr_start : node_runs s0 [] s0
| nr_submit sent s command client r s' :
    node_runs s0 sent s -> client_submit command client s = (r, s') ->
    node_runs s0 (sent ++ match r with Ok _ => [(client, command)] | Err _ => [] end) s'
| nr_receive sent s s' : node_runs s0 sent s -> worker_receive s = Some s' -> node_runs s0 sent s'
| nr_finish sent s s' : node_runs s0 sent s -> worker_finish verifier s = Some s' -> node_runs s0 sent s'.

Lemma spawn_queue_ok st config s0 :
  spawn_core st config = Ok s0 -> queue_ok s0 /\ in_flight s0 = [] /\ sys_answers s0 = [].
Proof.
  unfold spawn_core. destruct (Mempool_new _ config) as [pool|]; [|done]. intros [= <-].
  destruct (law_channel CoreEnvelope MAX_CORE_COMMANDS) as (L1 & L2 & L3).
  assert (in_flight (MkSystem core_channel None (MkNodeCore st pool config) []) = []) as EF.
  { unfold in_flight, core_channel. cbn [sys_working sys_handle ch_tx]. by rewrite L1. }
  split_and!; [|done..]. split; rewrite ?EF; unfold core_channel; cbn [sys_handle ch_tx ch_bytes]; rewrite ?law_semaphore, ?L1;
    try done; cbn; unfold MAX_CORE_COMMAND_BYTES; lia.
Qed.

(** What was answered, and what was sent and is still in flight. *)
Definition linear (s0 : NodeSystem DB) (sent : list (nat * CoreCommand)) (s : NodeSystem DB) : Prop :=
  exists answered answers, sent = answered ++ map sent_by (in_flight s) /\
    run_core verifier answered.*2 (sys_core s0) = Some (answers, sys_core s) /\
    sys_answers s = zip answered.*1 answers.

Lemma zip_snoc {A B} (l : list A) (k : list B) a b : length l = length k -> zip (l ++ [a]) (k ++ [b]) = zip l k ++ [(a, b)].
Proof. revert k. induction l as [|x l IH]; intros [|y k] Hl; try done. cbn. f_equal. apply IH. by injection Hl. Qed.

Lemma linear_finish s0 sent s s' :
  queue_ok s -> linear s0 sent s -> worker_finish verifier s = Some s' -> linear s0 sent s'.
Proof.
  intros HQ (answered & answers & -> & HR & HA) HF.
  destruct (finish_spec _ _ HQ HF) as (env & answer & EF & _ & Er & EA).
  exists (answered ++ [sent_by env]), (answers ++ [answer]). rewrite EF, !fmap_app, run_core_app, HR.
  cbn [fmap list_fmap run_core sent_by fst snd]. rewrite Er. split_and!; [cbn [map]; by rewrite <- app_assoc|done|].
  rewrite EA, HA, zip_snoc; [done|]. rewrite (run_core_length _ _ _ _ HR), !length_fmap. done.
Qed.

Lemma node_runs_linear st config s0 sent s :
  spawn_core st config = Ok s0 -> node_runs s0 sent s -> queue_ok s /\ linear s0 sent s.
Proof.
  intros HS. destruct (spawn_queue_ok _ _ _ HS) as (HQ0 & HF0 & HA0).
  induction 1 as [|sent s command client r s' _ [HQ HL] E|sent s s' _ [HQ HL] E|sent s s' _ [HQ HL] E].
  - split; [done|]. exists [], []. rewrite HF0, HA0. done.
  - destruct (submit_spec _ _ _ _ _ HQ E) as (HQ' & HC & HA & HF). split; [done|].
    destruct HL as (answered & answers & -> & HR & HA'). exists answered, answers. rewrite HF, map_app, app_assoc, HC, HA.
    split_and!; [|done..]. by destruct r.
  - destruct (receive_spec _ _ HQ E) as (HQ' & HF & HC & HA). split; [done|]. unfold linear. by rewrite HF, HC, HA.
  - split; [by destruct (finish_spec _ _ HQ E) as (? & ? & _ & ? & _)|by eapply linear_finish].
Qed.

Lemma held_commands l :
  Forall (fun e => env_bytes e = command_bytes (env_command e)) l ->
  held l = foldr (fun c n => command_bytes c + n) 0 (map env_command l).
Proof. induction 1 as [|e l He _ IH]; cbn; [done|]. rewrite <- IH, <- He. done. Qed.

(** C7: the node is one sequential machine for all its clients.  However the
    clients' submissions and the worker's steps interleave, the commands
    accepted are answered in the order in which they were queued: the chain
    state, the pool and every answer are those of the worker's loop run on the
    answered commands, one after the other, and each client gets the answer to
    its own; the commands not yet answered are those in flight.  At most 64
    wait, and those in flight are never charged more than 8 MiB. *)
Theorem node_linearizable st config s0 sent s :
  spawn_core st config = Ok s0 -> node_runs s0 sent s ->
  exists answered pending answers, sent = answered ++ pending /\
    run_core verifier answered.*2 (sys_core s0) = Some (answers, sys_core s) /\
    sys_answers s = zip answered.*1 answers /\ length answers = length answered /\
    pending = map sent_by (in_flight s) /\ (length (waiting (ch_tx (sys_handle s))) <= 64)%nat /\
    foldr (fun c n => command_bytes c + n) 0 pending.*2 <= 8388608.
Proof.
  intros HS HR. destruct (node_runs_linear _ _ _ _ _ HS HR) as [HQ (answered & answers & -> & Hrun & HA)].
  exists answered, (map sent_by (in_flight s)), answers. split_and!; try done.
  - by rewrite (run_core_length _ _ _ _ Hrun), length_fmap.
  - apply HQ.
  - pose proof (qo_bytes _ HQ) as HB. pose proof (qo_free _ HQ). rewrite held_commands in HB by apply HQ.
    replace ((map sent_by (in_flight s)).*2) with (map env_command (in_flight s)); [unfold MAX_CORE_COMMAND_BYTES in HB; lia|].
    change (map sent_by (in_flight s)) with (sent_by <$> in_flight s). by rewrite <- list_fmap_compose.
Qed.

End Queue.

(** ** The worker *)

Section Follows.
Context `{Blake3} {DB : Type} `{!BlockStore DB} `{!BlockStoreLaws DB} `{!RandomX} {V : Type} `{!SpendVerifier V}.
Variable config : ChainConfig.
Variable verifier : V.

(** The blocks that are ever given to the node. *)
Variable bs : list Block.

Definition command_given (c : CoreCommand) : Prop :=
  match c with
  | CoreHeaders headers => Forall header_within headers
  | CoreBlock b => b ∈ bs
  | _ => True
  end.

(** The pool sits on the tip and is valid for the outputs of the chain. *)
Record pool_on_chain (c : NodeCore DB) : Prop := MkPoolOnChain {
  pc_inv : pool_inv (cs_utxos (nc_state c)) verifier (nc_mempool c);
  pc_base : mp_base (nc_mempool c) = chain_base (nc_state c);
  pc_config : mp_config (nc_mempool c) = nc_saved_config c;
  pc_saved : config_ok (nc_saved_config c);
}.

Definition core_ok (c : NodeCore DB) : Prop := node_ok config verifier bs (nc_state c) /\ pool_on_chain c.

Lemma pool_same_tip c st :
  cs_tip st = cs_tip (nc_state c) -> cs_utxos st = cs_utxos (nc_state c) -> pool_on_chain c ->
  pool_on_chain (MkNodeCore st (nc_mempool c) (nc_saved_config c)).
Proof.
  intros Et Eu [P1 P2 P3 P4]. split; cbn [nc_state nc_mempool nc_saved_config]; try done; [by rewrite Eu|].
  rewrite P2. unfold chain_base. by rewrite Et.
Qed.

Lemma accept_headers_ok hs st :
  Forall header_within hs -> node_ok config verifier bs st ->
  let p := accept_headers hs st in
  node_ok config verifier bs p.2 /\ length p.1 = length hs /\ cs_tip p.2 = cs_tip st /\ cs_utxos p.2 = cs_utxos st.
Proof.
  intros HF. revert st. induction HF as [|h hs Hh _ IH]; intros st HN; cbn [accept_headers]; [done|].
  destruct (accept_header_post config verifier bs st h Hh HN) as [HN' HP].
  destruct (accept_header h st) as [r st1]. cbn [fst snd] in *. specialize (IH st1 HN').
  destruct (accept_headers hs st1) as [rs st2]. cbn [fst snd] in *. destruct IH as (I1 & I2 & I3 & I4).
  assert (cs_tip st1 = cs_tip st /\ cs_utxos st1 = cs_utxos st) as [E1 E2].
  { destruct r as [o|e]; [by destruct HP as (_ & _ & _ & _ & ? & ? & _)|by destruct HP as [(_ & ? & _ & ?) _]]. }
  split_and!; [done|cbn; by rewrite I2|congruence..].
Qed.

(** What becomes of the pool when a block is accepted: an entry leaves only
    because it is in the block, because it or an ancestor of it spends what the
    block spends, or because a pool of entries that stay, valid for the new
    chain, refuses it; the pool starts afresh only at the last height there is. *)
Definition pool_after (b : Block) (o : AcceptOutcome) (pool pool' : Mempool) (st : ChainState DB) : Prop :=
  let rebuilt := fun offered => (exists report, rebuilt_from (cs_utxos st) verifier pool offered report pool') \/
                                (ct_height (cs_tip st) = U64_MAX /\ mp_entries pool' = ∅) in
  match o with
  | StoredSideChain => pool' = pool
  | Extended => rebuilt (unaffected b pool)
  | Reorganized => rebuilt (fun _ => True)
  end.

Lemma recover_spec chain saved base r pool (Q : Mempool -> Prop) :
  config_ok saved -> Mempool.tip_height base <= U64_MAX ->
  match r with
  | Ok report => pool_inv chain verifier pool /\ mp_config pool = saved /\ mp_base pool = base /\ Q pool
  | Err e => U64_MAX <= Mempool.tip_height base
  end ->
  exists reset pool', recover_reconciliation_failure saved base r pool = Some (reset, pool') /\
    pool_inv chain verifier pool' /\ mp_config pool' = saved /\ mp_base pool' = base /\
    (Q pool' \/ (Mempool.tip_height base = U64_MAX /\ mp_entries pool' = ∅)).
Proof.
  intros HG Hh HR. destruct r as [report|e]; cbn [recover_reconciliation_failure].
  - destruct HR as (R1 & R2 & R3 & R4). do 2 eexists. split_and!; [done..|by left].
  - destruct (Mempool_new_ok base saved HG) as [p Hp]. rewrite Hp.
    destruct (pool_inv_new chain verifier base saved p HG Hp) as (P1 & P2 & P3 & P4).
    do 2 eexists. split_and!; [done..|]. right. split; [lia|done].
Qed.

Lemma reconcile_spec c o b st :
  pool_on_chain c -> ct_height (cs_tip st) <= U64_MAX ->
  (o = StoredSideChain -> cs_tip st = cs_tip (nc_state c) /\ cs_utxos st = cs_utxos (nc_state c)) ->
  exists reset pool', reconcile_after_acceptance (nc_saved_config c) o b (chain_base st) (cs_utxos st) verifier (nc_mempool c)
      = Some (reset, pool') /\
    pool_on_chain (MkNodeCore st pool' (nc_saved_config c)) /\ pool_after b o (nc_mempool c) pool' st.
Proof.
  intros HP Hh HS. pose proof HP as [P1 P2 P3 P4]. assert (config_ok (mp_config (nc_mempool c))) as HG by (by rewrite P3).
  destruct o; cbn [reconcile_after_acceptance pool_after].
  - pose proof (active_block_spec _ _ (cs_utxos st) verifier b (chain_base st) _ P1 HG) as HX.
    destruct (reconcile_active_block _ _ _ _ _) as [r pool1].
    destruct (recover_spec (cs_utxos st) (nc_saved_config c) (chain_base st) r pool1
      (fun p => exists report, rebuilt_from (cs_utxos st) verifier (nc_mempool c) (unaffected b (nc_mempool c)) report p) P4 Hh)
      as (reset & p & Ep & R1 & R2 & R3 & R4).
    { destruct r as [report|e]; [|by destruct HX as (_ & _ & ?)]. destruct HX as (X1 & X2 & X3 & X4).
      split_and!; [done|congruence|done|by exists report]. }
    exists reset, p. split_and!; [done|by split|exact R4].
  - exists false, (nc_mempool c). destruct (HS eq_refl) as [E1 E2]. split_and!; [done|by apply pool_same_tip|done].
  - pose proof (reorg_spec _ _ (cs_utxos st) verifier (chain_base st) _ P1 HG) as HX.
    destruct (reconcile_reorg _ _ _ _) as [r pool1].
    destruct (recover_spec (cs_utxos st) (nc_saved_config c) (chain_base st) r pool1
      (fun p => exists report, rebuilt_from (cs_utxos st) verifier (nc_mempool c) (fun _ => True) report p) P4 Hh)
      as (reset & p & Ep & R1 & R2 & R3 & R4).
    { destruct r as [report|e]; [|by destruct HX as (_ & _ & ?)]. destruct HX as (X1 & X2 & X3 & X4).
      split_and!; [done|congruence|done|by exists report]. }
    exists reset, p. split_and!; [done|by split|exact R4].
Qed.

(** What an answer says. *)
Definition answered (command : CoreCommand) (c : NodeCore DB) (answer : CoreResponse) (c' : NodeCore DB) : Prop :=
  let view := NodeSyncView (nc_state c) in
  match command, answer with
  | CoreHeaders hs, AnsHeaders rs =>
      (rs, nc_state c') = accept_headers hs (nc_state c) /\ length rs = length hs /\ nc_mempool c' = nc_mempool c
  | CoreBlock b, AnsBlock r =>
      (r, nc_state c') = accept_block b verifier (nc_state c) /\
      match r with
      | Ok o => pool_after b o (nc_mempool c) (nc_mempool c') (nc_state c')
      | Err _ => nc_mempool c' = nc_mempool c
      end
  | CoreTransaction tx, AnsTransaction r =>
      nc_state c' = nc_state c /\
      match r with
      | Ok out => cs_session (nc_state c) = SessionHealthy /\ ao_txid out = Transaction_txid tx /\
          exists e, mp_entries (nc_mempool c') !! Transaction_txid tx = Some e /\ me_transaction e = tx /\ me_fee e = ao_fee out
      | Err (NodeTransactionError.Unavailable health) => health = cs_session (nc_state c) /\ health <> SessionHealthy /\ c' = c
      | Err (NodeTransactionError.FromMempool e) =>
          nc_mempool c' = nc_mempool c /\ e <> MempoolError.StaleChainContext /\
          refusal (nc_mempool c) tx (mp_base (nc_mempool c)) e
      end
  | CoreActiveTip, AnsTip t => c' = c /\ @view_active_tip view = Ok (MkSyncTip t.1 t.2)
  | CorePreferredHeaderTip, AnsTip t => c' = c /\ @view_preferred_header_tip view = Ok (MkSyncTip t.1 t.2)
  | CoreActiveIdAtHeight h, AnsId r => c' = c /\ @view_active_id_at_height view h = view_result r
  | CorePreferredHeaderIdAtHeight h, AnsId r => c' = c /\ @view_preferred_header_id_at_height view h = view_result r
  | CorePreferredHeaderAtHeight h, AnsHeader r => c' = c /\ @view_preferred_header_at_height view h = view_result r
  | CoreBodyRetained id, AnsRetained r => c' = c /\ @view_body_retained view id = view_result r
  | _, _ => False
  end.

Lemma tip_within st :
  node_ok config verifier bs st -> cs_session st <> SessionStorageFaulted -> in_u64 (ct_height (cs_tip st)).
Proof.
  intros HN Hs. destruct (proj2 HN Hs) as (s & _ & HS & HK & _).
  apply (typed_tip _ (law_typed _ _ HS) (ChainState.tip_id (cs_tip st))), (ok_path _ _ _ _ _ HK).
Qed.

Lemma block_command_ok b c :
  Forall block_storable bs -> b ∈ bs -> core_ok c ->
  (exists answer c', run_command verifier (CoreBlock b) c = Some (answer, c') /\ core_ok c' /\
     answered (CoreBlock b) c answer c') \/ txid_collision bs.
Proof.
  intros HB Hb [HN HP]. destruct (accept_block_post config verifier bs (nc_state c) b HB Hb HN) as [HX|?]; [left|by right].
  cbn [run_command]. unfold answered. destruct (accept_block b verifier (nc_state c)) as [r st]. destruct HX as [HN' HX]. cbn [fst snd] in *.
  destruct r as [o|e].
  - destruct HX as (_ & Hs & HA). assert (cs_session st <> SessionStorageFaulted) as Hs' by congruence.
    pose proof (tip_within st HN' Hs') as Hh. destruct (reconcile_spec c o b st HP) as (reset & p & -> & HP' & HQ).
    + unfold in_u64, U64_MAX in *. lia.
    + intros ->. destruct HA as [[(_ & ? & _ & ?) _]|[-> _]]; done.
    + do 2 eexists. split; [reflexivity|]. split; [by split|]. by split.
  - destruct HX as [(_ & E1 & _ & E2) _]. do 2 eexists. split; [reflexivity|]. split; [split; [done|by apply pool_same_tip]|by split].
Qed.

Lemma transaction_command_ok tx c :
  core_ok c -> exists answer c', run_command verifier (CoreTransaction tx) c = Some (answer, c') /\ core_ok c' /\
    answered (CoreTransaction tx) c answer c'.
Proof.
  intros [HN HP]. pose proof HP as [P1 P2 P3 P4]. cbn [run_command]. unfold answered.
  destruct (cs_session (nc_state c)) eqn:Es; [|do 2 eexists; split_and!; by try reflexivity..].
  pose proof (admit_spec _ _ (nc_mempool c) tx (chain_base (nc_state c)) P1 ltac:(by rewrite P3)) as HA.
  destruct (Mempool_admit _ _ _ _ _) as [[out|e] pool]; do 2 eexists; (split; [reflexivity|]); cbn [map_err nc_state nc_mempool].
  - destruct HA as (cand & R & _ & (Htx & Hid & _ & Hc & Hb & Hm & _) & _ & HI & -> & _). split; [|split_and!; try done].
    + split; [done|]. split; cbn [nc_state nc_mempool nc_saved_config]; first [done|congruence].
    + exists (pc_entry cand). rewrite Hm, <- Hid. split_and!; [apply joined_self|done..].
  - destruct HA as [-> HR]. rewrite <- P2 in HR. split; [by destruct c|]. split_and!; try done. intros ->. by apply HR.
Qed.

Lemma command_ok command c :
  Forall block_storable bs -> command_given command -> core_ok c ->
  (exists answer c', run_command verifier command c = Some (answer, c') /\ core_ok c' /\ answered command c answer c') \/
  txid_collision bs.
Proof.
  intros HB HG HC. destruct command as [hs|b|tx| | | | | |]; cbn [command_given] in HG; [|by apply block_command_ok|left; by apply transaction_command_ok|left; by do 2 eexists..].
  left. cbn [run_command]. unfold answered. destruct HC as [HN HP]. pose proof (accept_headers_ok hs (nc_state c) HG HN) as HX.
  destruct (accept_headers hs (nc_state c)) as [rs st]. cbn [fst snd] in HX. destruct HX as (X1 & X2 & X3 & X4).
  do 2 eexists. split; [reflexivity|]. split; [split; [done|by apply pool_same_tip]|done].
Qed.

Lemma run_core_ok commands c answers c' :
  Forall block_storable bs -> Forall command_given commands -> core_ok c ->
  run_core verifier commands c = Some (answers, c') -> core_ok c' \/ txid_collision bs.
Proof.
  intros HB HG. revert c answers. induction HG as [|command commands Hc _ IH]; intros c answers HC; cbn [run_core].
  { intros [= <- <-]. by left. }
  destruct (command_ok command c HB Hc HC) as [(answer & c1 & -> & HC1 & _)|?]; [|by right].
  destruct (run_core verifier commands c1) as [[xs c2]|] eqn:E; [|done]. intros [= <- <-]. by eapply IH.
Qed.

End Follows.

(** ** The node *)

Section Properties.
Context `{Blake3} `{TokioLaws} {DB : Type} `{!BlockStore DB} `{!BlockStoreLaws DB} `{!RandomX} {V : Type} `{!SpendVerifier V}.
Variable config : ChainConfig.
Variable verifier : V.
Variable bs : list Block.

Lemma spawn_core_ok st mempool_config s0 :
  node_ok config verifier bs st -> config_ok mempool_config -> spawn_core st mempool_config = Ok s0 ->
  core_ok config verifier bs (sys_core s0).
Proof.
  intros HN HG. unfold spawn_core. destruct (Mempool_new _ mempool_config) as [pool|] eqn:E; [|done]. intros [= <-].
  destruct (pool_inv_new (cs_utxos st) verifier _ _ _ HG E) as (P1 & P2 & P3 & _). split; [done|]. by split.
Qed.

Lemma system_ok st mempool_config s0 sent s :
  config_typed config -> Forall block_storable bs -> runs config verifier bs st -> config_ok mempool_config ->
  spawn_core st mempool_config = Ok s0 -> node_runs verifier s0 sent s -> Forall (command_given bs) sent.*2 ->
  core_ok config verifier bs (sys_core s) \/ txid_collision bs.
Proof.
  intros HT HB HR HG HS HN HC. destruct (runs_ok config verifier bs st HT HB HR) as [HO|?]; [|by right].
  destruct (node_runs_linear verifier _ _ _ _ _ HS HN) as [_ (answered & answers & -> & Hrun & _)].
  rewrite fmap_app in HC. apply Forall_app in HC as [HC _].
  eapply (run_core_ok config verifier bs _ _ _ _ HB HC); [|exact Hrun]. by eapply spawn_core_ok.
Qed.


End Properties.

(** ** Calls on an idle node *)

Section Calls.
Context `{Blake3} `{TokioLaws} {DB : Type} `{!BlockStore DB} `{!RandomX} {V : Type} `{!SpendVerifier V}.
Variable verifier : V.

Definition idle (s : NodeSystem DB) : Prop := queue_ok s /\ in_flight s = [].

Definition sendable (command : CoreCommand) : Prop :=
  command_bytes command <= MAX_CORE_COMMAND_BYTES /\
  match command with CoreHeaders hs => (length hs <= HEADER_VALIDATION_SLICE)%nat | _ => True end.

Lemma try_send_ok command client bytes h :
  0 <= bytes <= MAX_CORE_COMMAND_BYTES -> bytes <= available (ch_bytes h) ->
  (length (waiting (ch_tx h)) < bound_of (ch_tx h))%nat -> receiving (ch_tx h) = true ->
  (try_send command client bytes h).1 = Ok tt.
Proof.
  intros Hb Ha Hl Hr. unfold try_send, try_acquire_bytes, eff_bind. rewrite Z.gtb_ltb, (proj2 (Z.ltb_ge _ _)) by lia.
  pose proof (law_acquire bytes (ch_bytes h)) as HA. destruct (try_acquire_many bytes (ch_bytes h)) as [sem|]; [|lia].
  cbn [ch_tx ch_bytes]. pose proof (law_send _ (MkEnvelope command client bytes) (ch_tx h)) as HS.
  destruct (mpsc_try_send _ (ch_tx h)) as [[[]|] c]; destruct HS as (S1 & S2 & S3 & S4); [lia|congruence|done].
Qed.

Lemma submit_idle command client s :
  idle s -> sendable command -> exists s', client_submit command client s = (Ok tt, s') /\ queue_ok s' /\
    sys_core s' = sys_core s /\ sys_working s' = None /\
    waiting (ch_tx (sys_handle s')) = [MkEnvelope command client (command_bytes command)].
Proof.
  intros [HQ HF] [Hb Hh]. pose proof HQ as [Q1 Q2 Q3 Q4 Q5 Q6]. rewrite HF in Q4. change (held []) with 0 in Q4.
  assert ((client_submit command client s).1 = Ok tt) as HOk.
  { assert ((try_send command client (command_bytes command) (sys_handle s)).1 = Ok tt) as HT.
    { apply try_send_ok; [split; [apply command_bytes_nonneg|done]|lia| |done]. unfold in_flight in HF.
      apply app_eq_nil in HF as [_ ->]. rewrite Q1. unfold MAX_CORE_COMMANDS. cbn. lia. }
    unfold client_submit, core_submit. destruct command as [hs| | | | | | | |];
      [rewrite (proj2 (Nat.ltb_ge _ _)) by done|..]; destruct (try_send _ _ _ _) as [r h]; exact HT. }
  assert (sys_working (client_submit command client s).2 = sys_working s) as HW.
  { unfold client_submit. by destruct (core_submit _ _ _). }
  destruct (client_submit command client s) as [r s'] eqn:E. cbn [fst snd] in *. subst r. exists s'.
  destruct (submit_spec _ _ _ _ _ HQ E) as (HQ' & HC & _ & HF'). rewrite HF in HF'. unfold in_flight in HF, HF'.
  assert (sys_working s = None) as Hn by (destruct (sys_working s); [done|done]). rewrite HW, Hn in HF'. split_and!; try done. congruence.
Qed.

Lemma core_call_idle client command s answer core :
  idle s -> sendable command -> run_command verifier command (sys_core s) = Some (answer, core) ->
  exists s', core_call verifier client command s = (Ok answer, s') /\ idle s' /\ sys_core s' = core.
Proof.
  intros HI HS HR. destruct (submit_idle command client s HI HS) as (s1 & E1 & HQ1 & HC1 & HW1 & Hw1).
  unfold core_call, eff_bind. rewrite E1. cbn [worker_loop]. unfold MAX_CORE_COMMANDS.
  destruct (worker_receive s1) as [s2|] eqn:E2.
  2: { unfold worker_receive in E2. rewrite HW1 in E2. pose proof (law_recv _ (ch_tx (sys_handle s1))) as HL.
       destruct (mpsc_recv _) as [[? ?]|]; [done|]. congruence. }
  destruct (receive_spec _ _ HQ1 E2) as (HQ2 & HF2 & HC2 & HA2).
  assert (in_flight s1 = [MkEnvelope command client (command_bytes command)]) as HF1.
  { unfold in_flight. rewrite HW1, Hw1. done. }
  destruct (worker_finish verifier s2) as [s3|] eqn:E3.
  2: { unfold worker_finish in E3. unfold worker_receive in E2. rewrite HW1 in E2.
       pose proof (law_recv _ (ch_tx (sys_handle s1))) as HL. destruct (mpsc_recv _) as [[env c]|]; [|done].
       injection E2 as <-. cbn [sys_working sys_core] in E3. rewrite Hw1 in HL. destruct HL as ([= <- _] & _). cbn [env_command] in E3.
       rewrite HC1, HR in E3. done. }
  destruct (finish_spec verifier _ _ HQ2 E3) as (env & a & EF & HQ3 & Er & EA). rewrite HF2, HF1 in EF. injection EF as <- EF.
  cbn [env_command env_client] in Er, EA. rewrite HC2, HC1, HR in Er. injection Er as <- ->.
  assert (worker_receive s3 = None) as E4.
  { unfold worker_receive. destruct (sys_working s3) eqn:Ew; [done|]. symmetry in EF. unfold in_flight in EF. rewrite Ew in EF.
    pose proof (law_recv _ (ch_tx (sys_handle s3))) as HL. destruct (mpsc_recv _) as [[? ?]|]; [|done].
    destruct HL as [HL _]. cbn in EF. congruence. }
  cbn [worker_loop]. rewrite E4, EA, last_snoc. exists s3. split_and!; done.
Qed.

Lemma accept_headers_app a b (st : ChainState DB) :
  accept_headers (a ++ b) st =
    let '(ra, st1) := accept_headers a st in let '(rb, st2) := accept_headers b st1 in (ra ++ rb, st2).
Proof.
  revert st. induction a as [|h a IH]; intros st; cbn [app accept_headers]; [by destruct (accept_headers b st)|].
  destruct (accept_header h st) as [r st1]. rewrite IH. destruct (accept_headers a st1) as [ra st2].
  by destruct (accept_headers b st2).
Qed.

Lemma header_slices_spec fuel hs :
  (length hs <= fuel)%nat -> concat (header_slices fuel hs) = hs /\
  Forall (fun slice => (length slice <= HEADER_VALIDATION_SLICE)%nat) (header_slices fuel hs).
Proof.
  revert hs. induction fuel as [|fuel IH]; intros hs Hl.
  { destruct hs; [done|cbn in Hl; lia]. }
  cbn [header_slices]. destruct (take HEADER_VALIDATION_SLICE hs) as [|h slice] eqn:Et.
  - destruct hs; [done|]. done.
  - destruct (IH (drop HEADER_VALIDATION_SLICE hs)) as [IH1 IH2]; [rewrite length_drop; unfold HEADER_VALIDATION_SLICE; destruct hs; cbn in *; [done|lia]|].
    split; [cbn [concat]; rewrite IH1, <- Et; apply take_drop|]. constructor; [|done]. rewrite <- Et, length_take. lia.
Qed.

Lemma headers_sendable hs : (length hs <= HEADER_VALIDATION_SLICE)%nat -> sendable (CoreHeaders hs).
Proof.
  intros Hl. split; [|done]. cbn [command_bytes].
  assert (foldr (fun h n => Z.of_nat (length (BlockHeader_encode h)) + n) 0 hs = 114 * Z.of_nat (length hs)) as ->.
  { clear Hl. induction hs as [|h hs IH]; [done|]. cbn [foldr]. rewrite IH, length_BlockHeader_encode. unfold BLOCK_HEADER_BYTES. cbn [length]. lia. }
  unfold MAX_CORE_COMMAND_BYTES, HEADER_VALIDATION_SLICE in *. lia.
Qed.

Lemma submit_slices_idle client slices s :
  idle s -> Forall (fun slice => (length slice <= HEADER_VALIDATION_SLICE)%nat) slices ->
  let '(results, st) := accept_headers (concat slices) (nc_state (sys_core s)) in
  exists s', submit_slices verifier client slices s = (Ok results, s') /\ idle s' /\
    sys_core s' = MkNodeCore st (nc_mempool (sys_core s)) (nc_saved_config (sys_core s)).
Proof.
  intros HI HF. revert s HI. induction HF as [|slice slices Hl _ IH]; intros s HI; cbn [concat submit_slices].
  { exists s. split_and!; try done; [apply HI..|]. by destruct (sys_core s). }
  rewrite accept_headers_app. destruct (accept_headers slice (nc_state (sys_core s))) as [ra st1] eqn:Ea.
  destruct (core_call_idle client (CoreHeaders slice) s (AnsHeaders ra)
    (MkNodeCore st1 (nc_mempool (sys_core s)) (nc_saved_config (sys_core s))) HI (headers_sendable _ Hl)) as (s1 & E1 & HI1 & HC1).
  { cbn [run_command]. by rewrite Ea. }
  specialize (IH s1 HI1). rewrite HC1 in IH. cbn [nc_state nc_mempool nc_saved_config] in IH.
  destruct (accept_headers (concat slices) st1) as [rb st2]. destruct IH as (s2 & E2 & HI2 & HC2).
  exists s2. unfold eff_bind. rewrite E1, E2. done.
Qed.

(** The calls of the node are the worker's operations.  On a node with
    nothing in flight, submitting any number of headers gives, header by
    header, what importing them one after the other gives, although they are
    sent in slices of sixteen; submitting a block or a transaction that fits
    the queue gives the worker's answer, and the object may be relayed exactly
    when it was accepted, under its own identifier; a block that does
    not fit is refused and changes nothing. *)
Theorem node_calls_transparent client s :
  idle s ->
  let core := sys_core s in
  (forall hs, let '(results, st) := accept_headers hs (nc_state core) in
     exists s', OregonNode_submit_headers verifier client hs s = (Ok results, s') /\ idle s' /\
       sys_core s' = MkNodeCore st (nc_mempool core) (nc_saved_config core)) /\
  (forall b r core', Z.of_nat (length (Block_encode b)) <= 8388608 ->
     run_command verifier (CoreBlock b) core = Some (AnsBlock r, core') ->
     exists s', OregonNode_submit_block verifier client b s =
         (Ok (MkBlockSubmission r (if is_ok r then Some (MkValidatedRelay (MkInventoryItem InvBlock (block_id (header b)))) else None)), s') /\
       idle s' /\ sys_core s' = core') /\
  (forall tx r core', Z.of_nat (length (Transaction_encode tx)) <= 8388608 ->
     run_command verifier (CoreTransaction tx) core = Some (AnsTransaction r, core') ->
     exists s', OregonNode_submit_transaction verifier client tx s =
         (Ok (MkTransactionSubmission r
            (if is_ok r then Some (MkValidatedRelay (MkInventoryItem InvTransaction (Transaction_txid tx))) else None)), s') /\
       idle s' /\ sys_core s' = core') /\
  (forall b, 8388608 < Z.of_nat (length (Block_encode b)) ->
     OregonNode_submit_block verifier client b s = (Err NodeQueueError.ByteBudgetExhausted, s)).
Proof.
  intros HI core. split_and!.
  - intros hs. destruct (header_slices_spec (length hs) hs (le_n _)) as [HC HF].
    pose proof (submit_slices_idle client _ s HI HF) as HX. rewrite HC in HX. exact HX.
  - intros b r core' Hb HR. destruct (core_call_idle client (CoreBlock b) s (AnsBlock r) core' HI) as (s' & E & HI' & HC); [by split|exact HR|].
    exists s'. unfold OregonNode_submit_block, eff_bind. rewrite E. by destruct r.
  - intros tx r core' Hb HR. destruct (core_call_idle client (CoreTransaction tx) s (AnsTransaction r) core' HI) as (s' & E & HI' & HC); [by split|exact HR|].
    exists s'. unfold OregonNode_submit_transaction, eff_bind. rewrite E. by destruct r.
  - intros b Hb. unfold OregonNode_submit_block, core_call, client_submit, core_submit, try_send, try_acquire_bytes, eff_bind.
    cbn [command_bytes]. rewrite Z.gtb_ltb, (proj2 (Z.ltb_lt _ _)) by (unfold MAX_CORE_COMMAND_BYTES; lia). by destruct s.
Qed.

End Calls.

(** ** A running node *)

(** Channels and semaphores that behave as the laws say. *)
#[export] Instance list_tokio : Tokio := {|
  mpsc := fun A => (nat * list A)%type;
  mpsc_channel := fun A n => (n, []);
  mpsc_try_send := fun A a c =>
    if (length c.2 <? c.1)%nat then (None, (c.1, c.2 ++ [a])) else (Some SendFull, c);
  mpsc_recv := fun A c => match c.2 with [] => None | a :: rest => Some (a, (c.1, rest)) end;
  semaphore := Z;
  semaphore_new := fun n => n;
  try_acquire_many := fun n s => if n <=? s then Some (s - n) else None;
  semaphore_release := fun n s => s + n;
|}.

#[local] Obligation Tactic := intros; simpl.

#[export] Program Instance list_tokio_laws : TokioLaws := {|
  waiting := fun A c => c.2; bound_of := fun A c => c.1; receiving := fun A c => true; available := fun s => s;
|}.
Next Obligation. done. Qed.
Next Obligation. destruct (Nat.ltb_spec (length c.2) c.1); cbn; split_and!; done. Qed.
Next Obligation. destruct c as [n [|a l]]; done. Qed.
Next Obligation. done. Qed.
Next Obligation. destruct (Z.leb_spec n s); lia. Qed.
Next Obligation. done. Qed.

#[local] Existing Instance tail_hash.
#[local] Existing Instance accept_all.
#[local] Existing Instance demo_randomx.

Definition demo_pool_config : MempoolConfig := MempoolConfig_default.

Lemma demo_pool_config_ok : config_ok demo_pool_config.
Proof. repeat split; by vm_compute. Qed.

Definition dead_system : NodeSystem Store :=
  MkSystem core_channel None
    (MkNodeCore dead_node (MkMempool demo_pool_config (MkChainBase NULL_TXID 0) ∅ ∅ 0) demo_pool_config) [].

(** A node that starts on its anchor; client 7 submits a block, client 8 asks
    for the tip, and the worker handles the block. *)
Definition system_0 : NodeSystem Store := unwrap_or dead_system (spawn_core node_0 demo_pool_config).
Definition system_1 : NodeSystem Store := (client_submit (CoreBlock block_a1) 7%nat system_0).2.
Definition system_2 : NodeSystem Store := (client_submit CoreActiveTip 8%nat system_1).2.
Definition system_3 : NodeSystem Store := default dead_system (worker_receive system_2).
Definition system_4 : NodeSystem Store := default dead_system (worker_finish tt system_3).
Definition demo_sent : list (nat * CoreCommand) := [(7%nat, CoreBlock block_a1); (8%nat, CoreActiveTip)].

Lemma system_0_spawned : spawn_core node_0 demo_pool_config = Ok system_0.
Proof. apply unwrap_or_ok. vm_compute. reflexivity. Qed.

Lemma default_some {A} (d : A) (o : option A) : match o with Some _ => true | None => false end = true -> o = Some (default d o).
Proof. by destruct o. Qed.

Lemma submit_accepted command client (s : NodeSystem Store) :
  is_ok (client_submit command client s).1 = true ->
  client_submit command client s = (Ok tt, (client_submit command client s).2).
Proof. by destruct (client_submit command client s) as [[[]|] ?]. Qed.

Lemma system_4_runs : node_runs tt system_0 demo_sent system_4.
Proof.
  apply nr_finish with system_3; [|apply default_some; vm_compute; reflexivity].
  apply nr_receive with system_2; [|apply default_some; vm_compute; reflexivity].
  apply (nr_submit tt system_0 [(7%nat, CoreBlock block_a1)] system_1 CoreActiveTip 8%nat (Ok tt));
    [|apply submit_accepted; vm_compute; reflexivity].
  apply (nr_submit tt system_0 [] system_0 (CoreBlock block_a1) 7%nat (Ok tt)); [constructor|].
  apply submit_accepted. vm_compute. reflexivity.
Qed.

Lemma demo_sent_given : Forall (command_given demo_given) demo_sent.*2.
Proof. repeat constructor. Qed.

Lemma node_linearizable_witness :
  length (sys_answers system_4) = 1%nat /\
  exists answered pending answers, demo_sent = answered ++ pending /\
    run_core tt answered.*2 (sys_core system_0) = Some (answers, sys_core system_4) /\
    sys_answers system_4 = zip answered.*1 answers /\ length answers = length answered /\
    pending = map sent_by (in_flight system_4) /\ (length (waiting (ch_tx (sys_handle system_4))) <= 64)%nat /\
    foldr (fun c n => command_bytes c + n) 0 pending.*2 <= 8388608.
Proof.
  split; [vm_compute; reflexivity|].
  exact (node_linearizable tt node_0 demo_pool_config system_0 demo_sent system_4 system_0_spawned system_4_runs).
Defined.


Lemma system_0_idle : idle system_0.
Proof. destruct (spawn_queue_ok node_0 demo_pool_config system_0 system_0_spawned) as (? & ? & _). by split. Qed.

Lemma node_calls_transparent_witness :
  exists results st, accept_headers [header block_a1; header block_b1] (nc_state (sys_core system_0)) = (results, st) /\
    exists s', OregonNode_submit_headers tt 9%nat [header block_a1; header block_b1] system_0 = (Ok results, s') /\ idle s' /\
      sys_core s' = MkNodeCore st (nc_mempool (sys_core system_0)) (nc_saved_config (sys_core system_0)).
Proof.
  destruct (node_calls_transparent tt 9%nat system_0 system_0_idle) as [HH _]. specialize (HH [header block_a1; header block_b1]).
  destruct (accept_headers [header block_a1; header block_b1] (nc_state (sys_core system_0))) as [results st].
  exists results, st. split; [reflexivity|exact HH].
Defined.
