(* ===== verification/Engine.v ===== *)
(** The RandomX engines of [oregon-pow/src/engine.rs] over the C library that
    [ffi.rs] declares: who owns what is allocated, and what the engines
    compute.  The library is an interface: its operations on a world, and
    what its documentation and the safety comments of [ffi.rs] promise for a
    call that respects their conditions.  Nothing is promised for any other
    call, so what is proved of an engine holds only because it never makes
    one.  The light engine of ChainState.v is what header validation sees of the
    one here: a key, whether it could be allocated, and its hash. *)
From S2P Require Import Prelude Encoding Transaction Block Difficulty HeaderRules Records StoreSpec ChainState.

Definition RANDOMX_FLAG_DEFAULT : Z := 0.
Definition RANDOMX_FLAG_FULL_MEM : Z := 4.
Definition RANDOMX_FLAG_ARGON2 : Z := 96.
Definition RANDOMX_FLAG_V2 : Z := 128.

(** Pointers; zero is null. *)
Definition Ptr : Type := Z.

(** The functions of the library. *)
Class RandomXLib (W : Type) : Type := {
  rx_get_flags : W -> Z;
  rx_alloc_cache : Z -> W -> Ptr * W;
  rx_init_cache : Ptr -> arr 32 -> W -> W;
  rx_release_cache : Ptr -> W -> W;
  rx_alloc_dataset : Z -> W -> Ptr * W;
  rx_dataset_item_count : W -> Z;
  rx_init_dataset : Ptr -> Ptr -> Z -> Z -> W -> W;
  rx_release_dataset : Ptr -> W -> W;
  rx_create_vm : Z -> Ptr -> Ptr -> W -> Ptr * W;
  rx_destroy_vm : Ptr -> W -> W;
  rx_calculate_hash : Ptr -> list byte -> W -> arr 32 * W;
}.

(** What is allocated: a cache and a dataset with the key they were
    initialised for, and a machine with the memory it reads. *)
Inductive RxObject : Type :=
| RxCache (v2 : bool) (key : option (arr 32))
| RxDataset (key : option (arr 32))
| RxVm (v2 : bool) (memory : Ptr).

(** The key of the memory a machine can be created on. *)
Definition memory_key (full : bool) (o : option RxObject) : option (arr 32) :=
  match full, o with
  | false, Some (RxCache true (Some key)) => Some key
  | true, Some (RxDataset (Some key)) => Some key
  | _, _ => None
  end.

(** No machine reads the memory at [p]. *)
Definition unused (p : Ptr) (objects : gmap Ptr RxObject) : Prop :=
  forall q v2 m, objects !! q = Some (RxVm v2 m) -> m <> p.

Definition flag_v2 (flags : Z) : bool := Z.testbit flags 7.
Definition flag_full_mem (flags : Z) : bool := Z.testbit flags 2.

(** What an allocation returns: null and nothing, or a new object. *)
Definition allocated (o : RxObject) (objects : gmap Ptr RxObject) (p : Ptr) (objects' : gmap Ptr RxObject) : Prop :=
  if p =? 0 then objects' = objects else objects !! p = None /\ objects' = <[p := o]> objects.

Class RandomXLaws (W : Type) `{!RandomXLib W} : Type := {
  rx_objects : W -> gmap Ptr RxObject;
  (** The RandomX hash, version 2, of an input under a key. *)
  rx_hash : arr 32 -> list byte -> arr 32;
  law_alloc_cache flags w : let '(p, w') := rx_alloc_cache flags w in
    allocated (RxCache (flag_v2 flags) None) (rx_objects w) p (rx_objects w');
  law_init_cache p key w v2 k : rx_objects w !! p = Some (RxCache v2 k) -> unused p (rx_objects w) ->
    rx_objects (rx_init_cache p key w) = <[p := RxCache v2 (Some key)]> (rx_objects w);
  law_release_cache p w v2 k : rx_objects w !! p = Some (RxCache v2 k) -> unused p (rx_objects w) ->
    rx_objects (rx_release_cache p w) = delete p (rx_objects w);
  law_alloc_dataset flags w : let '(p, w') := rx_alloc_dataset flags w in
    allocated (RxDataset None) (rx_objects w) p (rx_objects w');
  law_init_dataset d c w k key : rx_objects w !! d = Some (RxDataset k) -> unused d (rx_objects w) ->
    rx_objects w !! c = Some (RxCache true (Some key)) ->
    rx_objects (rx_init_dataset d c 0 (rx_dataset_item_count w) w) = <[d := RxDataset (Some key)]> (rx_objects w);
  law_release_dataset p w k : rx_objects w !! p = Some (RxDataset k) -> unused p (rx_objects w) ->
    rx_objects (rx_release_dataset p w) = delete p (rx_objects w);
  law_create_vm flags cache dataset w :
    let memory := if flag_full_mem flags then dataset else cache in
    let other := if flag_full_mem flags then cache else dataset in
    is_Some (memory_key (flag_full_mem flags) (rx_objects w !! memory)) -> other = 0 ->
    let '(p, w') := rx_create_vm flags cache dataset w in
    allocated (RxVm (flag_v2 flags) memory) (rx_objects w) p (rx_objects w');
  law_destroy_vm p w v2 m : rx_objects w !! p = Some (RxVm v2 m) -> is_Some (rx_objects w !! m) ->
    rx_objects (rx_destroy_vm p w) = delete p (rx_objects w);
  law_calculate_hash p input w m full key : rx_objects w !! p = Some (RxVm true m) ->
    memory_key full (rx_objects w !! m) = Some key ->
    (rx_calculate_hash p input w).1 = rx_hash key input /\ rx_objects (rx_calculate_hash p input w).2 = rx_objects w;
}.

Section Engines.
Context {W : Type} `{!RandomXLib W}.

Record LightEngineFfi : Type := MkLight { light_key : arr 32; light_cache : Ptr; light_vm : Ptr }.
Record FullEngine : Type := MkFull { full_key : arr 32; full_dataset : Ptr; full_vm : Ptr }.

Definition LightEngineFfi_new (key : arr 32) : eff W PowError.t LightEngineFfi := fun w =>
  let '(cache, w) := rx_alloc_cache RANDOMX_FLAG_V2 w in
  if cache =? 0 then (Err PowError.CacheAllocationFailed, w)
  else
    let w := rx_init_cache cache key w in
    let '(vm, w) := rx_create_vm RANDOMX_FLAG_V2 cache 0 w in
    if vm =? 0 then (Err PowError.VmAllocationFailed, rx_release_cache cache w)
    else (Ok (MkLight key cache vm), w).

Definition calculate_hash (vm : Ptr) (input : list byte) (w : W) : arr 32 * W := rx_calculate_hash vm input w.

Definition LightEngineFfi_hash (e : LightEngineFfi) (input : list byte) (w : W) : arr 32 * W :=
  calculate_hash (light_vm e) input w.

Definition LightEngineFfi_drop (e : LightEngineFfi) (w : W) : W :=
  rx_release_cache (light_cache e) (rx_destroy_vm (light_vm e) w).

(** [recommended & !RANDOMX_FLAG_ARGON2], on 32 bits. *)
Definition without_argon2 (flags : Z) : Z := Z.land flags (U32_MAX - RANDOMX_FLAG_ARGON2).

Definition FullEngine_new (key : arr 32) : eff W PowError.t FullEngine := fun w =>
  let recommended := rx_get_flags w in
  let cache_flags := Z.lor recommended RANDOMX_FLAG_V2 in
  let '(cache, w) := rx_alloc_cache cache_flags w in
  if cache =? 0 then (Err PowError.CacheAllocationFailed, w)
  else
    let w := rx_init_cache cache key w in
    let '(dataset, w) := rx_alloc_dataset RANDOMX_FLAG_DEFAULT w in
    if dataset =? 0 then (Err PowError.DatasetAllocationFailed, rx_release_cache cache w)
    else
      let item_count := rx_dataset_item_count w in
      let w := rx_init_dataset dataset cache 0 item_count w in
      let w := rx_release_cache cache w in
      let vm_flags := Z.lor (Z.lor (without_argon2 recommended) RANDOMX_FLAG_V2) RANDOMX_FLAG_FULL_MEM in
      let '(vm, w) := rx_create_vm vm_flags 0 dataset w in
      if vm =? 0 then (Err PowError.VmAllocationFailed, rx_release_dataset dataset w)
      else (Ok (MkFull key dataset vm), w).

Definition FullEngine_hash (e : FullEngine) (input : list byte) (w : W) : arr 32 * W := calculate_hash (full_vm e) input w.

Definition FullEngine_drop (e : FullEngine) (w : W) : W :=
  rx_release_dataset (full_dataset e) (rx_destroy_vm (full_vm e) w).

End Engines.
Arguments LightEngineFfi_new {W _}.
Arguments FullEngine_new {W _}.

Section Ownership.
Context {W : Type} `{!RandomXLib W} `{!RandomXLaws W}.

(** No machine reads memory that was released. *)
Definition world_ok (objects : gmap Ptr RxObject) : Prop :=
  forall q v2 m, objects !! q = Some (RxVm v2 m) -> is_Some (objects !! m).

Definition is_memory (o : RxObject) : Prop := match o with RxVm _ _ => False | _ => True end.

Lemma unused_new o p objects : world_ok objects -> objects !! p = None -> is_memory o -> unused p (<[p := o]> objects).
Proof.
  intros HW Hp Ho q v2 m Hq ->. apply lookup_insert_Some in Hq as [[_ ->]|[_ Hq]]; [done|].
  apply HW in Hq as [x Hx]. congruence.
Qed.

Lemma unused_insert o p q objects : unused p objects -> is_memory o -> unused p (<[q := o]> objects).
Proof. intros HU Ho r v2 m Hr. apply lookup_insert_Some in Hr as [[_ ->]|[_ Hr]]; [done|by eapply HU]. Qed.

Lemma world_ok_memory o p objects : world_ok objects -> objects !! p = None -> is_memory o -> world_ok (<[p := o]> objects).
Proof.
  intros HW Hp Ho q v2 m Hq. apply lookup_insert_Some in Hq as [[_ ->]|[_ Hq]]; [done|].
  destruct (HW _ _ _ Hq) as [x Hx]. exists x. rewrite lookup_insert_ne by congruence. done.
Qed.

Lemma allocated_null o objects objects' : allocated o objects 0 objects' -> objects' = objects.
Proof. done. Qed.

Lemma allocated_new o objects p objects' : p <> 0 -> allocated o objects p objects' -> objects !! p = None /\ objects' = <[p := o]> objects.
Proof. intros Hp. unfold allocated. by rewrite (proj2 (Z.eqb_neq _ _)) by done. Qed.

Lemma flag_v2_lor a b : flag_v2 (Z.lor a b) = flag_v2 a || flag_v2 b.
Proof. apply Z.lor_spec. Qed.

Lemma flag_full_lor a b : flag_full_mem (Z.lor a b) = flag_full_mem a || flag_full_mem b.
Proof. apply Z.lor_spec. Qed.

(** What a live engine owns: a machine on a memory initialised for its key,
    besides what was there. *)
Definition owns (full : bool) (key : arr 32) (memory vm : Ptr) (before after : gmap Ptr RxObject) : Prop :=
  exists o, memory_key full (Some o) = Some key /\ before !! memory = None /\ before !! vm = None /\ vm <> memory /\
    after = <[vm := RxVm true memory]> (<[memory := o]> before).

Lemma owns_hash full key memory vm before w input :
  owns full key memory vm before (rx_objects w) ->
  (rx_calculate_hash vm input w).1 = rx_hash key input /\
  owns full key memory vm before (rx_objects (rx_calculate_hash vm input w).2).
Proof.
  intros (o & Ho & Hm & Hv & Hne & HE).
  assert (rx_objects w !! vm = Some (RxVm true memory)) as H1 by (by rewrite HE, lookup_insert_eq).
  assert (memory_key full (rx_objects w !! memory) = Some key) as H2 by (by rewrite HE, lookup_insert_ne, lookup_insert_eq by done).
  destruct (law_calculate_hash _ input w _ _ _ H1 H2) as [-> HO]. split; [done|]. rewrite HO. by exists o.
Qed.

(** Destroying the machine leaves the memory, unused. *)
Lemma owns_destroy full key memory vm before w :
  world_ok before -> owns full key memory vm before (rx_objects w) ->
  exists o, memory_key full (Some o) = Some key /\ before !! memory = None /\
    rx_objects (rx_destroy_vm vm w) = <[memory := o]> before /\ unused memory (<[memory := o]> before).
Proof.
  intros HW (o & Ho & Hm & Hv & Hne & HE). exists o. split_and!; [done..| |].
  - rewrite (law_destroy_vm vm w true memory); [|by rewrite HE, lookup_insert_eq|by rewrite HE, lookup_insert_ne, lookup_insert_eq by done].
    rewrite HE. apply delete_insert_id. by rewrite lookup_insert_ne.
  - apply unused_new; [done..|]. by destruct full, o.
Qed.

Lemma light_engine_new key w :
  world_ok (rx_objects w) ->
  match LightEngineFfi_new key w with
  | (Ok e, w') => light_key e = key /\ owns false key (light_cache e) (light_vm e) (rx_objects w) (rx_objects w')
  | (Err e, w') => e <> PowError.DatasetAllocationFailed /\ rx_objects w' = rx_objects w
  end.
Proof.
  intros HW. unfold LightEngineFfi_new. pose proof (law_alloc_cache RANDOMX_FLAG_V2 w) as HA.
  destruct (rx_alloc_cache RANDOMX_FLAG_V2 w) as [c w1]. destruct (Z.eqb_spec c 0) as [->|Hc]; [done|].
  apply (allocated_new _ _ _ _ Hc) in HA as [Hn E1]. change (flag_v2 RANDOMX_FLAG_V2) with true in E1.
  assert (rx_objects (rx_init_cache c key w1) = <[c := RxCache true (Some key)]> (rx_objects w)) as E2.
  { rewrite (law_init_cache c key w1 true None); [|by rewrite E1, lookup_insert_eq|rewrite E1; by apply unused_new].
    by rewrite E1, insert_insert_eq. }
  pose proof (law_create_vm RANDOMX_FLAG_V2 c 0 (rx_init_cache c key w1)) as HV. change (flag_full_mem RANDOMX_FLAG_V2) with false in HV.
  cbn [negb] in HV. specialize (HV ltac:(rewrite E2, lookup_insert_eq; by eexists) eq_refl).
  destruct (rx_create_vm RANDOMX_FLAG_V2 c 0 _) as [v w3]. rewrite E2 in HV. destruct (Z.eqb_spec v 0) as [->|Hv].
  - apply allocated_null in HV. split; [done|]. rewrite (law_release_cache c w3 true (Some key)).
    + rewrite HV. by apply delete_insert_id.
    + by rewrite HV, lookup_insert_eq.
    + rewrite HV. by apply unused_new.
  - apply (allocated_new _ _ _ _ Hv) in HV as [Hf E3]. split; [done|]. cbn [light_cache light_vm].
    apply lookup_insert_None in Hf as [Hf1 Hf2]. exists (RxCache true (Some key)). by split_and!.
Qed.

Lemma light_engine_drop e before w :
  world_ok before -> owns false (light_key e) (light_cache e) (light_vm e) before (rx_objects w) ->
  rx_objects (LightEngineFfi_drop e w) = before.
Proof.
  intros HW HO. unfold LightEngineFfi_drop. destruct (owns_destroy _ _ _ _ _ _ HW HO) as (o & Ho & Hm & E & HU).
  destruct o as [[] k| |]; try done. rewrite (law_release_cache _ _ true k); rewrite E; [by apply delete_insert_id|by apply lookup_insert_eq|done].
Qed.

Lemma full_engine_new key w :
  world_ok (rx_objects w) ->
  match FullEngine_new key w with
  | (Ok e, w') => full_key e = key /\ owns true key (full_dataset e) (full_vm e) (rx_objects w) (rx_objects w')
  | (Err _, w') => rx_objects w' = rx_objects w
  end.
Proof.
  intros HW. unfold FullEngine_new. set (flags := rx_get_flags w). pose proof (law_alloc_cache (Z.lor flags RANDOMX_FLAG_V2) w) as HA.
  destruct (rx_alloc_cache _ w) as [c w1]. destruct (Z.eqb_spec c 0) as [->|Hc]; [done|].
  apply (allocated_new _ _ _ _ Hc) in HA as [Hn E1]. rewrite flag_v2_lor, orb_true_r in E1 by done.
  assert (rx_objects (rx_init_cache c key w1) = <[c := RxCache true (Some key)]> (rx_objects w)) as E2.
  { rewrite (law_init_cache c key w1 true None); [|by rewrite E1, lookup_insert_eq|rewrite E1; by apply unused_new].
    by rewrite E1, insert_insert_eq. }
  set (w2 := rx_init_cache c key w1) in *. pose proof (law_alloc_dataset RANDOMX_FLAG_DEFAULT w2) as HD.
  destruct (rx_alloc_dataset RANDOMX_FLAG_DEFAULT w2) as [d w3]. rewrite E2 in HD. destruct (Z.eqb_spec d 0) as [->|Hd].
  { apply allocated_null in HD. rewrite (law_release_cache c w3 true (Some key)); rewrite HD;
      [by apply delete_insert_id|by apply lookup_insert_eq|by apply unused_new]. }
  apply (allocated_new _ _ _ _ Hd) in HD as [Hdn E3]. pose proof Hdn as [Hd1 Hd2]%lookup_insert_None.
  assert (rx_objects (rx_init_dataset d c 0 (rx_dataset_item_count w3) w3) =
    <[d := RxDataset (Some key)]> (<[c := RxCache true (Some key)]> (rx_objects w))) as E4.
  { rewrite (law_init_dataset d c w3 None key); rewrite E3;
      [by rewrite insert_insert_eq|by apply lookup_insert_eq| |by rewrite lookup_insert_ne, lookup_insert_eq].
    apply unused_new; [by apply world_ok_memory|done..]. }
  set (w4 := rx_init_dataset _ _ _ _ _) in *.
  assert (rx_objects (rx_release_cache c w4) = <[d := RxDataset (Some key)]> (rx_objects w)) as E5.
  { rewrite (law_release_cache c w4 true (Some key)); rewrite E4.
    - by rewrite delete_insert_ne, delete_insert_id.
    - by rewrite lookup_insert_ne, lookup_insert_eq.
    - apply unused_insert; [by apply unused_new|done]. }
  set (w5 := rx_release_cache c w4) in *. set (vm_flags := Z.lor (Z.lor _ _) _).
  assert (flag_full_mem vm_flags = true /\ flag_v2 vm_flags = true) as [HF H2].
  { unfold vm_flags. rewrite !flag_full_lor, !flag_v2_lor. split; [by rewrite orb_true_r|by rewrite orb_true_r]. }
  pose proof (law_create_vm vm_flags 0 d w5) as HV. rewrite HF, H2, E5 in HV.
  specialize (HV ltac:(rewrite lookup_insert_eq; by eexists) eq_refl).
  destruct (rx_create_vm vm_flags 0 d w5) as [v w6]. destruct (Z.eqb_spec v 0) as [->|Hv].
  - apply allocated_null in HV. rewrite (law_release_dataset d w6 (Some key)); rewrite HV;
      [by apply delete_insert_id|by apply lookup_insert_eq|by apply unused_new].
  - apply (allocated_new _ _ _ _ Hv) in HV as [Hf E6]. split; [done|]. cbn [full_dataset full_vm].
    apply lookup_insert_None in Hf as [Hf1 Hf2]. exists (RxDataset (Some key)). by split_and!.
Qed.

Lemma full_engine_drop e before w :
  world_ok before -> owns true (full_key e) (full_dataset e) (full_vm e) before (rx_objects w) ->
  rx_objects (FullEngine_drop e w) = before.
Proof.
  intros HW HO. unfold FullEngine_drop. destruct (owns_destroy _ _ _ _ _ _ HW HO) as (o & Ho & Hm & E & HU).
  destruct o as [|k|]; try done. rewrite (law_release_dataset _ _ k); rewrite E; [by apply delete_insert_id|by apply lookup_insert_eq|done].
Qed.

(** The inputs an engine hashes, one after the other. *)
Fixpoint hash_all (hash : list byte -> W -> arr 32 * W) (inputs : list (list byte)) (w : W) : list (arr 32) * W :=
  match inputs with
  | [] => ([], w)
  | input :: inputs => let '(h, w1) := hash input w in let '(hs, w2) := hash_all hash inputs w1 in (h :: hs, w2)
  end.

Lemma owns_hash_all full key memory vm before inputs w :
  owns full key memory vm before (rx_objects w) ->
  let '(hs, w') := hash_all (calculate_hash vm) inputs w in
  hs = map (rx_hash key) inputs /\ owns full key memory vm before (rx_objects w').
Proof.
  revert w. induction inputs as [|input inputs IH]; intros w HO; cbn [hash_all]; [done|]. unfold calculate_hash at 1.
  destruct (owns_hash _ _ _ _ _ w input HO) as [E HO1]. destruct (rx_calculate_hash vm input w) as [h w1]. cbn [fst snd] in *.
  specialize (IH w1 HO1). destruct (hash_all _ inputs w1) as [hs w2]. destruct IH as [-> HO2]. by rewrite E.
Qed.

(** C38: the engines own what they allocate.  In any world in which no machine
    reads released memory, creating a light or a full engine either fails and
    leaves nothing allocated, or yields an engine for the key it was asked
    for; the engine then hashes any inputs as RandomX version 2 does under
    that key, so the two kinds agree, and dropping it leaves exactly what was
    allocated before: nothing leaks, nothing is released twice or while a
    machine reads it, and no call breaks the conditions of the library. *)
Theorem engines_own_memory key inputs w :
  world_ok (rx_objects w) ->
  match LightEngineFfi_new key w with
  | (Err _, w1) => rx_objects w1 = rx_objects w
  | (Ok e, w1) =>
      let '(hs, w2) := hash_all (LightEngineFfi_hash e) inputs w1 in
      light_key e = key /\ hs = map (rx_hash key) inputs /\ rx_objects (LightEngineFfi_drop e w2) = rx_objects w
  end /\
  match FullEngine_new key w with
  | (Err _, w1) => rx_objects w1 = rx_objects w
  | (Ok e, w1) =>
      let '(hs, w2) := hash_all (FullEngine_hash e) inputs w1 in
      full_key e = key /\ hs = map (rx_hash key) inputs /\ rx_objects (FullEngine_drop e w2) = rx_objects w
  end.
Proof.
  intros HW. split.
  - pose proof (light_engine_new key w HW) as HL. destruct (LightEngineFfi_new key w) as [[e|e] w1]; [|by destruct HL].
    destruct HL as [<- HO]. pose proof (owns_hash_all _ _ _ _ _ inputs _ HO) as HH. unfold LightEngineFfi_hash.
    destruct (hash_all _ inputs w1) as [hs w2]. destruct HH as [-> HO2]. split_and!; [done..|by apply light_engine_drop].
  - pose proof (full_engine_new key w HW) as HL. destruct (FullEngine_new key w) as [[e|e] w1]; [|done].
    destruct HL as [<- HO]. pose proof (owns_hash_all _ _ _ _ _ inputs _ HO) as HH. unfold FullEngine_hash.
    destruct (hash_all _ inputs w1) as [hs w2]. destruct HH as [-> HO2]. split_and!; [done..|by apply full_engine_drop].
Qed.

End Ownership.

(** ** A library in memory *)

Definition world_alloc (o : RxObject) (w : gmap Ptr RxObject) : Ptr * gmap Ptr RxObject :=
  let p := fresh ({[0]} ∪ dom w : gset Ptr) in (p, <[p := o]> w).

Definition key_of (o : option RxObject) : option (arr 32) :=
  match o with Some (RxCache _ k) | Some (RxDataset k) => k | _ => None end.

(** Every allocation succeeds; the hash of an input is the key. *)
#[local] Instance memory_lib : RandomXLib (gmap Ptr RxObject) := {|
  rx_get_flags := fun _ => 0;
  rx_alloc_cache := fun flags => world_alloc (RxCache (flag_v2 flags) None);
  rx_init_cache := fun p key w => match w !! p with Some (RxCache v2 _) => <[p := RxCache v2 (Some key)]> w | _ => w end;
  rx_release_cache := fun p w => delete p w;
  rx_alloc_dataset := fun _ => world_alloc (RxDataset None);
  rx_dataset_item_count := fun _ => 1;
  rx_init_dataset := fun d c _ _ w => <[d := RxDataset (key_of (w !! c))]> w;
  rx_release_dataset := fun p w => delete p w;
  rx_create_vm := fun flags c d => world_alloc (RxVm (flag_v2 flags) (if flag_full_mem flags then d else c));
  rx_destroy_vm := fun p w => delete p w;
  rx_calculate_hash := fun p _ w =>
    (match w !! p with Some (RxVm _ m) => default (arr_fill 32 x00) (key_of (w !! m)) | _ => arr_fill 32 x00 end, w);
|}.

Lemma world_alloc_ok o w : let '(p, w') := world_alloc o w in allocated o w p w'.
Proof.
  unfold world_alloc, allocated. pose proof (is_fresh ({[0]} ∪ dom w : gset Ptr)) as HF. set (p := fresh _) in *.
  rewrite (proj2 (Z.eqb_neq _ _)) by set_solver. split; [|done]. apply not_elem_of_dom. set_solver.
Qed.

Lemma memory_key_of full o k : memory_key full o = Some k -> key_of o = Some k.
Proof. by destruct full, o as [[[] [?|]|[?|]|]|]. Qed.

#[local] Program Instance memory_laws : RandomXLaws (gmap Ptr RxObject) := {| rx_objects := fun w => w; rx_hash := fun k _ => k |}.
Next Obligation. intros flags w. apply world_alloc_ok. Qed.
Next Obligation. intros p key w v2 k E _. cbn. by rewrite E. Qed.
Next Obligation. done. Qed.
Next Obligation. intros flags w. apply world_alloc_ok. Qed.
Next Obligation. intros d c w k key _ _ E. cbn. by rewrite E. Qed.
Next Obligation. done. Qed.
Next Obligation. intros flags c d w memory other _ _. apply world_alloc_ok. Qed.
Next Obligation. done. Qed.
Next Obligation. intros p input w m full key E1 E2. cbn. rewrite E1, (memory_key_of _ _ _ E2). done. Qed.

Lemma empty_world_ok : world_ok (rx_objects (∅ : gmap Ptr RxObject)).
Proof. intros q v2 m Hq. cbn in Hq. by rewrite lookup_empty in Hq. Qed.

Lemma engines_own_memory_witness :
  match FullEngine_new (arr_fill 32 x07) (∅ : gmap Ptr RxObject) with
  | (Err _, w1) => rx_objects w1 = rx_objects (∅ : gmap Ptr RxObject)
  | (Ok e, w1) =>
      let '(hs, w2) := hash_all (FullEngine_hash e) [[x01]; [x02]] w1 in
      full_key e = arr_fill 32 x07 /\ hs = map (rx_hash (arr_fill 32 x07)) [[x01]; [x02]] /\
      rx_objects (FullEngine_drop e w2) = rx_objects (∅ : gmap Ptr RxObject)
  end.
Proof. exact (proj2 (engines_own_memory (arr_fill 32 x07) [[x01]; [x02]] ∅ empty_world_ok)). Defined.
